(* ===== verification/_CoqProject ===== *)
-Q . S2P
Prelude.v
Params.v
Serialize.v
BlockHash.v
Sha2.v
Sha256.v
Sha512.v
Sha1.v
Ripemd160.v
Crypto.v
Hashing.v
SipHash.v
Script.v
Standard.v
Transaction.v
StrEncodings.v
Base58.v
KeyIO.v
Vesting.v
Premine.v
Superblock.v
ValidationState.v
ArithUint256.v
Chain.v
Pow.v
Merkle.v
Genesis.v
EmptyRoots.v
NoteTree.v
Coins.v
NoteHash.v
TxVerify.v
Interpreter.v
Bloom.v
RollingBloom.v
MerkleBlock.v
Spending.v
Sighash.v
Stake.v
CheckBlock.v
Connect.v
Compressor.v
TxDB.v
Supply.v
Disconnect.v
Replay.v
Activate.v
Accept.v
NodeRun.v
