(* ===== verification/Prelude.v ===== *)
(** * KrovaCoin Core: a verification development

    KrovaCoin is a node of a proof-of-stake currency in the line of Bitcoin and
    PIVX (C++, src/src).  This library models its consensus code: what a
    transaction, a script and a block are, when they are valid, what a block
    does to the set of unspent outputs, which chain the node follows, and the
    rules of its own on the supply (premine, vesting, staking rewards pool).

    ** The parts, and the files that model them

    Data, from bytes up:
    - Prelude (this file): byte strings as lists of integers, fixed-width
      integers as [Z] with their wrap-around, bounds, list lemmas, tactics;
    - Params: consensus/params.h, consensus/upgrades.cpp, the three networks of
      chainparams.cpp, checkpoints.cpp, amount.h, moneysupply.h;
    - Serialize: serialize.h, as formats that pair a writer with a reader;
    - BlockHash: the buffered writers that the hashes of crypto/ share, over a
      class of block hashes; Sha2, Sha256, Sha512, Sha1, Ripemd160: the
      compression functions beside their descriptions; Hashing: HMAC, RFC 6979
      and [BIP32Hash]; SipHash: crypto/siphash.cpp;
    - Crypto: hash.h over the class [HashFunctions], of which Hashing gives the
      program's own instance;
    - Script, Standard: script/script.cpp, script/standard.cpp, pubkey.h;
    - Transaction: primitives/transaction.cpp, primitives/block.cpp;
    - StrEncodings: hexadecimal of utilstrencodings.cpp; Base58, KeyIO:
      base58.cpp and key_io.cpp, the addresses and keys as strings;
    - ArithUint256: arith_uint256.cpp, on 32-bit limbs;
    - Merkle: consensus/merkle.cpp;
    - NoteTree, NoteHash, EmptyRoots: sapling/incrementalmerkletree.cpp, the
      tree of note commitments, its witnesses and tables.

    Rules of this chain:
    - Vesting, Premine, Superblock: consensus/vesting.cpp, premine.cpp,
      superblock.cpp;
    - Genesis: the genesis blocks of chainparams.cpp.

    Validation:
    - ValidationState: consensus/validation.h, as a result monad ([Valid],
      [Failed] with the state, [Aborted] for a failed assertion);
    - TxVerify: consensus/tx_verify.cpp and the checks without context of
      sapling/sapling_validation.cpp;
    - Interpreter: script/interpreter.cpp, with every opcode, both signature
      hashes and the checkers; Spending and Sighash draw the consequences;
    - Coins: coins.cpp, the cache of unspent outputs over a parent view;
    - Chain: chain.cpp, the block index as a finite map from hashes to nodes,
      skip list and active chain;
    - Pow: pow.cpp;
    - Stake: kernel.cpp, stakeinput.cpp, legacy/stakemodifier.cpp, the stake
      modifiers of chain.cpp and [AddToBlockIndex] of validation.cpp;
    - CheckBlock: [CheckBlock], [CheckWork] and the contextual checks of
      validation.cpp, blocksignature.cpp;
    - Connect: [CheckInputs], [UpdateCoins], [ConnectBlock], [DisconnectBlock]
      of validation.cpp; Supply and Disconnect prove what they do;
    - Activate: [FindMostWorkChain], [ConnectTip], [DisconnectTip] and
      [ActivateBestChain] of validation.cpp;
    - Accept: [ProcessNewBlock], [AcceptBlock] with its search for double spends
      on forks, [ReceivedBlockTransactions], [InvalidateBlock] and
      [ReconsiderBlock] of validation.cpp, on one state of the node;
    - NodeRun: the runs of a node, as sequences of these operations.

    Storage:
    - Compressor: compressor.cpp, the stored forms of coins (coins.h) and of
      undo data (undo.h), and the undo records of validation.cpp;
    - TxDB: txdb.cpp, sapling/sapling_txdb.cpp and the batches of dbwrapper.h,
      over LevelDB as a finite map; Replay: [ReplayBlocks] of validation.cpp,
      the recovery at start.

    Services for light clients:
    - Bloom, RollingBloom: bloom.cpp, [MurmurHash3] of hash.cpp and the filter
      messages of net_processing.cpp;
    - MerkleBlock: merkleblock.cpp, partial Merkle trees.

    The parts meet as in the code: [ProcessNewBlock] checks a block, enters it
    in the tree ([AcceptBlock], Stake's [AddToBlockIndex]), links the blocks
    that waited for it and calls [ActivateBestChain]; that calls [ConnectTip],
    which runs [ConnectBlock] on a fresh cache over the tip's cache and flushes
    it; [ConnectBlock] calls [CheckBlock], the superblock check, for each
    transaction the coins cache, [CheckInputs] and the interpreter, and at last
    the premine check.

    ** How code becomes definitions

    A C++ function is a function that returns the state it leaves behind.
    Machine integers are [Z] with [i32], [i64], [u32], [u64] where the code may
    wrap.  An assertion that fails, an index out of range, a null pointer that
    is followed and an exception that nothing catches are [None] or [Aborted],
    never a made-up value.  Loops that are not structural take fuel: the height
    of the block for walks up the tree, the bytes left for parsers,
    [MAX_OUTPUTS_PER_BLOCK] for [AccessByTxid] as in the code, [activation_fuel]
    for the activation of the best chain, the number of waiting blocks for
    [ReceivedBlockTransactions]; theorems show that it is enough, so that running out is never
    an answer.

    Code outside of what is modelled enters as classes with laws, each with an
    instance that evaluates: [HashFunctions] (SHA-256, RIPEMD-160, the header
    hash, BLAKE2b: only output sizes are assumed), [Ecdsa] (secp256k1),
    [SaplingTree] (the note commitment tree, with NoteHash's [sapling_tree] over
    any Pedersen hash as an instance), [SaplingVerifier] (librustzcash), [Curve]
    (the points of secp256k1, for compressed keys) and [TreeFormat] (the stored
    form of a note tree).  No hash is assumed to be injective: a
    theorem that needs it asks, with [injective_on], that the hash does not
    collide on the strings that the code hashes in the situation at hand, which
    its definitions list.

    ** What the theorems show

    - Money (Supply, Premine, Superblock, Vesting): with sound blocks (as
      Supply defines them) the supply never exceeds 72 billion coins and a block
      creates its subsidy at most; the premine, the
      payouts of the pool and the vesting schedule are exactly the documented
      ones, and a payout conserves the coin that it spends.
    - Node (NodeRun, Accept): in whatever order blocks arrive, are invalidated
      and reconsidered, the node stays consistent, with the coins at the tip of
      the active chain, and its loops end and its assertions hold; what the
      double-spend checks on forks guarantee.
    - Chain (Activate, Disconnect, Chain, Stake): activation ends with the best
      candidate; disconnecting undoes connecting; the index stays well formed;
      skip lists and forks are what a plain walk finds; a proof of stake is
      what it claims.
    - Coins: the cache implements the abstract chain state for every legal
      sequence of operations, and flushing publishes it.
    - Storage (Compressor, TxDB, Replay): amounts, coins and undo records are
      read back as they were written, with the exact range of amounts for which
      this is so; a flush takes effect as a whole or leaves a database that
      says what was interrupted, and [ReplayBlocks] completes it, however often
      it is interrupted itself.
    - Scripts (Interpreter, Spending, Sighash, Script, Standard): evaluation
      always answers within its limits; who can spend an output to a key hash,
      a vesting output and a delegated output; what a signature commits to;
      builders, templates and script numbers are inverse.
    - Encodings (Serialize, Transaction, KeyIO, ArithUint256, Merkle, Pow):
      round trips, canonical forms, addresses and their strings, limb arithmetic as arithmetic modulo 2^256, the
      Merkle computation as the tree, targets and work.
    - Hashes (Hashing, SipHash, Genesis, NoteHash): the streaming hashers
      compute the standard functions however the input is cut; HMAC; the
      genesis blocks have the asserted hashes; the incremental tree has the
      root of the full tree, and a witness keeps up with it.
    - Light clients (Bloom, RollingBloom, MerkleBlock): filters have no false
      negatives and survive every message; the rolling filter keeps what it
      promises; a partial Merkle tree proves what was asked for, and cannot lie
      where the hash does not collide.

    Hypotheses that a theorem needs because the code does not check them have
    an example that shows what happens otherwise
    ([coinstakes_in_pow_block_inflate], [zerocoin_sequence_inflates],
    [zerocoin_mint_unclean], [kernel_target_wraps], [stake_depth_not_enforced],
    [stake_output_unchecked], [dust_pool_coin_accepted], [tree_size_overflows],
    [witness_unequal_after_reading], [failed_parent_reconsidered],
    [merge_full_crashes], [merge_forgets], [flag_bits_exceed],
    [root_as_transaction], [pool_change_lost], [replay_forgets_nullifier],
    [created_after_split]).

    ** Not modelled

    The memory pool and relay policy, block files and the databases other than
    that of the coins (blocks and undo data on disk are found by the hash of
    their block), the load of the block index at start and the self-test
    [CheckBlockIndex], the
    network but for the filter messages, the sizing of filters with
    floating-point logarithms, the wallet, mining, remote calls and the graphical interface: input
    and output, or code on which no consensus rule depends.  The Quark hashes,
    BLAKE2b, the Pedersen hash, elliptic curves and zero-knowledge proofs are
    interfaces.  Threads and locks are not modelled: validation runs under one
    lock. *)

From stdpp Require Export base numbers list option gmap.
From Stdlib Require Export ZArith Lia.

Declare Scope krova_scope.
Delimit Scope krova_scope with krova.
Open Scope Z_scope.

(** ** Machine integers *)

(** [uint w x] is the value an unsigned [w]-bit variable holds after [x] is
    stored in it; [sint w x] the value of a signed (two's complement) one. *)
Definition uint (w x : Z) : Z := x mod 2 ^ w.
Definition sint (w x : Z) : Z := (x + 2 ^ (w - 1)) mod 2 ^ w - 2 ^ (w - 1).

Definition INT64_MAX : Z := 9223372036854775807.
Definition INT64_MIN : Z := -9223372036854775808.
Definition INT32_MAX : Z := 2147483647.
Definition INT32_MIN : Z := -2147483648.

Abbreviation u8 := (uint 8).
Abbreviation u32 := (uint 32).
Abbreviation u64 := (uint 64).
Abbreviation i32 := (sint 32).
Abbreviation i64 := (sint 64).

Definition in_i64 (x : Z) : Prop := INT64_MIN <= x <= INT64_MAX.
Definition in_i32 (x : Z) : Prop := INT32_MIN <= x <= INT32_MAX.

Lemma uint_range w x : 0 <= w -> 0 <= uint w x < 2 ^ w.
Proof. intros. apply Z.mod_pos_bound. lia. Qed.

Lemma uint_id w x : 0 <= x < 2 ^ w -> uint w x = x.
Proof. apply Z.mod_small. Qed.

Lemma i64_id x : in_i64 x -> i64 x = x.
Proof.
  unfold in_i64, INT64_MIN, INT64_MAX, sint. intros.
  change (2 ^ (64 - 1)) with 9223372036854775808.
  change (2 ^ 64) with 18446744073709551616.
  rewrite Z.mod_small; lia.
Qed.

Lemma i32_id x : in_i32 x -> i32 x = x.
Proof.
  unfold in_i32, INT32_MIN, INT32_MAX, sint. intros.
  change (2 ^ (32 - 1)) with 2147483648.
  change (2 ^ 32) with 4294967296.
  rewrite Z.mod_small; lia.
Qed.

(** Two's complement values are congruent to what was stored: sums that
    overflow on the way are exact again once the true value is in range. *)
Lemma i64_cong x : exists k, i64 x = x + k * 2 ^ 64.
Proof.
  unfold sint. exists (- ((x + 2 ^ (64 - 1)) / 2 ^ 64)).
  pose proof (Z.div_mod (x + 2 ^ (64 - 1)) (2 ^ 64)). lia.
Qed.

Lemma i64_range x : in_i64 (i64 x).
Proof.
  unfold in_i64, sint, INT64_MIN, INT64_MAX.
  pose proof (Z.mod_pos_bound (x + 2 ^ (64 - 1)) (2 ^ 64)).
  change (2 ^ (64 - 1)) with 9223372036854775808 in *.
  change (2 ^ 64) with 18446744073709551616 in *. lia.
Qed.

Lemma i64_shift x k : i64 (x + k * 2 ^ 64) = i64 x.
Proof.
  unfold sint. rewrite <- Z.add_assoc, (Z.add_comm (k * _)), Z.add_assoc.
  rewrite Z.mod_add by lia. done.
Qed.

Lemma i64_add_l x y : i64 (i64 x + y) = i64 (x + y).
Proof.
  destruct (i64_cong x) as [k ->].
  replace (x + k * 2 ^ 64 + y) with (x + y + k * 2 ^ 64) by lia. apply i64_shift.
Qed.

Lemma i64_add_r x y : i64 (x + i64 y) = i64 (x + y).
Proof. rewrite Z.add_comm, i64_add_l. f_equal. lia. Qed.

Lemma i64_sub_l x y : i64 (i64 x - y) = i64 (x - y).
Proof. rewrite <- !Z.add_opp_r. apply i64_add_l. Qed.

Lemma i64_sub_r x y : i64 (x - i64 y) = i64 (x - y).
Proof.
  destruct (i64_cong y) as [k ->].
  replace (x - (y + k * 2 ^ 64)) with (x - y + (- k) * 2 ^ 64) by lia. apply i64_shift.
Qed.

(** ** Bit operations *)

Lemma land_ones_mod x k : 0 <= k -> Z.land x (Z.ones k) = x mod 2 ^ k.
Proof. apply Z.land_ones. Qed.

(** Disjoint bits: a shifted value and a value below the shift. *)
Lemma land_shiftl_low n x k : 0 <= k -> 0 <= x < 2 ^ k -> Z.land (Z.shiftl n k) x = 0.
Proof.
  intros Hk Hx. apply Z.bits_inj'. intros i Hi.
  rewrite Z.land_spec, Z.shiftl_spec, Z.bits_0 by lia.
  destruct (Z.lt_ge_cases i k).
  - rewrite Z.testbit_neg_r by lia. done.
  - rewrite <- (Z.mod_small x (2 ^ k)), Z.mod_pow2_bits_high by lia. apply andb_false_r.
Qed.

Lemma lor_shiftl_add n x k :
  0 <= k -> 0 <= x < 2 ^ k -> Z.lor (Z.shiftl n k) x = n * 2 ^ k + x.
Proof.
  intros Hk Hx. pose proof (land_shiftl_low n x k Hk Hx) as H0.
  rewrite <- Z.lxor_lor, <- Z.add_nocarry_lxor by done.
  by rewrite Z.shiftl_mul_pow2 by lia.
Qed.

(** ** Sums over lists *)

Fixpoint sumZ {A} (f : A -> Z) (l : list A) : Z :=
  match l with
  | [] => 0
  | a :: l => f a + sumZ f l
  end.

Section sums.
Context {A : Type} (f : A -> Z).

Lemma sumZ_app l k : sumZ f (l ++ k) = sumZ f l + sumZ f k.
Proof. induction l; simpl; lia. Qed.

Lemma sumZ_nonneg l : Forall (fun a => 0 <= f a) l -> 0 <= sumZ f l.
Proof. induction 1; cbn in *; lia. Qed.

Lemma sumZ_elem_le l a : Forall (fun a => 0 <= f a) l -> a ∈ l -> f a <= sumZ f l.
Proof.
  induction 1 as [|b l Hb Hl IH]; intros Ha; [by apply not_elem_of_nil in Ha|].
  apply sumZ_nonneg in Hl. apply elem_of_cons in Ha as [->|Ha]; cbn [sumZ]; [lia|].
  apply IH in Ha. lia.
Qed.

Lemma sumZ_perm l k : l ≡ₚ k -> sumZ f l = sumZ f k.
Proof. induction 1; cbn in *; lia. Qed.

Lemma sumZ_le (g : A -> Z) l : Forall (fun a => f a <= g a) l -> sumZ f l <= sumZ g l.
Proof. induction 1; cbn in *; lia. Qed.

Lemma sumZ_ext (g : A -> Z) l : Forall (fun a => f a = g a) l -> sumZ f l = sumZ g l.
Proof. induction 1; cbn in *; lia. Qed.

Lemma sumZ_fmap {B} (h : B -> A) l : sumZ f (h <$> l) = sumZ (f ∘ h) l.
Proof. induction l as [|b l IH]; [done|]. rewrite fmap_cons. cbn [sumZ]. by rewrite IH. Qed.
End sums.

(** ** Vectors *)

(** [size()] of a container. *)
Definition size {A} (l : list A) : Z := Z.of_nat (length l).

Lemma size_nonneg {A} (l : list A) : 0 <= size l.
Proof. unfold size. lia. Qed.

Lemma size_app {A} (l k : list A) : size (l ++ k) = size l + size k.
Proof. unfold size. rewrite length_app. lia. Qed.

Lemma size_cons {A} (a : A) l : size (a :: l) = size l + 1.
Proof. unfold size. simpl. lia. Qed.

Lemma to_nat_size {A} (l : list A) : Z.to_nat (size l) = length l.
Proof. apply Nat2Z.id. Qed.

(** ** Bytes and little-endian integers *)

Abbreviation bytes := (list Z).

(** Byte [i] of a vector; only read below the size. *)
Definition at_ (l : bytes) (i : nat) : Z := nth i l 0.

Definition byte_ok (b : Z) : Prop := 0 <= b < 256.
Abbreviation bytes_ok := (Forall byte_ok).

Definition byte_okb (b : Z) : bool := (0 <=? b) && (b <? 256).
Definition bytes_okb (l : bytes) : bool := forallb byte_okb l.

Lemma bytes_okb_spec l : bytes_okb l = true -> bytes_ok l.
Proof.
  unfold bytes_okb. rewrite forallb_forall, Forall_forall.
  intros H x Hx. apply list_elem_of_In, H in Hx.
  unfold byte_okb, byte_ok in *. lia.
Qed.

(** A property of bytes is decided by its 256 instances. *)
Definition all_bytes : list Z := map Z.of_nat (seq 0 256).

Lemma byte_forall (P : Z -> bool) b : forallb P all_bytes = true -> byte_ok b -> P b = true.
Proof.
  unfold byte_ok. rewrite forallb_forall. intros H Hb. apply H.
  apply in_map_iff. exists (Z.to_nat b). split; [lia|]. apply in_seq. lia.
Qed.

Lemma byte_land_80 b : byte_ok b -> (Z.land b 0x80 =? 0) = (b <? 0x80).
Proof. intros. apply eqb_true_iff. by apply (byte_forall (fun b => eqb (Z.land b 0x80 =? 0) (b <? 0x80))). Qed.

Lemma byte_land_7f b : byte_ok b -> Z.land b 0x7f = b mod 128.
Proof. intros. apply (Z.land_ones b 7). lia. Qed.

Lemma byte_lor_80 b : 0 <= b < 128 -> Z.lor b 0x80 = b + 128.
Proof. intros. rewrite Z.lor_comm. pose proof (lor_shiftl_add 1 b 7) as H'. change (Z.shiftl 1 7) with 0x80 in H'. lia. Qed.

(** [le_bytes n x] is what WriteLE16/32/64 store for [n] = 2, 4, 8 bytes;
    [le_value] what ReadLE reads back. *)
Fixpoint le_bytes (n : nat) (x : Z) : bytes :=
  match n with
  | O => []
  | S n => x mod 256 :: le_bytes n (x / 256)
  end.

Fixpoint le_value (l : bytes) : Z :=
  match l with
  | [] => 0
  | b :: l => b + 256 * le_value l
  end.

Lemma length_le_bytes n x : length (le_bytes n x) = n.
Proof. revert x; induction n; simpl; auto. Qed.

Lemma le_bytes_ok n x : bytes_ok (le_bytes n x).
Proof.
  revert x; induction n; intros; simpl; constructor; auto.
  apply Z.mod_pos_bound. lia.
Qed.

Lemma le_value_bytes n x : le_value (le_bytes n x) = x mod 256 ^ Z.of_nat n.
Proof.
  revert x; induction n as [|n IH]; intros x; cbn [le_bytes le_value].
  - rewrite Z.pow_0_r, Z.mod_1_r. done.
  - rewrite IH, Nat2Z.inj_succ, Z.pow_succ_r by lia.
    rewrite Z.rem_mul_r by lia. lia.
Qed.

Lemma le_value_bound l : bytes_ok l -> 0 <= le_value l < 256 ^ Z.of_nat (length l).
Proof.
  induction 1 as [|b l Hb _ IH]; cbn [le_value length].
  - simpl. lia.
  - rewrite Nat2Z.inj_succ, Z.pow_succ_r by lia. unfold byte_ok in Hb. lia.
Qed.

Lemma le_bytes_value l : bytes_ok l -> le_bytes (length l) (le_value l) = l.
Proof.
  induction 1 as [|b l Hb _ IH]; cbn [le_value length le_bytes]; [done|].
  unfold byte_ok in Hb.
  rewrite (Z.mul_comm 256), Z.mod_add, Z.mod_small by lia.
  rewrite Z.div_add, Z.div_small, Z.add_0_l, IH by lia. done.
Qed.

Lemma le_value_app l k : le_value (l ++ k) = le_value l + 256 ^ Z.of_nat (length l) * le_value k.
Proof.
  induction l as [|b l IH]; cbn [le_value length app].
  - simpl. lia.
  - rewrite IH, Nat2Z.inj_succ, Z.pow_succ_r by lia. lia.
Qed.

(** ** Functions without collisions on a list of inputs *)

Definition injective_on {A B} (f : A -> B) (Q : list A) : Prop := Forall (fun x => Forall (fun y => f x = f y -> x = y) Q) Q.

#[export] Instance injective_on_dec `{EqDecision A, EqDecision B} (f : A -> B) Q : Decision (injective_on f Q).
Proof. unfold injective_on. apply _. Defined.

Lemma injective_on_eq {A B} (f : A -> B) Q x y : injective_on f Q -> x ∈ Q -> y ∈ Q -> f x = f y -> x = y.
Proof. intros I X Y. exact (proj1 (Forall_forall _ _) (proj1 (Forall_forall _ _) I x X) y Y). Qed.

(** ** Option (fallible computations: a C++ assert that fails, an exception) *)

Lemma bind_Some_inv {A B} (f : A -> option B) (m : option A) b :
  m ≫= f = Some b -> exists a, m = Some a /\ f a = Some b.
Proof. destruct m; simpl; [eauto | done]. Qed.

(** [assert b k] is [assert(b); k]: [None] is an aborted process. *)
Definition assert {A} (b : bool) (k : option A) : option A := if b then k else None.

(** ** Tactics *)

(** Case analysis on the innermost scrutinee of the goal or a hypothesis. *)
Ltac destruct_match :=
  match goal with
  | |- context [match ?x with _ => _ end] =>
      lazymatch x with context [match _ with _ => _ end] => fail | _ => destruct x eqn:? end
  end.

Ltac destruct_match_in H :=
  match type of H with
  | context [match ?x with _ => _ end] =>
      lazymatch x with context [match _ with _ => _ end] => fail | _ => destruct x eqn:? end
  end.

(** Turns boolean tests of the code into arithmetic facts. *)
Ltac bool_to_prop :=
  repeat match goal with
  | H : (_ && _)%bool = true |- _ => apply andb_prop in H; destruct H
  | H : (_ || _)%bool = false |- _ => apply orb_false_elim in H; destruct H
  | H : negb _ = true |- _ => apply negb_true_iff in H
  | H : negb _ = false |- _ => apply negb_false_iff in H
  | H : Z.eqb _ _ = true |- _ => apply Z.eqb_eq in H
  | H : Z.eqb _ _ = false |- _ => apply Z.eqb_neq in H
  | H : Z.leb _ _ = true |- _ => apply Z.leb_le in H
  | H : Z.leb _ _ = false |- _ => apply Z.leb_gt in H
  | H : Z.ltb _ _ = true |- _ => apply Z.ltb_lt in H
  | H : Z.ltb _ _ = false |- _ => apply Z.ltb_ge in H
  | H : bool_decide _ = true |- _ => apply bool_decide_eq_true in H
  | H : bool_decide _ = false |- _ => apply bool_decide_eq_false in H
  end.

Create HintDb krova.
Create Rewrite HintDb i64.
Create Rewrite HintDb krova.
#[export] Hint Resolve i64_range le_bytes_ok size_nonneg : krova.
#[export] Hint Rewrite i64_add_l i64_add_r i64_sub_l i64_sub_r : i64.
#[export] Hint Rewrite length_le_bytes @size_app @size_cons @to_nat_size : krova.
