(* ===== verification/Params.v ===== *)
(** * Amounts, consensus parameters and network upgrades

    amount.h, moneysupply.h, consensus/params.h, consensus/upgrades.{h,cpp},
    the three parameter sets of chainparams.cpp and checkpoints.cpp.  A failed
    [assert] aborts the process: such functions return [None] there. *)

From S2P Require Import Prelude.

(** ** Amounts (amount.h) *)

Abbreviation CAmount := Z (only parsing).

Definition COIN : CAmount := 100000000.
Definition CENT : CAmount := 1000000.

(** [CheckedAdd a b out]: [Some] of the new [out], [None] for [false] (where
    [out] is left alone). *)
Definition CheckedAdd (a b : CAmount) : option CAmount :=
  if (0 <? b) && (INT64_MAX - b <? a) then None
  else if (b <? 0) && (a <? INT64_MIN - b) then None
  else Some (i64 (a + b)).

(** ** Cached money supply (moneysupply.h) *)

Record CMoneySupply := mkCMoneySupply { nSupply : CAmount; ms_nHeight : Z }.

Definition CMoneySupply_new : CMoneySupply := mkCMoneySupply 0 0.
Definition CMoneySupply_Update (_ : CMoneySupply) (s : CAmount) (h : Z) : CMoneySupply :=
  mkCMoneySupply s h.
Definition CMoneySupply_Get (m : CMoneySupply) : CAmount := nSupply m.
Definition CMoneySupply_GetCacheHeight (m : CMoneySupply) : Z := ms_nHeight m.

(** ** Consensus parameters (consensus/params.h) *)

Inductive UpgradeIndex :=
| BASE_NETWORK | UPGRADE_POS | UPGRADE_POS_V2 | UPGRADE_ZC | UPGRADE_ZC_V2
| UPGRADE_BIP65 | UPGRADE_ZC_PUBLIC | UPGRADE_V3_4 | UPGRADE_V4_0 | UPGRADE_V5_0
| UPGRADE_V5_2 | UPGRADE_V5_3 | UPGRADE_V5_5 | UPGRADE_V5_6 | UPGRADE_V6_0
| UPGRADE_TESTDUMMY.

#[export] Instance UpgradeIndex_eq_dec : EqDecision UpgradeIndex.
Proof. solve_decision. Defined.

(** The enumerators in order; [MAX_NETWORK_UPGRADES] is the length. *)
Definition UpgradeIndex_all : list UpgradeIndex :=
  [BASE_NETWORK; UPGRADE_POS; UPGRADE_POS_V2; UPGRADE_ZC; UPGRADE_ZC_V2;
   UPGRADE_BIP65; UPGRADE_ZC_PUBLIC; UPGRADE_V3_4; UPGRADE_V4_0; UPGRADE_V5_0;
   UPGRADE_V5_2; UPGRADE_V5_3; UPGRADE_V5_5; UPGRADE_V5_6; UPGRADE_V6_0;
   UPGRADE_TESTDUMMY].

Definition ALWAYS_ACTIVE : Z := 0.
Definition NO_ACTIVATION_HEIGHT : Z := -1.

(** The fields of [Consensus::Params] that the modelled code reads;
    [vUpgrades] gives the [nActivationHeight] of each upgrade. *)
Record ConsensusParams := mkConsensusParams {
  hashGenesisBlock : Z;
  fPowAllowMinDifficultyBlocks : bool;
  fPowNoRetargeting : bool;
  powLimit : Z;
  posLimitV1 : Z;
  posLimitV2 : Z;
  nBudgetCycleBlocks : Z;
  nCoinbaseMaturity : Z;
  nFutureTimeDriftPoW : Z;
  nFutureTimeDriftPoS : Z;
  nMaxMoneyOut : CAmount;
  nStakeMinAge : Z;
  nStakeMinDepth : Z;
  nTargetTimespan : Z;
  nTargetTimespanV2 : Z;
  nTargetSpacing : Z;
  nTimeSlotLength : Z;
  height_last_invalid_UTXO : Z;
  nKrovacoinBadBlockTime : option Z;
  nKrovacoinBadBlockBits : option Z;
  vUpgrades : UpgradeIndex -> Z
}.

Definition TargetTimespan (p : ConsensusParams) (fV2 : bool) : Z :=
  if fV2 then nTargetTimespanV2 p else nTargetTimespan p.

Definition ProofOfStakeLimit (p : ConsensusParams) (fV2 : bool) : Z :=
  if fV2 then posLimitV2 p else posLimitV1 p.

Definition MoneyRange (p : ConsensusParams) (nValue : CAmount) : bool :=
  (0 <=? nValue) && (nValue <=? nMaxMoneyOut p).

(** ** Network upgrades (consensus/upgrades.cpp) *)

Inductive UpgradeState := UPGRADE_DISABLED | UPGRADE_PENDING | UPGRADE_ACTIVE.

#[export] Instance UpgradeState_eq_dec : EqDecision UpgradeState.
Proof. solve_decision. Defined.

Definition NetworkUpgradeState (nHeight : Z) (params : ConsensusParams) (idx : UpgradeIndex)
  : option UpgradeState :=
  assert (0 <=? nHeight)
    (let nActivationHeight := vUpgrades params idx in
     if nActivationHeight =? NO_ACTIVATION_HEIGHT then Some UPGRADE_DISABLED
     else if nActivationHeight <=? nHeight then Some UPGRADE_ACTIVE
     else Some UPGRADE_PENDING).

Definition NetworkUpgradeActive (nHeight : Z) (params : ConsensusParams) (idx : UpgradeIndex)
  : option bool :=
  s ← NetworkUpgradeState nHeight params idx;
  Some (bool_decide (s = UPGRADE_ACTIVE)).

(** The loop of [CurrentEpoch], over the upgrades left to try (highest index
    first, [BASE_NETWORK] excluded). *)
Fixpoint CurrentEpoch_loop (nHeight : Z) (params : ConsensusParams) (idxs : list UpgradeIndex)
  : option UpgradeIndex :=
  match idxs with
  | [] => Some BASE_NETWORK
  | idx :: idxs =>
      a ← NetworkUpgradeActive nHeight params idx;
      if (a : bool) then Some idx else CurrentEpoch_loop nHeight params idxs
  end.

Definition CurrentEpoch (nHeight : Z) (params : ConsensusParams) : option UpgradeIndex :=
  CurrentEpoch_loop nHeight params (reverse (tail UpgradeIndex_all)).

Definition IsActivationHeight (nHeight : Z) (params : ConsensusParams) (idx : UpgradeIndex) : bool :=
  if bool_decide (idx = BASE_NETWORK) then false
  else (0 <=? nHeight) && (nHeight =? vUpgrades params idx).

Definition IsActivationHeightForAnyUpgrade (nHeight : Z) (params : ConsensusParams) : bool :=
  if nHeight <? 0 then false
  else existsb (fun idx => nHeight =? vUpgrades params idx) (tail UpgradeIndex_all).

Fixpoint NextEpoch_loop (nHeight : Z) (params : ConsensusParams) (idxs : list UpgradeIndex)
  : option (option UpgradeIndex) :=
  match idxs with
  | [] => Some None
  | idx :: idxs =>
      s ← NetworkUpgradeState nHeight params idx;
      if bool_decide (s = UPGRADE_PENDING) then Some (Some idx)
      else NextEpoch_loop nHeight params idxs
  end.

Definition NextEpoch (nHeight : Z) (params : ConsensusParams) : option (option UpgradeIndex) :=
  if nHeight <? 0 then Some None
  else NextEpoch_loop nHeight params (tail UpgradeIndex_all).

Definition NextActivationHeight (nHeight : Z) (params : ConsensusParams) : option (option Z) :=
  idx ← NextEpoch nHeight params;
  Some (option_map (vUpgrades params) idx).

(** ** Methods of [Consensus::Params] that depend on the upgrades *)

Definition IsTimeProtocolV2 (p : ConsensusParams) (nHeight : Z) : option bool :=
  NetworkUpgradeActive nHeight p UPGRADE_V4_0.

Definition FutureBlockTimeDrift (p : ConsensusParams) (nHeight : Z) : option Z :=
  v2 ← IsTimeProtocolV2 p nHeight;
  if (v2 : bool) then Some (nTimeSlotLength p - 1)
  else
    pos ← NetworkUpgradeActive nHeight p UPGRADE_POS;
    Some (if (pos : bool) then nFutureTimeDriftPoS p else nFutureTimeDriftPoW p).

Definition IsValidBlockTimeStamp (p : ConsensusParams) (nTime nHeight : Z) : option bool :=
  v2 ← IsTimeProtocolV2 p nHeight;
  if negb v2 then Some true
  else Some (Z.rem nTime (nTimeSlotLength p) =? 0).

(** [utxoFromBlockTime + nStakeMinAge] is computed in [uint32_t]. *)
Definition Params_HasStakeMinAgeOrDepth (p : ConsensusParams)
    (contextHeight contextTime utxoFromBlockHeight utxoFromBlockTime : Z) : option bool :=
  v34 ← NetworkUpgradeActive contextHeight p UPGRADE_V3_4;
  if negb v34 then Some (u32 (utxoFromBlockTime + nStakeMinAge p) <=? contextTime)
  else Some (nStakeMinDepth p <=? contextHeight - utxoFromBlockHeight).

(** ** The three networks (chainparams.cpp) *)

Definition main_vUpgrades (idx : UpgradeIndex) : Z :=
  match idx with
  | BASE_NETWORK => ALWAYS_ACTIVE
  | UPGRADE_TESTDUMMY => NO_ACTIVATION_HEIGHT
  | UPGRADE_POS => 601
  | UPGRADE_POS_V2 => 601
  | UPGRADE_ZC => NO_ACTIVATION_HEIGHT
  | UPGRADE_ZC_V2 => NO_ACTIVATION_HEIGHT
  | UPGRADE_BIP65 => ALWAYS_ACTIVE
  | UPGRADE_ZC_PUBLIC => NO_ACTIVATION_HEIGHT
  | UPGRADE_V3_4 => 601
  | UPGRADE_V4_0 => ALWAYS_ACTIVE
  | UPGRADE_V5_0 => ALWAYS_ACTIVE
  | UPGRADE_V5_2 => ALWAYS_ACTIVE
  | UPGRADE_V5_3 => ALWAYS_ACTIVE
  | UPGRADE_V5_5 => ALWAYS_ACTIVE
  | UPGRADE_V5_6 => ALWAYS_ACTIVE
  | UPGRADE_V6_0 => NO_ACTIVATION_HEIGHT
  end.

Definition test_vUpgrades (idx : UpgradeIndex) : Z :=
  match idx with
  | BASE_NETWORK => ALWAYS_ACTIVE
  | UPGRADE_TESTDUMMY => NO_ACTIVATION_HEIGHT
  | UPGRADE_POS => 101
  | UPGRADE_POS_V2 => 101
  | UPGRADE_ZC => NO_ACTIVATION_HEIGHT
  | UPGRADE_ZC_V2 => NO_ACTIVATION_HEIGHT
  | UPGRADE_BIP65 => ALWAYS_ACTIVE
  | UPGRADE_ZC_PUBLIC => NO_ACTIVATION_HEIGHT
  | UPGRADE_V3_4 => 101
  | UPGRADE_V4_0 => ALWAYS_ACTIVE
  | UPGRADE_V5_0 => ALWAYS_ACTIVE
  | UPGRADE_V5_2 => ALWAYS_ACTIVE
  | UPGRADE_V5_3 => ALWAYS_ACTIVE
  | UPGRADE_V5_5 => ALWAYS_ACTIVE
  | UPGRADE_V5_6 => ALWAYS_ACTIVE
  | UPGRADE_V6_0 => NO_ACTIVATION_HEIGHT
  end.

Definition regtest_vUpgrades (idx : UpgradeIndex) : Z :=
  match idx with
  | BASE_NETWORK => ALWAYS_ACTIVE
  | UPGRADE_TESTDUMMY => NO_ACTIVATION_HEIGHT
  | UPGRADE_POS => 4
  | UPGRADE_POS_V2 => 4
  | UPGRADE_ZC => NO_ACTIVATION_HEIGHT
  | UPGRADE_ZC_V2 => NO_ACTIVATION_HEIGHT
  | UPGRADE_BIP65 => ALWAYS_ACTIVE
  | UPGRADE_ZC_PUBLIC => NO_ACTIVATION_HEIGHT
  | UPGRADE_V3_4 => 4
  | UPGRADE_V4_0 => ALWAYS_ACTIVE
  | UPGRADE_V5_0 => ALWAYS_ACTIVE
  | UPGRADE_V5_2 => ALWAYS_ACTIVE
  | UPGRADE_V5_3 => ALWAYS_ACTIVE
  | UPGRADE_V5_5 => ALWAYS_ACTIVE
  | UPGRADE_V5_6 => ALWAYS_ACTIVE
  | UPGRADE_V6_0 => NO_ACTIVATION_HEIGHT
  end.

Definition CMainParams_consensus : ConsensusParams := {|
  hashGenesisBlock := 0x000001c2f0bad388f63e3b81b05dce775b458cb99841abd82e91bba56ac261b4;
  fPowAllowMinDifficultyBlocks := false;
  fPowNoRetargeting := false;
  powLimit := 0x00000fffffffffffffffffffffffffffffffffffffffffffffffffffffffffff;
  posLimitV1 := 0x000000ffffffffffffffffffffffffffffffffffffffffffffffffffffffffff;
  posLimitV2 := 0x00000fffffffffffffffffffffffffffffffffffffffffffffffffffffffffff;
  nBudgetCycleBlocks := 1440;
  nCoinbaseMaturity := 100;
  nFutureTimeDriftPoW := 7200;
  nFutureTimeDriftPoS := 180;
  nMaxMoneyOut := 72000000000 * COIN;
  nStakeMinAge := 60 * 60;
  nStakeMinDepth := 600;
  nTargetTimespan := 40 * 60;
  nTargetTimespanV2 := 30 * 60;
  nTargetSpacing := 1 * 60;
  nTimeSlotLength := 15;
  height_last_invalid_UTXO := 894538;
  nKrovacoinBadBlockTime := Some 1471401614;
  nKrovacoinBadBlockBits := Some 0x1c056dac;
  vUpgrades := main_vUpgrades
|}.

(** The constructors of the other two networks never assign
    [nKrovacoinBadBlockTime/Bits]: [None], an indeterminate value. *)
Definition CTestNetParams_consensus : ConsensusParams := {|
  hashGenesisBlock := 0x00000ef56932bb65700cb706c8eef59a39c3f279cc6062cdf7fc4a3b0d533f38;
  fPowAllowMinDifficultyBlocks := true;
  fPowNoRetargeting := false;
  powLimit := 0x00000fffffffffffffffffffffffffffffffffffffffffffffffffffffffffff;
  posLimitV1 := 0x000000ffffffffffffffffffffffffffffffffffffffffffffffffffffffffff;
  posLimitV2 := 0x00000fffffffffffffffffffffffffffffffffffffffffffffffffffffffffff;
  nBudgetCycleBlocks := 50;
  nCoinbaseMaturity := 15;
  nFutureTimeDriftPoW := 7200;
  nFutureTimeDriftPoS := 180;
  nMaxMoneyOut := 72000000000 * COIN;
  nStakeMinAge := 60 * 60;
  nStakeMinDepth := 100;
  nTargetTimespan := 40 * 60;
  nTargetTimespanV2 := 30 * 60;
  nTargetSpacing := 1 * 60;
  nTimeSlotLength := 15;
  height_last_invalid_UTXO := -1;
  nKrovacoinBadBlockTime := None;
  nKrovacoinBadBlockBits := None;
  vUpgrades := test_vUpgrades
|}.

Definition CRegTestParams_consensus : ConsensusParams := {|
  hashGenesisBlock := 0x266d0526e0cf1f45c2783092808755f26cabb7bca1aa90835810cb8cd4cf585c;
  fPowAllowMinDifficultyBlocks := true;
  fPowNoRetargeting := true;
  powLimit := 0x7fffffffffffffffffffffffffffffffffffffffffffffffffffffffffffffff;
  posLimitV1 := 0x000000ffffffffffffffffffffffffffffffffffffffffffffffffffffffffff;
  posLimitV2 := 0x00000fffffffffffffffffffffffffffffffffffffffffffffffffffffffffff;
  nBudgetCycleBlocks := 10;
  nCoinbaseMaturity := 2;
  nFutureTimeDriftPoW := 7200;
  nFutureTimeDriftPoS := 180;
  nMaxMoneyOut := 72000000000 * COIN;
  nStakeMinAge := 0;
  nStakeMinDepth := 3;
  nTargetTimespan := 40 * 60;
  nTargetTimespanV2 := 30 * 60;
  nTargetSpacing := 1 * 60;
  nTimeSlotLength := 15;
  height_last_invalid_UTXO := -1;
  nKrovacoinBadBlockTime := None;
  nKrovacoinBadBlockBits := None;
  vUpgrades := regtest_vUpgrades
|}.

(** [CBaseChainParams::MAIN], [TESTNET], [REGTEST]. *)
Inductive Network := MAIN | TESTNET | REGTEST.

#[export] Instance Network_eq_dec : EqDecision Network.
Proof. solve_decision. Defined.

(** [MapCheckpoints] in key order, as [std::map] iterates it. *)
Definition mapCheckpoints : list (Z * Z) :=
  [(259201, 0x1c9121bf9329a6234bfd1ea2d91515f19cd96990725265253f4b164283ade5dd);
   (424998, 0xf31e381eedb0ed3ed65fcc98cc71f36012bee32e8efd017c4f9fb0620fd35f6b);
   (616764, 0x29dd0bd1c59484f290896687b4ffb6a49afa5c498caf61967c69a541f8191557);
   (623933, 0xc7aafa648a0f1450157dc93bd4d7448913a85b7448f803b4ab970d91fc2a7da7);
   (791150, 0x8e76f462e4e82d1bd21cb72e1ce1567d4ddda2390f26074ffd1f5d9c270e5e50);
   (795000, 0x4423cceeb9fd574137a18733416275a70fdf95283cc79ad976ca399aa424a443);
   (863787, 0x5b2482eca24caf2a46bb22e0545db7b7037282733faa3a42ec20542509999a64);
   (863795, 0x2ad866818c4866e0d555181daccc628056216c0db431f88a825e84ed4f469067);
   (863805, 0xa755bd9a22b63c70d3db474f4b2b61a1f86c835b290a081bb3ec1ba2103eb4cb);
   (867733, 0x03b26296bf693de5782c76843d2fb649cb66d4b05550c6a79c047ff7e1c3ae15);
   (879650, 0x227e1d2b738b6cd83c46d1d64617934ec899d77cee34336a56e61b71acd10bb2);
   (895400, 0x7796a0274a608fac12d400198174e50beda992c1d522e52e5b95b884bc1beac6);
   (895991, 0xd53013ed7ea5c325b9696c95e07667d6858f8ff7ee13fecfa90827bf3c9ae316);
   (908000, 0x202708f8c289b676fceb832a079ff6b308a28608339acbf7584de533619d014d);
   (1142400, 0x98aff9d605bf123247f98b1e3a02567eb5799d208d78ec30fb89737b1c1f79c5);
   (1679090, 0xf747ce055ba1b12e1f2e842bd480bc647210799359cb2e553ab292065e3419d6);
   (1686229, 0xbb42bf1e886a7c23474634c90893dd3d68a6ccbfea4ac92a98da5cad0c6a6cb7);
   (1778954, 0x0d3241268264a2908d6babf00d9cd1ffb83d93d7bb4e428820127fe227c2029c);
   (1788528, 0xea9243ff8fc079fdd7a04f11fac415de4d98e1bb0dc38db6f79f8f8bbfdbe496);
   (2153200, 0x14e477e597d24549cac5e59d97d32155e6ec2861c1003b42d0566f9bf39b65d5);
   (2356049, 0x62e80d8e193bca84655fb78893b20f54a79f2d71124c4ea37b7ef51a0d5451c4);
   (2365700, 0xb5d0beead57735539abc2db2b0b08cd65db3e5928efd3c3bf3182d5bf013f36c);
   (2678402, 0x580a26ff0a45177a7a6f387f009c5b26140ea48b4790a857d9a796f8b3c25899);
   (3014000, 0x78ad99b7225f73c42238bd7ca841ff700542b92bba75a0ef2ed351caa560f87f);
   (3024000, 0xbe4bc75afcfb9136924810f7483b2695089a366cc4ee27fd6dc3ecd5396e1f0f);
   (3715200, 0xa676b9a598c393c82b949c37dd35013aeda55f5d18ab062349db6a8235972aaa)].

Definition mapCheckpointsTestnet : list (Z * Z) := [(0, 0x001)].
Definition mapCheckpointsRegtest : list (Z * Z) := [(0, 0x001)].

(** The parts of [CChainParams] that the modelled code reads. *)
Record CChainParams := mkCChainParams {
  networkID : Network;
  consensus : ConsensusParams;
  genesis_nTime : Z;
  checkpoints : list (Z * Z)
}.

Definition CreateChainParams (chain : Network) : CChainParams :=
  match chain with
  | MAIN => mkCChainParams MAIN CMainParams_consensus 1785931200 mapCheckpoints
  | TESTNET => mkCChainParams TESTNET CTestNetParams_consensus 1786170027 mapCheckpointsTestnet
  | REGTEST => mkCChainParams REGTEST CRegTestParams_consensus 1785920000 mapCheckpointsRegtest
  end.

Definition IsRegTestNet (p : CChainParams) : bool := bool_decide (networkID p = REGTEST).

(** [CChainParams::UpdateNetworkUpgradeParameters] (regtest only). *)
Definition UpdateNetworkUpgradeParameters (p : CChainParams) (idx : UpgradeIndex) (h : Z)
  : option CChainParams :=
  assert (IsRegTestNet p) (assert (bool_decide (idx ≠ BASE_NETWORK))
    (let c := consensus p in
     Some (mkCChainParams (networkID p)
       (mkConsensusParams (hashGenesisBlock c) (fPowAllowMinDifficultyBlocks c)
          (fPowNoRetargeting c) (powLimit c) (posLimitV1 c) (posLimitV2 c)
          (nBudgetCycleBlocks c) (nCoinbaseMaturity c) (nFutureTimeDriftPoW c)
          (nFutureTimeDriftPoS c) (nMaxMoneyOut c) (nStakeMinAge c) (nStakeMinDepth c)
          (nTargetTimespan c) (nTargetTimespanV2 c) (nTargetSpacing c) (nTimeSlotLength c)
          (height_last_invalid_UTXO c) (nKrovacoinBadBlockTime c) (nKrovacoinBadBlockBits c)
          (fun i => if bool_decide (i = idx) then h else vUpgrades c i))
       (genesis_nTime p) (checkpoints p)))).

(** ** Checkpoints (checkpoints.cpp) *)

Fixpoint checkpoint_find (m : list (Z * Z)) (nHeight : Z) : option Z :=
  match m with
  | [] => None
  | (h, x) :: m => if h =? nHeight then Some x else checkpoint_find m nHeight
  end.

(** [fEnabled] is the [-checkpoints] option (default true). *)
Definition Checkpoints_CheckBlock (fEnabled : bool) (p : CChainParams)
    (nHeight hash : Z) (fMatchesCheckpoint : bool) : bool :=
  if negb fEnabled then true
  else match checkpoint_find (checkpoints p) nHeight with
       | None => negb fMatchesCheckpoint
       | Some h => hash =? h
       end.

Definition GetTotalBlocksEstimate (fEnabled : bool) (p : CChainParams) : Z :=
  if negb fEnabled then 0
  else match last (checkpoints p) with
       | Some (h, _) => h
       | None => 0
       end.

(** ** Lemmas *)

Lemma CheckedAdd_spec a b :
  in_i64 a -> in_i64 b ->
  CheckedAdd a b = if decide (in_i64 (a + b)) then Some (a + b) else None.
Proof.
  unfold CheckedAdd, in_i64, INT64_MIN, INT64_MAX. intros Ha Hb.
  destruct (0 <? b) eqn:E1, (b <? 0) eqn:E2; cbn [andb]; bool_to_prop; try lia;
    repeat case_match; bool_to_prop; try lia; try done;
    rewrite i64_id by (unfold in_i64, INT64_MIN, INT64_MAX; lia); done.
Qed.

(** Whether an upgrade is active, as a test on its activation height. *)
Definition upgrade_active (h : Z) (p : ConsensusParams) (idx : UpgradeIndex) : bool :=
  negb (vUpgrades p idx =? NO_ACTIVATION_HEIGHT) && (vUpgrades p idx <=? h).

Definition upgrade_pending (h : Z) (p : ConsensusParams) (idx : UpgradeIndex) : bool :=
  negb (vUpgrades p idx =? NO_ACTIVATION_HEIGHT) && (h <? vUpgrades p idx).

Lemma NetworkUpgradeState_eq h p idx :
  0 <= h -> exists s, NetworkUpgradeState h p idx = Some s
    /\ bool_decide (s = UPGRADE_ACTIVE) = upgrade_active h p idx
    /\ bool_decide (s = UPGRADE_PENDING) = upgrade_pending h p idx.
Proof.
  intros Hh. unfold NetworkUpgradeState, upgrade_active, upgrade_pending, assert.
  rewrite (proj2 (Z.leb_le 0 h)) by done. cbn zeta.
  destruct (vUpgrades p idx =? NO_ACTIVATION_HEIGHT); [by eexists|].
  destruct (vUpgrades p idx <=? h) eqn:E; eexists; split_and!; try done; cbn; symmetry;
    bool_to_prop; (apply Z.ltb_ge || apply Z.ltb_lt); lia.
Qed.

Lemma NetworkUpgradeActive_eq h p idx :
  0 <= h -> NetworkUpgradeActive h p idx = Some (upgrade_active h p idx).
Proof.
  intros Hh. unfold NetworkUpgradeActive.
  destruct (NetworkUpgradeState_eq h p idx Hh) as (s & -> & <- & _). done.
Qed.

(** An upgrade with an activation height is active from that height on. *)
Lemma NetworkUpgradeActive_from h p idx :
  0 <= vUpgrades p idx <= h -> NetworkUpgradeActive h p idx = Some true.
Proof.
  intros H. rewrite NetworkUpgradeActive_eq by lia. unfold upgrade_active, NO_ACTIVATION_HEIGHT.
  by rewrite (proj2 (Z.eqb_neq _ _)), (proj2 (Z.leb_le _ _)) by lia.
Qed.

(** An upgrade without one never is. *)
Lemma NetworkUpgradeActive_never h p idx :
  0 <= h -> vUpgrades p idx = NO_ACTIVATION_HEIGHT -> NetworkUpgradeActive h p idx = Some false.
Proof. intros H E. rewrite NetworkUpgradeActive_eq by lia. unfold upgrade_active. by rewrite E. Qed.

(** The enumerator's value. *)
Definition upgrade_no (idx : UpgradeIndex) : nat :=
  match idx with
  | BASE_NETWORK => 0 | UPGRADE_POS => 1 | UPGRADE_POS_V2 => 2 | UPGRADE_ZC => 3 | UPGRADE_ZC_V2 => 4
  | UPGRADE_BIP65 => 5 | UPGRADE_ZC_PUBLIC => 6 | UPGRADE_V3_4 => 7 | UPGRADE_V4_0 => 8 | UPGRADE_V5_0 => 9
  | UPGRADE_V5_2 => 10 | UPGRADE_V5_3 => 11 | UPGRADE_V5_5 => 12 | UPGRADE_V5_6 => 13 | UPGRADE_V6_0 => 14
  | UPGRADE_TESTDUMMY => 15
  end.

Lemma CurrentEpoch_spec h p :
  0 <= h -> exists idx, CurrentEpoch h p = Some idx
    /\ (idx = BASE_NETWORK \/ upgrade_active h p idx = true)
    /\ forall j, (upgrade_no idx < upgrade_no j)%nat -> upgrade_active h p j = false.
Proof.
  intros Hh. unfold CurrentEpoch.
  change (reverse (tail UpgradeIndex_all)) with
    [UPGRADE_TESTDUMMY; UPGRADE_V6_0; UPGRADE_V5_6; UPGRADE_V5_5; UPGRADE_V5_3; UPGRADE_V5_2; UPGRADE_V5_0;
     UPGRADE_V4_0; UPGRADE_V3_4; UPGRADE_ZC_PUBLIC; UPGRADE_BIP65; UPGRADE_ZC_V2; UPGRADE_ZC; UPGRADE_POS_V2;
     UPGRADE_POS].
  cbn [CurrentEpoch_loop]. rewrite !NetworkUpgradeActive_eq by done. cbn [mbind option_bind].
  repeat case_match; (eexists; split; [done|]; split; [auto|]);
    intros j Hj; destruct j; cbn in Hj; first [assumption | lia].
Qed.

Lemma NextEpoch_spec h p :
  0 <= h -> exists r, NextEpoch h p = Some r
    /\ match r with
       | Some idx => upgrade_pending h p idx = true
                     /\ forall j, (0 < upgrade_no j < upgrade_no idx)%nat -> upgrade_pending h p j = false
       | None => forall j, (0 < upgrade_no j)%nat -> upgrade_pending h p j = false
       end.
Proof.
  intros Hh. unfold NextEpoch. rewrite (proj2 (Z.ltb_ge h 0)) by done.
  assert (Hloop : forall i l, NextEpoch_loop h p (i :: l) =
    if upgrade_pending h p i then Some (Some i) else NextEpoch_loop h p l).
  { intros i l. cbn [NextEpoch_loop].
    destruct (NetworkUpgradeState_eq h p i Hh) as (s & -> & _ & Hp). cbn [mbind option_bind]. by rewrite Hp. }
  change (tail UpgradeIndex_all) with
    [UPGRADE_POS; UPGRADE_POS_V2; UPGRADE_ZC; UPGRADE_ZC_V2; UPGRADE_BIP65; UPGRADE_ZC_PUBLIC; UPGRADE_V3_4;
     UPGRADE_V4_0; UPGRADE_V5_0; UPGRADE_V5_2; UPGRADE_V5_3; UPGRADE_V5_5; UPGRADE_V5_6; UPGRADE_V6_0;
     UPGRADE_TESTDUMMY].
  rewrite !Hloop. cbn [NextEpoch_loop].
  repeat case_match; eexists; (split; [done|]); cbn; try (split; [done|]);
    intros j Hj; destruct j; cbn in Hj; first [assumption | lia].
Qed.

(** ** Properties *)

(** Network upgrades are consistent at every height of the chain: the
    state queries never fail, an upgrade that is active stays active,
    [CurrentEpoch] is the highest-numbered active upgrade, and [NextEpoch] the
    lowest-numbered pending one, whose activation height lies ahead. *)
Theorem upgrades_consistent h h' p :
  0 <= h <= h' ->
  (forall idx, NetworkUpgradeActive h p idx = Some true -> NetworkUpgradeActive h' p idx = Some true)
  /\ (exists idx, CurrentEpoch h p = Some idx
        /\ (idx = BASE_NETWORK \/ NetworkUpgradeActive h p idx = Some true)
        /\ forall j, (upgrade_no idx < upgrade_no j)%nat -> NetworkUpgradeActive h p j = Some false)
  /\ (exists r, NextActivationHeight h p = Some r /\ forall ah, r = Some ah -> h < ah).
Proof.
  intros Hh. split_and!.
  - intros idx. rewrite !NetworkUpgradeActive_eq by lia. unfold upgrade_active.
    intros [= H]. f_equal. bool_to_prop. apply andb_true_intro.
    split; [by apply negb_true_iff, Z.eqb_neq | apply Z.leb_le; lia].
  - destruct (CurrentEpoch_spec h p) as (idx & -> & H1 & H2); [lia|]. exists idx.
    rewrite NetworkUpgradeActive_eq by lia. split_and!; [done | destruct H1 as [H1|H1]; [by left | right; by rewrite H1] |].
    intros j Hj. rewrite NetworkUpgradeActive_eq, H2 by (done || lia). done.
  - unfold NextActivationHeight. destruct (NextEpoch_spec h p) as (r & -> & Hr); [lia|].
    cbn [mbind option_bind]. eexists. split; [done|]. intros ah Hah. destruct r as [idx|]; [|done].
    injection Hah as <-. destruct Hr as [Hp _]. unfold upgrade_pending in Hp. by bool_to_prop.
Qed.

Lemma upgrades_consistent_witness :
  exists r, NextActivationHeight 3 CMainParams_consensus = Some r /\ forall ah, r = Some ah -> 3 < ah.
Proof. apply (upgrades_consistent 3 700 CMainParams_consensus). split; discriminate. Defined.
