(* ===== verification/Serialize.v ===== *)
(** * Serialization

    serialize.h: the stream primitives, CompactSize and VarInt encodings, and
    formatters for integers, blobs, vectors and optionals.  A stream that is
    written to is the bytes written; reading takes the bytes left and fails
    ([None], a thrown [std::ios_base::failure]) when they run out. *)

From S2P Require Import Prelude.

Definition MAX_SIZE : Z := 0x02000000.

Abbreviation Reader A := (bytes -> option (A * bytes)).

(** [s.read(p, n)] *)
Definition read (n : Z) : Reader bytes := fun s =>
  if size s <? n then None else Some (take (Z.to_nat n) s, drop (Z.to_nat n) s).

Definition ser_writedata8 (obj : Z) : bytes := le_bytes 1 obj.
Definition ser_writedata16 (obj : Z) : bytes := le_bytes 2 obj.
Definition ser_writedata32 (obj : Z) : bytes := le_bytes 4 obj.
Definition ser_writedata64 (obj : Z) : bytes := le_bytes 8 obj.

Definition ser_readdata8 : Reader Z := fun s => '(b, s) ← read 1 s; Some (le_value b, s).
Definition ser_readdata16 : Reader Z := fun s => '(b, s) ← read 2 s; Some (le_value b, s).
Definition ser_readdata32 : Reader Z := fun s => '(b, s) ← read 4 s; Some (le_value b, s).
Definition ser_readdata64 : Reader Z := fun s => '(b, s) ← read 8 s; Some (le_value b, s).

(** ** CompactSize *)

Definition GetSizeOfCompactSize (nSize : Z) : Z :=
  if nSize <? 253 then 1
  else if nSize <=? 0xffff then 1 + 2
  else if nSize <=? 0xffffffff then 1 + 4
  else 1 + 8.

Definition WriteCompactSize (nSize : Z) : bytes :=
  if nSize <? 253 then ser_writedata8 nSize
  else if nSize <=? 0xffff then ser_writedata8 253 ++ ser_writedata16 nSize
  else if nSize <=? 0xffffffff then ser_writedata8 254 ++ ser_writedata32 nSize
  else ser_writedata8 255 ++ ser_writedata64 nSize.

Definition ReadCompactSize (range_check : bool) : Reader Z := fun s =>
  '(chSize, s) ← ser_readdata8 s;
  '(nSizeRet, s) ←
    (if chSize <? 253 then Some (chSize, s)
     else if chSize =? 253 then
       '(n, s) ← ser_readdata16 s; if n <? 253 then None else Some (n, s)
     else if chSize =? 254 then
       '(n, s) ← ser_readdata32 s; if n <? 0x10000 then None else Some (n, s)
     else
       '(n, s) ← ser_readdata64 s; if n <? 0x100000000 then None else Some (n, s));
  if range_check && (MAX_SIZE <? nSizeRet) then None else Some (nSizeRet, s).

(** ** VarInt *)

Fixpoint GetSizeOfVarInt_loop (fuel : nat) (n nRet : Z) : Z :=
  match fuel with
  | O => nRet
  | S fuel =>
      let nRet := nRet + 1 in
      if n <=? 0x7F then nRet else GetSizeOfVarInt_loop fuel (Z.shiftr n 7 - 1) nRet
  end.

(** For an integer type of [sz] bytes. *)
Definition varint_slots (sz : Z) : nat := Z.to_nat ((sz * 8 + 6) / 7).

Definition GetSizeOfVarInt (sz n : Z) : Z := GetSizeOfVarInt_loop (varint_slots sz) n 0.

(** The loop that fills [tmp[len]], [tmp[len+1]], ...; the array [tmp] has
    [(sizeof(n)*8+6)/7] slots. *)
Fixpoint WriteVarInt_tmp (slots : nat) (len n : Z) : bytes :=
  match slots with
  | O => []
  | S slots =>
      Z.lor (Z.land n 0x7F) (if len =? 0 then 0x00 else 0x80)
      :: (if n <=? 0x7F then [] else WriteVarInt_tmp slots (len + 1) (Z.shiftr n 7 - 1))
  end.

Definition WriteVarInt (sz n : Z) : bytes :=
  reverse (WriteVarInt_tmp (varint_slots sz) 0 n).

(** [max] is [std::numeric_limits<I>::max()]. *)
Fixpoint ReadVarInt_loop (max n : Z) (s : bytes) : option (Z * bytes) :=
  match s with
  | [] => None
  | chData :: s =>
      if Z.shiftr max 7 <? n then None
      else
        let n := Z.lor (Z.shiftl n 7) (Z.land chData 0x7F) in
        if negb (Z.land chData 0x80 =? 0) then
          if n =? max then None else ReadVarInt_loop max (n + 1) s
        else Some (n, s)
  end.

Definition ReadVarInt (max : Z) : Reader Z := ReadVarInt_loop max 0.

(** ** Formatters *)

(** A formatter has [Ser] and [Unser]; [ok] delimits the values of the C++
    type that the format can carry. *)
Record Formatter (A : Type) := {
  Ser : A -> bytes;
  Unser : Reader A;
  ok : A -> Prop
}.
Arguments Ser {A}.
Arguments Unser {A}.
Arguments ok {A}.

(** What a formatter promises its clients: what was written is read back, and
    nothing of what follows is consumed. *)
Class Lawful {A} (f : Formatter A) : Prop :=
  unser_ser : forall a rest, ok f a -> Unser f (Ser f a ++ rest) = Some (a, rest).

(** Little-endian integers of [n] bytes. *)
Definition uint_fmt (n : nat) : Formatter Z := {|
  Ser v := le_bytes n v;
  Unser s := '(b, s) ← read (Z.of_nat n) s; Some (le_value b, s);
  ok v := 0 <= v < 256 ^ Z.of_nat n
|}.

Definition int_fmt (n : nat) : Formatter Z := {|
  Ser v := le_bytes n v;
  Unser s := '(b, s) ← read (Z.of_nat n) s; Some (sint (8 * Z.of_nat n) (le_value b), s);
  ok v := - (256 ^ Z.of_nat n / 2) <= v < 256 ^ Z.of_nat n / 2
|}.

Definition uint8_fmt := uint_fmt 1.
Definition uint16_fmt := uint_fmt 2.
Definition uint32_fmt := uint_fmt 4.
Definition uint64_fmt := uint_fmt 8.
Definition int16_fmt := int_fmt 2.
Definition int32_fmt := int_fmt 4.
Definition int64_fmt := int_fmt 8.
Definition uint256_fmt := uint_fmt 32.

(** [std::array<unsigned char, N>] *)
Definition array_fmt (N : nat) : Formatter bytes := {|
  Ser v := v;
  Unser := read (Z.of_nat N);
  ok v := length v = N
|}.

(** [std::vector<unsigned char>] and [prevector]: an opaque blob. *)
Definition blob_fmt : Formatter bytes := {|
  Ser v := WriteCompactSize (size v) ++ v;
  Unser s := '(nSize, s) ← ReadCompactSize true s; read nSize s;
  ok v := size v <= MAX_SIZE
|}.

Fixpoint unser_n {A} (f : Formatter A) (n : nat) : Reader (list A) := fun s =>
  match n with
  | O => Some ([], s)
  | S n => '(a, s) ← Unser f s; '(l, s) ← unser_n f n s; Some (a :: l, s)
  end.

Definition VectorFormatter {A} (f : Formatter A) : Formatter (list A) := {|
  Ser v := WriteCompactSize (size v) ++ concat (map (Ser f) v);
  Unser s := '(n, s) ← ReadCompactSize true s; unser_n f (Z.to_nat n) s;
  ok v := size v <= MAX_SIZE /\ Forall (ok f) v
|}.

Definition OptionalFormatter {A} (f : Formatter A) : Formatter (option A) := {|
  Ser item := match item with Some a => 0x01 :: Ser f a | None => [0x00] end;
  Unser s :=
    '(discriminant, s) ← ser_readdata8 s;
    if discriminant =? 0x00 then Some (None, s)
    else '(object, s) ← Unser f s; Some (Some object, s);
  ok item := match item with Some a => ok f a | None => True end
|}.

(** [READWRITE(a, b)]: one field after the other. *)
Definition pair_fmt {A B} (f : Formatter A) (g : Formatter B) : Formatter (A * B) := {|
  Ser '(a, b) := Ser f a ++ Ser g b;
  Unser s := '(a, s) ← Unser f s; '(b, s) ← Unser g s; Some ((a, b), s);
  ok '(a, b) := ok f a /\ ok g b
|}.

(** An object whose fields are read and written as a tuple. *)
Definition fields_fmt {A B} (get : A -> B) (set : B -> A) (f : Formatter B) : Formatter A := {|
  Ser a := Ser f (get a);
  Unser s := '(b, s) ← Unser f s; Some (set b, s);
  ok a := ok f (get a) /\ set (get a) = a
|}.

Infix "⊕" := pair_fmt (at level 51, right associativity) : krova_scope.

(** ** Lemmas *)

Lemma read_app l s : read (size l) (l ++ s) = Some (l, s).
Proof.
  unfold read. rewrite size_app. pose proof (size_nonneg s).
  destruct (_ <? _) eqn:E; bool_to_prop; [lia|].
  by rewrite to_nat_size, take_app_length, drop_app_length.
Qed.

Lemma read_le_bytes n x s : read (Z.of_nat n) (le_bytes n x ++ s) = Some (le_bytes n x, s).
Proof. rewrite <- (length_le_bytes n x) at 1. apply read_app. Qed.

Lemma sint_le_value n x :
  (0 < n)%nat -> - (256 ^ Z.of_nat n / 2) <= x < 256 ^ Z.of_nat n / 2 ->
  sint (8 * Z.of_nat n) (x mod 256 ^ Z.of_nat n) = x.
Proof.
  intros Hn Hx. unfold sint.
  assert (H256 : 256 ^ Z.of_nat n = 2 ^ (8 * Z.of_nat n)).
  { change 256 with (2 ^ 8). rewrite <- Z.pow_mul_r by lia. done. }
  assert (Hhalf : 2 ^ (8 * Z.of_nat n) = 2 * 2 ^ (8 * Z.of_nat n - 1)).
  { rewrite <- Z.pow_succ_r by lia. f_equal. lia. }
  rewrite H256 in *. set (h := 2 ^ (8 * Z.of_nat n - 1)) in *.
  rewrite Hhalf in *. replace (2 * h / 2) with h in Hx by (rewrite Z.mul_comm, Z.div_mul; lia).
  rewrite Z.add_mod_idemp_l by lia. rewrite Z.mod_small; lia.
Qed.

#[export] Instance uint_fmt_lawful n : Lawful (uint_fmt n).
Proof.
  intros v s Hv. cbn [Ser Unser uint_fmt]. rewrite read_le_bytes. simpl.
  by rewrite le_value_bytes, Z.mod_small.
Qed.

#[export] Instance int_fmt_lawful n : Lawful (int_fmt (S n)).
Proof.
  intros v s Hv. cbn [Ser Unser int_fmt ok] in *. rewrite read_le_bytes. cbn [mbind option_bind].
  rewrite le_value_bytes, sint_le_value; [done | lia | done].
Qed.

#[export] Instance array_fmt_lawful N : Lawful (array_fmt N).
Proof.
  intros v s Hv. cbn [Ser Unser array_fmt ok] in *. rewrite <- Hv. apply read_app.
Qed.

Lemma readdata_write n x s :
  0 <= x < 256 ^ Z.of_nat n ->
  ('(b, s) ← read (Z.of_nat n) (le_bytes n x ++ s); Some (le_value b, s)) = Some (x, s).
Proof. apply (uint_fmt_lawful n x s). Qed.

Lemma readdata8_write x s : 0 <= x < 256 -> ser_readdata8 (ser_writedata8 x ++ s) = Some (x, s).
Proof. apply (readdata_write 1). Qed.

Lemma readdata16_write x s : 0 <= x < 2 ^ 16 -> ser_readdata16 (ser_writedata16 x ++ s) = Some (x, s).
Proof. apply (readdata_write 2). Qed.

Lemma readdata32_write x s : 0 <= x < 2 ^ 32 -> ser_readdata32 (ser_writedata32 x ++ s) = Some (x, s).
Proof. apply (readdata_write 4). Qed.

Lemma readdata64_write x s : 0 <= x < 2 ^ 64 -> ser_readdata64 (ser_writedata64 x ++ s) = Some (x, s).
Proof. apply (readdata_write 8). Qed.

Lemma ReadCompactSize_write n rc s :
  0 <= n < 2 ^ 64 -> (rc = true -> n <= MAX_SIZE) ->
  ReadCompactSize rc (WriteCompactSize n ++ s) = Some (n, s).
Proof.
  intros Hn Hrc. unfold ReadCompactSize, WriteCompactSize.
  assert (Hend : (if rc && (MAX_SIZE <? n) then None else Some (n, s)) = Some (n, s)).
  { destruct rc; [|done]. specialize (Hrc eq_refl).
    destruct (MAX_SIZE <? n) eqn:E; [bool_to_prop; lia | done]. }
  destruct (n <? 253) eqn:E1; bool_to_prop.
  { rewrite readdata8_write by lia. simpl mbind.
    rewrite (proj2 (Z.ltb_lt _ _)) by lia. done. }
  destruct (n <=? 0xffff) eqn:E2; [|destruct (n <=? 0xffffffff) eqn:E3]; bool_to_prop;
    rewrite <- app_assoc, readdata8_write by lia; cbn [mbind option_bind Z.ltb Z.eqb Z.compare Pos.compare Pos.compare_cont Pos.eqb].
  - rewrite readdata16_write by lia. cbn [mbind option_bind].
    rewrite (proj2 (Z.ltb_ge _ _)) by lia. done.
  - rewrite readdata32_write by lia. cbn [mbind option_bind].
    rewrite (proj2 (Z.ltb_ge _ _)) by lia. done.
  - rewrite readdata64_write by lia. cbn [mbind option_bind].
    rewrite (proj2 (Z.ltb_ge _ _)) by lia. done.
Qed.

#[export] Instance blob_fmt_lawful : Lawful blob_fmt.
Proof.
  intros v s Hv. cbn [Ser Unser blob_fmt ok] in *. unfold MAX_SIZE in Hv.
  rewrite <- app_assoc, ReadCompactSize_write.
  - apply read_app.
  - pose proof (size_nonneg v). lia.
  - done.
Qed.

Lemma unser_n_ser {A} (f : Formatter A) `{!Lawful f} l s :
  Forall (ok f) l -> unser_n f (length l) (concat (map (Ser f) l) ++ s) = Some (l, s).
Proof.
  induction 1 as [|a l Ha _ IH]; [done|]. cbn [length unser_n map concat].
  rewrite <- app_assoc, unser_ser by done. simpl. by rewrite IH.
Qed.

#[export] Instance VectorFormatter_lawful {A} (f : Formatter A) `{!Lawful f} : Lawful (VectorFormatter f).
Proof.
  intros v s [Hv Hok]. cbn [Ser Unser VectorFormatter]. unfold MAX_SIZE in Hv.
  rewrite <- app_assoc, ReadCompactSize_write.
  - simpl. rewrite to_nat_size. by apply unser_n_ser.
  - pose proof (size_nonneg v). lia.
  - done.
Qed.

#[export] Instance OptionalFormatter_lawful {A} (f : Formatter A) `{!Lawful f} :
  Lawful (OptionalFormatter f).
Proof.
  intros [a|] s Hok; cbn [Ser Unser OptionalFormatter ok] in *.
  - change ((1 :: Ser f a) ++ s) with (ser_writedata8 1 ++ (Ser f a ++ s)).
    rewrite readdata8_write by lia. simpl. by rewrite unser_ser.
  - change ([0] ++ s) with (ser_writedata8 0 ++ s). by rewrite readdata8_write by lia.
Qed.

#[export] Instance pair_fmt_lawful {A B} (f : Formatter A) (g : Formatter B)
  `{!Lawful f} `{!Lawful g} : Lawful (pair_fmt f g).
Proof.
  intros [a b] s [Ha Hb]. cbn [Ser Unser pair_fmt].
  rewrite <- app_assoc, unser_ser by done. simpl. by rewrite unser_ser.
Qed.

#[export] Instance fields_fmt_lawful {A B} (get : A -> B) (set : B -> A) (f : Formatter B)
  `{!Lawful f} : Lawful (fields_fmt get set f).
Proof.
  intros a s [Ha Hset]. cbn [Ser Unser fields_fmt].
  rewrite unser_ser by done. simpl. by rewrite Hset.
Qed.

(** ** CompactSize: sizes and canonicity *)

Lemma WriteCompactSize_size n : size (WriteCompactSize n) = GetSizeOfCompactSize n.
Proof. unfold WriteCompactSize, GetSizeOfCompactSize. by repeat case_match. Qed.

Lemma read_Some n s b s' :
  read n s = Some (b, s') -> 0 <= n -> s = b ++ s' /\ size b = n.
Proof.
  unfold read. intros H Hn. case_match; [done|]. bool_to_prop. simplify_eq.
  rewrite take_drop. split; [done|]. unfold size in *. rewrite length_take. lia.
Qed.

Lemma readdata_Some n s x s' :
  bytes_ok s -> ('(b, s) ← read (Z.of_nat n) s; Some (le_value b, s)) = Some (x, s') ->
  s = le_bytes n x ++ s' /\ 0 <= x < 256 ^ Z.of_nat n.
Proof.
  intros Hs H. apply bind_Some_inv in H as ([b s1] & Hr & ?). simplify_eq.
  apply read_Some in Hr as [-> Hb]; [|lia]. apply Forall_app in Hs as [Hs _].
  assert (length b = n) as <- by (unfold size in Hb; lia).
  rewrite le_bytes_value by done. split; [done|]. by apply le_value_bound.
Qed.

Lemma read_guard_Some lo (m : option (Z * bytes)) n s' :
  ('(x, s) ← m; if x <? lo then None else Some (x, s)) = Some (n, s') ->
  m = Some (n, s') /\ lo <= n.
Proof.
  intros H. apply bind_Some_inv in H as ([x s] & -> & H).
  case_match; [done|]. bool_to_prop. by simplify_eq.
Qed.

Lemma WriteCompactSize_small n : 0 <= n < 253 -> WriteCompactSize n = ser_writedata8 n.
Proof. intros. unfold WriteCompactSize. case_match; [done | bool_to_prop; lia]. Qed.

Lemma WriteCompactSize_16 n : 253 <= n < 2 ^ 16 -> WriteCompactSize n = 253 :: le_bytes 2 n.
Proof. intros. unfold WriteCompactSize. repeat case_match; bool_to_prop; done || lia. Qed.

Lemma WriteCompactSize_32 n : 2 ^ 16 <= n < 2 ^ 32 -> WriteCompactSize n = 254 :: le_bytes 4 n.
Proof. intros. unfold WriteCompactSize. repeat case_match; bool_to_prop; done || lia. Qed.

Lemma WriteCompactSize_64 n : 2 ^ 32 <= n -> WriteCompactSize n = 255 :: le_bytes 8 n.
Proof. intros. unfold WriteCompactSize. repeat case_match; bool_to_prop; done || lia. Qed.

Lemma ReadCompactSize_Some rc s n s' :
  bytes_ok s -> ReadCompactSize rc s = Some (n, s') ->
  s = WriteCompactSize n ++ s' /\ 0 <= n < 2 ^ 64 /\ (rc = true -> n <= MAX_SIZE).
Proof.
  intros Hs H. unfold ReadCompactSize in H.
  apply bind_Some_inv in H as ([ch s1] & Hch & H).
  apply (readdata_Some 1) in Hch as [-> Hch]; [|done].
  apply Forall_app in Hs as [_ Hs]. simpl (256 ^ _) in Hch.
  cbn [le_bytes app]. rewrite Z.mod_small by done.
  apply bind_Some_inv in H as ([m s2] & Hm & H).
  case_match eqn:Erc; [done|]. simplify_eq.
  assert (Hmax : rc = true -> n <= MAX_SIZE).
  { intros ->. simpl in Erc. by bool_to_prop. }
  destruct (ch <? 253) eqn:E1; [|destruct (ch =? 253) eqn:E2; [|destruct (ch =? 254) eqn:E3]];
    bool_to_prop.
  - simplify_eq. rewrite WriteCompactSize_small by lia. cbn [ser_writedata8 le_bytes app].
    rewrite Z.mod_small by lia. split_and!; done || lia.
  - apply read_guard_Some in Hm as [Hm Hlo]. apply (readdata_Some 2) in Hm as [-> Hn]; [|done].
    simpl (256 ^ _) in Hn. rewrite WriteCompactSize_16 by lia. by subst ch; split_and!; try lia.
  - apply read_guard_Some in Hm as [Hm Hlo]. apply (readdata_Some 4) in Hm as [-> Hn]; [|done].
    simpl (256 ^ _) in Hn. rewrite WriteCompactSize_32 by lia. by subst ch; split_and!; try lia.
  - apply read_guard_Some in Hm as [Hm Hlo]. apply (readdata_Some 8) in Hm as [-> Hn]; [|done].
    simpl (256 ^ _) in Hn. rewrite WriteCompactSize_64 by lia.
    by assert (ch = 255) as -> by lia; split_and!; try lia.
Qed.

(** ** VarInt *)

(** Values of at most [k] base-128 digits. *)
Fixpoint varint_bound (k : nat) : Z :=
  match k with O => 0 | S k => 128 * (varint_bound k + 1) end.

Lemma varint_bound_pow k : 2 ^ (7 * Z.of_nat k) - 1 <= varint_bound k.
Proof.
  induction k as [|k IH]; cbn [varint_bound]; [simpl; lia|].
  replace (7 * Z.of_nat (S k)) with (7 + 7 * Z.of_nat k) by lia.
  rewrite Z.pow_add_r by lia. lia.
Qed.

Lemma varint_slots_bound sz n : 0 < sz -> n < 2 ^ (8 * sz) -> (0 < varint_slots sz)%nat /\ n < varint_bound (varint_slots sz).
Proof.
  intros Hsz Hn. unfold varint_slots.
  assert (8 * sz <= 7 * ((sz * 8 + 6) / 7)).
  { pose proof (Z.div_mod (sz * 8 + 6) 7). pose proof (Z.mod_pos_bound (sz * 8 + 6) 7). lia. }
  split; [lia|].
  destruct (Z.to_nat ((sz * 8 + 6) / 7)) as [|k] eqn:E; [lia|].
  cbn [varint_bound]. pose proof (varint_bound_pow (S k)) as Hb. cbn [varint_bound] in Hb.
  enough (2 ^ (8 * sz) <= 2 ^ (7 * Z.of_nat (S k))).
  { destruct (Z.eq_dec n (128 * (varint_bound k + 1))) as [->|]; [|lia].
    exfalso. assert (Heven : 2 ^ (7 * Z.of_nat (S k)) = 128 * 2 ^ (7 * Z.of_nat k)).
    { replace (7 * Z.of_nat (S k)) with (7 + 7 * Z.of_nat k) by lia. by rewrite Z.pow_add_r by lia. }
    pose proof (varint_bound_pow k). lia. }
  apply Z.pow_le_mono_r; lia.
Qed.

Lemma varint_digit n flag :
  0 <= n -> flag = 0 \/ flag = 0x80 ->
  let b := Z.lor (Z.land n 0x7F) flag in
  Z.lor (Z.shiftl (Z.shiftr n 7) 7) (Z.land b 0x7F) = n /\ (Z.land b 0x80 =? 0) = (flag =? 0).
Proof.
  intros Hn Hf b.
  assert (Hland : Z.land b 0x7F = n mod 128).
  { unfold b. rewrite Z.land_lor_distr_l, <- Z.land_assoc.
    change (Z.land 0x7F 0x7F) with (Z.ones 7).
    replace (Z.land flag 0x7F) with 0 by (destruct Hf; subst; done).
    rewrite Z.lor_0_r. by rewrite Z.land_ones. }
  split.
  - rewrite Hland, lor_shiftl_add by (simpl; pose proof (Z.mod_pos_bound n 128); lia).
    rewrite Z.shiftr_div_pow2 by lia. change (2 ^ 7) with 128.
    pose proof (Z.div_mod n 128). lia.
  - unfold b. rewrite Z.land_lor_distr_l, <- Z.land_assoc.
    change (Z.land 0x7F 0x80) with 0. rewrite Z.land_0_r, Z.lor_0_l.
    destruct Hf; subst; done.
Qed.

Lemma ReadVarInt_step max n flag t :
  0 <= n <= max -> flag = 0 \/ flag = 0x80 ->
  ReadVarInt_loop max (Z.shiftr n 7) (Z.lor (Z.land n 0x7F) flag :: t) =
  if flag =? 0 then Some (n, t) else if n =? max then None else ReadVarInt_loop max (n + 1) t.
Proof.
  intros Hn Hf. cbn [ReadVarInt_loop].
  destruct (varint_digit n flag) as [H1 H2]; [lia|done|]. rewrite H1, H2.
  rewrite (proj2 (Z.ltb_ge _ _)).
  - by destruct (flag =? 0).
  - rewrite !Z.shiftr_div_pow2 by lia. apply Z.div_le_mono; lia.
Qed.

Lemma shiftr7_small n : 0 <= n <= 0x7F -> Z.shiftr n 7 = 0.
Proof. intros. rewrite Z.shiftr_div_pow2 by lia. apply Z.div_small. lia. Qed.

Lemma shiftr7_bounds n k : 0x7F < n < varint_bound (S k) -> 0 <= Z.shiftr n 7 - 1 < varint_bound k.
Proof.
  cbn [varint_bound]. intros. rewrite Z.shiftr_div_pow2 by lia. change (2 ^ 7) with 128.
  pose proof (Z.div_mod n 128). pose proof (Z.mod_pos_bound n 128). lia.
Qed.

Lemma shiftr7_le n : 0 <= n -> Z.shiftr n 7 <= n.
Proof. intros. rewrite Z.shiftr_div_pow2 by lia. change (2 ^ 7) with 128. pose proof (Z.div_mod n 128). pose proof (Z.mod_pos_bound n 128). lia. Qed.

(** The digits above the last, all with the continuation bit, leave the
    reader one above the value they encode. *)
Lemma ReadVarInt_high max slots len n t :
  0 < len -> 0 <= n < max -> n < varint_bound slots ->
  ReadVarInt_loop max 0 (reverse (WriteVarInt_tmp slots len n) ++ t) = ReadVarInt_loop max (n + 1) t.
Proof.
  revert len n t. induction slots as [|slots IH]; intros len n t Hlen Hn Hb; cbn [WriteVarInt_tmp].
  { simpl in Hb. lia. }
  rewrite (proj2 (Z.eqb_neq len 0)) by lia.
  assert (Hstep := ReadVarInt_step max n 0x80 t).
  rewrite (proj2 (Z.eqb_neq n max)) in Hstep by lia.
  rewrite reverse_cons, <- app_assoc. cbn [app].
  destruct (n <=? 0x7F) eqn:E; bool_to_prop.
  - rewrite shiftr7_small in Hstep by lia. apply Hstep; lia.
  - pose proof (shiftr7_bounds n slots). pose proof (shiftr7_le n).
    rewrite IH by lia. rewrite Z.sub_add. apply Hstep; lia.
Qed.

Lemma ReadVarInt_write sz max n t :
  0 < sz -> 0 <= n <= max -> n < 2 ^ (8 * sz) ->
  ReadVarInt max (WriteVarInt sz n ++ t) = Some (n, t).
Proof.
  intros Hsz Hn Hw. unfold ReadVarInt, WriteVarInt.
  destruct (varint_slots_bound sz n) as [Hs Hb]; [done..|].
  destruct (varint_slots sz) as [|slots]; [lia|]. cbn [WriteVarInt_tmp].
  change (if 0 =? 0 then 0x00 else 0x80) with 0.
  rewrite reverse_cons, <- app_assoc. cbn [app].
  assert (Hstep := ReadVarInt_step max n 0 t).
  destruct (n <=? 0x7F) eqn:E; bool_to_prop.
  - rewrite shiftr7_small in Hstep by lia. apply Hstep; lia.
  - pose proof (shiftr7_bounds n slots). pose proof (shiftr7_le n).
    rewrite ReadVarInt_high by (rewrite Z.shiftr_div_pow2 in *; simpl in *; lia).
    rewrite Z.sub_add. apply Hstep; lia.
Qed.

(** ** Properties *)

(** CompactSize is a canonical encoding: every 64-bit size (within
    MAX_SIZE when the range check is on) is read back as written, the encoding
    has the announced length, and conversely whatever the reader accepts is
    exactly the encoding of the value it returns, so no value has two
    encodings. *)
Theorem CompactSize_canonical n rc s rest :
  (0 <= n < 2 ^ 64 -> (rc = true -> n <= MAX_SIZE) ->
     ReadCompactSize rc (WriteCompactSize n ++ rest) = Some (n, rest)
     /\ size (WriteCompactSize n) = GetSizeOfCompactSize n) /\
  (bytes_ok s -> ReadCompactSize rc s = Some (n, rest) -> s = WriteCompactSize n ++ rest).
Proof.
  split.
  - intros. split; [by apply ReadCompactSize_write | apply WriteCompactSize_size].
  - intros Hs H. by apply ReadCompactSize_Some in H as [? _].
Qed.

Lemma CompactSize_canonical_witness :
  ReadCompactSize true (WriteCompactSize 300 ++ [9]) = Some (300, [9])
  /\ [253; 44; 1; 9] = WriteCompactSize 300 ++ [9].
Proof.
  split.
  - apply (proj1 (CompactSize_canonical 300 true [] [9])); vm_compute; try split; discriminate || reflexivity.
  - apply (proj2 (CompactSize_canonical 300 true [253; 44; 1; 9] [9]));
      [repeat constructor; vm_compute; (reflexivity || discriminate) | reflexivity].
Defined.

(** VarInt: an unsigned integer of [sz] bytes written by [WriteVarInt]
    (into its fixed array of slots, which is large enough) is read back by
    [ReadVarInt], for every value up to the type's maximum. *)
Theorem VarInt_roundtrip sz n rest :
  0 < sz -> 0 <= n < 2 ^ (8 * sz) ->
  ReadVarInt (2 ^ (8 * sz) - 1) (WriteVarInt sz n ++ rest) = Some (n, rest).
Proof. intros. apply ReadVarInt_write; lia. Qed.

Lemma VarInt_roundtrip_witness :
  ReadVarInt (2 ^ (8 * 8) - 1) (WriteVarInt 8 18446744073709551615 ++ [1]) = Some (18446744073709551615, [1]).
Proof. apply (VarInt_roundtrip 8 18446744073709551615 [1]); [reflexivity | split; [discriminate | reflexivity]]. Defined.
