(* ===== verification/BlockHash.v ===== *)
(** * Hashes that work by blocks

    The classes [CSHA256], [CSHA512], [CSHA1] and [CRIPEMD160] of src/crypto
    share one design: bytes are collected in a buffer, every full block goes
    through a compression function, and [Finalize] appends a padding and the
    length.  This file has the buffer handling, over the class [BlockHash] of
    what the four differ in, and shows that cutting a message into pieces does
    not change its digest.  HMAC is built over the same class. *)

From S2P Require Import Prelude.

(** ** Words *)

Definition rotr (w n x : Z) : Z := Z.lor (Z.shiftr x n) (uint w (Z.shiftl x (w - n))).

(** [ReadBE32], [ReadBE64], [WriteBE32], [WriteBE64] of crypto/common.h; the
    number of bytes is an argument. *)
Definition be_value (l : bytes) : Z := le_value (reverse l).
Definition be_bytes (n : nat) (x : Z) : bytes := reverse (le_bytes n x).

Lemma length_be_bytes n x : length (be_bytes n x) = n.
Proof. unfold be_bytes. by rewrite length_reverse, length_le_bytes. Qed.

Lemma be_bytes_ok n x : bytes_ok (be_bytes n x).
Proof. unfold be_bytes. apply Forall_reverse, le_bytes_ok. Qed.

Definition ReadBE (n : nat) (ptr : bytes) (off : nat) : Z := be_value (take n (drop off ptr)).
Definition ReadLE (n : nat) (ptr : bytes) (off : nat) : Z := le_value (take n (drop off ptr)).

(** [memcpy(dst + off, src, size)], within the array. *)
Definition memcpy (dst : bytes) (off : nat) (src : bytes) : bytes := take off dst ++ src ++ drop (off + length src) dst.

(** ** The interface *)

(** The chaining value with its initial value, the block size, the compression
    function, the field with the length, the digest. *)
Class BlockHash (St : Type) := {
  Initialize : St;
  block : nat;
  Transform : St -> bytes -> St;
  length_field : nat;
  sizedesc : Z -> bytes;
  digest : St -> bytes
}.

Class BlockHashLaws (St : Type) `{BlockHash St} : Prop := {
  block_pos : (0 < block)%nat;
  block_divides : (Z.of_nat block | 2 ^ 64);
  length_sizedesc n : length (sizedesc n) = length_field;
  length_field_fits : (length_field < block)%nat
}.

(** ** The buffer *)

Section Buffer.
Context {St : Type} `{BlockHash St}.

(** [s], [buf] and [bytes]; the buffer starts with whatever is in memory. *)
Record Hasher := { h_s : St; h_buf : bytes; h_bytes : Z }.

Definition new_hasher (buf : bytes) : Hasher := {| h_s := Initialize; h_buf := buf; h_bytes := 0 |}.

Definition Reset (h : Hasher) : Hasher := {| h_s := Initialize; h_buf := h_buf h; h_bytes := 0 |}.

(** Full blocks directly from the source: [while (end >= data + 64)]. *)
Fixpoint Write_blocks (fuel : nat) (s : St) (n : Z) (data : bytes) : St * Z * bytes :=
  match fuel with
  | O => (s, n, data)
  | S fuel =>
      if (block <=? length data)%nat
      then Write_blocks fuel (Transform s (take block data)) (u64 (n + Z.of_nat block)) (drop block data)
      else (s, n, data)
  end.

Definition Write (h : Hasher) (data : bytes) : Hasher :=
  let bufsize := Z.to_nat (h_bytes h mod Z.of_nat block) in
  let '(h, data, bufsize) :=
    if negb (bufsize =? 0)%nat && (block <=? bufsize + length data)%nat
    then
      let buf := memcpy (h_buf h) bufsize (take (block - bufsize) data) in
      ({| h_s := Transform (h_s h) buf; h_buf := buf; h_bytes := u64 (h_bytes h + Z.of_nat (block - bufsize)) |},
       drop (block - bufsize) data, 0%nat)
    else (h, data, bufsize) in
  let '(s, n, data) := Write_blocks (length data) (h_s h) (h_bytes h) data in
  if (0 <? length data)%nat
  then {| h_s := s; h_buf := memcpy (h_buf h) bufsize data; h_bytes := u64 (n + size data) |}
  else {| h_s := s; h_buf := h_buf h; h_bytes := n |}.

(** [pad]: 0x80 and zeros, as long as a block. *)
Definition pad : bytes := 0x80 :: replicate (block - 1) 0.

(** The constants 119 and 239 of the code: twice a block less the length field
    and one. *)
Definition pad_target : Z := 2 * Z.of_nat block - Z.of_nat length_field - 1.

Definition padded (h : Hasher) : Hasher :=
  let desc := sizedesc (u64 (Z.shiftl (h_bytes h) 3)) in
  Write (Write h (take (Z.to_nat (1 + (pad_target - h_bytes h mod Z.of_nat block) mod Z.of_nat block)) pad)) desc.

Definition Finalize (h : Hasher) : bytes := digest (h_s (padded h)).

(** ** The reference: pad the message, cut it, fold the compression *)

Definition padding (len : Z) : bytes :=
  0x80 :: replicate (Z.to_nat ((Z.of_nat block - Z.of_nat length_field - 1 - len) mod Z.of_nat block)) 0 ++ sizedesc (u64 (8 * len)).

Fixpoint blocks (n : nat) (data : bytes) : list bytes :=
  match n with O => [] | S n => take block data :: blocks n (drop block data) end.

Definition fold_blocks (data : bytes) : St := foldl Transform Initialize (blocks (length data / block) data).

Definition reference (msg : bytes) : bytes := digest (fold_blocks (msg ++ padding (size msg))).

(** One hasher, one message. *)
Definition hash (buf msg : bytes) : bytes := Finalize (Write (new_hasher buf) msg).

End Buffer.
Arguments Hasher : clear implicits.

(** ** The buffer holds what is left of the message *)

Section Stream.
Context {St : Type} `{BlockHashLaws St}.

Record holds (h : Hasher St) (msg : bytes) : Prop := {
  holds_buf : length (h_buf h) = block;
  holds_bytes : h_bytes h = u64 (size msg);
  holds_split : exists done rest, msg = concat done ++ rest /\ Forall (fun b => length b = block) done /\
    (length rest < block)%nat /\ h_s h = foldl Transform Initialize done /\ take (length rest) (h_buf h) = rest
}.

Lemma concat_length (l : list bytes) : Forall (fun b => length b = block) l -> length (concat l) = (length l * block)%nat.
Proof. induction 1 as [|b l E _ IH]; [done|]. cbn [concat length]. rewrite length_app, E, IH. lia. Qed.

Lemma blocks_concat done (rest : bytes) :
  Forall (fun b => length b = block) done -> blocks (length done) (concat done ++ rest) = done.
Proof.
  induction 1 as [|b l E _ IH]; [done|]. cbn [length blocks concat]. rewrite <- app_assoc, take_app_length', drop_app_length', IH by done. done.
Qed.

Lemma bytes_mod n : u64 n mod Z.of_nat block = n mod Z.of_nat block.
Proof. apply Z.mod_mod_divide, block_divides. Qed.

Lemma u64_add n k : u64 (u64 n + k) = u64 (n + k).
Proof. unfold uint. apply Zplus_mod_idemp_l. Qed.

Lemma memcpy_length dst off src : (off + length src <= length dst)%nat -> length (memcpy dst off src) = length dst.
Proof. intros. unfold memcpy. rewrite !length_app, length_take, length_drop. lia. Qed.

Lemma memcpy_prefix dst off src : (off + length src <= length dst)%nat -> take (off + length src) (memcpy dst off src) = take off dst ++ src.
Proof. intros. unfold memcpy. rewrite app_assoc, take_app_length' by (rewrite length_app, length_take; lia). done. Qed.

Lemma Write_blocks_spec fuel : forall s n data, (length data <= fuel)%nat ->
  exists done rest, data = concat done ++ rest /\ Forall (fun b => length b = block) done /\ (length rest < block)%nat /\
    Write_blocks fuel s (u64 n) data = (foldl Transform s done, u64 (n + size (concat done)), rest).
Proof.
  pose proof block_pos. induction fuel as [|fuel IH]; intros s n data L; cbn [Write_blocks].
  - destruct data; [|cbn in L; lia]. exists [], []. cbn. repeat split; [constructor|lia|]. by rewrite Z.add_0_r.
  - case Nat.leb_spec; intros C.
    + rewrite u64_add. destruct (IH (Transform s (take block data)) (n + Z.of_nat block) (drop block data)) as (done & rest & E & F & R & ->).
      { rewrite length_drop. lia. }
      exists (take block data :: done), rest. cbn [concat foldl]. rewrite <- app_assoc, <- E, take_drop. split; [done|].
      split; [constructor; [rewrite length_take; lia|done]|]. split; [done|].
      rewrite size_app. unfold size at 2. rewrite length_take, Nat.min_l by lia. by rewrite Z.add_assoc.
    + exists [], data. cbn. repeat split; [constructor|lia|]. by rewrite Z.add_0_r.
Qed.

(** The tail of [Write]: full blocks, then what remains goes to the buffer. *)
Lemma Write_tail s buf n data done rest msg :
  length buf = block -> n = u64 (size msg) -> msg = concat done ++ rest -> Forall (fun b => length b = block) done ->
  s = foldl Transform Initialize done -> take (length rest) buf = rest -> (rest = [] \/ (length rest + length data < block)%nat) ->
  (length rest < block)%nat ->
  holds (let '(s, n, data) := Write_blocks (length data) s n data in
         if (0 <? length data)%nat
         then {| h_s := s; h_buf := memcpy buf (length rest) data; h_bytes := u64 (n + size data) |}
         else {| h_s := s; h_buf := buf; h_bytes := n |}) (msg ++ data).
Proof.
  intros B -> E F -> T R Lt. destruct (Write_blocks_spec (length data) (foldl Transform Initialize done) (size msg) data) as (d & r & Ed & Fd & Lr & ->); [done|].
  pose proof block_pos. assert (P : rest = [] \/ d = []).
  { destruct R as [R|R]; [by left|]. right. destruct d as [|x d]; [done|]. apply Forall_cons in Fd as [Fx _]. subst data.
    cbn [concat] in R. rewrite !length_app in R. lia. }
  assert (M : msg ++ data = concat (done ++ d) ++ rest ++ r).
  { rewrite E, Ed, concat_app. destruct P as [->| ->]; cbn [concat]; by rewrite ?app_nil_r, <- ?app_assoc. }
  assert (Lrr : (length (rest ++ r) < block)%nat).
  { rewrite length_app. destruct P as [->| ->]; [cbn; lia|]. cbn [concat app] in Ed. subst r. destruct R as [->|R]; cbn; lia. }
  rewrite length_app in Lrr. case Nat.ltb_spec; intros C; split; cbn [h_buf h_bytes h_s].
  - rewrite memcpy_length; [done|]. lia.
  - rewrite u64_add. f_equal. rewrite Ed, !size_app. lia.
  - exists (done ++ d), (rest ++ r). split; [done|]. split; [by apply Forall_app|]. rewrite length_app. split; [done|]. split; [by rewrite foldl_app|].
    rewrite memcpy_prefix by lia. by rewrite T.
  - done.
  - f_equal. rewrite Ed, !size_app. destruct r; [|cbn in C; lia]. change (size (@nil Z)) with 0. lia.
  - destruct r; [|cbn in C; lia]. rewrite app_nil_r in M. exists (done ++ d), rest. split; [done|]. split; [by apply Forall_app|].
    split; [done|]. by rewrite foldl_app.
Qed.

Lemma Write_holds h msg data : holds h msg -> holds (Write h data) (msg ++ data).
Proof.
  intros [B N (done & rest & E & F & R & Hs & T)]. pose proof block_pos. unfold Write.
  assert (Bs : Z.to_nat (h_bytes h mod Z.of_nat block) = length rest).
  { rewrite N, bytes_mod, E. unfold size. rewrite length_app, concat_length by done.
    rewrite Nat2Z.inj_add, Nat2Z.inj_mul, Z.add_comm, Z.mod_add, Z.mod_small by lia. lia. }
  rewrite Bs. destruct (negb (length rest =? 0)%nat && (block <=? length rest + length data)%nat) eqn:C; cbn [h_s h_buf h_bytes].
  - apply andb_prop in C as [C1 C2]. apply negb_true_iff, Nat.eqb_neq in C1. apply Nat.leb_le in C2.
    set (x := take (block - length rest) data). assert (Lx : length x = (block - length rest)%nat) by (unfold x; rewrite length_take; lia).
    set (buf := memcpy (h_buf h) (length rest) x).
    assert (Lb : length buf = block) by (unfold buf; rewrite memcpy_length; lia).
    assert (Eb : buf = rest ++ x).
    { rewrite <- (firstn_all buf), Lb. replace block with (length rest + length x)%nat by lia. unfold buf. rewrite memcpy_prefix by lia. by rewrite T. }
    assert (D : msg ++ data = (msg ++ x) ++ drop (block - length rest) data) by (unfold x; by rewrite <- app_assoc, take_drop).
    rewrite D. apply (Write_tail _ buf _ _ (done ++ [buf]) []); cbn [length]; try done; [| | |by rewrite foldl_app, Hs|by left].
    + rewrite N, u64_add, <- Lx. by rewrite size_app.
    + rewrite E, concat_app, Eb. cbn [concat]. by rewrite !app_nil_r, <- app_assoc.
    + apply Forall_app. split; [done|]. by constructor.
  - apply (Write_tail _ _ _ _ done rest); try done.
    apply andb_false_iff in C as [C|C]; [left|right].
    + apply negb_false_iff, Nat.eqb_eq in C. by destruct rest.
    + by apply Nat.leb_gt in C.
Qed.

Lemma new_hasher_holds buf : length buf = block -> holds (new_hasher buf) [].
Proof.
  pose proof block_pos. intros B. split; cbn; [done|done|]. exists [], []. repeat split; [constructor|cbn; lia].
Qed.

Lemma Reset_holds h msg : holds h msg -> holds (Reset h) [].
Proof. intros [B _ _]. by apply new_hasher_holds. Qed.

Lemma writes_hold (parts : list bytes) : forall h msg, holds h msg -> holds (foldl Write h parts) (msg ++ concat parts).
Proof.
  induction parts as [|x parts IH]; intros h msg Hh; cbn [foldl concat]; [by rewrite app_nil_r|].
  rewrite app_assoc. apply IH. by apply Write_holds.
Qed.

(** At a block boundary the chaining value is that of the message. *)
Lemma holds_aligned h msg : holds h msg -> size msg mod Z.of_nat block = 0 -> h_s h = fold_blocks msg.
Proof.
  intros [_ _ (done & rest & E & F & R & Hs & _)] A. pose proof block_pos.
  assert (L : length msg = (length done * block + length rest)%nat) by (rewrite E, length_app, concat_length by done; done).
  unfold size in A. rewrite L, Nat2Z.inj_add, Nat2Z.inj_mul, Z.add_comm, Z.mod_add, Z.mod_small in A by lia.
  unfold fold_blocks. rewrite L. assert (length rest = 0%nat) as -> by lia. rewrite Nat.add_0_r, Nat.div_mul by lia.
  by rewrite E, blocks_concat.
Qed.

(** The bytes [Finalize] appends are the padding of the reference. *)
Lemma padding_written len : 0 <= len ->
  take (Z.to_nat (1 + (pad_target - u64 len mod Z.of_nat block) mod Z.of_nat block)) pad ++ sizedesc (u64 (Z.shiftl (u64 len) 3)) =
  padding len.
Proof.
  intros L. pose proof block_pos. rewrite bytes_mod.
  replace (u64 (Z.shiftl (u64 len) 3)) with (u64 (8 * len)).
  2: { rewrite Z.shiftl_mul_pow2 by lia. unfold uint. rewrite Zmult_mod_idemp_l. f_equal. lia. }
  unfold padding, pad. set (B := Z.of_nat block). set (k := (_ - _ - 1 - len) mod B).
  assert (K : (pad_target - len mod B) mod B = k).
  { unfold k, pad_target. fold B. rewrite Zminus_mod_idemp_r.
    replace (2 * B - Z.of_nat length_field - 1 - len) with (B - Z.of_nat length_field - 1 - len + 1 * B) by lia. apply Z.mod_add. lia. }
  rewrite K. assert (0 <= k < B) by (apply Z.mod_pos_bound; lia).
  replace (Z.to_nat (1 + k)) with (1 + Z.to_nat k)%nat by lia. cbn [take Nat.add app]. f_equal. f_equal.
  rewrite take_replicate. f_equal. lia.
Qed.

Lemma padded_aligned len : 0 <= len -> (len + size (padding len)) mod Z.of_nat block = 0.
Proof.
  intros L. pose proof block_pos. unfold padding. rewrite size_cons, size_app. unfold size. rewrite length_replicate, length_sizedesc.
  set (B := Z.of_nat block). set (F := Z.of_nat length_field). rewrite Z2Nat.id by (apply Z.mod_pos_bound; lia).
  replace (len + ((B - F - 1 - len) mod B + F + 1)) with ((len + F + 1) + (B - F - 1 - len) mod B) by lia.
  rewrite Zplus_mod_idemp_r. replace (_ + _) with (0 + 1 * B) by lia. rewrite Z.mod_add by lia. apply Zmod_0_l.
Qed.

Lemma padded_state h msg : holds h msg -> holds (padded h) (msg ++ padding (size msg)).
Proof.
  intros Hh. pose proof (holds_bytes _ _ Hh) as N. pose proof (size_nonneg msg).
  rewrite <- padding_written by done. rewrite app_assoc. unfold padded. rewrite N. by do 2 apply Write_holds.
Qed.

Lemma padded_holds h msg : holds h msg -> h_s (padded h) = fold_blocks (msg ++ padding (size msg)).
Proof.
  intros Hh. apply holds_aligned; [by apply padded_state|]. rewrite size_app. apply padded_aligned, size_nonneg.
Qed.

(** Whatever the pieces, whatever was in the buffer: the digest is the
    reference's. *)
Lemma stream_hash buf parts : length buf = block ->
  Finalize (foldl Write (new_hasher buf) parts) = reference (concat parts).
Proof.
  intros B. unfold Finalize, reference. f_equal. apply padded_holds. apply (writes_hold parts _ []). by apply new_hasher_holds.
Qed.

Lemma hash_reference buf msg : length buf = block -> hash buf msg = reference msg.
Proof. intros B. unfold hash. pose proof (stream_hash buf [msg] B) as E. cbn [foldl concat] in E. by rewrite app_nil_r in E. Qed.

End Stream.
