(* ===== verification/Sha2.v ===== *)
(** * The SHA-2 family, as the standard has it

    The reference that crypto/sha256.cpp and crypto/sha512.cpp are compared
    with: one description for both word sizes, with the message schedule as a
    sequence, the round on all eight registers, and the constants computed from
    what they are, the first bits of roots of primes. *)

From S2P Require Import Prelude BlockHash.
From coqutil Require Import Z.PushPullMod.

(** ** Constants from primes *)

Definition prime_divisor (n d : Z) : bool := n mod d =? 0.
Definition is_prime (n : Z) : bool := forallb (fun d => negb (prime_divisor n (Z.of_nat d))) (seq 2 (Z.to_nat (Z.sqrt n) - 1)).
Definition primes (n : nat) : list Z := base.filter (fun p => is_prime p = true) (map Z.of_nat (seq 2 (n - 2))).

(** The largest [r] below [2 ^ n] with [r ^ 3 <= x], bit by bit. *)
Fixpoint cbrt_loop (n : nat) (x r : Z) : Z :=
  match n with
  | O => r
  | S n => let r' := r + 2 ^ Z.of_nat n in cbrt_loop n x (if r' * r' * r' <=? x then r' else r)
  end.

(** The first [w] bits of the fractional parts of the roots. *)
Definition sqrt_bits (w p : Z) : Z := Z.sqrt (p * 2 ^ (2 * w)) mod 2 ^ w.
Definition cbrt_bits (w p : Z) : Z := cbrt_loop (Z.to_nat (w + 8)) (p * 2 ^ (3 * w)) 0 mod 2 ^ w.

(** ** The compression function *)

(** Eight registers. *)
Inductive regs := Regs (a b c d e f g h : Z).

(** Word size; the rotations of the four functions (the third number of the
    small ones is a shift). *)
Record Sha2 := {
  word : Z;
  Sum0 : Z * Z * Z;
  Sum1 : Z * Z * Z;
  sig0 : Z * Z * Z;
  sig1 : Z * Z * Z
}.

Section Compression.
Context (v : Sha2).

Definition big (r : Z * Z * Z) (x : Z) : Z :=
  let '(i, j, k) := r in Z.lxor (Z.lxor (rotr (word v) i x) (rotr (word v) j x)) (rotr (word v) k x).
Definition small (r : Z * Z * Z) (x : Z) : Z :=
  let '(i, j, k) := r in Z.lxor (Z.lxor (rotr (word v) i x) (rotr (word v) j x)) (Z.shiftr x k).

Definition choose (x y z : Z) : Z := Z.lxor (Z.land x y) (Z.land (Z.lnot x) z).
Definition majority (x y z : Z) : Z := Z.lxor (Z.lxor (Z.land x y) (Z.land x z)) (Z.land y z).

(** The word sixteen places after the first of [l]. *)
Definition next_word (l : list Z) : Z :=
  uint (word v) (small (sig1 v) (nth 14 l 0) + nth 9 l 0 + small (sig0 v) (nth 1 l 0) + nth 0 l 0).

(** [n] words of the schedule, from sixteen in a row. *)
Fixpoint schedule (n : nat) (l : list Z) : list Z :=
  match n with O => [] | S n => nth 0 l 0 :: schedule n (drop 1 l ++ [next_word l]) end.

Definition round (r : regs) (kw : Z * Z) : regs :=
  let '(Regs a b c d e f g h) := r in
  let '(k, x) := kw in
  let t1 := h + big (Sum1 v) e + choose e f g + k + x in
  let t2 := big (Sum0 v) a + majority a b c in
  Regs (uint (word v) (t1 + t2)) a b c (uint (word v) (d + t1)) e f g.

Definition add_regs (r s : regs) : regs :=
  let '(Regs a b c d e f g h) := r in
  let '(Regs a' b' c' d' e' f' g' h') := s in
  Regs (uint (word v) (a + a')) (uint (word v) (b + b')) (uint (word v) (c + c')) (uint (word v) (d + d'))
       (uint (word v) (e + e')) (uint (word v) (f + f')) (uint (word v) (g + g')) (uint (word v) (h + h')).

(** [K]: the constants of the rounds; [l]: the sixteen words of the block. *)
Definition compress (K : list Z) (s : regs) (l : list Z) : regs :=
  add_regs s (foldl round s (zip K (schedule (length K) l))).

End Compression.

(** The sixteen words of a block. *)
Definition block_words (n : nat) (chunk : bytes) : list Z := map (fun i => ReadBE n chunk (i * n)) (seq 0 16).

(** ** The code's forms of the functions *)

Ltac bitwise :=
  apply Z.bits_inj'; intros ? ?; rewrite ?Z.lxor_spec, ?Z.lor_spec, ?Z.land_spec, ?Z.lnot_spec, ?Z.lxor_spec, ?Z.lor_spec, ?Z.land_spec by done;
  repeat match goal with |- context [Z.testbit ?x ?n] => destruct (Z.testbit x n) end; reflexivity.

Lemma choose_code x y z : Z.lxor z (Z.land x (Z.lxor y z)) = choose x y z.
Proof. unfold choose. bitwise. Qed.

Lemma majority_code x y z : Z.lor (Z.land x y) (Z.land z (Z.lor x y)) = majority x y z.
Proof. unfold majority. bitwise. Qed.

(** Sums that wrap on the way are the wrapped sum. *)
Definition wadd (w x y : Z) : Z := uint w (x + y).

Ltac word_sum := unfold wadd, uint; Z.push_pull_mod; f_equal; lia.

(** ** One round at a time *)

(** An assignment to a variable of the code, [w0 = e; k]. *)
Definition assign {A B} (e : A) (k : A -> B) : B := k e.

Section Rounds.
Context (v : Sha2).

Lemma rounds_step k K n r x0 x1 x2 x3 x4 x5 x6 x7 x8 x9 x10 x11 x12 x13 x14 x15 :
  foldl (round v) r (zip (k :: K) (schedule v (S n) [x0; x1; x2; x3; x4; x5; x6; x7; x8; x9; x10; x11; x12; x13; x14; x15])) =
  foldl (round v) (round v r (k, x0)) (zip K (schedule v n [x1; x2; x3; x4; x5; x6; x7; x8; x9; x10; x11; x12; x13; x14; x15;
    next_word v [x0; x1; x2; x3; x4; x5; x6; x7; x8; x9; x10; x11; x12; x13; x14; x15]])).
Proof. reflexivity. Qed.

Lemma rounds_end K r l : foldl (round v) r (zip K (schedule v 0 l)) = r.
Proof. by destruct K. Qed.

End Rounds.

Lemma assign_word {A} (x y : Z) (k : Z -> A) (r : A) : x = y -> k y = r -> assign x k = r.
Proof. by intros ->. Qed.

Lemma name_word (e : Z) : exists y, y = e.
Proof. by exists e. Qed.

(** A word of the code is the word of the schedule. *)
Ltac code_word next_code :=
  match goal with
  | |- assign ?x ?k = ?r => is_var x; change (k x = r); cbv beta
  | H : ?y = next_word _ _ |- assign _ _ = _ => apply (assign_word _ y); [rewrite H, next_code; cbn [nth]; word_sum|cbv beta]
  | H : ?y = next_word _ _ |- (let '(_, _) := ?R in _) = _ =>
      match R with context [wadd ?w ?p ?q] => replace (wadd w p q) with y by (rewrite H, next_code; cbn [nth]; word_sum) end
  end.

(** Both sides run the same round; [round_code] and [next_code] give the
    reference's functions in terms of the code's. *)
Ltac code_round round_code next_code :=
  rewrite rounds_step, round_code;
  match goal with |- context [next_word ?v ?l] => let N := fresh "N" in destruct (name_word (next_word v l)) as [? N]; rewrite <- N end;
  code_word next_code;
  match goal with |- (let '(_, _) := ?R in _) = _ => destruct R end.
