(* ===== verification/Sha256.v ===== *)
(** * SHA-256

    crypto/sha256.cpp: the unrolled compression function with its rotating
    registers and its window of sixteen words, and the class [CSHA256].  The
    compression function is shown equal to the standard's (Sha2). *)

From S2P Require Import Prelude BlockHash Sha2.

#[local] Infix "+." := (wadd 32) (at level 50, left associativity).
#[local] Notation "x >>. n" := (Z.shiftr x n) (at level 45).
#[local] Notation "x <<. n" := (uint 32 (Z.shiftl x n)) (at level 45).
#[local] Notation "x <~ e ; k" := (assign e (fun x => k)) (at level 200, e at level 100, k at level 200).

Definition sha256_Ch (x y z : Z) : Z := Z.lxor z (Z.land x (Z.lxor y z)).
Definition sha256_Maj (x y z : Z) : Z := Z.lor (Z.land x y) (Z.land z (Z.lor x y)).
Definition sha256_Sigma0 (x : Z) : Z := Z.lxor (Z.lxor (Z.lor (x >>. 2) (x <<. 30)) (Z.lor (x >>. 13) (x <<. 19))) (Z.lor (x >>. 22) (x <<. 10)).
Definition sha256_Sigma1 (x : Z) : Z := Z.lxor (Z.lxor (Z.lor (x >>. 6) (x <<. 26)) (Z.lor (x >>. 11) (x <<. 21))) (Z.lor (x >>. 25) (x <<. 7)).
Definition sha256_sigma0 (x : Z) : Z := Z.lxor (Z.lxor (Z.lor (x >>. 7) (x <<. 25)) (Z.lor (x >>. 18) (x <<. 14))) (x >>. 3).
Definition sha256_sigma1 (x : Z) : Z := Z.lxor (Z.lxor (Z.lor (x >>. 17) (x <<. 15)) (Z.lor (x >>. 19) (x <<. 13))) (x >>. 10).

(** The new [d] and [h]. *)
Definition sha256_Round (a b c d e f g h k w : Z) : Z * Z :=
  let t1 := h +. sha256_Sigma1 e +. sha256_Ch e f g +. k +. w in
  let t2 := sha256_Sigma0 a +. sha256_Maj a b c in
  (d +. t1, t1 +. t2).

Definition sha256_Initialize : regs :=
  Regs 0x6a09e667 0xbb67ae85 0x3c6ef372 0xa54ff53a 0x510e527f 0x9b05688c 0x1f83d9ab 0x5be0cd19.

Definition sha256_Transform (s : regs) (chunk : bytes) : regs :=
  let '(Regs a b c d e f g h) := s in
  let '(Regs s0 s1 s2 s3 s4 s5 s6 s7) := s in
  w0 <~ ReadBE 4 chunk 0;
  let '(d, h) := sha256_Round a b c d e f g h 0x428a2f98 w0 in
  w1 <~ ReadBE 4 chunk 4;
  let '(c, g) := sha256_Round h a b c d e f g 0x71374491 w1 in
  w2 <~ ReadBE 4 chunk 8;
  let '(b, f) := sha256_Round g h a b c d e f 0xb5c0fbcf w2 in
  w3 <~ ReadBE 4 chunk 12;
  let '(a, e) := sha256_Round f g h a b c d e 0xe9b5dba5 w3 in
  w4 <~ ReadBE 4 chunk 16;
  let '(h, d) := sha256_Round e f g h a b c d 0x3956c25b w4 in
  w5 <~ ReadBE 4 chunk 20;
  let '(g, c) := sha256_Round d e f g h a b c 0x59f111f1 w5 in
  w6 <~ ReadBE 4 chunk 24;
  let '(f, b) := sha256_Round c d e f g h a b 0x923f82a4 w6 in
  w7 <~ ReadBE 4 chunk 28;
  let '(e, a) := sha256_Round b c d e f g h a 0xab1c5ed5 w7 in
  w8 <~ ReadBE 4 chunk 32;
  let '(d, h) := sha256_Round a b c d e f g h 0xd807aa98 w8 in
  w9 <~ ReadBE 4 chunk 36;
  let '(c, g) := sha256_Round h a b c d e f g 0x12835b01 w9 in
  w10 <~ ReadBE 4 chunk 40;
  let '(b, f) := sha256_Round g h a b c d e f 0x243185be w10 in
  w11 <~ ReadBE 4 chunk 44;
  let '(a, e) := sha256_Round f g h a b c d e 0x550c7dc3 w11 in
  w12 <~ ReadBE 4 chunk 48;
  let '(h, d) := sha256_Round e f g h a b c d 0x72be5d74 w12 in
  w13 <~ ReadBE 4 chunk 52;
  let '(g, c) := sha256_Round d e f g h a b c 0x80deb1fe w13 in
  w14 <~ ReadBE 4 chunk 56;
  let '(f, b) := sha256_Round c d e f g h a b 0x9bdc06a7 w14 in
  w15 <~ ReadBE 4 chunk 60;
  let '(e, a) := sha256_Round b c d e f g h a 0xc19bf174 w15 in
  w0 <~ w0 +. (sha256_sigma1 w14 +. w9 +. sha256_sigma0 w1);
  let '(d, h) := sha256_Round a b c d e f g h 0xe49b69c1 w0 in
  w1 <~ w1 +. (sha256_sigma1 w15 +. w10 +. sha256_sigma0 w2);
  let '(c, g) := sha256_Round h a b c d e f g 0xefbe4786 w1 in
  w2 <~ w2 +. (sha256_sigma1 w0 +. w11 +. sha256_sigma0 w3);
  let '(b, f) := sha256_Round g h a b c d e f 0x0fc19dc6 w2 in
  w3 <~ w3 +. (sha256_sigma1 w1 +. w12 +. sha256_sigma0 w4);
  let '(a, e) := sha256_Round f g h a b c d e 0x240ca1cc w3 in
  w4 <~ w4 +. (sha256_sigma1 w2 +. w13 +. sha256_sigma0 w5);
  let '(h, d) := sha256_Round e f g h a b c d 0x2de92c6f w4 in
  w5 <~ w5 +. (sha256_sigma1 w3 +. w14 +. sha256_sigma0 w6);
  let '(g, c) := sha256_Round d e f g h a b c 0x4a7484aa w5 in
  w6 <~ w6 +. (sha256_sigma1 w4 +. w15 +. sha256_sigma0 w7);
  let '(f, b) := sha256_Round c d e f g h a b 0x5cb0a9dc w6 in
  w7 <~ w7 +. (sha256_sigma1 w5 +. w0 +. sha256_sigma0 w8);
  let '(e, a) := sha256_Round b c d e f g h a 0x76f988da w7 in
  w8 <~ w8 +. (sha256_sigma1 w6 +. w1 +. sha256_sigma0 w9);
  let '(d, h) := sha256_Round a b c d e f g h 0x983e5152 w8 in
  w9 <~ w9 +. (sha256_sigma1 w7 +. w2 +. sha256_sigma0 w10);
  let '(c, g) := sha256_Round h a b c d e f g 0xa831c66d w9 in
  w10 <~ w10 +. (sha256_sigma1 w8 +. w3 +. sha256_sigma0 w11);
  let '(b, f) := sha256_Round g h a b c d e f 0xb00327c8 w10 in
  w11 <~ w11 +. (sha256_sigma1 w9 +. w4 +. sha256_sigma0 w12);
  let '(a, e) := sha256_Round f g h a b c d e 0xbf597fc7 w11 in
  w12 <~ w12 +. (sha256_sigma1 w10 +. w5 +. sha256_sigma0 w13);
  let '(h, d) := sha256_Round e f g h a b c d 0xc6e00bf3 w12 in
  w13 <~ w13 +. (sha256_sigma1 w11 +. w6 +. sha256_sigma0 w14);
  let '(g, c) := sha256_Round d e f g h a b c 0xd5a79147 w13 in
  w14 <~ w14 +. (sha256_sigma1 w12 +. w7 +. sha256_sigma0 w15);
  let '(f, b) := sha256_Round c d e f g h a b 0x06ca6351 w14 in
  w15 <~ w15 +. (sha256_sigma1 w13 +. w8 +. sha256_sigma0 w0);
  let '(e, a) := sha256_Round b c d e f g h a 0x14292967 w15 in
  w0 <~ w0 +. (sha256_sigma1 w14 +. w9 +. sha256_sigma0 w1);
  let '(d, h) := sha256_Round a b c d e f g h 0x27b70a85 w0 in
  w1 <~ w1 +. (sha256_sigma1 w15 +. w10 +. sha256_sigma0 w2);
  let '(c, g) := sha256_Round h a b c d e f g 0x2e1b2138 w1 in
  w2 <~ w2 +. (sha256_sigma1 w0 +. w11 +. sha256_sigma0 w3);
  let '(b, f) := sha256_Round g h a b c d e f 0x4d2c6dfc w2 in
  w3 <~ w3 +. (sha256_sigma1 w1 +. w12 +. sha256_sigma0 w4);
  let '(a, e) := sha256_Round f g h a b c d e 0x53380d13 w3 in
  w4 <~ w4 +. (sha256_sigma1 w2 +. w13 +. sha256_sigma0 w5);
  let '(h, d) := sha256_Round e f g h a b c d 0x650a7354 w4 in
  w5 <~ w5 +. (sha256_sigma1 w3 +. w14 +. sha256_sigma0 w6);
  let '(g, c) := sha256_Round d e f g h a b c 0x766a0abb w5 in
  w6 <~ w6 +. (sha256_sigma1 w4 +. w15 +. sha256_sigma0 w7);
  let '(f, b) := sha256_Round c d e f g h a b 0x81c2c92e w6 in
  w7 <~ w7 +. (sha256_sigma1 w5 +. w0 +. sha256_sigma0 w8);
  let '(e, a) := sha256_Round b c d e f g h a 0x92722c85 w7 in
  w8 <~ w8 +. (sha256_sigma1 w6 +. w1 +. sha256_sigma0 w9);
  let '(d, h) := sha256_Round a b c d e f g h 0xa2bfe8a1 w8 in
  w9 <~ w9 +. (sha256_sigma1 w7 +. w2 +. sha256_sigma0 w10);
  let '(c, g) := sha256_Round h a b c d e f g 0xa81a664b w9 in
  w10 <~ w10 +. (sha256_sigma1 w8 +. w3 +. sha256_sigma0 w11);
  let '(b, f) := sha256_Round g h a b c d e f 0xc24b8b70 w10 in
  w11 <~ w11 +. (sha256_sigma1 w9 +. w4 +. sha256_sigma0 w12);
  let '(a, e) := sha256_Round f g h a b c d e 0xc76c51a3 w11 in
  w12 <~ w12 +. (sha256_sigma1 w10 +. w5 +. sha256_sigma0 w13);
  let '(h, d) := sha256_Round e f g h a b c d 0xd192e819 w12 in
  w13 <~ w13 +. (sha256_sigma1 w11 +. w6 +. sha256_sigma0 w14);
  let '(g, c) := sha256_Round d e f g h a b c 0xd6990624 w13 in
  w14 <~ w14 +. (sha256_sigma1 w12 +. w7 +. sha256_sigma0 w15);
  let '(f, b) := sha256_Round c d e f g h a b 0xf40e3585 w14 in
  w15 <~ w15 +. (sha256_sigma1 w13 +. w8 +. sha256_sigma0 w0);
  let '(e, a) := sha256_Round b c d e f g h a 0x106aa070 w15 in
  w0 <~ w0 +. (sha256_sigma1 w14 +. w9 +. sha256_sigma0 w1);
  let '(d, h) := sha256_Round a b c d e f g h 0x19a4c116 w0 in
  w1 <~ w1 +. (sha256_sigma1 w15 +. w10 +. sha256_sigma0 w2);
  let '(c, g) := sha256_Round h a b c d e f g 0x1e376c08 w1 in
  w2 <~ w2 +. (sha256_sigma1 w0 +. w11 +. sha256_sigma0 w3);
  let '(b, f) := sha256_Round g h a b c d e f 0x2748774c w2 in
  w3 <~ w3 +. (sha256_sigma1 w1 +. w12 +. sha256_sigma0 w4);
  let '(a, e) := sha256_Round f g h a b c d e 0x34b0bcb5 w3 in
  w4 <~ w4 +. (sha256_sigma1 w2 +. w13 +. sha256_sigma0 w5);
  let '(h, d) := sha256_Round e f g h a b c d 0x391c0cb3 w4 in
  w5 <~ w5 +. (sha256_sigma1 w3 +. w14 +. sha256_sigma0 w6);
  let '(g, c) := sha256_Round d e f g h a b c 0x4ed8aa4a w5 in
  w6 <~ w6 +. (sha256_sigma1 w4 +. w15 +. sha256_sigma0 w7);
  let '(f, b) := sha256_Round c d e f g h a b 0x5b9cca4f w6 in
  w7 <~ w7 +. (sha256_sigma1 w5 +. w0 +. sha256_sigma0 w8);
  let '(e, a) := sha256_Round b c d e f g h a 0x682e6ff3 w7 in
  w8 <~ w8 +. (sha256_sigma1 w6 +. w1 +. sha256_sigma0 w9);
  let '(d, h) := sha256_Round a b c d e f g h 0x748f82ee w8 in
  w9 <~ w9 +. (sha256_sigma1 w7 +. w2 +. sha256_sigma0 w10);
  let '(c, g) := sha256_Round h a b c d e f g 0x78a5636f w9 in
  w10 <~ w10 +. (sha256_sigma1 w8 +. w3 +. sha256_sigma0 w11);
  let '(b, f) := sha256_Round g h a b c d e f 0x84c87814 w10 in
  w11 <~ w11 +. (sha256_sigma1 w9 +. w4 +. sha256_sigma0 w12);
  let '(a, e) := sha256_Round f g h a b c d e 0x8cc70208 w11 in
  w12 <~ w12 +. (sha256_sigma1 w10 +. w5 +. sha256_sigma0 w13);
  let '(h, d) := sha256_Round e f g h a b c d 0x90befffa w12 in
  w13 <~ w13 +. (sha256_sigma1 w11 +. w6 +. sha256_sigma0 w14);
  let '(g, c) := sha256_Round d e f g h a b c 0xa4506ceb w13 in
  let '(f, b) := sha256_Round c d e f g h a b 0xbef9a3f7 (w14 +. sha256_sigma1 w12 +. w7 +. sha256_sigma0 w15) in
  let '(e, a) := sha256_Round b c d e f g h a 0xc67178f2 (w15 +. sha256_sigma1 w13 +. w8 +. sha256_sigma0 w0) in
  Regs (s0 +. a) (s1 +. b) (s2 +. c) (s3 +. d) (s4 +. e) (s5 +. f) (s6 +. g) (s7 +. h).

(** ** Equal to the standard *)

Definition sha256_standard : Sha2 := {| word := 32; Sum0 := (2, 13, 22); Sum1 := (6, 11, 25); sig0 := (7, 18, 3); sig1 := (17, 19, 10) |}.

(** The constants of the rounds: cube roots of the first 64 primes. *)
Definition sha256_constants : list Z := map (cbrt_bits 32) (primes 312).

(** The same, evaluated. *)
Definition sha256_K : list Z := Eval vm_compute in sha256_constants.

Lemma sha256_K_constants : sha256_constants = sha256_K.
Proof. vm_compute. reflexivity. Qed.

(** The initial value: square roots of the first eight primes. *)
Lemma sha256_Initialize_standard : sha256_Initialize =
  match map (sqrt_bits 32) (primes 20) with
  | [a; b; c; d; e; f; g; h] => Regs a b c d e f g h
  | _ => Regs 0 0 0 0 0 0 0 0
  end.
Proof. vm_compute. reflexivity. Qed.

Lemma sha256_round a b c d e f g h k w :
  round sha256_standard (Regs a b c d e f g h) (k, w) =
  let '(d', h') := sha256_Round a b c d e f g h k w in Regs h' a b c d' e f g.
Proof.
  unfold sha256_Round, sha256_Ch, sha256_Maj. rewrite choose_code, majority_code. cbn [round].
  change (big sha256_standard (Sum1 sha256_standard) e) with (sha256_Sigma1 e).
  change (big sha256_standard (Sum0 sha256_standard) a) with (sha256_Sigma0 a).
  cbv beta iota zeta. f_equal; cbn [word sha256_standard]; word_sum.
Qed.

Lemma sha256_next l : next_word sha256_standard l = nth 0 l 0 +. (sha256_sigma1 (nth 14 l 0) +. nth 9 l 0 +. sha256_sigma0 (nth 1 l 0)).
Proof.
  unfold next_word. change (small sha256_standard (sig1 sha256_standard)) with sha256_sigma1.
  change (small sha256_standard (sig0 sha256_standard)) with sha256_sigma0. cbn [word sha256_standard]. word_sum.
Qed.

Lemma sha256_Transform_standard s chunk :
  sha256_Transform s chunk = compress sha256_standard sha256_constants s (block_words 4 chunk).
Proof.
  rewrite sha256_K_constants. destruct s as [a b c d e f g h]. unfold compress, block_words, sha256_K. cbn [seq map Nat.mul Nat.add length].
  unfold sha256_Transform. cbv beta iota.
  repeat match goal with |- context [ReadBE 4 chunk ?n] => generalize (ReadBE 4 chunk n); intros ? end.
  do 64 code_round sha256_round sha256_next. rewrite rounds_end. reflexivity.
Qed.

(** ** CSHA256 *)

(** [WriteBE32] of the eight words. *)
Definition sha256_digest (s : regs) : bytes :=
  let '(Regs s0 s1 s2 s3 s4 s5 s6 s7) := s in
  be_bytes 4 s0 ++ be_bytes 4 s1 ++ be_bytes 4 s2 ++ be_bytes 4 s3 ++
  be_bytes 4 s4 ++ be_bytes 4 s5 ++ be_bytes 4 s6 ++ be_bytes 4 s7.

Definition sha256 : BlockHash regs := {|
  Initialize := sha256_Initialize;
  block := 64;
  Transform := sha256_Transform;
  length_field := 8;
  sizedesc n := be_bytes 8 n;
  digest := sha256_digest
|}.

#[export] Instance sha256_laws : BlockHashLaws regs (H := sha256).
Proof. split; [cbn; lia|by exists (2 ^ 58)|intros n; apply length_be_bytes|cbn; lia]. Qed.

Definition CSHA256 : Type := Hasher regs.
Definition CSHA256_new (buf : bytes) : CSHA256 := new_hasher (H := sha256) buf.
Definition CSHA256_Write (h : CSHA256) (data : bytes) : CSHA256 := Write (H := sha256) h data.
Definition CSHA256_Finalize (h : CSHA256) : bytes := Finalize (H := sha256) h.
Definition CSHA256_Reset (h : CSHA256) : CSHA256 := Reset (H := sha256) h.

(** [std::length_error] is [None]. *)
Definition CSHA256_FinalizeNoPadding (h : CSHA256) (enforce_compression : bool) : option bytes :=
  if enforce_compression && negb (h_bytes h =? 64) then None else Some (sha256_digest (h_s h)).

Lemma CSHA256_Finalize_eq h : Some (CSHA256_Finalize h) = CSHA256_FinalizeNoPadding (padded (H := sha256) h) false.
Proof. reflexivity. Qed.

(** The reference: padding, blocks, the standard's compression and constants. *)
Definition SHA256_standard (msg : bytes) : bytes :=
  sha256_digest (foldl (fun s chunk => compress sha256_standard sha256_constants s (block_words 4 chunk)) sha256_Initialize
    (blocks (H := sha256) (length (msg ++ padding (H := sha256) (size msg)) / 64) (msg ++ padding (H := sha256) (size msg)))).

Lemma sha256_digest_size s : length (sha256_digest s) = 32%nat /\ bytes_ok (sha256_digest s).
Proof.
  destruct s. cbn [sha256_digest]. split; [by rewrite !length_app, !length_be_bytes|]. rewrite !Forall_app. repeat split; apply be_bytes_ok.
Qed.

Lemma sha256_standard_reference msg : reference (H := sha256) msg = SHA256_standard msg.
Proof.
  unfold reference, SHA256_standard. cbn [digest sha256]. f_equal. unfold fold_blocks. cbn [Transform Initialize block sha256].
  generalize sha256_Initialize. induction (blocks _ _) as [|b l IH]; intros s; cbn [foldl]; [done|]. by rewrite sha256_Transform_standard, IH.
Qed.
