(* ===== verification/Sha512.v ===== *)
(** * SHA-512

    crypto/sha512.cpp: the unrolled compression function with its rotating
    registers and its window of sixteen words, and the class [CSHA512].  The
    compression function is shown equal to the standard's (Sha2). *)

From S2P Require Import Prelude BlockHash Sha2.

#[local] Infix "+." := (wadd 64) (at level 50, left associativity).
#[local] Notation "x >>. n" := (Z.shiftr x n) (at level 45).
#[local] Notation "x <<. n" := (uint 64 (Z.shiftl x n)) (at level 45).
#[local] Notation "x <~ e ; k" := (assign e (fun x => k)) (at level 200, e at level 100, k at level 200).

Definition sha512_Ch (x y z : Z) : Z := Z.lxor z (Z.land x (Z.lxor y z)).
Definition sha512_Maj (x y z : Z) : Z := Z.lor (Z.land x y) (Z.land z (Z.lor x y)).
Definition sha512_Sigma0 (x : Z) : Z := Z.lxor (Z.lxor (Z.lor (x >>. 28) (x <<. 36)) (Z.lor (x >>. 34) (x <<. 30))) (Z.lor (x >>. 39) (x <<. 25)).
Definition sha512_Sigma1 (x : Z) : Z := Z.lxor (Z.lxor (Z.lor (x >>. 14) (x <<. 50)) (Z.lor (x >>. 18) (x <<. 46))) (Z.lor (x >>. 41) (x <<. 23)).
Definition sha512_sigma0 (x : Z) : Z := Z.lxor (Z.lxor (Z.lor (x >>. 1) (x <<. 63)) (Z.lor (x >>. 8) (x <<. 56))) (x >>. 7).
Definition sha512_sigma1 (x : Z) : Z := Z.lxor (Z.lxor (Z.lor (x >>. 19) (x <<. 45)) (Z.lor (x >>. 61) (x <<. 3))) (x >>. 6).

(** The new [d] and [h]. *)
Definition sha512_Round (a b c d e f g h k w : Z) : Z * Z :=
  let t1 := h +. sha512_Sigma1 e +. sha512_Ch e f g +. k +. w in
  let t2 := sha512_Sigma0 a +. sha512_Maj a b c in
  (d +. t1, t1 +. t2).

Definition sha512_Initialize : regs :=
  Regs 0x6a09e667f3bcc908 0xbb67ae8584caa73b 0x3c6ef372fe94f82b 0xa54ff53a5f1d36f1
       0x510e527fade682d1 0x9b05688c2b3e6c1f 0x1f83d9abfb41bd6b 0x5be0cd19137e2179.

Definition sha512_Transform (s : regs) (chunk : bytes) : regs :=
  let '(Regs a b c d e f g h) := s in
  let '(Regs s0 s1 s2 s3 s4 s5 s6 s7) := s in
  w0 <~ ReadBE 8 chunk 0;
  let '(d, h) := sha512_Round a b c d e f g h 0x428a2f98d728ae22 w0 in
  w1 <~ ReadBE 8 chunk 8;
  let '(c, g) := sha512_Round h a b c d e f g 0x7137449123ef65cd w1 in
  w2 <~ ReadBE 8 chunk 16;
  let '(b, f) := sha512_Round g h a b c d e f 0xb5c0fbcfec4d3b2f w2 in
  w3 <~ ReadBE 8 chunk 24;
  let '(a, e) := sha512_Round f g h a b c d e 0xe9b5dba58189dbbc w3 in
  w4 <~ ReadBE 8 chunk 32;
  let '(h, d) := sha512_Round e f g h a b c d 0x3956c25bf348b538 w4 in
  w5 <~ ReadBE 8 chunk 40;
  let '(g, c) := sha512_Round d e f g h a b c 0x59f111f1b605d019 w5 in
  w6 <~ ReadBE 8 chunk 48;
  let '(f, b) := sha512_Round c d e f g h a b 0x923f82a4af194f9b w6 in
  w7 <~ ReadBE 8 chunk 56;
  let '(e, a) := sha512_Round b c d e f g h a 0xab1c5ed5da6d8118 w7 in
  w8 <~ ReadBE 8 chunk 64;
  let '(d, h) := sha512_Round a b c d e f g h 0xd807aa98a3030242 w8 in
  w9 <~ ReadBE 8 chunk 72;
  let '(c, g) := sha512_Round h a b c d e f g 0x12835b0145706fbe w9 in
  w10 <~ ReadBE 8 chunk 80;
  let '(b, f) := sha512_Round g h a b c d e f 0x243185be4ee4b28c w10 in
  w11 <~ ReadBE 8 chunk 88;
  let '(a, e) := sha512_Round f g h a b c d e 0x550c7dc3d5ffb4e2 w11 in
  w12 <~ ReadBE 8 chunk 96;
  let '(h, d) := sha512_Round e f g h a b c d 0x72be5d74f27b896f w12 in
  w13 <~ ReadBE 8 chunk 104;
  let '(g, c) := sha512_Round d e f g h a b c 0x80deb1fe3b1696b1 w13 in
  w14 <~ ReadBE 8 chunk 112;
  let '(f, b) := sha512_Round c d e f g h a b 0x9bdc06a725c71235 w14 in
  w15 <~ ReadBE 8 chunk 120;
  let '(e, a) := sha512_Round b c d e f g h a 0xc19bf174cf692694 w15 in
  w0 <~ w0 +. (sha512_sigma1 w14 +. w9 +. sha512_sigma0 w1);
  let '(d, h) := sha512_Round a b c d e f g h 0xe49b69c19ef14ad2 w0 in
  w1 <~ w1 +. (sha512_sigma1 w15 +. w10 +. sha512_sigma0 w2);
  let '(c, g) := sha512_Round h a b c d e f g 0xefbe4786384f25e3 w1 in
  w2 <~ w2 +. (sha512_sigma1 w0 +. w11 +. sha512_sigma0 w3);
  let '(b, f) := sha512_Round g h a b c d e f 0x0fc19dc68b8cd5b5 w2 in
  w3 <~ w3 +. (sha512_sigma1 w1 +. w12 +. sha512_sigma0 w4);
  let '(a, e) := sha512_Round f g h a b c d e 0x240ca1cc77ac9c65 w3 in
  w4 <~ w4 +. (sha512_sigma1 w2 +. w13 +. sha512_sigma0 w5);
  let '(h, d) := sha512_Round e f g h a b c d 0x2de92c6f592b0275 w4 in
  w5 <~ w5 +. (sha512_sigma1 w3 +. w14 +. sha512_sigma0 w6);
  let '(g, c) := sha512_Round d e f g h a b c 0x4a7484aa6ea6e483 w5 in
  w6 <~ w6 +. (sha512_sigma1 w4 +. w15 +. sha512_sigma0 w7);
  let '(f, b) := sha512_Round c d e f g h a b 0x5cb0a9dcbd41fbd4 w6 in
  w7 <~ w7 +. (sha512_sigma1 w5 +. w0 +. sha512_sigma0 w8);
  let '(e, a) := sha512_Round b c d e f g h a 0x76f988da831153b5 w7 in
  w8 <~ w8 +. (sha512_sigma1 w6 +. w1 +. sha512_sigma0 w9);
  let '(d, h) := sha512_Round a b c d e f g h 0x983e5152ee66dfab w8 in
  w9 <~ w9 +. (sha512_sigma1 w7 +. w2 +. sha512_sigma0 w10);
  let '(c, g) := sha512_Round h a b c d e f g 0xa831c66d2db43210 w9 in
  w10 <~ w10 +. (sha512_sigma1 w8 +. w3 +. sha512_sigma0 w11);
  let '(b, f) := sha512_Round g h a b c d e f 0xb00327c898fb213f w10 in
  w11 <~ w11 +. (sha512_sigma1 w9 +. w4 +. sha512_sigma0 w12);
  let '(a, e) := sha512_Round f g h a b c d e 0xbf597fc7beef0ee4 w11 in
  w12 <~ w12 +. (sha512_sigma1 w10 +. w5 +. sha512_sigma0 w13);
  let '(h, d) := sha512_Round e f g h a b c d 0xc6e00bf33da88fc2 w12 in
  w13 <~ w13 +. (sha512_sigma1 w11 +. w6 +. sha512_sigma0 w14);
  let '(g, c) := sha512_Round d e f g h a b c 0xd5a79147930aa725 w13 in
  w14 <~ w14 +. (sha512_sigma1 w12 +. w7 +. sha512_sigma0 w15);
  let '(f, b) := sha512_Round c d e f g h a b 0x06ca6351e003826f w14 in
  w15 <~ w15 +. (sha512_sigma1 w13 +. w8 +. sha512_sigma0 w0);
  let '(e, a) := sha512_Round b c d e f g h a 0x142929670a0e6e70 w15 in
  w0 <~ w0 +. (sha512_sigma1 w14 +. w9 +. sha512_sigma0 w1);
  let '(d, h) := sha512_Round a b c d e f g h 0x27b70a8546d22ffc w0 in
  w1 <~ w1 +. (sha512_sigma1 w15 +. w10 +. sha512_sigma0 w2);
  let '(c, g) := sha512_Round h a b c d e f g 0x2e1b21385c26c926 w1 in
  w2 <~ w2 +. (sha512_sigma1 w0 +. w11 +. sha512_sigma0 w3);
  let '(b, f) := sha512_Round g h a b c d e f 0x4d2c6dfc5ac42aed w2 in
  w3 <~ w3 +. (sha512_sigma1 w1 +. w12 +. sha512_sigma0 w4);
  let '(a, e) := sha512_Round f g h a b c d e 0x53380d139d95b3df w3 in
  w4 <~ w4 +. (sha512_sigma1 w2 +. w13 +. sha512_sigma0 w5);
  let '(h, d) := sha512_Round e f g h a b c d 0x650a73548baf63de w4 in
  w5 <~ w5 +. (sha512_sigma1 w3 +. w14 +. sha512_sigma0 w6);
  let '(g, c) := sha512_Round d e f g h a b c 0x766a0abb3c77b2a8 w5 in
  w6 <~ w6 +. (sha512_sigma1 w4 +. w15 +. sha512_sigma0 w7);
  let '(f, b) := sha512_Round c d e f g h a b 0x81c2c92e47edaee6 w6 in
  w7 <~ w7 +. (sha512_sigma1 w5 +. w0 +. sha512_sigma0 w8);
  let '(e, a) := sha512_Round b c d e f g h a 0x92722c851482353b w7 in
  w8 <~ w8 +. (sha512_sigma1 w6 +. w1 +. sha512_sigma0 w9);
  let '(d, h) := sha512_Round a b c d e f g h 0xa2bfe8a14cf10364 w8 in
  w9 <~ w9 +. (sha512_sigma1 w7 +. w2 +. sha512_sigma0 w10);
  let '(c, g) := sha512_Round h a b c d e f g 0xa81a664bbc423001 w9 in
  w10 <~ w10 +. (sha512_sigma1 w8 +. w3 +. sha512_sigma0 w11);
  let '(b, f) := sha512_Round g h a b c d e f 0xc24b8b70d0f89791 w10 in
  w11 <~ w11 +. (sha512_sigma1 w9 +. w4 +. sha512_sigma0 w12);
  let '(a, e) := sha512_Round f g h a b c d e 0xc76c51a30654be30 w11 in
  w12 <~ w12 +. (sha512_sigma1 w10 +. w5 +. sha512_sigma0 w13);
  let '(h, d) := sha512_Round e f g h a b c d 0xd192e819d6ef5218 w12 in
  w13 <~ w13 +. (sha512_sigma1 w11 +. w6 +. sha512_sigma0 w14);
  let '(g, c) := sha512_Round d e f g h a b c 0xd69906245565a910 w13 in
  w14 <~ w14 +. (sha512_sigma1 w12 +. w7 +. sha512_sigma0 w15);
  let '(f, b) := sha512_Round c d e f g h a b 0xf40e35855771202a w14 in
  w15 <~ w15 +. (sha512_sigma1 w13 +. w8 +. sha512_sigma0 w0);
  let '(e, a) := sha512_Round b c d e f g h a 0x106aa07032bbd1b8 w15 in
  w0 <~ w0 +. (sha512_sigma1 w14 +. w9 +. sha512_sigma0 w1);
  let '(d, h) := sha512_Round a b c d e f g h 0x19a4c116b8d2d0c8 w0 in
  w1 <~ w1 +. (sha512_sigma1 w15 +. w10 +. sha512_sigma0 w2);
  let '(c, g) := sha512_Round h a b c d e f g 0x1e376c085141ab53 w1 in
  w2 <~ w2 +. (sha512_sigma1 w0 +. w11 +. sha512_sigma0 w3);
  let '(b, f) := sha512_Round g h a b c d e f 0x2748774cdf8eeb99 w2 in
  w3 <~ w3 +. (sha512_sigma1 w1 +. w12 +. sha512_sigma0 w4);
  let '(a, e) := sha512_Round f g h a b c d e 0x34b0bcb5e19b48a8 w3 in
  w4 <~ w4 +. (sha512_sigma1 w2 +. w13 +. sha512_sigma0 w5);
  let '(h, d) := sha512_Round e f g h a b c d 0x391c0cb3c5c95a63 w4 in
  w5 <~ w5 +. (sha512_sigma1 w3 +. w14 +. sha512_sigma0 w6);
  let '(g, c) := sha512_Round d e f g h a b c 0x4ed8aa4ae3418acb w5 in
  w6 <~ w6 +. (sha512_sigma1 w4 +. w15 +. sha512_sigma0 w7);
  let '(f, b) := sha512_Round c d e f g h a b 0x5b9cca4f7763e373 w6 in
  w7 <~ w7 +. (sha512_sigma1 w5 +. w0 +. sha512_sigma0 w8);
  let '(e, a) := sha512_Round b c d e f g h a 0x682e6ff3d6b2b8a3 w7 in
  w8 <~ w8 +. (sha512_sigma1 w6 +. w1 +. sha512_sigma0 w9);
  let '(d, h) := sha512_Round a b c d e f g h 0x748f82ee5defb2fc w8 in
  w9 <~ w9 +. (sha512_sigma1 w7 +. w2 +. sha512_sigma0 w10);
  let '(c, g) := sha512_Round h a b c d e f g 0x78a5636f43172f60 w9 in
  w10 <~ w10 +. (sha512_sigma1 w8 +. w3 +. sha512_sigma0 w11);
  let '(b, f) := sha512_Round g h a b c d e f 0x84c87814a1f0ab72 w10 in
  w11 <~ w11 +. (sha512_sigma1 w9 +. w4 +. sha512_sigma0 w12);
  let '(a, e) := sha512_Round f g h a b c d e 0x8cc702081a6439ec w11 in
  w12 <~ w12 +. (sha512_sigma1 w10 +. w5 +. sha512_sigma0 w13);
  let '(h, d) := sha512_Round e f g h a b c d 0x90befffa23631e28 w12 in
  w13 <~ w13 +. (sha512_sigma1 w11 +. w6 +. sha512_sigma0 w14);
  let '(g, c) := sha512_Round d e f g h a b c 0xa4506cebde82bde9 w13 in
  w14 <~ w14 +. (sha512_sigma1 w12 +. w7 +. sha512_sigma0 w15);
  let '(f, b) := sha512_Round c d e f g h a b 0xbef9a3f7b2c67915 w14 in
  w15 <~ w15 +. (sha512_sigma1 w13 +. w8 +. sha512_sigma0 w0);
  let '(e, a) := sha512_Round b c d e f g h a 0xc67178f2e372532b w15 in
  w0 <~ w0 +. (sha512_sigma1 w14 +. w9 +. sha512_sigma0 w1);
  let '(d, h) := sha512_Round a b c d e f g h 0xca273eceea26619c w0 in
  w1 <~ w1 +. (sha512_sigma1 w15 +. w10 +. sha512_sigma0 w2);
  let '(c, g) := sha512_Round h a b c d e f g 0xd186b8c721c0c207 w1 in
  w2 <~ w2 +. (sha512_sigma1 w0 +. w11 +. sha512_sigma0 w3);
  let '(b, f) := sha512_Round g h a b c d e f 0xeada7dd6cde0eb1e w2 in
  w3 <~ w3 +. (sha512_sigma1 w1 +. w12 +. sha512_sigma0 w4);
  let '(a, e) := sha512_Round f g h a b c d e 0xf57d4f7fee6ed178 w3 in
  w4 <~ w4 +. (sha512_sigma1 w2 +. w13 +. sha512_sigma0 w5);
  let '(h, d) := sha512_Round e f g h a b c d 0x06f067aa72176fba w4 in
  w5 <~ w5 +. (sha512_sigma1 w3 +. w14 +. sha512_sigma0 w6);
  let '(g, c) := sha512_Round d e f g h a b c 0x0a637dc5a2c898a6 w5 in
  w6 <~ w6 +. (sha512_sigma1 w4 +. w15 +. sha512_sigma0 w7);
  let '(f, b) := sha512_Round c d e f g h a b 0x113f9804bef90dae w6 in
  w7 <~ w7 +. (sha512_sigma1 w5 +. w0 +. sha512_sigma0 w8);
  let '(e, a) := sha512_Round b c d e f g h a 0x1b710b35131c471b w7 in
  w8 <~ w8 +. (sha512_sigma1 w6 +. w1 +. sha512_sigma0 w9);
  let '(d, h) := sha512_Round a b c d e f g h 0x28db77f523047d84 w8 in
  w9 <~ w9 +. (sha512_sigma1 w7 +. w2 +. sha512_sigma0 w10);
  let '(c, g) := sha512_Round h a b c d e f g 0x32caab7b40c72493 w9 in
  w10 <~ w10 +. (sha512_sigma1 w8 +. w3 +. sha512_sigma0 w11);
  let '(b, f) := sha512_Round g h a b c d e f 0x3c9ebe0a15c9bebc w10 in
  w11 <~ w11 +. (sha512_sigma1 w9 +. w4 +. sha512_sigma0 w12);
  let '(a, e) := sha512_Round f g h a b c d e 0x431d67c49c100d4c w11 in
  w12 <~ w12 +. (sha512_sigma1 w10 +. w5 +. sha512_sigma0 w13);
  let '(h, d) := sha512_Round e f g h a b c d 0x4cc5d4becb3e42b6 w12 in
  w13 <~ w13 +. (sha512_sigma1 w11 +. w6 +. sha512_sigma0 w14);
  let '(g, c) := sha512_Round d e f g h a b c 0x597f299cfc657e2a w13 in
  let '(f, b) := sha512_Round c d e f g h a b 0x5fcb6fab3ad6faec (w14 +. sha512_sigma1 w12 +. w7 +. sha512_sigma0 w15) in
  let '(e, a) := sha512_Round b c d e f g h a 0x6c44198c4a475817 (w15 +. sha512_sigma1 w13 +. w8 +. sha512_sigma0 w0) in
  Regs (s0 +. a) (s1 +. b) (s2 +. c) (s3 +. d) (s4 +. e) (s5 +. f) (s6 +. g) (s7 +. h).

(** ** Equal to the standard *)

Definition sha512_standard : Sha2 := {| word := 64; Sum0 := (28, 34, 39); Sum1 := (14, 18, 41); sig0 := (1, 8, 7); sig1 := (19, 61, 6) |}.

(** The constants of the rounds: cube roots of the first 80 primes. *)
Definition sha512_constants : list Z := map (cbrt_bits 64) (primes 410).

(** The same, evaluated. *)
Definition sha512_K : list Z := Eval vm_compute in sha512_constants.

Lemma sha512_K_constants : sha512_constants = sha512_K.
Proof. vm_compute. reflexivity. Qed.

(** The initial value: square roots of the first eight primes. *)
Lemma sha512_Initialize_standard : sha512_Initialize =
  match map (sqrt_bits 64) (primes 20) with
  | [a; b; c; d; e; f; g; h] => Regs a b c d e f g h
  | _ => Regs 0 0 0 0 0 0 0 0
  end.
Proof. vm_compute. reflexivity. Qed.

Lemma sha512_round a b c d e f g h k w :
  round sha512_standard (Regs a b c d e f g h) (k, w) =
  let '(d', h') := sha512_Round a b c d e f g h k w in Regs h' a b c d' e f g.
Proof.
  unfold sha512_Round, sha512_Ch, sha512_Maj. rewrite choose_code, majority_code. cbn [round].
  change (big sha512_standard (Sum1 sha512_standard) e) with (sha512_Sigma1 e).
  change (big sha512_standard (Sum0 sha512_standard) a) with (sha512_Sigma0 a).
  cbv beta iota zeta. f_equal; cbn [word sha512_standard]; word_sum.
Qed.

Lemma sha512_next l : next_word sha512_standard l = nth 0 l 0 +. (sha512_sigma1 (nth 14 l 0) +. nth 9 l 0 +. sha512_sigma0 (nth 1 l 0)).
Proof.
  unfold next_word. change (small sha512_standard (sig1 sha512_standard)) with sha512_sigma1.
  change (small sha512_standard (sig0 sha512_standard)) with sha512_sigma0. cbn [word sha512_standard]. word_sum.
Qed.

Lemma sha512_Transform_standard s chunk :
  sha512_Transform s chunk = compress sha512_standard sha512_constants s (block_words 8 chunk).
Proof.
  rewrite sha512_K_constants. destruct s as [a b c d e f g h]. unfold compress, block_words, sha512_K. cbn [seq map Nat.mul Nat.add length].
  unfold sha512_Transform. cbv beta iota.
  repeat match goal with |- context [ReadBE 8 chunk ?n] => generalize (ReadBE 8 chunk n); intros ? end.
  do 80 code_round sha512_round sha512_next. rewrite rounds_end. reflexivity.
Qed.

(** ** CSHA512 *)

(** [WriteBE64] of the eight words. *)
Definition sha512_digest (s : regs) : bytes :=
  let '(Regs s0 s1 s2 s3 s4 s5 s6 s7) := s in
  be_bytes 8 s0 ++ be_bytes 8 s1 ++ be_bytes 8 s2 ++ be_bytes 8 s3 ++
  be_bytes 8 s4 ++ be_bytes 8 s5 ++ be_bytes 8 s6 ++ be_bytes 8 s7.

Definition sha512 : BlockHash regs := {|
  Initialize := sha512_Initialize;
  block := 128;
  Transform := sha512_Transform;
  length_field := 16;
  sizedesc n := replicate 8 0 ++ be_bytes 8 n;
  digest := sha512_digest
|}.

#[export] Instance sha512_laws : BlockHashLaws regs (H := sha512).
Proof. split; [cbn; lia|by exists (2 ^ 57)|intros n; cbn [sizedesc sha512]; by rewrite length_app, length_be_bytes|cbn; lia]. Qed.

Definition CSHA512 : Type := Hasher regs.
Definition CSHA512_new (buf : bytes) : CSHA512 := new_hasher (H := sha512) buf.
Definition CSHA512_Write (h : CSHA512) (data : bytes) : CSHA512 := Write (H := sha512) h data.
Definition CSHA512_Finalize (h : CSHA512) : bytes := Finalize (H := sha512) h.
Definition CSHA512_Reset (h : CSHA512) : CSHA512 := Reset (H := sha512) h.

(** The reference: padding, blocks, the standard's compression and constants. *)
Definition SHA512_standard (msg : bytes) : bytes :=
  sha512_digest (foldl (fun s chunk => compress sha512_standard sha512_constants s (block_words 8 chunk)) sha512_Initialize
    (blocks (H := sha512) (length (msg ++ padding (H := sha512) (size msg)) / 128) (msg ++ padding (H := sha512) (size msg)))).

Lemma sha512_digest_size s : length (sha512_digest s) = 64%nat /\ bytes_ok (sha512_digest s).
Proof.
  destruct s. cbn [sha512_digest]. split; [by rewrite !length_app, !length_be_bytes|]. rewrite !Forall_app. repeat split; apply be_bytes_ok.
Qed.

Lemma sha512_standard_reference msg : reference (H := sha512) msg = SHA512_standard msg.
Proof.
  unfold reference, SHA512_standard. cbn [digest sha512]. f_equal. unfold fold_blocks. cbn [Transform Initialize block sha512].
  generalize sha512_Initialize. induction (blocks _ _) as [|b l IH]; intros s; cbn [foldl]; [done|]. by rewrite sha512_Transform_standard, IH.
Qed.
