(* ===== verification/Sha1.v ===== *)
(** * SHA-1

    crypto/sha1.cpp: the unrolled compression function and the class [CSHA1],
    and the standard's description that it is equal to. *)

From S2P Require Import Prelude BlockHash Sha2.

#[local] Infix "+." := (wadd 32) (at level 50, left associativity).
#[local] Notation "x >>. n" := (Z.shiftr x n) (at level 45).
#[local] Notation "x <<. n" := (uint 32 (Z.shiftl x n)) (at level 45).
#[local] Notation "x <~ e ; k" := (assign e (fun x => k)) (at level 200, e at level 100, k at level 200).

(** Five registers. *)
Inductive regs5 := Regs5 (a b c d e : Z).

(** The new [b] and [e]. *)
Definition sha1_Round (a b c d e f k w : Z) : Z * Z :=
  (Z.lor (b <<. 30) (b >>. 2), e +. (Z.lor (a <<. 5) (a >>. 27) +. f +. k +. w)).

Definition sha1_f1 (b c d : Z) : Z := Z.lxor d (Z.land b (Z.lxor c d)).
Definition sha1_f2 (b c d : Z) : Z := Z.lxor (Z.lxor b c) d.
Definition sha1_f3 (b c d : Z) : Z := Z.lor (Z.land b c) (Z.land d (Z.lor b c)).

Definition sha1_left (x : Z) : Z := Z.lor (x <<. 1) (x >>. 31).

Definition sha1_Initialize : regs5 := Regs5 0x67452301 0xEFCDAB89 0x98BADCFE 0x10325476 0xC3D2E1F0.

Definition sha1_k1 : Z := 0x5A827999.
Definition sha1_k2 : Z := 0x6ED9EBA1.
Definition sha1_k3 : Z := 0x8F1BBCDC.
Definition sha1_k4 : Z := 0xCA62C1D6.

Definition sha1_Transform (s : regs5) (chunk : bytes) : regs5 :=
  let '(Regs5 a b c d e) := s in
  let '(Regs5 s0 s1 s2 s3 s4) := s in
  w0 <~ ReadBE 4 chunk 0;
  let '(b, e) := sha1_Round a b c d e (sha1_f1 b c d) sha1_k1 w0 in
  w1 <~ ReadBE 4 chunk 4;
  let '(a, d) := sha1_Round e a b c d (sha1_f1 a b c) sha1_k1 w1 in
  w2 <~ ReadBE 4 chunk 8;
  let '(e, c) := sha1_Round d e a b c (sha1_f1 e a b) sha1_k1 w2 in
  w3 <~ ReadBE 4 chunk 12;
  let '(d, b) := sha1_Round c d e a b (sha1_f1 d e a) sha1_k1 w3 in
  w4 <~ ReadBE 4 chunk 16;
  let '(c, a) := sha1_Round b c d e a (sha1_f1 c d e) sha1_k1 w4 in
  w5 <~ ReadBE 4 chunk 20;
  let '(b, e) := sha1_Round a b c d e (sha1_f1 b c d) sha1_k1 w5 in
  w6 <~ ReadBE 4 chunk 24;
  let '(a, d) := sha1_Round e a b c d (sha1_f1 a b c) sha1_k1 w6 in
  w7 <~ ReadBE 4 chunk 28;
  let '(e, c) := sha1_Round d e a b c (sha1_f1 e a b) sha1_k1 w7 in
  w8 <~ ReadBE 4 chunk 32;
  let '(d, b) := sha1_Round c d e a b (sha1_f1 d e a) sha1_k1 w8 in
  w9 <~ ReadBE 4 chunk 36;
  let '(c, a) := sha1_Round b c d e a (sha1_f1 c d e) sha1_k1 w9 in
  w10 <~ ReadBE 4 chunk 40;
  let '(b, e) := sha1_Round a b c d e (sha1_f1 b c d) sha1_k1 w10 in
  w11 <~ ReadBE 4 chunk 44;
  let '(a, d) := sha1_Round e a b c d (sha1_f1 a b c) sha1_k1 w11 in
  w12 <~ ReadBE 4 chunk 48;
  let '(e, c) := sha1_Round d e a b c (sha1_f1 e a b) sha1_k1 w12 in
  w13 <~ ReadBE 4 chunk 52;
  let '(d, b) := sha1_Round c d e a b (sha1_f1 d e a) sha1_k1 w13 in
  w14 <~ ReadBE 4 chunk 56;
  let '(c, a) := sha1_Round b c d e a (sha1_f1 c d e) sha1_k1 w14 in
  w15 <~ ReadBE 4 chunk 60;
  let '(b, e) := sha1_Round a b c d e (sha1_f1 b c d) sha1_k1 w15 in
  w0 <~ sha1_left (Z.lxor (Z.lxor (Z.lxor w0 w13) w8) w2);
  let '(a, d) := sha1_Round e a b c d (sha1_f1 a b c) sha1_k1 w0 in
  w1 <~ sha1_left (Z.lxor (Z.lxor (Z.lxor w1 w14) w9) w3);
  let '(e, c) := sha1_Round d e a b c (sha1_f1 e a b) sha1_k1 w1 in
  w2 <~ sha1_left (Z.lxor (Z.lxor (Z.lxor w2 w15) w10) w4);
  let '(d, b) := sha1_Round c d e a b (sha1_f1 d e a) sha1_k1 w2 in
  w3 <~ sha1_left (Z.lxor (Z.lxor (Z.lxor w3 w0) w11) w5);
  let '(c, a) := sha1_Round b c d e a (sha1_f1 c d e) sha1_k1 w3 in
  w4 <~ sha1_left (Z.lxor (Z.lxor (Z.lxor w4 w1) w12) w6);
  let '(b, e) := sha1_Round a b c d e (sha1_f2 b c d) sha1_k2 w4 in
  w5 <~ sha1_left (Z.lxor (Z.lxor (Z.lxor w5 w2) w13) w7);
  let '(a, d) := sha1_Round e a b c d (sha1_f2 a b c) sha1_k2 w5 in
  w6 <~ sha1_left (Z.lxor (Z.lxor (Z.lxor w6 w3) w14) w8);
  let '(e, c) := sha1_Round d e a b c (sha1_f2 e a b) sha1_k2 w6 in
  w7 <~ sha1_left (Z.lxor (Z.lxor (Z.lxor w7 w4) w15) w9);
  let '(d, b) := sha1_Round c d e a b (sha1_f2 d e a) sha1_k2 w7 in
  w8 <~ sha1_left (Z.lxor (Z.lxor (Z.lxor w8 w5) w0) w10);
  let '(c, a) := sha1_Round b c d e a (sha1_f2 c d e) sha1_k2 w8 in
  w9 <~ sha1_left (Z.lxor (Z.lxor (Z.lxor w9 w6) w1) w11);
  let '(b, e) := sha1_Round a b c d e (sha1_f2 b c d) sha1_k2 w9 in
  w10 <~ sha1_left (Z.lxor (Z.lxor (Z.lxor w10 w7) w2) w12);
  let '(a, d) := sha1_Round e a b c d (sha1_f2 a b c) sha1_k2 w10 in
  w11 <~ sha1_left (Z.lxor (Z.lxor (Z.lxor w11 w8) w3) w13);
  let '(e, c) := sha1_Round d e a b c (sha1_f2 e a b) sha1_k2 w11 in
  w12 <~ sha1_left (Z.lxor (Z.lxor (Z.lxor w12 w9) w4) w14);
  let '(d, b) := sha1_Round c d e a b (sha1_f2 d e a) sha1_k2 w12 in
  w13 <~ sha1_left (Z.lxor (Z.lxor (Z.lxor w13 w10) w5) w15);
  let '(c, a) := sha1_Round b c d e a (sha1_f2 c d e) sha1_k2 w13 in
  w14 <~ sha1_left (Z.lxor (Z.lxor (Z.lxor w14 w11) w6) w0);
  let '(b, e) := sha1_Round a b c d e (sha1_f2 b c d) sha1_k2 w14 in
  w15 <~ sha1_left (Z.lxor (Z.lxor (Z.lxor w15 w12) w7) w1);
  let '(a, d) := sha1_Round e a b c d (sha1_f2 a b c) sha1_k2 w15 in
  w0 <~ sha1_left (Z.lxor (Z.lxor (Z.lxor w0 w13) w8) w2);
  let '(e, c) := sha1_Round d e a b c (sha1_f2 e a b) sha1_k2 w0 in
  w1 <~ sha1_left (Z.lxor (Z.lxor (Z.lxor w1 w14) w9) w3);
  let '(d, b) := sha1_Round c d e a b (sha1_f2 d e a) sha1_k2 w1 in
  w2 <~ sha1_left (Z.lxor (Z.lxor (Z.lxor w2 w15) w10) w4);
  let '(c, a) := sha1_Round b c d e a (sha1_f2 c d e) sha1_k2 w2 in
  w3 <~ sha1_left (Z.lxor (Z.lxor (Z.lxor w3 w0) w11) w5);
  let '(b, e) := sha1_Round a b c d e (sha1_f2 b c d) sha1_k2 w3 in
  w4 <~ sha1_left (Z.lxor (Z.lxor (Z.lxor w4 w1) w12) w6);
  let '(a, d) := sha1_Round e a b c d (sha1_f2 a b c) sha1_k2 w4 in
  w5 <~ sha1_left (Z.lxor (Z.lxor (Z.lxor w5 w2) w13) w7);
  let '(e, c) := sha1_Round d e a b c (sha1_f2 e a b) sha1_k2 w5 in
  w6 <~ sha1_left (Z.lxor (Z.lxor (Z.lxor w6 w3) w14) w8);
  let '(d, b) := sha1_Round c d e a b (sha1_f2 d e a) sha1_k2 w6 in
  w7 <~ sha1_left (Z.lxor (Z.lxor (Z.lxor w7 w4) w15) w9);
  let '(c, a) := sha1_Round b c d e a (sha1_f2 c d e) sha1_k2 w7 in
  w8 <~ sha1_left (Z.lxor (Z.lxor (Z.lxor w8 w5) w0) w10);
  let '(b, e) := sha1_Round a b c d e (sha1_f3 b c d) sha1_k3 w8 in
  w9 <~ sha1_left (Z.lxor (Z.lxor (Z.lxor w9 w6) w1) w11);
  let '(a, d) := sha1_Round e a b c d (sha1_f3 a b c) sha1_k3 w9 in
  w10 <~ sha1_left (Z.lxor (Z.lxor (Z.lxor w10 w7) w2) w12);
  let '(e, c) := sha1_Round d e a b c (sha1_f3 e a b) sha1_k3 w10 in
  w11 <~ sha1_left (Z.lxor (Z.lxor (Z.lxor w11 w8) w3) w13);
  let '(d, b) := sha1_Round c d e a b (sha1_f3 d e a) sha1_k3 w11 in
  w12 <~ sha1_left (Z.lxor (Z.lxor (Z.lxor w12 w9) w4) w14);
  let '(c, a) := sha1_Round b c d e a (sha1_f3 c d e) sha1_k3 w12 in
  w13 <~ sha1_left (Z.lxor (Z.lxor (Z.lxor w13 w10) w5) w15);
  let '(b, e) := sha1_Round a b c d e (sha1_f3 b c d) sha1_k3 w13 in
  w14 <~ sha1_left (Z.lxor (Z.lxor (Z.lxor w14 w11) w6) w0);
  let '(a, d) := sha1_Round e a b c d (sha1_f3 a b c) sha1_k3 w14 in
  w15 <~ sha1_left (Z.lxor (Z.lxor (Z.lxor w15 w12) w7) w1);
  let '(e, c) := sha1_Round d e a b c (sha1_f3 e a b) sha1_k3 w15 in
  w0 <~ sha1_left (Z.lxor (Z.lxor (Z.lxor w0 w13) w8) w2);
  let '(d, b) := sha1_Round c d e a b (sha1_f3 d e a) sha1_k3 w0 in
  w1 <~ sha1_left (Z.lxor (Z.lxor (Z.lxor w1 w14) w9) w3);
  let '(c, a) := sha1_Round b c d e a (sha1_f3 c d e) sha1_k3 w1 in
  w2 <~ sha1_left (Z.lxor (Z.lxor (Z.lxor w2 w15) w10) w4);
  let '(b, e) := sha1_Round a b c d e (sha1_f3 b c d) sha1_k3 w2 in
  w3 <~ sha1_left (Z.lxor (Z.lxor (Z.lxor w3 w0) w11) w5);
  let '(a, d) := sha1_Round e a b c d (sha1_f3 a b c) sha1_k3 w3 in
  w4 <~ sha1_left (Z.lxor (Z.lxor (Z.lxor w4 w1) w12) w6);
  let '(e, c) := sha1_Round d e a b c (sha1_f3 e a b) sha1_k3 w4 in
  w5 <~ sha1_left (Z.lxor (Z.lxor (Z.lxor w5 w2) w13) w7);
  let '(d, b) := sha1_Round c d e a b (sha1_f3 d e a) sha1_k3 w5 in
  w6 <~ sha1_left (Z.lxor (Z.lxor (Z.lxor w6 w3) w14) w8);
  let '(c, a) := sha1_Round b c d e a (sha1_f3 c d e) sha1_k3 w6 in
  w7 <~ sha1_left (Z.lxor (Z.lxor (Z.lxor w7 w4) w15) w9);
  let '(b, e) := sha1_Round a b c d e (sha1_f3 b c d) sha1_k3 w7 in
  w8 <~ sha1_left (Z.lxor (Z.lxor (Z.lxor w8 w5) w0) w10);
  let '(a, d) := sha1_Round e a b c d (sha1_f3 a b c) sha1_k3 w8 in
  w9 <~ sha1_left (Z.lxor (Z.lxor (Z.lxor w9 w6) w1) w11);
  let '(e, c) := sha1_Round d e a b c (sha1_f3 e a b) sha1_k3 w9 in
  w10 <~ sha1_left (Z.lxor (Z.lxor (Z.lxor w10 w7) w2) w12);
  let '(d, b) := sha1_Round c d e a b (sha1_f3 d e a) sha1_k3 w10 in
  w11 <~ sha1_left (Z.lxor (Z.lxor (Z.lxor w11 w8) w3) w13);
  let '(c, a) := sha1_Round b c d e a (sha1_f3 c d e) sha1_k3 w11 in
  w12 <~ sha1_left (Z.lxor (Z.lxor (Z.lxor w12 w9) w4) w14);
  let '(b, e) := sha1_Round a b c d e (sha1_f2 b c d) sha1_k4 w12 in
  w13 <~ sha1_left (Z.lxor (Z.lxor (Z.lxor w13 w10) w5) w15);
  let '(a, d) := sha1_Round e a b c d (sha1_f2 a b c) sha1_k4 w13 in
  w14 <~ sha1_left (Z.lxor (Z.lxor (Z.lxor w14 w11) w6) w0);
  let '(e, c) := sha1_Round d e a b c (sha1_f2 e a b) sha1_k4 w14 in
  w15 <~ sha1_left (Z.lxor (Z.lxor (Z.lxor w15 w12) w7) w1);
  let '(d, b) := sha1_Round c d e a b (sha1_f2 d e a) sha1_k4 w15 in
  w0 <~ sha1_left (Z.lxor (Z.lxor (Z.lxor w0 w13) w8) w2);
  let '(c, a) := sha1_Round b c d e a (sha1_f2 c d e) sha1_k4 w0 in
  w1 <~ sha1_left (Z.lxor (Z.lxor (Z.lxor w1 w14) w9) w3);
  let '(b, e) := sha1_Round a b c d e (sha1_f2 b c d) sha1_k4 w1 in
  w2 <~ sha1_left (Z.lxor (Z.lxor (Z.lxor w2 w15) w10) w4);
  let '(a, d) := sha1_Round e a b c d (sha1_f2 a b c) sha1_k4 w2 in
  w3 <~ sha1_left (Z.lxor (Z.lxor (Z.lxor w3 w0) w11) w5);
  let '(e, c) := sha1_Round d e a b c (sha1_f2 e a b) sha1_k4 w3 in
  w4 <~ sha1_left (Z.lxor (Z.lxor (Z.lxor w4 w1) w12) w6);
  let '(d, b) := sha1_Round c d e a b (sha1_f2 d e a) sha1_k4 w4 in
  w5 <~ sha1_left (Z.lxor (Z.lxor (Z.lxor w5 w2) w13) w7);
  let '(c, a) := sha1_Round b c d e a (sha1_f2 c d e) sha1_k4 w5 in
  w6 <~ sha1_left (Z.lxor (Z.lxor (Z.lxor w6 w3) w14) w8);
  let '(b, e) := sha1_Round a b c d e (sha1_f2 b c d) sha1_k4 w6 in
  w7 <~ sha1_left (Z.lxor (Z.lxor (Z.lxor w7 w4) w15) w9);
  let '(a, d) := sha1_Round e a b c d (sha1_f2 a b c) sha1_k4 w7 in
  w8 <~ sha1_left (Z.lxor (Z.lxor (Z.lxor w8 w5) w0) w10);
  let '(e, c) := sha1_Round d e a b c (sha1_f2 e a b) sha1_k4 w8 in
  w9 <~ sha1_left (Z.lxor (Z.lxor (Z.lxor w9 w6) w1) w11);
  let '(d, b) := sha1_Round c d e a b (sha1_f2 d e a) sha1_k4 w9 in
  w10 <~ sha1_left (Z.lxor (Z.lxor (Z.lxor w10 w7) w2) w12);
  let '(c, a) := sha1_Round b c d e a (sha1_f2 c d e) sha1_k4 w10 in
  w11 <~ sha1_left (Z.lxor (Z.lxor (Z.lxor w11 w8) w3) w13);
  let '(b, e) := sha1_Round a b c d e (sha1_f2 b c d) sha1_k4 w11 in
  w12 <~ sha1_left (Z.lxor (Z.lxor (Z.lxor w12 w9) w4) w14);
  let '(a, d) := sha1_Round e a b c d (sha1_f2 a b c) sha1_k4 w12 in
  let '(e, c) := sha1_Round d e a b c (sha1_f2 e a b) sha1_k4 (sha1_left (Z.lxor (Z.lxor (Z.lxor w13 w10) w5) w15)) in
  let '(d, b) := sha1_Round c d e a b (sha1_f2 d e a) sha1_k4 (sha1_left (Z.lxor (Z.lxor (Z.lxor w14 w11) w6) w0)) in
  let '(c, a) := sha1_Round b c d e a (sha1_f2 c d e) sha1_k4 (sha1_left (Z.lxor (Z.lxor (Z.lxor w15 w12) w7) w1)) in
  Regs5 (s0 +. a) (s1 +. b) (s2 +. c) (s3 +. d) (s4 +. e).

(** ** The standard *)

Definition rotl (w n x : Z) : Z := rotr w (w - n) x.
Definition parity (x y z : Z) : Z := Z.lxor (Z.lxor x y) z.

(** Twenty rounds each; the constants are the first bits of square roots. *)
Definition sha1_rounds : list ((Z -> Z -> Z -> Z) * Z) :=
  replicate 20 (choose, Z.sqrt (2 * 2 ^ 60)) ++ replicate 20 (parity, Z.sqrt (3 * 2 ^ 60)) ++
  replicate 20 (majority, Z.sqrt (5 * 2 ^ 60)) ++ replicate 20 (parity, Z.sqrt (10 * 2 ^ 60)).

Definition sha1_next_word (l : list Z) : Z :=
  rotl 32 1 (Z.lxor (Z.lxor (Z.lxor (nth 13 l 0) (nth 8 l 0)) (nth 2 l 0)) (nth 0 l 0)).

Fixpoint sha1_schedule (n : nat) (l : list Z) : list Z :=
  match n with O => [] | S n => nth 0 l 0 :: sha1_schedule n (drop 1 l ++ [sha1_next_word l]) end.

Definition sha1_round (r : regs5) (x : (Z -> Z -> Z -> Z) * Z * Z) : regs5 :=
  let '(Regs5 a b c d e) := r in
  let '(f, k, w) := x in
  Regs5 (uint 32 (rotl 32 5 a + f b c d + e + k + w)) a (rotl 32 30 b) c d.

Definition sha1_compress (s : regs5) (l : list Z) : regs5 :=
  let '(Regs5 a b c d e) := s in
  let '(Regs5 a' b' c' d' e') := foldl sha1_round s (zip sha1_rounds (sha1_schedule 80 l)) in
  Regs5 (uint 32 (a + a')) (uint 32 (b + b')) (uint 32 (c + c')) (uint 32 (d + d')) (uint 32 (e + e')).

(** ** Equal to the standard *)

Lemma sha1_constants : sha1_rounds =
  replicate 20 (choose, sha1_k1) ++ replicate 20 (parity, sha1_k2) ++ replicate 20 (majority, sha1_k3) ++ replicate 20 (parity, sha1_k4).
Proof. reflexivity. Qed.

Lemma rotl_code n x : Z.lor (x <<. n) (x >>. (32 - n)) = rotl 32 n x.
Proof. unfold rotl, rotr. rewrite Z.lor_comm. do 4 f_equal. lia. Qed.

Lemma sha1_round_code (f g : Z -> Z -> Z -> Z) a b c d e k w : (forall x y z, f x y z = g x y z) ->
  sha1_round (Regs5 a b c d e) (f, k, w) = let '(b', e') := sha1_Round a b c d e (g b c d) k w in Regs5 e' a b' c d.
Proof.
  intros F. unfold sha1_Round, sha1_round. rewrite F, (rotl_code 5), (rotl_code 30). f_equal. word_sum.
Qed.

Lemma sha1_choose a b c d e k w :
  sha1_round (Regs5 a b c d e) (choose, k, w) = let '(b', e') := sha1_Round a b c d e (sha1_f1 b c d) k w in Regs5 e' a b' c d.
Proof. apply sha1_round_code. intros. symmetry. apply choose_code. Qed.

Lemma sha1_parity a b c d e k w :
  sha1_round (Regs5 a b c d e) (parity, k, w) = let '(b', e') := sha1_Round a b c d e (sha1_f2 b c d) k w in Regs5 e' a b' c d.
Proof. by apply sha1_round_code. Qed.

Lemma sha1_majority a b c d e k w :
  sha1_round (Regs5 a b c d e) (majority, k, w) = let '(b', e') := sha1_Round a b c d e (sha1_f3 b c d) k w in Regs5 e' a b' c d.
Proof. apply sha1_round_code. intros. symmetry. apply majority_code. Qed.

Lemma sha1_step x xs n r x0 x1 x2 x3 x4 x5 x6 x7 x8 x9 x10 x11 x12 x13 x14 x15 :
  foldl sha1_round r (zip (x :: xs) (sha1_schedule (S n) [x0; x1; x2; x3; x4; x5; x6; x7; x8; x9; x10; x11; x12; x13; x14; x15])) =
  foldl sha1_round (sha1_round r (x, x0)) (zip xs (sha1_schedule n [x1; x2; x3; x4; x5; x6; x7; x8; x9; x10; x11; x12; x13; x14; x15;
    sha1_next_word [x0; x1; x2; x3; x4; x5; x6; x7; x8; x9; x10; x11; x12; x13; x14; x15]])).
Proof. reflexivity. Qed.

Lemma sha1_end xs r l : foldl sha1_round r (zip xs (sha1_schedule 0 l)) = r.
Proof. by destruct xs. Qed.

(** The word of the code is the word of the schedule. *)
Lemma sha1_next l : sha1_left (Z.lxor (Z.lxor (Z.lxor (nth 0 l 0) (nth 13 l 0)) (nth 8 l 0)) (nth 2 l 0)) = sha1_next_word l.
Proof. unfold sha1_next_word, sha1_left. rewrite (rotl_code 1). f_equal. bitwise. Qed.

Ltac is_word x l :=
  let t := eval cbn [nth] in (sha1_left (Z.lxor (Z.lxor (Z.lxor (nth 0 l 0) (nth 13 l 0)) (nth 8 l 0)) (nth 2 l 0))) in constr_eq x t.

Ltac sha1_word :=
  match goal with
  | |- assign ?x ?k = ?r => is_var x; change (k x = r); cbv beta
  | H : ?y = sha1_next_word ?l |- assign ?x _ = _ => is_word x l; apply (assign_word _ y); [rewrite H; exact (sha1_next l)|cbv beta]
  | H : ?y = sha1_next_word ?l |- (let '(_, _) := sha1_Round _ _ _ _ _ _ _ ?x in _) = _ =>
      is_word x l; replace x with y by (rewrite H; symmetry; exact (sha1_next l))
  end.

Ltac sha1_code_round :=
  rewrite sha1_step; first [rewrite sha1_choose | rewrite sha1_parity | rewrite sha1_majority];
  match goal with |- context [sha1_next_word ?l] => let N := fresh "N" in destruct (name_word (sha1_next_word l)) as [? N]; rewrite <- N end;
  sha1_word;
  match goal with |- (let '(_, _) := ?R in _) = _ => destruct R end.

Lemma sha1_Transform_standard s chunk : sha1_Transform s chunk = sha1_compress s (block_words 4 chunk).
Proof.
  unfold sha1_compress. rewrite sha1_constants. destruct s as [a b c d e]. unfold block_words. cbn [seq map Nat.mul Nat.add replicate app].
  unfold sha1_Transform. cbv beta iota.
  repeat match goal with |- context [ReadBE 4 chunk ?n] => generalize (ReadBE 4 chunk n); intros ? end.
  do 80 sha1_code_round. rewrite sha1_end. reflexivity.
Qed.

(** ** CSHA1 *)

Definition sha1_digest (s : regs5) : bytes :=
  let '(Regs5 s0 s1 s2 s3 s4) := s in be_bytes 4 s0 ++ be_bytes 4 s1 ++ be_bytes 4 s2 ++ be_bytes 4 s3 ++ be_bytes 4 s4.

Definition sha1 : BlockHash regs5 := {|
  Initialize := sha1_Initialize;
  block := 64;
  Transform := sha1_Transform;
  length_field := 8;
  sizedesc n := be_bytes 8 n;
  digest := sha1_digest
|}.

#[export] Instance sha1_laws : BlockHashLaws regs5 (H := sha1).
Proof. split; [cbn; lia|by exists (2 ^ 58)|intros n; apply length_be_bytes|cbn; lia]. Qed.

Definition CSHA1 : Type := Hasher regs5.
Definition CSHA1_new (buf : bytes) : CSHA1 := new_hasher (H := sha1) buf.
Definition CSHA1_Write (h : CSHA1) (data : bytes) : CSHA1 := Write (H := sha1) h data.
Definition CSHA1_Finalize (h : CSHA1) : bytes := Finalize (H := sha1) h.
Definition CSHA1_Reset (h : CSHA1) : CSHA1 := Reset (H := sha1) h.

(** The reference: padding, blocks, the standard's compression. *)
Definition SHA1_standard (msg : bytes) : bytes :=
  sha1_digest (foldl (fun s chunk => sha1_compress s (block_words 4 chunk)) sha1_Initialize
    (blocks (H := sha1) (length (msg ++ padding (H := sha1) (size msg)) / 64) (msg ++ padding (H := sha1) (size msg)))).

Lemma sha1_digest_size s : length (sha1_digest s) = 20%nat /\ bytes_ok (sha1_digest s).
Proof.
  destruct s. cbn [sha1_digest]. split; [by rewrite !length_app, !length_be_bytes|]. rewrite !Forall_app. repeat split; apply be_bytes_ok.
Qed.

Lemma sha1_standard_reference msg : reference (H := sha1) msg = SHA1_standard msg.
Proof.
  unfold reference, SHA1_standard. cbn [digest sha1]. f_equal. unfold fold_blocks. cbn [Transform Initialize block sha1].
  generalize sha1_Initialize. induction (blocks _ _) as [|b l IH]; intros s; cbn [foldl]; [done|]. by rewrite sha1_Transform_standard, IH.
Qed.
