(* ===== verification/Ripemd160.v ===== *)
(** * RIPEMD-160

    crypto/ripemd160.cpp: the unrolled compression function with its two
    interleaved lines and the class [CRIPEMD160], and the description of the
    hash's authors that it is equal to. *)

From S2P Require Import Prelude BlockHash Sha2 Sha1.

#[local] Infix "+." := (wadd 32) (at level 50, left associativity).
#[local] Notation "x <~ e ; k" := (assign e (fun x => k)) (at level 200, e at level 100, k at level 200).

(** [~x] of a 32-bit word. *)
Definition not32 (x : Z) : Z := u32 (Z.lnot x).

Definition ripemd160_f1 (x y z : Z) : Z := Z.lxor (Z.lxor x y) z.
Definition ripemd160_f2 (x y z : Z) : Z := Z.lor (Z.land x y) (Z.land (not32 x) z).
Definition ripemd160_f3 (x y z : Z) : Z := Z.lxor (Z.lor x (not32 y)) z.
Definition ripemd160_f4 (x y z : Z) : Z := Z.lor (Z.land x z) (Z.land y (not32 z)).
Definition ripemd160_f5 (x y z : Z) : Z := Z.lxor x (Z.lor y (not32 z)).

Definition ripemd160_Initialize : regs5 := Regs5 0x67452301 0xEFCDAB89 0x98BADCFE 0x10325476 0xC3D2E1F0.

Definition rol (x i : Z) : Z := Z.lor (u32 (Z.shiftl x i)) (Z.shiftr x (32 - i)).

(** The new [a] and [c]. *)
Definition ripemd160_Round (a b c d e f x k r : Z) : Z * Z := (rol (a +. f +. x +. k) r +. e, rol c 10).

Definition ripemd160_R11 (a b c d e x r : Z) : Z * Z := ripemd160_Round a b c d e (ripemd160_f1 b c d) x 0 r.
Definition ripemd160_R21 (a b c d e x r : Z) : Z * Z := ripemd160_Round a b c d e (ripemd160_f2 b c d) x 0x5A827999 r.
Definition ripemd160_R31 (a b c d e x r : Z) : Z * Z := ripemd160_Round a b c d e (ripemd160_f3 b c d) x 0x6ED9EBA1 r.
Definition ripemd160_R41 (a b c d e x r : Z) : Z * Z := ripemd160_Round a b c d e (ripemd160_f4 b c d) x 0x8F1BBCDC r.
Definition ripemd160_R51 (a b c d e x r : Z) : Z * Z := ripemd160_Round a b c d e (ripemd160_f5 b c d) x 0xA953FD4E r.
Definition ripemd160_R12 (a b c d e x r : Z) : Z * Z := ripemd160_Round a b c d e (ripemd160_f5 b c d) x 0x50A28BE6 r.
Definition ripemd160_R22 (a b c d e x r : Z) : Z * Z := ripemd160_Round a b c d e (ripemd160_f4 b c d) x 0x5C4DD124 r.
Definition ripemd160_R32 (a b c d e x r : Z) : Z * Z := ripemd160_Round a b c d e (ripemd160_f3 b c d) x 0x6D703EF3 r.
Definition ripemd160_R42 (a b c d e x r : Z) : Z * Z := ripemd160_Round a b c d e (ripemd160_f2 b c d) x 0x7A6D76E9 r.
Definition ripemd160_R52 (a b c d e x r : Z) : Z * Z := ripemd160_Round a b c d e (ripemd160_f1 b c d) x 0 r.

Definition ripemd160_Transform (s : regs5) (chunk : bytes) : regs5 :=
  let '(Regs5 a1 b1 c1 d1 e1) := s in
  let '(Regs5 a2 b2 c2 d2 e2) := s in
  w0 <~ ReadLE 4 chunk 0; w1 <~ ReadLE 4 chunk 4; w2 <~ ReadLE 4 chunk 8; w3 <~ ReadLE 4 chunk 12;
  w4 <~ ReadLE 4 chunk 16; w5 <~ ReadLE 4 chunk 20; w6 <~ ReadLE 4 chunk 24; w7 <~ ReadLE 4 chunk 28;
  w8 <~ ReadLE 4 chunk 32; w9 <~ ReadLE 4 chunk 36; w10 <~ ReadLE 4 chunk 40; w11 <~ ReadLE 4 chunk 44;
  w12 <~ ReadLE 4 chunk 48; w13 <~ ReadLE 4 chunk 52; w14 <~ ReadLE 4 chunk 56; w15 <~ ReadLE 4 chunk 60;
  let '(a1, c1) := ripemd160_R11 a1 b1 c1 d1 e1 w0 11 in
  let '(a2, c2) := ripemd160_R12 a2 b2 c2 d2 e2 w5 8 in
  let '(e1, b1) := ripemd160_R11 e1 a1 b1 c1 d1 w1 14 in
  let '(e2, b2) := ripemd160_R12 e2 a2 b2 c2 d2 w14 9 in
  let '(d1, a1) := ripemd160_R11 d1 e1 a1 b1 c1 w2 15 in
  let '(d2, a2) := ripemd160_R12 d2 e2 a2 b2 c2 w7 9 in
  let '(c1, e1) := ripemd160_R11 c1 d1 e1 a1 b1 w3 12 in
  let '(c2, e2) := ripemd160_R12 c2 d2 e2 a2 b2 w0 11 in
  let '(b1, d1) := ripemd160_R11 b1 c1 d1 e1 a1 w4 5 in
  let '(b2, d2) := ripemd160_R12 b2 c2 d2 e2 a2 w9 13 in
  let '(a1, c1) := ripemd160_R11 a1 b1 c1 d1 e1 w5 8 in
  let '(a2, c2) := ripemd160_R12 a2 b2 c2 d2 e2 w2 15 in
  let '(e1, b1) := ripemd160_R11 e1 a1 b1 c1 d1 w6 7 in
  let '(e2, b2) := ripemd160_R12 e2 a2 b2 c2 d2 w11 15 in
  let '(d1, a1) := ripemd160_R11 d1 e1 a1 b1 c1 w7 9 in
  let '(d2, a2) := ripemd160_R12 d2 e2 a2 b2 c2 w4 5 in
  let '(c1, e1) := ripemd160_R11 c1 d1 e1 a1 b1 w8 11 in
  let '(c2, e2) := ripemd160_R12 c2 d2 e2 a2 b2 w13 7 in
  let '(b1, d1) := ripemd160_R11 b1 c1 d1 e1 a1 w9 13 in
  let '(b2, d2) := ripemd160_R12 b2 c2 d2 e2 a2 w6 7 in
  let '(a1, c1) := ripemd160_R11 a1 b1 c1 d1 e1 w10 14 in
  let '(a2, c2) := ripemd160_R12 a2 b2 c2 d2 e2 w15 8 in
  let '(e1, b1) := ripemd160_R11 e1 a1 b1 c1 d1 w11 15 in
  let '(e2, b2) := ripemd160_R12 e2 a2 b2 c2 d2 w8 11 in
  let '(d1, a1) := ripemd160_R11 d1 e1 a1 b1 c1 w12 6 in
  let '(d2, a2) := ripemd160_R12 d2 e2 a2 b2 c2 w1 14 in
  let '(c1, e1) := ripemd160_R11 c1 d1 e1 a1 b1 w13 7 in
  let '(c2, e2) := ripemd160_R12 c2 d2 e2 a2 b2 w10 14 in
  let '(b1, d1) := ripemd160_R11 b1 c1 d1 e1 a1 w14 9 in
  let '(b2, d2) := ripemd160_R12 b2 c2 d2 e2 a2 w3 12 in
  let '(a1, c1) := ripemd160_R11 a1 b1 c1 d1 e1 w15 8 in
  let '(a2, c2) := ripemd160_R12 a2 b2 c2 d2 e2 w12 6 in
  let '(e1, b1) := ripemd160_R21 e1 a1 b1 c1 d1 w7 7 in
  let '(e2, b2) := ripemd160_R22 e2 a2 b2 c2 d2 w6 9 in
  let '(d1, a1) := ripemd160_R21 d1 e1 a1 b1 c1 w4 6 in
  let '(d2, a2) := ripemd160_R22 d2 e2 a2 b2 c2 w11 13 in
  let '(c1, e1) := ripemd160_R21 c1 d1 e1 a1 b1 w13 8 in
  let '(c2, e2) := ripemd160_R22 c2 d2 e2 a2 b2 w3 15 in
  let '(b1, d1) := ripemd160_R21 b1 c1 d1 e1 a1 w1 13 in
  let '(b2, d2) := ripemd160_R22 b2 c2 d2 e2 a2 w7 7 in
  let '(a1, c1) := ripemd160_R21 a1 b1 c1 d1 e1 w10 11 in
  let '(a2, c2) := ripemd160_R22 a2 b2 c2 d2 e2 w0 12 in
  let '(e1, b1) := ripemd160_R21 e1 a1 b1 c1 d1 w6 9 in
  let '(e2, b2) := ripemd160_R22 e2 a2 b2 c2 d2 w13 8 in
  let '(d1, a1) := ripemd160_R21 d1 e1 a1 b1 c1 w15 7 in
  let '(d2, a2) := ripemd160_R22 d2 e2 a2 b2 c2 w5 9 in
  let '(c1, e1) := ripemd160_R21 c1 d1 e1 a1 b1 w3 15 in
  let '(c2, e2) := ripemd160_R22 c2 d2 e2 a2 b2 w10 11 in
  let '(b1, d1) := ripemd160_R21 b1 c1 d1 e1 a1 w12 7 in
  let '(b2, d2) := ripemd160_R22 b2 c2 d2 e2 a2 w14 7 in
  let '(a1, c1) := ripemd160_R21 a1 b1 c1 d1 e1 w0 12 in
  let '(a2, c2) := ripemd160_R22 a2 b2 c2 d2 e2 w15 7 in
  let '(e1, b1) := ripemd160_R21 e1 a1 b1 c1 d1 w9 15 in
  let '(e2, b2) := ripemd160_R22 e2 a2 b2 c2 d2 w8 12 in
  let '(d1, a1) := ripemd160_R21 d1 e1 a1 b1 c1 w5 9 in
  let '(d2, a2) := ripemd160_R22 d2 e2 a2 b2 c2 w12 7 in
  let '(c1, e1) := ripemd160_R21 c1 d1 e1 a1 b1 w2 11 in
  let '(c2, e2) := ripemd160_R22 c2 d2 e2 a2 b2 w4 6 in
  let '(b1, d1) := ripemd160_R21 b1 c1 d1 e1 a1 w14 7 in
  let '(b2, d2) := ripemd160_R22 b2 c2 d2 e2 a2 w9 15 in
  let '(a1, c1) := ripemd160_R21 a1 b1 c1 d1 e1 w11 13 in
  let '(a2, c2) := ripemd160_R22 a2 b2 c2 d2 e2 w1 13 in
  let '(e1, b1) := ripemd160_R21 e1 a1 b1 c1 d1 w8 12 in
  let '(e2, b2) := ripemd160_R22 e2 a2 b2 c2 d2 w2 11 in
  let '(d1, a1) := ripemd160_R31 d1 e1 a1 b1 c1 w3 11 in
  let '(d2, a2) := ripemd160_R32 d2 e2 a2 b2 c2 w15 9 in
  let '(c1, e1) := ripemd160_R31 c1 d1 e1 a1 b1 w10 13 in
  let '(c2, e2) := ripemd160_R32 c2 d2 e2 a2 b2 w5 7 in
  let '(b1, d1) := ripemd160_R31 b1 c1 d1 e1 a1 w14 6 in
  let '(b2, d2) := ripemd160_R32 b2 c2 d2 e2 a2 w1 15 in
  let '(a1, c1) := ripemd160_R31 a1 b1 c1 d1 e1 w4 7 in
  let '(a2, c2) := ripemd160_R32 a2 b2 c2 d2 e2 w3 11 in
  let '(e1, b1) := ripemd160_R31 e1 a1 b1 c1 d1 w9 14 in
  let '(e2, b2) := ripemd160_R32 e2 a2 b2 c2 d2 w7 8 in
  let '(d1, a1) := ripemd160_R31 d1 e1 a1 b1 c1 w15 9 in
  let '(d2, a2) := ripemd160_R32 d2 e2 a2 b2 c2 w14 6 in
  let '(c1, e1) := ripemd160_R31 c1 d1 e1 a1 b1 w8 13 in
  let '(c2, e2) := ripemd160_R32 c2 d2 e2 a2 b2 w6 6 in
  let '(b1, d1) := ripemd160_R31 b1 c1 d1 e1 a1 w1 15 in
  let '(b2, d2) := ripemd160_R32 b2 c2 d2 e2 a2 w9 14 in
  let '(a1, c1) := ripemd160_R31 a1 b1 c1 d1 e1 w2 14 in
  let '(a2, c2) := ripemd160_R32 a2 b2 c2 d2 e2 w11 12 in
  let '(e1, b1) := ripemd160_R31 e1 a1 b1 c1 d1 w7 8 in
  let '(e2, b2) := ripemd160_R32 e2 a2 b2 c2 d2 w8 13 in
  let '(d1, a1) := ripemd160_R31 d1 e1 a1 b1 c1 w0 13 in
  let '(d2, a2) := ripemd160_R32 d2 e2 a2 b2 c2 w12 5 in
  let '(c1, e1) := ripemd160_R31 c1 d1 e1 a1 b1 w6 6 in
  let '(c2, e2) := ripemd160_R32 c2 d2 e2 a2 b2 w2 14 in
  let '(b1, d1) := ripemd160_R31 b1 c1 d1 e1 a1 w13 5 in
  let '(b2, d2) := ripemd160_R32 b2 c2 d2 e2 a2 w10 13 in
  let '(a1, c1) := ripemd160_R31 a1 b1 c1 d1 e1 w11 12 in
  let '(a2, c2) := ripemd160_R32 a2 b2 c2 d2 e2 w0 13 in
  let '(e1, b1) := ripemd160_R31 e1 a1 b1 c1 d1 w5 7 in
  let '(e2, b2) := ripemd160_R32 e2 a2 b2 c2 d2 w4 7 in
  let '(d1, a1) := ripemd160_R31 d1 e1 a1 b1 c1 w12 5 in
  let '(d2, a2) := ripemd160_R32 d2 e2 a2 b2 c2 w13 5 in
  let '(c1, e1) := ripemd160_R41 c1 d1 e1 a1 b1 w1 11 in
  let '(c2, e2) := ripemd160_R42 c2 d2 e2 a2 b2 w8 15 in
  let '(b1, d1) := ripemd160_R41 b1 c1 d1 e1 a1 w9 12 in
  let '(b2, d2) := ripemd160_R42 b2 c2 d2 e2 a2 w6 5 in
  let '(a1, c1) := ripemd160_R41 a1 b1 c1 d1 e1 w11 14 in
  let '(a2, c2) := ripemd160_R42 a2 b2 c2 d2 e2 w4 8 in
  let '(e1, b1) := ripemd160_R41 e1 a1 b1 c1 d1 w10 15 in
  let '(e2, b2) := ripemd160_R42 e2 a2 b2 c2 d2 w1 11 in
  let '(d1, a1) := ripemd160_R41 d1 e1 a1 b1 c1 w0 14 in
  let '(d2, a2) := ripemd160_R42 d2 e2 a2 b2 c2 w3 14 in
  let '(c1, e1) := ripemd160_R41 c1 d1 e1 a1 b1 w8 15 in
  let '(c2, e2) := ripemd160_R42 c2 d2 e2 a2 b2 w11 14 in
  let '(b1, d1) := ripemd160_R41 b1 c1 d1 e1 a1 w12 9 in
  let '(b2, d2) := ripemd160_R42 b2 c2 d2 e2 a2 w15 6 in
  let '(a1, c1) := ripemd160_R41 a1 b1 c1 d1 e1 w4 8 in
  let '(a2, c2) := ripemd160_R42 a2 b2 c2 d2 e2 w0 14 in
  let '(e1, b1) := ripemd160_R41 e1 a1 b1 c1 d1 w13 9 in
  let '(e2, b2) := ripemd160_R42 e2 a2 b2 c2 d2 w5 6 in
  let '(d1, a1) := ripemd160_R41 d1 e1 a1 b1 c1 w3 14 in
  let '(d2, a2) := ripemd160_R42 d2 e2 a2 b2 c2 w12 9 in
  let '(c1, e1) := ripemd160_R41 c1 d1 e1 a1 b1 w7 5 in
  let '(c2, e2) := ripemd160_R42 c2 d2 e2 a2 b2 w2 12 in
  let '(b1, d1) := ripemd160_R41 b1 c1 d1 e1 a1 w15 6 in
  let '(b2, d2) := ripemd160_R42 b2 c2 d2 e2 a2 w13 9 in
  let '(a1, c1) := ripemd160_R41 a1 b1 c1 d1 e1 w14 8 in
  let '(a2, c2) := ripemd160_R42 a2 b2 c2 d2 e2 w9 12 in
  let '(e1, b1) := ripemd160_R41 e1 a1 b1 c1 d1 w5 6 in
  let '(e2, b2) := ripemd160_R42 e2 a2 b2 c2 d2 w7 5 in
  let '(d1, a1) := ripemd160_R41 d1 e1 a1 b1 c1 w6 5 in
  let '(d2, a2) := ripemd160_R42 d2 e2 a2 b2 c2 w10 15 in
  let '(c1, e1) := ripemd160_R41 c1 d1 e1 a1 b1 w2 12 in
  let '(c2, e2) := ripemd160_R42 c2 d2 e2 a2 b2 w14 8 in
  let '(b1, d1) := ripemd160_R51 b1 c1 d1 e1 a1 w4 9 in
  let '(b2, d2) := ripemd160_R52 b2 c2 d2 e2 a2 w12 8 in
  let '(a1, c1) := ripemd160_R51 a1 b1 c1 d1 e1 w0 15 in
  let '(a2, c2) := ripemd160_R52 a2 b2 c2 d2 e2 w15 5 in
  let '(e1, b1) := ripemd160_R51 e1 a1 b1 c1 d1 w5 5 in
  let '(e2, b2) := ripemd160_R52 e2 a2 b2 c2 d2 w10 12 in
  let '(d1, a1) := ripemd160_R51 d1 e1 a1 b1 c1 w9 11 in
  let '(d2, a2) := ripemd160_R52 d2 e2 a2 b2 c2 w4 9 in
  let '(c1, e1) := ripemd160_R51 c1 d1 e1 a1 b1 w7 6 in
  let '(c2, e2) := ripemd160_R52 c2 d2 e2 a2 b2 w1 12 in
  let '(b1, d1) := ripemd160_R51 b1 c1 d1 e1 a1 w12 8 in
  let '(b2, d2) := ripemd160_R52 b2 c2 d2 e2 a2 w5 5 in
  let '(a1, c1) := ripemd160_R51 a1 b1 c1 d1 e1 w2 13 in
  let '(a2, c2) := ripemd160_R52 a2 b2 c2 d2 e2 w8 14 in
  let '(e1, b1) := ripemd160_R51 e1 a1 b1 c1 d1 w10 12 in
  let '(e2, b2) := ripemd160_R52 e2 a2 b2 c2 d2 w7 6 in
  let '(d1, a1) := ripemd160_R51 d1 e1 a1 b1 c1 w14 5 in
  let '(d2, a2) := ripemd160_R52 d2 e2 a2 b2 c2 w6 8 in
  let '(c1, e1) := ripemd160_R51 c1 d1 e1 a1 b1 w1 12 in
  let '(c2, e2) := ripemd160_R52 c2 d2 e2 a2 b2 w2 13 in
  let '(b1, d1) := ripemd160_R51 b1 c1 d1 e1 a1 w3 13 in
  let '(b2, d2) := ripemd160_R52 b2 c2 d2 e2 a2 w13 6 in
  let '(a1, c1) := ripemd160_R51 a1 b1 c1 d1 e1 w8 14 in
  let '(a2, c2) := ripemd160_R52 a2 b2 c2 d2 e2 w14 5 in
  let '(e1, b1) := ripemd160_R51 e1 a1 b1 c1 d1 w11 11 in
  let '(e2, b2) := ripemd160_R52 e2 a2 b2 c2 d2 w0 15 in
  let '(d1, a1) := ripemd160_R51 d1 e1 a1 b1 c1 w6 8 in
  let '(d2, a2) := ripemd160_R52 d2 e2 a2 b2 c2 w3 13 in
  let '(c1, e1) := ripemd160_R51 c1 d1 e1 a1 b1 w15 5 in
  let '(c2, e2) := ripemd160_R52 c2 d2 e2 a2 b2 w9 11 in
  let '(b1, d1) := ripemd160_R51 b1 c1 d1 e1 a1 w13 6 in
  let '(b2, d2) := ripemd160_R52 b2 c2 d2 e2 a2 w11 11 in
  let '(Regs5 s0 s1 s2 s3 s4) := s in
  Regs5 (s1 +. c1 +. d2) (s2 +. d1 +. e2) (s3 +. e1 +. a2) (s4 +. a1 +. b2) (s0 +. b1 +. c2).

(** ** The description *)

(** The order of the words: permutations [rho], repeated, and [pi]. *)
Definition rho (i : nat) : nat := nth i [7; 4; 13; 1; 10; 6; 15; 3; 12; 0; 9; 5; 2; 14; 11; 8]%nat 0%nat.
Definition pi (i : nat) : nat := ((9 * i + 5) mod 16)%nat.

(** The rotation of a word in a round, the same for both lines. *)
Definition rotations (round word : nat) : Z :=
  nth word (nth round [
    [11; 14; 15; 12; 5; 8; 7; 9; 11; 13; 14; 15; 6; 7; 9; 8];
    [12; 13; 11; 15; 6; 9; 9; 7; 12; 15; 11; 13; 7; 8; 7; 7];
    [13; 15; 14; 11; 7; 7; 6; 8; 13; 14; 13; 12; 5; 5; 6; 9];
    [14; 11; 12; 14; 8; 6; 5; 5; 15; 12; 15; 14; 9; 9; 8; 6];
    [15; 12; 13; 13; 9; 5; 8; 6; 14; 11; 12; 11; 8; 6; 5; 5]] []) 0.

(** The eighty steps of a line: function, constant, word and rotation. *)
Definition ripemd160_line (fs : list (Z -> Z -> Z -> Z)) (ks : list Z) (first : nat -> nat) (X : list Z) : list ((Z -> Z -> Z -> Z) * Z * Z * Z) :=
  flat_map (fun j => map (fun i => let w := Nat.iter j rho (first i) in
    (nth j fs (fun x _ _ => x), nth j ks 0, nth w X 0, rotations j w)) (seq 0 16)) (seq 0 5).

Definition cbrt30 (p : Z) : Z := cbrt_loop 40 (p * 2 ^ 90) 0.
Definition left_constants : list Z := 0 :: map (fun p => Z.sqrt (p * 2 ^ 60)) [2; 3; 5; 7].
Definition right_constants : list Z := map cbrt30 [2; 3; 5; 7] ++ [0].
Definition functions : list (Z -> Z -> Z -> Z) := [ripemd160_f1; ripemd160_f2; ripemd160_f3; ripemd160_f4; ripemd160_f5].

Definition ripemd160_step (r : regs5) (x : (Z -> Z -> Z -> Z) * Z * Z * Z) : regs5 :=
  let '(Regs5 a b c d e) := r in
  let '(f, k, w, s) := x in
  Regs5 e (u32 (rotl 32 s (u32 (a + f b c d + w + k)) + e)) b (rotl 32 10 c) d.

Definition ripemd160_combine (s l r : regs5) : regs5 :=
  let '(Regs5 h0 h1 h2 h3 h4) := s in
  let '(Regs5 a b c d e) := l in
  let '(Regs5 a' b' c' d' e') := r in
  Regs5 (u32 (h1 + c + d')) (u32 (h2 + d + e')) (u32 (h3 + e + a')) (u32 (h4 + a + b')) (u32 (h0 + b + c')).

Definition ripemd160_compress (s : regs5) (X : list Z) : regs5 :=
  ripemd160_combine s (foldl ripemd160_step s (ripemd160_line functions left_constants (fun i => i) X))
    (foldl ripemd160_step s (ripemd160_line (reverse functions) right_constants pi X)).

Definition block_words_le (chunk : bytes) : list Z := map (fun i => ReadLE 4 chunk (i * 4)) (seq 0 16).

(** ** Equal to the description *)

Lemma rol_rotl x n : rol x n = rotl 32 n x.
Proof. apply (rotl_code n x). Qed.

Lemma ripemd160_round a b c d e f k w s :
  ripemd160_step (Regs5 a b c d e) (f, k, w, s) =
  let '(a', c') := ripemd160_Round a b c d e (f b c d) w k s in Regs5 e a' b c' d.
Proof.
  unfold ripemd160_Round, ripemd160_step. rewrite !rol_rotl. f_equal. unfold wadd. do 2 f_equal. f_equal. word_sum.
Qed.

Lemma ripemd160_steps s l r x y ls rs :
  ripemd160_combine s (foldl ripemd160_step l (x :: ls)) (foldl ripemd160_step r (y :: rs)) =
  ripemd160_combine s (foldl ripemd160_step (ripemd160_step l x) ls) (foldl ripemd160_step (ripemd160_step r y) rs).
Proof. reflexivity. Qed.

Ltac ripemd160_code_step :=
  rewrite ripemd160_steps, !ripemd160_round;
  do 2 match goal with |- (let '(_, _) := ?R in _) = _ => destruct R end.

Lemma ripemd160_constants :
  left_constants = [0; 0x5A827999; 0x6ED9EBA1; 0x8F1BBCDC; 0xA953FD4E] /\
  right_constants = [0x50A28BE6; 0x5C4DD124; 0x6D703EF3; 0x7A6D76E9; 0].
Proof. vm_compute. done. Qed.

Lemma ripemd160_Transform_standard s chunk : ripemd160_Transform s chunk = ripemd160_compress s (block_words_le chunk).
Proof.
  unfold ripemd160_compress. destruct ripemd160_constants as [-> ->]. destruct s as [a b c d e].
  unfold ripemd160_Transform, block_words_le. cbv beta iota. cbn [seq map Nat.mul Nat.add].
  repeat match goal with |- context [ReadLE 4 chunk ?n] => generalize (ReadLE 4 chunk n); intros ? end.
  unfold ripemd160_R11, ripemd160_R21, ripemd160_R31, ripemd160_R41, ripemd160_R51,
    ripemd160_R12, ripemd160_R22, ripemd160_R32, ripemd160_R42, ripemd160_R52.
  repeat match goal with |- context [ripemd160_line ?f ?k ?i ?X] =>
    let l := eval cbv -[ripemd160_f1 ripemd160_f2 ripemd160_f3 ripemd160_f4 ripemd160_f5] in (ripemd160_line f k i X) in change (ripemd160_line f k i X) with l end.
  do 16 match goal with |- assign ?x ?k = ?r => refine (assign_word x x k r eq_refl _); cbv beta end.
  do 80 ripemd160_code_step. cbn [foldl ripemd160_combine]. f_equal; word_sum.
Qed.

(** ** CRIPEMD160 *)

Definition ripemd160_digest (s : regs5) : bytes :=
  let '(Regs5 s0 s1 s2 s3 s4) := s in le_bytes 4 s0 ++ le_bytes 4 s1 ++ le_bytes 4 s2 ++ le_bytes 4 s3 ++ le_bytes 4 s4.

Definition ripemd160 : BlockHash regs5 := {|
  Initialize := ripemd160_Initialize;
  block := 64;
  Transform := ripemd160_Transform;
  length_field := 8;
  sizedesc n := le_bytes 8 n;
  digest := ripemd160_digest
|}.

#[export] Instance ripemd160_laws : BlockHashLaws regs5 (H := ripemd160).
Proof. split; [cbn; lia|by exists (2 ^ 58)|intros n; apply length_le_bytes|cbn; lia]. Qed.

Definition CRIPEMD160 : Type := Hasher regs5.
Definition CRIPEMD160_new (buf : bytes) : CRIPEMD160 := new_hasher (H := ripemd160) buf.
Definition CRIPEMD160_Write (h : CRIPEMD160) (data : bytes) : CRIPEMD160 := Write (H := ripemd160) h data.
Definition CRIPEMD160_Finalize (h : CRIPEMD160) : bytes := Finalize (H := ripemd160) h.
Definition CRIPEMD160_Reset (h : CRIPEMD160) : CRIPEMD160 := Reset (H := ripemd160) h.

(** The reference: padding, blocks, the described compression. *)
Definition RIPEMD160_standard (msg : bytes) : bytes :=
  ripemd160_digest (foldl (fun s chunk => ripemd160_compress s (block_words_le chunk)) ripemd160_Initialize
    (blocks (H := ripemd160) (length (msg ++ padding (H := ripemd160) (size msg)) / 64) (msg ++ padding (H := ripemd160) (size msg)))).

Lemma ripemd160_digest_size s : length (ripemd160_digest s) = 20%nat /\ bytes_ok (ripemd160_digest s).
Proof.
  destruct s. cbn [ripemd160_digest]. split; [by rewrite !length_app, !length_le_bytes|]. rewrite !Forall_app. repeat split; apply le_bytes_ok.
Qed.

Lemma ripemd160_standard_reference msg : reference (H := ripemd160) msg = RIPEMD160_standard msg.
Proof.
  unfold reference, RIPEMD160_standard. cbn [digest ripemd160]. f_equal. unfold fold_blocks. cbn [Transform Initialize block ripemd160].
  generalize ripemd160_Initialize. induction (blocks _ _) as [|b l IH]; intros s; cbn [foldl]; [done|]. by rewrite ripemd160_Transform_standard, IH.
Qed.
