(* ===== verification/Crypto.v ===== *)
(** * Hash functions

    hash.h: the digests the rest of the program is built on.  SHA-256,
    RIPEMD-160, SHA-1, the Quark chain and libsodium's BLAKE2b are an interface,
    so that nothing depends on more than their sizes; Hashing discharges it with
    the program's own functions.  The hashes composed from them are
    definitions. *)

From S2P Require Import Prelude.

(** Digests as the bytes they store; [HashQuark] and [BLAKE2b] (whose first
    argument is the personalization) as the [uint256] they return. *)
Class HashFunctions := {
  SHA256 : bytes -> bytes;
  RIPEMD160 : bytes -> bytes;
  SHA1 : bytes -> bytes;
  HashQuark : bytes -> Z;
  BLAKE2b : bytes -> bytes -> Z
}.

(** [CHash256]: double SHA-256. *)
Definition Hash256 `{HashFunctions} (data : bytes) : bytes := SHA256 (SHA256 data).

(** [Hash(begin, end)]: the same as a [uint256]. *)
Definition Hash `{HashFunctions} (data : bytes) : Z := le_value (Hash256 data).

(** [CHash160]: RIPEMD-160 of SHA-256. *)
Definition Hash160 `{HashFunctions} (data : bytes) : bytes := RIPEMD160 (SHA256 data).

(** What clients rely on: digest sizes. *)
Class HashSizes `{HashFunctions} : Prop := {
  SHA256_size data : length (SHA256 data) = 32%nat /\ bytes_ok (SHA256 data);
  RIPEMD160_size data : length (RIPEMD160 data) = 20%nat /\ bytes_ok (RIPEMD160 data);
  SHA1_size data : length (SHA1 data) = 20%nat /\ bytes_ok (SHA1 data);
  BLAKE2b_bound personal data : 0 <= BLAKE2b personal data < 2 ^ 256
}.

Lemma Hash_bound `{HashSizes} data : 0 <= Hash data < 2 ^ 256.
Proof.
  destruct (SHA256_size (SHA256 data)) as [Hl Hok].
  pose proof (le_value_bound _ Hok) as Hb. rewrite Hl in Hb. exact Hb.
Qed.

(** A concrete instance for examples: checksums of the right sizes. *)
Definition checksum (n : nat) (data : bytes) : bytes := le_bytes n (le_value data + 1).

Definition checksum_hashes : HashFunctions := {|
  SHA256 := checksum 32;
  RIPEMD160 := checksum 20;
  SHA1 := checksum 20;
  HashQuark data := le_value (checksum 32 data);
  BLAKE2b personal data := le_value (checksum 32 (personal ++ data))
|}.

Lemma checksum_sizes : @HashSizes checksum_hashes.
Proof.
  split; intros; try (split; [apply length_le_bytes | apply le_bytes_ok]).
  pose proof (le_value_bound _ (le_bytes_ok 32 (le_value (personal ++ data) + 1))) as Hb.
  rewrite length_le_bytes in Hb. exact Hb.
Qed.
