(* ===== verification/Hashing.v ===== *)
(** * Hashes composed from block hashes

    The hashers of hash.h ([CHash256], [CHash160], [CHash512]), HMAC
    (crypto/hmac_sha256.cpp, crypto/hmac_sha512.cpp), the generator of RFC 6979
    (crypto/rfc6979_hmac_sha256.cpp) and [BIP32Hash] of hash.cpp.  The class [HashFunctions] that the rest of the library uses is
    here discharged with the program's own SHA-256, RIPEMD-160 and SHA-1. *)

From S2P Require Import Prelude BlockHash Sha2 Sha256 Sha512 Sha1 Ripemd160 Crypto.

(** ** HMAC *)

Section HMAC.
Context {St : Type} `{BlockHash St}.

Record HMAC := { outer : Hasher St; inner : Hasher St }.

Definition xor_bytes (k : Z) (l : bytes) : bytes := map (Z.lxor k) l.

(** The constructor; [buf] is what the buffers of the hashers start with. *)
Definition HMAC_new (buf key : bytes) : HMAC :=
  let rkey :=
    if (length key <=? block)%nat then key ++ replicate (block - length key) 0
    else let d := Finalize (Write (new_hasher buf) key) in d ++ replicate (block - length d) 0 in
  let rkey := xor_bytes 0x5c rkey in
  let outer := Write (new_hasher buf) rkey in
  let rkey := xor_bytes (Z.lxor 0x5c 0x36) rkey in
  {| outer := outer; inner := Write (new_hasher buf) rkey |}.

Definition HMAC_Write (h : HMAC) (data : bytes) : HMAC := {| outer := outer h; inner := Write (inner h) data |}.

Definition HMAC_Finalize (h : HMAC) : bytes := Finalize (Write (outer h) (Finalize (inner h))).

(** RFC 2104. *)
Definition hmac_key (key : bytes) : bytes :=
  let k := if (length key <=? block)%nat then key else reference key in k ++ replicate (block - length k) 0.

Definition hmac (key msg : bytes) : bytes :=
  reference (xor_bytes 0x5c (hmac_key key) ++ reference (xor_bytes 0x36 (hmac_key key) ++ msg)).

Context `{!BlockHashLaws St}.

Lemma xor_twice l : xor_bytes (Z.lxor 0x5c 0x36) (xor_bytes 0x5c l) = xor_bytes 0x36 l.
Proof.
  unfold xor_bytes. rewrite map_map. apply map_ext. intros x. rewrite <- !Z.lxor_assoc. f_equal.
Qed.

Lemma holds_reference h msg : holds h msg -> Finalize h = reference msg.
Proof. intros Hh. unfold Finalize, reference. f_equal. by apply padded_holds. Qed.

Lemma hmac_code buf key parts : length buf = block ->
  HMAC_Finalize (foldl HMAC_Write (HMAC_new buf key) parts) = hmac key (concat parts).
Proof.
  intros B. set (k := hmac_key key).
  assert (K : HMAC_new buf key = {| outer := Write (new_hasher buf) (xor_bytes 0x5c k); inner := Write (new_hasher buf) (xor_bytes 0x36 k) |}).
  { unfold HMAC_new, k, hmac_key. destruct (_ <=? _)%nat; rewrite xor_twice; [done|].
    rewrite (holds_reference _ key); [done|]. by apply (Write_holds _ []), new_hasher_holds. }
  assert (F : forall h, foldl HMAC_Write h parts = {| outer := outer h; inner := foldl Write (inner h) parts |}).
  { clear. induction parts as [|x l IH]; intros h; cbn [foldl]; [by destruct h|]. by rewrite IH. }
  rewrite K, F. unfold HMAC_Finalize, hmac. cbn [outer inner]. pose proof (new_hasher_holds buf B) as N.
  apply (Write_holds _ _ (xor_bytes 0x5c k)) in N as No. apply (Write_holds _ _ (xor_bytes 0x36 k)) in N as Ni. cbn [app] in No, Ni.
  rewrite (holds_reference (foldl Write _ parts) (xor_bytes 0x36 k ++ concat parts)) by by apply writes_hold.
  apply holds_reference. by apply Write_holds.
Qed.

End HMAC.
Arguments HMAC : clear implicits.

(** ** The two instances in the program *)

Definition CHMAC_SHA256 : Type := HMAC regs.
Definition CHMAC_SHA256_new (buf key : bytes) : CHMAC_SHA256 := HMAC_new (H := sha256) buf key.
Definition CHMAC_SHA256_Write (h : CHMAC_SHA256) (data : bytes) : CHMAC_SHA256 := HMAC_Write (H := sha256) h data.
Definition CHMAC_SHA256_Finalize (h : CHMAC_SHA256) : bytes := HMAC_Finalize (H := sha256) h.

Definition CHMAC_SHA512 : Type := HMAC regs.
Definition CHMAC_SHA512_new (buf key : bytes) : CHMAC_SHA512 := HMAC_new (H := sha512) buf key.
Definition CHMAC_SHA512_Write (h : CHMAC_SHA512) (data : bytes) : CHMAC_SHA512 := HMAC_Write (H := sha512) h data.
Definition CHMAC_SHA512_Finalize (h : CHMAC_SHA512) : bytes := HMAC_Finalize (H := sha512) h.

(** ** Hashers of hash.h *)

(** [CHash256]: SHA-256 twice, with the same hasher. *)
Definition CHash256_Write (sha : CSHA256) (data : bytes) : CSHA256 := CSHA256_Write sha data.
Definition CHash256_Finalize (sha : CSHA256) : bytes :=
  let buf := CSHA256_Finalize sha in
  CSHA256_Finalize (CSHA256_Write (CSHA256_Reset (padded (H := sha256) sha)) buf).

(** [CHash512]: SHA-512 twice. *)
Definition CHash512_Write (sha : CSHA512) (data : bytes) : CSHA512 := CSHA512_Write sha data.
Definition CHash512_Finalize (sha : CSHA512) : bytes :=
  let buf := CSHA512_Finalize sha in
  CSHA512_Finalize (CSHA512_Write (CSHA512_Reset (padded (H := sha512) sha)) buf).

(** [CHash160]: RIPEMD-160 of SHA-256; [mem] is the memory of the new hasher. *)
Definition CHash160_Write (sha : CSHA256) (data : bytes) : CSHA256 := CSHA256_Write sha data.
Definition CHash160_Finalize (mem : bytes) (sha : CSHA256) : bytes :=
  let buf := CSHA256_Finalize sha in
  CRIPEMD160_Finalize (CRIPEMD160_Write (CRIPEMD160_new mem) buf).

(** [BIP32Hash]. *)
Definition BIP32Hash (mem : bytes) (chainCode : bytes) (nChild header : Z) (data : bytes) : bytes :=
  let num := [Z.land (Z.shiftr nChild 24) 0xFF; Z.land (Z.shiftr nChild 16) 0xFF; Z.land (Z.shiftr nChild 8) 0xFF; Z.land (Z.shiftr nChild 0) 0xFF] in
  CHMAC_SHA512_Finalize (CHMAC_SHA512_Write (CHMAC_SHA512_Write (CHMAC_SHA512_Write (CHMAC_SHA512_new mem chainCode) [header]) data) num).

(** ** RFC 6979 *)

Record RFC6979_HMAC_SHA256 := { rfc_V : bytes; rfc_K : bytes; rfc_retry : bool }.

Definition hmac_of (mem K : bytes) (parts : list bytes) : bytes :=
  CHMAC_SHA256_Finalize (foldl CHMAC_SHA256_Write (CHMAC_SHA256_new mem K) parts).

Definition RFC6979_new (mem key msg : bytes) : RFC6979_HMAC_SHA256 :=
  let V := replicate 32 1 in
  let K := replicate 32 0 in
  let K := hmac_of mem K [V; [0]; key; msg] in
  let V := hmac_of mem K [V] in
  let K := hmac_of mem K [V; [1]; key; msg] in
  let V := hmac_of mem K [V] in
  {| rfc_V := V; rfc_K := K; rfc_retry := false |}.

(** One turn of the loop per unit of fuel. *)
Fixpoint Generate_loop (fuel : nat) (mem K V : bytes) (outputlen : nat) : bytes * bytes :=
  match fuel, outputlen with
  | S fuel, S _ =>
      let V := hmac_of mem K [V] in
      let len := Nat.min outputlen 32 in
      let '(out, V') := Generate_loop fuel mem K V (outputlen - len) in
      (take len V ++ out, V')
  | _, _ => ([], V)
  end.

Definition RFC6979_Generate (mem : bytes) (g : RFC6979_HMAC_SHA256) (outputlen : nat) : bytes * RFC6979_HMAC_SHA256 :=
  let '(K, V) :=
    if rfc_retry g
    then let K := hmac_of mem (rfc_K g) [rfc_V g; [0]] in (K, hmac_of mem K [rfc_V g])
    else (rfc_K g, rfc_V g) in
  let '(out, V) := Generate_loop outputlen mem K V outputlen in
  (out, {| rfc_V := V; rfc_K := K; rfc_retry := true |}).

Lemma be_bytes_4 n :
  be_bytes 4 n = [Z.land (Z.shiftr n 24) 0xFF; Z.land (Z.shiftr n 16) 0xFF; Z.land (Z.shiftr n 8) 0xFF; Z.land (Z.shiftr n 0) 0xFF].
Proof.
  unfold be_bytes. cbn [le_bytes]. cbn. change 255 with (Z.ones 8). rewrite !Z.land_ones by lia.
  rewrite !Z.shiftr_div_pow2 by lia. change (2 ^ 8) with 256. rewrite !Z.div_div by lia. by rewrite Z.div_1_r.
Qed.

(** ** The digests do not depend on how they are computed *)

Lemma hash256_code buf parts : length buf = 64%nat ->
  CHash256_Finalize (foldl CHash256_Write (CSHA256_new buf) parts) = SHA256_standard (SHA256_standard (concat parts)).
Proof.
  intros B. unfold CHash256_Finalize, CSHA256_Finalize, CSHA256_Write, CSHA256_Reset.
  pose proof (writes_hold (H := sha256) parts _ _ (new_hasher_holds (H := sha256) buf B)) as Hh. cbn [app] in Hh.
  change (foldl CHash256_Write (CSHA256_new buf) parts) with (foldl (Write (H := sha256)) (new_hasher (H := sha256) buf) parts).
  rewrite <- !sha256_standard_reference, <- (holds_reference (H := sha256) _ _ Hh).
  apply (holds_reference (H := sha256)), (Write_holds (H := sha256) _ []), (Reset_holds (H := sha256) _ (concat parts ++ padding (H := sha256) (size (concat parts)))).
  by apply padded_state.
Qed.

Lemma hash160_code mem buf parts : length mem = 64%nat -> length buf = 64%nat ->
  CHash160_Finalize mem (foldl CHash160_Write (CSHA256_new buf) parts) = RIPEMD160_standard (SHA256_standard (concat parts)).
Proof.
  intros M B. unfold CHash160_Finalize, CSHA256_Finalize, CRIPEMD160_Finalize, CRIPEMD160_Write, CRIPEMD160_new.
  change (foldl CHash160_Write (CSHA256_new buf) parts) with (foldl (Write (H := sha256)) (new_hasher (H := sha256) buf) parts).
  rewrite (stream_hash (H := sha256)) by done. rewrite sha256_standard_reference, <- ripemd160_standard_reference.
  by apply (hash_reference (H := ripemd160)).
Qed.

(** C35. [CSHA256] computes the SHA-256 of FIPS 180-4, with its constants from
    the roots of primes, of what was written to it: for every way to cut the
    message into calls of [Write], and whatever the uninitialised buffer held. *)
Theorem sha256_stream buf parts : length buf = 64%nat ->
  CSHA256_Finalize (foldl CSHA256_Write (CSHA256_new buf) parts) = SHA256_standard (concat parts).
Proof. intros B. rewrite <- sha256_standard_reference. by apply (stream_hash (H := sha256)). Qed.

Lemma sha256_stream_witness :
  CSHA256_Finalize (foldl CSHA256_Write (CSHA256_new (replicate 64 0xcc)) [[97]; []; [98; 99]]) = SHA256_standard [97; 98; 99] /\
  SHA256_standard [97; 98; 99] =
  [0xba; 0x78; 0x16; 0xbf; 0x8f; 0x01; 0xcf; 0xea; 0x41; 0x41; 0x40; 0xde; 0x5d; 0xae; 0x22; 0x23;
   0xb0; 0x03; 0x61; 0xa3; 0x96; 0x17; 0x7a; 0x9c; 0xb4; 0x10; 0xff; 0x61; 0xf2; 0x00; 0x15; 0xad].
Proof. split; [apply (sha256_stream (replicate 64 0xcc) [[97]; []; [98; 99]]); reflexivity|vm_compute; reflexivity]. Defined.

Lemma sha512_stream buf parts : length buf = 128%nat ->
  CSHA512_Finalize (foldl CSHA512_Write (CSHA512_new buf) parts) = SHA512_standard (concat parts).
Proof. intros B. rewrite <- sha512_standard_reference. by apply (stream_hash (H := sha512)). Qed.

Lemma sha1_stream buf parts : length buf = 64%nat ->
  CSHA1_Finalize (foldl CSHA1_Write (CSHA1_new buf) parts) = SHA1_standard (concat parts).
Proof. intros B. rewrite <- sha1_standard_reference. by apply (stream_hash (H := sha1)). Qed.

Lemma ripemd160_stream buf parts : length buf = 64%nat ->
  CRIPEMD160_Finalize (foldl CRIPEMD160_Write (CRIPEMD160_new buf) parts) = RIPEMD160_standard (concat parts).
Proof. intros B. rewrite <- ripemd160_standard_reference. by apply (stream_hash (H := ripemd160)). Qed.

(** ** The interface discharged *)

(** The program's hashes; [quark] and [blake] stand for the code that is not
    modelled. *)
Definition node_hashes (quark : bytes -> Z) (blake : bytes -> bytes -> Z) : HashFunctions := {|
  SHA256 := hash (H := sha256) (replicate 64 0);
  RIPEMD160 := hash (H := ripemd160) (replicate 64 0);
  SHA1 := hash (H := sha1) (replicate 64 0);
  HashQuark := quark;
  BLAKE2b := blake
|}.

Lemma node_hashes_sizes quark blake : (forall personal data, 0 <= blake personal data < 2 ^ 256) -> @HashSizes (node_hashes quark blake).
Proof.
  intros B. split; intros; [apply sha256_digest_size|apply ripemd160_digest_size|apply sha1_digest_size|apply B].
Qed.

(** [Hash256] and [Hash160] of Crypto are the hashers of hash.h. *)
Lemma node_Hash256 quark blake buf parts : length buf = 64%nat ->
  CHash256_Finalize (foldl CHash256_Write (CSHA256_new buf) parts) = Hash256 (H := node_hashes quark blake) (concat parts).
Proof.
  intros B. rewrite hash256_code by done. unfold Hash256. cbn [SHA256 node_hashes].
  by rewrite !(hash_reference (H := sha256)), !sha256_standard_reference by done.
Qed.

Lemma node_Hash160 quark blake mem buf parts : length mem = 64%nat -> length buf = 64%nat ->
  CHash160_Finalize mem (foldl CHash160_Write (CSHA256_new buf) parts) = Hash160 (H := node_hashes quark blake) (concat parts).
Proof.
  intros M B. rewrite hash160_code by done. unfold Hash160. cbn [SHA256 RIPEMD160 node_hashes].
  by rewrite (hash_reference (H := sha256)), (hash_reference (H := ripemd160)), sha256_standard_reference, ripemd160_standard_reference by done.
Qed.

(** ** The generator of RFC 6979 gives what is asked for *)

Lemma hmac_of_size mem K parts : length (hmac_of mem K parts) = 32%nat.
Proof. apply sha256_digest_size. Qed.

Lemma Generate_loop_size fuel : forall mem K V n, (n <= fuel)%nat -> length (fst (Generate_loop fuel mem K V n)) = n.
Proof.
  induction fuel as [|fuel IH]; intros mem K V n L; [by destruct n; [|lia]|]. destruct n as [|n]; [done|]. cbn [Generate_loop].
  specialize (IH mem K (hmac_of mem K [V]) (S n - Nat.min (S n) 32)%nat). destruct (Generate_loop _ _ _ _ _) as [out V'].
  cbn [fst] in *. rewrite length_app, length_take, hmac_of_size, IH by lia. lia.
Qed.

Lemma Generate_size mem g n : length (fst (RFC6979_Generate mem g n)) = n.
Proof.
  unfold RFC6979_Generate. destruct (if rfc_retry g then _ else _) as [K V].
  pose proof (Generate_loop_size n mem K V n ltac:(lia)) as E. by destruct (Generate_loop _ _ _ _ _).
Qed.

(** [CSHA512], [CSHA1] and [CRIPEMD160] compute the hashes of their
    descriptions (for RIPEMD-160 the two lines with their permutations of the
    words, which the code has interleaved and unrolled) of what was written, for
    every way to cut it and whatever their buffers held. *)
Theorem hash_streams buf buf128 parts : length buf = 64%nat -> length buf128 = 128%nat ->
  CSHA512_Finalize (foldl CSHA512_Write (CSHA512_new buf128) parts) = SHA512_standard (concat parts) /\
  CSHA1_Finalize (foldl CSHA1_Write (CSHA1_new buf) parts) = SHA1_standard (concat parts) /\
  CRIPEMD160_Finalize (foldl CRIPEMD160_Write (CRIPEMD160_new buf) parts) = RIPEMD160_standard (concat parts).
Proof. intros B B'. split; [by apply sha512_stream|]. split; [by apply sha1_stream|by apply ripemd160_stream]. Qed.

Lemma hash_streams_witness :
  RIPEMD160_standard [97; 98; 99] =
  [0x8e; 0xb2; 0x08; 0xf7; 0xe0; 0x5d; 0x98; 0x7a; 0x9b; 0x04; 0x4a; 0x8e; 0x98; 0xc6; 0xb0; 0x87; 0xf1; 0x5a; 0x0b; 0xfc] /\
  CRIPEMD160_Finalize (foldl CRIPEMD160_Write (CRIPEMD160_new (replicate 64 7)) [[97; 98]; [99]]) = RIPEMD160_standard [97; 98; 99].
Proof.
  split; [vm_compute; reflexivity|]. apply (hash_streams (replicate 64 7) (replicate 128 7) [[97; 98]; [99]]); reflexivity.
Defined.

(** [CHMAC_SHA256] and [CHMAC_SHA512] are the HMAC of RFC 2104 of the
    pieces written, for short and long keys; [BIP32Hash] is the HMAC-SHA512,
    under the chain code, of header, data and the child number in big-endian
    order. *)
Theorem hmac_rfc2104 buf buf128 key parts : length buf = 64%nat -> length buf128 = 128%nat ->
  CHMAC_SHA256_Finalize (foldl CHMAC_SHA256_Write (CHMAC_SHA256_new buf key) parts) = hmac (H := sha256) key (concat parts) /\
  CHMAC_SHA512_Finalize (foldl CHMAC_SHA512_Write (CHMAC_SHA512_new buf128 key) parts) = hmac (H := sha512) key (concat parts) /\
  forall nChild header data,
    BIP32Hash buf128 key nChild header data = hmac (H := sha512) key (header :: data ++ be_bytes 4 nChild).
Proof.
  intros B B'. split; [by apply (hmac_code (H := sha256))|]. split; [by apply (hmac_code (H := sha512))|]. intros n h d.
  unfold BIP32Hash. pose proof (hmac_code (H := sha512) buf128 key [[h]; d; be_bytes 4 n] B') as E. cbn [foldl concat app] in E.
  rewrite app_nil_r in E. rewrite <- E. unfold CHMAC_SHA512_Finalize, CHMAC_SHA512_Write, CHMAC_SHA512_new. do 2 f_equal. by rewrite be_bytes_4.
Qed.

Lemma hmac_rfc2104_witness :
  BIP32Hash (replicate 128 0) (replicate 32 1) 7 2 (replicate 32 9) = hmac (H := sha512) (replicate 32 1) (2 :: replicate 32 9 ++ be_bytes 4 7).
Proof. apply (hmac_rfc2104 (replicate 64 0) (replicate 128 0) (replicate 32 1) []); reflexivity. Defined.
