(* ===== verification/SipHash.v ===== *)
(** * SipHash

    crypto/siphash.cpp: the keyed hash behind the node's hash tables ([mapBlockIndex],
    the coins cache) and its randomised choices.  The hasher takes bytes in
    pieces or whole words; two functions are specialised to a 256-bit value,
    with and without a 32-bit suffix.  All are the same SipHash-2-4. *)

From S2P Require Import Prelude BlockHash Sha2.

(** [v[0]] to [v[3]]. *)
Inductive sipstate := Sip (v0 v1 v2 v3 : Z).

Definition ROTL (x b : Z) : Z := Z.lor (u64 (Z.shiftl x b)) (Z.shiftr x (64 - b)).

#[local] Infix "+." := (wadd 64) (at level 50, left associativity).

Definition SIPROUND (v : sipstate) : sipstate :=
  let '(Sip v0 v1 v2 v3) := v in
  let v0 := v0 +. v1 in let v1 := ROTL v1 13 in let v1 := Z.lxor v1 v0 in
  let v0 := ROTL v0 32 in
  let v2 := v2 +. v3 in let v3 := ROTL v3 16 in let v3 := Z.lxor v3 v2 in
  let v0 := v0 +. v3 in let v3 := ROTL v3 21 in let v3 := Z.lxor v3 v0 in
  let v2 := v2 +. v1 in let v1 := ROTL v1 17 in let v1 := Z.lxor v1 v2 in
  let v2 := ROTL v2 32 in
  Sip v0 v1 v2 v3.

Definition xor_v0 (v : sipstate) (d : Z) : sipstate := let '(Sip v0 v1 v2 v3) := v in Sip (Z.lxor v0 d) v1 v2 v3.
Definition xor_v2 (v : sipstate) (d : Z) : sipstate := let '(Sip v0 v1 v2 v3) := v in Sip v0 v1 (Z.lxor v2 d) v3.
Definition xor_v3 (v : sipstate) (d : Z) : sipstate := let '(Sip v0 v1 v2 v3) := v in Sip v0 v1 v2 (Z.lxor v3 d).
Definition xor_all (v : sipstate) : Z := let '(Sip v0 v1 v2 v3) := v in Z.lxor (Z.lxor (Z.lxor v0 v1) v2) v3.

(** ** CSipHasher *)

Record CSipHasher := { sip_v : sipstate; sip_tmp : Z; sip_count : Z }.

Definition sip_init (k0 k1 : Z) : sipstate :=
  Sip (Z.lxor 0x736f6d6570736575 k0) (Z.lxor 0x646f72616e646f6d k1) (Z.lxor 0x6c7967656e657261 k0) (Z.lxor 0x7465646279746573 k1).

Definition CSipHasher_new (k0 k1 : Z) : CSipHasher := {| sip_v := sip_init k0 k1; sip_tmp := 0; sip_count := 0 |}.

(** The overload for a word, with its assertion. *)
Definition CSipHasher_WriteWord (h : CSipHasher) (data : Z) : option CSipHasher :=
  assert (Z.rem (sip_count h) 8 =? 0)
    (Some {| sip_v := xor_v0 (SIPROUND (SIPROUND (xor_v3 (sip_v h) data))) data; sip_tmp := sip_tmp h; sip_count := i32 (sip_count h + 8) |}).

(** The overload for bytes: [v], [t] and [c] of the loop. *)
Fixpoint sip_loop (v : sipstate) (t c : Z) (data : bytes) : sipstate * Z * Z :=
  match data with
  | [] => (v, t, c)
  | b :: data =>
      let t := Z.lor t (u64 (Z.shiftl b (8 * Z.rem c 8))) in
      let c := i32 (c + 1) in
      if Z.land c 7 =? 0
      then sip_loop (xor_v0 (SIPROUND (SIPROUND (xor_v3 v t))) t) 0 c data
      else sip_loop v t c data
  end.

Definition CSipHasher_Write (h : CSipHasher) (data : bytes) : CSipHasher :=
  let '(v, t, c) := sip_loop (sip_v h) (sip_tmp h) (sip_count h) data in {| sip_v := v; sip_tmp := t; sip_count := c |}.

Definition CSipHasher_Finalize (h : CSipHasher) : Z :=
  let t := Z.lor (sip_tmp h) (u64 (Z.shiftl (u64 (sip_count h)) 56)) in
  let v := xor_v0 (SIPROUND (SIPROUND (xor_v3 (sip_v h) t))) t in
  xor_all (SIPROUND (SIPROUND (SIPROUND (SIPROUND (xor_v2 v 0xFF))))).

(** ** The specialised functions *)

(** [val.GetUint64(pos)] *)
Definition GetUint64 (val : Z) (pos : nat) : Z := ReadLE 8 (le_bytes 32 val) (pos * 8).

Definition SipHashUint256 (k0 k1 val : Z) : Z :=
  let d := GetUint64 val 0 in
  let v := Sip (Z.lxor 0x736f6d6570736575 k0) (Z.lxor 0x646f72616e646f6d k1) (Z.lxor 0x6c7967656e657261 k0)
               (Z.lxor (Z.lxor 0x7465646279746573 k1) d) in
  let v := xor_v0 (SIPROUND (SIPROUND v)) d in
  let d := GetUint64 val 1 in
  let v := xor_v0 (SIPROUND (SIPROUND (xor_v3 v d))) d in
  let d := GetUint64 val 2 in
  let v := xor_v0 (SIPROUND (SIPROUND (xor_v3 v d))) d in
  let d := GetUint64 val 3 in
  let v := xor_v0 (SIPROUND (SIPROUND (xor_v3 v d))) d in
  let v := xor_v3 v (Z.shiftl 4 59) in
  let v := xor_v0 (SIPROUND (SIPROUND v)) (Z.shiftl 4 59) in
  xor_all (SIPROUND (SIPROUND (SIPROUND (SIPROUND (xor_v2 v 0xFF))))).

Definition SipHashUint256Extra (k0 k1 val extra : Z) : Z :=
  let d := GetUint64 val 0 in
  let v := Sip (Z.lxor 0x736f6d6570736575 k0) (Z.lxor 0x646f72616e646f6d k1) (Z.lxor 0x6c7967656e657261 k0)
               (Z.lxor (Z.lxor 0x7465646279746573 k1) d) in
  let v := xor_v0 (SIPROUND (SIPROUND v)) d in
  let d := GetUint64 val 1 in
  let v := xor_v0 (SIPROUND (SIPROUND (xor_v3 v d))) d in
  let d := GetUint64 val 2 in
  let v := xor_v0 (SIPROUND (SIPROUND (xor_v3 v d))) d in
  let d := GetUint64 val 3 in
  let v := xor_v0 (SIPROUND (SIPROUND (xor_v3 v d))) d in
  let d := Z.lor (Z.shiftl 36 56) extra in
  let v := xor_v0 (SIPROUND (SIPROUND (xor_v3 v d))) d in
  xor_all (SIPROUND (SIPROUND (SIPROUND (SIPROUND (xor_v2 v 0xFF))))).

(** ** SipHash-2-4 of a message *)

(** A word goes in with two rounds. *)
Definition absorb (v : sipstate) (w : Z) : sipstate := xor_v0 (SIPROUND (SIPROUND (xor_v3 v w))) w.

Fixpoint absorb_words (n : nat) (v : sipstate) (msg : bytes) : sipstate :=
  match n with O => v | S n => absorb_words n (absorb v (le_value (take 8 msg))) (drop 8 msg) end.

(** Whole words, then what is left with the length in the last byte, then four
    rounds. *)
Definition siphash (k0 k1 : Z) (msg : bytes) : Z :=
  let n := (length msg / 8)%nat in
  let v := absorb (absorb_words n (sip_init k0 k1) msg) (le_value (drop (8 * n) msg) + 2 ^ 56 * (size msg mod 256)) in
  xor_all (SIPROUND (SIPROUND (SIPROUND (SIPROUND (xor_v2 v 0xFF))))).

Record sip_holds (k0 k1 : Z) (h : CSipHasher) (msg : bytes) : Prop := {
  sip_length : sip_count h = size msg;
  sip_words : sip_v h = absorb_words (length msg / 8) (sip_init k0 k1) msg;
  sip_rest : sip_tmp h = le_value (drop (8 * (length msg / 8)) msg)
}.

(** ** The hasher holds the message *)

Lemma absorb_words_app n : forall v msg x, (8 * n <= length msg)%nat -> absorb_words n v (msg ++ x) = absorb_words n v msg.
Proof.
  induction n as [|n IH]; intros v msg x L; [done|]. cbn [absorb_words].
  rewrite take_app_le, drop_app_le by lia. apply IH. rewrite length_drop. lia.
Qed.

Lemma absorb_words_S n : forall v msg, absorb_words (S n) v msg = absorb (absorb_words n v msg) (le_value (take 8 (drop (8 * n) msg))).
Proof.
  induction n as [|n IH]; intros v msg; [done|]. change (absorb_words (S (S n)) v msg) with (absorb_words (S n) (absorb v (le_value (take 8 msg))) (drop 8 msg)).
  rewrite IH. cbn [absorb_words]. rewrite drop_drop. do 4 f_equal. lia.
Qed.

Lemma lor_byte t b k : 0 <= k < 8 -> 0 <= t < 256 ^ k -> byte_ok b -> Z.lor t (u64 (Z.shiftl b (8 * k))) = t + 256 ^ k * b.
Proof.
  intros K T B. unfold byte_ok in B. change 256 with (2 ^ 8) in *. rewrite <- Z.pow_mul_r in * by lia.
  assert (S : Z.shiftl b (8 * k) = b * 2 ^ (8 * k)) by (apply Z.shiftl_mul_pow2; lia).
  rewrite uint_id, Z.lor_comm, lor_shiftl_add by (rewrite ?S; assert (2 ^ (8 * k) * 2 ^ (64 - 8 * k) = 2 ^ 64) by (rewrite <- Z.pow_add_r by lia; f_equal; lia);
    assert (2 ^ 8 <= 2 ^ (64 - 8 * k)) by (apply Z.pow_le_mono_r; lia); nia || lia). lia.
Qed.

Section Holds.
Context (k0 k1 : Z).

Lemma sip_new_holds : sip_holds k0 k1 (CSipHasher_new k0 k1) [].
Proof. by split. Qed.

Lemma sip_byte v t c msg b : sip_holds k0 k1 {| sip_v := v; sip_tmp := t; sip_count := c |} msg ->
  bytes_ok msg -> byte_ok b -> size msg + 1 < 2 ^ 31 ->
  let t := Z.lor t (u64 (Z.shiftl b (8 * Z.rem c 8))) in
  let c := i32 (c + 1) in
  sip_holds k0 k1 (if Z.land c 7 =? 0 then {| sip_v := absorb v t; sip_tmp := 0; sip_count := c |} else {| sip_v := v; sip_tmp := t; sip_count := c |})
    (msg ++ [b]).
Proof.
  intros [C V T] M B L. cbn [sip_count sip_v sip_tmp] in C, V, T. cbv zeta. pose proof (size_nonneg msg) as NN.
  set (q := (length msg / 8)%nat) in *. set (r := (length msg mod 8)%nat).
  assert (Q : length msg = (8 * q + r)%nat) by (unfold q, r; apply Nat.div_mod; lia). assert (R : (r < 8)%nat) by (apply Nat.mod_upper_bound; lia).
  assert (C8 : Z.rem c 8 = Z.of_nat r).
  { rewrite C, Z.rem_mod_nonneg by lia. unfold size. rewrite Q, Nat2Z.inj_add, Nat2Z.inj_mul, Z.add_comm, Z.mul_comm, Z.mod_add, Z.mod_small; lia. }
  assert (Lr : length (drop (8 * q) msg) = r) by (rewrite length_drop; lia).
  assert (Ok : bytes_ok (drop (8 * q) msg)) by by apply Forall_drop.
  pose proof (le_value_bound _ Ok) as Tb. rewrite Lr in Tb. rewrite C8, T, lor_byte by (done || lia).
  assert (T' : le_value (drop (8 * q) msg) + 256 ^ Z.of_nat r * b = le_value (drop (8 * q) (msg ++ [b]))).
  { rewrite drop_app_le, le_value_app, Lr by lia. cbn [le_value]. lia. }
  rewrite T'. assert (C' : i32 (c + 1) = size (msg ++ [b])).
  { rewrite C, size_app. apply i32_id. unfold in_i32, INT32_MIN, INT32_MAX. change (size [b]) with 1. lia. }
  rewrite C'. assert (L8 : Z.land (size (msg ++ [b])) 7 = (Z.of_nat r + 1) mod 8).
  { change 7 with (Z.ones 3). rewrite Z.land_ones by lia. unfold size. rewrite length_app, Q. cbn [length].
    replace (Z.of_nat (8 * q + r + 1)) with (Z.of_nat r + 1 + Z.of_nat q * 8) by lia. by rewrite Z.mod_add by lia. }
  rewrite L8. assert (Lm : length (msg ++ [b]) = (8 * q + (r + 1))%nat) by (rewrite length_app, Q; cbn; lia).
  destruct (Nat.eq_dec r 7) as [E|E].
  - rewrite E in *. cbn [Z.of_nat]. rewrite (proj2 (Z.eqb_eq _ _)) by done. split; cbn [sip_count sip_v sip_tmp]; [done| |]; rewrite Lm.
    + replace ((8 * q + (7 + 1)) / 8)%nat with (S q) by (apply (Nat.div_unique _ 8 _ 0); lia).
      rewrite absorb_words_S, absorb_words_app by lia. rewrite V. do 2 f_equal. symmetry. apply firstn_all2. rewrite length_drop, Lm. lia.
    + replace ((8 * q + (7 + 1)) / 8)%nat with (S q) by (apply (Nat.div_unique _ 8 _ 0); lia).
      by rewrite drop_ge by (rewrite Lm; lia).
  - rewrite (proj2 (Z.eqb_neq _ _)) by (rewrite Z.mod_small; lia). split; cbn [sip_count sip_v sip_tmp]; [done| |]; rewrite Lm;
    replace ((8 * q + (r + 1)) / 8)%nat with q by (apply (Nat.div_unique _ 8 _ (r + 1)); lia); [|done].
    by rewrite absorb_words_app by lia.
Qed.

Lemma sip_loop_holds data : forall v t c msg, sip_holds k0 k1 {| sip_v := v; sip_tmp := t; sip_count := c |} msg ->
  bytes_ok msg -> bytes_ok data -> size (msg ++ data) < 2 ^ 31 ->
  let '(v, t, c) := sip_loop v t c data in sip_holds k0 k1 {| sip_v := v; sip_tmp := t; sip_count := c |} (msg ++ data).
Proof.
  induction data as [|b data IH]; intros v t c msg Hh M D L; cbn [sip_loop]; [by rewrite app_nil_r|].
  apply Forall_cons in D as [B D]. rewrite size_app, size_cons in L. pose proof (size_nonneg data).
  pose proof (sip_byte v t c msg b Hh M B ltac:(lia)) as N. cbv zeta in N. replace (msg ++ b :: data) with ((msg ++ [b]) ++ data) by by rewrite <- app_assoc.
  assert (bytes_ok (msg ++ [b])) by (apply Forall_app; auto).
  assert (size ((msg ++ [b]) ++ data) < 2 ^ 31) by (rewrite !size_app; change (size [b]) with 1; lia).
  destruct (Z.land _ 7 =? 0); by apply IH.
Qed.

Lemma sip_Write_holds h msg data : sip_holds k0 k1 h msg -> bytes_ok msg -> bytes_ok data -> size (msg ++ data) < 2 ^ 31 ->
  sip_holds k0 k1 (CSipHasher_Write h data) (msg ++ data).
Proof.
  intros Hh M D L. unfold CSipHasher_Write. destruct h as [v t c]. pose proof (sip_loop_holds data v t c msg Hh M D L) as N.
  cbn [sip_v sip_tmp sip_count]. by destruct (sip_loop v t c data) as [[v' t'] c'].
Qed.

Lemma sip_writes_hold parts : forall h msg, sip_holds k0 k1 h msg -> bytes_ok msg -> Forall bytes_ok parts ->
  size (msg ++ concat parts) < 2 ^ 31 -> sip_holds k0 k1 (foldl CSipHasher_Write h parts) (msg ++ concat parts).
Proof.
  induction parts as [|x parts IH]; intros h msg Hh M P L; cbn [foldl concat] in *; [by rewrite app_nil_r|].
  apply Forall_cons in P as [X P]. rewrite app_assoc in *. apply IH; [|by apply Forall_app|done|done].
  apply sip_Write_holds; [done|done|done|]. rewrite size_app in L. pose proof (size_nonneg (concat parts)). lia.
Qed.

Lemma sip_Finalize h msg : sip_holds k0 k1 h msg -> bytes_ok msg -> CSipHasher_Finalize h = siphash k0 k1 msg.
Proof.
  intros [C V T] M. unfold CSipHasher_Finalize, siphash. rewrite C, V, T. set (q := (length msg / 8)%nat).
  assert (Ok : bytes_ok (drop (8 * q) msg)) by by apply Forall_drop. pose proof (le_value_bound _ Ok) as B.
  assert (Lr : (length (drop (8 * q) msg) < 8)%nat).
  { rewrite length_drop. pose proof (Nat.div_mod (length msg) 8). pose proof (Nat.mod_upper_bound (length msg) 8). unfold q. lia. }
  assert (E : u64 (Z.shiftl (u64 (size msg)) 56) = Z.shiftl (size msg mod 256) 56).
  { rewrite !Z.shiftl_mul_pow2 by lia. unfold uint. rewrite Zmult_mod_idemp_l. change (2 ^ 64) with (256 * 2 ^ 56).
    by rewrite Zmult_mod_distr_r. }
  assert (256 ^ Z.of_nat (length (drop (8 * q) msg)) <= 256 ^ 7) by (apply Z.pow_le_mono_r; lia).
  rewrite E, Z.lor_comm, lor_shiftl_add by (change (2 ^ 56) with (256 ^ 7); lia).
  rewrite Z.add_comm, Z.mul_comm. reflexivity.
Qed.

End Holds.

Lemma sip_WriteWord_holds k0 k1 h msg w : sip_holds k0 k1 h msg -> bytes_ok msg -> (length msg mod 8 = 0)%nat -> 0 <= w < 2 ^ 64 ->
  size msg + 8 < 2 ^ 31 -> exists h', CSipHasher_WriteWord h w = Some h' /\ sip_holds k0 k1 h' (msg ++ le_bytes 8 w).
Proof.
  intros [C V T] M A W L. unfold CSipHasher_WriteWord. rewrite C, V, T. set (q := (length msg / 8)%nat). pose proof (size_nonneg msg).
  assert (Q : length msg = (8 * q)%nat) by (pose proof (Nat.div_mod (length msg) 8); unfold q; lia).
  assert (Sz : size msg = Z.of_nat q * 8) by (unfold size; lia).
  unfold assert. rewrite Z.rem_mod_nonneg, Sz, Z.mod_mul, Z.eqb_refl by lia. eexists. split; [done|].
  assert (D : (length (msg ++ le_bytes 8 w) / 8)%nat = S q) by (rewrite length_app, length_le_bytes, Q; symmetry; apply (Nat.div_unique _ 8 _ 0); lia).
  split; cbn [sip_count sip_v sip_tmp]; rewrite ?D.
  - rewrite size_app. unfold size at 2. rewrite length_le_bytes, Sz. apply i32_id. unfold in_i32, INT32_MIN, INT32_MAX. lia.
  - rewrite absorb_words_S, absorb_words_app by lia. unfold absorb. rewrite drop_app_ge, Q, Nat.sub_diag by lia. rewrite drop_0.
    rewrite firstn_all2 by (by rewrite length_le_bytes). by rewrite le_value_bytes, Z.mod_small by done.
  - rewrite !drop_ge; [done|rewrite length_app, length_le_bytes; lia|lia].
Qed.

Lemma SipHashUint256_spec k0 k1 val : SipHashUint256 k0 k1 val = siphash k0 k1 (le_bytes 32 val).
Proof.
  unfold siphash. rewrite length_le_bytes. unfold size. rewrite length_le_bytes. change (32 / 8)%nat with 4%nat.
  rewrite drop_ge by (by rewrite length_le_bytes). unfold SipHashUint256, absorb_words, absorb, GetUint64, ReadLE.
  rewrite !drop_drop. generalize SIPROUND. intros R. reflexivity.
Qed.

Lemma SipHashUint256Extra_spec k0 k1 val extra : 0 <= extra < 2 ^ 32 ->
  SipHashUint256Extra k0 k1 val extra = siphash k0 k1 (le_bytes 32 val ++ le_bytes 4 extra).
Proof.
  intros E. unfold siphash. rewrite size_app. unfold size. rewrite length_app, !length_le_bytes.
  change ((32 + 4) / 8)%nat with 4%nat. change ((Z.of_nat 32 + Z.of_nat 4) mod 256) with 36.
  rewrite drop_app_ge, !length_le_bytes by (rewrite length_le_bytes; lia). change (drop (8 * 4 - 32) (le_bytes 4 extra)) with (le_bytes 4 extra).
  rewrite le_value_bytes, Z.mod_small by done. rewrite absorb_words_app by (rewrite length_le_bytes; lia).
  replace (extra + 2 ^ 56 * 36) with (Z.lor (Z.shiftl 36 56) extra) by (rewrite lor_shiftl_add; lia).
  unfold SipHashUint256Extra, absorb_words, absorb, GetUint64, ReadLE. rewrite !drop_drop. generalize SIPROUND. intros R. reflexivity.
Qed.

Lemma GetUint64_range val i : 0 <= GetUint64 val i < 2 ^ 64.
Proof.
  unfold GetUint64, ReadLE. assert (Ok : bytes_ok (take 8 (drop (i * 8) (le_bytes 32 val)))) by (apply Forall_take, Forall_drop, le_bytes_ok).
  pose proof (le_value_bound _ Ok) as B. rewrite length_take in B.
  assert (256 ^ Z.of_nat (Nat.min 8 (length (drop (i * 8) (le_bytes 32 val)))) <= 256 ^ 8) by (apply Z.pow_le_mono_r; lia).
  change (2 ^ 64) with (256 ^ 8). lia.
Qed.

Lemma GetUint64_bytes val i : (i < 4)%nat -> le_bytes 8 (GetUint64 val i) = take 8 (drop (i * 8) (le_bytes 32 val)).
Proof.
  intros I. unfold GetUint64, ReadLE. set (l := take 8 _). assert (Ok : bytes_ok l) by (apply Forall_take, Forall_drop, le_bytes_ok).
  rewrite <- (le_bytes_value l Ok) at 2. f_equal. unfold l. rewrite length_take, length_drop, length_le_bytes. lia.
Qed.

Lemma GetUint64_words val :
  le_bytes 8 (GetUint64 val 0) ++ le_bytes 8 (GetUint64 val 1) ++ le_bytes 8 (GetUint64 val 2) ++ le_bytes 8 (GetUint64 val 3) = le_bytes 32 val.
Proof. rewrite !GetUint64_bytes by lia. reflexivity. Qed.

(** One SipHash-2-4, four ways to compute it: bytes in any pieces, the
    function for a 256-bit value, the same value as four words, and the
    function for a value with a 32-bit suffix give the hash of the same
    message; the assertion on whole words is met.  The message stays below
    2^31 bytes, the range of [count]. *)
Theorem siphash_same k0 k1 val extra parts : 0 <= extra < 2 ^ 32 -> Forall bytes_ok parts -> size (concat parts) < 2 ^ 31 ->
  CSipHasher_Finalize (foldl CSipHasher_Write (CSipHasher_new k0 k1) parts) = siphash k0 k1 (concat parts) /\
  SipHashUint256 k0 k1 val = siphash k0 k1 (le_bytes 32 val) /\
  (h ← CSipHasher_WriteWord (CSipHasher_new k0 k1) (GetUint64 val 0); h ← CSipHasher_WriteWord h (GetUint64 val 1);
   h ← CSipHasher_WriteWord h (GetUint64 val 2); h ← CSipHasher_WriteWord h (GetUint64 val 3);
   Some (CSipHasher_Finalize h)) = Some (SipHashUint256 k0 k1 val) /\
  SipHashUint256Extra k0 k1 val extra = siphash k0 k1 (le_bytes 32 val ++ le_bytes 4 extra).
Proof.
  intros E P L. split; [|split; [apply SipHashUint256_spec|split; [|by apply SipHashUint256Extra_spec]]].
  - apply sip_Finalize; [apply (sip_writes_hold k0 k1 parts _ []); [apply sip_new_holds|constructor|done|done]|].
    clear L. induction P; cbn [concat]; [constructor|]. by apply Forall_app.
  - rewrite SipHashUint256_spec, <- (GetUint64_words val). generalize (GetUint64_range val). intros G.
    destruct (sip_WriteWord_holds k0 k1 _ [] (GetUint64 val 0) (sip_new_holds k0 k1)) as (h0 & -> & H0); [constructor|done|apply G|done|].
    cbn [app mbind option_bind] in *.
    destruct (sip_WriteWord_holds k0 k1 _ _ (GetUint64 val 1) H0) as (h1 & -> & H1); [auto with krova|done|apply G|done|]. cbn [mbind option_bind].
    destruct (sip_WriteWord_holds k0 k1 _ _ (GetUint64 val 2) H1) as (h2 & -> & H2); [rewrite !Forall_app; auto with krova|done|apply G|done|]. cbn [mbind option_bind].
    destruct (sip_WriteWord_holds k0 k1 _ _ (GetUint64 val 3) H2) as (h3 & -> & H3); [rewrite !Forall_app; auto with krova|done|apply G|done|]. cbn [mbind option_bind].
    f_equal. rewrite <- !app_assoc in H3. apply sip_Finalize; [done|]. rewrite !Forall_app. auto with krova.
Qed.

Lemma siphash_same_witness :
  CSipHasher_Finalize (foldl CSipHasher_Write (CSipHasher_new 0x0706050403020100 0x0F0E0D0C0B0A0908) [[0]; [1; 2; 3; 4; 5; 6; 7]]) =
    siphash 0x0706050403020100 0x0F0E0D0C0B0A0908 [0; 1; 2; 3; 4; 5; 6; 7] /\
  siphash 0x0706050403020100 0x0F0E0D0C0B0A0908 [0; 1; 2; 3; 4; 5; 6; 7] = 0x93f5f5799a932462.
Proof.
  split; [|vm_compute; reflexivity].
  apply (siphash_same 0x0706050403020100 0x0F0E0D0C0B0A0908 0 0 [[0]; [1; 2; 3; 4; 5; 6; 7]]);
    [lia|repeat constructor; unfold byte_ok; lia|vm_compute; reflexivity].
Defined.
