(* ===== verification/Script.v ===== *)
(** * Scripts: opcodes, script numbers, parsing and templates

    script/script.h and script/script.cpp.  A [CScript] is its bytes; an
    iterator into a script is the suffix of the bytes it points at. *)

From S2P Require Import Prelude.

Definition MAX_SCRIPT_ELEMENT_SIZE : Z := 520.
Definition MAX_PUBKEYS_PER_MULTISIG : Z := 20.
Definition MAX_SCRIPT_SIZE : Z := 10000.
Definition LOCKTIME_THRESHOLD : Z := 500000000.

(** ** Opcodes (enum opcodetype) *)

Inductive opcodetype :=
| OP_0 | OP_PUSHDATA1 | OP_PUSHDATA2 | OP_PUSHDATA4 | OP_1NEGATE | OP_RESERVED | OP_1 | OP_2
| OP_3 | OP_4 | OP_5 | OP_6 | OP_7 | OP_8 | OP_9 | OP_10 | OP_11 | OP_12 | OP_13 | OP_14
| OP_15 | OP_16 | OP_NOP | OP_VER | OP_IF | OP_NOTIF | OP_VERIF | OP_VERNOTIF | OP_ELSE
| OP_ENDIF | OP_VERIFY | OP_RETURN | OP_TOALTSTACK | OP_FROMALTSTACK | OP_2DROP | OP_2DUP
| OP_3DUP | OP_2OVER | OP_2ROT | OP_2SWAP | OP_IFDUP | OP_DEPTH | OP_DROP | OP_DUP | OP_NIP
| OP_OVER | OP_PICK | OP_ROLL | OP_ROT | OP_SWAP | OP_TUCK | OP_CAT | OP_SUBSTR | OP_LEFT
| OP_RIGHT | OP_SIZE | OP_INVERT | OP_AND | OP_OR | OP_XOR | OP_EQUAL | OP_EQUALVERIFY
| OP_RESERVED1 | OP_RESERVED2 | OP_1ADD | OP_1SUB | OP_2MUL | OP_2DIV | OP_NEGATE | OP_ABS
| OP_NOT | OP_0NOTEQUAL | OP_ADD | OP_SUB | OP_MUL | OP_DIV | OP_MOD | OP_LSHIFT | OP_RSHIFT
| OP_BOOLAND | OP_BOOLOR | OP_NUMEQUAL | OP_NUMEQUALVERIFY | OP_NUMNOTEQUAL | OP_LESSTHAN
| OP_GREATERTHAN | OP_LESSTHANOREQUAL | OP_GREATERTHANOREQUAL | OP_MIN | OP_MAX | OP_WITHIN
| OP_RIPEMD160 | OP_SHA1 | OP_SHA256 | OP_HASH160 | OP_HASH256 | OP_CODESEPARATOR | OP_CHECKSIG
| OP_CHECKSIGVERIFY | OP_CHECKMULTISIG | OP_CHECKMULTISIGVERIFY | OP_NOP1 | OP_NOP2 | OP_NOP3
| OP_NOP4 | OP_NOP5 | OP_NOP6 | OP_NOP7 | OP_NOP8 | OP_NOP9 | OP_NOP10 | OP_ZEROCOINMINT
| OP_ZEROCOINSPEND | OP_ZEROCOINPUBLICSPEND | OP_CHECKCOLDSTAKEVERIFY_LOF
| OP_CHECKCOLDSTAKEVERIFY | OP_EXCHANGEADDR | OP_INVALIDOPCODE.

(** The value of an enumerator; any byte may be cast to the enum, so an opcode
    that was read is an integer. *)
Definition opcode_value (op : opcodetype) : Z :=
  match op with
  | OP_0 => 0x00 | OP_PUSHDATA1 => 0x4c | OP_PUSHDATA2 => 0x4d | OP_PUSHDATA4 => 0x4e
  | OP_1NEGATE => 0x4f | OP_RESERVED => 0x50 | OP_1 => 0x51 | OP_2 => 0x52 | OP_3 => 0x53
  | OP_4 => 0x54 | OP_5 => 0x55 | OP_6 => 0x56 | OP_7 => 0x57 | OP_8 => 0x58 | OP_9 => 0x59
  | OP_10 => 0x5a | OP_11 => 0x5b | OP_12 => 0x5c | OP_13 => 0x5d | OP_14 => 0x5e
  | OP_15 => 0x5f | OP_16 => 0x60 | OP_NOP => 0x61 | OP_VER => 0x62 | OP_IF => 0x63
  | OP_NOTIF => 0x64 | OP_VERIF => 0x65 | OP_VERNOTIF => 0x66 | OP_ELSE => 0x67
  | OP_ENDIF => 0x68 | OP_VERIFY => 0x69 | OP_RETURN => 0x6a | OP_TOALTSTACK => 0x6b
  | OP_FROMALTSTACK => 0x6c | OP_2DROP => 0x6d | OP_2DUP => 0x6e | OP_3DUP => 0x6f
  | OP_2OVER => 0x70 | OP_2ROT => 0x71 | OP_2SWAP => 0x72 | OP_IFDUP => 0x73 | OP_DEPTH => 0x74
  | OP_DROP => 0x75 | OP_DUP => 0x76 | OP_NIP => 0x77 | OP_OVER => 0x78 | OP_PICK => 0x79
  | OP_ROLL => 0x7a | OP_ROT => 0x7b | OP_SWAP => 0x7c | OP_TUCK => 0x7d | OP_CAT => 0x7e
  | OP_SUBSTR => 0x7f | OP_LEFT => 0x80 | OP_RIGHT => 0x81 | OP_SIZE => 0x82
  | OP_INVERT => 0x83 | OP_AND => 0x84 | OP_OR => 0x85 | OP_XOR => 0x86 | OP_EQUAL => 0x87
  | OP_EQUALVERIFY => 0x88 | OP_RESERVED1 => 0x89 | OP_RESERVED2 => 0x8a | OP_1ADD => 0x8b
  | OP_1SUB => 0x8c | OP_2MUL => 0x8d | OP_2DIV => 0x8e | OP_NEGATE => 0x8f | OP_ABS => 0x90
  | OP_NOT => 0x91 | OP_0NOTEQUAL => 0x92 | OP_ADD => 0x93 | OP_SUB => 0x94 | OP_MUL => 0x95
  | OP_DIV => 0x96 | OP_MOD => 0x97 | OP_LSHIFT => 0x98 | OP_RSHIFT => 0x99
  | OP_BOOLAND => 0x9a | OP_BOOLOR => 0x9b | OP_NUMEQUAL => 0x9c | OP_NUMEQUALVERIFY => 0x9d
  | OP_NUMNOTEQUAL => 0x9e | OP_LESSTHAN => 0x9f | OP_GREATERTHAN => 0xa0
  | OP_LESSTHANOREQUAL => 0xa1 | OP_GREATERTHANOREQUAL => 0xa2 | OP_MIN => 0xa3
  | OP_MAX => 0xa4 | OP_WITHIN => 0xa5 | OP_RIPEMD160 => 0xa6 | OP_SHA1 => 0xa7
  | OP_SHA256 => 0xa8 | OP_HASH160 => 0xa9 | OP_HASH256 => 0xaa | OP_CODESEPARATOR => 0xab
  | OP_CHECKSIG => 0xac | OP_CHECKSIGVERIFY => 0xad | OP_CHECKMULTISIG => 0xae
  | OP_CHECKMULTISIGVERIFY => 0xaf | OP_NOP1 => 0xb0 | OP_NOP2 => 0xb1 | OP_NOP3 => 0xb2
  | OP_NOP4 => 0xb3 | OP_NOP5 => 0xb4 | OP_NOP6 => 0xb5 | OP_NOP7 => 0xb6 | OP_NOP8 => 0xb7
  | OP_NOP9 => 0xb8 | OP_NOP10 => 0xb9 | OP_ZEROCOINMINT => 0xc1 | OP_ZEROCOINSPEND => 0xc2
  | OP_ZEROCOINPUBLICSPEND => 0xc3 | OP_CHECKCOLDSTAKEVERIFY_LOF => 0xd1
  | OP_CHECKCOLDSTAKEVERIFY => 0xd2 | OP_EXCHANGEADDR => 0xe0 | OP_INVALIDOPCODE => 0xff
  end.

Coercion opcode_value : opcodetype >-> Z.

Definition OP_FALSE : opcodetype := OP_0.
Definition OP_TRUE : opcodetype := OP_1.
Definition OP_CHECKLOCKTIMEVERIFY : opcodetype := OP_NOP2.

Abbreviation CScript := bytes (only parsing).

(** ** CScriptNum *)

Definition nDefaultMaxNumSize : Z := 4.

(** [CScriptNum::set_vch]: the loop over the bytes, [i] counted up. *)
Fixpoint set_vch_or (vch : bytes) (i result : Z) : Z :=
  match vch with
  | [] => result
  | b :: vch => set_vch_or vch (i + 1) (Z.lor result (Z.shiftl b (8 * i)))
  end.

Definition vch_back (vch : bytes) : Z := default 0 (last vch).

Definition set_vch (vch : bytes) : Z :=
  match vch with
  | [] => 0
  | _ =>
    let result := set_vch_or vch 0 0 in
    if negb (Z.land (vch_back vch) 0x80 =? 0)
    then - (Z.ldiff result (Z.shiftl 0x80 (8 * (size vch - 1))))
    else result
  end.

(** The constructor from bytes; [None] is a thrown [scriptnum_error]. *)
Definition CScriptNum (vch : bytes) (fRequireMinimal : bool) (nMaxNumSize : Z) : option Z :=
  if nMaxNumSize <? size vch then None
  else if fRequireMinimal && (0 <? size vch)
          && (Z.land (vch_back vch) 0x7f =? 0)
          && ((size vch <=? 1) || (Z.land (at_ vch (length vch - 2)) 0x80 =? 0))
  then None
  else Some (set_vch vch).

(** [while (absvalue) { push_back(absvalue & 0xff); absvalue >>= 8; }]; a
    [uint64_t] has at most eight bytes. *)
Fixpoint serialize_loop (fuel : nat) (absvalue : Z) : bytes :=
  match fuel with
  | O => []
  | S fuel =>
      if absvalue =? 0 then []
      else Z.land absvalue 0xff :: serialize_loop fuel (Z.shiftr absvalue 8)
  end.

Definition update_back (l : bytes) (f : Z -> Z) : bytes :=
  match reverse l with
  | [] => []
  | b :: r => reverse (f b :: r)
  end.

Definition CScriptNum_serialize (value : Z) : bytes :=
  if value =? 0 then []
  else
    let neg := value <? 0 in
    let absvalue := if neg then u64 (Z.lnot value + 1) else value in
    let result := serialize_loop 8 absvalue in
    if negb (Z.land (vch_back result) 0x80 =? 0)
    then result ++ [if neg then 0x80 else 0]
    else if neg then update_back result (fun b => Z.lor b 0x80)
    else result.

Definition getint (m_value : Z) : Z :=
  if INT32_MAX <? m_value then INT32_MAX
  else if m_value <? INT32_MIN then INT32_MIN
  else m_value.

(** [operator-] asserts that the value is not the least [int64_t]. *)
Definition CScriptNum_neg (m_value : Z) : option Z :=
  assert (negb (m_value =? INT64_MIN)) (Some (- m_value)).

(** ** Building scripts *)

(** [operator<<] on a byte vector. *)
Definition push_data (s : CScript) (b : bytes) : CScript :=
  let n := size b in
  (if n <? OP_PUSHDATA1 then s ++ [n]
   else if n <=? 0xff then s ++ [OP_PUSHDATA1 : Z; n]
   else if n <=? 0xffff then s ++ (OP_PUSHDATA2 : Z) :: le_bytes 2 n
   else s ++ (OP_PUSHDATA4 : Z) :: le_bytes 4 n) ++ b.

(** [operator<<] on an opcode. *)
Definition push_op (s : CScript) (opcode : Z) : CScript := s ++ [u8 opcode].

(** [push_int64], i.e. [operator<<] on an integer. *)
Definition push_int64 (s : CScript) (n : Z) : CScript :=
  if (n =? -1) || ((1 <=? n) && (n <=? 16)) then s ++ [u8 (n + (OP_1 - 1))]
  else if n =? 0 then s ++ [OP_0 : Z]
  else push_data s (CScriptNum_serialize n).

(** [script << op], [script << data], [script << n] *)
Notation "s <<op o" := (push_op s o) (at level 50, left associativity) : krova_scope.
Notation "s <<data b" := (push_data s b) (at level 50, left associativity) : krova_scope.
Notation "s <<int n" := (push_int64 s n) (at level 50, left associativity) : krova_scope.

(** ** Reading scripts *)

(** The outcome of [GetOp2]: on failure the opcode is [OP_INVALIDOPCODE], the
    data empty, and the iterator may have moved. *)
Inductive GetOpResult :=
| GetOp_false (pc : bytes)
| GetOp_true (opcode : Z) (vch : bytes) (pc : bytes).

Definition GetOp2_data (opcode nSize : Z) (pc : bytes) : GetOpResult :=
  if size pc <? nSize then GetOp_false pc
  else GetOp_true opcode (take (Z.to_nat nSize) pc) (drop (Z.to_nat nSize) pc).

Definition GetOp2 (pc : bytes) : GetOpResult :=
  match pc with
  | [] => GetOp_false pc
  | opcode :: pc =>
      if opcode <=? OP_PUSHDATA4 then
        if opcode <? OP_PUSHDATA1 then GetOp2_data opcode opcode pc
        else if opcode =? OP_PUSHDATA1 then
          match pc with
          | [] => GetOp_false pc
          | n :: pc => GetOp2_data opcode n pc
          end
        else if opcode =? OP_PUSHDATA2 then
          if size pc <? 2 then GetOp_false pc
          else GetOp2_data opcode (le_value (take 2 pc)) (drop 2 pc)
        else
          if size pc <? 4 then GetOp_false pc
          else GetOp2_data opcode (le_value (take 4 pc)) (drop 4 pc)
      else GetOp_true opcode [] pc
  end.

Definition DecodeOP_N (opcode : Z) : option Z :=
  if opcode =? OP_0 then Some 0
  else assert ((OP_1 <=? opcode) && (opcode <=? OP_16)) (Some (opcode - (OP_1 - 1))).

Definition EncodeOP_N (n : Z) : option Z :=
  assert ((0 <=? n) && (n <=? 16)) (Some (if n =? 0 then OP_0 : Z else OP_1 + n - 1)).

(** The inner [while] of [FindAndDelete]: skip the occurrences of [b] at [pc]. *)
Fixpoint FindAndDelete_skip (fuel : nat) (b pc : bytes) (nFound : Z) : option (bytes * Z) :=
  match fuel with
  | O => None
  | S fuel =>
      if bool_decide (b = take (length b) pc)
      then FindAndDelete_skip fuel b (drop (length b) pc) (nFound + 1)
      else Some (pc, nFound)
  end.

(** The [do ... while (GetOp(pc, opcode))] loop; [result] collects the kept
    bytes, the interval from [pc2] to [pc] still to be appended. *)
Fixpoint FindAndDelete_loop (fuel : nat) (b pc2 pc result : bytes) (nFound : Z)
  : option (bytes * bytes * Z) :=
  match fuel with
  | O => None
  | S fuel =>
      let result := result ++ take (length pc2 - length pc) pc2 in
      '(pc, nFound) ← FindAndDelete_skip (S (length pc)) b pc nFound;
      match GetOp2 pc with
      | GetOp_true _ _ pc' => FindAndDelete_loop fuel b pc pc' result nFound
      | GetOp_false _ => Some (result, pc, nFound)
      end
  end.

(** Returns the number of deletions and the script afterwards. *)
Definition FindAndDelete (script b : CScript) : option (Z * CScript) :=
  match b with
  | [] => Some (0, script)
  | _ =>
      '(result, pc2, nFound) ← FindAndDelete_loop (S (length script)) b script script [] 0;
      Some (nFound, if 0 <? nFound then result ++ pc2 else script)
  end.

Fixpoint Find_loop (fuel : nat) (op : Z) (pc : bytes) (nFound : Z) : option Z :=
  match fuel with
  | O => None
  | S fuel =>
      match GetOp2 pc with
      | GetOp_true opcode _ pc => Find_loop fuel op pc (if opcode =? op then nFound + 1 else nFound)
      | GetOp_false _ => Some nFound
      end
  end.

Definition Find (script : CScript) (op : Z) : option Z :=
  Find_loop (S (length script)) op script 0.

(** [IsUnspendable] *)
Definition IsUnspendable (s : CScript) : bool :=
  ((0 <? size s) && (at_ s 0 =? OP_RETURN)) || (MAX_SCRIPT_SIZE <? size s).

(** ** script.cpp *)

Fixpoint GetSigOpCount_loop (fuel : nat) (fAccurate : bool) (pc : bytes) (lastOpcode n : Z)
  : option Z :=
  match fuel with
  | O => None
  | S fuel =>
      match GetOp2 pc with
      | GetOp_false _ => Some n
      | GetOp_true opcode _ pc =>
          n ← (if (opcode =? OP_CHECKSIG) || (opcode =? OP_CHECKSIGVERIFY) then Some (u32 (n + 1))
               else if (opcode =? OP_CHECKMULTISIG) || (opcode =? OP_CHECKMULTISIGVERIFY) then
                 if fAccurate && (OP_1 <=? lastOpcode) && (lastOpcode <=? OP_16)
                 then d ← DecodeOP_N lastOpcode; Some (u32 (n + d))
                 else Some (u32 (n + MAX_PUBKEYS_PER_MULTISIG))
               else Some n);
          GetSigOpCount_loop fuel fAccurate pc opcode n
      end
  end.

Definition GetSigOpCount (s : CScript) (fAccurate : bool) : option Z :=
  GetSigOpCount_loop (S (length s)) fAccurate s OP_INVALIDOPCODE 0.

Definition IsPayToPublicKeyHash (s : CScript) : bool :=
  (size s =? 25) && (at_ s 0 =? OP_DUP) && (at_ s 1 =? OP_HASH160) && (at_ s 2 =? 0x14)
  && (at_ s 23 =? OP_EQUALVERIFY) && (at_ s 24 =? OP_CHECKSIG).

Definition IsPayToScriptHash (s : CScript) : bool :=
  (size s =? 23) && (at_ s 0 =? OP_HASH160) && (at_ s 1 =? 0x14) && (at_ s 22 =? OP_EQUAL).

Definition IsPayToColdStaking (s : CScript) : bool :=
  (size s =? 51) && (at_ s 0 =? OP_DUP) && (at_ s 1 =? OP_HASH160) && (at_ s 2 =? OP_ROT)
  && (at_ s 3 =? OP_IF)
  && ((at_ s 4 =? OP_CHECKCOLDSTAKEVERIFY) || (at_ s 4 =? OP_CHECKCOLDSTAKEVERIFY_LOF))
  && (at_ s 5 =? 0x14) && (at_ s 26 =? OP_ELSE) && (at_ s 27 =? 0x14)
  && (at_ s 48 =? OP_ENDIF) && (at_ s 49 =? OP_EQUALVERIFY) && (at_ s 50 =? OP_CHECKSIG).

Definition IsPayToColdStakingLOF (s : CScript) : bool :=
  IsPayToColdStaking s && (at_ s 4 =? OP_CHECKCOLDSTAKEVERIFY_LOF).

Definition IsPayToExchangeAddress (s : CScript) : bool :=
  (size s =? 26) && (at_ s 0 =? OP_EXCHANGEADDR) && (at_ s 1 =? OP_DUP)
  && (at_ s 2 =? OP_HASH160) && (at_ s 3 =? 0x14)
  && (at_ s 24 =? OP_EQUALVERIFY) && (at_ s 25 =? OP_CHECKSIG).

Definition StartsWithOpcode (s : CScript) (opcode : Z) : bool :=
  match s with [] => false | b :: _ => b =? opcode end.

Definition IsZerocoinMint (s : CScript) : bool := StartsWithOpcode s OP_ZEROCOINMINT.
Definition IsZerocoinSpend (s : CScript) : bool := StartsWithOpcode s OP_ZEROCOINSPEND.
Definition IsZerocoinPublicSpend (s : CScript) : bool := StartsWithOpcode s OP_ZEROCOINPUBLICSPEND.

Fixpoint IsPushOnly_loop (fuel : nat) (pc : bytes) : option bool :=
  match fuel with
  | O => None
  | S fuel =>
      match pc with
      | [] => Some true
      | _ =>
          match GetOp2 pc with
          | GetOp_false _ => Some false
          | GetOp_true opcode _ pc => if OP_16 <? opcode then Some false else IsPushOnly_loop fuel pc
          end
      end
  end.

Definition IsPushOnly (s : CScript) : option bool := IsPushOnly_loop (S (length s)) s.

(** The data of the last push of a scriptSig; [inl] is an early [return 0]. *)
Fixpoint LastPush_loop (fuel : nat) (pc data : bytes) : option (unit + bytes) :=
  match fuel with
  | O => None
  | S fuel =>
      match pc with
      | [] => Some (inr data)
      | _ =>
          match GetOp2 pc with
          | GetOp_false _ => Some (inl ())
          | GetOp_true opcode data pc =>
              if OP_16 <? opcode then Some (inl ()) else LastPush_loop fuel pc data
          end
      end
  end.

(** [GetSigOpCount(const CScript& scriptSig)] *)
Definition GetSigOpCount_scriptSig (s scriptSig : CScript) : option Z :=
  if negb (IsPayToScriptHash s) then GetSigOpCount s true
  else
    r ← LastPush_loop (S (length scriptSig)) scriptSig [];
    match r with
    | inl _ => Some 0
    | inr data => GetSigOpCount data true
    end.

(** ** Script numbers: the encoding is a minimal bijection *)

Lemma set_vch_or_le vch i r :
  bytes_ok vch -> 0 <= i -> 0 <= r < 256 ^ i ->
  set_vch_or vch i r = r + 256 ^ i * le_value vch.
Proof.
  intros Hok. revert i r. induction Hok as [|b vch Hb _ IH]; intros i r Hi Hr.
  { simpl. lia. }
  assert (H256 : 256 ^ i = 2 ^ (8 * i)) by (change 256 with (2 ^ 8); by rewrite <- Z.pow_mul_r by lia).
  cbn [set_vch_or le_value]. rewrite Z.lor_comm, lor_shiftl_add, <- H256 by lia.
  unfold byte_ok in Hb.
  rewrite IH by (rewrite ?Z.pow_add_r by lia; nia).
  rewrite Z.pow_add_r by lia. lia.
Qed.

Lemma vch_back_snoc l b : vch_back (l ++ [b]) = b.
Proof. unfold vch_back. by rewrite last_snoc. Qed.

(** Sign and magnitude of an encoding whose last byte is [b]. *)
Lemma set_vch_snoc l b :
  bytes_ok (l ++ [b]) ->
  set_vch (l ++ [b]) =
    if b <? 128 then le_value l + 256 ^ size l * b else - (le_value l + 256 ^ size l * (b - 128)).
Proof.
  intros Hok. assert (byte_ok b) as Hb by (apply Forall_app in Hok as [_ Hb]; by inversion Hb).
  assert (Hl : 0 <= le_value l < 256 ^ size l).
  { apply Forall_app in Hok as [Hl _]. by apply le_value_bound. }
  assert (Heq : set_vch (l ++ [b]) =
    let result := set_vch_or (l ++ [b]) 0 0 in
    if negb (Z.land (vch_back (l ++ [b])) 0x80 =? 0)
    then - (Z.ldiff result (Z.shiftl 0x80 (8 * (size (l ++ [b]) - 1)))) else result)
    by (unfold set_vch; by destruct l).
  rewrite Heq, vch_back_snoc, byte_land_80, set_vch_or_le, le_value_app by (done || lia).
  cbn [le_value]. rewrite size_app. change (size [b]) with 1.
  rewrite Z.add_simpl_r. cbn zeta. change (Z.of_nat (length l)) with (size l) in *.
  assert (H256 : 256 ^ size l = 2 ^ (8 * size l)).
  { change 256 with (2 ^ 8). rewrite <- Z.pow_mul_r; auto with krova; lia. }
  destruct (b <? 128) eqn:E; cbn [negb]; bool_to_prop; [lia|].
  f_equal. unfold byte_ok in Hb. pose proof (size_nonneg l).
  rewrite <- Z.sub_nocarry_ldiff.
  - rewrite Z.shiftl_mul_pow2, <- H256 by lia. lia.
  - replace (0 + 256 ^ 0 * (le_value l + 256 ^ size l * (b + 256 * 0)))
      with (Z.lor (Z.shiftl b (8 * size l)) (le_value l))
      by (rewrite lor_shiftl_add by lia; lia).
    replace b with (Z.lor (Z.shiftl 1 7) (b - 128)) by (rewrite lor_shiftl_add; lia).
    apply Z.bits_inj'. intros i Hi. rewrite Z.bits_0, Z.ldiff_spec, Z.lor_spec.
    rewrite !Z.shiftl_lor, !Z.lor_spec, Z.shiftl_shiftl by lia.
    replace (Z.shiftl 128 (8 * size l)) with (Z.shiftl 1 (7 + 8 * size l))
      by (rewrite <- Z.shiftl_shiftl by lia; done).
    destruct (Z.testbit _ i); done.
Qed.

(** The loop writes the shortest little-endian form. *)
Lemma serialize_loop_spec fuel a :
  0 < a < 256 ^ Z.of_nat fuel ->
  exists l t, serialize_loop fuel a = l ++ [t] /\ bytes_ok (l ++ [t]) /\ t <> 0
              /\ a = le_value l + 256 ^ size l * t.
Proof.
  revert a. induction fuel as [|fuel IH]; intros a Ha; cbn [serialize_loop].
  { simpl in Ha. lia. }
  rewrite (proj2 (Z.eqb_neq a 0)) by lia.
  change 0xff with (Z.ones 8). rewrite Z.land_ones, Z.shiftr_div_pow2 by lia.
  change (2 ^ 8) with 256. rewrite Nat2Z.inj_succ, Z.pow_succ_r in Ha by lia.
  pose proof (Z.div_mod a 256). pose proof (Z.mod_pos_bound a 256).
  destruct (Z.eq_dec (a / 256) 0) as [E|E].
  - exists [], (a mod 256). rewrite E. split_and!.
    + by destruct fuel.
    + by repeat constructor; lia.
    + lia.
    + change (size (@nil Z)) with 0. simpl. lia.
  - destruct (IH (a / 256)) as (l & t & -> & Hok & Ht & Hv); [lia|].
    exists (a mod 256 :: l), t. split_and!; [done| |done|].
    + constructor; [by unfold byte_ok; lia | done].
    + rewrite size_cons, Z.pow_add_r by (auto with krova; lia). cbn [le_value]. lia.
Qed.

Lemma serialize_loop_le fuel l t :
  bytes_ok (l ++ [t]) -> t <> 0 -> (length l < fuel)%nat ->
  serialize_loop fuel (le_value l + 256 ^ size l * t) = l ++ [t].
Proof.
  revert fuel. induction l as [|b l IH]; intros fuel Hok Ht Hf; destruct fuel as [|fuel];
    try (simpl in Hf; lia); cbn [serialize_loop].
  - apply Forall_inv in Hok. unfold byte_ok in Hok. change (size (@nil Z)) with 0.
    cbn [le_value]. rewrite Z.add_0_l, Z.mul_1_l, (proj2 (Z.eqb_neq t 0)) by lia.
    change 0xff with (Z.ones 8). rewrite Z.land_ones, Z.shiftr_div_pow2 by lia.
    rewrite Z.mod_small, Z.div_small by (simpl; lia). by destruct fuel.
  - inversion Hok as [|?? Hb Hok']; subst. unfold byte_ok in Hb.
    pose proof (size_nonneg l). rewrite size_cons, Z.pow_add_r by lia. cbn [le_value].
    assert (0 <= le_value l) by (apply Forall_app in Hok' as [Hl _]; by apply le_value_bound).
    assert (0 < t) by (apply Forall_app in Hok' as [_ Hl]; apply Forall_inv in Hl; unfold byte_ok in Hl; lia).
    replace (b + 256 * le_value l + 256 ^ size l * 256 ^ 1 * t)
      with (b + (le_value l + 256 ^ size l * t) * 256) by lia.
    rewrite (proj2 (Z.eqb_neq _ 0)) by nia.
    change 0xff with (Z.ones 8). rewrite Z.land_ones, Z.shiftr_div_pow2 by lia.
    change (2 ^ 8) with 256. rewrite Z.mod_add, Z.div_add, Z.mod_small, Z.div_small by lia.
    rewrite Z.add_0_l, IH; [done | done | done | simpl in Hf; lia].
Qed.

Lemma update_back_snoc l b f : update_back (l ++ [b]) f = l ++ [f b].
Proof. unfold update_back. rewrite reverse_snoc. by rewrite reverse_cons, reverse_involutive. Qed.

(** The encoding of a non-zero value, given the shortest form of its magnitude. *)
Lemma CScriptNum_serialize_form value l t :
  value <> 0 -> Z.abs value <= INT64_MAX ->
  bytes_ok (l ++ [t]) -> t <> 0 -> (length l < 8)%nat ->
  Z.abs value = le_value l + 256 ^ size l * t ->
  CScriptNum_serialize value =
    if t <? 128 then l ++ [if value <? 0 then t + 128 else t]
    else (l ++ [t]) ++ [if value <? 0 then 128 else 0].
Proof.
  intros Hnz Hr Hok Ht Hlen Habs. unfold CScriptNum_serialize.
  rewrite (proj2 (Z.eqb_neq value 0)) by done. cbn zeta.
  replace (if value <? 0 then u64 (Z.lnot value + 1) else value) with (Z.abs value).
  2: { unfold INT64_MAX in Hr. destruct (value <? 0) eqn:E; bool_to_prop; [|lia].
       rewrite uint_id; unfold Z.lnot; lia. }
  rewrite Habs, serialize_loop_le by done.
  assert (Hb : byte_ok t) by (apply Forall_app in Hok as [_ Hb]; by inversion Hb).
  rewrite vch_back_snoc, byte_land_80, update_back_snoc by done.
  change 0x80 with 128.
  destruct (t <? 128) eqn:E, (value <? 0); cbn [negb]; try done.
  bool_to_prop. unfold byte_ok in Hb. by rewrite byte_lor_80 by lia.
Qed.

Lemma le_value_size_bound l t k :
  bytes_ok (l ++ [t]) -> t <> 0 -> 0 <= k -> le_value l + 256 ^ size l * t < 256 ^ k -> size l < k.
Proof.
  intros Hok Ht Hk Hlt. apply Forall_app in Hok as [Hl Htb]. apply Forall_inv in Htb.
  unfold byte_ok in Htb. apply le_value_bound in Hl.
  apply (Z.pow_lt_mono_r_iff 256); [lia|lia|]. pose proof (Z.pow_nonneg 256 (size l)). nia.
Qed.

(** The constructor on an encoding whose last byte is [b], the minimality
    test stated on the byte before it. *)
Lemma CScriptNum_snoc l b nMax :
  bytes_ok (l ++ [b]) ->
  CScriptNum (l ++ [b]) true nMax =
    if nMax <? size l + 1 then None
    else if (b mod 128 =? 0) && (match last l with None => true | Some t => t <? 128 end) then None
    else Some (if b <? 128 then le_value l + 256 ^ size l * b
               else - (le_value l + 256 ^ size l * (b - 128))).
Proof.
  intros Hok. unfold CScriptNum. rewrite set_vch_snoc, vch_back_snoc by done.
  apply Forall_app in Hok as [Hl Hb]. apply Forall_inv in Hb.
  rewrite byte_land_7f, size_app by done. change (size [b]) with 1.
  pose proof (size_nonneg l). rewrite (proj2 (Z.ltb_lt 0 _)) by lia. cbn [andb].
  destruct l as [|t l _] using rev_ind; [done|].
  rewrite last_snoc, size_app. change (size [t]) with 1. pose proof (size_nonneg l).
  rewrite (proj2 (Z.leb_gt _ _)) by lia.
  unfold at_. rewrite !length_app. simpl length.
  replace (length l + 1 + 1 - 2)%nat with (length l) by lia.
  rewrite <- app_assoc, app_nth2, Nat.sub_diag by lia. cbn [app nth].
  rewrite byte_land_80; [done|]. apply Forall_app in Hl as [_ Ht]. by inversion Ht.
Qed.

Lemma byte_mod_128 b : byte_ok b -> b mod 128 = if b <? 128 then b else b - 128.
Proof.
  unfold byte_ok. intros. destruct (b <? 128) eqn:E; bool_to_prop.
  - apply Z.mod_small. lia.
  - symmetry. apply (Z.mod_unique_pos b 128 1); lia.
Qed.

Lemma CScriptNum_serialize_0 : CScriptNum_serialize 0 = [].
Proof. done. Qed.

(** The encoding of any value an [int64_t] script number can hold (bar the
    least one) is bytes, minimal, and decodes to the value. *)
Lemma CScriptNum_serialize_ok value nMax :
  Z.abs value <= INT64_MAX -> size (CScriptNum_serialize value) <= nMax ->
  bytes_ok (CScriptNum_serialize value) /\
  CScriptNum (CScriptNum_serialize value) true nMax = Some value.
Proof.
  intros Hr Hsz. destruct (Z.eq_dec value 0) as [->|Hnz].
  { split; [constructor|]. rewrite CScriptNum_serialize_0 in *. unfold CScriptNum.
    by rewrite (proj2 (Z.ltb_ge _ _)) by done. }
  assert (Habs : 0 < Z.abs value < 256 ^ Z.of_nat 8) by (unfold INT64_MAX in Hr; simpl; lia).
  destruct (serialize_loop_spec 8 _ Habs) as (l & t & _ & Hok & Ht & Hv).
  assert (Hlen : size l < 8) by (apply (le_value_size_bound l t 8); try done; simpl in *; lia).
  rewrite (CScriptNum_serialize_form value l t) in * by (done || unfold size in *; lia).
  destruct (proj1 (Forall_app _ _ _) Hok) as [Hl Hb]. apply Forall_inv in Hb.
  unfold byte_ok in Hb. destruct (t <? 128) eqn:E; bool_to_prop.
  - set (b := if value <? 0 then t + 128 else t) in *.
    assert (Hb' : byte_ok b) by (unfold b, byte_ok; case_match; lia).
    assert (Hok' : bytes_ok (l ++ [b])) by (apply Forall_app; auto).
    split; [done|]. rewrite CScriptNum_snoc, byte_mod_128 by done.
    rewrite size_app in Hsz. change (size [b]) with 1 in Hsz.
    rewrite (proj2 (Z.ltb_ge nMax _)) by lia. unfold b.
    destruct (value <? 0) eqn:Ev; bool_to_prop;
      [rewrite (proj2 (Z.ltb_ge (t + 128) 128)) by lia | rewrite (proj2 (Z.ltb_lt t 128)) by lia];
      rewrite (proj2 (Z.eqb_neq _ 0)) by lia; cbn [andb]; f_equal; lia.
  - set (b := if value <? 0 then 128 else 0) in *.
    assert (Hb' : byte_ok b) by (unfold b, byte_ok; case_match; lia).
    assert (Hok' : bytes_ok ((l ++ [t]) ++ [b])) by (apply Forall_app; auto).
    split; [done|]. rewrite CScriptNum_snoc, last_snoc, (proj2 (Z.ltb_ge t 128)) by done.
    rewrite size_app in Hsz. change (size [b]) with 1 in Hsz.
    rewrite (proj2 (Z.ltb_ge nMax _)), andb_false_r, le_value_app by lia. cbn [le_value].
    change (Z.of_nat (length l)) with (size l). unfold b. f_equal.
    destruct (value <? 0) eqn:Ev; bool_to_prop;
      [change (128 <? 128) with false | change (0 <? 128) with true]; cbv iota; lia.
Qed.

(** Magnitude and sign of a decoded value. *)
Lemma CScriptNum_sign_magnitude l b :
  bytes_ok (l ++ [b]) -> size l <= 7 ->
  let value := if b <? 128 then le_value l + 256 ^ size l * b
               else - (le_value l + 256 ^ size l * (b - 128)) in
  Z.abs value = le_value l + 256 ^ size l * (b mod 128) /\ Z.abs value <= INT64_MAX /\
  (value <> 0 -> (value <? 0) = negb (b <? 128)).
Proof.
  intros Hok Hsz value. destruct (proj1 (Forall_app _ _ _) Hok) as [Hl Hb]. apply Forall_inv in Hb.
  apply le_value_bound in Hl. change (Z.of_nat (length l)) with (size l) in Hl.
  assert (Hpow : 0 < 256 ^ size l <= 256 ^ 7).
  { pose proof (size_nonneg l). split; [lia | apply Z.pow_le_mono_r; lia]. }
  change (256 ^ 7) with 72057594037927936 in Hpow.
  unfold INT64_MAX, value. rewrite byte_mod_128 by done. unfold byte_ok in Hb.
  destruct (b <? 128) eqn:Eb; bool_to_prop; cbn [negb].
  - split_and!; [nia | nia | intros; apply Z.ltb_ge; nia].
  - split_and!; [nia | nia | intros; apply Z.ltb_lt; nia].
Qed.

(** A minimal encoding is the encoding of the value it decodes to. *)
Lemma CScriptNum_minimal_unique vch nMax value :
  bytes_ok vch -> nMax <= 8 -> CScriptNum vch true nMax = Some value ->
  CScriptNum_serialize value = vch /\ Z.abs value <= INT64_MAX.
Proof.
  intros Hok Hmax H. destruct vch as [|b l _] using rev_ind.
  { unfold CScriptNum in H. case_match; [done|]. simpl in H. by simplify_eq. }
  rewrite CScriptNum_snoc in H by done. destruct (_ <? _) eqn:Esz; [done|].
  destruct (_ && _) eqn:Emin; [done|]. injection H as Hv. bool_to_prop.
  destruct (CScriptNum_sign_magnitude l b) as (Habs & Hr & Hsgn); [done | lia |].
  rewrite Hv in *. split; [|done].
  destruct (proj1 (Forall_app _ _ _) Hok) as [Hl Hb]. apply Forall_inv in Hb.
  assert (Hp : 0 < 256 ^ size l) by (pose proof (size_nonneg l); lia).
  assert (Hlv : 0 <= le_value l) by (by apply le_value_bound).
  assert (Hm : 0 <= b mod 128 < 128) by (apply Z.mod_pos_bound; lia).
  destruct (b mod 128 =? 0) eqn:Ebm; bool_to_prop.
  - (* the last byte only carries the sign: the byte before has its top bit set *)
    destruct l as [|t l _] using rev_ind; [done|]. rewrite last_snoc in Emin. cbn [andb] in Emin.
    destruct (proj1 (Forall_app _ _ _) Hl) as [Hl' Ht]. apply Forall_inv in Ht.
    rewrite Ebm, Z.mul_0_r, Z.add_0_r, le_value_app in Habs. cbn [le_value] in Habs.
    change (Z.of_nat (length l)) with (size l) in Habs. bool_to_prop. unfold byte_ok in Ht.
    assert (0 <= le_value l) by (by apply le_value_bound).
    assert (0 < 256 ^ size l) by (pose proof (size_nonneg l); lia).
    assert (value <> 0) by nia. rewrite size_app in Esz.
    rewrite (CScriptNum_serialize_form value l t) by (done || lia || (unfold size in *; simpl in *; lia)).
    rewrite (proj2 (Z.ltb_ge t 128)), Hsgn by done.
    rewrite byte_mod_128 in Ebm by done. do 2 f_equal. by destruct (b <? 128) eqn:Eb; cbn [negb]; f_equal; lia.
  - assert (bytes_ok (l ++ [b mod 128])).
    { apply Forall_app; split; [done|]. by repeat constructor; lia. }
    assert (value <> 0) by nia.
    rewrite (CScriptNum_serialize_form value l (b mod 128)) by
      (done || lia || (unfold size in *; lia)).
    rewrite (proj2 (Z.ltb_lt (b mod 128) 128)), Hsgn, byte_mod_128 by (done || lia).
    do 2 f_equal. destruct (b <? 128) eqn:Eb; cbn [negb]; lia.
Qed.

(** ** Reading scripts: progress, totality, and pushes read back *)

Lemma GetOp2_data_true opcode n pc op data pc' :
  0 <= n -> GetOp2_data opcode n pc = GetOp_true op data pc' -> pc = data ++ pc' /\ op = opcode.
Proof. unfold GetOp2_data. intros. case_match; simplify_eq. by rewrite take_drop. Qed.

(** A successful read consumes a non-empty prefix. *)
Lemma GetOp2_true pc op data pc' :
  bytes_ok pc -> GetOp2 pc = GetOp_true op data pc' ->
  exists pre, pc = op :: pre ++ data ++ pc'.
Proof.
  intros Hok H. destruct pc as [|b pc]; [done|]. inversion Hok as [|?? Hb Hok']; subst.
  unfold GetOp2 in H. unfold byte_ok in Hb.
  assert (Hle : forall k l, bytes_ok l -> 0 <= le_value (take k l)).
  { intros k l Hl. apply le_value_bound, Forall_take, Hl. }
  destruct (b <=? OP_PUSHDATA4); [|by simplify_eq; exists []].
  destruct (b <? OP_PUSHDATA1); [|destruct (b =? OP_PUSHDATA1); [|destruct (b =? OP_PUSHDATA2)]].
  - apply GetOp2_data_true in H as [-> ->]; [by exists []|lia].
  - destruct pc as [|n pc]; [done|]. inversion Hok' as [|?? Hn _]; subst. unfold byte_ok in Hn.
    apply GetOp2_data_true in H as [-> ->]; [by exists [n]|lia].
  - case_match; [done|]. apply GetOp2_data_true in H as [H ->]; [|auto].
    exists (take 2 pc). by rewrite <- H, take_drop.
  - case_match; [done|]. apply GetOp2_data_true in H as [H ->]; [|auto].
    exists (take 4 pc). by rewrite <- H, take_drop.
Qed.

Lemma GetOp2_shorter pc op data pc' :
  GetOp2 pc = GetOp_true op data pc' -> (length pc' < length pc)%nat.
Proof.
  intros H. destruct pc as [|b pc]; [done|]. unfold GetOp2, GetOp2_data in H.
  repeat case_match; simplify_eq; cbn [length]; rewrite ?length_drop; simpl; lia.
Qed.

Lemma GetOp2_ok pc op data pc' :
  bytes_ok pc -> GetOp2 pc = GetOp_true op data pc' -> byte_ok op /\ bytes_ok data /\ bytes_ok pc'.
Proof.
  intros Hok H. destruct (GetOp2_true _ _ _ _ Hok H) as [pre ->].
  inversion Hok as [|?? Hb Hok']; subst. apply Forall_app in Hok' as [_ Hok'].
  by apply Forall_app in Hok' as [? ?].
Qed.

#[export] Hint Resolve GetOp2_shorter : krova.

(** Loops over a script end within one step per byte. *)
Lemma Find_total script op : exists n, Find script op = Some n.
Proof.
  unfold Find. generalize 0. remember (S (length script)) as fuel eqn:E.
  assert (Hf : (length script < fuel)%nat) by lia. clear E. revert script Hf.
  induction fuel as [|fuel IH]; intros pc Hf n; [lia|]. cbn [Find_loop].
  destruct (GetOp2 pc) eqn:E; [eauto|]. apply GetOp2_shorter in E. apply IH. lia.
Qed.

Lemma IsPushOnly_loop_total fuel pc : (length pc < fuel)%nat -> exists b, IsPushOnly_loop fuel pc = Some b.
Proof.
  revert pc. induction fuel as [|fuel IH]; intros pc Hf; [lia|]. cbn [IsPushOnly_loop].
  destruct pc as [|b pc']; [eauto|]. destruct (GetOp2 (b :: pc')) eqn:E; [eauto|].
  apply GetOp2_shorter in E. case_match; [eauto|]. apply IH. simpl in *. lia.
Qed.

Lemma IsPushOnly_total s : exists b, IsPushOnly s = Some b.
Proof. apply IsPushOnly_loop_total. lia. Qed.

Lemma LastPush_loop_total fuel pc data :
  (length pc < fuel)%nat -> exists r, LastPush_loop fuel pc data = Some r.
Proof.
  revert pc data. induction fuel as [|fuel IH]; intros pc data Hf; [lia|]. cbn [LastPush_loop].
  destruct pc as [|b pc']; [eauto|]. destruct (GetOp2 (b :: pc')) eqn:E; [eauto|].
  apply GetOp2_shorter in E. case_match; [eauto|]. apply IH. simpl in *. lia.
Qed.

Lemma push_data_app s b : push_data s b = s ++ push_data [] b.
Proof. unfold push_data. repeat case_match; rewrite <- ?app_assoc; done. Qed.

(** What [operator<<] pushes, the reader returns as one push opcode. *)
Lemma GetOp2_push_data b rest :
  size b < 2 ^ 32 ->
  exists op, GetOp2 (push_data [] b ++ rest) = GetOp_true op b rest /\ 0 <= op <= OP_PUSHDATA4.
Proof.
  intros Hb. pose proof (size_nonneg b). pose proof (size_nonneg rest).
  assert (Hd : forall op, GetOp2_data op (size b) (b ++ rest) = GetOp_true op b rest).
  { intros op. unfold GetOp2_data. rewrite size_app, (proj2 (Z.ltb_ge _ _)) by lia.
    by rewrite to_nat_size, take_app_length, drop_app_length. }
  unfold push_data. cbn [opcode_value]. cbn [app].
  destruct (size b <? 0x4c) eqn:E1; [|destruct (size b <=? 0xff) eqn:E2;
    [|destruct (size b <=? 0xffff) eqn:E3]]; bool_to_prop; rewrite <- ?app_assoc; cbn [app].
  - exists (size b). unfold GetOp2. cbn [opcode_value].
    rewrite (proj2 (Z.leb_le _ _)), (proj2 (Z.ltb_lt _ _)), Hd by lia. split; [done|lia].
  - exists 0x4c. split; [apply Hd|lia].
  - exists 0x4d. split; [|lia].
    change (0x4d :: le_bytes 2 (size b) ++ b ++ rest) with (0x4d :: (le_bytes 2 (size b) ++ (b ++ rest))).
    unfold GetOp2. cbn -[size le_bytes le_value take drop GetOp2_data].
    rewrite size_app. change (size (le_bytes 2 (size b))) with 2. rewrite (proj2 (Z.ltb_ge _ 2)) by (rewrite size_app; lia).
    rewrite (take_app_length' _ _ 2), (drop_app_length' _ _ 2) by done.
    rewrite le_value_bytes, Z.mod_small by (simpl; lia). apply Hd.
  - exists 0x4e. split; [|lia]. unfold GetOp2. cbn -[size le_bytes le_value take drop GetOp2_data].
    rewrite size_app. change (size (le_bytes 4 (size b))) with 4. rewrite (proj2 (Z.ltb_ge _ 4)) by (rewrite size_app; lia).
    rewrite (take_app_length' _ _ 4), (drop_app_length' _ _ 4) by done.
    rewrite le_value_bytes, Z.mod_small by (simpl; lia). apply Hd.
Qed.

(** ** Signature operation counts *)

(** The number of signature operations one opcode adds to the count. *)
Definition sigops_of (fAccurate : bool) (opcode lastOpcode : Z) : Z :=
  if (opcode =? OP_CHECKSIG) || (opcode =? OP_CHECKSIGVERIFY) then 1
  else if (opcode =? OP_CHECKMULTISIG) || (opcode =? OP_CHECKMULTISIGVERIFY) then
    if fAccurate && (OP_1 <=? lastOpcode) && (lastOpcode <=? OP_16) then lastOpcode - (OP_1 - 1)
    else MAX_PUBKEYS_PER_MULTISIG
  else 0.

Lemma sigops_of_bounds opcode lastOpcode :
  0 <= sigops_of true opcode lastOpcode <= sigops_of false opcode lastOpcode
  /\ sigops_of false opcode lastOpcode <= MAX_PUBKEYS_PER_MULTISIG.
Proof.
  unfold sigops_of, MAX_PUBKEYS_PER_MULTISIG in *. cbn [opcode_value] in *.
  repeat case_match; bool_to_prop; lia.
Qed.

Lemma GetSigOpCount_step fuel acc pc last n :
  0 <= n -> n + MAX_PUBKEYS_PER_MULTISIG < 2 ^ 32 ->
  GetSigOpCount_loop (S fuel) acc pc last n =
    match GetOp2 pc with
    | GetOp_false _ => Some n
    | GetOp_true opcode _ pc => GetSigOpCount_loop fuel acc pc opcode (n + sigops_of acc opcode last)
    end.
Proof.
  unfold MAX_PUBKEYS_PER_MULTISIG. intros Hn Hb. cbn [GetSigOpCount_loop].
  destruct (GetOp2 pc) as [|opcode data pc']; [done|]. unfold sigops_of, MAX_PUBKEYS_PER_MULTISIG.
  destruct (_ || _); [cbn [mbind option_bind]; by rewrite uint_id by lia|].
  destruct (_ || _); [|cbn [mbind option_bind]; by rewrite Z.add_0_r].
  destruct (acc && _ && _) eqn:E; [|cbn [mbind option_bind]; by rewrite uint_id by lia].
  apply andb_prop in E as [E1 E2]. unfold DecodeOP_N, assert. bool_to_prop.
  rewrite (proj2 (Z.eqb_neq last OP_0)) by (cbn [opcode_value] in *; lia).
  rewrite !(proj2 (Z.leb_le _ _)) by done. cbn [andb mbind option_bind].
  cbn [opcode_value] in *. by rewrite uint_id by lia.
Qed.

Lemma GetSigOpCount_loop_bounds fuel pc last n m :
  (length pc < fuel)%nat -> 0 <= n <= m -> m + MAX_PUBKEYS_PER_MULTISIG * (size pc + 1) < 2 ^ 32 ->
  exists a f, GetSigOpCount_loop fuel true pc last n = Some a
              /\ GetSigOpCount_loop fuel false pc last m = Some f
              /\ n <= a <= f /\ f <= m + MAX_PUBKEYS_PER_MULTISIG * size pc.
Proof.
  revert pc last n m. induction fuel as [|fuel IH]; intros pc last n m Hf Hn Hb; [lia|].
  pose proof (size_nonneg pc). assert (HM : 0 <= MAX_PUBKEYS_PER_MULTISIG) by done.
  rewrite !GetSigOpCount_step by nia.
  destruct (GetOp2 pc) as [|opcode data pc'] eqn:E.
  { exists n, m. split_and!; (done || nia). }
  apply GetOp2_shorter in E. destruct (sigops_of_bounds opcode last) as [H1 H2].
  assert (size pc' + 1 <= size pc) by (unfold size; lia).
  destruct (IH pc' opcode (n + sigops_of true opcode last) (m + sigops_of false opcode last))
    as (a & f & Ha & Hf' & Hle & Hub); [lia | nia | nia |].
  exists a, f. split_and!; (done || nia).
Qed.

(** ** FindAndDelete *)

Lemma FindAndDelete_skip_spec fuel b pc n :
  b <> [] -> (length pc < fuel)%nat ->
  exists pc' k, FindAndDelete_skip fuel b pc n = Some (pc', n + k)
    /\ 0 <= k /\ size pc' = size pc - k * size b /\ (k = 0 -> pc' = pc)
    /\ b <> take (length b) pc'.
Proof.
  intros Hb. revert pc n. induction fuel as [|fuel IH]; intros pc n Hf; [lia|].
  cbn [FindAndDelete_skip]. case_bool_decide as E.
  - assert (Hlen : (length b <= length pc)%nat).
    { rewrite E, length_take. lia. }
    assert (0 < length b)%nat by (destruct b; [done | simpl; lia]).
    destruct (IH (drop (length b) pc) (n + 1)) as (pc' & k & -> & Hk & Hsz & _ & Hd).
    { rewrite length_drop. lia. }
    exists pc', (k + 1). split_and!; [f_equal; f_equal; lia | lia | | lia | done].
    rewrite Hsz. unfold size. rewrite length_drop. lia.
  - exists pc, 0. split_and!; [f_equal; f_equal; lia | lia | lia | done | done].
Qed.

Lemma FindAndDelete_loop_spec fuel b pc2 pc result n :
  b <> [] -> (length pc < fuel)%nat -> (length pc <= length pc2)%nat ->
  exists r pc' k, FindAndDelete_loop fuel b pc2 pc result n = Some (r, pc', n + k)
    /\ 0 <= k /\ size r + size pc' = size result + size pc2 - k * size b.
Proof.
  intros Hb. revert pc2 pc result n. induction fuel as [|fuel IH]; intros pc2 pc result n Hf Hle; [lia|].
  cbn [FindAndDelete_loop].
  destruct (FindAndDelete_skip_spec (S (length pc)) b pc n) as (pcs & k & -> & Hk & Hsz & _); [done|lia|].
  cbn [mbind option_bind].
  assert (Hsz0 : size (result ++ take (length pc2 - length pc) pc2) = size result + size pc2 - size pc).
  { rewrite size_app. unfold size. rewrite length_take. lia. }
  destruct (GetOp2 pcs) as [|op data pc'] eqn:E.
  { exists (result ++ take (length pc2 - length pc) pc2), pcs, k. split_and!; [done|lia|lia]. }
  apply GetOp2_shorter in E. pose proof (size_nonneg b).
  assert (length pcs <= length pc)%nat by (unfold size in *; nia).
  destruct (IH pcs pc' (result ++ take (length pc2 - length pc) pc2) (n + k))
    as (r & pcr & k' & -> & Hk' & Hsz'); [lia | lia |].
  exists r, pcr, (k + k'). split_and!; [f_equal; f_equal; lia | lia | lia].
Qed.

Lemma FindAndDelete_total script b : exists n script', FindAndDelete script b = Some (n, script').
Proof.
  unfold FindAndDelete. destruct b as [|x b]; [eauto|].
  destruct (FindAndDelete_loop_spec (S (length script)) (x :: b) script script [] 0)
    as (r & pc' & k & -> & _); [done | lia | lia |]. cbn [mbind option_bind]. eauto.
Qed.

(** ** Sizes of script numbers *)

Lemma length_serialize_loop fuel a : (length (serialize_loop fuel a) <= fuel)%nat.
Proof. revert a. induction fuel as [|fuel IH]; intros a; cbn [serialize_loop]; [done|].
  case_match; [simpl; lia | cbn [length]; specialize (IH (Z.shiftr a 8)); lia]. Qed.

Lemma length_update_back l f : length (update_back l f) = length l.
Proof.
  unfold update_back. pose proof (length_reverse l) as H. rewrite <- H.
  destruct (reverse l); [done|]. by rewrite length_reverse.
Qed.

Lemma CScriptNum_serialize_size value : size (CScriptNum_serialize value) <= 9.
Proof.
  unfold CScriptNum_serialize, size. case_match; [simpl; lia|]. cbn zeta.
  set (a := if value <? 0 then _ else _). pose proof (length_serialize_loop 8 a) as Hlen.
  generalize dependent (serialize_loop 8 a). intros r Hlen.
  repeat case_match; rewrite ?length_app, ?length_update_back; simpl length; lia.
Qed.

(** A number of [nMax] bytes has [8 * nMax - 1] bits of magnitude. *)
Lemma CScriptNum_range vch m nMax value :
  bytes_ok vch -> 1 <= nMax -> CScriptNum vch m nMax = Some value -> Z.abs value < 256 ^ (nMax - 1) * 128.
Proof.
  intros Hok Hn H. unfold CScriptNum in H. destruct (_ <? size vch) eqn:E; [done|].
  destruct (_ && _); [done|]. injection H as <-. bool_to_prop.
  assert (Hp : 0 < 256 ^ (nMax - 1)) by (apply Z.pow_pos_nonneg; lia).
  destruct vch as [|b l _] using rev_ind; [simpl; lia|].
  rewrite set_vch_snoc by done. rewrite size_app in E. change (size [b]) with 1 in E.
  destruct (proj1 (Forall_app _ _ _) Hok) as [Hl Hb]. apply Forall_inv in Hb.
  apply le_value_bound in Hl. change (Z.of_nat (length l)) with (size l) in Hl. unfold byte_ok in Hb.
  assert (256 ^ size l <= 256 ^ (nMax - 1)) by (apply Z.pow_le_mono_r; lia).
  destruct (b <? 128) eqn:Eb; bool_to_prop; nia.
Qed.

(** ** Properties *)

(** Script numbers: [serialize] and the minimal decoder are inverse
    bijections between the values of magnitude at most 2^63 - 1 and the
    minimal encodings of at most 8 bytes. *)
Theorem scriptnum_bijection value vch nMax :
  (Z.abs value <= INT64_MAX -> size (CScriptNum_serialize value) <= nMax ->
     bytes_ok (CScriptNum_serialize value) /\
     CScriptNum (CScriptNum_serialize value) true nMax = Some value) /\
  (bytes_ok vch -> nMax <= 8 -> CScriptNum vch true nMax = Some value ->
     CScriptNum_serialize value = vch /\ Z.abs value <= INT64_MAX).
Proof. split; [apply CScriptNum_serialize_ok | apply CScriptNum_minimal_unique]. Qed.

Lemma scriptnum_bijection_witness :
  CScriptNum (CScriptNum_serialize (-255)) true 4 = Some (-255) /\ CScriptNum_serialize (-255) = [0xff; 0x80].
Proof.
  split.
  - apply (proj1 (scriptnum_bijection (-255) [] 4)); vm_compute; discriminate.
  - apply (proj2 (scriptnum_bijection (-255) [0xff; 0x80] 4));
      [repeat constructor; vm_compute; (reflexivity || discriminate) | vm_compute; discriminate | reflexivity].
Defined.

(** Data pushed with [operator<<] is read back by [GetOp] as a single
    push of the same bytes, at every size the push opcodes distinguish, and
    the reader stops exactly at the end of the push. *)
Theorem push_read_back s b rest :
  size b < 2 ^ 32 ->
  exists code op, push_data s b = s ++ code /\ GetOp2 (code ++ rest) = GetOp_true op b rest
                  /\ 0 <= op <= OP_PUSHDATA4.
Proof.
  intros Hb. destruct (GetOp2_push_data b rest Hb) as (op & H & Hop).
  exists (push_data [] b), op. split_and!; [apply push_data_app | done | lia | lia].
Qed.

Lemma push_read_back_witness :
  exists code op, push_data [1] (replicate 300 9) = [1] ++ code
    /\ GetOp2 (code ++ [5]) = GetOp_true op (replicate 300 9) [5] /\ 0 <= op <= OP_PUSHDATA4.
Proof. apply (push_read_back [1] (replicate 300 9) [5]). vm_compute. reflexivity. Defined.

(** Signature-operation counting terminates, never fails an assertion
    and never wraps on scripts below 200 million bytes: the accurate count is
    at most the inaccurate one, which is at most 20 per byte. *)
Theorem sigops_bounds s :
  size s <= 200000000 ->
  exists a f, GetSigOpCount s true = Some a /\ GetSigOpCount s false = Some f
              /\ 0 <= a <= f /\ f <= MAX_PUBKEYS_PER_MULTISIG * size s.
Proof.
  intros Hs. unfold GetSigOpCount.
  destruct (GetSigOpCount_loop_bounds (S (length s)) s OP_INVALIDOPCODE 0 0) as (a & f & H1 & H2 & H3 & H4);
    [lia | lia | unfold MAX_PUBKEYS_PER_MULTISIG; lia |].
  exists a, f. split_and!; try done; lia.
Qed.

Lemma sigops_bounds_witness :
  exists a f, GetSigOpCount [OP_2 : Z; OP_CHECKMULTISIG : Z; OP_CHECKSIG : Z] true = Some a
    /\ GetSigOpCount [OP_2 : Z; OP_CHECKMULTISIG : Z; OP_CHECKSIG : Z] false = Some f
    /\ 0 <= a <= f /\ f <= MAX_PUBKEYS_PER_MULTISIG * size [OP_2 : Z; OP_CHECKMULTISIG : Z; OP_CHECKSIG : Z].
Proof. apply (sigops_bounds [OP_2 : Z; OP_CHECKMULTISIG : Z; OP_CHECKSIG : Z]). vm_compute. discriminate. Defined.

(** [FindAndDelete] terminates on every script and pattern; it returns
    the number [n] of deleted occurrences and shortens the script by exactly
    [n] times the pattern's length, leaving it unchanged when [n] is 0. *)
Theorem FindAndDelete_spec script b :
  exists n script', FindAndDelete script b = Some (n, script')
    /\ 0 <= n /\ size script' = size script - n * size b /\ (n = 0 -> script' = script).
Proof.
  unfold FindAndDelete. destruct b as [|x b].
  { exists 0, script. split_and!; (done || lia). }
  destruct (FindAndDelete_loop_spec (S (length script)) (x :: b) script script [] 0)
    as (r & pc' & k & -> & Hk & Hsz); [done | lia | lia |].
  cbn [mbind option_bind]. rewrite Z.add_0_l in *. change (size (@nil Z)) with 0 in Hsz.
  exists k, (if 0 <? k then r ++ pc' else script). split_and!; [done | lia | |].
  - destruct (0 <? k) eqn:E; bool_to_prop; [rewrite size_app; lia|].
    assert (k = 0) as -> by lia. lia.
  - intros ->. done.
Qed.
