(* ===== verification/Standard.v ===== *)
(** * Standard scripts

    script/standard.{h,cpp} and the size rules of pubkey.h: recognising the
    standard output templates, extracting destinations, and building the
    scripts that pay to them.  A 160-bit identifier is its 20 bytes. *)

From S2P Require Import Prelude Crypto Script.

Local Open Scope krova_scope.

(** ** CPubKey sizes *)

Definition PUBLIC_KEY_SIZE : Z := 65.
Definition COMPRESSED_PUBLIC_KEY_SIZE : Z := 33.

Definition GetLen (chHeader : Z) : Z :=
  if (chHeader =? 2) || (chHeader =? 3) then COMPRESSED_PUBLIC_KEY_SIZE
  else if (chHeader =? 4) || (chHeader =? 6) || (chHeader =? 7) then PUBLIC_KEY_SIZE
  else 0.

Definition ValidSize (vch : bytes) : bool :=
  match vch with [] => false | h :: _ => GetLen h =? size vch end.

(** [CPubKey(vch)]: [None] is the invalidated key. *)
Definition CPubKey (vch : bytes) : option bytes :=
  let len := match vch with [] => 0 | h :: _ => GetLen h end in
  if negb (len =? 0) && (len =? size vch) then Some vch else None.

(** ** Templates *)

Inductive txnouttype :=
| TX_NONSTANDARD | TX_PUBKEY | TX_PUBKEYHASH | TX_SCRIPTHASH
| TX_MULTISIG | TX_NULL_DATA | TX_COLDSTAKE | TX_EXCHANGEADDR.

Inductive CTxDestination :=
| CNoDestination
| CKeyID (id : bytes)
| CScriptID (id : bytes)
| CExchangeKeyID (id : bytes).

(** [valtype(begin + i, begin + j)] *)
Definition range (s : bytes) (i j : nat) : bytes := take (j - i) (drop i s).

Definition MatchPayToPubkey (script : CScript) : option bytes :=
  if (size script =? PUBLIC_KEY_SIZE + 2) && (at_ script 0 =? PUBLIC_KEY_SIZE)
     && (vch_back script =? OP_CHECKSIG) then
    let pubkey := range script 1 66 in if ValidSize pubkey then Some pubkey else None
  else if (size script =? COMPRESSED_PUBLIC_KEY_SIZE + 2) && (at_ script 0 =? COMPRESSED_PUBLIC_KEY_SIZE)
     && (vch_back script =? OP_CHECKSIG) then
    let pubkey := range script 1 34 in if ValidSize pubkey then Some pubkey else None
  else None.

Definition MatchPayToPubkeyHash (script : CScript) : option bytes :=
  if (size script =? 25) && (at_ script 0 =? OP_DUP) && (at_ script 1 =? OP_HASH160)
     && (at_ script 2 =? 20) && (at_ script 23 =? OP_EQUALVERIFY) && (at_ script 24 =? OP_CHECKSIG)
  then Some (range script 3 23) else None.

Definition MatchPayToColdStaking (script : CScript) : option (bytes * bytes) :=
  if IsPayToColdStaking script then Some (range script 6 26, range script 28 48) else None.

Definition IsSmallInteger (opcode : Z) : bool := (OP_1 <=? opcode) && (opcode <=? OP_16).

(** The [while] of [MatchMultisig]: the opcode that ended it, the keys, and
    the iterator. *)
Fixpoint MatchMultisig_keys (fuel : nat) (it : bytes) (pubkeys : list bytes)
  : option (Z * list bytes * bytes) :=
  match fuel with
  | O => None
  | S fuel =>
      match GetOp2 it with
      | GetOp_false it => Some (OP_INVALIDOPCODE : Z, pubkeys, it)
      | GetOp_true opcode data it =>
          if ValidSize data then MatchMultisig_keys fuel it (pubkeys ++ [data])
          else Some (opcode, pubkeys, it)
      end
  end.

(** [Some None] is [return false]. *)
Definition MatchMultisig (script : CScript) : option (option (Z * list bytes)) :=
  if (size script <? 1) || negb (vch_back script =? OP_CHECKMULTISIG) then Some None
  else
    match GetOp2 script with
    | GetOp_false _ => Some None
    | GetOp_true opcode _ it =>
        if negb (IsSmallInteger opcode) then Some None
        else
          required ← DecodeOP_N opcode;
          '(opcode, pubkeys, it) ← MatchMultisig_keys (S (length it)) it [];
          if negb (IsSmallInteger opcode) then Some None
          else
            keys ← DecodeOP_N opcode;
            if negb (size pubkeys =? keys) || (keys <? required) then Some None
            else Some (if size it =? 1 then Some (required, pubkeys) else None)
    end.

(** [Some None] is [return false], a non-standard script. *)
Definition Solver (scriptPubKey : CScript) : option (option (txnouttype * list bytes)) :=
  match scriptPubKey with
  | [] => Some None
  | first :: rest =>
      if IsPayToScriptHash scriptPubKey then Some (Some (TX_SCRIPTHASH, [range scriptPubKey 2 22]))
      else
        pushOnly ← IsPushOnly rest;
        if (first =? OP_RETURN) && (pushOnly : bool) then Some (Some (TX_NULL_DATA, []))
        else
          match MatchPayToPubkey scriptPubKey with
          | Some data => Some (Some (TX_PUBKEY, [data]))
          | None =>
          match MatchPayToPubkeyHash scriptPubKey with
          | Some data => Some (Some (TX_PUBKEYHASH, [data]))
          | None =>
          if IsPayToExchangeAddress scriptPubKey
          then Some (Some (TX_EXCHANGEADDR, [range scriptPubKey 4 24]))
          else
          match MatchPayToColdStaking scriptPubKey with
          | Some (data, data1) => Some (Some (TX_COLDSTAKE, [data; data1]))
          | None =>
              multi ← MatchMultisig scriptPubKey;
              Some (match multi with
                    | Some (required, keys) =>
                        Some (TX_MULTISIG, [u8 required] :: keys ++ [[u8 (size keys)]])
                    | None => None
                    end)
          end end end
  end.

(** [vSolutions[i]] *)
Definition solution (sols : list bytes) (i : nat) : bytes := nth i sols [].

Definition ExtractDestination `{HashFunctions} (scriptPubKey : CScript) (fColdStake : bool)
  : option (option CTxDestination) :=
  solved ← Solver scriptPubKey;
  Some (match solved with
        | None => None
        | Some (whichType, vSolutions) =>
            match whichType with
            | TX_PUBKEY =>
                match CPubKey (solution vSolutions 0) with
                | None => None
                | Some pubKey => Some (CKeyID (Hash160 pubKey))
                end
            | TX_PUBKEYHASH => Some (CKeyID (solution vSolutions 0))
            | TX_SCRIPTHASH => Some (CScriptID (solution vSolutions 0))
            | TX_EXCHANGEADDR => Some (CExchangeKeyID (solution vSolutions 0))
            | TX_COLDSTAKE => Some (CKeyID (solution vSolutions (if fColdStake then 0 else 1)))
            | _ => None
            end
        end).

(** ** Building scripts *)

Definition GetScriptForDestination (dest : CTxDestination) : CScript :=
  match dest with
  | CNoDestination => []
  | CKeyID keyID => [] <<op OP_DUP <<op OP_HASH160 <<data keyID <<op OP_EQUALVERIFY <<op OP_CHECKSIG
  | CExchangeKeyID keyID =>
      [] <<op OP_EXCHANGEADDR <<op OP_DUP <<op OP_HASH160 <<data keyID <<op OP_EQUALVERIFY <<op OP_CHECKSIG
  | CScriptID scriptID => [] <<op OP_HASH160 <<data scriptID <<op OP_EQUAL
  end.

Definition GetScriptForRawPubKey (pubKey : bytes) : CScript := [] <<data pubKey <<op OP_CHECKSIG.

Definition GetScriptForStakeDelegation (stakingKey spendingKey : bytes) : CScript :=
  [] <<op OP_DUP <<op OP_HASH160 <<op OP_ROT
     <<op OP_IF <<op OP_CHECKCOLDSTAKEVERIFY <<data stakingKey
     <<op OP_ELSE <<data spendingKey <<op OP_ENDIF
     <<op OP_EQUALVERIFY <<op OP_CHECKSIG.

Definition GetScriptForStakeDelegationLOF (stakingKey spendingKey : bytes) : CScript :=
  [] <<op OP_DUP <<op OP_HASH160 <<op OP_ROT
     <<op OP_IF <<op OP_CHECKCOLDSTAKEVERIFY_LOF <<data stakingKey
     <<op OP_ELSE <<data spendingKey <<op OP_ENDIF
     <<op OP_EQUALVERIFY <<op OP_CHECKSIG.

Definition GetScriptForMultisig (nRequired : Z) (keys : list bytes) : option CScript :=
  m ← EncodeOP_N nRequired;
  n ← EncodeOP_N (size keys);
  Some (foldl push_data ([] <<op m) keys <<op n <<op OP_CHECKMULTISIG).

Definition GetScriptForOpReturn (message : bytes) : CScript := [] <<op OP_RETURN <<data message.

(** ** Lemmas *)

(** A list of known length, element by element. *)
Ltac destruct_list l H :=
  lazymatch type of H with
  | length l = O => destruct l; [clear H | discriminate H]
  | length l = S _ =>
      let x := fresh "b" in let l' := fresh "l" in
      destruct l as [|x l']; [discriminate H|]; cbn [length] in H; apply Nat.succ_inj in H; destruct_list l' H
  end.

Lemma size_length {A} (l : list A) n : (size l =? Z.of_nat n) = true -> length l = n.
Proof. unfold size. intros. bool_to_prop. lia. Qed.

(** Both directions of a template: the builder's scripts are exactly the
    recognised ones. *)
Lemma IsPayToPublicKeyHash_iff s :
  IsPayToPublicKeyHash s = true <->
  exists id, length id = 20%nat /\ s = GetScriptForDestination (CKeyID id).
Proof.
  split.
  - unfold IsPayToPublicKeyHash. intros H. bool_to_prop.
    assert (Hlen : length s = 25%nat) by (unfold size in *; lia). destruct_list s Hlen.
    unfold at_ in *. cbn [nth] in *. subst. eexists [_;_;_;_;_;_;_;_;_;_;_;_;_;_;_;_;_;_;_;_]. done.
  - intros (id & Hid & ->). destruct_list id Hid. done.
Qed.

Lemma IsPayToScriptHash_iff s :
  IsPayToScriptHash s = true <->
  exists id, length id = 20%nat /\ s = GetScriptForDestination (CScriptID id).
Proof.
  split.
  - unfold IsPayToScriptHash. intros H. bool_to_prop.
    assert (Hlen : length s = 23%nat) by (unfold size in *; lia). destruct_list s Hlen.
    unfold at_ in *. cbn [nth] in *. subst. eexists [_;_;_;_;_;_;_;_;_;_;_;_;_;_;_;_;_;_;_;_]. done.
  - intros (id & Hid & ->). destruct_list id Hid. done.
Qed.

Lemma IsPayToColdStaking_iff s :
  IsPayToColdStaking s = true <->
  exists staker owner, length staker = 20%nat /\ length owner = 20%nat /\
    (s = GetScriptForStakeDelegation staker owner \/ s = GetScriptForStakeDelegationLOF staker owner).
Proof.
  split.
  - unfold IsPayToColdStaking. intros H. bool_to_prop.
    assert (Hlen : length s = 51%nat) by (unfold size in *; lia). destruct_list s Hlen.
    unfold at_ in *. cbn [nth] in *.
    match goal with H : (_ || _) = true |- _ => apply orb_prop in H; destruct H end; bool_to_prop; subst;
      eexists [_;_;_;_;_;_;_;_;_;_;_;_;_;_;_;_;_;_;_;_], [_;_;_;_;_;_;_;_;_;_;_;_;_;_;_;_;_;_;_;_];
      (split_and!; [done | done | by (left + right)]).
  - intros (staker & owner & Hs & Ho & [-> | ->]); destruct_list staker Hs; destruct_list owner Ho; done.
Qed.

(** ** Destinations survive the trip through a script *)

Definition dest_ok (d : CTxDestination) : Prop :=
  match d with
  | CNoDestination => False
  | CKeyID id | CScriptID id | CExchangeKeyID id => length id = 20%nat
  end.

Lemma ExtractDestination_GetScript `{HashFunctions} d cold :
  dest_ok d -> ExtractDestination (GetScriptForDestination d) cold = Some (Some d).
Proof.
  destruct d as [|id|id|id]; cbn [dest_ok]; intros Hid; try done; destruct_list id Hid;
    unfold ExtractDestination, GetScriptForDestination, push_op, push_data; simpl size; cbn -[Solver];
    unfold Solver;
    try (match goal with |- context [IsPushOnly ?r] => destruct (IsPushOnly_total r) as [? ->] end);
    reflexivity.
Qed.

(** ** Multisig scripts *)

Lemma ValidSize_size key : ValidSize key = true -> size key = 33 \/ size key = 65.
Proof.
  destruct key as [|h key]; [done|]. unfold ValidSize, GetLen, COMPRESSED_PUBLIC_KEY_SIZE, PUBLIC_KEY_SIZE.
  pose proof (size_nonneg key). rewrite size_cons. repeat case_match; intros; bool_to_prop; lia.
Qed.

Lemma foldl_push_data acc keys : foldl push_data acc keys = acc ++ concat (map (push_data []) keys).
Proof.
  revert acc. induction keys as [|k keys IH]; intros acc; cbn [foldl map concat].
  - by rewrite app_nil_r.
  - by rewrite IH, push_data_app, app_assoc.
Qed.

Lemma DecodeOP_N_small op : IsSmallInteger op = true -> DecodeOP_N op = Some (op - (OP_1 - 1)).
Proof.
  unfold IsSmallInteger, DecodeOP_N. intros E. rewrite E. destruct (Z.eqb_spec op OP_0) as [->|]; [done|]. reflexivity.
Qed.

Lemma MatchMultisig_keys_total fuel : forall it pubkeys, (length it < fuel)%nat -> is_Some (MatchMultisig_keys fuel it pubkeys).
Proof.
  induction fuel as [|fuel IH]; intros it pubkeys L; [lia|]. cbn [MatchMultisig_keys].
  destruct (GetOp2 it) as [|op data it'] eqn:G; [by eexists|]. apply GetOp2_shorter in G. destruct (ValidSize data); [apply IH; lia|by eexists].
Qed.

(** [Solver] never fails the assertion of [DecodeOP_N]. *)
Lemma Solver_total script : exists r, Solver script = Some r.
Proof.
  unfold Solver. destruct script as [|first rest]; [by eexists|]. destruct (IsPayToScriptHash _); [by eexists|].
  destruct (IsPushOnly_total rest) as [po ->]. cbn [mbind option_bind]. destruct (_ && po); [by eexists|].
  destruct (MatchPayToPubkey _); [by eexists|]. destruct (MatchPayToPubkeyHash _); [by eexists|].
  destruct (IsPayToExchangeAddress _); [by eexists|]. destruct (MatchPayToColdStaking _) as [[]|]; [by eexists|].
  assert (M : exists m, MatchMultisig (first :: rest) = Some m); [|destruct M as [m ->]; by eexists].
  unfold MatchMultisig. destruct (_ || _); [by eexists|]. destruct (GetOp2 _) as [|op data it]; [by eexists|].
  destruct (IsSmallInteger op) eqn:S; [|by eexists]. cbn [negb]. rewrite (DecodeOP_N_small op S). cbn [mbind option_bind].
  destruct (MatchMultisig_keys_total (Datatypes.S (length it)) it []) as [[[op' keys] it'] ->]; [lia|]. cbn [mbind option_bind].
  destruct (IsSmallInteger op') eqn:S'; [|by eexists]. cbn [negb]. rewrite (DecodeOP_N_small op' S'). cbn [mbind option_bind].
  destruct (_ || _); by eexists.
Qed.

Lemma GetOp2_small op rest : IsSmallInteger op = true -> GetOp2 (op :: rest) = GetOp_true op [] rest.
Proof.
  unfold IsSmallInteger, GetOp2. cbn [opcode_value]. intros. bool_to_prop.
  by rewrite (proj2 (Z.leb_gt op _)) by lia.
Qed.

Lemma MatchMultisig_keys_spec fuel keys acc op rest :
  Forall (fun k => ValidSize k = true) keys -> IsSmallInteger op = true -> (length keys < fuel)%nat ->
  MatchMultisig_keys fuel (concat (map (push_data []) keys) ++ op :: rest) acc
  = Some (op, acc ++ keys, rest).
Proof.
  intros Hk Hop. revert fuel acc. induction Hk as [|k keys Hk _ IH]; intros fuel acc Hf;
    (destruct fuel as [|fuel]; [simpl in Hf; lia|]); cbn [map concat app MatchMultisig_keys].
  - by rewrite GetOp2_small, app_nil_r by done.
  - rewrite <- app_assoc. destruct (GetOp2_push_data k (concat (map (push_data []) keys) ++ op :: rest))
      as (o & -> & _); [pose proof (ValidSize_size k Hk); lia|].
    rewrite Hk, IH by (simpl in Hf; lia). by rewrite <- app_assoc.
Qed.

Lemma EncodeOP_N_small n :
  1 <= n <= 16 -> exists op, EncodeOP_N n = Some op /\ IsSmallInteger op = true
                             /\ DecodeOP_N op = Some n /\ u8 op = op /\ op <> (OP_RETURN : Z).
Proof.
  intros Hn. exists (OP_1 + n - 1).
  unfold EncodeOP_N, DecodeOP_N, IsSmallInteger, assert. cbn [opcode_value].
  rewrite !(proj2 (Z.leb_le _ _)) by lia. cbn [andb].
  rewrite !(proj2 (Z.eqb_neq _ 0)) by lia. split_and!; try done.
  - f_equal. lia.
  - apply uint_id. lia.
  - lia.
Qed.

Lemma keys_size keys :
  Forall (fun k => ValidSize k = true) keys ->
  let sz := size (concat (map (push_data []) keys)) in
  34 * size keys <= sz /\ (size keys = 1 -> sz = 34 \/ sz = 66).
Proof.
  induction 1 as [|k keys Hk Hks IH]; cbn zeta in *; cbn [map concat]; [by split|].
  pose proof (ValidSize_size k Hk) as Hsz. rewrite size_cons, size_app.
  assert (size (push_data [] k) = size k + 1).
  { unfold push_data. cbn [opcode_value]. rewrite (proj2 (Z.ltb_lt _ _)), app_nil_l, size_app by lia.
    change (size [size k]) with 1. lia. }
  split; [lia|]. intros. destruct keys; [simpl in *; change (size (@nil Z)) with 0 in *; lia|].
  rewrite size_cons in *. pose proof (size_nonneg keys). lia.
Qed.

Lemma GetScriptForMultisig_form m keys :
  1 <= m <= 16 -> 1 <= size keys <= 16 ->
  exists mop nop : Z, GetScriptForMultisig m keys =
      Some (mop :: concat (map (push_data []) keys) ++ [nop; OP_CHECKMULTISIG : Z])
    /\ IsSmallInteger mop = true /\ DecodeOP_N mop = Some m /\ mop <> (OP_RETURN : Z)
    /\ IsSmallInteger nop = true /\ DecodeOP_N nop = Some (size keys).
Proof.
  intros Hm Hn. unfold GetScriptForMultisig.
  destruct (EncodeOP_N_small m Hm) as (mop & -> & Hms & Hmd & Hmu & Hmr).
  destruct (EncodeOP_N_small (size keys) Hn) as (nop & -> & Hns & Hnd & Hnu & _).
  cbn [mbind option_bind]. exists mop, nop. split_and!; try done.
  rewrite foldl_push_data. unfold push_op. rewrite Hmu, Hnu. cbn [app]. rewrite <- !app_assoc. done.
Qed.

Lemma MatchMultisig_built m keys (mop nop : Z) :
  m <= size keys -> Forall (fun k => ValidSize k = true) keys ->
  IsSmallInteger mop = true -> DecodeOP_N mop = Some m ->
  IsSmallInteger nop = true -> DecodeOP_N nop = Some (size keys) ->
  MatchMultisig (mop :: concat (map (push_data []) keys) ++ [nop; OP_CHECKMULTISIG : Z])
  = Some (Some (m, keys)).
Proof.
  intros Hmn Hk Hms Hmd Hns Hnd. unfold MatchMultisig.
  assert (Hback : vch_back (mop :: concat (map (push_data []) keys) ++ [nop; OP_CHECKMULTISIG : Z]) = (OP_CHECKMULTISIG : Z)).
  { change [nop; OP_CHECKMULTISIG : Z] with ([nop] ++ [OP_CHECKMULTISIG : Z]).
    rewrite app_assoc, app_comm_cons. apply vch_back_snoc. }
  rewrite Hback, size_cons, (proj2 (Z.ltb_ge _ 1)) by (pose proof (size_nonneg (concat (map (push_data []) keys) ++ [nop; OP_CHECKMULTISIG : Z])); lia).
  cbn [orb negb Z.eqb opcode_value Pos.eqb]. rewrite GetOp2_small, Hms by done. cbn [negb].
  rewrite Hmd. cbn [mbind option_bind].
  rewrite MatchMultisig_keys_spec; [|done|done|].
  - cbn [mbind option_bind app]. rewrite Hns. cbn [negb]. rewrite Hnd. cbn [mbind option_bind].
    rewrite Z.eqb_refl, (proj2 (Z.ltb_ge _ _)) by done. done.
  - rewrite length_app. apply keys_size in Hk. unfold size in Hk. simpl. lia.
Qed.

(** Building a multisig script and solving it returns the keys and threshold. *)
Lemma Solver_GetScriptForMultisig m keys :
  1 <= m <= size keys -> size keys <= 16 -> Forall (fun k => ValidSize k = true) keys ->
  exists script, GetScriptForMultisig m keys = Some script /\
    Solver script = Some (Some (TX_MULTISIG, [m] :: keys ++ [[size keys]])).
Proof.
  intros Hm Hn Hk.
  destruct (GetScriptForMultisig_form m keys) as (mop & nop & -> & Hms & Hmd & Hmr & Hns & Hnd); [lia|lia|].
  eexists. split; [done|].
  pose proof (MatchMultisig_built m keys mop nop ltac:(lia) Hk Hms Hmd Hns Hnd) as HM.
  set (script := mop :: _) in *.
  assert (Hsz : size script = 37 \/ size script = 69 \/ 71 <= size script).
  { unfold script. rewrite size_cons, size_app. change (size [nop; OP_CHECKMULTISIG : Z]) with 2.
    destruct (keys_size keys Hk) as [H1 H2]. cbn zeta in *.
    destruct (Z.eq_dec (size keys) 1) as [E|E]; [destruct (H2 E); lia | lia]. }
  assert (Hne : forall n, n <> 37 -> n <> 69 -> n < 71 -> (size script =? n) = false)
    by (intros; apply Z.eqb_neq; lia).
  unfold Solver, IsPayToScriptHash, MatchPayToPubkey, MatchPayToPubkeyHash, IsPayToExchangeAddress,
    MatchPayToColdStaking, IsPayToColdStaking, PUBLIC_KEY_SIZE, COMPRESSED_PUBLIC_KEY_SIZE.
  rewrite !Hne by lia. rewrite HM. unfold script at 1.
  destruct (IsPushOnly_total (concat (map (push_data []) keys) ++ [nop; OP_CHECKMULTISIG : Z])) as [po ->].
  cbn [mbind option_bind andb]. rewrite (proj2 (Z.eqb_neq _ _) Hmr). cbn [andb].
  rewrite !uint_id by lia. done.
Qed.

(** ** Properties *)

(** Destinations and scripts: the script built for a key hash, an
    exchange key hash or a script hash is recognised, and the destination
    extracted from it is the original one. *)
Theorem destination_roundtrip `{HashFunctions} d cold :
  dest_ok d -> ExtractDestination (GetScriptForDestination d) cold = Some (Some d).
Proof. apply ExtractDestination_GetScript. Qed.

Lemma destination_roundtrip_witness :
  ExtractDestination (H := checksum_hashes) (GetScriptForDestination (CExchangeKeyID (replicate 20 7))) false
  = Some (Some (CExchangeKeyID (replicate 20 7))).
Proof. apply destination_roundtrip. reflexivity. Defined.

(** The byte-offset templates are exact: a script passes
    [IsPayToPublicKeyHash], [IsPayToScriptHash] or [IsPayToColdStaking] if and
    only if it is the script that [GetScriptForDestination] or
    [GetScriptForStakeDelegation] (with or without "last output free") builds
    for some 20-byte hashes. *)
Theorem templates_exact s :
  (IsPayToPublicKeyHash s = true <->
     exists id, length id = 20%nat /\ s = GetScriptForDestination (CKeyID id)) /\
  (IsPayToScriptHash s = true <->
     exists id, length id = 20%nat /\ s = GetScriptForDestination (CScriptID id)) /\
  (IsPayToColdStaking s = true <->
     exists staker owner, length staker = 20%nat /\ length owner = 20%nat /\
       (s = GetScriptForStakeDelegation staker owner \/ s = GetScriptForStakeDelegationLOF staker owner)).
Proof.
  split_and!; [apply IsPayToPublicKeyHash_iff | apply IsPayToScriptHash_iff | apply IsPayToColdStaking_iff].
Qed.

(** Multisig round trip: for 1 to 16 well-formed keys and a threshold
    between 1 and their number, [GetScriptForMultisig] succeeds and [Solver]
    classifies the script as TX_MULTISIG with the threshold, the keys in
    order, and their number. *)
Theorem multisig_roundtrip m keys :
  1 <= m <= size keys -> size keys <= 16 -> Forall (fun k => ValidSize k = true) keys ->
  exists script, GetScriptForMultisig m keys = Some script /\
    Solver script = Some (Some (TX_MULTISIG, [m] :: keys ++ [[size keys]])).
Proof. apply Solver_GetScriptForMultisig. Qed.

Lemma multisig_roundtrip_witness :
  exists script, GetScriptForMultisig 2 [2 :: replicate 32 1; 3 :: replicate 32 2; 4 :: replicate 64 3] = Some script /\
    Solver script = Some (Some (TX_MULTISIG, [2] ::
      [2 :: replicate 32 1; 3 :: replicate 32 2; 4 :: replicate 64 3] ++ [[3]])).
Proof.
  apply (multisig_roundtrip 2 [2 :: replicate 32 1; 3 :: replicate 32 2; 4 :: replicate 64 3]).
  - vm_compute. split; discriminate.
  - vm_compute. discriminate.
  - repeat constructor.
Defined.
