(* ===== verification/Transaction.v ===== *)
(** * Transactions and blocks

    primitives/transaction.{h,cpp}, primitives/block.{h,cpp} and the shielded
    part of a transaction (sapling/sapling_transaction.h): data, predicates,
    values, and the serialization every hash is computed from.  A [uint256] is
    the number its little-endian bytes denote. *)

From S2P Require Import Prelude Params Serialize Crypto Script.

Local Open Scope krova_scope.

(** ** Outpoints, inputs, outputs *)

Record COutPoint := { op_hash : Z; op_n : Z }.

#[export] Instance COutPoint_eq_dec : EqDecision COutPoint.
Proof. solve_decision. Defined.

#[export] Instance COutPoint_countable : Countable COutPoint :=
  inj_countable' (fun o => (op_hash o, op_n o)) (fun '(h, n) => {| op_hash := h; op_n := n |})
    ltac:(by intros []).

Definition OutPoint_IsNull (o : COutPoint) : bool := (op_hash o =? 0) && (op_n o =? 0xffffffff).

Record CTxIn := { prevout : COutPoint; scriptSig : CScript; nSequence : Z }.

Definition SEQUENCE_FINAL : Z := 0xffffffff.

Definition TxIn_IsFinal (i : CTxIn) : bool := nSequence i =? SEQUENCE_FINAL.

(** transaction.cpp: [scriptSig.IsZerocoinSpend()], [scriptSig.IsZerocoinPublicSpend()] *)
Definition TxIn_IsZerocoinSpend (i : CTxIn) : bool :=
  (op_hash (prevout i) =? 0) && IsZerocoinSpend (scriptSig i).
Definition TxIn_IsZerocoinPublicSpend (i : CTxIn) : bool := IsZerocoinPublicSpend (scriptSig i).

(** [nRounds] is memory only and always -10. *)
Record CTxOut := { nValue : Z; scriptPubKey : CScript }.

#[export] Instance CTxOut_eq_dec : EqDecision CTxOut.
Proof. solve_decision. Defined.

Definition TxOut_null : CTxOut := {| nValue := -1; scriptPubKey := [] |}.
Definition TxOut_IsNull (o : CTxOut) : bool := nValue o =? -1.
Definition TxOut_IsEmpty (o : CTxOut) : bool := (nValue o =? 0) && bool_decide (scriptPubKey o = []).
Definition TxOut_IsZerocoinMint (o : CTxOut) : bool := IsZerocoinMint (scriptPubKey o).

(** ** Shielded data *)

Record SpendDescription := {
  sd_cv : Z; sd_anchor : Z; sd_nullifier : Z; sd_rk : Z;
  sd_zkproof : bytes; sd_spendAuthSig : bytes
}.

Record OutputDescription := {
  od_cv : Z; od_cmu : Z; od_ephemeralKey : Z;
  od_encCiphertext : bytes; od_outCiphertext : bytes; od_zkproof : bytes
}.

Record SaplingTxData := {
  valueBalance : Z;
  vShieldedSpend : list SpendDescription;
  vShieldedOutput : list OutputDescription;
  bindingSig : bytes
}.

Definition SaplingTxData_empty : SaplingTxData := {|
  valueBalance := 0; vShieldedSpend := []; vShieldedOutput := [];
  bindingSig := replicate 64 0
|}.

Definition hasBindingSig (d : SaplingTxData) : bool :=
  existsb (fun c => negb (c =? 0)) (bindingSig d).

(** ** CTransaction *)

Definition LEGACY : Z := 1.
Definition SAPLING : Z := 3.
Definition TOOHIGH : Z := 4.

Definition NORMAL : Z := 0.
Definition PROREG : Z := 1.
Definition PROUPSERV : Z := 2.
Definition PROUPREG : Z := 3.
Definition PROUPREV : Z := 4.
Definition LLMQCOMM : Z := 5.

Record CTransaction := {
  vin : list CTxIn;
  vout : list CTxOut;
  tx_nVersion : Z;
  nType : Z;
  nLockTime : Z;
  sapData : option SaplingTxData;
  extraPayload : option bytes
}.

Definition hasSaplingData (tx : CTransaction) : bool :=
  match sapData tx with
  | None => false
  | Some d =>
      negb (size (vShieldedOutput d) =? 0) || negb (size (vShieldedSpend d) =? 0)
      || negb (valueBalance d =? 0) || hasBindingSig d
  end.

Definition isSaplingVersion (tx : CTransaction) : bool := SAPLING <=? tx_nVersion tx.
Definition IsShieldedTx (tx : CTransaction) : bool := isSaplingVersion tx && hasSaplingData tx.

Definition hasExtraPayload (tx : CTransaction) : bool :=
  match extraPayload tx with None => false | Some p => negb (size p =? 0) end.

Definition IsSpecialTx (tx : CTransaction) : bool :=
  isSaplingVersion tx && negb (nType tx =? NORMAL) && hasExtraPayload tx.
Definition IsNormalType (tx : CTransaction) : bool := nType tx =? NORMAL.
Definition IsProRegTx (tx : CTransaction) : bool := IsSpecialTx tx && (nType tx =? PROREG).
Definition IsQuorumCommitmentTx (tx : CTransaction) : bool := IsSpecialTx tx && (nType tx =? LLMQCOMM).

Inductive SigVersion := SIGVERSION_BASE | SIGVERSION_SAPLING.

Definition GetRequiredSigVersion (tx : CTransaction) : SigVersion :=
  if isSaplingVersion tx then SIGVERSION_SAPLING else SIGVERSION_BASE.

Definition HasZerocoinSpendInputs (tx : CTransaction) : bool :=
  existsb (fun i => TxIn_IsZerocoinSpend i || TxIn_IsZerocoinPublicSpend i) (vin tx).
Definition HasZerocoinMintOutputs (tx : CTransaction) : bool := existsb TxOut_IsZerocoinMint (vout tx).
Definition ContainsZerocoins (tx : CTransaction) : bool :=
  HasZerocoinSpendInputs tx || HasZerocoinMintOutputs tx.

Definition IsCoinBase (tx : CTransaction) : bool :=
  match vin tx with
  | [i] => OutPoint_IsNull (prevout i) && negb (IsZerocoinSpend (scriptSig i))
  | _ => false
  end.

Definition IsCoinStake (tx : CTransaction) : bool :=
  match vin tx with
  | [] => false
  | i :: _ =>
      let fAllowNull := TxIn_IsZerocoinSpend i in
      if OutPoint_IsNull (prevout i) && negb fAllowNull then false
      else match vout tx with o :: _ :: _ => TxOut_IsEmpty o | _ => false end
  end.

Definition HasExchangeAddr (tx : CTransaction) : bool :=
  existsb (fun o => IsPayToExchangeAddress (scriptPubKey o)) (vout tx).
Definition HasP2CSOutputs (tx : CTransaction) : bool :=
  existsb (fun o => IsPayToColdStaking (scriptPubKey o)) (vout tx).

(** The loop of [GetValueOut]; [None] is a thrown exception. *)
Fixpoint GetValueOut_loop (outs : list CTxOut) (nValueOut : Z) : option Z :=
  match outs with
  | [] => Some nValueOut
  | out :: outs =>
      if nValue out <? 0 then None
      else if i64 (nValueOut + nValue out) <? nValueOut then None
      else GetValueOut_loop outs (i64 (nValueOut + nValue out))
  end.

Definition tx_valueBalance (tx : CTransaction) : Z :=
  match sapData tx with None => 0 | Some d => valueBalance d end.

Definition GetValueOut (tx : CTransaction) : option Z :=
  nValueOut ← GetValueOut_loop (vout tx) 0;
  if hasSaplingData tx && (tx_valueBalance tx <? 0) then
    let nValueOut := i64 (nValueOut + i64 (- tx_valueBalance tx)) in
    if negb (isSaplingVersion tx) then None else Some nValueOut
  else Some nValueOut.

Definition GetShieldedValueIn (tx : CTransaction) : option Z :=
  if hasSaplingData tx && (0 <? tx_valueBalance tx) then
    if negb (isSaplingVersion tx) then None else Some (tx_valueBalance tx)
  else Some 0.

(** ** Serialization *)

Definition COutPoint_fmt : Formatter COutPoint :=
  fields_fmt (fun o => (op_hash o, op_n o)) (fun '(h, n) => {| op_hash := h; op_n := n |})
    (uint256_fmt ⊕ uint32_fmt).

Definition CTxIn_fmt : Formatter CTxIn :=
  fields_fmt (fun i => (prevout i, (scriptSig i, nSequence i)))
    (fun '(p, (s, q)) => {| prevout := p; scriptSig := s; nSequence := q |})
    (COutPoint_fmt ⊕ blob_fmt ⊕ uint32_fmt).

Definition CTxOut_fmt : Formatter CTxOut :=
  fields_fmt (fun o => (nValue o, scriptPubKey o))
    (fun '(v, s) => {| nValue := v; scriptPubKey := s |}) (int64_fmt ⊕ blob_fmt).

Definition SpendDescription_fmt : Formatter SpendDescription :=
  fields_fmt
    (fun d => (sd_cv d, (sd_anchor d, (sd_nullifier d, (sd_rk d, (sd_zkproof d, sd_spendAuthSig d))))))
    (fun '(a, (b, (c, (d, (e, f))))) =>
       {| sd_cv := a; sd_anchor := b; sd_nullifier := c; sd_rk := d;
          sd_zkproof := e; sd_spendAuthSig := f |})
    (uint256_fmt ⊕ uint256_fmt ⊕ uint256_fmt ⊕ uint256_fmt ⊕ array_fmt 192 ⊕ array_fmt 64).

Definition OutputDescription_fmt : Formatter OutputDescription :=
  fields_fmt
    (fun d => (od_cv d, (od_cmu d, (od_ephemeralKey d,
               (od_encCiphertext d, (od_outCiphertext d, od_zkproof d))))))
    (fun '(a, (b, (c, (d, (e, f))))) =>
       {| od_cv := a; od_cmu := b; od_ephemeralKey := c;
          od_encCiphertext := d; od_outCiphertext := e; od_zkproof := f |})
    (uint256_fmt ⊕ uint256_fmt ⊕ uint256_fmt ⊕ array_fmt 580 ⊕ array_fmt 80 ⊕ array_fmt 192).

Definition SaplingTxData_fmt : Formatter SaplingTxData :=
  fields_fmt (fun d => (valueBalance d, (vShieldedSpend d, (vShieldedOutput d, bindingSig d))))
    (fun '(a, (b, (c, d))) =>
       {| valueBalance := a; vShieldedSpend := b; vShieldedOutput := c; bindingSig := d |})
    (int64_fmt ⊕ VectorFormatter SpendDescription_fmt ⊕ VectorFormatter OutputDescription_fmt
     ⊕ array_fmt 64).

Definition sapData_fmt := OptionalFormatter SaplingTxData_fmt.
Definition extraPayload_fmt := OptionalFormatter blob_fmt.

Definition SerializeTransaction (tx : CTransaction) : bytes :=
  Ser int16_fmt (tx_nVersion tx) ++ Ser int16_fmt (nType tx)
  ++ Ser (VectorFormatter CTxIn_fmt) (vin tx) ++ Ser (VectorFormatter CTxOut_fmt) (vout tx)
  ++ Ser uint32_fmt (nLockTime tx)
  ++ (if isSaplingVersion tx then
        Ser sapData_fmt (sapData tx)
        ++ (if negb (IsNormalType tx) then Ser extraPayload_fmt (extraPayload tx) else [])
      else []).

(** Into a default-constructed [CMutableTransaction], whose [sapData] is an
    empty [SaplingTxData] and whose [extraPayload] is absent. *)
Definition UnserializeTransaction : Reader CTransaction := fun s =>
  '(v, s) ← Unser int16_fmt s;
  '(t, s) ← Unser int16_fmt s;
  '(ins, s) ← Unser (VectorFormatter CTxIn_fmt) s;
  '(outs, s) ← Unser (VectorFormatter CTxOut_fmt) s;
  '(lock, s) ← Unser uint32_fmt s;
  let tx sap extra := {| vin := ins; vout := outs; tx_nVersion := v; nType := t;
                         nLockTime := lock; sapData := sap; extraPayload := extra |} in
  if SAPLING <=? v then
    '(sap, s) ← Unser sapData_fmt s;
    if negb (t =? NORMAL) then
      '(extra, s) ← Unser extraPayload_fmt s; Some (tx sap extra, s)
    else Some (tx sap None, s)
  else Some (tx (Some SaplingTxData_empty) None, s).

(** Transactions as deserialization produces them: the fields the version and
    type do not carry have their default value. *)
Definition tx_ok (tx : CTransaction) : Prop :=
  ok int16_fmt (tx_nVersion tx) /\ ok int16_fmt (nType tx) /\
  ok (VectorFormatter CTxIn_fmt) (vin tx) /\ ok (VectorFormatter CTxOut_fmt) (vout tx) /\
  ok uint32_fmt (nLockTime tx) /\
  (if isSaplingVersion tx then ok sapData_fmt (sapData tx)
   else sapData tx = Some SaplingTxData_empty) /\
  (if isSaplingVersion tx && negb (IsNormalType tx) then ok extraPayload_fmt (extraPayload tx)
   else extraPayload tx = None).

Definition CTransaction_fmt : Formatter CTransaction := {|
  Ser := SerializeTransaction; Unser := UnserializeTransaction; ok := tx_ok
|}.

(** ** Blocks *)

Record CBlockHeader := {
  nVersion : Z;
  hashPrevBlock : Z;
  hashMerkleRoot : Z;
  nTime : Z;
  nBits : Z;
  nNonce : Z;
  nAccumulatorCheckpoint : Z;
  hashFinalSaplingRoot : Z
}.

Record CBlock := {
  header :> CBlockHeader;
  vtx : list CTransaction;
  vchBlockSig : bytes
}.

(** The first six fields, in both directions. *)
Definition header_base_fmt : Formatter (Z * (Z * (Z * (Z * (Z * Z))))) :=
  int32_fmt ⊕ uint256_fmt ⊕ uint256_fmt ⊕ uint32_fmt ⊕ uint32_fmt ⊕ uint32_fmt.

Definition header_base (h : CBlockHeader) : Z * (Z * (Z * (Z * (Z * Z)))) :=
  (nVersion h, (hashPrevBlock h, (hashMerkleRoot h, (nTime h, (nBits h, nNonce h))))).

(** [READWRITE(obj.f)] under a condition; an unread field keeps 0. *)
Definition unser_if (c : bool) : Reader Z := fun s =>
  if c then Unser uint256_fmt s else Some (0, s).
Definition ser_if (c : bool) (v : Z) : bytes := if c then Ser uint256_fmt v else [].
Definition ok_if (c : bool) (v : Z) : Prop := if c then ok uint256_fmt v else v = 0.

Definition has_accumulator (version : Z) : bool := (3 <? version) && (version <? 7).
Definition has_sapling_root (version : Z) : bool := 8 <=? version.

Definition CBlockHeader_fmt : Formatter CBlockHeader := {|
  Ser h := Ser header_base_fmt (header_base h)
           ++ ser_if (has_accumulator (nVersion h)) (nAccumulatorCheckpoint h)
           ++ ser_if (has_sapling_root (nVersion h)) (hashFinalSaplingRoot h);
  Unser s :=
    '(base, s) ← Unser header_base_fmt s;
    let '(v, (p, (m, (t, (b, n))))) := base in
    '(acc, s) ← unser_if (has_accumulator v) s;
    '(sap, s) ← unser_if (has_sapling_root v) s;
    Some ({| nVersion := v; hashPrevBlock := p; hashMerkleRoot := m; nTime := t; nBits := b;
             nNonce := n; nAccumulatorCheckpoint := acc; hashFinalSaplingRoot := sap |}, s);
  ok h := ok header_base_fmt (header_base h)
          /\ ok_if (has_accumulator (nVersion h)) (nAccumulatorCheckpoint h)
          /\ ok_if (has_sapling_root (nVersion h)) (hashFinalSaplingRoot h)
|}.

Definition vtx_IsProofOfStake (txs : list CTransaction) : bool :=
  match txs with _ :: tx :: _ => IsCoinStake tx | _ => false end.

Definition IsProofOfStake (b : CBlock) : bool := vtx_IsProofOfStake (vtx b).
Definition IsProofOfWork (b : CBlock) : bool := negb (IsProofOfStake b).

Definition CBlock_fmt : Formatter CBlock := {|
  Ser b := Ser CBlockHeader_fmt (header b) ++ Ser (VectorFormatter CTransaction_fmt) (vtx b)
           ++ (if vtx_IsProofOfStake (vtx b) then Ser blob_fmt (vchBlockSig b) else []);
  Unser s :=
    '(h, s) ← Unser CBlockHeader_fmt s;
    '(txs, s) ← Unser (VectorFormatter CTransaction_fmt) s;
    if vtx_IsProofOfStake txs then
      '(sig, s) ← Unser blob_fmt s; Some ({| header := h; vtx := txs; vchBlockSig := sig |}, s)
    else Some ({| header := h; vtx := txs; vchBlockSig := [] |}, s);
  ok b := ok CBlockHeader_fmt (header b) /\ ok (VectorFormatter CTransaction_fmt) (vtx b)
          /\ (if IsProofOfStake b then ok blob_fmt (vchBlockSig b) else vchBlockSig b = [])
|}.

(** [GetBlockHeader]: copies the fields the version has. *)
Definition GetBlockHeader (b : CBlock) : CBlockHeader := {|
  nVersion := nVersion b; hashPrevBlock := hashPrevBlock b; hashMerkleRoot := hashMerkleRoot b;
  nTime := nTime b; nBits := nBits b; nNonce := nNonce b;
  nAccumulatorCheckpoint := if has_accumulator (nVersion b) then nAccumulatorCheckpoint b else 0;
  hashFinalSaplingRoot := if has_sapling_root (nVersion b) then hashFinalSaplingRoot b else 0
|}.

(** ** Hashes *)

Definition SerializeHash `{HashFunctions} {A} (f : Formatter A) (a : A) : Z := Hash (Ser f a).

Definition GetHash `{HashFunctions} (tx : CTransaction) : Z := SerializeHash CTransaction_fmt tx.

Definition CBlockHeader_GetHash `{HashFunctions} (h : CBlockHeader) : Z :=
  if nVersion h <? 4 then HashQuark (Ser header_base_fmt (header_base h))
  else SerializeHash CBlockHeader_fmt h.

(** ** Lemmas *)

#[export] Instance CTxIn_fmt_lawful : Lawful CTxIn_fmt.
Proof. apply _. Qed.

#[export] Instance CTxOut_fmt_lawful : Lawful CTxOut_fmt.
Proof. apply _. Qed.

#[export] Instance SaplingTxData_fmt_lawful : Lawful SaplingTxData_fmt.
Proof. apply _. Qed.

#[export] Instance CTransaction_fmt_lawful : Lawful CTransaction_fmt.
Proof.
  intros tx rest (Hv & Ht & Hi & Ho & Hl & Hs & He).
  cbn [Ser Unser CTransaction_fmt]. unfold SerializeTransaction, UnserializeTransaction.
  rewrite <- !app_assoc.
  do 5 (rewrite unser_ser by done; cbn [mbind option_bind]).
  unfold isSaplingVersion, IsNormalType in *.
  destruct tx as [ins outs v t lock sap extra]; cbn [tx_nVersion nType sapData extraPayload] in *.
  destruct (SAPLING <=? v); [destruct (negb (t =? NORMAL))|]; cbn [andb] in *.
  - rewrite <- app_assoc. do 2 (rewrite unser_ser by done; cbn [mbind option_bind]). done.
  - rewrite app_nil_r, unser_ser by done. cbn [mbind option_bind]. by subst.
  - by subst.
Qed.

Lemma unser_if_ser c v rest : ok_if c v -> unser_if c (ser_if c v ++ rest) = Some (v, rest).
Proof. unfold ok_if, unser_if, ser_if. destruct c; intros; [by apply unser_ser | by subst]. Qed.

#[export] Instance CBlockHeader_fmt_lawful : Lawful CBlockHeader_fmt.
Proof.
  intros [] rest (Hb & Ha & Hr). cbn [Ser Unser CBlockHeader_fmt]. rewrite <- !app_assoc.
  rewrite unser_ser by done. cbn -[unser_if ser_if] in *.
  rewrite unser_if_ser by done. cbn -[unser_if ser_if]. by rewrite unser_if_ser by done.
Qed.

#[export] Instance CBlock_fmt_lawful : Lawful CBlock_fmt.
Proof.
  intros [h txs sig] rest (Hh & Ht & Hs). cbn [Ser Unser CBlock_fmt header vtx vchBlockSig] in *.
  unfold IsProofOfStake in Hs. cbn [vtx vchBlockSig] in Hs. rewrite <- !app_assoc.
  do 2 (rewrite unser_ser by done; cbn [mbind option_bind]).
  destruct (vtx_IsProofOfStake txs); [by rewrite unser_ser by done | by subst].
Qed.

(** ** Properties *)

(** Transactions survive serialization: for every version and type, with
    or without shielded data and extra payload, deserializing the bytes of a
    transaction returns the same transaction and leaves what follows
    untouched. *)
Theorem transaction_roundtrip tx rest :
  tx_ok tx -> UnserializeTransaction (SerializeTransaction tx ++ rest) = Some (tx, rest).
Proof. apply (unser_ser (f := CTransaction_fmt)). Qed.

(** C14. Blocks survive serialization, with the header fields their version
    has and with the block signature exactly when the block is
    proof-of-stake. *)
Theorem block_roundtrip b rest :
  ok CBlock_fmt b -> Unser CBlock_fmt (Ser CBlock_fmt b ++ rest) = Some (b, rest).
Proof. apply unser_ser. Qed.

(** A version-3 special transaction with a shielded value, in a
    proof-of-stake block. *)
Definition sample_tx : CTransaction := {|
  vin := [{| prevout := {| op_hash := 5; op_n := 1 |}; scriptSig := [0x51]; nSequence := SEQUENCE_FINAL |}];
  vout := [{| nValue := 0; scriptPubKey := [] |}; {| nValue := 7 * COIN; scriptPubKey := [OP_RETURN : Z] |}];
  tx_nVersion := 3; nType := PROREG; nLockTime := 9;
  sapData := Some {| valueBalance := -5; vShieldedSpend := []; vShieldedOutput := [];
                     bindingSig := replicate 64 1 |};
  extraPayload := Some [1; 2; 3]
|}.

Definition sample_block : CBlock := {|
  header := {| nVersion := 11; hashPrevBlock := 1; hashMerkleRoot := 2; nTime := 3; nBits := 4; nNonce := 5;
               nAccumulatorCheckpoint := 0; hashFinalSaplingRoot := 6 |};
  vtx := [sample_tx; sample_tx];
  vchBlockSig := [9; 9]
|}.

(** Well-formedness of a concrete object, field by field. *)
Ltac concrete_ok :=
  repeat lazymatch goal with
  | |- _ /\ _ => split
  | |- Forall _ [] => constructor
  | |- Forall _ (_ :: _) => constructor
  | |- Forall ?P ?l => let l' := eval hnf in l in change (Forall P l')
  | |- ok _ _ => hnf
  | |- tx_ok _ => hnf
  | |- if _ then _ else _ => hnf
  | |- ok_if _ _ => hnf
  | |- _ <= _ => vm_compute; discriminate
  | |- _ < _ => vm_compute; reflexivity
  | |- _ = Gt -> False => vm_compute; discriminate
  | |- True => exact I
  | |- _ = _ => reflexivity
  end.

Lemma transaction_roundtrip_witness :
  UnserializeTransaction (SerializeTransaction sample_tx ++ [7]) = Some (sample_tx, [7]).
Proof.
  apply (transaction_roundtrip sample_tx [7]).
  concrete_ok.
Defined.

Lemma block_roundtrip_witness :
  Unser CBlock_fmt (Ser CBlock_fmt sample_block ++ [7]) = Some (sample_block, [7]).
Proof.
  apply (block_roundtrip sample_block [7]).
  concrete_ok.
Defined.
