(* ===== verification/StrEncodings.v ===== *)
(** * String encodings

    utilstrencodings.cpp: hexadecimal.  A [std::string] is the list of its
    characters' codes; a C string literal is one by [str]. *)

From Stdlib Require Import Ascii String.
From S2P Require Import Prelude.

(** The characters of a literal. *)
Fixpoint str (s : string) : bytes :=
  match s with
  | EmptyString => []
  | String c s => Z.of_N (N_of_ascii c) :: str s
  end.

(** ** Hexadecimal *)

(** [p_util_hexdigit], the table written as its three non-trivial runs. *)
Definition HexDigit (c : Z) : Z :=
  if (48 <=? c) && (c <=? 57) then c - 48
  else if (65 <=? c) && (c <=? 70) then c - 65 + 0xa
  else if (97 <=? c) && (c <=? 102) then c - 97 + 0xa
  else -1.

Definition IsHex (s : bytes) : bool :=
  forallb (fun c => negb (HexDigit c <? 0)) s && (0 <? size s) && (size s mod 2 =? 0).

(** [isspace] in the C locale. *)
Definition isspace (c : Z) : bool := (c =? 32) || ((9 <=? c) && (c <=? 13)).

(** [ParseHex]: [hi] is the first digit of the byte being read.  The end of
    the string is a NUL, no digit. *)
Fixpoint ParseHex_loop (hi : option Z) (psz : bytes) : bytes :=
  match psz with
  | [] => []
  | ch :: psz =>
      match hi with
      | None =>
          if isspace ch then ParseHex_loop None psz
          else if HexDigit ch =? -1 then []
          else ParseHex_loop (Some (u8 (Z.shiftl (HexDigit ch) 4))) psz
      | Some n =>
          if HexDigit ch =? -1 then []
          else Z.lor n (HexDigit ch) :: ParseHex_loop None psz
      end
  end.

Definition ParseHex (s : bytes) : bytes := ParseHex_loop None s.

Definition hexmap (v : Z) : Z := if v <? 10 then 48 + v else 97 + (v - 10).

Definition HexStr (s : bytes) : bytes :=
  concat (map (fun v => [hexmap (Z.shiftr v 4); hexmap (Z.land v 15)]) s).

(** Two digits written for a byte parse back to it. *)
Lemma ParseHex_byte v rest :
  byte_ok v ->
  ParseHex_loop None (hexmap (Z.shiftr v 4) :: hexmap (Z.land v 15) :: rest) =
  v :: ParseHex_loop None rest.
Proof.
  intros Hv.
  assert (H : (let a := hexmap (Z.shiftr v 4) in let b := hexmap (Z.land v 15) in
     negb (isspace a) && negb (HexDigit a =? -1) && negb (HexDigit b =? -1) &&
     (Z.lor (u8 (Z.shiftl (HexDigit a) 4)) (HexDigit b) =? v)) = true).
  { apply (byte_forall (fun v => let a := hexmap (Z.shiftr v 4) in let b := hexmap (Z.land v 15) in
     negb (isspace a) && negb (HexDigit a =? -1) && negb (HexDigit b =? -1) &&
     (Z.lor (u8 (Z.shiftl (HexDigit a) 4)) (HexDigit b) =? v))); [by vm_compute | done]. }
  cbn zeta in H. apply andb_prop in H as [H H4]. apply andb_prop in H as [H H3].
  apply andb_prop in H as [H1 H2]. apply negb_true_iff in H1, H2, H3. apply Z.eqb_eq in H4.
  cbn [ParseHex_loop]. by rewrite H1, H2, H3, H4.
Qed.

Lemma ParseHex_HexStr s : bytes_ok s -> ParseHex (HexStr s) = s.
Proof.
  unfold ParseHex, HexStr. induction 1 as [|v s Hv _ IH]; [done|].
  cbn [map concat app]. by rewrite ParseHex_byte, IH.
Qed.
