(* ===== verification/Base58.v ===== *)
(** * Base 58

    base58.cpp: strings of the 58 characters that stand for byte strings, and
    the form with a checksum.  The buffer of digits is a list that starts with
    the lowest digit, as the reverse iterators of the code walk it. *)

From Stdlib Require Import Ascii String.
From S2P Require Import Prelude Crypto StrEncodings.

Local Open Scope krova_scope.
Local Open Scope Z_scope.

(** ** Definitions *)

Definition pszBase58 : bytes := str "123456789ABCDEFGHJKLMNPQRSTUVWXYZabcdefghijkmnopqrstuvwxyz".

(** [strchr(pszBase58, c) - pszBase58] for a character other than NUL. *)
Fixpoint index_of (c : Z) (s : bytes) : option Z :=
  match s with
  | [] => None
  | x :: s => if x =? c then Some 0 else i ← index_of c s; Some (i + 1)
  end.

(** How many elements at the front satisfy [f], and the rest. *)
Fixpoint span (f : Z -> bool) (l : bytes) : nat * bytes :=
  match l with
  | [] => (O, [])
  | x :: l' => if f x then let '(n, r) := span f l' in (S n, r) else (O, l)
  end.

(** Both inner loops: multiply the digits by [mul] and add [carry], in base
    [base]; [i] is the number of digits visited. *)
Fixpoint mul_add (mul base : Z) (length i : nat) (carry : Z) (b : list Z) : list Z * Z * nat :=
  match b with
  | [] => ([], carry, i)
  | d :: b' =>
      if negb (carry =? 0) || (i <? length)%nat then
        let carry := carry + mul * d in
        let '(b', carry', i') := mul_add mul base length (S i) (carry / base) b' in
        (carry mod base :: b', carry', i')
      else (b, carry, i)
  end.

Fixpoint encode_loop (length : nat) (b58 : list Z) (p : bytes) : option (list Z * nat) :=
  match p with
  | [] => Some (b58, length)
  | ch :: p =>
      let '(b58, carry, i) := mul_add 256 58 length 0 ch b58 in
      assert (carry =? 0) (encode_loop i b58 p)
  end.

Definition EncodeBase58 (vch : bytes) : option bytes :=
  let '(zeroes, p) := span (fun c => c =? 0) vch in
  let n := i32 (size p * 138 / 100 + 1) in
  if n <? 0 then None
  else
    '(b58, length) ← encode_loop 0 (replicate (Z.to_nat n) 0) p;
    let '(_, digits) := span (fun d => d =? 0) (reverse (take length b58)) in
    s ← mapM (fun d => pszBase58 !! Z.to_nat d) digits;
    Some (replicate zeroes 49 ++ s).

(** Here and below the inner [None] is the answer false. *)
Fixpoint decode_loop (zeroes : nat) (max_ret_len : Z) (length : nat) (b256 : list Z) (psz : bytes) : option (option (list Z * nat * bytes)) :=
  match psz with
  | [] => Some (Some (b256, length, []))
  | c :: psz' =>
      if isspace c then Some (Some (b256, length, psz))
      else
        match index_of c pszBase58 with
        | None => Some None
        | Some ch =>
            let '(b256, carry, i) := mul_add 58 256 length 0 ch b256 in
            assert (carry =? 0)
              (if max_ret_len <? Z.of_nat i + Z.of_nat zeroes then Some None else decode_loop zeroes max_ret_len i b256 psz')
        end
  end.

(** [psz] is the string without its NUL. *)
Definition DecodeBase58 (psz : bytes) (max_ret_len : Z) : option (option bytes) :=
  let '(_, psz) := span isspace psz in
  let '(zeroes, psz) := span (fun c => c =? 49) psz in
  if (0 <? Z.of_nat zeroes) && (max_ret_len <? Z.of_nat zeroes) then Some None
  else
    let n := i32 (size psz * 733 / 1000 + 1) in
    if n <? 0 then None
    else
      r ← decode_loop zeroes max_ret_len 0 (replicate (Z.to_nat n) 0) psz;
      match r with
      | None => Some None
      | Some (b256, length, psz) =>
          let '(_, psz) := span isspace psz in
          Some (if bool_decide (psz = []) then Some (replicate zeroes 0 ++ reverse (take length b256)) else None)
      end.

Definition ValidAsCString (s : bytes) : bool := forallb (fun c => negb (c =? 0)) s.

(** Of a [std::string]. *)
Definition DecodeBase58_string (s : bytes) (max_ret_len : Z) : option (option bytes) :=
  if ValidAsCString s then DecodeBase58 s max_ret_len else Some None.

Section Check.
Context `{HashFunctions}.

(** The first four bytes of [Hash(vch)]. *)
Definition checksum (vch : bytes) : bytes := take 4 (le_bytes 32 (Hash vch)).

Definition EncodeBase58Check (vchIn : bytes) : option bytes := EncodeBase58 (vchIn ++ checksum vchIn).

Definition DecodeBase58Check (psz : bytes) (max_ret_len : Z) : option (option bytes) :=
  r ← DecodeBase58 psz (if INT32_MAX - 4 <? max_ret_len then INT32_MAX else max_ret_len + 4);
  match r with
  | None => Some None
  | Some vchRet =>
      if size vchRet <? 4 then Some None
      else
        let body := take (List.length vchRet - 4) vchRet in
        Some (if bool_decide (checksum body = drop (List.length vchRet - 4) vchRet) then Some body else None)
  end.

Definition DecodeBase58Check_string (s : bytes) (max_ret_len : Z) : option (option bytes) :=
  if ValidAsCString s then DecodeBase58Check s max_ret_len else Some None.
End Check.

(** ** Digits *)

(** The number with the digits [l], the lowest one first. *)
Fixpoint num (base : Z) (l : list Z) : Z := match l with [] => 0 | d :: l => d + base * num base l end.

Abbreviation digits_ok base := (Forall (fun d => 0 <= d < base)).

Lemma num_bound base l : 1 < base -> digits_ok base l -> 0 <= num base l < base ^ size l.
Proof.
  intros B F. induction F as [|d l D F IH]; [change (size []) with 0; cbn [num]; rewrite Z.pow_0_r; lia|]. cbn [num]. rewrite size_cons, Z.pow_add_r, Z.pow_1_r by (pose proof (size_nonneg l); lia). nia.
Qed.

Lemma num_app base l k : num base (l ++ k) = num base l + base ^ size l * num base k.
Proof.
  induction l as [|d l IH]; [change (size []) with 0; cbn [num app]; rewrite Z.pow_0_r; lia|]. cbn [num app]. rewrite IH, size_cons, Z.pow_add_r, Z.pow_1_r by (pose proof (size_nonneg l); lia). lia.
Qed.

Lemma num_zeros base n : num base (replicate n 0) = 0.
Proof. induction n as [|n IH]; [done|]. cbn [num replicate]. lia. Qed.

(** Without a leading zero; the last digit is the highest one. *)
Definition canonical (l : list Z) : Prop := forall d, last l = Some d -> d <> 0.

Lemma canonical_cons d l : canonical (d :: l) <-> (l = [] /\ d <> 0) \/ (l <> [] /\ canonical l).
Proof. unfold canonical. destruct l as [|d' l]; cbn; naive_solver. Qed.

Lemma canonical_pos base l : 1 < base -> digits_ok base l -> canonical l -> l <> [] -> 0 < num base l.
Proof.
  intros B F C N. induction F as [|d l D F IH]; [done|]. cbn [num]. apply canonical_cons in C as [[-> ?]|[? ?]]; [cbn; lia|]. assert (0 < num base l) by auto. nia.
Qed.

Lemma digit_split base d d' n n' : 0 <= d < base -> 0 <= d' < base -> d + base * n = d' + base * n' -> d = d' /\ n = n'.
Proof. intros D D' E. destruct (Z.lt_trichotomy n n') as [?|[->|?]]; [nia|lia|nia]. Qed.

(** A number has one canonical list of digits. *)
Lemma canonical_unique base l l' : 1 < base -> digits_ok base l -> digits_ok base l' -> canonical l -> canonical l' -> num base l = num base l' -> l = l'.
Proof.
  intros B F. revert l'. induction F as [|d l D F IH]; intros l' F' C C' E.
  - destruct l' as [|d' l']; [done|]. pose proof (canonical_pos base _ B F' C'). cbn [num] in *. assert (0 < d' + base * num base l') by auto. lia.
  - destruct F' as [|d' l' D' F']; [pose proof (canonical_pos base (d :: l) B (Forall_cons_2 _ _ _ D F) C); cbn [num] in *; assert (0 < d + base * num base l) by auto; lia|].
    cbn [num] in E. apply digit_split in E as [-> En]; [|done|done].
    f_equal. apply IH; [done| | |done]; intros x L; [apply C|apply C']; cbn; [destruct l|destruct l']; done.
Qed.

(** What the inner loop computes: the digits beyond [length] are zero before,
    and those beyond the new length after it. *)
Lemma mul_add_spec mul base length : 1 < base -> 0 < mul -> forall b i carry b' c' i', digits_ok base b -> 0 <= carry < Z.max mul base -> drop (length - i) b = replicate (List.length b - (length - i)) 0 ->
  mul_add mul base length i carry b = (b', c', i') ->
  List.length b' = List.length b /\ digits_ok base b' /\ 0 <= c' /\ num base b' + base ^ size b * c' = carry + mul * num base b /\ (i <= i')%nat /\
  drop (i' - i) b' = replicate (List.length b - (i' - i)) 0.
Proof.
  intros B Mu b. induction b as [|d b IH]; intros i carry b' c' i' F C Z0 E.
  - cbn in E. injection E as <- <- <-. split; [done|]. split; [done|]. split; [lia|]. change (size []) with 0. rewrite Z.pow_0_r. cbn [num]. split; [lia|]. split; [lia|]. by rewrite drop_nil.
  - apply Forall_cons in F as [D F]. cbn [mul_add] in E. destruct (negb (carry =? 0) || (i <? length)%nat) eqn:G.
    + destruct (mul_add mul base length (S i) ((carry + mul * d) / base) b) as [[b1 c1] i1] eqn:R. injection E as <- <- <-.
      apply IH in R as (L & F1 & P1 & N & I & Z1); [|done| |].
      * cbn [List.length]. split; [lia|]. split; [constructor; [apply Z.mod_pos_bound; lia|done]|]. split; [done|]. cbn [num]. rewrite size_cons, Z.pow_add_r, Z.pow_1_r by (pose proof (size_nonneg b); lia).
        split; [pose proof (Z.div_mod (carry + mul * d) base); nia|]. split; [lia|]. replace (i1 - i)%nat with (S (i1 - S i)) by lia. cbn [drop]. exact Z1.
      * split; [apply Z.div_pos; nia|]. apply Z.div_lt_upper_bound; [lia|]. nia.
      * destruct (length - i)%nat as [|k] eqn:K; [|replace (length - S i)%nat with k by lia; exact Z0]. replace (length - S i)%nat with O by lia. rewrite drop_0 in *. cbn [List.length] in Z0. rewrite Nat.sub_0_r in *. by injection Z0.
    + injection E as <- <- <-. apply orb_false_iff in G as [G1 G2]. apply negb_false_iff, Z.eqb_eq in G1. apply Nat.ltb_ge in G2. subst carry.
      replace (length - i)%nat with O in Z0 by lia. rewrite drop_0, Nat.sub_0_r in Z0. split; [done|]. split; [by constructor|]. split; [done|]. rewrite Z0, num_zeros. split; [lia|]. split; [done|].
      rewrite Nat.sub_diag, drop_0, Nat.sub_0_r. by rewrite length_replicate.
Qed.

Lemma canonical_tail d l : canonical (d :: l) -> canonical l.
Proof. intros [[-> _]|[_ ?]]%canonical_cons; [by intros ?|done]. Qed.

(** The new length has no leading zero either. *)
Lemma mul_add_canonical mul base length : 1 < base -> 0 < mul -> forall b i carry b' i', digits_ok base b -> 0 <= carry -> canonical (take (length - i) b) ->
  mul_add mul base length i carry b = (b', 0, i') -> (i <= i')%nat /\ canonical (take (i' - i) b').
Proof.
  intros B Mu b. induction b as [|d b IH]; intros i carry b' i' F C Cn E.
  - cbn in E. injection E as <- -> <-. rewrite take_nil. by split; [|intros ?].
  - apply Forall_cons in F as [D F]. cbn [mul_add] in E. destruct (negb (carry =? 0) || (i <? length)%nat) eqn:G.
    2: { injection E as <- _ <-. rewrite Nat.sub_diag. split; [done|by intros ?]. }
    destruct (mul_add mul base length (S i) ((carry + mul * d) / base) b) as [[b1 c1] i1] eqn:R. injection E as <- -> <-.
    pose proof R as R'. apply IH in R as [I Cn1]; [|done|apply Z.div_pos; nia|].
    2: { destruct (length - i)%nat as [|k] eqn:K; [replace (length - S i)%nat with O by lia; by intros ?|]. replace (length - S i)%nat with k by lia. by apply canonical_tail in Cn. }
    split; [lia|]. replace (i1 - i)%nat with (S (i1 - S i)) by lia. cbn [take]. apply canonical_cons. destruct (decide (take (i1 - S i) b1 = [])) as [N|N]; [|by right]. left. split; [done|].
    assert (Q : (carry + mul * d) / base = 0 /\ (List.length b = O \/ (length <= S i)%nat)).
    { destruct b as [|x b]; [cbn in R'; injection R'; auto|]. cbn [mul_add] in R'. destruct (_ || _) eqn:G' in R'.
      - destruct (mul_add _ _ _ _ _ _) as [[b2 c2] i2] eqn:R2 in R'. injection R' as <- -> <-. exfalso. destruct (i2 - S i)%nat eqn:Z2; [|done].
        assert (S (S i) <= i2)%nat; [|lia]. clear -R2. revert R2. generalize (S (S i)), (((carry + mul * d) / base + mul * x) / base). intros j c. revert j c b2 i2. induction b as [|y b IH]; intros j c b2 i2; cbn; [by intros [= _ _ <-]|].
        destruct (_ || _); [|by intros [= _ _ <-]]. destruct (mul_add _ _ _ _ _ _) as [[b3 c3] i3] eqn:R3. intros [= _ -> <-]. apply IH in R3. lia.
      - injection R' as _ -> _. apply orb_false_iff in G' as [_ G']. apply Nat.ltb_ge in G'. auto. }
    destruct Q as [Q Lb]. assert (carry + mul * d < base) by (apply Z.div_small_iff in Q as [?|?]; lia). rewrite Z.mod_small by nia.
    destruct (Z.eqb_spec carry 0) as [->|]; [|nia]. cbn [negb orb] in G. apply Nat.ltb_lt in G. destruct (length - i)%nat as [|k] eqn:K; [lia|]. cbn [take] in Cn. apply canonical_cons in Cn as [[_ Nd]|[Nb _]]; [nia|].
    exfalso. apply Nb. destruct Lb as [Lb|Lb]; [destruct b; [apply take_nil|done]|]. by replace k with O by lia.
Qed.

(** The digits in use are the first [length]. *)
Record digits (base : Z) (length : nat) (b : list Z) : Prop := {
  dg_ok : digits_ok base b;
  dg_rest : drop length b = replicate (List.length b - length) 0;
  dg_canonical : canonical (take length b);
  dg_length : (length <= List.length b)%nat
}.

Lemma digits_start base n : 1 < base -> digits base 0 (replicate n 0).
Proof. intros B. split; [apply Forall_replicate; lia|by rewrite drop_0, length_replicate, Nat.sub_0_r|by intros ?|lia]. Qed.

Lemma digits_num base length b : digits base length b -> num base (take length b) = num base b.
Proof. intros [_ R _ _]. rewrite <- (take_drop length b) at 2. rewrite num_app, R, num_zeros. lia. Qed.

(** The length is the least one that holds the number. *)
Lemma digits_least base length b L : 1 < base -> digits base length b -> num base b < base ^ Z.of_nat L -> (length <= L)%nat.
Proof.
  intros B D N. rewrite <- (digits_num base length b D) in N. destruct D as [F _ C Le]. destruct length as [|k]; [lia|].
  assert (exists d, b !! k = Some d) as [d E] by (apply lookup_lt_is_Some; lia). rewrite (take_S_r _ _ _ E) in C, N. assert (d <> 0) by (apply C; by rewrite last_snoc).
  rewrite num_app in N. assert (0 <= d < base) by (rewrite Forall_lookup in F; by apply (F k)). pose proof (num_bound base (take k b) B (Forall_take _ _ _ F)).
  assert (Sk : size (take k b) = Z.of_nat k) by (unfold size; rewrite length_take_le; lia). rewrite Sk in N. cbn [num] in N.
  assert (base ^ Z.of_nat k < base ^ Z.of_nat L) by (pose proof (Z.pow_pos_nonneg base (Z.of_nat k)); nia). apply Z.pow_lt_mono_r_iff in H2; lia.
Qed.

Lemma mul_add_visits mul base length : forall b i carry b' c' i', mul_add mul base length i carry b = (b', c', i') -> (i' <= i + List.length b)%nat.
Proof.
  induction b as [|d b IH]; intros i carry b' c' i'; cbn [mul_add]; [intros [= _ _ <-]; lia|]. destruct (_ || _); [|intros [= _ _ <-]; lia].
  destruct (mul_add _ _ _ _ _ _) as [[b1 c1] i1] eqn:R. intros [= _ _ <-]. apply IH in R. cbn. lia.
Qed.

(** One round of either outer loop, when the buffer is large enough. *)
Lemma round mul base length b ch : 1 < base -> 0 <= ch < mul -> digits base length b -> ch + mul * num base b < base ^ size b ->
  exists b' i, mul_add mul base length 0 ch b = (b', 0, i) /\ digits base i b' /\ List.length b' = List.length b /\ num base b' = ch + mul * num base b.
Proof.
  intros B C [F R Cn Le] N. destruct (mul_add mul base length 0 ch b) as [[b' c'] i] eqn:E. pose proof (mul_add_visits _ _ _ _ _ _ _ _ _ E) as V.
  destruct (mul_add_spec mul base length B ltac:(lia) b 0 ch b' c' i F ltac:(lia)) as (L & F' & P & Nm & _ & R'); [by rewrite Nat.sub_0_r|done|].
  rewrite Nat.sub_0_r in R'. pose proof (num_bound base b' B F') as Nb. assert (c' = 0) as -> by (unfold size in *; rewrite L in *; nia). exists b', i. split; [done|].
  destruct (mul_add_canonical mul base length B ltac:(lia) b 0 ch b' i F ltac:(lia)) as [_ Cn']; [by rewrite Nat.sub_0_r|done|]. rewrite Nat.sub_0_r in Cn'.
  split; [split; [done|by rewrite L|done|lia]|]. split; [done|]. lia.
Qed.

Lemma num_reverse_cons base d l : num base (reverse (d :: l)) = num base (reverse l) + base ^ size l * d.
Proof. rewrite reverse_cons, num_app. unfold size. rewrite length_reverse. cbn [num]. lia. Qed.

(** ** Encoding *)

Lemma encode_loop_spec p : forall length b, bytes_ok p -> digits 58 length b -> (num 58 b + 1) * 256 ^ size p <= 58 ^ size b ->
  exists b' length', encode_loop length b p = Some (b', length') /\ digits 58 length' b' /\ num 58 b' = num 58 b * 256 ^ size p + num 256 (reverse p).
Proof.
  induction p as [|ch p IH]; intros length b P D C; [exists b, length; split; [done|]; split; [done|]; change (size []) with 0; cbn; lia|].
  apply Forall_cons in P as [Ch P]. rewrite size_cons, Z.pow_add_r, Z.pow_1_r in C by (pose proof (size_nonneg p); lia). pose proof (Z.pow_pos_nonneg 256 (size p) ltac:(lia) (size_nonneg p)).
  unfold byte_ok in Ch. destruct (num_bound 58 b ltac:(lia) (dg_ok _ _ _ D)) as [Nn _]. destruct (round 256 58 length b ch) as (b1 & i & E & D1 & L & N); [lia|lia|done|nia|].
  cbn [encode_loop]. rewrite E. unfold assert. cbn [Z.eqb]. destruct (IH i b1 P D1) as (b2 & l2 & E2 & D2 & N2); [unfold size in *; rewrite L, N; nia|].
  exists b2, l2. split; [done|]. split; [done|]. rewrite N2, N, num_reverse_cons, size_cons, Z.pow_add_r, Z.pow_1_r by (pose proof (size_nonneg p); lia). lia.
Qed.

(** The sizes of the buffers suffice: 58^138 > 256^100 and 256^733 > 58^1000. *)
Lemma power_capacity a b k l n : 1 < a -> 1 < b -> 0 < k -> 0 < l -> 0 <= n -> a ^ l <= b ^ k -> a ^ n < b ^ (n * k / l + 1).
Proof.
  intros A B K L N P. assert (Q : n * k < (n * k / l + 1) * l) by (pose proof (Z.div_mod (n * k) l); pose proof (Z.mod_pos_bound (n * k) l); lia).
  assert (0 <= n * k / l) by (apply Z.div_pos; lia). apply (Z.pow_lt_mono_l_iff (a ^ n) (b ^ (n * k / l + 1)) l); [|apply Z.pow_nonneg; lia|lia|]; [apply Z.pow_nonneg; lia|].
  rewrite <- !Z.pow_mul_r by lia. apply Z.le_lt_trans with (b ^ (n * k)); [|apply Z.pow_lt_mono_r; nia].
  rewrite (Z.mul_comm n l), (Z.mul_comm n k), !Z.pow_mul_r by lia. apply Z.pow_le_mono_l. split; [apply Z.pow_nonneg; lia|done].
Qed.

Lemma span_spec f l n r : span f l = (n, r) -> exists l0, l = l0 ++ r /\ List.length l0 = n /\ Forall (fun x => f x = true) l0 /\ (forall x, head r = Some x -> f x = false).
Proof.
  revert n r. induction l as [|x l IH]; intros n r; cbn [span]; [intros [= <- <-]; by exists []|]. destruct (f x) eqn:E; [|intros [= <- <-]; exists []; split; [done|]; split; [done|]; split; [done|]; by intros y [= <-]].
  destruct (span f l) as [m r'] eqn:S. intros [= <- <-]. destruct (IH m r' eq_refl) as (l0 & -> & L & F & Hd). exists (x :: l0). split; [done|]. split; [cbn; congruence|]. split; [by constructor|done].
Qed.

Lemma span_app f l r : Forall (fun x => f x = true) l -> (forall x, head r = Some x -> f x = false) -> span f (l ++ r) = (List.length l, r).
Proof.
  intros F Hd. induction F as [|x l E F IH]; cbn [app span]; [|by rewrite E, IH]. destruct r as [|y r]; [done|]. cbn [span]. by rewrite (Hd y eq_refl).
Qed.

Lemma span_eq c l n r : span (fun x => x =? c) l = (n, r) -> l = replicate n c ++ r /\ (forall x, head r = Some x -> x <> c).
Proof.
  intros (l0 & -> & <- & F & Hd)%span_spec. split; [f_equal|intros x E%Hd; by apply Z.eqb_neq]. symmetry. apply replicate_as_elem_of. split; [done|]. intros x I. rewrite Forall_forall in F. by apply Z.eqb_eq, F.
Qed.

Definition char58 (d : Z) : Z := default 0 (pszBase58 !! Z.to_nat d).

(** Each character has its digit, none is a space, and 1 is the digit zero. *)
Lemma char58_facts d : 0 <= d < 58 -> pszBase58 !! Z.to_nat d = Some (char58 d) /\ index_of (char58 d) pszBase58 = Some d /\ isspace (char58 d) = false /\ (char58 d = 49 -> d = 0) /\ char58 d <> 0.
Proof.
  intros D. assert (A : forallb (fun n => bool_decide (pszBase58 !! n = Some (char58 (Z.of_nat n)) /\ index_of (char58 (Z.of_nat n)) pszBase58 = Some (Z.of_nat n)) && negb (isspace (char58 (Z.of_nat n)))
    && ((negb (char58 (Z.of_nat n) =? 49)) || (n =? 0)%nat) && negb (char58 (Z.of_nat n) =? 0)) (seq 0 58) = true) by (vm_compute; reflexivity).
  rewrite forallb_forall in A. specialize (A (Z.to_nat d) ltac:(apply in_seq; lia)). rewrite Z2Nat.id in A by lia. rewrite !andb_true_iff in A. destruct A as [[[A1 A2%negb_true_iff] A3%orb_true_iff] A4%negb_true_iff]. apply bool_decide_eq_true in A1.
  split; [apply A1|]. split; [apply A1|]. split; [done|]. split; [|by apply Z.eqb_neq]. intros E. rewrite E in A3. destruct A3 as [|A3%Nat.eqb_eq]; [done|lia].
Qed.

Lemma index_of_char c d : index_of c pszBase58 = Some d -> 0 <= d < 58 /\ c = char58 d.
Proof.
  assert (G : forall s i, index_of c s = Some i -> 0 <= i < size s /\ s !! Z.to_nat i = Some c).
  { induction s as [|x s IH]; intros i; [done|]. cbn [index_of]. rewrite size_cons. destruct (Z.eqb_spec x c) as [->|]; [intros [= <-]; pose proof (size_nonneg s); split; [lia|done]|].
    destruct (index_of c s) as [j|]; [|done]. intros [= <-]. destruct (IH j eq_refl) as [J L]. split; [lia|]. by replace (Z.to_nat (j + 1)) with (S (Z.to_nat j)) by lia. }
  intros (D & L)%G. split; [exact D|]. unfold char58. by rewrite L.
Qed.

Lemma char58_inj d d' : 0 <= d < 58 -> 0 <= d' < 58 -> char58 d = char58 d' -> d = d'.
Proof. intros D D' E. destruct (char58_facts d D) as (_ & A & _), (char58_facts d' D') as (_ & A' & _). congruence. Qed.

(** The string of a byte string: a 1 for each leading zero, then the digits of
    the number. *)
Definition base58 (v s : bytes) : Prop := exists z bs ds, v = replicate z 0 ++ bs /\ s = replicate z 49 ++ (char58 <$> ds) /\
  digits_ok 256 bs /\ canonical (reverse bs) /\ digits_ok 58 ds /\ canonical (reverse ds) /\ num 58 (reverse ds) = num 256 (reverse bs).

Lemma mapM_chars ds : digits_ok 58 ds -> mapM (fun d => pszBase58 !! Z.to_nat d) ds = Some (char58 <$> ds).
Proof. intros F. apply mapM_Some. induction F as [|d ds D F IH]; constructor; [by apply char58_facts|done]. Qed.

Lemma canonical_reverse l : canonical (reverse l) <-> (forall x, head l = Some x -> x <> 0).
Proof. unfold canonical. destruct l as [|x l]; [done|]. rewrite reverse_cons, last_snoc. done. Qed.

Lemma EncodeBase58_spec v : bytes_ok v -> size v <= 2 ^ 30 -> exists s, EncodeBase58 v = Some s /\ base58 v s.
Proof.
  intros B S. unfold EncodeBase58. destruct (span _ v) as [z p] eqn:Sp. apply span_eq in Sp as [-> Hd]. apply Forall_app in B as [_ P]. rewrite size_app in S. pose proof (size_nonneg p). pose proof (size_nonneg (replicate z 0)).
  assert (Q : 0 <= size p * 138 / 100 <= 2 ^ 30 * 138 / 100) by (split; [apply Z.div_pos; lia|apply Z.div_le_mono; lia]). change (2 ^ 30 * 138 / 100) with 1481763717 in Q.
  rewrite i32_id by (unfold in_i32, INT32_MIN, INT32_MAX; lia). rewrite (proj2 (Z.ltb_ge _ _)) by lia.
  destruct (encode_loop_spec p 0 (replicate (Z.to_nat (size p * 138 / 100 + 1)) 0) P (digits_start 58 _ ltac:(lia))) as (b & len & E & D & N).
  { rewrite num_zeros. unfold size at 2. rewrite length_replicate, Z2Nat.id by lia. pose proof (power_capacity 256 58 138 100 (size p) ltac:(lia) ltac:(lia) ltac:(lia) ltac:(lia) ltac:(lia) ltac:(vm_compute; discriminate)). lia. }
  rewrite E. cbn [mbind option_bind]. rewrite num_zeros in N. pose proof (dg_canonical _ _ _ D) as Cn. rewrite <- (reverse_involutive (take len b)) in Cn. pose proof (proj1 (canonical_reverse _) Cn) as Hr.
  pose proof (proj2 (Forall_reverse _ _) (Forall_take _ len _ (dg_ok _ _ _ D))) as F. rewrite (span_app _ [] (reverse (take len b))); [|done|intros x X; by apply Z.eqb_neq, Hr]. cbn [app].
  rewrite mapM_chars by done. cbn [mbind option_bind]. eexists. split; [done|]. exists z, p, (reverse (take len b)). split; [done|]. split; [done|]. split; [exact P|].
  split; [by apply canonical_reverse|]. split; [done|]. split; [done|]. rewrite reverse_involutive, (digits_num _ _ _ D), N. lia.
Qed.

(** ** Decoding *)

Lemma decode_capacity base b n ch : 0 <= ch < 58 -> 0 <= n -> 0 <= num base b -> (num base b + 1) * 58 ^ (n + 1) <= base ^ size b ->
  ch + 58 * num base b < base ^ size b /\ (ch + 58 * num base b + 1) * 58 ^ n <= base ^ size b.
Proof. intros C N B L. rewrite Z.pow_add_r, Z.pow_1_r in L by lia. pose proof (Z.pow_pos_nonneg 58 n). split; nia. Qed.

Lemma decode_loop_sound z max psz : forall length b, digits 256 length b -> (num 256 b + 1) * 58 ^ size psz <= 256 ^ size b ->
  exists r, decode_loop z max length b psz = Some r /\ forall b' len' rest, r = Some (b', len', rest) -> exists ds, psz = (char58 <$> ds) ++ rest /\ (forall x, head rest = Some x -> isspace x = true) /\
    digits_ok 58 ds /\ digits 256 len' b' /\ num 256 b' = num 256 b * 58 ^ size ds + num 58 (reverse ds) /\ (ds = [] /\ len' = length \/ Z.of_nat len' + Z.of_nat z <= max).
Proof.
  induction psz as [|c psz IH]; intros length b D C; cbn [decode_loop].
  - eexists. split; [done|]. intros b' len' rest [= <- <- <-]. exists []. repeat (split; [done|]). split; [change (size []) with 0; cbn; lia|by left].
  - destruct (isspace c) eqn:Sp.
    { eexists. split; [done|]. intros b' len' rest [= <- <- <-]. exists []. split; [done|]. split; [by intros x [= <-]|]. repeat (split; [done|]). split; [change (size []) with 0; cbn; lia|by left]. }
    destruct (index_of c pszBase58) as [ch|] eqn:I; [|by exists None]. apply index_of_char in I as [Ch ->]. rewrite size_cons in C. destruct (num_bound 256 b ltac:(lia) (dg_ok _ _ _ D)) as [Nn _].
    destruct (decode_capacity 256 b (size psz) ch Ch (size_nonneg psz) Nn C) as [C1 C2]. destruct (round 58 256 length b ch) as (b1 & i & E & D1 & L & N); [lia|lia|done|done|]. rewrite E. unfold assert. cbn [Z.eqb].
    destruct (Z.ltb_spec max (Z.of_nat i + Z.of_nat z)); [by exists None|]. destruct (IH i b1 D1) as (r & Er & R); [unfold size in *; rewrite L, N; lia|]. exists r. split; [done|].
    intros b' len' rest ->. destruct (R b' len' rest eq_refl) as (ds & -> & Hs & F & D2 & N2 & Mx). exists (ch :: ds). split; [done|]. split; [done|]. split; [by constructor|]. split; [done|].
    split; [rewrite N2, N, num_reverse_cons, size_cons, Z.pow_add_r, Z.pow_1_r by (pose proof (size_nonneg ds); lia); lia|]. right. destruct Mx as [[_ ->]|?]; lia.
Qed.

Lemma decode_loop_complete z max rest L ds : forall length b, (forall x, head rest = Some x -> isspace x = true) -> digits_ok 58 ds -> digits 256 length b -> (num 256 b + 1) * 58 ^ size ds <= 256 ^ size b ->
  num 256 b * 58 ^ size ds + num 58 (reverse ds) < 256 ^ Z.of_nat L -> Z.of_nat L + Z.of_nat z <= max ->
  exists b' len', decode_loop z max length b ((char58 <$> ds) ++ rest) = Some (Some (b', len', rest)) /\ digits 256 len' b' /\ num 256 b' = num 256 b * 58 ^ size ds + num 58 (reverse ds).
Proof.
  induction ds as [|ch ds IH]; intros length b Hs F D C NL Mx.
  - exists b, length. cbn [fmap list_fmap app]. split; [|split; [done|change (size []) with 0; cbn; lia]]. destruct rest as [|x rest]; [done|]. cbn [decode_loop]. by rewrite (Hs x eq_refl).
  - apply Forall_cons in F as [Ch F]. rewrite size_cons in C. destruct (num_bound 256 b ltac:(lia) (dg_ok _ _ _ D)) as [Nn _]. destruct (decode_capacity 256 b (size ds) ch Ch (size_nonneg ds) Nn C) as [C1 C2].
    destruct (char58_facts ch Ch) as (_ & I & Sp & _). change ((char58 <$> ch :: ds) ++ rest) with (char58 ch :: (char58 <$> ds) ++ rest). cbn [decode_loop]. rewrite Sp, I.
    destruct (round 58 256 length b ch) as (b1 & i & E & D1 & Le & N); [lia|lia|done|done|]. rewrite E. unfold assert. cbn [Z.eqb].
    rewrite num_reverse_cons, size_cons, Z.pow_add_r, Z.pow_1_r in * by (pose proof (size_nonneg ds); lia). destruct (num_bound 58 (reverse ds) ltac:(lia) (proj2 (Forall_reverse _ _) F)) as [Nr _].
    pose proof (Z.pow_pos_nonneg 58 (size ds) ltac:(lia) (size_nonneg ds)). assert (i <= L)%nat by (apply (digits_least 256 i b1); [lia|done|nia]). rewrite (proj2 (Z.ltb_ge _ _)) by lia.
    destruct (IH i b1 Hs F D1) as (b' & len' & Er & D2 & N2); [unfold size in *; rewrite Le, N; lia|rewrite N; nia|done|]. exists b', len'. split; [done|]. split; [done|]. rewrite N2, N. lia.
Qed.

Abbreviation spaces := (Forall (fun c => isspace c = true)).

Lemma decode_buffer (p : bytes) : size p <= 2 ^ 30 -> in_i32 (size p * 733 / 1000 + 1) /\ 0 <= size p * 733 / 1000 /\ 58 ^ size p < 256 ^ size (replicate (Z.to_nat (size p * 733 / 1000 + 1)) 0).
Proof.
  intros S. pose proof (size_nonneg p). assert (Q : 0 <= size p * 733 / 1000 <= 2 ^ 30 * 733 / 1000) by (split; [apply Z.div_pos; lia|apply Z.div_le_mono; lia]). change (2 ^ 30 * 733 / 1000) with 787052756 in Q.
  split; [unfold in_i32, INT32_MIN, INT32_MAX; lia|]. split; [lia|]. unfold size at 2. rewrite length_replicate, Z2Nat.id by lia. apply power_capacity; lia.
Qed.

Lemma DecodeBase58_sound psz max : size psz <= 2 ^ 30 -> exists r, DecodeBase58 psz max = Some r /\
  forall v, r = Some v -> exists sp s sp', psz = sp ++ s ++ sp' /\ spaces sp /\ spaces sp' /\ base58 v s /\ (size v <= max \/ v = []).
Proof.
  intros S. unfold DecodeBase58. destruct (span isspace psz) as [n0 p0] eqn:S0. apply span_spec in S0 as (sp & -> & _ & F0 & _). destruct (span _ p0) as [z p] eqn:S1. apply span_eq in S1 as [-> H1].
  rewrite !size_app in S. pose proof (size_nonneg sp). pose proof (size_nonneg (replicate z 49)). destruct (decode_buffer p ltac:(lia)) as (R & P & Cap).
  destruct ((0 <? Z.of_nat z) && (max <? Z.of_nat z)) eqn:Mz; [by exists None|]. rewrite i32_id, (proj2 (Z.ltb_ge _ _)) by (done || lia).
  destruct (decode_loop_sound z max p 0 (replicate (Z.to_nat (size p * 733 / 1000 + 1)) 0) (digits_start 256 _ ltac:(lia))) as (r & -> & Sd); [rewrite num_zeros; lia|]. cbn [mbind option_bind].
  destruct r as [[[b len] rest]|]; [|by exists None]. destruct (Sd b len rest eq_refl) as (ds & -> & Hs & F & D & N & Mx). destruct (span isspace rest) as [n1 rest'] eqn:S2. apply span_spec in S2 as (sp' & -> & _ & F2 & H2).
  eexists. split; [done|]. intros v. case_bool_decide as E; [|done]. intros [= <-]. subst rest'. rewrite app_nil_r in *. exists sp, (replicate z 49 ++ (char58 <$> ds)), sp'. rewrite <- !app_assoc. split; [done|]. split; [done|]. split; [done|]. split.
  - exists z, (reverse (take len b)), ds. split; [done|]. split; [done|]. split; [apply Forall_reverse, Forall_take, D|]. split; [rewrite reverse_involutive; apply D|]. split; [done|].
    split; [|rewrite reverse_involutive, (digits_num _ _ _ D), N, num_zeros; lia]. apply canonical_reverse. intros x Hx Z0. subst x. destruct ds as [|d ds]; [done|]. injection Hx as ->. exact (H1 (char58 0) eq_refl eq_refl).
  - rewrite size_app. unfold size. rewrite length_replicate, length_reverse, length_take_le by apply D. apply andb_false_iff in Mz. destruct Mx as [[-> ->]|?]; [|lia].
    destruct z; [right; done|]. left. destruct Mz as [Mz%Z.ltb_ge|Mz%Z.ltb_ge]; lia.
Qed.

Lemma DecodeBase58_spaces sp max : spaces sp -> DecodeBase58 sp max = Some (Some []).
Proof.
  intros F. unfold DecodeBase58. rewrite <- (app_nil_r sp), (span_app isspace sp []) by done. cbn [span fst snd Z.of_nat Z.ltb Z.compare andb]. rewrite i32_id by (vm_compute; by split). reflexivity.
Qed.

Lemma DecodeBase58_complete v s sp sp' max : base58 v s -> spaces sp -> spaces sp' -> size v <= max -> size (sp ++ s ++ sp') <= 2 ^ 30 -> DecodeBase58 (sp ++ s ++ sp') max = Some (Some v).
Proof.
  intros (z & bs & ds & -> & -> & Fb & Cb & Fd & Cd & N) Fs Fs' Mx S. rewrite size_app in Mx. pose proof (size_nonneg bs). assert (Zz : size (replicate z 0) = Z.of_nat z) by (unfold size; by rewrite length_replicate).
  destruct (decide (z = O /\ ds = [])) as [[-> ->]|NE].
  { assert (bs = []) as ->. { destruct (decide (bs = [])) as [|NB]; [done|]. pose proof (canonical_pos 256 (reverse bs) ltac:(lia) (proj2 (Forall_reverse _ _) Fb) Cb) as P. assert (reverse bs <> []) by (by intros X%(f_equal reverse); rewrite reverse_involutive in X). cbn in N. specialize (P H0). lia. }
    apply DecodeBase58_spaces. by apply Forall_app. }
  unfold DecodeBase58. rewrite (span_app isspace sp); [|done|].
  2: { intros x Hx. destruct z as [|z]; [|by injection Hx as <-]. destruct ds as [|d ds]; [naive_solver|]. injection Hx as <-. apply Forall_cons in Fd as [D _]. by apply char58_facts. }
  rewrite <- app_assoc. rewrite (span_app (fun c => c =? 49) (replicate z 49)); [|by apply Forall_replicate|].
  2: { intros x Hx. apply Z.eqb_neq. destruct ds as [|d ds]; [destruct sp' as [|y sp']; [done|]; injection Hx as <-; apply Forall_cons in Fs' as [E _]; intros ->; done|].
       injection Hx as <-. apply Forall_cons in Fd as [D _]. intros E. apply char58_facts in E as ->; [|done]. rewrite reverse_cons in Cd. by apply (Cd 0); [rewrite last_snoc|]. }
  rewrite length_replicate. set (p := (char58 <$> ds) ++ sp'). rewrite !size_app in S. pose proof (size_nonneg sp). pose proof (size_nonneg sp'). pose proof (size_nonneg (replicate z 49)).
  assert (Sp : size p = size ds + size sp') by (unfold p; rewrite size_app; unfold size; by rewrite length_fmap). assert (Sd : size (char58 <$> ds) = size ds) by (unfold size; by rewrite length_fmap).
  destruct (decode_buffer p ltac:(lia)) as (R & P & Cap). rewrite (proj2 (Z.ltb_ge max (Z.of_nat z))) by lia. rewrite andb_false_r, i32_id, (proj2 (Z.ltb_ge _ _)) by (done || lia).
  destruct (num_bound 256 (reverse bs) ltac:(lia) (proj2 (Forall_reverse _ _) Fb)) as [_ Nb]. unfold size in Nb at 1. rewrite length_reverse in Nb.
  destruct (decode_loop_complete z max sp' (List.length bs) ds 0 (replicate (Z.to_nat (size p * 733 / 1000 + 1)) 0)) as (b & len & E & D & N2); [| | | | | |fold p in E; rewrite E; cbn [mbind option_bind]].
  - intros x Hx. destruct sp'; [done|]. injection Hx as ->. by apply Forall_cons in Fs' as [? _].
  - done.
  - apply digits_start. lia.
  - rewrite num_zeros. pose proof (Z.pow_le_mono_r 58 (size ds) (size p) ltac:(lia) ltac:(lia)). lia.
  - rewrite num_zeros. lia.
  - unfold size in Mx at 2. lia.
  - rewrite <- (app_nil_r sp') at 1. rewrite (span_app isspace sp' []) by done. rewrite bool_decide_true by done. rewrite num_zeros in N2. do 4 f_equal. rewrite <- (reverse_involutive bs). f_equal.
    apply (canonical_unique 256); [lia|apply Forall_take, D|by apply Forall_reverse|apply D|done|]. rewrite (digits_num _ _ _ D), N2. lia.
Qed.

(** The relation is a function in both directions. *)
Lemma replicate_head_inj {c : Z} z z' l l' : (forall x, head l = Some x -> x <> c) -> (forall x, head l' = Some x -> x <> c) -> replicate z c ++ l = replicate z' c ++ l' -> z = z' /\ l = l'.
Proof.
  revert z'. induction z as [|z IH]; intros [|z'] Hl Hl' E; cbn in E; [done| | |].
  - subst l. by destruct (Hl c).
  - subst l'. by destruct (Hl' c).
  - injection E as E. destruct (IH z' Hl Hl' E) as [-> ->]. done.
Qed.

Lemma base58_encode_unique v s s' : base58 v s -> base58 v s' -> s = s'.
Proof.
  intros (z & bs & ds & -> & -> & Fb & Cb & Fd & Cd & N) (z' & bs' & ds' & E & -> & Fb' & Cb' & Fd' & Cd' & N').
  apply replicate_head_inj in E as (Ez & Eb); [subst z' bs'|by apply canonical_reverse|by apply canonical_reverse]. do 2 f_equal. rewrite <- (reverse_involutive ds), <- (reverse_involutive ds'). f_equal.
  apply (canonical_unique 58); [lia|by apply Forall_reverse|by apply Forall_reverse|done|done|congruence].
Qed.

Lemma EncodeBase58_iff v s : bytes_ok v -> size v <= 2 ^ 30 -> EncodeBase58 v = Some s <-> base58 v s.
Proof.
  intros B S. destruct (EncodeBase58_spec v B S) as (s' & E & R). rewrite E. split; [by intros [= <-]|]. intros R'. f_equal. by apply (base58_encode_unique v).
Qed.

Lemma base58_bytes v s : base58 v s -> bytes_ok v.
Proof. intros (z & bs & ds & -> & _ & F & _). apply Forall_app. split; [apply Forall_replicate; unfold byte_ok; lia|done]. Qed.

(** Decoding inverts encoding, up to spaces around the string. *)
Lemma DecodeBase58_iff psz max v : size psz <= 2 ^ 30 -> 0 <= max <= 2 ^ 30 ->
  DecodeBase58 psz max = Some (Some v) <-> bytes_ok v /\ size v <= max /\ exists sp s sp', EncodeBase58 v = Some s /\ psz = sp ++ s ++ sp' /\ spaces sp /\ spaces sp'.
Proof.
  intros S Mx. split.
  - intros E. destruct (DecodeBase58_sound psz max S) as (r & E' & R). rewrite E in E'. injection E' as <-. destruct (R v eq_refl) as (sp & s & sp' & -> & F & F' & B & Sv).
    pose proof (base58_bytes _ _ B) as Bv. assert (size v <= max) by (destruct Sv as [| ->]; [done|change (size []) with 0; lia]). split; [done|]. split; [done|]. exists sp, s, sp'. split; [apply EncodeBase58_iff; [done|lia|done]|done].
  - intros (B & Sv & sp & s & sp' & E & -> & F & F'). apply EncodeBase58_iff in E; [|done|lia]. by apply DecodeBase58_complete.
Qed.

(** ** With a checksum *)

Section Checksum.
Context `{HashFunctions}.

Lemma checksum_size v : size (checksum v) = 4 /\ bytes_ok (checksum v).
Proof. unfold checksum, size. rewrite length_take, length_le_bytes. split; [done|apply Forall_take, le_bytes_ok]. Qed.

Lemma DecodeBase58Check_total psz max : size psz <= 2 ^ 30 -> exists r, DecodeBase58Check psz max = Some r.
Proof.
  intros S. unfold DecodeBase58Check. destruct (DecodeBase58_sound psz (if INT32_MAX - 4 <? max then INT32_MAX else max + 4) S) as (r & -> & _). cbn [mbind option_bind].
  destruct r; [|by eexists]. case_match; by eexists.
Qed.

Lemma DecodeBase58Check_iff psz max v : size psz <= 2 ^ 30 -> 0 <= max < 2 ^ 30 - 4 ->
  DecodeBase58Check psz max = Some (Some v) <-> bytes_ok v /\ size v <= max /\ exists sp s sp', EncodeBase58Check v = Some s /\ psz = sp ++ s ++ sp' /\ spaces sp /\ spaces sp'.
Proof.
  intros S Mx. unfold DecodeBase58Check. rewrite (proj2 (Z.ltb_ge _ _)) by (unfold INT32_MAX; lia). destruct (checksum_size v) as [Cs Cb]. split.
  - destruct (DecodeBase58 psz (max + 4)) as [[w|]|] eqn:E; [|done..]. cbn [mbind option_bind]. destruct (Z.ltb_spec (size w) 4) as [|Sw]; [done|]. case_bool_decide as C; [|done]. intros [= <-].
    apply DecodeBase58_iff in E as (B & Sz & X); [|done|lia]. assert (Ew : take (List.length w - 4) w ++ checksum (take (List.length w - 4) w) = w) by (rewrite C; apply take_drop).
    split; [by apply Forall_take|]. split; [unfold size in *; rewrite length_take; lia|]. unfold EncodeBase58Check. by rewrite Ew.
  - intros (B & Sv & X). unfold EncodeBase58Check in X. assert (E : DecodeBase58 psz (max + 4) = Some (Some (v ++ checksum v))).
    { apply DecodeBase58_iff; [done|lia|]. split; [by apply Forall_app|]. rewrite size_app. split; [lia|done]. }
    rewrite E. cbn [mbind option_bind]. pose proof (size_nonneg v). rewrite (proj2 (Z.ltb_ge _ _)) by (rewrite size_app; lia). assert (L : (List.length (v ++ checksum v) - 4)%nat = List.length v) by (rewrite length_app; unfold size in Cs; lia).
    rewrite L, take_app_length, drop_app_length. by rewrite bool_decide_true.
Qed.

(** An encoded string has no NUL. *)
Lemma base58_no_nul v s sp sp' : base58 v s -> spaces sp -> spaces sp' -> ValidAsCString (sp ++ s ++ sp') = true.
Proof.
  intros (z & bs & ds & -> & -> & _ & _ & Fd & _) F F'. unfold ValidAsCString. rewrite !forallb_app, !andb_true_iff, !forallb_forall. assert (Sp : forall l, spaces l -> forall c, In c l -> negb (c =? 0) = true).
  { intros l Fl c I. rewrite Forall_forall in Fl. apply list_elem_of_In in I. destruct (Z.eqb_spec c 0) as [->|]; [by specialize (Fl 0 I)|done]. }
  split; [by apply Sp|]. split; [split|by apply Sp].
  - intros c I. apply list_elem_of_In, elem_of_replicate in I as [-> _]. done.
  - intros c I. apply list_elem_of_In, list_elem_of_fmap in I as (d & -> & I). rewrite Forall_forall in Fd. apply negb_true_iff, Z.eqb_neq. by apply char58_facts, Fd.
Qed.

Lemma DecodeBase58Check_string_iff s max v : size s <= 2 ^ 30 -> 0 <= max < 2 ^ 30 - 4 ->
  DecodeBase58Check_string s max = Some (Some v) <-> bytes_ok v /\ size v <= max /\ exists sp e sp', EncodeBase58Check v = Some e /\ s = sp ++ e ++ sp' /\ spaces sp /\ spaces sp'.
Proof.
  intros S Mx. unfold DecodeBase58Check_string. rewrite <- DecodeBase58Check_iff by done. split; [by destruct (ValidAsCString s)|]. intros E. rewrite E. apply DecodeBase58Check_iff in E as (B & Sv & sp & e & sp' & E & -> & F & F'); [|done|done].
  destruct (checksum_size v) as [Cs Cb]. unfold EncodeBase58Check in E. apply EncodeBase58_iff in E; [by rewrite (base58_no_nul _ _ _ _ E F F')|by apply Forall_app|rewrite size_app; lia].
Qed.

Lemma DecodeBase58Check_string_total s max : size s <= 2 ^ 30 -> exists r, DecodeBase58Check_string s max = Some r.
Proof. intros S. unfold DecodeBase58Check_string. destruct (ValidAsCString s); [by apply DecodeBase58Check_total|by eexists]. Qed.

Lemma EncodeBase58Check_total v : bytes_ok v -> size v < 2 ^ 30 - 4 -> exists s, EncodeBase58Check v = Some s.
Proof. intros B S. destruct (checksum_size v) as [Cs Cb]. destruct (EncodeBase58_spec (v ++ checksum v)) as (s & E & _); [by apply Forall_app|rewrite size_app; lia|]. by exists s. Qed.

(** The four bytes of the checksum and the payload determine the string. *)
Lemma EncodeBase58Check_inj v v' s sp sp' sq sq' s' : bytes_ok v -> bytes_ok v' -> size v < 2 ^ 20 -> size v' < 2 ^ 20 -> size (sp ++ s ++ sp') <= 2 ^ 30 ->
  EncodeBase58Check v = Some s -> EncodeBase58Check v' = Some s' -> spaces sp -> spaces sp' -> spaces sq -> spaces sq' -> sp ++ s ++ sp' = sq ++ s' ++ sq' -> v = v'.
Proof.
  intros B B' S S' Sz E E' F F' G G' Eq. assert (D : DecodeBase58Check (sp ++ s ++ sp') (2 ^ 20) = Some (Some v)) by (apply DecodeBase58Check_iff; [done|lia|]; split; [done|]; split; [lia|]; by exists sp, s, sp').
  assert (D' : DecodeBase58Check (sp ++ s ++ sp') (2 ^ 20) = Some (Some v')) by (apply DecodeBase58Check_iff; [done|lia|]; split; [done|]; split; [lia|]; rewrite Eq; by exists sq, s', sq'). congruence.
Qed.
End Checksum.
