(* ===== verification/KeyIO.v ===== *)
(** * Addresses

    key_io.cpp: the strings of destinations and of secret keys, over base 58
    with a checksum, and the prefixes of chainparams.cpp. *)

From S2P Require Import Prelude Params Crypto StrEncodings Standard Base58.

Local Open Scope krova_scope.
Local Open Scope Z_scope.

(** ** Definitions *)

Inductive Base58Type := PUBKEY_ADDRESS | SCRIPT_ADDRESS | SECRET_KEY | EXT_PUBLIC_KEY | EXT_SECRET_KEY | EXT_COIN_TYPE | STAKING_ADDRESS | EXCHANGE_ADDRESS.

(** [base58Prefixes] of the main network, and of the other two. *)
Definition main_Base58Prefix (type : Base58Type) : bytes :=
  match type with
  | PUBKEY_ADDRESS => [45]
  | SCRIPT_ADDRESS => [105]
  | STAKING_ADDRESS => [63]
  | EXCHANGE_ADDRESS => [0x01; 0xb9; 0xa2]
  | SECRET_KEY => [173]
  | EXT_PUBLIC_KEY => [0x02; 0x2D; 0x25; 0x33]
  | EXT_SECRET_KEY => [0x02; 0x21; 0x31; 0x2B]
  | EXT_COIN_TYPE => [0x80; 0x00; 0x03; 0x39]
  end.

Definition test_Base58Prefix (type : Base58Type) : bytes :=
  match type with
  | PUBKEY_ADDRESS => [139]
  | SCRIPT_ADDRESS => [19]
  | STAKING_ADDRESS => [73]
  | EXCHANGE_ADDRESS => [0x01; 0xb9; 0xb1]
  | SECRET_KEY => [239]
  | EXT_PUBLIC_KEY => [0x3a; 0x80; 0x61; 0xa0]
  | EXT_SECRET_KEY => [0x3a; 0x80; 0x58; 0x37]
  | EXT_COIN_TYPE => [0x80; 0x00; 0x00; 0x01]
  end.

Definition Base58Prefix (net : Network) : Base58Type -> bytes :=
  match net with MAIN => main_Base58Prefix | TESTNET | REGTEST => test_Base58Prefix end.

Section KeyIO.
Context `{HashFunctions} (net : Network).

(** [DestinationEncoder] with its [m_addrType]. *)
Definition EncodeDestination_type (dest : CTxDestination) (addrType : Base58Type) : option bytes :=
  match dest with
  | CKeyID id => EncodeBase58Check (Base58Prefix net addrType ++ id)
  | CExchangeKeyID id => EncodeBase58Check (Base58Prefix net EXCHANGE_ADDRESS ++ id)
  | CScriptID id => EncodeBase58Check (Base58Prefix net SCRIPT_ADDRESS ++ id)
  | CNoDestination => Some []
  end.

Definition EncodeDestination (dest : CTxDestination) (isStaking isExchange : bool) : option bytes :=
  if isExchange then EncodeDestination_type dest EXCHANGE_ADDRESS
  else if isStaking then EncodeDestination_type dest STAKING_ADDRESS
  else EncodeDestination_type dest PUBKEY_ADDRESS.

(** [data.size() == hash.size() + prefix.size() && std::equal(...)], and the
    rest of the data. *)
Definition payload (type : Base58Type) (data : bytes) : option bytes :=
  let prefix := Base58Prefix net type in
  if (size data =? 20 + size prefix) && bool_decide (take (length prefix) data = prefix) then Some (drop (length prefix) data) else None.

(** With the two flags that it may set. *)
Definition DecodeDestination (s : bytes) (isStaking isExchange : bool) : option (CTxDestination * bool * bool) :=
  r ← DecodeBase58Check_string s 23;
  Some (match r with
        | None => (CNoDestination, isStaking, isExchange)
        | Some data =>
            match payload PUBKEY_ADDRESS data with
            | Some hash => (CKeyID hash, isStaking, isExchange)
            | None =>
                match payload EXCHANGE_ADDRESS data with
                | Some hash => (CExchangeKeyID hash, isStaking, true)
                | None =>
                    match payload STAKING_ADDRESS data with
                    | Some hash => (CKeyID hash, true, isExchange)
                    | None =>
                        match payload SCRIPT_ADDRESS data with
                        | Some hash => (CScriptID hash, isStaking, isExchange)
                        | None => (CNoDestination, isStaking, isExchange)
                        end
                    end
                end
            end
        end).

(** script/standard.cpp *)
Definition IsValidDestination (dest : CTxDestination) : bool := match dest with CNoDestination => false | _ => true end.

Definition IsValidDestinationString (s : bytes) (fStaking : bool) : option bool :=
  '(dest, isStaking, _) ← DecodeDestination s false false;
  Some (IsValidDestination dest && eqb isStaking fStaking).

(** [CKey::Check] of secp256k1, and a key with its data. *)
Context (seckey_verify : bytes -> bool).

Record CKey := { keydata : bytes; fCompressed : bool }.

(** [CKey::Set]: [None] is a key that is not valid. *)
Definition CKey_Set (data : bytes) (fCompressedIn : bool) : option CKey :=
  if negb (size data =? 32) then None
  else if seckey_verify data then Some {| keydata := data; fCompressed := fCompressedIn |} else None.

Definition DecodeSecret (s : bytes) : option (option CKey) :=
  r ← DecodeBase58Check_string s 34;
  Some (data ← r;
        let prefix := Base58Prefix net SECRET_KEY in
        if ((size data =? 32 + size prefix) || ((size data =? 33 + size prefix) && bool_decide (last data = Some 1))) && bool_decide (take (length prefix) data = prefix) then
          CKey_Set (take 32 (drop (length prefix) data)) (size data =? 33 + size prefix)
        else None).

(** Of a valid key. *)
Definition EncodeSecret (key : CKey) : option bytes :=
  EncodeBase58Check (Base58Prefix net SECRET_KEY ++ keydata key ++ (if fCompressed key then [1] else [])).

End KeyIO.

(** ** Lemmas *)

Section Lemmas.
Context `{HashFunctions}.

Lemma payload_iff net type data h : payload net type data = Some h <-> data = Base58Prefix net type ++ h /\ size h = 20.
Proof.
  unfold payload. split.
  - destruct (_ && _) eqn:E; [|done]. apply andb_true_iff in E as [S%Z.eqb_eq T%bool_decide_eq_true]. intros [= <-]. split; [by rewrite <- T at 1; rewrite take_drop|].
    unfold size in *. rewrite length_drop. lia.
  - intros [-> S]. rewrite take_app_length, drop_app_length, size_app, bool_decide_true, (proj2 (Z.eqb_eq _ _)) by (done || lia). done.
Qed.

Lemma prefix_facts net type : bytes_ok (Base58Prefix net type) /\ size (Base58Prefix net type) <= 4.
Proof. split; [apply bytes_okb_spec|apply Z.leb_le]; by destruct net, type. Qed.

(** The destinations that have an address, with their flags. *)
Definition proper (dest : CTxDestination) (isStaking isExchange : bool) : Prop :=
  match dest with
  | CKeyID id => size id = 20 /\ bytes_ok id /\ isExchange = false
  | CScriptID id => size id = 20 /\ bytes_ok id /\ isStaking = false /\ isExchange = false
  | CExchangeKeyID id => size id = 20 /\ bytes_ok id /\ isStaking = false /\ isExchange = true
  | CNoDestination => False
  end.

(** The bytes that an address stands for. *)
Definition address_data (net : Network) (dest : CTxDestination) (isStaking : bool) : bytes :=
  match dest with
  | CKeyID id => Base58Prefix net (if isStaking then STAKING_ADDRESS else PUBKEY_ADDRESS) ++ id
  | CScriptID id => Base58Prefix net SCRIPT_ADDRESS ++ id
  | CExchangeKeyID id => Base58Prefix net EXCHANGE_ADDRESS ++ id
  | CNoDestination => []
  end.

Lemma EncodeDestination_data net d st ex : proper d st ex -> EncodeDestination net d st ex = EncodeBase58Check (address_data net d st).
Proof. destruct d; cbn [proper]; [done| | |]; intros P; destruct_and?; subst; by try destruct st. Qed.

Lemma address_data_ok net d st ex : proper d st ex -> bytes_ok (address_data net d st) /\ size (address_data net d st) <= 23.
Proof.
  intros P. assert (S : forall id, size id = 20 -> bytes_ok id -> forall t, size (Base58Prefix net t) <= 3 -> bytes_ok (Base58Prefix net t ++ id) /\ size (Base58Prefix net t ++ id) <= 23).
  { intros id Si B t St. rewrite size_app. split; [apply Forall_app; split; [apply prefix_facts|done]|lia]. }
  destruct d; [done|..]; destruct P as (Si & B & _); cbn [address_data]; apply S; try done; destruct net, st; vm_compute; discriminate.
Qed.

(** What the tests on the prefixes make of the data. *)
Definition of_data (net : Network) (data : bytes) : CTxDestination * bool * bool :=
  match payload net PUBKEY_ADDRESS data, payload net EXCHANGE_ADDRESS data, payload net STAKING_ADDRESS data, payload net SCRIPT_ADDRESS data with
  | Some hash, _, _, _ => (CKeyID hash, false, false)
  | _, Some hash, _, _ => (CExchangeKeyID hash, false, true)
  | _, _, Some hash, _ => (CKeyID hash, true, false)
  | _, _, _, Some hash => (CScriptID hash, false, false)
  | _, _, _, _ => (CNoDestination, false, false)
  end.

Lemma DecodeDestination_data net s : DecodeDestination net s false false = (r ← DecodeBase58Check_string s 23; Some (match r with None => (CNoDestination, false, false) | Some data => of_data net data end)).
Proof. unfold DecodeDestination, of_data. destruct (DecodeBase58Check_string s 23) as [[data|]|]; [|done..]. cbn [mbind option_bind]. by repeat case_match. Qed.

Lemma payload_other net t net' t' id : Base58Prefix net t <> Base58Prefix net' t' -> size id = 20 -> payload net' t' (Base58Prefix net t ++ id) = None.
Proof.
  intros N S. destruct (payload net' t' _) as [h|] eqn:E; [|done]. apply payload_iff in E as [E S']. destruct N. assert (L : size (Base58Prefix net t) = size (Base58Prefix net' t')) by (apply (f_equal size) in E; rewrite !size_app in E; lia).
  apply app_inj_1 in E as [E _]; [done|]. unfold size in L. lia.
Qed.

Lemma of_data_address net d st ex : proper d st ex -> of_data net (address_data net d st) = (d, st, ex).
Proof.
  assert (Own : forall t id, size id = 20 -> payload net t (Base58Prefix net t ++ id) = Some id) by (intros t id S; by apply payload_iff).
  unfold of_data. destruct d as [|id|id|id]; cbn [proper address_data]; [done|intros (S & B & ->)|intros (S & B & -> & ->)|intros (S & B & -> & ->)].
  - destruct st; [|by rewrite Own]. rewrite (payload_other net STAKING_ADDRESS net PUBKEY_ADDRESS), (payload_other net STAKING_ADDRESS net EXCHANGE_ADDRESS), Own by (done || by destruct net). done.
  - rewrite (payload_other net SCRIPT_ADDRESS net PUBKEY_ADDRESS), (payload_other net SCRIPT_ADDRESS net EXCHANGE_ADDRESS), (payload_other net SCRIPT_ADDRESS net STAKING_ADDRESS), Own by (done || by destruct net). done.
  - rewrite (payload_other net EXCHANGE_ADDRESS net PUBKEY_ADDRESS), Own by (done || by destruct net). done.
Qed.

Lemma of_data_proper net data d st ex : bytes_ok data -> of_data net data = (d, st, ex) -> d <> CNoDestination -> proper d st ex /\ data = address_data net d st.
Proof.
  unfold of_data. intros B E N. assert (P : forall t h, payload net t data = Some h -> data = Base58Prefix net t ++ h /\ size h = 20 /\ bytes_ok h).
  { intros t h [-> S]%payload_iff. split; [done|]. split; [done|]. by apply Forall_app in B as [_ B]. }
  repeat case_match; injection E as <- <- <-; try done; match goal with X : payload net _ data = Some _ |- _ => apply P in X as (-> & S & Bh) end; cbn; auto.
Qed.

(** An address of one network is none of the other. *)
Lemma of_data_network net net' d st ex : (net = MAIN <-> net' <> MAIN) -> proper d st ex -> of_data net' (address_data net d st) = (CNoDestination, false, false).
Proof.
  intros N P. assert (A : exists t id, address_data net d st = Base58Prefix net t ++ id /\ size id = 20 /\ forall t', t' = PUBKEY_ADDRESS \/ t' = EXCHANGE_ADDRESS \/ t' = STAKING_ADDRESS \/ t' = SCRIPT_ADDRESS -> Base58Prefix net t <> Base58Prefix net' t').
  { destruct d as [|id|id|id]; [done|..]; cbn [address_data]; (eexists _, id; split; [reflexivity|]; split; [apply P|]); intros t' T; destruct net, net', st; try (by exfalso; naive_solver); destruct T as [->|[->|[->| ->]]]; done. }
  destruct A as (t & id & -> & S & D). unfold of_data. rewrite !payload_other by auto 6. done.
Qed.

End Lemmas.

(** ** Secret keys *)

Lemma secret_roundtrip `{HashFunctions} net verify key sp e sp' :
  size (keydata key) = 32 -> bytes_ok (keydata key) -> verify (keydata key) = true -> EncodeSecret net key = Some e -> spaces sp -> spaces sp' -> size (sp ++ e ++ sp') <= 2 ^ 30 ->
  DecodeSecret net verify (sp ++ e ++ sp') = Some (Some key).
Proof.
  intros S B V E F F' Sz. set (data := Base58Prefix net SECRET_KEY ++ keydata key ++ (if fCompressed key then [1] else [])). assert (P1 : size (Base58Prefix net SECRET_KEY) = 1) by (by destruct net).
  assert (Sd : size data = 33 + (if fCompressed key then 1 else 0)) by (unfold data; rewrite !size_app, S, P1; by destruct (fCompressed key)).
  assert (D : DecodeBase58Check_string (sp ++ e ++ sp') 34 = Some (Some data)).
  { apply DecodeBase58Check_string_iff; [done|lia|]. split; [apply Forall_app; split; [apply prefix_facts|]; apply Forall_app; split; [done|apply bytes_okb_spec; by destruct (fCompressed key)]|].
    split; [rewrite Sd; by destruct (fCompressed key)|]. by exists sp, e, sp'. }
  unfold DecodeSecret. rewrite D. cbn [mbind option_bind]. rewrite Sd, P1. unfold data. rewrite take_app_length, drop_app_length, (bool_decide_true (Base58Prefix net SECRET_KEY = _)) by done.
  assert (L : List.length (keydata key) = 32%nat) by (unfold size in S; lia). rewrite <- L, take_app_length. unfold CKey_Set. rewrite S, V. destruct key as [kd [|]]; cbn [fCompressed keydata] in *; cbn [negb Z.eqb Pos.eqb Z.add Pos.add Pos.succ orb andb]; [|done].
  rewrite bool_decide_true; [done|]. by rewrite app_assoc, last_snoc.
Qed.

(** ** Properties *)

(** C32. Addresses.  [DecodeDestination] never fails an assertion; it answers with
    a destination exactly when the string is, up to spaces around it, the
    address that [EncodeDestination] gives for this destination and these
    flags.  So every destination is read back from its address, no string is
    the address of two destinations, and the address of one destination is
    unique.  An address of the main network is no address of the test networks,
    and the other way round. *)
Theorem address_codec `{HashFunctions} net (s : bytes) : size s <= 2 ^ 30 ->
  (exists r, DecodeDestination net s false false = Some r) /\
  (forall d st ex, DecodeDestination net s false false = Some (d, st, ex) /\ d <> CNoDestination <->
     proper d st ex /\ exists sp e sp', EncodeDestination net d st ex = Some e /\ s = sp ++ e ++ sp' /\ spaces sp /\ spaces sp') /\
  (forall d st ex net', DecodeDestination net s false false = Some (d, st, ex) -> d <> CNoDestination -> (net = MAIN <-> net' <> MAIN) ->
     DecodeDestination net' s false false = Some (CNoDestination, false, false)).
Proof.
  intros S. destruct (DecodeBase58Check_string_total s 23 S) as [r R]. setoid_rewrite DecodeDestination_data. rewrite R. cbn [mbind option_bind]. split; [by eexists|].
  pose proof (fun v => DecodeBase58Check_string_iff s 23 v S ltac:(lia)) as I. rewrite R in I. split.
  - intros d st ex. split.
    + intros [E N]. destruct r as [data|]; [|by injection E as <- <- <-]. injection E as E. destruct (proj1 (I data) eq_refl) as (B & _ & sp & e & sp' & En & Es & F & F').
      destruct (of_data_proper net data d st ex B E N) as [P ->]. split; [done|]. exists sp, e, sp'. by rewrite (EncodeDestination_data _ _ _ _ P).
    + intros [P (sp & e & sp' & En & Es & F & F')]. rewrite (EncodeDestination_data _ _ _ _ P) in En. destruct (address_data_ok net d st ex P) as [B Sz].
      assert (X : Some r = Some (Some (address_data net d st))) by (apply I; split; [done|]; split; [done|]; by exists sp, e, sp'). injection X as ->. rewrite (of_data_address net d st ex P). split; [done|]. by destruct d.
  - intros d st ex net' E N Nn. destruct r as [data|]; [|done]. injection E as E. destruct (proj1 (I data) eq_refl) as (B & _). destruct (of_data_proper net data d st ex B E N) as [P ->]. by rewrite (of_data_network net net' d st ex).
Qed.

Definition ex_address : bytes := default [] (EncodeDestination (H := checksum_hashes) MAIN (CKeyID (replicate 20 7)) false false).

Lemma address_codec_witness :
  DecodeDestination (H := checksum_hashes) MAIN (32 :: ex_address) false false = Some (CKeyID (replicate 20 7), false, false) /\
  DecodeDestination (H := checksum_hashes) TESTNET (32 :: ex_address) false false = Some (CNoDestination, false, false) /\ head ex_address = Some 75.
Proof.
  destruct (address_codec (H := checksum_hashes) MAIN (32 :: ex_address)) as (_ & A & B); [vm_compute; discriminate|].
  assert (P : proper (CKeyID (replicate 20 7)) false false) by (split; [reflexivity|]; split; [apply Forall_replicate; unfold byte_ok; lia|reflexivity]).
  destruct (proj2 (A (CKeyID (replicate 20 7)) false false)) as [E N].
  - split; [exact P|]. exists [32], ex_address, []. split; [vm_compute; reflexivity|]. split; [by rewrite app_nil_r|]. split; [by repeat constructor|constructor].
  - assert (M : MAIN = MAIN <-> TESTNET <> MAIN) by (split; [discriminate|reflexivity]).
    split; [exact E|]. split; [exact (B _ _ _ TESTNET E N M)|vm_compute; reflexivity].
Defined.
