(* ===== verification/Vesting.v ===== *)
(** * Calendar arithmetic and the team vesting schedule

    consensus/vesting.cpp, over a model of the C library's [gmtime_r] and
    [timegm] (proleptic Gregorian calendar, UTC), and the premine table of
    consensus/premine.h it reads. *)

From Stdlib Require Import String.
From S2P Require Import Prelude Params Crypto Script Standard StrEncodings Serialize Transaction.

Local Open Scope krova_scope.

(** ** [struct tm] *)

Module CivilTime.

Record tm := {
  tm_year : Z;   (* years since 1900 *)
  tm_mon : Z;    (* months since January *)
  tm_mday : Z;
  tm_hour : Z;
  tm_min : Z;
  tm_sec : Z
}.

(** Days since 1970-01-01 of a day in month [m] (1..12) of year [y]; the year
    is counted from March so that the leap day comes last.  A day beyond the
    end of the month is a day of the following one. *)
Definition days_from_civil (y m d : Z) : Z :=
  let y := if m <=? 2 then y - 1 else y in
  let era := y / 400 in
  let yoe := y mod 400 in
  let mp := if m <=? 2 then m + 9 else m - 3 in
  let doy := (153 * mp + 2) / 5 + d - 1 in
  era * 146097 + (yoe * 365 + yoe / 4 - yoe / 100 + doy) - 719468.

(** Year, month and day of a day number. *)
Definition civil_from_days (z : Z) : Z * Z * Z :=
  let z := z + 719468 in
  let era := z / 146097 in
  let doe := z mod 146097 in
  let yoe := (doe - doe / 1460 + doe / 36524 - doe / 146096) / 365 in
  let doy := doe - (365 * yoe + yoe / 4 - yoe / 100) in
  let mp := (5 * doy + 2) / 153 in
  let d := doy - (153 * mp + 2) / 5 + 1 in
  let m := if mp <? 10 then mp + 3 else mp - 9 in
  (if m <=? 2 then yoe + era * 400 + 1 else yoe + era * 400, m, d).

Definition gmtime_r (t : Z) : tm :=
  let '(y, m, d) := civil_from_days (t / 86400) in
  let s := t mod 86400 in
  {| tm_year := y - 1900; tm_mon := m - 1; tm_mday := d;
     tm_hour := s / 3600; tm_min := s mod 3600 / 60; tm_sec := s mod 60 |}.

(** Out-of-range months are normalised into the year first. *)
Definition timegm (v : tm) : Z :=
  let y := tm_year v + 1900 + tm_mon v / 12 in
  let m := tm_mon v mod 12 + 1 in
  days_from_civil y m (tm_mday v) * 86400 + tm_hour v * 3600 + tm_min v * 60 + tm_sec v.

(** *** Correctness of the calendar *)

(** The day a month starts, months counted from March of year 0. *)
Definition month_start (mi : Z) : Z :=
  let y := mi / 12 in
  365 * y + y / 4 - y / 100 + y / 400 + (153 * (mi mod 12) + 2) / 5 - 719468.

Lemma days_from_civil_month y m d :
  1 <= m <= 12 -> days_from_civil y m d = month_start (12 * y + m - 3) + d - 1.
Proof.
  intros Hm. unfold days_from_civil, month_start.
  assert (Hy : (12 * y + m - 3) / 12 = if m <=? 2 then y - 1 else y).
  { destruct (m <=? 2) eqn:E; bool_to_prop; Z.div_mod_to_equations; lia. }
  assert (Hmp : (12 * y + m - 3) mod 12 = if m <=? 2 then m + 9 else m - 3).
  { destruct (m <=? 2) eqn:E; bool_to_prop; Z.div_mod_to_equations; lia. }
  rewrite Hy, Hmp. generalize (if m <=? 2 then y - 1 else y) as y'. intros y'.
  generalize (if m <=? 2 then m + 9 else m - 3) as mp. intros mp.
  pose proof (Z.div_mod y' 400). pose proof (Z.mod_pos_bound y' 400).
  set (q := y' / 400) in *. set (r := y' mod 400) in *.
  assert (Hy4 : y' / 4 = 100 * q + r / 4) by (Z.div_mod_to_equations; lia).
  assert (Hy100 : y' / 100 = 4 * q + r / 100) by (Z.div_mod_to_equations; lia).
  rewrite Hy4, Hy100. lia.
Qed.

(** Months are 28 to 31 days long. *)
Lemma month_start_succ mi : 28 <= month_start (mi + 1) - month_start mi <= 31.
Proof.
  unfold month_start.
  destruct (Z.eq_dec (mi mod 12) 11) as [E|E].
  - assert (Hd : (mi + 1) / 12 = mi / 12 + 1) by (Z.div_mod_to_equations; lia).
    assert (Hm : (mi + 1) mod 12 = 0) by (Z.div_mod_to_equations; lia).
    rewrite Hd, Hm, E. set (y := mi / 12).
    change ((153 * 11 + 2) / 5) with 337. change ((153 * 0 + 2) / 5) with 0.
    Z.div_mod_to_equations; lia.
  - assert (Hd : (mi + 1) / 12 = mi / 12) by (Z.div_mod_to_equations; lia).
    assert (Hm : (mi + 1) mod 12 = mi mod 12 + 1) by (Z.div_mod_to_equations; lia).
    rewrite Hd, Hm. generalize (mi mod 12). intros. Z.div_mod_to_equations; lia.
Qed.

(** Within the 400-year era: the year of the era, then the day of the year. *)
Lemma era_bounds doe :
  0 <= doe < 146097 ->
  let yoe := (doe - doe / 1460 + doe / 36524 - doe / 146096) / 365 in
  let doy := doe - (365 * yoe + yoe / 4 - yoe / 100) in
  0 <= yoe < 400 /\ 0 <= doy <= 365.
Proof.
  intros Hd yoe doy. subst doy yoe.
  assert (Hq : 0 <= doe / 146096 <= 1) by (Z.div_mod_to_equations; lia).
  assert (Hc : 0 <= doe / 36524 <= 4) by (Z.div_mod_to_equations; lia).
  split; Z.div_mod_to_equations; lia.
Qed.

Lemma days_civil_days z :
  let '(y, m, d) := civil_from_days z in days_from_civil y m d = z /\ 1 <= m <= 12.
Proof.
  unfold civil_from_days, days_from_civil.
  pose proof (era_bounds ((z + 719468) mod 146097)) as Hb. cbn zeta in Hb.
  pose proof (Z.div_mod (z + 719468) 146097) as Hz.
  set (doe := (z + 719468) mod 146097) in *. set (era := (z + 719468) / 146097) in *.
  destruct Hb as [Hyoe Hdoy]; [unfold doe; apply Z.mod_pos_bound; lia|].
  set (yoe := (doe - doe / 1460 + doe / 36524 - doe / 146096) / 365) in *.
  set (doy := doe - (365 * yoe + yoe / 4 - yoe / 100)) in *.
  assert (Hmp : 0 <= (5 * doy + 2) / 153 <= 11) by (Z.div_mod_to_equations; lia).
  set (mp := (5 * doy + 2) / 153) in *. cbn zeta.
  assert (Hera : (yoe + era * 400) / 400 = era /\ (yoe + era * 400) mod 400 = yoe).
  { rewrite Z.div_add, Z.mod_add, Z.div_small, Z.mod_small by lia. lia. }
  destruct (mp <? 10) eqn:E1; bool_to_prop.
  - rewrite (proj2 (Z.leb_gt (mp + 3) 2)) by lia. destruct Hera as [-> ->].
    replace (mp + 3 - 3) with mp by lia. split; [|lia]. unfold doy. lia.
  - rewrite (proj2 (Z.leb_le (mp - 9) 2)) by lia.
    replace (yoe + era * 400 + 1 - 1) with (yoe + era * 400) by lia. destruct Hera as [-> ->].
    replace (mp - 9 + 9) with mp by lia. split; [|lia]. unfold doy. lia.
Qed.

(** [timegm] after adding [k] months to the broken-down time of [t]. *)
Lemma timegm_add_months t k :
  let v := gmtime_r t in
  timegm {| tm_year := tm_year v; tm_mon := tm_mon v + k; tm_mday := tm_mday v;
            tm_hour := tm_hour v; tm_min := tm_min v; tm_sec := tm_sec v |}
  = t + 86400 * (month_start (12 * (tm_year v + 1900) + tm_mon v - 2 + k)
                 - month_start (12 * (tm_year v + 1900) + tm_mon v - 2)).
Proof.
  unfold gmtime_r, timegm. pose proof (days_civil_days (t / 86400)) as Hz.
  destruct (civil_from_days (t / 86400)) as [[y m] d].
  cbn [tm_year tm_mon tm_mday tm_hour tm_min tm_sec]. destruct Hz as [Hz Hm].
  rewrite days_from_civil_month in Hz by done.
  rewrite days_from_civil_month by (pose proof (Z.mod_pos_bound (m - 1 + k) 12); lia).
  replace (12 * (y - 1900 + 1900 + (m - 1 + k) / 12) + ((m - 1 + k) mod 12 + 1) - 3)
    with (12 * (y - 1900 + 1900) + (m - 1) - 2 + k)
    by (pose proof (Z.div_mod (m - 1 + k) 12); lia).
  replace (12 * (y - 1900 + 1900) + (m - 1) - 2) with (12 * y + m - 3) by lia.
  set (a := month_start (12 * y + m - 3)) in *.
  set (b := month_start (12 * y + m - 3 + k)) in *. clearbody a b. clear Hm.
  Z.div_mod_to_equations; lia.
Qed.

End CivilTime.

(** ** The premine table (premine.h) *)

Record PremineAllocation := { name : bytes; amount : Z; scriptPubKeyHex : bytes }.

Definition vPremineAllocations : list PremineAllocation := [
  {| name := str "StakingRewardsPool"; amount := 25200000000 * COIN;
     scriptPubKeyHex := str "76a914d5799b311c94188c9c4b5271f9735666dba138e188ac" |};
  {| name := str "EcosystemTreasury"; amount := 14400000000 * COIN;
     scriptPubKeyHex := str "76a9147a5acc292eaee02a8ff3192c3875ccd960e0896388ac" |};
  {| name := str "TeamFounders"; amount := 7200000000 * COIN;
     scriptPubKeyHex := str "76a914a6d1abf6015c6291b3a4d988a8f07401fe6c490388ac" |};
  {| name := str "Community"; amount := 10800000000 * COIN;
     scriptPubKeyHex := str "76a914e6f6a25cc877f18211e2c546e6618857b3eab0f188ac" |};
  {| name := str "PublicSaleLiquidity"; amount := 10800000000 * COIN;
     scriptPubKeyHex := str "76a914611f57de4233c92f95a4310c57ffef8347b9ba6c88ac" |};
  {| name := str "StrategicReserve"; amount := 3600000000 * COIN;
     scriptPubKeyHex := str "76a9144fafdae3b2a0bc9fdc2f9c5ccb3f08838084b57e88ac" |}].

Definition GetStakingRewardsPoolAllocation : option PremineAllocation :=
  a ← vPremineAllocations !! 0%nat;
  assert (bool_decide (name a = str "StakingRewardsPool")) (Some a).

Definition GetTeamFoundersAllocation : option PremineAllocation :=
  a ← vPremineAllocations !! 2%nat;
  assert (bool_decide (name a = str "TeamFounders")) (Some a).

Definition TEST_PREMINE_SCRIPTPUBKEY_HEX : bytes :=
  str "76a91492f2bd80a027f45a50c1a0b44b0754e5e976238288ac".

Definition GetEffectiveScriptPubKeyHex (p : CChainParams) (allocation : PremineAllocation) : bytes :=
  if bool_decide (networkID p = MAIN) then scriptPubKeyHex allocation
  else TEST_PREMINE_SCRIPTPUBKEY_HEX.

(** ** Vesting *)

Definition VESTING_CLIFF_MONTHS : Z := 12.
Definition VESTING_TRANCHE_COUNT : Z := 36.

Definition AddMonthsUTC (unixTime months : Z) : Z :=
  let tmVal := CivilTime.gmtime_r unixTime in
  CivilTime.timegm
    {| CivilTime.tm_year := CivilTime.tm_year tmVal;
       CivilTime.tm_mon := CivilTime.tm_mon tmVal + months;
       CivilTime.tm_mday := CivilTime.tm_mday tmVal;
       CivilTime.tm_hour := CivilTime.tm_hour tmVal;
       CivilTime.tm_min := CivilTime.tm_min tmVal;
       CivilTime.tm_sec := CivilTime.tm_sec tmVal |}.

Definition GetCLTVPayToPubKeyHash (lockTime : Z) (keyID : bytes) : CScript :=
  [] <<int lockTime <<op OP_CHECKLOCKTIMEVERIFY <<op OP_DROP
     <<op OP_DUP <<op OP_HASH160 <<data keyID <<op OP_EQUALVERIFY <<op OP_CHECKSIG.

(** The loop over the tranches. *)
Definition vesting_tranche (genesisTime trancheAmount : Z) (keyID : bytes) (i : Z) : CTxOut :=
  let unlockTime := AddMonthsUTC genesisTime (VESTING_CLIFF_MONTHS + i) in
  {| nValue := trancheAmount; scriptPubKey := GetCLTVPayToPubKeyHash unlockTime keyID |}.

Definition GetTeamVestingOutputs `{HashFunctions} (p : CChainParams) : option (list CTxOut) :=
  team ← GetTeamFoundersAllocation;
  assert (Z.rem (amount team) VESTING_TRANCHE_COUNT =? 0) (
    let trancheAmount := Z.quot (amount team) VESTING_TRANCHE_COUNT in
    let teamP2PKH := ParseHex (GetEffectiveScriptPubKeyHex p team) in
    dest ← ExtractDestination teamP2PKH false;
    match dest with
    | Some (CKeyID keyID) =>
        Some (map (fun i => vesting_tranche (genesis_nTime p) trancheAmount keyID (Z.of_nat i))
                (seq 0 (Z.to_nat VESTING_TRANCHE_COUNT)))
    | _ => None
    end).

(** ** Lemmas *)

Lemma AddMonthsUTC_shift t k :
  exists mi, AddMonthsUTC t k = t + 86400 * (CivilTime.month_start (mi + k) - CivilTime.month_start mi).
Proof. eexists. apply CivilTime.timegm_add_months. Qed.

(** The unlock dates of consecutive months are 28 to 31 days apart, whatever
    the day of the month the schedule starts on. *)
Lemma AddMonthsUTC_succ t k :
  28 * 86400 <= AddMonthsUTC t (k + 1) - AddMonthsUTC t k <= 31 * 86400.
Proof.
  unfold AddMonthsUTC. rewrite !CivilTime.timegm_add_months. rewrite Z.add_assoc.
  pose proof (CivilTime.month_start_succ
    (12 * (CivilTime.tm_year (CivilTime.gmtime_r t) + 1900)
     + CivilTime.tm_mon (CivilTime.gmtime_r t) - 2 + k)). lia.
Qed.

Lemma AddMonthsUTC_0 t : AddMonthsUTC t 0 = t.
Proof. unfold AddMonthsUTC. rewrite CivilTime.timegm_add_months, Z.add_0_r. lia. Qed.

Lemma AddMonthsUTC_mono t j k :
  j <= k -> 28 * 86400 * (k - j) <= AddMonthsUTC t k - AddMonthsUTC t j <= 31 * 86400 * (k - j).
Proof.
  intros Hjk. replace k with (j + Z.of_nat (Z.to_nat (k - j))) by lia.
  induction (Z.to_nat (k - j)) as [|n IH]; [replace (j + Z.of_nat 0) with j; lia|].
  pose proof (AddMonthsUTC_succ t (j + Z.of_nat n)) as H.
  replace (j + Z.of_nat (S n)) with (j + Z.of_nat n + 1) by lia. lia.
Qed.

(** The key hash the tranches pay to, per network. *)
Definition team_key (p : CChainParams) : bytes :=
  range (ParseHex (if bool_decide (networkID p = MAIN)
                   then str "76a914a6d1abf6015c6291b3a4d988a8f07401fe6c490388ac"
                   else TEST_PREMINE_SCRIPTPUBKEY_HEX)) 3 23.

Definition vesting_outputs (p : CChainParams) : list CTxOut :=
  map (fun i => vesting_tranche (genesis_nTime p) (200000000 * COIN) (team_key p) (Z.of_nat i)) (seq 0 36).

(** The assertions of [GetTeamVestingOutputs] hold on every network. *)
Lemma GetTeamVestingOutputs_eq `{HashFunctions} p :
  GetTeamVestingOutputs p = Some (vesting_outputs p).
Proof.
  unfold GetTeamVestingOutputs, vesting_outputs, team_key, GetEffectiveScriptPubKeyHex.
  change GetTeamFoundersAllocation with (vPremineAllocations !! 2%nat).
  cbn [lookup list_lookup vPremineAllocations mbind option_bind amount scriptPubKeyHex].
  change (Z.rem _ _ =? 0) with true. cbn [assert].
  destruct (bool_decide (networkID p = MAIN)); reflexivity.
Qed.

Lemma team_key_length p : length (team_key p) = 20%nat.
Proof. unfold team_key. destruct (bool_decide _); reflexivity. Qed.

Lemma vesting_outputs_lookup p i :
  (i < 36)%nat ->
  vesting_outputs p !! i =
    Some (vesting_tranche (genesis_nTime p) (200000000 * COIN) (team_key p) (Z.of_nat i)).
Proof.
  intros Hi. unfold vesting_outputs. rewrite list_lookup_fmap, lookup_seq_lt by done. done.
Qed.

Lemma vesting_outputs_sum p : sumZ nValue (vesting_outputs p) = 7200000000 * COIN.
Proof. reflexivity. Qed.

(** ** Properties *)

(** Adding calendar months never produces an earlier or a duplicate date,
    for any start time, also from the 29th to the 31st of a month: each month
    moves the date forward by 28 to 31 days, and adding no month gives the
    start time back ([timegm] inverts [gmtime_r]). *)
Theorem AddMonthsUTC_monotone t j k :
  AddMonthsUTC t 0 = t /\
  (j < k -> 28 * 86400 * (k - j) <= AddMonthsUTC t k - AddMonthsUTC t j <= 31 * 86400 * (k - j)).
Proof. split; [apply AddMonthsUTC_0 | intros; apply AddMonthsUTC_mono; lia]. Qed.

(** The team allocation on every network: 36 outputs of 200 million KROV
    (7.2 billion in total), output [i] locked by CHECKLOCKTIMEVERIFY until the
    genesis time plus [12 + i] calendar months, so nothing unlocks in the
    first 365 days and consecutive unlock times are 28 to 31 days apart. *)
Theorem vesting_schedule `{HashFunctions} net :
  let p := CreateChainParams net in
  let unlock i := AddMonthsUTC (genesis_nTime p) (12 + Z.of_nat i) in
  exists outs key, GetTeamVestingOutputs p = Some outs /\ length key = 20%nat
    /\ length outs = 36%nat /\ sumZ nValue outs = 7200000000 * COIN
    /\ (forall i o, outs !! i = Some o ->
          nValue o = 200000000 * COIN /\ scriptPubKey o = GetCLTVPayToPubKeyHash (unlock i) key)
    /\ unlock 0%nat = genesis_nTime p + 365 * 86400
    /\ (forall i, 28 * 86400 <= unlock (S i) - unlock i <= 31 * 86400).
Proof.
  intros p unlock. exists (vesting_outputs p), (team_key p).
  split_and!; [apply GetTeamVestingOutputs_eq | apply team_key_length | done | apply vesting_outputs_sum | | |].
  - intros i o Ho. assert (i < 36)%nat by (apply lookup_lt_Some in Ho; done).
    rewrite vesting_outputs_lookup in Ho by done. injection Ho as <-. done.
  - by destruct net.
  - intros i. unfold unlock. replace (12 + Z.of_nat (S i)) with (12 + Z.of_nat i + 1) by lia.
    apply AddMonthsUTC_succ.
Qed.
