(* ===== verification/Premine.v ===== *)
(** * The block-1 premine

    consensus/premine.cpp: the total, the required coinbase outputs and the
    consensus check of the block-1 coinbase. *)

From Stdlib Require Import String.
From S2P Require Import Prelude Params Crypto Script Standard StrEncodings Serialize Transaction Vesting.

Definition GetPremineTotal_step (total : option Z) (a : PremineAllocation) : option Z :=
  t ← total; CheckedAdd t (amount a).

Definition GetPremineTotal : option Z :=
  total ← foldl GetPremineTotal_step (Some 0) vPremineAllocations;
  assert (total =? 72000000000 * COIN) (Some total).

(** The loop over the table: every allocation but the team's, by name. *)
Fixpoint premine_plain (p : CChainParams) (team : PremineAllocation) (l : list PremineAllocation)
  : list CTxOut :=
  match l with
  | [] => []
  | a :: l =>
      if bool_decide (name a = name team) then premine_plain p team l
      else {| nValue := amount a; scriptPubKey := ParseHex (GetEffectiveScriptPubKeyHex p a) |}
           :: premine_plain p team l
  end.

Definition GetPremineOutputs `{HashFunctions} (p : CChainParams) : option (list CTxOut) :=
  team ← GetTeamFoundersAllocation;
  let outputs := premine_plain p team vPremineAllocations in
  vesting ← GetTeamVestingOutputs p;
  Some (outputs ++ vesting).

(** The comparison loop over the outputs, sizes equal. *)
Fixpoint outputs_match (vout expected : list CTxOut) : bool :=
  match vout, expected with
  | o :: vout, e :: expected =>
      (nValue o =? nValue e) && bool_decide (scriptPubKey o = scriptPubKey e)
      && outputs_match vout expected
  | _, _ => true
  end.

Definition CheckPremineCoinbase `{HashFunctions} (p : CChainParams) (coinbaseTx : CTransaction)
  : option bool :=
  expected ← GetPremineOutputs p;
  Some (if negb (size (vout coinbaseTx) =? size expected) then false
        else outputs_match (vout coinbaseTx) expected).

(** ** Lemmas *)

Lemma outputs_match_eq vout expected :
  length vout = length expected -> outputs_match vout expected = true <-> vout = expected.
Proof.
  revert expected. induction vout as [|o vout IH]; intros [|e expected] Hlen; try done.
  cbn [outputs_match]. injection Hlen as Hlen. rewrite !andb_true_iff, IH, bool_decide_eq_true, Z.eqb_eq by done.
  destruct o, e; cbn. split; [intros [[-> ->] ->]; done | intros; by simplify_eq].
Qed.

(** The consensus check accepts exactly the expected output list. *)
Lemma size_outputs_match vout expected :
  (if negb (size vout =? size expected) then false else outputs_match vout expected) = true
  <-> vout = expected.
Proof.
  destruct (size vout =? size expected) eqn:E; cbn [negb]; bool_to_prop.
  - apply outputs_match_eq. unfold size in E. lia.
  - split; [done|]. intros ->. done.
Qed.

Definition premine_outputs (p : CChainParams) : list CTxOut :=
  premine_plain p {| name := str "TeamFounders"; amount := 0; scriptPubKeyHex := [] |} vPremineAllocations
  ++ vesting_outputs p.

Lemma GetPremineOutputs_eq `{HashFunctions} p : GetPremineOutputs p = Some (premine_outputs p).
Proof.
  unfold GetPremineOutputs. rewrite GetTeamVestingOutputs_eq.
  change GetTeamFoundersAllocation with (vPremineAllocations !! 2%nat).
  unfold premine_outputs. unfold GetEffectiveScriptPubKeyHex.
  destruct (bool_decide (networkID p = MAIN)); reflexivity.
Qed.

Lemma premine_outputs_total p :
  length (premine_outputs p) = 41%nat /\ sumZ nValue (premine_outputs p) = 72000000000 * COIN
  /\ Forall (fun o => 0 < nValue o) (premine_outputs p).
Proof.
  unfold premine_outputs, GetEffectiveScriptPubKeyHex. split_and!.
  - rewrite length_app. by destruct (bool_decide (networkID p = MAIN)).
  - rewrite sumZ_app, vesting_outputs_sum. by destruct (bool_decide (networkID p = MAIN)).
  - apply Forall_app. split; [by destruct (bool_decide (networkID p = MAIN)); repeat constructor|].
    apply Forall_fmap, Forall_true. intros i. done.
Qed.

(** ** Properties *)

(** C13. The premine is exactly 72 billion KROV on every network: the table
    sums to it without overflow, the 41 outputs required of the block-1
    coinbase sum to it, and the consensus check accepts a coinbase if and only
    if its outputs are these, in this order. *)
Theorem premine_exact `{HashFunctions} net :
  let p := CreateChainParams net in
  GetPremineTotal = Some (72000000000 * COIN) /\
  exists outs, GetPremineOutputs p = Some outs /\ length outs = 41%nat
    /\ sumZ nValue outs = 72000000000 * COIN
    /\ forall tx, exists b, CheckPremineCoinbase p tx = Some b /\ (b = true <-> vout tx = outs).
Proof.
  intros p. split; [done|]. exists (premine_outputs p).
  destruct (premine_outputs_total p) as (Hl & Hs & _).
  split_and!; [apply GetPremineOutputs_eq | done | done |].
  intros tx. eexists. unfold CheckPremineCoinbase. rewrite GetPremineOutputs_eq.
  split; [done|]. apply size_outputs_match.
Qed.
