(* ===== verification/Superblock.v ===== *)
(** * Staking Rewards Pool superblocks

    consensus/superblock.{h,cpp}: the 20-year payout schedule, the tally of
    stakers in a cycle, the pro-rata distribution and the consensus check of
    the payout transaction. *)

From Stdlib Require Import Sorted.
From S2P Require Import Prelude Params Crypto Script Standard StrEncodings Serialize Transaction Vesting Premine.

(** ** The schedule *)

Definition PHASE_A_ANNUAL : Z := 2520000000 * COIN.
Definition PHASE_B_ANNUAL : Z := 1260000000 * COIN.
Definition PHASE_C_ANNUAL : Z := 630000000 * COIN.
Definition CYCLES_PER_YEAR : Z := 365.

Definition PHASE_A_CYCLES : Z := 5 * CYCLES_PER_YEAR.
Definition PHASE_B_CYCLES : Z := 5 * CYCLES_PER_YEAR.
Definition PHASE_C_CYCLES : Z := 10 * CYCLES_PER_YEAR.

Definition PHASE_A_TOTAL : Z := 5 * PHASE_A_ANNUAL.
Definition PHASE_B_TOTAL : Z := 5 * PHASE_B_ANNUAL.
Definition PHASE_C_TOTAL : Z := 10 * PHASE_C_ANNUAL.
Definition POOL_TOTAL : Z := PHASE_A_TOTAL + PHASE_B_TOTAL + PHASE_C_TOTAL.

(** The product of two [int64_t] always fits [__int128]. *)
Definition MulDivShare (a b c : Z) : option Z :=
  assert ((0 <=? a) && (0 <=? b) && (0 <? c)) (
    let result := Z.quot (a * b) c in
    assert ((0 <=? result) && (result <=? INT64_MAX)) (Some result)).

Definition GetFirstSuperblockHeight (p : CChainParams) : Z :=
  let nFirst := vUpgrades (consensus p) UPGRADE_POS in
  if (nFirst =? NO_ACTIVATION_HEIGHT) || (nFirst =? ALWAYS_ACTIVE) then -1 else nFirst.

Definition IsSuperblockHeight (p : CChainParams) (nHeight : Z) : bool :=
  let nFirst := GetFirstSuperblockHeight p in
  if (nFirst <? 0) || (nHeight <? nFirst) then false
  else
    let nCycle := nBudgetCycleBlocks (consensus p) in
    if nCycle <=? 0 then false else Z.rem (nHeight - nFirst) nCycle =? 0.

Definition GetSuperblockCycleIndex (p : CChainParams) (nHeight : Z) : Z :=
  let nFirst := GetFirstSuperblockHeight p in
  let nCycle := nBudgetCycleBlocks (consensus p) in
  Z.quot (nHeight - nFirst) nCycle.

Definition GetSuperblockCumulativeTarget (cycleIndex : Z) : option Z :=
  let n := i64 (cycleIndex + 1) in
  if n <=? 0 then Some 0
  else if n <=? PHASE_A_CYCLES then MulDivShare n PHASE_A_ANNUAL CYCLES_PER_YEAR
  else if n <=? PHASE_A_CYCLES + PHASE_B_CYCLES then
    s ← MulDivShare (n - PHASE_A_CYCLES) PHASE_B_ANNUAL CYCLES_PER_YEAR; Some (i64 (PHASE_A_TOTAL + s))
  else if n <=? PHASE_A_CYCLES + PHASE_B_CYCLES + PHASE_C_CYCLES then
    s ← MulDivShare (n - PHASE_A_CYCLES - PHASE_B_CYCLES) PHASE_C_ANNUAL CYCLES_PER_YEAR;
    Some (i64 (PHASE_A_TOTAL + PHASE_B_TOTAL + s))
  else Some POOL_TOTAL.

Definition GetSuperblockPayout (p : CChainParams) (nHeight : Z) : option Z :=
  if negb (IsSuperblockHeight p nHeight) then Some 0
  else
    let idx := GetSuperblockCycleIndex p nHeight in
    cur ← GetSuperblockCumulativeTarget idx;
    prev ← GetSuperblockCumulativeTarget (idx - 1);
    assert (prev <=? cur) (Some (cur - prev)).

(** ** The tally *)

(** [prevector::operator<]: by size, then lexicographically. *)
Fixpoint bytes_lt (a b : bytes) : bool :=
  match a, b with
  | x :: a, y :: b => if x <? y then true else if y <? x then false else bytes_lt a b
  | _, _ => false
  end.

Definition CScript_lt (a b : CScript) : bool :=
  if size a <? size b then true
  else if size b <? size a then false
  else bytes_lt a b.

(** [std::map<CScript, int>] as its entries in key order; [tally[staker]++]. *)
Fixpoint tally_incr (staker : CScript) (m : list (CScript * Z)) : list (CScript * Z) :=
  match m with
  | [] => [(staker, 1)]
  | (k, n) :: m' =>
      if CScript_lt staker k then (staker, 1) :: m
      else if CScript_lt k staker then (k, n) :: tally_incr staker m'
      else (k, i32 (n + 1)) :: m'
  end.

(** [chain h]: the block at height [h] of the active chain, if there is one
    and it can be read from disk. *)
Definition Tally_step (chain : Z -> option CBlock) (tally : list (CScript * Z)) (h : Z)
  : list (CScript * Z) :=
  match chain h with
  | None => tally
  | Some block =>
      if negb (IsProofOfStake block) then tally
      else
        match vtx block with
        | _ :: coinstake :: _ =>
            match vout coinstake with
            | _ :: out1 :: _ => tally_incr (scriptPubKey out1) tally
            | _ => tally
            end
        | _ => tally
        end
  end.

Definition TallyStakersInCycle (chain : Z -> option CBlock) (cycleStartHeight cycleEndHeight : Z)
  : list (CScript * Z) :=
  let start := if cycleStartHeight <? 1 then 1 else cycleStartHeight in
  foldl (Tally_step chain) [] (seqZ start (cycleEndHeight - start + 1)).

(** ** The distribution *)

(** The loop over the tally: the outputs so far and the sum distributed. *)
Fixpoint Distribution_loop (tally : list (CScript * Z)) (targetPayout totalBlocks : Z)
    (outputsOut : list CTxOut) (distributed : Z) : option (list CTxOut * Z) :=
  match tally with
  | [] => Some (outputsOut, distributed)
  | (script, count) :: tally =>
      share ← MulDivShare count targetPayout totalBlocks;
      if share <=? 0 then Distribution_loop tally targetPayout totalBlocks outputsOut distributed
      else Distribution_loop tally targetPayout totalBlocks
             (outputsOut ++ [{| nValue := share; scriptPubKey := script |}])
             (i64 (distributed + share))
  end.

Definition ComputeSuperblockDistribution (tally : list (CScript * Z)) (targetPayout poolInputValue : Z)
    (poolScriptPubKey : CScript) : option (list CTxOut) :=
  if bool_decide (tally = []) || (targetPayout <=? 0) then Some []
  else
    let totalBlocks := foldl (fun t e => i32 (t + snd e)) 0 tally in
    if totalBlocks <=? 0 then Some []
    else
      let targetPayout := if poolInputValue <? targetPayout then poolInputValue else targetPayout in
      '(outputsOut, distributed) ← Distribution_loop tally targetPayout totalBlocks [] 0;
      assert (distributed <=? targetPayout) (assert (distributed <=? poolInputValue) (
        let change := i64 (poolInputValue - distributed) in
        Some (if 0 <? change
              then outputsOut ++ [{| nValue := change; scriptPubKey := poolScriptPubKey |}]
              else outputsOut))).

(** [Some None] is [return false]. *)
Definition BuildSuperblockPayoutOutputs (p : CChainParams) (chain : Z -> option CBlock) (nHeight : Z)
    (poolScriptPubKey : CScript) (poolInputValue : Z) : option (option (list CTxOut)) :=
  let nCycle := nBudgetCycleBlocks (consensus p) in
  let cycleEndHeight := nHeight - 1 in
  let cycleStartHeight := cycleEndHeight - nCycle + 1 in
  let tally := TallyStakersInCycle chain cycleStartHeight cycleEndHeight in
  if bool_decide (tally = []) then Some None
  else
    targetPayout ← GetSuperblockPayout p nHeight;
    if targetPayout <=? 0 then Some None
    else
      outputsOut ← ComputeSuperblockDistribution tally targetPayout poolInputValue poolScriptPubKey;
      Some (if bool_decide (outputsOut = []) then None else Some outputsOut).

Definition CycleHasStakers (p : CChainParams) (chain : Z -> option CBlock) (nHeight : Z) : bool :=
  let nCycle := nBudgetCycleBlocks (consensus p) in
  let cycleEndHeight := nHeight - 1 in
  let cycleStartHeight := cycleEndHeight - nCycle + 1 in
  negb (bool_decide (TallyStakersInCycle chain cycleStartHeight cycleEndHeight = [])).

(** [coin] is what [view.AccessCoin] finds for an outpoint: the output, or
    [None] for a spent or missing coin. *)
Definition CheckSuperblockPayoutTx (p : CChainParams) (chain : Z -> option CBlock)
    (coin : COutPoint -> option CTxOut) (tx : CTransaction) (nHeight : Z) : option bool :=
  match vin tx with
  | [txin] =>
      match coin (prevout txin) with
      | None => Some false
      | Some out =>
          let poolScriptPubKey := scriptPubKey out in
          alloc ← GetStakingRewardsPoolAllocation;
          let expectedPoolScript := ParseHex (GetEffectiveScriptPubKeyHex p alloc) in
          if negb (bool_decide (poolScriptPubKey = expectedPoolScript)) then Some false
          else
            built ← BuildSuperblockPayoutOutputs p chain nHeight poolScriptPubKey (nValue out);
            Some (match built with
                  | None => false
                  | Some expected =>
                      if negb (size (vout tx) =? size expected) then false
                      else outputs_match (vout tx) expected
                  end)
      end
  | _ => Some false
  end.

(** ** Lemmas: the schedule *)

Lemma MulDivShare_Some a b c :
  0 <= a -> 0 <= b -> 0 < c -> a * b / c <= INT64_MAX -> MulDivShare a b c = Some (a * b / c).
Proof.
  intros Ha Hb Hc Hle. unfold MulDivShare.
  rewrite Z.quot_div_nonneg by nia.
  assert (0 <= a * b / c) by (apply Z.div_pos; nia).
  rewrite !(proj2 (Z.leb_le _ _)), (proj2 (Z.ltb_lt _ _)) by lia. done.
Qed.

(** The schedule as a mathematical function of the number of cycles paid. *)
Definition schedule (n : Z) : Z :=
  let a := Z.min (Z.max n 0) 1825 in
  let b := Z.min (Z.max (n - 1825) 0) 1825 in
  let c := Z.min (Z.max (n - 3650) 0) 3650 in
  a * PHASE_A_ANNUAL / 365 + b * PHASE_B_ANNUAL / 365 + c * PHASE_C_ANNUAL / 365.

Lemma GetSuperblockCumulativeTarget_eq idx :
  in_i64 (idx + 1) -> GetSuperblockCumulativeTarget idx = Some (schedule (idx + 1)).
Proof.
  intros Hr. unfold GetSuperblockCumulativeTarget, schedule. rewrite i64_id by done.
  change PHASE_A_CYCLES with 1825. change PHASE_B_CYCLES with 1825. change PHASE_C_CYCLES with 3650.
  change CYCLES_PER_YEAR with 365. set (n := idx + 1). change PHASE_A_ANNUAL with 252000000000000000.
  change PHASE_B_ANNUAL with 126000000000000000. change PHASE_C_ANNUAL with 63000000000000000.
  change PHASE_A_TOTAL with 1260000000000000000. change PHASE_B_TOTAL with 630000000000000000.
  change POOL_TOTAL with 2520000000000000000.
  destruct (n <=? 0) eqn:E0; [|destruct (n <=? 1825) eqn:E1; [|destruct (n <=? 1825 + 1825) eqn:E2;
    [|destruct (n <=? 1825 + 1825 + 3650) eqn:E3]]]; bool_to_prop.
  - rewrite !Z.max_r, !Z.min_l by lia. done.
  - rewrite (Z.max_l n), (Z.min_l n), !Z.max_r, !(Z.min_l 0), !Z.mul_0_l, Zdiv_0_l by lia.
    rewrite MulDivShare_Some; [f_equal; lia | lia | lia | lia |]. unfold INT64_MAX. Z.div_mod_to_equations; lia.
  - rewrite (Z.max_l n), (Z.min_r n), (Z.max_l (n - 1825)), (Z.min_l (n - 1825)), Z.max_r, (Z.min_l 0) by lia.
    change (1825 * 252000000000000000 / 365) with 1260000000000000000. change (0 * _ / 365) with 0.
    rewrite MulDivShare_Some; [| lia | lia | lia | unfold INT64_MAX; Z.div_mod_to_equations; lia].
    cbn [mbind option_bind]. f_equal. rewrite i64_id; [lia|].
    unfold in_i64, INT64_MIN, INT64_MAX. Z.div_mod_to_equations; lia.
  - rewrite (Z.max_l n), (Z.min_r n), (Z.max_l (n - 1825)), (Z.min_r (n - 1825)), Z.max_l, (Z.min_l (n - 3650)) by lia.
    change (1825 * 252000000000000000 / 365) with 1260000000000000000.
    change (1825 * 126000000000000000 / 365) with 630000000000000000.
    replace (n - 1825 - 1825) with (n - 3650) by lia.
    rewrite MulDivShare_Some; [| lia | lia | lia | unfold INT64_MAX; Z.div_mod_to_equations; lia].
    cbn [mbind option_bind]. f_equal. rewrite i64_id; [lia|].
    unfold in_i64, INT64_MIN, INT64_MAX. Z.div_mod_to_equations; lia.
  - rewrite (Z.max_l n), (Z.min_r n), (Z.max_l (n - 1825)), (Z.min_r (n - 1825)), Z.max_l, (Z.min_r (n - 3650)) by lia.
    done.
Qed.

Lemma schedule_mono m n : m <= n -> schedule m <= schedule n.
Proof.
  intros H. unfold schedule.
  assert (Hdiv : forall a b k, a <= b -> 0 <= k -> a * k / 365 <= b * k / 365).
  { intros. apply Z.div_le_mono; nia. }
  apply Z.add_le_mono; [apply Z.add_le_mono|]; apply Hdiv; done || lia.
Qed.

Lemma schedule_bounds n : 0 <= schedule n <= POOL_TOTAL.
Proof.
  split.
  - replace 0 with (schedule (Z.min n 0)); [apply schedule_mono; lia|].
    unfold schedule. rewrite !Z.max_r, !Z.min_l by lia. done.
  - change POOL_TOTAL with (schedule 7300). destruct (Z.le_ge_cases n 7300); [by apply schedule_mono|].
    unfold schedule. rewrite !Z.max_l, !(Z.min_r _ 1825), (Z.min_r _ 3650) by lia. done.
Qed.

(** *** Superblock heights *)

Section Schedule.
Context (p : CChainParams).
Let nFirst := GetFirstSuperblockHeight p.
Let nCycle := nBudgetCycleBlocks (consensus p).
Context (Hfirst : 0 <= nFirst) (Hcycle : 0 < nCycle).

Lemma IsSuperblockHeight_iff h :
  IsSuperblockHeight p h = true <-> exists k, 0 <= k /\ h = nFirst + k * nCycle.
Proof.
  unfold IsSuperblockHeight. fold nFirst nCycle.
  rewrite (proj2 (Z.ltb_ge nFirst 0)), (proj2 (Z.leb_gt nCycle 0)) by lia. cbn [orb].
  destruct (h <? nFirst) eqn:E; bool_to_prop.
  - split; [done|]. intros (k & Hk & ->). nia.
  - rewrite Z.eqb_eq, Z.rem_divide by lia. unfold Z.divide. split.
    + intros [k Hk]. exists k. split; [nia | lia].
    + intros (k & Hk & ->). exists k. lia.
Qed.

Lemma GetSuperblockCycleIndex_height k : GetSuperblockCycleIndex p (nFirst + k * nCycle) = k.
Proof.
  unfold GetSuperblockCycleIndex. fold nFirst nCycle.
  replace (nFirst + k * nCycle - nFirst) with (k * nCycle) by lia. apply Z.quot_mul. lia.
Qed.

(** The payout of the [k]-th superblock is the schedule's increment. *)
Lemma GetSuperblockPayout_height k :
  0 <= k < INT64_MAX ->
  GetSuperblockPayout p (nFirst + k * nCycle) = Some (schedule (k + 1) - schedule k).
Proof.
  intros Hk. unfold GetSuperblockPayout.
  rewrite (proj2 (IsSuperblockHeight_iff _)) by (exists k; lia). cbn [negb].
  rewrite GetSuperblockCycleIndex_height, !GetSuperblockCumulativeTarget_eq
    by (unfold in_i64, INT64_MIN, INT64_MAX in *; lia).
  cbn [mbind option_bind]. replace (k - 1 + 1) with k by lia.
  rewrite (proj2 (Z.leb_le _ _)) by (apply schedule_mono; lia). done.
Qed.

Lemma GetSuperblockPayout_total h :
  h <= INT32_MAX -> exists v, GetSuperblockPayout p h = Some v /\ 0 <= v <= POOL_TOTAL.
Proof.
  intros Hh. destruct (IsSuperblockHeight p h) eqn:E.
  - destruct (proj1 (IsSuperblockHeight_iff h) E) as (k & Hk & ->).
    rewrite GetSuperblockPayout_height by (unfold INT64_MAX, INT32_MAX in *; nia).
    eexists. split; [done|].
    pose proof (schedule_mono k (k + 1)). pose proof (schedule_bounds k). pose proof (schedule_bounds (k + 1)). lia.
  - exists 0. unfold GetSuperblockPayout. rewrite E. split; [done|]. pose proof (schedule_bounds 0). lia.
Qed.

(** Payouts of the first [n] superblocks add up to the schedule at [n]. *)
Lemma payouts_telescope n :
  Z.of_nat n <= INT64_MAX ->
  sumZ (fun k => default 0 (GetSuperblockPayout p (nFirst + Z.of_nat k * nCycle))) (seq 0 n)
  = schedule (Z.of_nat n).
Proof.
  intros Hn. induction n as [|n IH]; [done|].
  rewrite seq_S, sumZ_app, IH by lia. cbn [sumZ Nat.add].
  rewrite GetSuperblockPayout_height by lia. cbn [from_option]. unfold id.
  replace (Z.of_nat (S n)) with (Z.of_nat n + 1) by lia. lia.
Qed.
End Schedule.

(** ** Lemmas: the tally *)

Lemma bytes_lt_total a b : length a = length b -> bytes_lt a b = false -> bytes_lt b a = false -> a = b.
Proof.
  revert b. induction a as [|x a IH]; intros [|y b] Hlen; try done. cbn [bytes_lt].
  intros H1 H2. injection Hlen as Hlen.
  destruct (x <? y) eqn:E1, (y <? x) eqn:E2; try done. bool_to_prop.
  assert (x = y) as -> by lia. f_equal. auto.
Qed.

Lemma bytes_lt_trans a b c : bytes_lt a b = true -> bytes_lt b c = true -> bytes_lt a c = true.
Proof.
  revert b c. induction a as [|x a IH]; intros [|y b] [|z c]; try done. cbn [bytes_lt].
  destruct (x <? y) eqn:E1, (y <? x) eqn:E2, (y <? z) eqn:E3, (z <? y) eqn:E4,
    (x <? z) eqn:E5, (z <? x) eqn:E6; try done; bool_to_prop; try lia. eauto.
Qed.

Lemma CScript_lt_total a b : CScript_lt a b = false -> CScript_lt b a = false -> a = b.
Proof.
  unfold CScript_lt. destruct (size a <? size b) eqn:E1; [done|].
  destruct (size b <? size a) eqn:E2; [done|]. bool_to_prop.
  apply bytes_lt_total. unfold size in *. lia.
Qed.

Lemma CScript_lt_trans a b c : CScript_lt a b = true -> CScript_lt b c = true -> CScript_lt a c = true.
Proof.
  unfold CScript_lt. destruct (size a <? size b) eqn:E1, (size b <? size a) eqn:E2,
    (size b <? size c) eqn:E3, (size c <? size b) eqn:E4, (size a <? size c) eqn:E5,
    (size c <? size a) eqn:E6; try done; bool_to_prop; try lia. apply bytes_lt_trans.
Qed.

Lemma bytes_lt_irrefl a : bytes_lt a a = false.
Proof. induction a as [|x a IH]; [done|]. cbn [bytes_lt]. by rewrite Z.ltb_irrefl. Qed.

Lemma CScript_lt_irrefl a : CScript_lt a a = false.
Proof. unfold CScript_lt. rewrite Z.ltb_irrefl. apply bytes_lt_irrefl. Qed.

(** The invariant of a tally: distinct scripts in map order, positive counts. *)
Definition tally_wf (m : list (CScript * Z)) : Prop :=
  StronglySorted (fun a b => CScript_lt a b = true) m.*1 /\ Forall (fun e => 1 <= snd e) m.

(** Blocks counted for a script. *)
Definition tally_count (s : CScript) (m : list (CScript * Z)) : Z :=
  sumZ (fun e => if bool_decide (fst e = s) then snd e else 0) m.

Lemma tally_incr_keys x m k : k ∈ (tally_incr x m).*1 -> k = x \/ k ∈ m.*1.
Proof.
  induction m as [|[k' n] m IH]; cbn [tally_incr].
  - cbn. rewrite list_elem_of_singleton. auto.
  - repeat case_match; cbn; rewrite ?elem_of_cons; set_solver.
Qed.

Lemma tally_incr_spec x m s :
  tally_wf m -> sumZ snd m < INT32_MAX ->
  tally_wf (tally_incr x m) /\ sumZ snd (tally_incr x m) = sumZ snd m + 1 /\
  tally_count s (tally_incr x m) = tally_count s m + if bool_decide (x = s) then 1 else 0.
Proof.
  unfold tally_wf, tally_count. induction m as [|[k n] m IH]; intros [Hs Hp] Hsum; cbn [tally_incr].
  { cbn. split; [split; repeat constructor; cbn; lia | lia]. }
  cbn in Hs. apply StronglySorted_inv in Hs as [Hs Hk]. inversion Hp as [|?? Hn Hp']; subst. cbn [snd] in Hn.
  assert (Hge : 0 <= sumZ snd m).
  { apply sumZ_nonneg. eapply Forall_impl; [done|]. cbn. lia. }
  cbn [sumZ fst snd] in Hsum. destruct (CScript_lt x k) eqn:E1; [|destruct (CScript_lt k x) eqn:E2].
  - cbn. split_and!; try lia; [|repeat constructor; cbn; done || lia].
    constructor; [by constructor|]. constructor; [done|].
    eapply Forall_impl; [exact Hk|]. intros. eapply CScript_lt_trans; eauto.
  - destruct IH as ((Hs' & Hp'') & Hsum' & Hc); [done | lia |]. cbn [fmap list_fmap map fst sumZ snd].
    rewrite Hsum', Hc. split_and!; [|by constructor|lia|lia].
    constructor; [done|]. apply Forall_forall. intros k' Hk'.
    apply tally_incr_keys in Hk' as [->|Hk']; [done|]. rewrite Forall_forall in Hk. auto.
  - assert (x = k) as -> by (by apply CScript_lt_total).
    rewrite i32_id by (unfold in_i32, INT32_MIN, INT32_MAX in *; lia).
    cbn [fmap list_fmap map fst sumZ snd]. split_and!; [by constructor | constructor; cbn; done || lia | lia |].
    destruct (bool_decide (k = s)); lia.
Qed.

(** The script credited for the block at a height. *)
Definition staker_of (chain : Z -> option CBlock) (h : Z) : option CScript :=
  block ← chain h;
  if negb (IsProofOfStake block) then None
  else coinstake ← vtx block !! 1%nat; out ← vout coinstake !! 1%nat; Some (scriptPubKey out).

Lemma Tally_step_eq chain tally h :
  Tally_step chain tally h =
    match staker_of chain h with Some s => tally_incr s tally | None => tally end.
Proof.
  unfold Tally_step, staker_of. destruct (chain h) as [b|]; [|done]. cbn [mbind option_bind].
  destruct (negb _); [done|]. destruct (vtx b) as [|t0 [|t1 txs]]; try done. cbn [lookup list_lookup].
  cbn [mbind option_bind]. by destruct (vout t1) as [|o0 [|o1 outs]].
Qed.

Lemma foldl_Tally_spec chain hs tally s :
  tally_wf tally -> sumZ snd tally + Z.of_nat (length hs) <= INT32_MAX ->
  let t := foldl (Tally_step chain) tally hs in
  tally_wf t /\ sumZ snd t = sumZ snd tally + size (omap (staker_of chain) hs) /\
  tally_count s t = tally_count s tally + size (filter (fun x => x = s) (omap (staker_of chain) hs)).
Proof.
  revert tally. induction hs as [|h hs IH]; intros tally Hwf Hsum; cbn zeta in *; cbn [foldl].
  { cbn. change (size (@nil CScript)) with 0. split_and!; [done | lia | lia]. }
  rewrite Tally_step_eq. cbn [length] in Hsum. cbn [omap list_omap].
  destruct (staker_of chain h) as [x|]; [|apply IH; [done | lia]].
  destruct (tally_incr_spec x tally s Hwf) as (Hwf' & Hs' & Hc'); [lia|].
  destruct (IH (tally_incr x tally)) as (? & Hs & Hc); [done | lia |].
  rewrite Hs, Hc, Hs', Hc'. rewrite filter_cons.
  split_and!; [done | rewrite size_cons; lia |]. destruct (decide (x = s)) as [E|E].
  - rewrite bool_decide_eq_true_2 by done. rewrite size_cons. lia.
  - rewrite bool_decide_eq_false_2 by done. lia.
Qed.

Lemma TallyStakersInCycle_spec chain lo hi s :
  hi - lo < INT32_MAX ->
  let stakers := omap (staker_of chain) (seqZ (Z.max lo 1) (hi - Z.max lo 1 + 1)) in
  let t := TallyStakersInCycle chain lo hi in
  tally_wf t /\ sumZ snd t = size stakers /\ tally_count s t = size (filter (fun x => x = s) stakers)
  /\ size stakers <= Z.max 0 (hi - Z.max lo 1 + 1).
Proof.
  intros Hr. cbn zeta. unfold TallyStakersInCycle.
  replace (if lo <? 1 then 1 else lo) with (Z.max lo 1) by (destruct (lo <? 1) eqn:E; bool_to_prop; lia).
  set (hs := seqZ (Z.max lo 1) (hi - Z.max lo 1 + 1)).
  assert (Hlen : Z.of_nat (length hs) = Z.max 0 (hi - Z.max lo 1 + 1)) by (unfold hs; rewrite length_seqZ; lia).
  destruct (foldl_Tally_spec chain hs [] s) as (Hwf & Hsum & Hc).
  - split; constructor.
  - unfold INT32_MAX in *. cbn. lia.
  - cbn zeta in *. cbn [sumZ] in Hsum. change (tally_count s []) with 0 in Hc.
    split_and!; [done | lia | lia |].
    rewrite <- Hlen. unfold size. clear. induction hs as [|h hs IH]; cbn [omap list_omap]; [done|].
    case_match; cbn [length]; lia.
Qed.

(** ** Lemmas: the distribution *)

Section Distribution.
Context (T total : Z) (HT : 0 <= T <= INT64_MAX) (Htotal : 0 < total).

Definition share (count : Z) : Z := count * T / total.

(** The outputs to stakers: the positive shares, in map order. *)
Definition share_outputs (tally : list (CScript * Z)) : list CTxOut :=
  flat_map (fun e => if share (snd e) <=? 0 then []
                     else [{| nValue := share (snd e); scriptPubKey := fst e |}]) tally.

Lemma share_nonneg c : 0 <= c -> 0 <= share c.
Proof. intros. apply Z.div_pos; nia. Qed.

Lemma share_sum_le (tally : list (CScript * Z)) : Forall (fun e => 0 <= snd e) tally ->
  total * sumZ (fun e => share (snd e)) tally <= sumZ snd tally * T.
Proof.
  induction 1 as [|e tally He _ IH]; cbn [sumZ]; [lia|]. unfold share at 1.
  pose proof (Z.mul_div_le (snd e * T) total). lia.
Qed.

Lemma share_outputs_sum (tally : list (CScript * Z)) : Forall (fun e => 0 <= snd e) tally ->
  sumZ nValue (share_outputs tally) = sumZ (fun e => share (snd e)) tally.
Proof.
  induction 1 as [|e tally He _ IH]; [done|]. unfold share_outputs in *. cbn [flat_map sumZ].
  rewrite sumZ_app, IH. pose proof (share_nonneg _ He).
  destruct (share (snd e) <=? 0) eqn:E; bool_to_prop; cbn [sumZ nValue]; lia.
Qed.

Lemma share_outputs_positive tally : Forall (fun o => 0 < nValue o) (share_outputs tally).
Proof.
  induction tally as [|e tally IH]; [constructor|]. unfold share_outputs in *. cbn [flat_map].
  apply Forall_app. split; [|done]. destruct (share (snd e) <=? 0) eqn:E; constructor; bool_to_prop; done.
Qed.

Lemma Distribution_loop_eq tally outs dist :
  Forall (fun e => 0 <= snd e <= total) tally -> 0 <= dist ->
  dist + sumZ (fun e => share (snd e)) tally <= INT64_MAX ->
  Distribution_loop tally T total outs dist
  = Some (outs ++ share_outputs tally, dist + sumZ (fun e => share (snd e)) tally).
Proof.
  intros Ht. revert outs dist. induction Ht as [|[s c] tally He Ht IH]; intros outs dist Hd Hmax.
  { cbn. by rewrite app_nil_r, Z.add_0_r. }
  cbn [Distribution_loop]. unfold share_outputs in *. cbn [flat_map sumZ fst snd] in *.
  pose proof (share_nonneg c ltac:(lia)) as Hc.
  assert (0 <= sumZ (fun e => share (snd e)) tally).
  { apply sumZ_nonneg. eapply Forall_impl; [done|]. intros e Hle. apply share_nonneg. cbn in Hle. lia. }
  rewrite MulDivShare_Some; [|lia|lia|lia|fold (share c); lia]. fold (share c).
  cbn [mbind option_bind]. destruct (share c <=? 0) eqn:E; bool_to_prop.
  - rewrite IH by lia. cbn [app]. do 2 f_equal. lia.
  - rewrite i64_id by (unfold in_i64, INT64_MIN in *; lia).
    rewrite IH by lia. rewrite <- app_assoc. cbn [app]. do 2 f_equal. lia.
Qed.
End Distribution.

Lemma foldl_total_blocks tally acc :
  Forall (fun e : CScript * Z => 0 <= snd e) tally -> 0 <= acc -> acc + sumZ snd tally <= INT32_MAX ->
  foldl (fun t e => i32 (t + snd e)) acc tally = acc + sumZ snd tally.
Proof.
  intros Ht. revert acc. induction Ht as [|e tally He Ht IH]; intros acc Ha Hm; cbn [foldl sumZ] in *; [lia|].
  assert (0 <= sumZ snd tally) by (by apply sumZ_nonneg).
  rewrite i32_id by (unfold in_i32, INT32_MIN in *; lia). rewrite IH; lia.
Qed.

(** The outputs of a distribution: what stakers get, then the change. *)
Definition distribution_outputs (tally : list (CScript * Z)) (target pool : Z) (poolScript : CScript)
  : list CTxOut :=
  let T := Z.min target pool in
  let total := sumZ snd tally in
  let change := pool - sumZ (fun e => share T total (snd e)) tally in
  share_outputs T total tally
  ++ (if 0 <? change then [{| nValue := change; scriptPubKey := poolScript |}] else []).

Lemma ComputeSuperblockDistribution_eq tally target pool poolScript :
  tally_wf tally -> tally <> [] -> sumZ snd tally <= INT32_MAX ->
  0 < target -> 0 <= pool <= INT64_MAX ->
  ComputeSuperblockDistribution tally target pool poolScript
    = Some (distribution_outputs tally target pool poolScript)
  /\ sumZ (fun e => share (Z.min target pool) (sumZ snd tally) (snd e)) tally <= Z.min target pool.
Proof.
  intros [_ Hpos] Hne Hsum Ht Hp. unfold ComputeSuperblockDistribution, distribution_outputs.
  rewrite bool_decide_eq_false_2, (proj2 (Z.leb_gt target 0)) by (done || lia). cbn [orb].
  assert (Hnn : Forall (fun e : CScript * Z => 0 <= snd e) tally) by (eapply Forall_impl; [done|]; cbn; lia).
  rewrite foldl_total_blocks by (done || lia). rewrite Z.add_0_l.
  assert (Htot : 0 < sumZ snd tally).
  { destruct tally as [|e t]; [done|]. inversion Hpos; inversion Hnn; subst. cbn [sumZ].
    assert (0 <= sumZ snd t) by (by apply sumZ_nonneg). lia. }
  rewrite (proj2 (Z.leb_gt _ _)) by lia.
  replace (if pool <? target then pool else target) with (Z.min target pool)
    by (destruct (pool <? target) eqn:E; bool_to_prop; lia).
  set (T := Z.min target pool). set (total := sumZ snd tally) in *.
  assert (Hle : sumZ (fun e => share T total (snd e)) tally <= T).
  { pose proof (share_sum_le T total Htot tally Hnn) as H. fold total in H. nia. }
  rewrite Distribution_loop_eq; [| unfold T; lia | lia | | lia | unfold T in *; lia].
  2: { apply Forall_forall. intros e He. split; [by eapply Forall_forall in Hnn|].
       by apply sumZ_elem_le. }
  cbn [mbind option_bind]. rewrite Z.add_0_l, !(proj2 (Z.leb_le _ _)) by (unfold T in *; lia).
  cbn [assert]. assert (0 <= sumZ (fun e => share T total (snd e)) tally).
  { apply sumZ_nonneg. eapply Forall_impl; [exact Hnn|]. intros e He. cbn in He. apply share_nonneg; unfold T; lia. }
  rewrite i64_id by (unfold in_i64, INT64_MIN, T in *; lia).
  split; [|done]. f_equal. cbn [app]. destruct (0 <? _); [done|]. by rewrite app_nil_r.
Qed.

(** The outputs of a distribution spend the pool coin exactly. *)
Lemma distribution_outputs_sum tally target pool poolScript :
  tally_wf tally -> tally <> [] -> 0 < target -> 0 <= pool <= INT64_MAX ->
  let outs := distribution_outputs tally target pool poolScript in
  sumZ nValue outs = pool /\ Forall (fun o => 0 < nValue o) outs.
Proof.
  intros [_ Hpos] Hne Ht Hp. cbn zeta. unfold distribution_outputs.
  assert (Hnn : Forall (fun e : CScript * Z => 0 <= snd e) tally) by (eapply Forall_impl; [done|]; cbn; lia).
  assert (Htot : 0 < sumZ snd tally).
  { destruct tally as [|e t]; [done|]. inversion Hpos; inversion Hnn; subst. cbn [sumZ].
    assert (0 <= sumZ snd t) by (by apply sumZ_nonneg). lia. }
  pose proof (share_sum_le (Z.min target pool) (sumZ snd tally) Htot tally Hnn) as Hle.
  rewrite sumZ_app, share_outputs_sum by (done || lia). split.
  - destruct (0 <? _) eqn:E; bool_to_prop; cbn [sumZ nValue]; [lia|]. nia.
  - apply Forall_app. split; [apply share_outputs_positive|].
    destruct (0 <? _) eqn:E; bool_to_prop; repeat constructor; done.
Qed.

(** ** Building and checking a payout *)

(** The networks' configurations enable the schedule. *)
Lemma network_schedule net :
  0 <= GetFirstSuperblockHeight (CreateChainParams net) <= 601
  /\ 0 < nBudgetCycleBlocks (consensus (CreateChainParams net)) <= 1440.
Proof. by destruct net. Qed.

(** The stakers of the cycle that ends below a height, one entry per block. *)
Definition cycle_stakers (p : CChainParams) (chain : Z -> option CBlock) (h : Z) : list CScript :=
  let lo := Z.max (h - nBudgetCycleBlocks (consensus p)) 1 in
  omap (staker_of chain) (seqZ lo (h - lo)).

Definition cycle_tally (p : CChainParams) (chain : Z -> option CBlock) (h : Z) : list (CScript * Z) :=
  TallyStakersInCycle chain (h - 1 - nBudgetCycleBlocks (consensus p) + 1) (h - 1).

Lemma cycle_tally_spec p chain h s :
  0 < nBudgetCycleBlocks (consensus p) <= INT32_MAX ->
  tally_wf (cycle_tally p chain h)
  /\ sumZ snd (cycle_tally p chain h) = size (cycle_stakers p chain h)
  /\ tally_count s (cycle_tally p chain h) = size (filter (fun x => x = s) (cycle_stakers p chain h))
  /\ size (cycle_stakers p chain h) <= INT32_MAX.
Proof.
  intros Hc. unfold cycle_tally, cycle_stakers.
  set (lo := h - 1 - nBudgetCycleBlocks (consensus p) + 1).
  destruct (TallyStakersInCycle_spec chain lo (h - 1) s) as (Hwf & Hs & Hcount & Hle); [lia|].
  cbn zeta in *. replace (h - nBudgetCycleBlocks (consensus p)) with lo in * by lia.
  replace (h - Z.max lo 1) with (h - 1 - Z.max lo 1 + 1) by lia.
  split_and!; [done | done | done | lia].
Qed.

Lemma tally_nil_iff m : tally_wf m -> m = [] <-> sumZ snd m = 0.
Proof.
  intros [_ Hp]. split; [by intros ->|]. destruct m as [|e m]; [done|]. inversion Hp; subst.
  assert (0 <= sumZ snd m) by (apply sumZ_nonneg; eapply Forall_impl; [done|]; cbn; lia).
  cbn [sumZ]. lia.
Qed.

(** [BuildSuperblockPayoutOutputs] never hits an assertion, and builds the
    distribution exactly when the cycle has stakers, a payout is due and the
    pool coin is not empty. *)
Lemma BuildSuperblockPayoutOutputs_eq p chain h script pool payout :
  0 < nBudgetCycleBlocks (consensus p) <= INT32_MAX ->
  GetSuperblockPayout p h = Some payout -> 0 <= pool <= INT64_MAX ->
  BuildSuperblockPayoutOutputs p chain h script pool =
    Some (if bool_decide (cycle_tally p chain h = []) || (payout <=? 0) || (pool =? 0) then None
          else Some (distribution_outputs (cycle_tally p chain h) payout pool script)).
Proof.
  intros Hc Hpay Hpool. unfold BuildSuperblockPayoutOutputs. fold (cycle_tally p chain h).
  destruct (cycle_tally_spec p chain h [] Hc) as (Hwf & Hsum & _ & Hle).
  case_bool_decide as E; [done|]. rewrite Hpay. cbn [mbind option_bind orb].
  destruct (payout <=? 0) eqn:Ep; [done|]. bool_to_prop.
  destruct (ComputeSuperblockDistribution_eq (cycle_tally p chain h) payout pool script)
    as [-> _]; [done | done | lia | lia | lia |]. cbn [mbind option_bind orb]. f_equal.
  destruct (distribution_outputs_sum (cycle_tally p chain h) payout pool script)
    as [Hv Hpos]; [done | done | lia | lia |]. cbn zeta in *.
  destruct (distribution_outputs _ _ _ _) as [|o outs].
  - cbn in Hv. subst. done.
  - rewrite bool_decide_eq_false_2 by done. destruct (pool =? 0) eqn:E0; [|done]. bool_to_prop.
    apply Forall_cons in Hpos as [Ho Hpos]. assert (0 <= sumZ nValue outs).
    { apply sumZ_nonneg. eapply Forall_impl; [done|]. cbn. lia. }
    cbn [sumZ] in Hv. lia.
Qed.

(** The pool's script on a network. *)
Definition pool_script (p : CChainParams) : CScript :=
  ParseHex (if bool_decide (networkID p = MAIN)
            then scriptPubKeyHex (nth 0 vPremineAllocations (Build_PremineAllocation [] 0 []))
            else TEST_PREMINE_SCRIPTPUBKEY_HEX).

(** The check accepts exactly the transactions that spend one coin of the
    pool's script into the distribution of its value. *)
Lemma CheckSuperblockPayoutTx_iff p chain coin tx h payout :
  0 < nBudgetCycleBlocks (consensus p) <= INT32_MAX -> GetSuperblockPayout p h = Some payout ->
  (forall o out, coin o = Some out -> 0 <= nValue out <= INT64_MAX) ->
  exists b, CheckSuperblockPayoutTx p chain coin tx h = Some b /\
  (b = true <->
   exists txin out, vin tx = [txin] /\ coin (prevout txin) = Some out
     /\ scriptPubKey out = pool_script p /\ cycle_stakers p chain h <> [] /\ 0 < payout /\ 0 < nValue out
     /\ vout tx = distribution_outputs (cycle_tally p chain h) payout (nValue out) (pool_script p)).
Proof.
  intros Hc Hpay Hcoin. unfold CheckSuperblockPayoutTx.
  destruct (vin tx) as [|txin [|]]; [eexists; split; [done|]; naive_solver | |
    eexists; split; [done|]; naive_solver].
  destruct (coin (prevout txin)) as [out|] eqn:Eo; [|eexists; split; [done|]; naive_solver].
  replace (GetStakingRewardsPoolAllocation) with (vPremineAllocations !! 0%nat) by reflexivity.
  cbn [lookup list_lookup vPremineAllocations mbind option_bind].
  match goal with |- context [ParseHex ?x] => change (ParseHex x) with (pool_script p) end.
  case_bool_decide as Es; cbn [negb]; [|eexists; split; [done|]; naive_solver].
  rewrite (BuildSuperblockPayoutOutputs_eq p chain h _ _ payout) by eauto. cbn [mbind option_bind].
  eexists. split; [done|]. rewrite Es.
  destruct (cycle_tally_spec p chain h [] Hc) as (Hwf & Hsum & _).
  pose proof (tally_nil_iff _ Hwf) as Hnil.
  assert (Hst : cycle_tally p chain h = [] <-> cycle_stakers p chain h = []).
  { rewrite Hnil, Hsum. unfold size. rewrite <- length_zero_iff_nil. lia. }
  destruct (Hcoin _ _ Eo) as [Hlo _].
  case_bool_decide as Et; [split; [done|]; naive_solver|]. cbn [orb].
  destruct (payout <=? 0) eqn:Ep; bool_to_prop; [split; [done|]; naive_solver lia|]. cbn [orb].
  destruct (nValue out =? 0) eqn:Ev; bool_to_prop; [split; [done|]; naive_solver lia|].
  rewrite size_outputs_match. split.
  - intros Hv. exists txin, out. split_and!; try done; [naive_solver | lia].
  - intros (txin' & out' & ? & Hcoin' & _ & _ & _ & _ & Hv). simplify_eq. done.
Qed.

(** ** Properties *)

(** The [k]-th superblock height of a network. *)
Definition superblock_height (p : CChainParams) (k : nat) : Z :=
  GetFirstSuperblockHeight p + Z.of_nat k * nBudgetCycleBlocks (consensus p).

(** C10. On every network, the payouts of the first [n] superblocks are all
    defined (no assertion fails, no overflow) and add up exactly to the
    cumulative target of the last of them; the total never exceeds the
    25.2 billion KROV of the pool allocation and reaches it after 7300 cycles
    (20 years of daily superblocks). *)
Theorem superblock_payouts_exact net (n : nat) :
  let p := CreateChainParams net in
  superblock_height p n <= INT32_MAX ->
  let paid := sumZ (fun k => default 0 (GetSuperblockPayout p (superblock_height p k))) (seq 0 n) in
  Forall (fun k => is_Some (GetSuperblockPayout p (superblock_height p k))) (seq 0 n)
  /\ GetSuperblockCumulativeTarget (Z.of_nat n - 1) = Some paid
  /\ 0 <= paid <= 25200000000 * COIN
  /\ (7300 <= Z.of_nat n -> paid = 25200000000 * COIN).
Proof.
  intros p Hn paid. destruct (network_schedule net) as [Hf Hc]. fold p in Hf, Hc.
  unfold superblock_height, INT32_MAX in *.
  assert (Hpaid : paid = schedule (Z.of_nat n)).
  { apply payouts_telescope; unfold INT64_MAX; nia. }
  rewrite Hpaid. split_and!.
  - apply Forall_forall. intros k Hk. apply elem_of_seq in Hk.
    rewrite GetSuperblockPayout_height by (unfold INT64_MAX; nia). done.
  - rewrite GetSuperblockCumulativeTarget_eq by (unfold in_i64, INT64_MIN, INT64_MAX; nia).
    do 2 f_equal. lia.
  - apply schedule_bounds.
  - apply schedule_bounds.
  - intros H. apply Z.le_antisymm; [apply schedule_bounds|].
    change (25200000000 * COIN) with (schedule 7300). apply schedule_mono. lia.
Qed.

Lemma superblock_payouts_exact_witness :
  sumZ (fun k => default 0 (GetSuperblockPayout (CreateChainParams MAIN) (superblock_height (CreateChainParams MAIN) k)))
    (seq 0 (Z.to_nat 7300)) = 25200000000 * COIN.
Proof.
  refine (proj2 (proj2 (proj2 (superblock_payouts_exact MAIN (Z.to_nat 7300) _))) _); [|lia].
  unfold superblock_height, INT32_MAX.
  change (GetFirstSuperblockHeight (CreateChainParams MAIN)) with 601.
  change (nBudgetCycleBlocks (consensus (CreateChainParams MAIN))) with 1440. lia.
Defined.

(** C11. Conservation of the pool: whenever [BuildSuperblockPayoutOutputs]
    runs on a pool coin of any [CAmount] value it completes without an
    assertion failure, and the outputs it builds are all positive and add up
    to the value of the pool coin, so a payout transaction neither creates
    nor burns a single base unit; what goes to stakers is at most the
    schedule's payout and at most the coin. *)
Theorem superblock_distribution_conserves net chain h script pool :
  let p := CreateChainParams net in
  h <= INT32_MAX -> 0 <= pool <= INT64_MAX ->
  exists payout r, GetSuperblockPayout p h = Some payout
    /\ BuildSuperblockPayoutOutputs p chain h script pool = Some r
    /\ forall outs, r = Some outs ->
         sumZ nValue outs = pool /\ Forall (fun o => 0 < nValue o) outs
         /\ exists stakers, stakers `prefix_of` outs /\ sumZ nValue stakers <= Z.min payout pool.
Proof.
  intros p Hh Hpool. destruct (network_schedule net) as [Hf Hc]. fold p in Hf, Hc.
  destruct (GetSuperblockPayout_total p ltac:(lia) ltac:(lia) h Hh) as (payout & Hpay & Hb).
  assert (Hc' : 0 < nBudgetCycleBlocks (consensus p) <= INT32_MAX) by (unfold INT32_MAX; lia).
  exists payout. eexists. split; [done|]. split; [by apply BuildSuperblockPayoutOutputs_eq|].
  destruct (cycle_tally_spec p chain h [] Hc') as (Hwf & Hsum & _ & Hle).
  case_bool_decide as Et; [done|]. destruct (payout <=? 0) eqn:Ep; [done|].
  destruct (pool =? 0) eqn:E0; [done|]. bool_to_prop. intros outs [= <-].
  destruct (distribution_outputs_sum (cycle_tally p chain h) payout pool script) as [Hv Hpos]; [done..|].
  split; [exact Hv|]. split; [exact Hpos|]. eexists. split; [unfold distribution_outputs; by apply prefix_app_r|].
  assert (Hnn : Forall (fun e : CScript * Z => 0 <= snd e) (cycle_tally p chain h)).
  { destruct Hwf as [_ Hwf]. eapply Forall_impl; [done|]. cbn. lia. }
  pose proof (size_nonneg (cycle_stakers p chain h)).
  assert (sumZ snd (cycle_tally p chain h) <> 0) by (rewrite <- tally_nil_iff; done).
  rewrite share_outputs_sum by (done || lia).
  by apply (ComputeSuperblockDistribution_eq (cycle_tally p chain h) payout pool script); try lia.
Qed.

Lemma superblock_distribution_conserves_witness :
  sumZ nValue [{| nValue := 690410958904110; scriptPubKey := [OP_1 : Z] |};
               {| nValue := 309589041095890; scriptPubKey := [OP_RETURN : Z] |}] = 10000000 * COIN.
Proof.
  destruct (superblock_distribution_conserves REGTEST
    (fun _ => Some {|
       header := {| nVersion := 11; hashPrevBlock := 0; hashMerkleRoot := 0; nTime := 0; nBits := 0;
                    nNonce := 0; nAccumulatorCheckpoint := 0; hashFinalSaplingRoot := 0 |};
       vtx := let tx outs := {| vin := [{| prevout := {| op_hash := 7; op_n := 0 |}; scriptSig := [];
                                           nSequence := SEQUENCE_FINAL |}];
                                vout := outs; tx_nVersion := 1; nType := 0; nLockTime := 0;
                                sapData := None; extraPayload := None |} in
              [tx []; tx [{| nValue := 0; scriptPubKey := [] |}; {| nValue := 5; scriptPubKey := [OP_1 : Z] |}]];
       vchBlockSig := [] |}) 14 [OP_RETURN : Z] (10000000 * COIN)
    ltac:(vm_compute; discriminate) ltac:(vm_compute; split; discriminate)) as (payout & r & _ & H2 & H3).
  vm_compute in H2. injection H2 as <-. exact (proj1 (H3 _ eq_refl)).
Defined.

(** C12. The consensus check of the payout transaction, as an equivalence, for
    a view in which the pool's coin is the only one with the pool's script.
    At a superblock height the check accepts a transaction if and only if its
    one input spends the pool's coin, the preceding cycle had stakers, a payout
    is due, and its outputs are exactly the pro-rata distribution of the coin;
    an accepted transaction pays out exactly the pool's coin.  (Where others
    have sent coins to the pool's script, the check does not tell them from the
    pool's: see [dust_pool_coin_accepted].) *)
Theorem superblock_payout_check net chain coin tx h o pool :
  let p := CreateChainParams net in
  h <= INT32_MAX -> (forall o out, coin o = Some out -> 0 <= nValue out <= INT64_MAX) ->
  coin o = Some pool -> scriptPubKey pool = pool_script p ->
  (forall o' out, coin o' = Some out -> scriptPubKey out = pool_script p -> o' = o) ->
  exists b payout, CheckSuperblockPayoutTx p chain coin tx h = Some b
    /\ GetSuperblockPayout p h = Some payout
    /\ (b = true <->
        prevout <$> vin tx = [o] /\ cycle_stakers p chain h <> [] /\ 0 < payout /\ 0 < nValue pool
          /\ vout tx = distribution_outputs (cycle_tally p chain h) payout (nValue pool) (pool_script p)
          /\ sumZ nValue (vout tx) = nValue pool).
Proof.
  intros p Hh Hcoin Hpool Hscript Honly. destruct (network_schedule net) as [Hf Hc]. fold p in Hf, Hc.
  destruct (GetSuperblockPayout_total p ltac:(lia) ltac:(lia) h Hh) as (payout & Hpay & Hb).
  assert (Hc' : 0 < nBudgetCycleBlocks (consensus p) <= INT32_MAX) by (unfold INT32_MAX; lia).
  destruct (CheckSuperblockPayoutTx_iff p chain coin tx h payout Hc' Hpay Hcoin) as (b & Hb' & Hiff).
  exists b, payout. split_and!; [done | done |]. rewrite Hiff. clear Hiff Hb'. split.
  - intros (txin & out & Hin & Hco & Hsc & Hst & Hp & Hv & Hout). assert (prevout txin = o) as Ho by by eapply Honly.
    rewrite Ho, Hpool in Hco. injection Hco as <-. split_and!; try done; [by rewrite Hin; cbn; rewrite Ho|]. rewrite Hout.
    destruct (cycle_tally_spec p chain h [] Hc') as (Hwf & Hsum & _).
    apply distribution_outputs_sum; [done | | done | eauto].
    rewrite tally_nil_iff, Hsum by done. unfold size. destruct (cycle_stakers p chain h); [done|]. simpl. lia.
  - intros (Hin & Hst & Hp & Hv & Hout & _). destruct (vin tx) as [|txin [|]]; [done| |done]. injection Hin as <-.
    exists txin, pool. by split_and!.
Qed.

(** A regtest chain whose blocks are all staked by one script, and a coin of
    the pool. *)
Definition ex_staker : CScript := [OP_1 : Z].

Definition ex_tx (ins : list CTxIn) (outs : list CTxOut) : CTransaction :=
  {| vin := ins; vout := outs; tx_nVersion := 1; nType := 0; nLockTime := 0;
     sapData := Some SaplingTxData_empty; extraPayload := None |}.

Definition ex_in : CTxIn :=
  {| prevout := {| op_hash := 7; op_n := 0 |}; scriptSig := []; nSequence := SEQUENCE_FINAL |}.

Definition ex_block : CBlock := {|
  header := {| nVersion := 11; hashPrevBlock := 0; hashMerkleRoot := 0; nTime := 0; nBits := 0;
               nNonce := 0; nAccumulatorCheckpoint := 0; hashFinalSaplingRoot := 0 |};
  vtx := [ex_tx [] []; ex_tx [ex_in] [{| nValue := 0; scriptPubKey := [] |};
                                      {| nValue := 5; scriptPubKey := ex_staker |}]];
  vchBlockSig := []
|}.

Definition ex_pool_coin (value : Z) (o : COutPoint) : option CTxOut :=
  if bool_decide (o = prevout ex_in)
  then Some {| nValue := value; scriptPubKey := pool_script (CreateChainParams REGTEST) |} else None.

(** The check identifies the pool's coin by its script only: a coin of one
    base unit sent to the pool's address by anybody passes for the pool, and
    the block pays its stakers one base unit instead of the scheduled
    payout. *)
Example dust_pool_coin_accepted :
  CheckSuperblockPayoutTx (CreateChainParams REGTEST) (fun _ => Some ex_block) (ex_pool_coin 1)
    (ex_tx [ex_in] [{| nValue := 1; scriptPubKey := ex_staker |}]) 14 = Some true
  /\ GetSuperblockPayout (CreateChainParams REGTEST) 14 = Some 690410958904110.
Proof. by vm_compute. Qed.

(** The pool of the premine, and its first payout. *)
Definition ex_pool_value : Z := 25200000000 * COIN.
Definition ex_payout_tx : CTransaction :=
  ex_tx [ex_in] [{| nValue := 690410958904110; scriptPubKey := ex_staker |};
                 {| nValue := ex_pool_value - 690410958904110; scriptPubKey := pool_script (CreateChainParams REGTEST) |}].

Lemma superblock_payout_check_witness :
  CheckSuperblockPayoutTx (CreateChainParams REGTEST) (fun _ => Some ex_block) (ex_pool_coin ex_pool_value) ex_payout_tx 14 = Some true /\
  sumZ nValue (vout ex_payout_tx) = ex_pool_value.
Proof.
  assert (V : CheckSuperblockPayoutTx (CreateChainParams REGTEST) (fun _ => Some ex_block) (ex_pool_coin ex_pool_value) ex_payout_tx 14 = Some true)
    by (vm_compute; reflexivity).
  split; [exact V|].
  destruct (superblock_payout_check REGTEST (fun _ => Some ex_block) (ex_pool_coin ex_pool_value) ex_payout_tx 14 (prevout ex_in)
      {| nValue := ex_pool_value; scriptPubKey := pool_script (CreateChainParams REGTEST) |})
    as (b & payout & H1 & _ & [H2 _]).
  - vm_compute. discriminate.
  - intros o out. unfold ex_pool_coin. case_bool_decide; intros [= <-]. vm_compute. split; discriminate.
  - reflexivity.
  - reflexivity.
  - intros o' out. unfold ex_pool_coin. case_bool_decide; [done|discriminate].
  - rewrite V in H1. injection H1 as <-. destruct (H2 eq_refl) as (_ & _ & _ & _ & _ & Hsum). exact Hsum.
Defined.
