(* ===== verification/ValidationState.v ===== *)
(** * Validation results

    consensus/validation.h.  A check leaves its [CValidationState] valid,
    marks it with the reason of the failure, or does not return (a failed
    assertion, an exception that nothing on the way catches). *)

From S2P Require Import Prelude.
From Stdlib Require Export String.

Definition REJECT_INVALID : Z := 0x10.
Definition REJECT_OBSOLETE : Z := 0x11.
Definition REJECT_NONSTANDARD : Z := 0x40.
Definition REJECT_CHECKPOINT : Z := 0x43.

Inductive mode_state := MODE_VALID | MODE_INVALID | MODE_ERROR.

#[export] Instance mode_state_eq_dec : EqDecision mode_state.
Proof. solve_decision. Defined.

(** A check may also return [false] and leave its state valid. *)
Record CValidationState := {
  mode : mode_state;
  nDoS : Z;
  chRejectCode : Z;
  strRejectReason : string;
  corruptionPossible : bool
}.

Inductive Result (A : Type) :=
  | Valid (a : A)
  | Failed (state : CValidationState)
  | Aborted.
Arguments Valid {_} _.
Arguments Failed {_} _.
Arguments Aborted {_}.

#[export] Instance Result_ret : MRet Result := fun A a => Valid a.
#[export] Instance Result_bind : MBind Result := fun A B k m =>
  match m with Valid a => k a | Failed s => Failed s | Aborted => Aborted end.

(** [state.DoS(level, false, code, reason, corruption)]. *)
Definition DoS {A} (level code : Z) (reason : string) (corruption : bool) : Result A :=
  Failed {| mode := MODE_INVALID; nDoS := level; chRejectCode := code; strRejectReason := reason; corruptionPossible := corruption |}.

(** [state.Error(reason)]. *)
Definition state_Error {A} (reason : string) : Result A :=
  Failed {| mode := MODE_ERROR; nDoS := 0; chRejectCode := 0; strRejectReason := reason; corruptionPossible := false |}.

(** [return error(...)], with the state untouched. *)
Definition return_false {A} : Result A :=
  Failed {| mode := MODE_VALID; nDoS := 0; chRejectCode := 0; strRejectReason := EmptyString; corruptionPossible := false |}.

(** [if (b) return state.DoS(level, false, REJECT_INVALID, reason)]. *)
Definition reject_if {A} (b : bool) (level : Z) (reason : string) (k : Result A) : Result A :=
  if b then DoS level REJECT_INVALID reason false else k.

(** A call that may abort. *)
Definition of_option {A} (o : option A) : Result A :=
  match o with Some a => Valid a | None => Aborted end.

Lemma bind_Valid_inv {A B} (m : Result A) (k : A -> Result B) b :
  m ≫= k = Valid b -> exists a, m = Valid a /\ k a = Valid b.
Proof. destruct m; try discriminate. eauto. Qed.

Lemma reject_if_Valid {A} b l r (k : Result A) a :
  reject_if b l r k = Valid a -> b = false /\ k = Valid a.
Proof. destruct b; [discriminate|done]. Qed.

Lemma of_option_Valid {A} (o : option A) a : of_option o = Valid a -> o = Some a.
Proof. destruct o; [by intros [= ->]|discriminate]. Qed.

(** Reads off the checks a valid result has passed. *)
Ltac valid_inv H :=
  repeat match type of H with
  | reject_if _ _ _ _ = Valid _ => let E := fresh "C" in apply reject_if_Valid in H as [E H]
  | _ ≫= _ = Valid _ =>
      let a := fresh "r" in let E := fresh "E" in apply bind_Valid_inv in H as (a & E & H)
  end.
