(* ===== verification/ArithUint256.v ===== *)
(** * Big integers

    arith_uint256.{h,cpp}: [base_uint] as its array of 32-bit limbs, little
    end first, and the proof that every operation is the operation on
    integers modulo 2^BITS. *)

From S2P Require Import Prelude.

Definition W32 : Z := 2 ^ 32.

Section BaseUint.
Context (WIDTH : nat).

(** [pn]. *)
Abbreviation base_uint := (list Z).

Definition limb (a : base_uint) (i : nat) : Z := nth i a 0.

Definition bu_zero : base_uint := replicate WIDTH 0.

(** [base_uint(uint64_t b)] *)
Definition bu_of_uint64 (b : Z) : base_uint :=
  take WIDTH (u32 b :: u32 (Z.shiftr b 32) :: replicate (WIDTH - 2) 0).

Definition bu_not (a : base_uint) : base_uint := (fun x => W32 - 1 - x) <$> a.

(** [operator++]: [pn[i]] is incremented while the result is 0. *)
Fixpoint bu_incr (a : base_uint) : base_uint :=
  match a with
  | [] => []
  | x :: a => let x := u32 (x + 1) in x :: (if x =? 0 then bu_incr a else a)
  end.

Definition bu_neg (a : base_uint) : base_uint := bu_incr (bu_not a).

(** [operator+=]: [n] is an [uint64_t]. *)
Fixpoint bu_add_carry (a b : base_uint) (carry : Z) : base_uint :=
  match a, b with
  | x :: a, y :: b =>
      let n := u64 (carry + x + y) in
      Z.land n 0xffffffff :: bu_add_carry a b (Z.shiftr n 32)
  | _, _ => []
  end.

Definition bu_add (a b : base_uint) : base_uint := bu_add_carry a b 0.
Definition bu_sub (a b : base_uint) : base_uint := bu_add a (bu_neg b).

(** [operator*=(uint32_t)] *)
Fixpoint bu_mul32_carry (a : base_uint) (b32 carry : Z) : base_uint :=
  match a with
  | [] => []
  | x :: a =>
      let n := u64 (carry + u64 (b32 * x)) in
      Z.land n 0xffffffff :: bu_mul32_carry a b32 (Z.shiftr n 32)
  end.

Definition bu_mul32 (a : base_uint) (b32 : Z) : base_uint := bu_mul32_carry a b32 0.

(** [operator*=(const base_uint&)]: the inner loop adds [x * b] to the limbs
    of the result from position [j] on. *)
Fixpoint bu_muladd (acc b : base_uint) (x carry : Z) : base_uint :=
  match acc, b with
  | r :: acc, y :: b =>
      let n := u64 (carry + r + u64 (x * y)) in
      Z.land n 0xffffffff :: bu_muladd acc b x (Z.shiftr n 32)
  | _, _ => acc
  end.

Definition bu_mul (a b : base_uint) : base_uint :=
  foldl (fun r j => take j r ++ bu_muladd (drop j r) b (limb a j) 0) bu_zero (seq 0 WIDTH).

(** [pn[i] |= x] *)
Definition bu_or_at (a : base_uint) (i : nat) (x : Z) : base_uint := <[i := Z.lor (limb a i) x]> a.

Definition bu_shl (a : base_uint) (shift : Z) : base_uint :=
  let k := Z.to_nat (shift / 32) in
  let shift := shift mod 32 in
  foldl (fun r i =>
    let r := if (i + k + 1 <? WIDTH)%nat && negb (shift =? 0)
             then bu_or_at r (i + k + 1) (Z.shiftr (limb a i) (32 - shift)) else r in
    if (i + k <? WIDTH)%nat then bu_or_at r (i + k) (u32 (Z.shiftl (limb a i) shift)) else r)
    bu_zero (seq 0 WIDTH).

Definition bu_shr (a : base_uint) (shift : Z) : base_uint :=
  let k := Z.to_nat (shift / 32) in
  let shift := shift mod 32 in
  foldl (fun r i =>
    let r := if (k + 1 <=? i)%nat && negb (shift =? 0)
             then bu_or_at r (i - k - 1) (u32 (Z.shiftl (limb a i) (32 - shift))) else r in
    if (k <=? i)%nat then bu_or_at r (i - k) (Z.shiftr (limb a i) shift) else r)
    bu_zero (seq 0 WIDTH).

(** [CompareTo], from the top limb. *)
Fixpoint bu_compare_loop (a b : base_uint) (i : nat) : comparison :=
  match i with
  | O => Eq
  | S i => if limb a i <? limb b i then Lt else if limb b i <? limb a i then Gt else bu_compare_loop a b i
  end.

Definition CompareTo (a b : base_uint) : comparison := bu_compare_loop a b WIDTH.
Definition bu_ge (a b : base_uint) : bool := match CompareTo a b with Lt => false | _ => true end.

(** [bits()]: the inner loop finds the highest set bit of a non-zero limb. *)
Fixpoint limb_bits (x : Z) (bits : nat) : Z :=
  match bits with
  | O => 0
  | S b => if negb (Z.land x (Z.shiftl 1 (Z.of_nat bits)) =? 0) then Z.of_nat bits else limb_bits x b
  end.

Fixpoint bu_bits_loop (a : base_uint) (pos : nat) : Z :=
  match pos with
  | O => 0
  | S pos => if negb (limb a pos =? 0) then 32 * Z.of_nat pos + limb_bits (limb a pos) 31 + 1
             else bu_bits_loop a pos
  end.

Definition bu_bits (a : base_uint) : Z := bu_bits_loop a WIDTH.

(** [operator/=]: the loop runs with [shift] from [fuel - 1] down to 0. *)
Fixpoint bu_div_loop (fuel : nat) (num div quot : base_uint) : base_uint :=
  match fuel with
  | O => quot
  | S shift =>
      let '(num, quot) :=
        if bu_ge num div
        then (bu_sub num div,
              bu_or_at quot (shift / 32) (u32 (Z.shiftl 1 (Z.land (Z.of_nat shift) 31))))
        else (num, quot) in
      bu_div_loop shift num (bu_shr div 1) quot
  end.

(** [None] is the thrown [uint_error]. *)
Definition bu_div (a b : base_uint) : option base_uint :=
  let num_bits := bu_bits a in
  let div_bits := bu_bits b in
  if div_bits =? 0 then None
  else if num_bits <? div_bits then Some bu_zero
  else
    let shift := num_bits - div_bits in
    Some (bu_div_loop (Z.to_nat (shift + 1)) a (bu_shl b shift) bu_zero).

End BaseUint.

(** ** Values *)

Fixpoint bu_val (a : list Z) : Z :=
  match a with [] => 0 | x :: a => x + W32 * bu_val a end.

Definition limbs_ok (a : list Z) : Prop := Forall (fun x => 0 <= x < W32) a.

(** The limbs of a value. *)
Fixpoint bu_of_Z (w : nat) (x : Z) : list Z :=
  match w with O => [] | S w => x mod W32 :: bu_of_Z w (x / W32) end.

Lemma low_limb n : Z.land n 0xffffffff = n mod W32.
Proof. change 0xffffffff with (Z.ones 32). apply Z.land_ones. lia. Qed.

Lemma high_limb n : Z.shiftr n 32 = n / W32.
Proof. apply Z.shiftr_div_pow2. lia. Qed.

Lemma W32_pos : 0 < W32.
Proof. reflexivity. Qed.

Lemma bu_val_bound a : limbs_ok a -> 0 <= bu_val a < W32 ^ Z.of_nat (length a).
Proof.
  induction 1 as [|x a X F IH]; [done|]. cbn [bu_val length].
  rewrite Nat2Z.inj_succ, Z.pow_succ_r by lia. pose proof W32_pos. nia.
Qed.

Lemma bu_val_app a b : bu_val (a ++ b) = bu_val a + W32 ^ Z.of_nat (length a) * bu_val b.
Proof.
  induction a as [|x a IH]; [cbn; lia|]. cbn [bu_val app length].
  rewrite IH, Nat2Z.inj_succ, Z.pow_succ_r by lia. ring.
Qed.

Lemma bu_val_inj a b : limbs_ok a -> limbs_ok b -> length a = length b -> bu_val a = bu_val b -> a = b.
Proof.
  intros A. revert b. induction A as [|x a X F IH]; intros [|y b] B L E; try done.
  apply Forall_cons in B as [Y B]. cbn in E. pose proof W32_pos.
  assert (x = y /\ bu_val a = bu_val b) as [-> EV].
  { assert ((x + W32 * bu_val a) mod W32 = (y + W32 * bu_val b) mod W32) as M by by rewrite E.
    rewrite !(Z.mul_comm W32), !Z.mod_add, !Z.mod_small in M by lia. split; [done|]. nia. }
  f_equal. apply IH; [done| |done]. by injection L.
Qed.

(** One step of a carry chain. *)
Lemma carry_step n t M :
  0 <= n -> 0 < M -> n mod W32 + W32 * ((n / W32 + t) mod M) = (n + W32 * t) mod (W32 * M).
Proof.
  intros N P. pose proof W32_pos. rewrite Z.rem_mul_r by lia.
  rewrite (Z.mul_comm W32 t), Z.mod_add, Z.div_add by lia. done.
Qed.

Lemma pow_pos_W32 (n : nat) : 0 < W32 ^ Z.of_nat n.
Proof. apply Z.pow_pos_nonneg; [done|lia]. Qed.

Lemma bu_add_carry_spec a : forall b carry,
  limbs_ok a -> limbs_ok b -> length a = length b -> 0 <= carry <= 1 ->
  let r := bu_add_carry a b carry in
  limbs_ok r /\ length r = length a /\
  bu_val r = (bu_val a + bu_val b + carry) mod W32 ^ Z.of_nat (length a).
Proof.
  induction a as [|x a IH]; intros [|y b] carry A B L C; try done.
  { cbn. rewrite Z.mod_1_r. repeat constructor. }
  apply Forall_cons in A as [X A]. apply Forall_cons in B as [Y B]. injection L as L. cbn [bu_add_carry].
  assert (U : u64 (carry + x + y) = carry + x + y) by (apply Z.mod_small; unfold W32 in *; lia).
  rewrite U, low_limb, high_limb. pose proof W32_pos.
  destruct (IH b ((carry + x + y) / W32) A B L) as (R1 & R2 & R3).
  { split; [apply Z.div_pos; lia|]. apply Z.lt_succ_r, Z.div_lt_upper_bound; lia. }
  repeat split.
  - constructor; [apply Z.mod_pos_bound; lia|done].
  - cbn. by rewrite R2.
  - cbn [bu_val length]. rewrite R3, Nat2Z.inj_succ, Z.pow_succ_r by lia.
    replace (x + W32 * bu_val a + (y + W32 * bu_val b) + carry)
      with (carry + x + y + W32 * (bu_val a + bu_val b)) by ring.
    rewrite <- carry_step by (lia || apply pow_pos_W32). do 3 f_equal. lia.
Qed.

Lemma bu_muladd_spec acc : forall b x carry,
  limbs_ok acc -> limbs_ok b -> (length acc <= length b)%nat -> 0 <= x < W32 -> 0 <= carry < W32 ->
  let r := bu_muladd acc b x carry in
  limbs_ok r /\ length r = length acc /\
  bu_val r = (bu_val acc + x * bu_val b + carry) mod W32 ^ Z.of_nat (length acc).
Proof.
  induction acc as [|r acc IH]; intros b x carry A B L X C.
  { destruct b; cbn; rewrite Z.mod_1_r; repeat constructor. }
  destruct b as [|y b]; [cbn in L; lia|].
  apply Forall_cons in A as [R A]. apply Forall_cons in B as [Y B]. cbn in L. cbn [bu_muladd].
  assert (B1 : x * y <= (W32 - 1) * (W32 - 1)) by nia.
  assert (U : u64 (carry + r + u64 (x * y)) = carry + r + x * y).
  { unfold uint. rewrite (Z.mod_small (x * y)), Z.mod_small; unfold W32 in *; nia. }
  rewrite U, low_limb, high_limb. pose proof W32_pos.
  destruct (IH b x ((carry + r + x * y) / W32) A B) as (R1 & R2 & R3); [lia|lia| |].
  { split; [apply Z.div_pos; nia|]. apply Z.div_lt_upper_bound; unfold W32 in *; nia. }
  repeat split.
  - constructor; [apply Z.mod_pos_bound; lia|done].
  - cbn. by rewrite R2.
  - cbn [bu_val length]. rewrite R3, Nat2Z.inj_succ, Z.pow_succ_r by lia.
    replace (r + W32 * bu_val acc + x * (y + W32 * bu_val b) + carry)
      with (carry + r + x * y + W32 * (bu_val acc + x * bu_val b)) by ring.
    rewrite <- carry_step by (nia || apply pow_pos_W32). do 3 f_equal. lia.
Qed.

Lemma bu_mul32_carry_spec a : forall b32 carry,
  limbs_ok a -> 0 <= b32 < W32 -> 0 <= carry < W32 ->
  let r := bu_mul32_carry a b32 carry in
  limbs_ok r /\ length r = length a /\
  bu_val r = (bu_val a * b32 + carry) mod W32 ^ Z.of_nat (length a).
Proof.
  induction a as [|x a IH]; intros b32 carry A B C.
  { cbn. rewrite Z.mod_1_r. repeat constructor. }
  apply Forall_cons in A as [X A]. cbn [bu_mul32_carry].
  assert (U : u64 (carry + u64 (b32 * x)) = carry + b32 * x).
  { unfold uint. rewrite (Z.mod_small (b32 * x)), Z.mod_small; unfold W32 in *; nia. }
  rewrite U, low_limb, high_limb. pose proof W32_pos.
  destruct (IH b32 ((carry + b32 * x) / W32) A B) as (R1 & R2 & R3).
  { split; [apply Z.div_pos; nia|]. apply Z.div_lt_upper_bound; unfold W32 in *; nia. }
  repeat split.
  - constructor; [apply Z.mod_pos_bound; lia|done].
  - cbn. by rewrite R2.
  - cbn [bu_val length]. rewrite R3, Nat2Z.inj_succ, Z.pow_succ_r by lia.
    replace ((x + W32 * bu_val a) * b32 + carry) with (carry + b32 * x + W32 * (bu_val a * b32)) by ring.
    rewrite <- carry_step by (nia || apply pow_pos_W32). do 3 f_equal. lia.
Qed.

Lemma bu_not_spec a :
  limbs_ok a -> limbs_ok (bu_not a) /\ length (bu_not a) = length a /\
  bu_val (bu_not a) = W32 ^ Z.of_nat (length a) - 1 - bu_val a.
Proof.
  unfold bu_not. induction 1 as [|x a X F (IH1 & IH2 & IH3)]; [cbn; repeat constructor|].
  rewrite fmap_cons. cbn [bu_val length]. rewrite IH3, Nat2Z.inj_succ, Z.pow_succ_r by lia.
  repeat split; [constructor; [lia|done]|by rewrite IH2|ring].
Qed.

Lemma bu_incr_spec a :
  limbs_ok a -> limbs_ok (bu_incr a) /\ length (bu_incr a) = length a /\
  bu_val (bu_incr a) = (bu_val a + 1) mod W32 ^ Z.of_nat (length a).
Proof.
  induction 1 as [|x a X F (IH1 & IH2 & IH3)]; [cbn; rewrite Z.mod_1_r; repeat constructor|].
  pose proof W32_pos. pose proof (pow_pos_W32 (length a)). pose proof (bu_val_bound a F) as V.
  cbn [bu_incr length]. rewrite Nat2Z.inj_succ, Z.pow_succ_r by lia. fold W32 in *.
  unfold uint. change (2 ^ 32) with W32. cbn [bu_val].
  destruct (decide (x + 1 = W32)) as [E|NE].
  - rewrite E, Z.mod_same, Z.eqb_refl by lia. cbn [bu_val length]. repeat split.
    + constructor; [lia|done].
    + by rewrite IH2.
    + rewrite IH3. replace (x + W32 * bu_val a + 1) with (W32 * (bu_val a + 1)) by lia.
      rewrite Z.mul_mod_distr_l by lia. lia.
  - rewrite Z.mod_small by lia. rewrite (proj2 (Z.eqb_neq _ _)) by lia. cbn [bu_val length]. repeat split.
    + constructor; [lia|done].
    + rewrite Z.mod_small by nia. lia.
Qed.

Section Spec.
Context (WIDTH : nat).

(** An array of the right length with 32-bit limbs. *)
Definition bu_ok (a : list Z) : Prop := limbs_ok a /\ length a = WIDTH.
Abbreviation MOD := (W32 ^ Z.of_nat WIDTH).

Lemma bu_zero_spec : bu_ok (bu_zero WIDTH) /\ bu_val (bu_zero WIDTH) = 0.
Proof.
  unfold bu_zero, bu_ok, limbs_ok. rewrite length_replicate. repeat split.
  - apply Forall_replicate. pose proof W32_pos. lia.
  - induction WIDTH as [|w IH]; [done|]. cbn [replicate bu_val]. rewrite IH. lia.
Qed.

Lemma bu_add_spec a b :
  bu_ok a -> bu_ok b -> bu_ok (bu_add a b) /\ bu_val (bu_add a b) = (bu_val a + bu_val b) mod MOD.
Proof.
  intros [A LA] [B LB]. destruct (bu_add_carry_spec a b 0 A B) as (R1 & R2 & R3); [congruence|lia|].
  unfold bu_add. rewrite R3, LA, Z.add_0_r. repeat split; [done|congruence].
Qed.

Lemma bu_neg_spec a : bu_ok a -> bu_ok (bu_neg a) /\ bu_val (bu_neg a) = (- bu_val a) mod MOD.
Proof.
  intros [A LA]. destruct (bu_not_spec a A) as (N1 & N2 & N3).
  destruct (bu_incr_spec _ N1) as (R1 & R2 & R3). unfold bu_neg.
  repeat split; [done|congruence|]. rewrite R3, N3, N2, LA.
  replace (MOD - 1 - bu_val a + 1) with (- bu_val a + 1 * MOD) by ring.
  pose proof (pow_pos_W32 WIDTH). by rewrite Z.mod_add by lia.
Qed.

Lemma bu_sub_spec a b :
  bu_ok a -> bu_ok b -> bu_ok (bu_sub a b) /\ bu_val (bu_sub a b) = (bu_val a - bu_val b) mod MOD.
Proof.
  intros A B. destruct (bu_neg_spec b B) as [NB NV]. destruct (bu_add_spec a _ A NB) as [S SV].
  split; [done|]. unfold bu_sub. rewrite SV, NV, Z.add_mod_idemp_r by (pose proof (pow_pos_W32 WIDTH); lia).
  by rewrite Z.add_opp_r.
Qed.

Lemma bu_mul32_spec a b32 :
  bu_ok a -> 0 <= b32 < W32 ->
  bu_ok (bu_mul32 a b32) /\ bu_val (bu_mul32 a b32) = (bu_val a * b32) mod MOD.
Proof.
  intros [A LA] B. destruct (bu_mul32_carry_spec a b32 0 A B) as (R1 & R2 & R3); [pose proof W32_pos; lia|].
  unfold bu_mul32. rewrite R3, LA, Z.add_0_r. repeat split; [done|congruence].
Qed.

Lemma limb_ok a i : limbs_ok a -> 0 <= limb a i < W32.
Proof.
  intros A. unfold limb. destruct (decide (i < length a)%nat).
  - apply Forall_nth; done.
  - rewrite nth_overflow by lia. pose proof W32_pos. lia.
Qed.

Lemma take_S_limb a i : (i < length a)%nat -> take (S i) a = take i a ++ [limb a i].
Proof.
  intros L. destruct (lookup_lt_is_Some_2 a i L) as [x X]. unfold limb.
  rewrite nth_lookup, X. by apply take_S_r.
Qed.

Lemma bu_val_take_S a i :
  (i < length a)%nat -> bu_val (take (S i) a) = bu_val (take i a) + W32 ^ Z.of_nat i * limb a i.
Proof.
  intros L. rewrite take_S_limb, bu_val_app, length_take_le by lia. cbn. ring.
Qed.

Lemma bu_mul_loop a b j :
  bu_ok a -> bu_ok b -> (j <= WIDTH)%nat ->
  let r := foldl (fun r j => take j r ++ bu_muladd (drop j r) b (limb a j) 0) (bu_zero WIDTH) (seq 0 j) in
  bu_ok r /\ bu_val r = (bu_val (take j a) * bu_val b) mod MOD.
Proof.
  intros [A LA] [B LB]. induction j as [|j IH]; intros L.
  { cbn. destruct bu_zero_spec as [Z1 ->]. split; [done|]. by rewrite Zmod_0_l. }
  destruct IH as [[R LR] V]; [lia|]. rewrite seq_S, foldl_app. cbn [foldl].
  set (r := foldl _ _ _) in *. cbn [Nat.add].
  destruct (bu_muladd_spec (drop j r) b (limb a j) 0) as (M1 & M2 & M3).
  { by apply Forall_drop. } { done. } { rewrite length_drop. lia. } { by apply limb_ok. }
  { pose proof W32_pos. lia. }
  rewrite length_drop, LR in M2, M3. split; [split|].
  - apply Forall_app. split; [by apply Forall_take|done].
  - rewrite length_app, M2, length_take_le; lia.
  - rewrite bu_val_app, length_take_le, M3, bu_val_take_S by lia.
    assert (RHS : ((bu_val (take j a) + W32 ^ Z.of_nat j * limb a j) * bu_val b) mod MOD =
                  (bu_val r + W32 ^ Z.of_nat j * limb a j * bu_val b) mod MOD).
    { rewrite V, Z.add_mod_idemp_l by (pose proof (pow_pos_W32 WIDTH); lia). f_equal. ring. }
    assert (VR : bu_val r = bu_val (take j r) + W32 ^ Z.of_nat j * bu_val (drop j r)).
    { rewrite <- (take_drop j r) at 1. by rewrite bu_val_app, length_take_le by lia. }
    rewrite RHS, VR. clear RHS V VR.
    replace (Z.of_nat WIDTH) with (Z.of_nat j + Z.of_nat (WIDTH - j)) by lia. rewrite Z.pow_add_r by lia.
    set (P := W32 ^ Z.of_nat j). set (Q := W32 ^ Z.of_nat (WIDTH - j)).
    replace (bu_val (take j r) + P * bu_val (drop j r) + P * limb a j * bu_val b)
      with (bu_val (take j r) + (bu_val (drop j r) + limb a j * bu_val b) * P) by ring.
    assert (0 < P) by apply pow_pos_W32. assert (0 < Q) by apply pow_pos_W32.
    pose proof (bu_val_bound (take j r) (Forall_take _ _ _ R)) as TB. rewrite length_take_le in TB by lia.
    fold P in TB. set (T := bu_val (take j r)) in *. set (D := bu_val (drop j r) + limb a j * bu_val b).
    rewrite (Z.rem_mul_r (T + D * P)), (Z.mod_add T), (Z.mod_small T), (Z.div_add T), (Z.div_small T) by lia.
    by rewrite Z.add_0_r, Z.add_0_l.
Qed.

Lemma bu_mul_spec a b :
  bu_ok a -> bu_ok b -> bu_ok (bu_mul WIDTH a b) /\ bu_val (bu_mul WIDTH a b) = (bu_val a * bu_val b) mod MOD.
Proof.
  intros A B. destruct (bu_mul_loop a b WIDTH A B) as [R V]; [done|].
  split; [done|]. unfold bu_mul. rewrite V, take_ge; [done|]. by rewrite (proj2 A).
Qed.

(** *** Comparison and length *)

Lemma bu_val_take_bound a i : limbs_ok a -> (i <= length a)%nat -> 0 <= bu_val (take i a) < W32 ^ Z.of_nat i.
Proof.
  intros A L. pose proof (bu_val_bound (take i a) (Forall_take _ _ _ A)) as B.
  by rewrite length_take_le in B.
Qed.

Lemma bu_compare_loop_spec a b i :
  limbs_ok a -> limbs_ok b -> (i <= length a)%nat -> (i <= length b)%nat ->
  bu_compare_loop a b i = (bu_val (take i a) ?= bu_val (take i b)).
Proof.
  intros A B. induction i as [|i IH]; intros LA LB; [done|]. cbn [bu_compare_loop].
  rewrite !bu_val_take_S by lia. rewrite IH by lia.
  pose proof (bu_val_take_bound a i A). pose proof (bu_val_take_bound b i B).
  pose proof (pow_pos_W32 i). set (P := W32 ^ Z.of_nat i) in *.
  destruct (Z.ltb_spec (limb a i) (limb b i)).
  { symmetry. apply Z.compare_lt_iff. nia. }
  destruct (Z.ltb_spec (limb b i) (limb a i)).
  { symmetry. apply Z.compare_gt_iff. nia. }
  replace (limb b i) with (limb a i) by lia. by rewrite !(Z.add_comm _ (P * limb a i)), Z.add_compare_mono_l.
Qed.

Lemma CompareTo_spec a b : bu_ok a -> bu_ok b -> CompareTo WIDTH a b = (bu_val a ?= bu_val b).
Proof.
  intros [A LA] [B LB]. unfold CompareTo. rewrite bu_compare_loop_spec by lia || done.
  by rewrite !take_ge by lia.
Qed.

Lemma bu_ge_spec a b : bu_ok a -> bu_ok b -> bu_ge WIDTH a b = (bu_val b <=? bu_val a).
Proof.
  intros A B. unfold bu_ge. rewrite CompareTo_spec by done.
  destruct (Z.compare_spec (bu_val a) (bu_val b)), (Z.leb_spec (bu_val b) (bu_val a)); try done; lia.
Qed.

Lemma land_pow2 x b : 0 <= b -> negb (Z.land x (Z.shiftl 1 b) =? 0) = Z.testbit x b.
Proof.
  intros B. rewrite Z.shiftl_1_l. destruct (Z.testbit x b) eqn:T.
  - apply negb_true_iff, Z.eqb_neq. intros E.
    assert (X : Z.testbit (Z.land x (2 ^ b)) b = true) by (by rewrite Z.land_spec, T, Z.pow2_bits_true by lia).
    by rewrite E, Z.bits_0 in X.
  - apply negb_false_iff, Z.eqb_eq, Z.bits_inj'. intros i I. rewrite Z.land_spec, Z.bits_0.
    destruct (decide (i = b)) as [->|]; [by rewrite T|]. rewrite Z.pow2_bits_false by lia. apply andb_false_r.
Qed.

Lemma limb_bits_spec x b : 0 < x < 2 ^ (Z.of_nat b + 1) -> limb_bits x b = Z.log2 x.
Proof.
  induction b as [|b IH]; intros X.
  { assert (x = 1) as -> by (cbn in X; lia). done. }
  cbn [limb_bits]. rewrite land_pow2 by lia. destruct (Z.testbit x (Z.of_nat (S b))) eqn:T.
  - symmetry. apply Z.log2_unique; [lia|]. split; [|rewrite <- Z.add_1_r; lia].
    destruct (Z.le_gt_cases (2 ^ Z.of_nat (S b)) x); [done|]. exfalso.
    rewrite <- (Z.mod_small x (2 ^ Z.of_nat (S b))), Z.mod_pow2_bits_high in T by lia. done.
  - apply IH. split; [lia|]. replace (Z.of_nat b + 1) with (Z.of_nat (S b)) by lia.
    destruct (Z.lt_ge_cases x (2 ^ Z.of_nat (S b))) as [|G]; [done|exfalso].
    assert (Z.log2 x = Z.of_nat (S b)) as L
      by (apply Z.log2_unique; [lia|]; split; [done|rewrite <- Z.add_1_r; lia]).
    rewrite <- L, Z.bit_log2 in T by lia. done.
Qed.

(** The number of significant bits. *)
Definition nbits (x : Z) : Z := if x =? 0 then 0 else Z.log2 x + 1.

Lemma nbits_bound x : 0 <= x -> x < 2 ^ nbits x.
Proof.
  intros X. unfold nbits. destruct (Z.eqb_spec x 0); [subst; done|].
  rewrite Z.add_1_r. apply Z.log2_spec. lia.
Qed.

Lemma bu_bits_loop_spec a i : limbs_ok a -> (i <= length a)%nat -> bu_bits_loop a i = nbits (bu_val (take i a)).
Proof.
  intros A. induction i as [|i IH]; intros L; [done|]. cbn [bu_bits_loop].
  rewrite bu_val_take_S by lia. pose proof (bu_val_take_bound a i A ltac:(lia)) as B.
  pose proof (limb_ok a i A) as X. destruct (Z.eqb_spec (limb a i) 0) as [E|NE]; cbn [negb].
  - rewrite E, Z.mul_0_r, Z.add_0_r. apply IH. lia.
  - rewrite limb_bits_spec by (unfold W32 in X; cbn; lia).
    pose proof (pow_pos_W32 i). set (P := W32 ^ Z.of_nat i) in *. unfold nbits.
    rewrite (proj2 (Z.eqb_neq _ _)) by nia. f_equal. symmetry. apply Z.log2_unique.
    + pose proof (Z.log2_nonneg (limb a i)). lia.
    + assert (PE : P = 2 ^ (32 * Z.of_nat i)) by (unfold P, W32; by rewrite <- Z.pow_mul_r by lia).
      pose proof (Z.log2_nonneg (limb a i)). pose proof (Z.log2_spec (limb a i) ltac:(lia)) as S.
      rewrite <- Z.add_succ_r, !Z.pow_add_r, <- PE by lia. nia.
Qed.

Lemma bu_bits_spec a : bu_ok a -> bu_bits WIDTH a = nbits (bu_val a).
Proof. intros [A L]. unfold bu_bits. rewrite bu_bits_loop_spec by lia || done. by rewrite take_ge by lia. Qed.

(** *** Shifts, bit by bit *)

Lemma bu_testbit a n : limbs_ok a -> 0 <= n -> Z.testbit (bu_val a) n = Z.testbit (limb a (Z.to_nat (n / 32))) (n mod 32).
Proof.
  intros A. revert n. induction A as [|x a X F IH]; intros n N.
  { cbn. unfold limb. by destruct (Z.to_nat (n / 32)); rewrite !Z.bits_0. }
  cbn [bu_val]. rewrite Z.add_comm, Z.mul_comm. unfold W32. rewrite <- lor_shiftl_add by (unfold W32 in *; lia).
  rewrite Z.lor_spec. destruct (Z.lt_ge_cases n 32).
  - rewrite Z.shiftl_spec_low, Z.div_small, Z.mod_small by lia. done.
  - rewrite Z.shiftl_spec_high by lia.
    rewrite <- (Z.mod_small x (2 ^ 32)), Z.mod_pow2_bits_high, orb_false_r by (unfold W32 in *; lia).
    rewrite IH by lia. replace n with (n - 32 + 1 * 32) at 3 4 by lia.
    rewrite Z.div_add, Z.mod_add by lia. rewrite Z.add_1_r, Z2Nat.inj_succ by (apply Z.div_pos; lia). done.
Qed.

Lemma limb_out a i : (length a <= i)%nat -> limb a i = 0.
Proof. intros L. unfold limb. by rewrite nth_overflow by lia. Qed.

Lemma limb_or_at r i x j :
  (i < length r)%nat -> limb (bu_or_at r i x) j = if decide (i = j) then Z.lor (limb r i) x else limb r j.
Proof.
  intros L. unfold bu_or_at, limb. rewrite !nth_lookup. case_decide; subst.
  - by rewrite list_lookup_insert_eq.
  - by rewrite list_lookup_insert_ne.
Qed.

Lemma or_at_ok r i x : bu_ok r -> 0 <= x < W32 -> bu_ok (bu_or_at r i x).
Proof.
  intros [R L] X. split; [|by unfold bu_or_at; rewrite length_insert].
  apply Forall_insert; [done|]. pose proof (limb_ok r i R). unfold W32 in *. split.
  - apply Z.lor_nonneg. lia.
  - destruct (decide (Z.lor (limb r i) x = 0)) as [->|]; [lia|].
    apply Z.log2_lt_pow2; [pose proof (proj2 (Z.lor_nonneg (limb r i) x)); lia|].
    rewrite Z.log2_lor by lia. apply Z.max_lub_lt.
    + destruct (decide (limb r i = 0)) as [->|]; [done|]. apply Z.log2_lt_pow2; lia.
    + destruct (decide (x = 0)) as [->|]; [done|]. apply Z.log2_lt_pow2; lia.
Qed.

Lemma limb_zero j : limb (bu_zero WIDTH) j = 0.
Proof.
  unfold limb, bu_zero. rewrite nth_lookup. destruct (replicate WIDTH 0 !! j) eqn:E; [|done].
  by apply lookup_replicate in E as [-> _].
Qed.

(** Reads the natural number tests. *)
Ltac nat_tests :=
  repeat match goal with
  | H : (_ && true)%bool = _ |- _ => rewrite andb_true_r in H
  | H : (_ && false)%bool = _ |- _ => rewrite andb_false_r in H
  | H : (_ <? _)%nat = _ |- _ => first [apply Nat.ltb_lt in H | apply Nat.ltb_ge in H]
  | H : (_ <=? _)%nat = _ |- _ => first [apply Nat.leb_le in H | apply Nat.leb_gt in H]
  end.

Lemma cond_or_at (c : bool) r i x :
  bu_ok r -> (c = true -> (i < WIDTH)%nat /\ 0 <= x < W32) ->
  let r' := if c then bu_or_at r i x else r in
  bu_ok r' /\ forall j, limb r' j = if c && bool_decide (i = j) then Z.lor (limb r j) x else limb r j.
Proof.
  intros R C. destruct c; cbn; [|done]. destruct (C eq_refl) as [I X]. split; [by apply or_at_ok|].
  intros j. rewrite limb_or_at by (rewrite (proj2 R); lia). case_bool_decide; case_decide; subst; done.
Qed.

Lemma u32_range x : 0 <= u32 x < W32.
Proof. apply Z.mod_pos_bound. done. Qed.

Lemma shiftr_range x s : 0 <= x < W32 -> 0 <= s -> 0 <= Z.shiftr x s < W32.
Proof.
  intros X S. rewrite Z.shiftr_div_pow2 by lia. split; [apply Z.div_pos; lia|].
  apply Z.div_lt_upper_bound; [lia|]. assert (0 < 2 ^ s) by lia. nia.
Qed.

Section Shifts.
Context (a : list Z) (A : bu_ok a) (k : nat) (sh : Z) (SH : 0 <= sh < 32).

Definition shl_lo (j : nat) : Z := if (k <=? j)%nat then u32 (Z.shiftl (limb a (j - k)) sh) else 0.
Definition shl_hi (j : nat) : Z :=
  if (k + 1 <=? j)%nat && negb (sh =? 0) then Z.shiftr (limb a (j - k - 1)) (32 - sh) else 0.
Definition shr_lo (j : nat) : Z := Z.shiftr (limb a (j + k)) sh.
Definition shr_hi (j : nat) : Z :=
  if negb (sh =? 0) then u32 (Z.shiftl (limb a (j + k + 1)) (32 - sh)) else 0.

Lemma shl_loop m :
  let r := foldl (fun r i =>
    let r := if (i + k + 1 <? WIDTH)%nat && negb (sh =? 0)
             then bu_or_at r (i + k + 1) (Z.shiftr (limb a i) (32 - sh)) else r in
    if (i + k <? WIDTH)%nat then bu_or_at r (i + k) (u32 (Z.shiftl (limb a i) sh)) else r)
    (bu_zero WIDTH) (seq 0 m) in
  bu_ok r /\ forall j, (j < WIDTH)%nat ->
    limb r j = Z.lor (if (j <? k + m)%nat then shl_lo j else 0) (if (j <? k + 1 + m)%nat then shl_hi j else 0).
Proof.
  induction m as [|m [R V]].
  { cbn [seq foldl]. split; [apply bu_zero_spec|]. intros j J. rewrite limb_zero. unfold shl_lo, shl_hi.
    by repeat case_match; bool_to_prop; nat_tests; try lia; rewrite ?Z.lor_0_r. }
  rewrite seq_S, foldl_app. cbn [foldl Nat.add]. set (r := foldl _ _ _) in *. cbn zeta.
  destruct (cond_or_at ((m + k + 1 <? WIDTH)%nat && negb (sh =? 0)) r (m + k + 1) (Z.shiftr (limb a m) (32 - sh)) R)
    as [R1 V1].
  { intros C. bool_to_prop. apply Nat.ltb_lt in H. split; [done|]. apply shiftr_range; [by apply limb_ok, A|lia]. }
  destruct (cond_or_at (m + k <? WIDTH)%nat _ (m + k) (u32 (Z.shiftl (limb a m) sh)) R1) as [R2 V2].
  { intros C%Nat.ltb_lt. split; [done|apply u32_range]. }
  split; [exact R2|]. intros j J. rewrite V2, V1, V by done. clear V V1 V2 R R1 R2. unfold shl_lo, shl_hi.
  destruct (sh =? 0); cbn [negb]; rewrite ?andb_false_r, ?andb_true_r; cbn [andb].
  all: repeat (case_bool_decide || case_match); bool_to_prop; nat_tests; subst; try lia; rewrite ?Z.lor_0_l, ?Z.lor_0_r; try done.
  all: try (replace (m + k - k)%nat with m by lia); try (replace (m + k + 1 - k - 1)%nat with m by lia); try done.
  all: apply Z.lor_comm.
Qed.

Lemma shr_loop m :
  (m <= WIDTH)%nat ->
  let r := foldl (fun r i =>
    let r := if (k + 1 <=? i)%nat && negb (sh =? 0)
             then bu_or_at r (i - k - 1) (u32 (Z.shiftl (limb a i) (32 - sh))) else r in
    if (k <=? i)%nat then bu_or_at r (i - k) (Z.shiftr (limb a i) sh) else r)
    (bu_zero WIDTH) (seq 0 m) in
  bu_ok r /\ forall j, (j < WIDTH)%nat ->
    limb r j = Z.lor (if (j + k <? m)%nat then shr_lo j else 0) (if (j + k + 1 <? m)%nat then shr_hi j else 0).
Proof.
  induction m as [|m IH]; intros L.
  { cbn [seq foldl]. split; [apply bu_zero_spec|]. intros j J. by rewrite limb_zero. }
  destruct IH as [R V]; [lia|].
  rewrite seq_S, foldl_app. cbn [foldl Nat.add]. set (r := foldl _ _ _) in *. cbn zeta.
  destruct (cond_or_at ((k + 1 <=? m)%nat && negb (sh =? 0)) r (m - k - 1) (u32 (Z.shiftl (limb a m) (32 - sh))) R)
    as [R1 V1].
  { intros C. bool_to_prop. nat_tests. split; [lia|apply u32_range]. }
  destruct (cond_or_at (k <=? m)%nat _ (m - k) (Z.shiftr (limb a m) sh) R1) as [R2 V2].
  { intros C. nat_tests. split; [lia|]. apply shiftr_range; [by apply limb_ok, A|lia]. }
  split; [exact R2|]. intros j J. rewrite V2, V1, V by done. clear V V1 V2 R R1 R2. unfold shr_lo, shr_hi.
  destruct (sh =? 0); cbn [negb]; rewrite ?andb_false_r, ?andb_true_r; cbn [andb].
  all: repeat (case_bool_decide || case_match); bool_to_prop; nat_tests; subst; try lia;
    rewrite ?Z.lor_0_l, ?Z.lor_0_r; try done.
  all: try (replace (m - k + k)%nat with m by lia); try (replace (m - k - 1 + k + 1)%nat with m by lia); try done.
Qed.

Lemma u32_shiftl_testbit x s t :
  0 <= s -> 0 <= t < 32 -> Z.testbit (u32 (Z.shiftl x s)) t = Z.testbit x (t - s).
Proof. intros S T. unfold uint. rewrite Z.mod_pow2_bits_low, Z.shiftl_spec by lia. done. Qed.

Lemma limb_testbit_high i t : 32 <= t -> Z.testbit (limb a i) t = false.
Proof.
  intros T. pose proof (limb_ok a i (proj1 A)) as B. unfold W32 in B.
  rewrite <- (Z.mod_small (limb a i) (2 ^ 32)), Z.mod_pow2_bits_high by lia. done.
Qed.

(** Bit [32 j + t] of a number. *)
Lemma bit_at (b : list Z) (j : nat) t :
  limbs_ok b -> 0 <= t < 32 -> Z.testbit (bu_val b) (32 * Z.of_nat j + t) = Z.testbit (limb b j) t.
Proof.
  intros B T. rewrite bu_testbit by (done || lia).
  replace (32 * Z.of_nat j + t) with (t + Z.of_nat j * 32) by lia.
  rewrite Z.div_add, Z.mod_add, Z.div_small, Z.mod_small, Z.add_0_l, Nat2Z.id by lia. done.
Qed.

Lemma shl_bits j t :
  0 <= t < 32 ->
  Z.testbit (Z.lor (shl_lo j) (shl_hi j)) t =
  Z.testbit (bu_val a) (32 * Z.of_nat j + t - (32 * Z.of_nat k + sh)).
Proof.
  intros T. rewrite Z.lor_spec. unfold shl_lo, shl_hi.
  destruct (Nat.leb_spec k j) as [K|K].
  2: { rewrite (proj2 (Nat.leb_gt (k + 1) j)) by lia. cbn [andb]. rewrite !Z.bits_0, Z.testbit_neg_r by lia. done. }
  rewrite u32_shiftl_testbit by lia. destruct (Z.le_gt_cases sh t) as [ST|ST].
  - replace (32 * Z.of_nat j + t - (32 * Z.of_nat k + sh)) with (32 * Z.of_nat (j - k) + (t - sh)) by lia.
    rewrite bit_at by (apply A || lia). replace (Z.testbit (if _ : bool then _ else 0) t) with false; [apply orb_false_r|].
    symmetry. case_match; [|apply Z.bits_0]. bool_to_prop. nat_tests. rewrite Z.shiftr_spec by lia.
    apply limb_testbit_high. lia.
  - rewrite (Z.testbit_neg_r _ (t - sh)) by lia. cbn [orb]. rewrite (proj2 (Z.eqb_neq _ _)) by lia.
    destruct (Nat.leb_spec (k + 1) j) as [K1|K1]; cbn [andb negb].
    + rewrite Z.shiftr_spec by lia.
      replace (32 * Z.of_nat j + t - (32 * Z.of_nat k + sh)) with (32 * Z.of_nat (j - k - 1) + (t + (32 - sh))) by lia.
      by rewrite bit_at by (apply A || lia).
    + rewrite Z.bits_0, Z.testbit_neg_r by lia. done.
Qed.

Lemma shr_bits j t :
  0 <= t < 32 ->
  Z.testbit (Z.lor (shr_lo j) (shr_hi j)) t =
  Z.testbit (bu_val a) (32 * Z.of_nat j + t + (32 * Z.of_nat k + sh)).
Proof.
  intros T. rewrite Z.lor_spec. unfold shr_lo, shr_hi. rewrite Z.shiftr_spec by lia.
  destruct (Z.lt_ge_cases (t + sh) 32) as [ST|ST].
  - replace (32 * Z.of_nat j + t + (32 * Z.of_nat k + sh)) with (32 * Z.of_nat (j + k) + (t + sh)) by lia.
    rewrite bit_at by (apply A || lia). replace (Z.testbit (if _ : bool then _ else 0) t) with false; [apply orb_false_r|].
    symmetry. case_match; [|apply Z.bits_0]. rewrite u32_shiftl_testbit, Z.testbit_neg_r by lia. done.
  - rewrite limb_testbit_high by lia. cbn [orb]. rewrite (proj2 (Z.eqb_neq _ _)) by lia. cbn [negb].
    rewrite u32_shiftl_testbit by lia.
    replace (32 * Z.of_nat j + t + (32 * Z.of_nat k + sh)) with (32 * Z.of_nat (j + k + 1) + (t - (32 - sh))) by lia.
    by rewrite bit_at by (apply A || lia).
Qed.

End Shifts.

Lemma MOD_pow2 : MOD = 2 ^ (32 * Z.of_nat WIDTH).
Proof. unfold W32. by rewrite <- Z.pow_mul_r by lia. Qed.

(** Two numbers with the same bits in every limb. *)
Lemma bu_val_bits r x :
  bu_ok r -> 0 <= x ->
  (forall j t, (j < WIDTH)%nat -> 0 <= t < 32 -> Z.testbit (limb r j) t = Z.testbit x (32 * Z.of_nat j + t)) ->
  bu_val r = x mod MOD.
Proof.
  intros [R L] X E. rewrite MOD_pow2. apply Z.bits_inj'. intros n N.
  rewrite bu_testbit by done. destruct (Z.lt_ge_cases n (32 * Z.of_nat WIDTH)) as [LT|GE].
  - rewrite Z.mod_pow2_bits_low by lia. rewrite E.
    + f_equal. rewrite Z2Nat.id by (apply Z.div_pos; lia). pose proof (Z.div_mod n 32). lia.
    + assert (n / 32 < Z.of_nat WIDTH) by (apply Z.div_lt_upper_bound; lia).
      pose proof (Z.div_pos n 32). lia.
    + apply Z.mod_pos_bound. lia.
  - rewrite Z.mod_pow2_bits_high by lia. rewrite limb_out; [apply Z.bits_0|].
    assert (Z.of_nat WIDTH <= n / 32) by (apply Z.div_le_lower_bound; lia). lia.
Qed.

Lemma bu_shl_spec a s :
  bu_ok a -> 0 <= s ->
  bu_ok (bu_shl WIDTH a s) /\ bu_val (bu_shl WIDTH a s) = (bu_val a * 2 ^ s) mod MOD.
Proof.
  intros A S. unfold bu_shl. set (k := Z.to_nat (s / 32)).
  assert (SH : 0 <= s mod 32 < 32) by (apply Z.mod_pos_bound; lia).
  assert (E : s = 32 * Z.of_nat k + s mod 32).
  { unfold k. rewrite Z2Nat.id by (apply Z.div_pos; lia). pose proof (Z.div_mod s 32). lia. }
  destruct (shl_loop a A k (s mod 32) SH WIDTH) as [R V]. split; [exact R|].
  apply bu_val_bits; [exact R| |].
  { pose proof (bu_val_bound a (proj1 A)). nia. }
  intros j t J T. rewrite V, !(proj2 (Nat.ltb_lt _ _)) by lia. rewrite shl_bits by done.
  rewrite Z.mul_pow2_bits by lia. f_equal. lia.
Qed.

Lemma bu_shr_spec a s :
  bu_ok a -> 0 <= s -> bu_ok (bu_shr WIDTH a s) /\ bu_val (bu_shr WIDTH a s) = bu_val a / 2 ^ s.
Proof.
  intros A S. unfold bu_shr. set (k := Z.to_nat (s / 32)).
  assert (SH : 0 <= s mod 32 < 32) by (apply Z.mod_pos_bound; lia).
  assert (E : s = 32 * Z.of_nat k + s mod 32).
  { unfold k. rewrite Z2Nat.id by (apply Z.div_pos; lia). pose proof (Z.div_mod s 32). lia. }
  destruct (shr_loop a A k (s mod 32) SH WIDTH) as [R V]; [done|]. split; [exact R|].
  pose proof (bu_val_bound a (proj1 A)) as B. rewrite (proj2 A) in B.
  rewrite <- (Z.mod_small (bu_val a / 2 ^ s) MOD).
  2: { split; [apply Z.div_pos; lia|]. apply Z.div_lt_upper_bound; [lia|]. nia. }
  apply bu_val_bits; [exact R|apply Z.div_pos; lia|].
  intros j t J T. rewrite <- Z.shiftr_div_pow2, Z.shiftr_spec by lia.
  replace (32 * Z.of_nat j + t + s) with (32 * Z.of_nat j + t + (32 * Z.of_nat k + s mod 32)) by lia.
  rewrite <- shr_bits by done. rewrite V by done. f_equal.
  destruct (Nat.ltb_spec (j + k) WIDTH), (Nat.ltb_spec (j + k + 1) WIDTH); try done; f_equal.
  all: unfold shr_lo, shr_hi; rewrite ?limb_out by (rewrite (proj2 A); lia); rewrite ?Z.shiftr_0_l; try done.
  all: by rewrite Z.shiftl_0_l; case_match.
Qed.

(** *** Division *)

Lemma bu_set_bit q s m :
  bu_ok q -> (s < 32 * WIDTH)%nat -> bu_val q = m * 2 ^ (Z.of_nat s + 1) -> 0 <= m ->
  let q' := bu_or_at q (s / 32) (u32 (Z.shiftl 1 (Z.land (Z.of_nat s) 31))) in
  bu_ok q' /\ bu_val q' = bu_val q + 2 ^ Z.of_nat s.
Proof.
  intros Q S V M q'.
  assert (I : (s / 32 < WIDTH)%nat) by (apply Nat.Div0.div_lt_upper_bound; lia).
  assert (OK : bu_ok q') by (apply or_at_ok; [done|apply u32_range]). split; [done|].
  pose proof (bu_val_bound q (proj1 Q)) as B. rewrite (proj2 Q) in B.
  assert (E : Z.lor (bu_val q) (2 ^ Z.of_nat s) = bu_val q + 2 ^ Z.of_nat s).
  { rewrite V, <- Z.shiftl_mul_pow2, lor_shiftl_add by (try (split; [lia|apply Z.pow_lt_mono_r]); lia).
    by rewrite Z.shiftl_mul_pow2 by lia. }
  assert (SM : 2 ^ Z.of_nat s < MOD) by (rewrite MOD_pow2; apply Z.pow_lt_mono_r; lia).
  rewrite <- E, <- (Z.mod_small (Z.lor _ _) MOD).
  2: { rewrite E. split; [lia|]. rewrite MOD_pow2 in *.
       assert (D : 2 ^ (32 * Z.of_nat WIDTH) = 2 ^ (Z.of_nat s + 1) * 2 ^ (32 * Z.of_nat WIDTH - Z.of_nat s - 1))
         by (rewrite <- Z.pow_add_r by lia; f_equal; lia).
       rewrite D, V in *. rewrite (Z.mul_comm m) in *. rewrite <- Z.mul_lt_mono_pos_l in B by lia.
       rewrite Z.pow_add_r by lia. change (2 ^ 1) with 2. nia. }
  apply bu_val_bits; [done|apply Z.lor_nonneg; lia|].
  intros j t J T. unfold q'. rewrite limb_or_at by (rewrite (proj2 Q); done).
  rewrite Z.lor_spec, (bit_at q j t) by (apply Q || done).
  assert (SD : s = (32 * (s / 32) + s mod 32)%nat) by apply Nat.div_mod_eq.
  assert (SL : Z.land (Z.of_nat s) 31 = Z.of_nat (s mod 32)).
  { change 31 with (Z.ones 5). rewrite Z.land_ones by lia. by rewrite Nat2Z.inj_mod. }
  pose proof (Nat.mod_upper_bound s 32 ltac:(done)). case_decide as DJ.
  - subst j. rewrite Z.lor_spec, SL, u32_shiftl_testbit by lia. f_equal.
    rewrite Z.pow2_bits_eqb by lia. destruct (Z.eqb_spec (Z.of_nat s) (32 * Z.of_nat (s / 32) + t)) as [EQ|NE].
    + replace (t - Z.of_nat (s mod 32)) with 0 by lia. done.
    + destruct (Z.lt_ge_cases (t - Z.of_nat (s mod 32)) 0); [by rewrite Z.testbit_neg_r by lia|].
      change 1 with (2 ^ 0). rewrite Z.pow2_bits_false by lia. done.
  - rewrite Z.pow2_bits_false, orb_false_r by lia. done.
Qed.

Lemma bu_div_loop_spec b fuel : forall num div quot m,
  0 < b -> (fuel <= 32 * WIDTH)%nat -> bu_ok num -> bu_ok div -> bu_ok quot ->
  (fuel <> 0%nat -> bu_val div = b * 2 ^ (Z.of_nat fuel - 1)) ->
  bu_val num < b * 2 ^ Z.of_nat fuel -> bu_val quot = m * 2 ^ Z.of_nat fuel -> 0 <= m ->
  let r := bu_div_loop WIDTH fuel num div quot in
  bu_ok r /\ bu_val r = bu_val quot + bu_val num / b.
Proof.
  induction fuel as [|s IH]; intros num div quot m B F N D Q DV NB QV M.
  { pose proof (bu_val_bound num (proj1 N)). cbn. rewrite Z.div_small by lia. split; [done|lia]. }
  specialize (DV ltac:(done)). replace (Z.of_nat (S s) - 1) with (Z.of_nat s) in DV by lia.
  rewrite Nat2Z.inj_succ, Z.pow_succ_r in NB by lia.
  destruct (bu_shr_spec div 1 D) as [D' DV']; [lia|].
  assert (NEXT : s <> 0%nat -> bu_val (bu_shr WIDTH div 1) = b * 2 ^ (Z.of_nat s - 1)).
  { intros S. rewrite DV', DV. replace (Z.of_nat s) with (Z.of_nat s - 1 + 1) at 1 by lia.
    rewrite Z.pow_add_r, Z.mul_assoc by lia. apply Z.div_mul. lia. }
  cbn [bu_div_loop]. rewrite bu_ge_spec, DV by done. destruct (Z.leb_spec (b * 2 ^ Z.of_nat s) (bu_val num)) as [G|L].
  - destruct (bu_set_bit quot s m) as [Q' QV']; [done|lia|rewrite QV; f_equal; f_equal; lia|done|].
    destruct (bu_sub_spec num div N D) as [N' NV'].
    pose proof (bu_val_bound num (proj1 N)) as NB'. rewrite (proj2 N) in NB'.
    rewrite DV, Z.mod_small in NV' by nia.
    destruct (IH (bu_sub num div) (bu_shr WIDTH div 1) _ (2 * m + 1) B ltac:(lia) N' D' Q' NEXT) as [R V];
      [lia|rewrite QV', QV, Nat2Z.inj_succ, Z.pow_succ_r by lia; ring|lia|].
    split; [exact R|]. rewrite V, QV', NV'.
    replace (bu_val num) with (bu_val num - b * 2 ^ Z.of_nat s + 2 ^ Z.of_nat s * b) at 2 by ring.
    rewrite Z.div_add by lia. lia.
  - apply (IH num (bu_shr WIDTH div 1) quot (2 * m)); try done; try lia.
    rewrite QV, Nat2Z.inj_succ, Z.pow_succ_r by lia. ring.
Qed.

Lemma nbits_le x y : 0 <= x -> 0 < y -> nbits y <= nbits x -> 0 < x /\ 2 ^ (nbits x - 1) <= x /\ nbits y = Z.log2 y + 1.
Proof.
  unfold nbits. intros X Y. rewrite (proj2 (Z.eqb_neq y 0)) by lia. pose proof (Z.log2_nonneg y).
  destruct (Z.eqb_spec x 0); [lia|]. intros L. rewrite Z.add_simpl_r. split; [lia|split; [|done]].
  apply Z.log2_spec. lia.
Qed.

Lemma bu_div_spec a b :
  bu_ok a -> bu_ok b -> bu_val b <> 0 ->
  exists q, bu_div WIDTH a b = Some q /\ bu_ok q /\ bu_val q = bu_val a / bu_val b.
Proof.
  intros A B NZ. unfold bu_div. rewrite !bu_bits_spec by done.
  pose proof (bu_val_bound a (proj1 A)) as BA. rewrite (proj2 A) in BA.
  pose proof (bu_val_bound b (proj1 B)) as BB.
  set (x := bu_val a) in *. set (y := bu_val b) in *.
  pose proof (nbits_bound x ltac:(lia)) as NX. pose proof (nbits_bound y ltac:(lia)) as NY.
  assert (YB : 2 ^ (nbits y - 1) <= y).
  { unfold nbits. rewrite (proj2 (Z.eqb_neq y 0)), Z.add_simpl_r by lia. apply Z.log2_spec. lia. }
  assert (YP : 1 <= nbits y) by (unfold nbits; rewrite (proj2 (Z.eqb_neq y 0)) by lia; pose proof (Z.log2_nonneg y); lia).
  rewrite (proj2 (Z.eqb_neq _ _)) by lia. destruct (Z.ltb_spec (nbits x) (nbits y)) as [L|G].
  - exists (bu_zero WIDTH). destruct bu_zero_spec as [Z1 ->]. split; [done|split; [done|]].
    symmetry. apply Z.div_small. split; [lia|]. eapply Z.lt_le_trans; [exact NX|].
    eapply Z.le_trans; [|exact YB]. apply Z.pow_le_mono_r; lia.
  - set (sh := nbits x - nbits y). destruct (nbits_le x y ltac:(lia) ltac:(lia) G) as (XP & XB & _).
    assert (NW : nbits x <= 32 * Z.of_nat WIDTH).
    { rewrite MOD_pow2 in BA. destruct (Z.le_gt_cases (nbits x) (32 * Z.of_nat WIDTH)) as [|GT]; [done|exfalso].
      assert (2 ^ (32 * Z.of_nat WIDTH) <= 2 ^ (nbits x - 1)) by (apply Z.pow_le_mono_r; lia). lia. }
    destruct (bu_shl_spec b sh B ltac:(lia)) as [S SV]. fold y in SV.
    rewrite Z.mod_small in SV.
    2: { split; [nia|]. rewrite MOD_pow2. apply Z.lt_le_trans with (2 ^ nbits x); [|apply Z.pow_le_mono_r; lia].
         replace (nbits x) with (nbits y + sh) by lia. rewrite Z.pow_add_r by lia. nia. }
    destruct (bu_div_loop_spec y (Z.to_nat (sh + 1)) a (bu_shl WIDTH b sh) (bu_zero WIDTH) 0) as [R V];
      try done; try lia; try apply bu_zero_spec.
    + intros _. rewrite Z2Nat.id, Z.add_simpl_r by lia. done.
    + rewrite Z2Nat.id by lia. fold x. eapply Z.lt_le_trans; [exact NX|].
      replace (nbits x) with (nbits y - 1 + (sh + 1)) by lia. rewrite Z.pow_add_r by lia. nia.
    + eexists. split; [done|]. split; [exact R|]. rewrite V. by rewrite (proj2 bu_zero_spec).
Qed.

End Spec.

(** ** Compact representation

    From here on an [arith_uint256] is its value: the section above shows the
    operations on the limbs to be those on values modulo 2^256. *)

Definition M256 : Z := 2 ^ 256.

(** The value, and the flags behind [pfNegative] and [pfOverflow]. *)
Definition SetCompact (nCompact : Z) : Z * bool * bool :=
  let nSize := Z.shiftr nCompact 24 in
  let nWord := Z.land nCompact 0x007fffff in
  let '(nWord, v) :=
    if nSize <=? 3 then let w := Z.shiftr nWord (8 * (3 - nSize)) in (w, w)
    else (nWord, (nWord * 2 ^ (8 * (nSize - 3))) mod M256) in
  (v,
   negb (nWord =? 0) && negb (Z.land nCompact 0x00800000 =? 0),
   negb (nWord =? 0) && ((34 <? nSize) || ((0xff <? nWord) && (33 <? nSize)) || ((0xffff <? nWord) && (32 <? nSize)))).

(** [None] is a failed assertion. *)
Definition GetCompact (x : Z) (fNegative : bool) : option Z :=
  let nSize := (nbits x + 7) / 8 in
  let nCompact :=
    if nSize <=? 3 then u32 (u64 (Z.shiftl (u64 x) (8 * (3 - nSize))))
    else u32 (u64 (x / 2 ^ (8 * (nSize - 3)))) in
  let '(nCompact, nSize) :=
    if negb (Z.land nCompact 0x00800000 =? 0) then (Z.shiftr nCompact 8, nSize + 1) else (nCompact, nSize) in
  assert (Z.land nCompact (Z.lxor (2 ^ 32 - 1) 0x007fffff) =? 0) (
  assert (nSize <? 256) (
  let nCompact := Z.lor nCompact (u32 (Z.shiftl nSize 24)) in
  Some (Z.lor nCompact (if fNegative && negb (Z.land nCompact 0x007fffff =? 0) then 0x00800000 else 0)))).

(** What the compact form keeps: all but the lowest [compact_drop] bytes. *)
Definition compact_drop (x : Z) : Z := Z.max 0 (nbits x / 8 - 2).
Definition compact_round (x : Z) : Z := x - x mod 256 ^ compact_drop x.

Lemma sign_bit m : 0 <= m < 2 ^ 24 -> negb (Z.land m 0x00800000 =? 0) = (2 ^ 23 <=? m).
Proof.
  intros M. change 0x00800000 with (Z.shiftl 1 23). rewrite land_pow2 by lia.
  destruct (Z.leb_spec (2 ^ 23) m) as [G|L].
  - rewrite <- (Z.log2_unique m 23) by (cbn; lia). apply Z.bit_log2. lia.
  - rewrite <- (Z.mod_small m (2 ^ 23)), Z.mod_pow2_bits_high by lia. done.
Qed.

(** Packing a mantissa and a size, and reading them back. *)
Lemma pack_compact m size :
  0 <= m < 2 ^ 23 -> 0 <= size < 256 ->
  assert (Z.land m (Z.lxor (2 ^ 32 - 1) 0x007fffff) =? 0) (
  assert (size <? 256) (Some (Z.lor (Z.lor m (u32 (Z.shiftl size 24))) 0))) = Some (size * 2 ^ 24 + m).
Proof.
  intros M S.
  assert (E0 : Z.land m (Z.lxor (2 ^ 32 - 1) 8388607) = 0).
  { change (Z.lxor (2 ^ 32 - 1) 8388607) with (Z.shiftl 511 23). rewrite Z.land_comm.
    apply land_shiftl_low; lia. }
  rewrite E0, (proj2 (Z.ltb_lt _ _)) by lia. cbn. rewrite Z.lor_0_r. f_equal.
  unfold uint. rewrite Z.mod_small by (rewrite Z.shiftl_mul_pow2; lia).
  rewrite Z.lor_comm. apply lor_shiftl_add; lia.
Qed.

Lemma unpack_compact m size :
  0 <= m < 2 ^ 23 -> 0 <= size < 256 ->
  Z.shiftr (size * 2 ^ 24 + m) 24 = size /\ Z.land (size * 2 ^ 24 + m) 0x007fffff = m /\
  Z.land (size * 2 ^ 24 + m) 0x00800000 = 0.
Proof.
  intros M S. split; [|split].
  - rewrite Z.shiftr_div_pow2, Z.add_comm, Z.div_add, Z.div_small by lia. lia.
  - change 0x007fffff with (Z.ones 23). rewrite Z.land_ones by lia.
    replace (size * 2 ^ 24 + m) with (m + (size * 2) * 2 ^ 23) by lia.
    rewrite Z.mod_add, Z.mod_small by lia. done.
  - apply Z.eqb_eq, negb_false_iff. change 0x00800000 with (Z.shiftl 1 23). rewrite land_pow2 by lia.
    assert (T : Z.testbit (size * 2 ^ 24 + m) 23 = Z.odd ((size * 2 ^ 24 + m) / 2 ^ 23))
      by (rewrite <- Z.bit0_odd, Z.div_pow2_bits by lia; done).
    rewrite T. replace (size * 2 ^ 24 + m) with (m + (2 * size) * 2 ^ 23) by lia.
    rewrite Z.div_add, Z.div_small, Z.add_0_l, Z.odd_mul by lia. done.
Qed.

(** The mantissa that [GetCompact] takes, before the sign bit is cleared. *)
Lemma nbits_range x : 0 < x -> 2 ^ (nbits x - 1) <= x < 2 ^ nbits x /\ 1 <= nbits x.
Proof.
  intros X. unfold nbits. rewrite (proj2 (Z.eqb_neq _ _)), Z.add_simpl_r by lia.
  pose proof (Z.log2_nonneg x). rewrite Z.add_1_r. split; [by apply Z.log2_spec|lia].
Qed.

Lemma pow256 k : 0 <= k -> 256 ^ k = 2 ^ (8 * k).
Proof. intros K. change 256 with (2 ^ 8). by rewrite <- Z.pow_mul_r by lia. Qed.

(** The mantissa that is first taken has its top bit set exactly when the
    number of bits is a multiple of 8. *)
Lemma first_mantissa x (b := nbits x) (n := (b + 7) / 8)
    (c := if n <=? 3 then u32 (u64 (Z.shiftl (u64 x) (8 * (3 - n)))) else u32 (u64 (x / 2 ^ (8 * (n - 3))))) :
  0 < x ->
  c = (if n <=? 3 then x * 256 ^ (3 - n) else x / 256 ^ (n - 3)) /\
  0 <= c < 2 ^ 24 /\ (2 ^ 23 <=? c) = (b =? 8 * n).
Proof.
  intros X. destruct (nbits_range x X) as [[N1 N2] NP]. fold b in N1, N2, NP.
  assert (BN : 8 * n - 7 <= b <= 8 * n) by (unfold n; Z.div_mod_to_equations; lia).
  assert (UP : forall e, b <= e -> x < 2 ^ e)
    by (intros e E; eapply Z.lt_le_trans; [exact N2|apply Z.pow_le_mono_r; lia]).
  assert (E : c = if n <=? 3 then x * 2 ^ (8 * (3 - n)) else x / 2 ^ (8 * (n - 3))).
  { unfold c, uint. destruct (Z.leb_spec n 3).
    - specialize (UP (8 * n) ltac:(lia)). rewrite Z.shiftl_mul_pow2 by lia.
      assert (P : 2 ^ (8 * n) * 2 ^ (8 * (3 - n)) = 2 ^ 24) by (rewrite <- Z.pow_add_r by lia; f_equal; lia).
      assert (2 ^ (8 * n) <= 2 ^ 24) by (apply Z.pow_le_mono_r; lia).
      rewrite (Z.mod_small x) by lia. rewrite (Z.mod_small (x * _)) by nia. apply Z.mod_small. nia.
    - assert (x / 2 ^ (8 * (n - 3)) < 2 ^ 24).
      { apply Z.div_lt_upper_bound; [lia|]. rewrite <- Z.pow_add_r by lia. apply UP. lia. }
      assert (0 <= x / 2 ^ (8 * (n - 3))) by (apply Z.div_pos; lia).
      rewrite (Z.mod_small (x / _)) by lia. apply Z.mod_small. lia. }
  split; [rewrite E; destruct (Z.leb_spec n 3); by rewrite pow256 by lia|]. rewrite E. clear E c.
  destruct (Z.leb_spec n 3).
  - assert (P : forall e, 0 <= e -> 2 ^ (8 * n - 24 + e) * 2 ^ (8 * (3 - n)) = 2 ^ e \/ 8 * n - 24 + e < 0).
    { intros e E0. destruct (Z.lt_ge_cases (8 * n - 24 + e) 0); [by right|left].
      rewrite <- Z.pow_add_r by lia. f_equal. lia. }
    assert (x < 2 ^ (8 * n - 24 + 24)) by (apply UP; lia).
    destruct (P 24) as [P24|]; [lia| |lia]. destruct (P 23) as [P23|]; [lia| |lia].
    split; [nia|]. destruct (Z.eqb_spec b (8 * n)) as [EB|NB].
    + apply Z.leb_le. rewrite <- P23. assert (2 ^ (8 * n - 24 + 23) <= x) by (replace (8 * n - 24 + 23) with (b - 1) by lia; done). nia.
    + apply Z.leb_gt. rewrite <- P23. assert (x < 2 ^ (8 * n - 24 + 23)) by (apply UP; lia). nia.
  - assert (D : forall e, 0 <= e -> b <= e + 8 * (n - 3) -> x / 2 ^ (8 * (n - 3)) < 2 ^ e).
    { intros e E0 L. apply Z.div_lt_upper_bound; [lia|]. rewrite <- Z.pow_add_r by lia. apply UP. lia. }
    split; [split; [apply Z.div_pos; lia|apply D; lia]|]. destruct (Z.eqb_spec b (8 * n)) as [EB|NB].
    + apply Z.leb_le, Z.div_le_lower_bound; [lia|]. rewrite <- Z.pow_add_r by lia.
      replace (8 * (n - 3) + 23) with (b - 1) by lia. done.
    + apply Z.leb_gt, D; lia.
Qed.

(** The final size and mantissa. *)
Lemma GetCompact_spec x :
  0 < x < M256 ->
  let size := nbits x / 8 + 1 in
  let m := if size <=? 3 then x * 256 ^ (3 - size) else x / 256 ^ (size - 3) in
  0 <= m < 2 ^ 23 /\ 1 <= size <= 33 /\ (size = 33 -> m < 2 ^ 16) /\
  GetCompact x false = Some (size * 2 ^ 24 + m).
Proof.
  intros [X XM] size m. destruct (nbits_range x X) as [[N1 N2] NP]. unfold M256 in XM.
  assert (NB : nbits x <= 256).
  { destruct (Z.le_gt_cases (nbits x) 256); [done|exfalso].
    assert (2 ^ 256 <= 2 ^ (nbits x - 1)) by (apply Z.pow_le_mono_r; lia). lia. }
  set (b := nbits x) in *. assert (SZ : size = b / 8 + 1) by done.
  assert (S1 : 1 <= size <= 33) by (rewrite SZ; Z.div_mod_to_equations; lia).
  assert (BS : 8 * size - 8 <= b < 8 * size) by (rewrite SZ; Z.div_mod_to_equations; lia).
  assert (M1 : 0 <= m < 2 ^ 23 /\ (size = 33 -> m < 2 ^ 16)).
  { unfold m. destruct (Z.leb_spec size 3).
    - rewrite pow256 by lia. split; [|lia]. split; [nia|].
      assert (x < 2 ^ (8 * size - 1)) by (eapply Z.lt_le_trans; [exact N2|apply Z.pow_le_mono_r; lia]).
      replace 23 with (8 * size - 1 + 8 * (3 - size)) by lia. rewrite Z.pow_add_r by lia. nia.
    - rewrite pow256 by lia. assert (D : forall e, 0 <= e -> b <= e + 8 * (size - 3) -> x / 2 ^ (8 * (size - 3)) < 2 ^ e).
      { intros e E L. apply Z.div_lt_upper_bound; [lia|]. rewrite <- Z.pow_add_r by lia.
        eapply Z.lt_le_trans; [exact N2|]. apply Z.pow_le_mono_r; lia. }
      split; [split; [apply Z.div_pos; lia|apply D; lia]|intros E; apply D; lia]. }
  destruct M1 as [MR M33]. split; [done|split; [done|split; [done|]]].
  destruct (first_mantissa x X) as (C & CR & CS). fold b in C, CR, CS. unfold GetCompact. fold b.
  set (n := (b + 7) / 8) in *. set (c := if n <=? 3 then u32 _ else _) in *.
  assert (BN : 8 * n - 7 <= b <= 8 * n) by (unfold n; Z.div_mod_to_equations; lia).
  rewrite sign_bit, CS by done. destruct (Z.eqb_spec b (8 * n)) as [EB|NE].
  - assert (SN : size = n + 1) by lia.
    assert (ME : Z.shiftr c 8 = m).
    { rewrite Z.shiftr_div_pow2 by lia. change (2 ^ 8) with 256. rewrite C. unfold m. rewrite SN.
      destruct (Z.leb_spec n 3), (Z.leb_spec (n + 1) 3); try lia.
      - replace (3 - n) with (3 - (n + 1) + 1) by lia. rewrite Z.pow_add_r, Z.mul_assoc by lia. apply Z.div_mul. lia.
      - assert (n = 3) as -> by lia. rewrite Z.mul_1_r. done.
      - rewrite Z.div_div by lia. f_equal. rewrite <- (Z.pow_1_r 256) at 2. rewrite <- Z.pow_add_r by lia. f_equal. lia. }
    rewrite ME, <- SN. cbn [andb]. apply pack_compact; lia.
  - assert (SN : size = n) by lia.
    assert (ME : c = m) by (rewrite C; unfold m; by rewrite SN).
    rewrite ME, <- SN. cbn [andb]. apply pack_compact; lia.
Qed.

Lemma SetCompact_GetCompact x :
  0 <= x < M256 ->
  exists c, GetCompact x false = Some c /\ 0 <= c < 2 ^ 32 /\ SetCompact c = (compact_round x, false, false).
Proof.
  intros [X0 XM]. destruct (decide (x = 0)) as [->|NZ].
  { exists 0. repeat split; vm_compute; done. }
  destruct (GetCompact_spec x) as (MR & SR & M33 & G); [lia|].
  set (size := nbits x / 8 + 1) in *. set (m := if size <=? 3 then _ else _) in *.
  exists (size * 2 ^ 24 + m). split; [done|split; [lia|]].
  destruct (unpack_compact m size) as (U1 & U2 & U3); [lia|lia|].
  unfold SetCompact. rewrite U1, U2, U3. unfold compact_round, compact_drop.
  assert (DK : nbits x / 8 - 2 = size - 3) by lia. rewrite DK.
  destruct (Z.leb_spec size 3) as [S3|S3]; cbv beta iota zeta; change (negb (0 =? 0)) with false; rewrite andb_false_r.
  - rewrite Z.max_l by lia. change (256 ^ 0) with 1. rewrite Z.mod_1_r, Z.sub_0_r.
    assert (E : Z.shiftr m (8 * (3 - size)) = x).
    { unfold m. rewrite pow256, Z.shiftr_div_pow2 by lia. apply Z.div_mul. lia. }
    rewrite E. rewrite !(proj2 (Z.ltb_ge _ size)) by lia. by rewrite !andb_false_r.
  - rewrite Z.max_r by lia. assert (E : m = x / 256 ^ (size - 3)) by done.
    rewrite <- pow256 by lia. assert (0 < 256 ^ (size - 3)) by (apply Z.pow_pos_nonneg; lia).
    pose proof (Z.div_mod x (256 ^ (size - 3)) ltac:(lia)) as DM.
    pose proof (Z.mod_pos_bound x (256 ^ (size - 3)) ltac:(lia)).
    rewrite (Z.mod_small (m * _)) by (rewrite E; unfold M256 in *; nia).
    repeat f_equal.
    + rewrite E. lia.
    + rewrite (proj2 (Z.ltb_ge 34 size)), (proj2 (Z.ltb_ge 33 size)) by lia. rewrite andb_false_r. cbn [orb].
      destruct (Z.ltb_spec 32 size); [|by rewrite !andb_false_r].
      rewrite (proj2 (Z.ltb_ge 0xffff m)) by (pose proof (M33 ltac:(lia)); lia). by rewrite andb_false_r.
Qed.

Lemma compact_round_bounds x :
  0 < x -> 2 ^ (nbits x - 1) <= compact_round x <= x /\ (x - compact_round x) * 2 ^ 15 <= x.
Proof.
  intros X. destruct (nbits_range x X) as [[N1 N2] NP]. unfold compact_round.
  set (k := compact_drop x). assert (K : 0 <= k) by (unfold k, compact_drop; lia).
  assert (0 < 256 ^ k) by (apply Z.pow_pos_nonneg; lia).
  pose proof (Z.mod_pos_bound x (256 ^ k) ltac:(lia)) as M.
  destruct (Z.eq_dec k 0) as [K0|KP].
  { rewrite K0 in *. change (256 ^ 0) with 1 in *. rewrite Z.mod_1_r. lia. }
  assert (KB : 8 * k + 16 <= nbits x) by (unfold k, compact_drop in *; Z.div_mod_to_equations; lia).
  assert (P : 2 ^ (nbits x - 1) = 2 ^ (nbits x - 1 - 8 * k) * 256 ^ k)
    by (rewrite pow256, <- Z.pow_add_r by lia; f_equal; lia).
  assert (P15 : 256 ^ k * 2 ^ 15 <= 2 ^ (nbits x - 1))
    by (rewrite pow256, <- Z.pow_add_r by lia; apply Z.pow_le_mono_r; lia).
  pose proof (Z.div_mod x (256 ^ k) ltac:(lia)).
  assert (2 ^ (nbits x - 1 - 8 * k) <= x / 256 ^ k) by (apply Z.div_le_lower_bound; [lia|]; rewrite Z.mul_comm, <- P; lia).
  nia.
Qed.

Lemma compact_round_nbits x : 0 < x -> nbits (compact_round x) = nbits x.
Proof.
  intros X. destruct (compact_round_bounds x X) as [[B1 B2] _]. destruct (nbits_range x X) as [[N1 N2] NP].
  assert (0 < compact_round x) by (assert (0 < 2 ^ (nbits x - 1)) by (apply Z.pow_pos_nonneg; lia); lia).
  unfold nbits at 1. rewrite (proj2 (Z.eqb_neq _ _)) by lia.
  rewrite (Z.log2_unique (compact_round x) (nbits x - 1)); [lia|lia|].
  rewrite Z.sub_1_r, Z.succ_pred, <- Z.sub_1_r. lia.
Qed.

Lemma GetCompact_round x : 0 <= x < M256 -> GetCompact (compact_round x) false = GetCompact x false.
Proof.
  intros [X0 XM]. destruct (decide (x = 0)) as [->|NZ]; [done|].
  destruct (compact_round_bounds x) as [[B1 B2] _]; [lia|].
  destruct (nbits_range x ltac:(lia)) as [[N1 N2] NP].
  assert (0 < compact_round x) by (assert (0 < 2 ^ (nbits x - 1)) by (apply Z.pow_pos_nonneg; lia); lia).
  destruct (GetCompact_spec x) as (_ & _ & _ & ->); [lia|].
  destruct (GetCompact_spec (compact_round x)) as (_ & _ & _ & ->); [lia|].
  rewrite compact_round_nbits by lia. do 2 f_equal.
  unfold compact_round, compact_drop. set (b := nbits x) in *. destruct (Z.leb_spec (b / 8 + 1) 3).
  - rewrite Z.max_l by lia. change (256 ^ 0) with 1. by rewrite Z.mod_1_r, Z.sub_0_r.
  - rewrite Z.max_r by lia. replace (b / 8 + 1 - 3) with (b / 8 - 2) by lia.
    assert (0 < 256 ^ (b / 8 - 2)) by (apply Z.pow_pos_nonneg; lia).
    pose proof (Z.div_mod x (256 ^ (b / 8 - 2)) ltac:(lia)).
    replace (x - x mod 256 ^ (b / 8 - 2)) with (x / 256 ^ (b / 8 - 2) * 256 ^ (b / 8 - 2)) by lia.
    by rewrite Z.div_mul by lia.
Qed.

(** ** Properties *)

(** C21. The limb arithmetic of [base_uint] is integer arithmetic modulo
    2^(32 WIDTH): addition, subtraction, negation, both multiplications and
    left shifts are exact modulo that power, right shifts and division are
    the integer quotients, comparison and [bits] are those of the values, and
    every result is again a well-formed array; division fails only for a zero
    divisor. *)
Theorem base_uint_refines_integers (WIDTH : nat) (a b : list Z) (M := W32 ^ Z.of_nat WIDTH) :
  bu_ok WIDTH a -> bu_ok WIDTH b ->
  (forall r x, (r, x) ∈
     [ (bu_add a b, (bu_val a + bu_val b) mod M); (bu_sub a b, (bu_val a - bu_val b) mod M);
       (bu_neg a, (- bu_val a) mod M); (bu_mul WIDTH a b, (bu_val a * bu_val b) mod M);
       (bu_not a, M - 1 - bu_val a) ] ->
     bu_ok WIDTH r /\ bu_val r = x) /\
  (forall m, 0 <= m < W32 -> bu_ok WIDTH (bu_mul32 a m) /\ bu_val (bu_mul32 a m) = (bu_val a * m) mod M) /\
  (forall s, 0 <= s ->
     bu_ok WIDTH (bu_shl WIDTH a s) /\ bu_val (bu_shl WIDTH a s) = (bu_val a * 2 ^ s) mod M /\
     bu_ok WIDTH (bu_shr WIDTH a s) /\ bu_val (bu_shr WIDTH a s) = bu_val a / 2 ^ s) /\
  CompareTo WIDTH a b = (bu_val a ?= bu_val b) /\
  bu_bits WIDTH a = nbits (bu_val a) /\
  (bu_val b <> 0 -> exists q, bu_div WIDTH a b = Some q /\ bu_ok WIDTH q /\ bu_val q = bu_val a / bu_val b) /\
  (bu_val b = 0 -> bu_div WIDTH a b = None).
Proof.
  intros A B. split; [|split; [|split; [|split; [|split; [|split]]]]].
  - intros r x I. rewrite !elem_of_cons, elem_of_nil in I.
    destruct I as [[= -> ->]|[[= -> ->]|[[= -> ->]|[[= -> ->]|[[= -> ->]|[]]]]]].
    + by apply bu_add_spec.
    + by apply bu_sub_spec.
    + by apply bu_neg_spec.
    + by apply bu_mul_spec.
    + destruct (bu_not_spec a (proj1 A)) as (N1 & N2 & N3). rewrite (proj2 A) in N2, N3. done.
  - intros m R. by apply bu_mul32_spec.
  - intros s S. destruct (bu_shl_spec WIDTH a s A S). destruct (bu_shr_spec WIDTH a s A S). done.
  - by apply CompareTo_spec.
  - by apply bu_bits_spec.
  - by apply bu_div_spec.
  - intros Z0. unfold bu_div. by rewrite (bu_bits_spec WIDTH b B), Z0.
Qed.

Lemma base_uint_refines_integers_witness :
  bu_val (bu_mul 8 (bu_of_uint64 8 (2 ^ 40)) (bu_of_uint64 8 (2 ^ 41))) = 2 ^ 81 /\
  bu_div 8 (bu_of_uint64 8 77) (bu_of_uint64 8 0) = None.
Proof.
  assert (A : bu_ok 8 (bu_of_uint64 8 (2 ^ 40))) by (split; [repeat constructor; vm_compute; discriminate || reflexivity|reflexivity]).
  assert (B : bu_ok 8 (bu_of_uint64 8 (2 ^ 41))) by (split; [repeat constructor; vm_compute; discriminate || reflexivity|reflexivity]).
  assert (C : bu_ok 8 (bu_of_uint64 8 77)) by (split; [repeat constructor; vm_compute; discriminate || reflexivity|reflexivity]).
  assert (D : bu_ok 8 (bu_of_uint64 8 0)) by (split; [repeat constructor; vm_compute; discriminate || reflexivity|reflexivity]).
  destruct (base_uint_refines_integers 8 _ _ A B) as [O _].
  destruct (base_uint_refines_integers 8 _ _ C D) as (_ & _ & _ & _ & _ & _ & DZ).
  split; [|apply DZ; reflexivity].
  destruct (O (bu_mul 8 (bu_of_uint64 8 (2 ^ 40)) (bu_of_uint64 8 (2 ^ 41))) _
              ltac:(do 3 apply list_elem_of_further; apply list_elem_of_here)) as [_ V].
  rewrite V. vm_compute. reflexivity.
Defined.

(** The compact form of difficulty targets: for every 256-bit number
    [GetCompact] passes its assertions and [SetCompact] reads the result back
    without a sign or overflow flag, as the number rounded down to its top
    bytes: never above it and below by less than one part in 2^15; encoding
    the rounded number again gives the same compact form. *)
Theorem compact_roundtrip (x : Z) :
  0 <= x < M256 ->
  exists c, GetCompact x false = Some c /\ 0 <= c < 2 ^ 32 /\
    SetCompact c = (compact_round x, false, false) /\
    compact_round x <= x /\ (x - compact_round x) * 2 ^ 15 <= x /\
    GetCompact (compact_round x) false = Some c.
Proof.
  intros X. destruct (SetCompact_GetCompact x X) as (c & G & CR & S).
  exists c. split; [done|split; [done|split; [done|]]]. rewrite GetCompact_round by done.
  destruct (decide (x = 0)) as [->|]; [by vm_compute|].
  destruct (compact_round_bounds x); [lia|]. repeat split; try done; lia.
Qed.

Lemma compact_roundtrip_witness :
  exists c, GetCompact (2 ^ 236 - 1) false = Some c /\ c = 0x1e0fffff /\
    SetCompact c = (compact_round (2 ^ 236 - 1), false, false).
Proof.
  destruct (compact_roundtrip (2 ^ 236 - 1) ltac:(vm_compute; split; [discriminate|reflexivity]))
    as (c & G & _ & S & _).
  exists c. split; [exact G|split; [|exact S]].
  assert (E : GetCompact (2 ^ 236 - 1) false = Some 0x1e0fffff) by (vm_compute; reflexivity).
  rewrite E in G. injection G as <-. reflexivity.
Defined.
