(* ===== verification/Chain.v ===== *)
(** * The block tree

    chain.{h,cpp}, but for the stake modifiers (see Stake).  Block indexes live in
    a store keyed by block hash ([mapBlockIndex]); [pprev] and [pskip] are
    keys of the store. *)

From S2P Require Import Prelude Params Crypto Serialize Transaction ArithUint256.

Record CBlockIndex := {
  phashBlock : Z;
  pprev : option Z;
  pskip : option Z;
  bi_nHeight : Z;
  nChainWork : Z;
  nTx : Z;
  nChainTx : Z;
  nStatus : Z;
  vStakeModifier : bytes;
  nFlags : Z;
  nSaplingValue : Z;
  nChainSaplingValue : option Z;
  bi_nVersion : Z;
  bi_hashMerkleRoot : Z;
  bi_hashFinalSaplingRoot : Z;
  bi_nTime : Z;
  bi_nBits : Z;
  bi_nNonce : Z;
  bi_nAccumulatorCheckpoint : Z;
  nTimeMax : Z
}.

Abbreviation BlockMap := (gmap Z CBlockIndex).

(** ** Status and flags *)

Definition BLOCK_VALID_TREE : Z := 2.
Definition BLOCK_VALID_TRANSACTIONS : Z := 3.
Definition BLOCK_VALID_SCRIPTS : Z := 5.
Definition BLOCK_VALID_MASK : Z := 7.
Definition BLOCK_HAVE_DATA : Z := 8.
Definition BLOCK_HAVE_UNDO : Z := 16.
Definition BLOCK_FAILED_VALID : Z := 32.
Definition BLOCK_FAILED_MASK : Z := 96.
Definition BLOCK_PROOF_OF_STAKE : Z := 1.
Definition BLOCK_STAKE_ENTROPY : Z := 2.
Definition BLOCK_STAKE_MODIFIER : Z := 4.

Definition bi_IsProofOfStake (i : CBlockIndex) : bool := negb (Z.land (nFlags i) BLOCK_PROOF_OF_STAKE =? 0).

Definition IsValid (status nUpTo : Z) : bool :=
  if negb (Z.land status BLOCK_FAILED_MASK =? 0) then false
  else nUpTo <=? Z.land status BLOCK_VALID_MASK.

(** Returns whether the validity changed, and the status. *)
Definition RaiseValidity (status nUpTo : Z) : bool * Z :=
  if negb (Z.land status BLOCK_FAILED_MASK =? 0) then (false, status)
  else if Z.land status BLOCK_VALID_MASK <? nUpTo
  then (true, Z.lor (Z.land status (Z.lxor (2 ^ 32 - 1) BLOCK_VALID_MASK)) nUpTo)
  else (false, status).

(** ** Ancestors *)

Definition InvertLowestOne (n : Z) : Z := Z.land n (n - 1).

Definition GetSkipHeight (height : Z) : Z :=
  if height <? 2 then 0
  else if negb (Z.land height 1 =? 0) then InvertLowestOne (InvertLowestOne (height - 1)) + 1
  else InvertLowestOne height.

(** The loop of [GetAncestor]; [None] is a null pointer that is followed or
    asserted against. *)
Fixpoint GetAncestor_loop (fuel : nat) (m : BlockMap) (pindexWalk : CBlockIndex) (heightWalk height : Z)
  : option CBlockIndex :=
  match fuel with
  | O => None
  | S fuel =>
      if height <? heightWalk then
        let heightSkip := GetSkipHeight heightWalk in
        let heightSkipPrev := GetSkipHeight (heightWalk - 1) in
        if (heightSkip =? height) ||
           ((height <? heightSkip) && negb ((heightSkipPrev <? heightSkip - 2) && (height <=? heightSkipPrev)))
        then
          k ← pskip pindexWalk; i ← m !! k; GetAncestor_loop fuel m i heightSkip height
        else
          k ← pprev pindexWalk; i ← m !! k; GetAncestor_loop fuel m i (heightWalk - 1) height
      else Some pindexWalk
  end.

(** [Some None] is a returned [nullptr]. *)
Definition GetAncestor (m : BlockMap) (i : CBlockIndex) (height : Z) : option (option CBlockIndex) :=
  if (bi_nHeight i <? height) || (height <? 0) then Some None
  else r ← GetAncestor_loop (S (Z.to_nat (bi_nHeight i))) m i (bi_nHeight i) height; Some (Some r).

(** The [pskip] that [BuildSkip] stores. *)
Definition BuildSkip (m : BlockMap) (pprevIndex : CBlockIndex) (nHeight : Z) : option (option Z) :=
  r ← GetAncestor m pprevIndex (GetSkipHeight nHeight); Some (option_map phashBlock r).

(** The second loop of [LastCommonAncestor]; it ends at the genesis block. *)
Fixpoint LastCommon_loop (fuel : nat) (m : BlockMap) (pa pb : option CBlockIndex) : option CBlockIndex :=
  match fuel with
  | O => None
  | S fuel =>
      match pa, pb with
      | Some a, Some b =>
          if phashBlock a =? phashBlock b then Some a
          else LastCommon_loop fuel m (k ← pprev a; m !! k) (k ← pprev b; m !! k)
      | _, _ => None
      end
  end.

Definition LastCommonAncestor (m : BlockMap) (pa pb : CBlockIndex) : option CBlockIndex :=
  ab ← (if bi_nHeight pb <? bi_nHeight pa then a ← GetAncestor m pa (bi_nHeight pb); Some (a, Some pb)
        else if bi_nHeight pa <? bi_nHeight pb then b ← GetAncestor m pb (bi_nHeight pa); Some (Some pa, b)
        else Some (Some pa, Some pb));
  LastCommon_loop (S (S (Z.to_nat (Z.min (bi_nHeight pa) (bi_nHeight pb))))) m (fst ab) (snd ab).

(** ** Times *)

Definition nMedianTimeSpan : nat := 11.

(** The times of the last blocks, the given one first. *)
Fixpoint last_times (n : nat) (m : BlockMap) (i : CBlockIndex) : list Z :=
  match n with
  | O => []
  | S n =>
      bi_nTime i :: match k ← pprev i; m !! k with Some p => last_times n m p | None => [] end
  end.

(** [std::sort] on integers. *)
Fixpoint insert_sorted (x : Z) (l : list Z) : list Z :=
  match l with [] => [x] | y :: l => if x <=? y then x :: y :: l else y :: insert_sorted x l end.
Definition sortZ (l : list Z) : list Z := foldr insert_sorted [] l.

Definition GetMedianTimePast (m : BlockMap) (i : CBlockIndex) : Z :=
  let times := sortZ (last_times nMedianTimeSpan m i) in
  nth (length times / 2) times 0.

Definition MaxFutureBlockTime (p : ConsensusParams) (GetAdjustedTime : Z) (i : CBlockIndex) : option Z :=
  d ← FutureBlockTimeDrift p (bi_nHeight i + 1); Some (GetAdjustedTime + d).

Definition MinPastBlockTime (p : ConsensusParams) (m : BlockMap) (i : CBlockIndex) : option Z :=
  v2 ← IsTimeProtocolV2 p (bi_nHeight i + 1);
  if negb v2 then Some (GetMedianTimePast m i)
  else if bi_nHeight i + 1 =? vUpgrades p UPGRADE_V4_0 then
    d0 ← FutureBlockTimeDrift p (bi_nHeight i);
    d1 ← FutureBlockTimeDrift p (bi_nHeight i + 1);
    Some (bi_nTime i - d0 + d1)
  else Some (bi_nTime i).

(** ** The active chain *)

(** [vChain], genesis first, as keys. *)
Abbreviation CChain := (list Z).

Definition chain_at (vChain : CChain) (nHeight : Z) : option Z :=
  if (nHeight <? 0) || (size vChain <=? nHeight) then None else vChain !! Z.to_nat nHeight.

Definition chain_Height (vChain : CChain) : Z := size vChain - 1.
Definition chain_Tip (vChain : CChain) : option Z := last vChain.

Definition Contains (vChain : CChain) (i : CBlockIndex) : bool :=
  match chain_at vChain (bi_nHeight i) with Some k => k =? phashBlock i | None => false end.

Definition Next (vChain : CChain) (i : CBlockIndex) : option Z :=
  if Contains vChain i then chain_at vChain (bi_nHeight i + 1) else None.

(** The loop of [SetTip]: positions are overwritten until one agrees. *)
Fixpoint SetTip_loop (fuel : nat) (m : BlockMap) (v : CChain) (i : CBlockIndex) : option CChain :=
  match fuel with
  | O => None
  | S fuel =>
      if bool_decide (v !! Z.to_nat (bi_nHeight i) = Some (phashBlock i)) then Some v
      else
        let v := <[Z.to_nat (bi_nHeight i) := phashBlock i]> v in
        match k ← pprev i; m !! k with
        | Some p => SetTip_loop fuel m v p
        | None => Some v
        end
  end.

(** [vector::resize] fills with null pointers, here the null hash. *)
Definition resize (v : CChain) (n : nat) : CChain := take n v ++ replicate (n - length v) 0.

Definition SetTip (m : BlockMap) (v : CChain) (pindex : option CBlockIndex) : option CChain :=
  match pindex with
  | None => Some []
  | Some i => SetTip_loop (S (Z.to_nat (bi_nHeight i))) m (resize v (S (Z.to_nat (bi_nHeight i)))) i
  end.

Fixpoint FindFork_loop (fuel : nat) (m : BlockMap) (v : CChain) (i : option CBlockIndex)
  : option (option CBlockIndex) :=
  match fuel with
  | O => None
  | S fuel =>
      match i with
      | None => Some None
      | Some i => if Contains v i then Some (Some i) else FindFork_loop fuel m v (k ← pprev i; m !! k)
      end
  end.

Definition FindFork (m : BlockMap) (v : CChain) (pindex : option CBlockIndex) : option (option CBlockIndex) :=
  match pindex with
  | None => Some None
  | Some i =>
      i ← (if chain_Height v <? bi_nHeight i then GetAncestor m i (chain_Height v) else Some (Some i));
      FindFork_loop (S (S (Z.to_nat (match i with Some i => bi_nHeight i | None => 0 end)))) m v i
  end.

(** [vHave.size() > 10] doubles the step. *)
Fixpoint GetLocator_loop (fuel : nat) (m : BlockMap) (v : CChain) (i : CBlockIndex) (nStep : Z) (vHave : list Z)
  : option (list Z) :=
  match fuel with
  | O => None
  | S fuel =>
      let vHave := vHave ++ [phashBlock i] in
      if bi_nHeight i =? 0 then Some vHave
      else
        let nHeight := Z.max (bi_nHeight i - nStep) 0 in
        next ← (if Contains v i then Some (k ← chain_at v nHeight; m !! k) else GetAncestor m i nHeight);
        match next with
        | None => Some vHave
        | Some i => GetLocator_loop fuel m v i (if 10 <? size vHave then nStep * 2 else nStep) vHave
        end
  end.

Definition GetLocator (m : BlockMap) (v : CChain) (i : CBlockIndex) : option (list Z) :=
  GetLocator_loop (S (Z.to_nat (bi_nHeight i))) m v i 1 [].

(** ** Walking the tree *)

Definition parent (m : BlockMap) (i : CBlockIndex) : option CBlockIndex := k ← pprev i; m !! k.

(** [n] steps of [pprev]. *)
Fixpoint up (n : nat) (m : BlockMap) (i : CBlockIndex) : option CBlockIndex :=
  match n with O => Some i | S n => j ← parent m i; up n m j end.

(** The ancestor at a height. *)
Definition ancestor (m : BlockMap) (i : CBlockIndex) (h : Z) : option CBlockIndex :=
  up (Z.to_nat (bi_nHeight i - h)) m i.

(** Every entry is under its own hash, which is not null, the parent is one lower, and the skip
    pointer leads to the ancestor at [GetSkipHeight]. *)
Definition index_wf (m : BlockMap) (k : Z) (i : CBlockIndex) : Prop :=
  phashBlock i = k /\ k <> 0 /\ 0 <= bi_nHeight i /\
  (bi_nHeight i = 0 -> pprev i = None) /\
  (0 < bi_nHeight i ->
   (exists p, parent m i = Some p /\ bi_nHeight p = bi_nHeight i - 1) /\
   (exists s, pskip i = Some (phashBlock s) /\ ancestor m i (GetSkipHeight (bi_nHeight i)) = Some s)).

Definition tree_wf (m : BlockMap) : Prop := map_Forall (index_wf m) m.
Definition stored (m : BlockMap) (i : CBlockIndex) : Prop := m !! phashBlock i = Some i.

Lemma land_le_r a b : 0 <= b -> Z.land a b <= b.
Proof.
  intros B. assert (E : Z.ldiff (Z.land a b) b = 0).
  { apply Z.bits_inj'. intros n N. rewrite Z.ldiff_spec, Z.land_spec, Z.bits_0.
    by destruct (Z.testbit a n), (Z.testbit b n). }
  apply Z.sub_nocarry_ldiff in E. assert (0 <= Z.ldiff b (Z.land a b)) by (apply Z.ldiff_nonneg; lia). lia.
Qed.

Lemma InvertLowestOne_range n : 0 < n -> 0 <= InvertLowestOne n <= n - 1.
Proof. intros N. split; [apply Z.land_nonneg; lia|]. apply land_le_r. lia. Qed.

Lemma InvertLowestOne_0 : InvertLowestOne 0 = 0.
Proof. done. Qed.

Lemma GetSkipHeight_range h : 0 < h -> 0 <= GetSkipHeight h < h.
Proof.
  intros P. unfold GetSkipHeight. destruct (Z.ltb_spec h 2); [lia|].
  destruct (negb _) eqn:O.
  - pose proof (InvertLowestOne_range (h - 1)).
    destruct (Z.eq_dec (InvertLowestOne (h - 1)) 0) as [E|]; [rewrite E, InvertLowestOne_0; lia|].
    pose proof (InvertLowestOne_range (InvertLowestOne (h - 1))). lia.
  - pose proof (InvertLowestOne_range h). lia.
Qed.

Section Walk.
Context (m : BlockMap) (W : tree_wf m).

Lemma parent_stored i p : parent m i = Some p -> stored m p.
Proof.
  unfold parent, stored. destruct (pprev i) as [k|]; [|done]. cbn. intros L.
  destruct (W k p L) as [-> _]. done.
Qed.

Lemma stored_parent i :
  stored m i -> 0 < bi_nHeight i -> exists p, parent m i = Some p /\ bi_nHeight p = bi_nHeight i - 1 /\ stored m p.
Proof.
  intros S P. destruct (W _ _ S) as (_ & _ & _ & _ & H). destruct (H P) as [(p & E & HP) _].
  exists p. split; [done|split; [done|]]. by eapply parent_stored.
Qed.

Lemma stored_height i : stored m i -> 0 <= bi_nHeight i.
Proof. intros S. by destruct (W _ _ S) as (_ & _ & ? & _). Qed.

Lemma stored_root i : stored m i -> bi_nHeight i = 0 -> parent m i = None.
Proof. intros S Z0. destruct (W _ _ S) as (_ & _ & _ & R & _). unfold parent. by rewrite (R Z0). Qed.

Lemma up_total n : forall i, stored m i -> Z.of_nat n <= bi_nHeight i ->
  exists j, up n m i = Some j /\ stored m j /\ bi_nHeight j = bi_nHeight i - Z.of_nat n.
Proof.
  induction n as [|n IH]; intros i S L; [exists i; repeat split; [done|lia]|].
  destruct (stored_parent i S) as (p & E & HP & SP); [lia|]. cbn [up]. rewrite E. cbn [mbind option_bind].
  destruct (IH p SP) as (j & U & SJ & HJ); [lia|]. exists j. repeat split; try done. lia.
Qed.

Lemma up_app a b : forall i, up (a + b) m i = (j ← up a m i; up b m j).
Proof. induction a as [|a IH]; intros i; [done|]. cbn. destruct (parent m i); [apply IH|done]. Qed.

Lemma ancestor_total i h : stored m i -> 0 <= h <= bi_nHeight i ->
  exists j, ancestor m i h = Some j /\ stored m j /\ bi_nHeight j = h.
Proof.
  intros S L. destruct (up_total (Z.to_nat (bi_nHeight i - h)) i S) as (j & U & SJ & HJ); [lia|].
  exists j. repeat split; try done. lia.
Qed.

Lemma ancestor_trans i h j h' :
  stored m i -> ancestor m i h = Some j -> 0 <= h <= bi_nHeight i -> 0 <= h' <= h -> ancestor m j h' = ancestor m i h'.
Proof.
  intros S A L L'. destruct (ancestor_total i h S L) as (j' & A' & _ & HJ).
  assert (j' = j) as -> by congruence. subst h. unfold ancestor in *. replace (Z.to_nat (bi_nHeight i - h')) with
    (Z.to_nat (bi_nHeight i - bi_nHeight j) + Z.to_nat (bi_nHeight j - h'))%nat by lia.
  by rewrite up_app, A.
Qed.

Lemma ancestor_self i : ancestor m i (bi_nHeight i) = Some i.
Proof. unfold ancestor. by rewrite Z.sub_diag. Qed.

Lemma ancestor_parent i p h :
  stored m i -> parent m i = Some p -> 0 <= h < bi_nHeight i -> ancestor m p h = ancestor m i h.
Proof.
  intros ST E L. destruct (stored_parent i ST) as (p' & E' & HP & SP); [lia|].
  assert (p' = p) as -> by congruence. unfold ancestor. rewrite HP. replace (Z.to_nat (bi_nHeight i - h)) with (S (Z.to_nat (bi_nHeight i - 1 - h))) by lia.
  cbn. by rewrite E.
Qed.

Lemma GetAncestor_loop_spec fuel : forall i h,
  stored m i -> 0 <= h <= bi_nHeight i -> (Z.to_nat (bi_nHeight i - h) < fuel)%nat ->
  GetAncestor_loop fuel m i (bi_nHeight i) h = ancestor m i h.
Proof.
  induction fuel as [|fuel IH]; intros i h S L F; [lia|]. cbn [GetAncestor_loop].
  destruct (Z.ltb_spec h (bi_nHeight i)) as [LT|GE].
  2: { unfold ancestor. replace (bi_nHeight i - h) with 0 by lia. done. }
  pose proof (GetSkipHeight_range (bi_nHeight i)) as SR.
  destruct (W _ _ S) as (_ & _ & _ & _ & H). destruct H as [_ (s & SK & A)]; [lia|].
  destruct (ancestor_total i (GetSkipHeight (bi_nHeight i)) S) as (s' & A' & SS & HS); [lia|].
  assert (s' = s) as -> by congruence.
  destruct (_ || _) eqn:C.
  - rewrite SK. cbn [mbind option_bind]. rewrite SS. cbn [mbind option_bind]. rewrite <- HS.
    apply orb_true_iff in C. assert (h <= bi_nHeight s) by (destruct C; bool_to_prop; lia).
    rewrite IH by (done || lia). apply (ancestor_trans i (GetSkipHeight (bi_nHeight i))); try done; lia.
  - destruct (stored_parent i S) as (p & E & HP & SP); [lia|].
    assert (E' := E). unfold parent in E'. destruct (pprev i) as [k|]; [|done]. cbn [mbind option_bind] in *.
    rewrite E'. cbn [mbind option_bind]. rewrite <- HP, IH by (done || lia). apply ancestor_parent; try done. lia.
Qed.

Lemma GetAncestor_spec i h :
  stored m i ->
  GetAncestor m i h = Some (if bool_decide (0 <= h <= bi_nHeight i) then ancestor m i h else None).
Proof.
  intros S. pose proof (stored_height i S). unfold GetAncestor. case_bool_decide as B.
  - rewrite (proj2 (Z.ltb_ge _ _)), (proj2 (Z.ltb_ge _ _)) by lia. cbn [orb].
    rewrite GetAncestor_loop_spec by (done || lia). destruct (ancestor_total i h S B) as (j & -> & _). done.
  - destruct (Z.ltb_spec (bi_nHeight i) h), (Z.ltb_spec h 0); try done. lia.
Qed.

(** *** Common ancestors *)

Definition is_ancestor (a i : CBlockIndex) : Prop :=
  0 <= bi_nHeight a <= bi_nHeight i /\ ancestor m i (bi_nHeight a) = Some a.

Definition last_common (i j c : CBlockIndex) : Prop :=
  is_ancestor c i /\ is_ancestor c j /\
  forall d, is_ancestor d i -> is_ancestor d j -> bi_nHeight d <= bi_nHeight c.

(** All branches meet in one genesis block. *)
Definition single_root : Prop := forall i j,
  stored m i -> stored m j -> bi_nHeight i = 0 -> bi_nHeight j = 0 -> i = j.

Lemma is_ancestor_refl i : stored m i -> is_ancestor i i.
Proof. intros S. split; [pose proof (stored_height i S); lia|apply ancestor_self]. Qed.

Lemma is_ancestor_stored a i : stored m i -> is_ancestor a i -> stored m a.
Proof. intros S [L A]. destruct (ancestor_total i _ S L) as (j & A' & SJ & _). by simplify_eq. Qed.

Lemma is_ancestor_trans a b i : stored m i -> is_ancestor a b -> is_ancestor b i -> is_ancestor a i.
Proof.
  intros S [LA A] [LB B]. split; [lia|].
  rewrite <- A. symmetry. by apply (ancestor_trans i (bi_nHeight b)).
Qed.

(** Two ancestors of a block lie on one line. *)
Lemma is_ancestor_linear a b i :
  stored m i -> is_ancestor a i -> is_ancestor b i -> bi_nHeight a <= bi_nHeight b -> is_ancestor a b.
Proof. intros S [LA A] [LB B] L. split; [lia|]. rewrite <- A. apply (ancestor_trans i (bi_nHeight b)); try done. lia. Qed.

Lemma is_ancestor_below a i p :
  stored m i -> parent m i = Some p -> is_ancestor a i -> a <> i -> is_ancestor a p.
Proof.
  intros S E [L A] NE.
  assert (bi_nHeight a <> bi_nHeight i) by (intros X; rewrite X, ancestor_self in A; congruence).
  destruct (stored_parent i S) as (p' & E' & HP & SP); [lia|]. assert (p' = p) as -> by congruence.
  split; [lia|]. rewrite (ancestor_parent i p); try done. lia.
Qed.

Lemma is_ancestor_parent i p : stored m i -> parent m i = Some p -> is_ancestor p i.
Proof.
  intros S E. destruct (decide (bi_nHeight i = 0)) as [Z0|].
  { by rewrite (stored_root i S Z0) in E. }
  pose proof (stored_height i S). destruct (stored_parent i S) as (p' & E' & HP & SP); [lia|].
  assert (p' = p) as -> by congruence. split; [lia|]. unfold ancestor. rewrite HP.
  replace (Z.to_nat (bi_nHeight i - (bi_nHeight i - 1))) with 1%nat by lia. cbn. by rewrite E.
Qed.

Lemma stored_inj i j : stored m i -> stored m j -> phashBlock i = phashBlock j -> i = j.
Proof. unfold stored. intros A B E. rewrite E in A. congruence. Qed.

Lemma LastCommon_loop_spec (R : single_root) fuel : forall a b,
  stored m a -> stored m b -> bi_nHeight a = bi_nHeight b -> (Z.to_nat (bi_nHeight a) < fuel)%nat ->
  exists c, LastCommon_loop fuel m (Some a) (Some b) = Some c /\ last_common a b c.
Proof.
  induction fuel as [|fuel IH]; intros a b SA SB HE F; [lia|]. cbn [LastCommon_loop].
  destruct (Z.eqb_spec (phashBlock a) (phashBlock b)) as [E|NE].
  - exists a. assert (a = b) as <- by by apply stored_inj. split; [done|].
    split; [by apply is_ancestor_refl|split; [by apply is_ancestor_refl|]]. intros d [[_ L] _] _. exact L.
  - assert (P : 0 < bi_nHeight a).
    { pose proof (stored_height a SA). destruct (decide (bi_nHeight a = 0)); [|lia].
      exfalso. apply NE. rewrite (R a b); try done. lia. }
    destruct (stored_parent a SA P) as (pa & EA & HA & SPA).
    destruct (stored_parent b SB) as (pb & EB & HB & SPB); [lia|].
    fold (parent m a) (parent m b). rewrite EA, EB.
    destruct (IH pa pb SPA SPB) as (c & L & (C1 & C2 & C3)); [lia|lia|].
    exists c. split; [done|]. split; [|split].
    + by apply (is_ancestor_trans c pa a SA C1), is_ancestor_parent.
    + by apply (is_ancestor_trans c pb b SB C2), is_ancestor_parent.
    + intros d DA DB. assert (d <> a /\ d <> b) as [Da Db].
      { split; intros ->; apply NE.
        - destruct DB as [_ A]. rewrite HE, ancestor_self in A. congruence.
        - destruct DA as [_ A]. rewrite <- HE, ancestor_self in A. congruence. }
      apply C3; eauto using is_ancestor_below.
Qed.

(** Cutting the higher block to the height of the lower one. *)
Lemma last_common_cut i j a :
  stored m i -> stored m j -> bi_nHeight j <= bi_nHeight i -> ancestor m i (bi_nHeight j) = Some a ->
  forall c, last_common a j c -> last_common i j c.
Proof.
  intros SI SJ L A c (C1 & C2 & C3). destruct (ancestor_total i (bi_nHeight j) SI) as (a' & A' & SA & HA);
    [pose proof (stored_height j SJ); lia|]. assert (a' = a) as -> by congruence.
  assert (AI : is_ancestor a i) by (split; [pose proof (stored_height j SJ); lia|by rewrite HA]).
  split; [by apply (is_ancestor_trans c a i)|split; [done|]].
  intros d DI DJ. apply C3; [|done]. apply (is_ancestor_linear d a i); try done. destruct DJ. lia.
Qed.

Lemma last_common_sym i j c : last_common i j c -> last_common j i c.
Proof. intros (A & B & C). split; [done|split; [done|]]. eauto. Qed.

Lemma LastCommonAncestor_spec (R : single_root) i j :
  stored m i -> stored m j -> exists c, LastCommonAncestor m i j = Some c /\ last_common i j c.
Proof.
  intros SI SJ. pose proof (stored_height i SI). pose proof (stored_height j SJ). unfold LastCommonAncestor.
  destruct (Z.ltb_spec (bi_nHeight j) (bi_nHeight i)); [|destruct (Z.ltb_spec (bi_nHeight i) (bi_nHeight j))].
  - rewrite GetAncestor_spec, bool_decide_true by (done || lia). cbn [mbind option_bind fst snd].
    destruct (ancestor_total i (bi_nHeight j) SI) as (a & A & SA & HA); [lia|]. rewrite A.
    destruct (LastCommon_loop_spec R (S (S (Z.to_nat (Z.min (bi_nHeight i) (bi_nHeight j))))) a j SA SJ)
      as (c & L & C); [lia|lia|]. exists c. split; [done|]. eapply (last_common_cut i j a); try done. lia.
  - rewrite GetAncestor_spec, bool_decide_true by (done || lia). cbn [mbind option_bind fst snd].
    destruct (ancestor_total j (bi_nHeight i) SJ) as (b & B & SB & HB); [lia|]. rewrite B.
    destruct (LastCommon_loop_spec R (S (S (Z.to_nat (Z.min (bi_nHeight i) (bi_nHeight j))))) i b SI SB)
      as (c & L & C); [lia|lia|]. exists c. split; [done|].
    apply last_common_sym. apply (last_common_cut j i b); try done; try lia; by apply last_common_sym.
  - cbn [mbind option_bind fst snd]. apply LastCommon_loop_spec; try done; lia.
Qed.

(** *** The active chain *)

Definition on_chain (v : CChain) (j : CBlockIndex) : Prop := v !! Z.to_nat (bi_nHeight j) = Some (phashBlock j).

(** [v] is the chain from the genesis block to [tip]. *)
Definition is_chain (v : CChain) (tip : CBlockIndex) : Prop :=
  stored m tip /\ size v = bi_nHeight tip + 1 /\ forall j, is_ancestor j tip -> on_chain v j.

(** Below a block that is in its place everything is in its place. *)
Definition consistent (v : CChain) (n : Z) : Prop :=
  forall j, stored m j -> bi_nHeight j <= n -> on_chain v j -> forall a, is_ancestor a j -> on_chain v a.

Lemma SetTip_loop_spec new fuel : forall v i,
  stored m new -> is_ancestor i new -> size v = bi_nHeight new + 1 -> consistent v (bi_nHeight i) ->
  (forall j, is_ancestor j new -> bi_nHeight i < bi_nHeight j -> on_chain v j) ->
  (Z.to_nat (bi_nHeight i) < fuel)%nat ->
  exists v', SetTip_loop fuel m v i = Some v' /\ is_chain v' new.
Proof.
  induction fuel as [|fuel IH]; intros v i SN AI L C U F; [lia|]. cbn [SetTip_loop].
  pose proof (is_ancestor_stored i new SN AI) as SI. pose proof (stored_height i SI) as HI.
  case_bool_decide as E.
  - exists v. split; [done|]. split; [done|split; [done|]]. intros j J.
    destruct (Z.lt_ge_cases (bi_nHeight i) (bi_nHeight j)); [by apply U|].
    apply (C i SI); [lia|done|]. by apply (is_ancestor_linear j i new).
  - set (v1 := <[Z.to_nat (bi_nHeight i) := phashBlock i]> v).
    assert (L1 : size v1 = bi_nHeight new + 1) by (unfold v1, size in *; by rewrite length_insert).
    assert (ON : forall j, is_ancestor j new -> bi_nHeight i <= bi_nHeight j -> on_chain v1 j).
    { intros j J G. unfold on_chain, v1. destruct (decide (bi_nHeight j = bi_nHeight i)) as [EQ|NE].
      - assert (j = i) as -> by (destruct J as [_ A1], AI as [_ A2]; rewrite EQ in A1; congruence).
        apply list_lookup_insert_eq. destruct AI. unfold size in L. lia.
      - rewrite list_lookup_insert_ne by lia. apply U; [done|lia]. }
    fold (parent m i). destruct (parent m i) as [p|] eqn:EP.
    + assert (PH : bi_nHeight p = bi_nHeight i - 1).
      { destruct (decide (bi_nHeight i = 0)) as [Z0|]; [by rewrite (stored_root i SI Z0) in EP|].
        destruct (stored_parent i SI) as (p' & E' & HP & _); [lia|]. congruence. }
      pose proof (is_ancestor_parent i p SI EP) as AP.
      apply (IH v1 p SN); [by apply (is_ancestor_trans p i new)|done| |intros j J G; apply ON; [done|lia]|].
      * intros j SJ HJ OJ a AA. unfold on_chain, v1 in *. destruct AA as [LA AA].
        pose proof (stored_height j SJ). rewrite list_lookup_insert_ne in * by lia.
        apply (C j); [done|lia|done|by split].
      * pose proof (stored_height p (parent_stored i p EP)). lia.
    + exists v1. split; [done|]. split; [done|split; [done|]]. intros j J. apply ON; [done|].
      assert (bi_nHeight i = 0); [|destruct J; lia].
      destruct (decide (bi_nHeight i = 0)); [done|]. destruct (stored_parent i SI) as (p & EP' & _); [lia|]. congruence.
Qed.

Lemma on_chain_ancestor v tip j : is_chain v tip -> stored m j -> on_chain v j -> is_ancestor j tip.
Proof.
  intros (ST & L & A) SJ O. pose proof (stored_height j SJ).
  assert (bi_nHeight j <= bi_nHeight tip).
  { apply lookup_lt_Some in O. unfold size in L. lia. }
  destruct (ancestor_total tip (bi_nHeight j) ST) as (a & AA & SA & HA); [lia|].
  assert (X : on_chain v a) by (apply A; split; [lia|by rewrite HA]).
  unfold on_chain in *. rewrite HA, O in X. assert (a = j) as -> by (apply stored_inj; try done; congruence).
  split; [lia|done].
Qed.

Lemma resize_lookup v n k x : resize v n !! k = Some x -> x <> 0 -> v !! k = Some x.
Proof.
  unfold resize. intros E NZ. apply lookup_app_Some in E as [E|[_ E]].
  - by apply lookup_take_Some in E as [? _].
  - apply lookup_replicate in E as [-> _]. done.
Qed.

Lemma resize_lookup_lt v n k : (k < n)%nat -> (k < length v)%nat -> resize v n !! k = v !! k.
Proof. intros K L. unfold resize. rewrite lookup_app_l, lookup_take_lt; [done|done|]. rewrite length_take. lia. Qed.

Lemma length_resize v n : length (resize v n) = n.
Proof. unfold resize. rewrite length_app, length_take, length_replicate. lia. Qed.

Lemma SetTip_spec v old new :
  is_chain v old -> stored m new -> exists v', SetTip m v (Some new) = Some v' /\ is_chain v' new.
Proof.
  intros CH SN. pose proof (stored_height new SN). apply SetTip_loop_spec; try done.
  - by apply is_ancestor_refl.
  - unfold size. rewrite length_resize. lia.
  - intros j SJ HJ OJ a AA. pose proof (is_ancestor_stored a j SJ AA) as SA.
    destruct (W _ _ SJ) as (_ & NZ & HP & _).
    apply resize_lookup in OJ; [|done].
    pose proof (on_chain_ancestor v old j CH SJ OJ) as JO. destruct CH as (ST & L & A).
    assert (OA : on_chain v a) by (apply A; by apply (is_ancestor_trans a j old)).
    unfold on_chain in *. destruct AA as [LA _]. pose proof (stored_height a SA).
    rewrite resize_lookup_lt; [done|lia|]. by apply lookup_lt_Some in OA.
  - intros j [L _] G. lia.
  - lia.
Qed.

Lemma Contains_spec v tip j : is_chain v tip -> stored m j -> Contains v j = true <-> is_ancestor j tip.
Proof.
  intros CH SJ. pose proof (stored_height j SJ). assert (CH' := CH). destruct CH' as (ST & L & A).
  unfold Contains, chain_at. split.
  - intros C. apply (on_chain_ancestor v tip); try done. unfold on_chain.
    destruct (_ || _); [done|]. destruct (v !! _) as [k|]; [|done]. bool_to_prop. by subst.
  - intros J. assert (O := A j J). destruct J as [LJ _]. unfold on_chain in O.
    rewrite (proj2 (Z.ltb_ge _ _)), (proj2 (Z.leb_gt _ _)), O by lia. apply Z.eqb_refl.
Qed.

Lemma FindFork_loop_spec v tip (R : single_root) fuel : forall i,
  is_chain v tip -> stored m i -> bi_nHeight i <= bi_nHeight tip -> (Z.to_nat (bi_nHeight i) < fuel)%nat ->
  exists c, FindFork_loop fuel m v (Some i) = Some (Some c) /\ last_common i tip c.
Proof.
  induction fuel as [|fuel IH]; intros i CH SI HI F; [lia|]. cbn [FindFork_loop].
  pose proof (Contains_spec v tip i CH SI) as CS. destruct (Contains v i).
  - exists i. split; [done|]. split; [by apply is_ancestor_refl|]. split; [by apply CS|]. intros d [[_ L] _] _. exact L.
  - assert (NA : ~ is_ancestor i tip) by (intros X; by apply CS in X). pose proof (stored_height i SI).
    destruct (decide (bi_nHeight i = 0)) as [Z0|].
    { exfalso. apply NA. destruct CH as (ST & _). pose proof (stored_height tip ST).
      destruct (ancestor_total tip 0 ST) as (r & A & SR & HR); [lia|].
      rewrite (R i r SI SR Z0 HR). split; [lia|by rewrite HR]. }
    destruct (stored_parent i SI) as (p & EP & HP & SP); [lia|]. fold (parent m i). rewrite EP.
    destruct (IH p CH SP) as (c & L & (C1 & C2 & C3)); [lia|lia|]. exists c. split; [done|].
    split; [by apply (is_ancestor_trans c p i SI C1), is_ancestor_parent|split; [done|]].
    intros d D1 D2. apply C3; [|done]. apply (is_ancestor_below d i p); try done. by intros ->.
Qed.

Lemma FindFork_spec v tip (R : single_root) i :
  is_chain v tip -> stored m i -> exists c, FindFork m v (Some i) = Some (Some c) /\ last_common i tip c.
Proof.
  intros CH SI. assert (CH' := CH). destruct CH' as (ST & L & _). pose proof (stored_height tip ST).
  pose proof (stored_height i SI). unfold FindFork, chain_Height. rewrite L, Z.add_simpl_r.
  destruct (Z.ltb_spec (bi_nHeight tip) (bi_nHeight i)).
  - rewrite GetAncestor_spec, bool_decide_true by (done || lia). cbn [mbind option_bind].
    destruct (ancestor_total i (bi_nHeight tip) SI) as (a & A & SA & HA); [lia|]. rewrite A.
    destruct (FindFork_loop_spec v tip R (S (S (Z.to_nat (bi_nHeight a)))) a CH SA) as (c & E & C); [lia|lia|].
    exists c. split; [done|]. apply (last_common_cut i tip a); try done. lia.
  - cbn [mbind option_bind]. apply FindFork_loop_spec; try done. lia.
Qed.

End Walk.

(** ** A tree of one line, for examples *)

Definition line_index (h : Z) : CBlockIndex := {|
  phashBlock := h + 1; pprev := if h =? 0 then None else Some h; pskip := if h =? 0 then None else Some (GetSkipHeight h + 1);
  bi_nHeight := h; nChainWork := h; nTx := 1; nChainTx := h; nStatus := BLOCK_VALID_SCRIPTS; vStakeModifier := [];
  nFlags := 0; nSaplingValue := 0; nChainSaplingValue := Some 0; bi_nVersion := 8; bi_hashMerkleRoot := 0;
  bi_hashFinalSaplingRoot := 0; bi_nTime := 60 * h; bi_nBits := 0x1e0ffff0; bi_nNonce := 0;
  bi_nAccumulatorCheckpoint := 0; nTimeMax := 60 * h |}.

Definition line_map (n : nat) : BlockMap :=
  list_to_map ((fun h => (Z.of_nat h + 1, line_index (Z.of_nat h))) <$> seq 0 n).

Lemma lookup_line_map n k :
  line_map n !! k = if bool_decide (1 <= k <= Z.of_nat n) then Some (line_index (k - 1)) else None.
Proof.
  unfold line_map. induction n as [|n IH].
  { case_bool_decide; [lia|]. apply lookup_empty. }
  rewrite seq_S, fmap_app, list_to_map_app. cbn [fmap list_fmap list_to_map foldr fst snd Nat.add].
  destruct (decide (k = Z.of_nat n + 1)) as [->|NE].
  - rewrite bool_decide_true by lia. rewrite lookup_union, IH, bool_decide_false by lia.
    rewrite lookup_insert_eq. cbn. do 2 f_equal. lia.
  - rewrite lookup_union, IH, lookup_insert_ne, lookup_empty by done.
    destruct (decide (1 <= k <= Z.of_nat n)); [rewrite !bool_decide_true by lia|rewrite !bool_decide_false by lia]; done.
Qed.

Lemma line_up n j : forall h, 0 <= h < Z.of_nat n -> Z.of_nat j <= h ->
  up j (line_map n) (line_index h) = Some (line_index (h - Z.of_nat j)).
Proof.
  induction j as [|j IH]; intros h H L; [by rewrite Z.sub_0_r|]. cbn [up]. unfold parent. cbn [pprev line_index].
  rewrite (proj2 (Z.eqb_neq _ _)) by lia. cbn [mbind option_bind]. rewrite lookup_line_map, bool_decide_true by lia.
  cbn [mbind option_bind]. rewrite IH by lia. do 2 f_equal. lia.
Qed.

Lemma line_map_wf n : tree_wf (line_map n).
Proof.
  intros k i. rewrite lookup_line_map. case_bool_decide as K; [|done]. intros [= <-].
  split; [cbn; lia|split; [lia|split; [cbn; lia|split]]].
  - cbn. intros ->. done.
  - cbn [bi_nHeight line_index]. intros P. split.
    + exists (line_index (k - 2)). split; [|cbn; lia]. unfold parent. cbn [pprev line_index].
      rewrite (proj2 (Z.eqb_neq _ _)) by lia. cbn. rewrite lookup_line_map, bool_decide_true by lia. do 2 f_equal. lia.
    + pose proof (GetSkipHeight_range (k - 1)). exists (line_index (GetSkipHeight (k - 1))).
      cbn [pskip line_index]. rewrite (proj2 (Z.eqb_neq _ _)) by lia. split; [done|].
      unfold ancestor. cbn [bi_nHeight line_index]. rewrite line_up by lia. do 2 f_equal. lia.
Qed.

Lemma line_stored n h : 0 <= h < Z.of_nat n -> stored (line_map n) (line_index h).
Proof. intros H. unfold stored. cbn [phashBlock line_index]. rewrite lookup_line_map, bool_decide_true by lia. do 2 f_equal. lia. Qed.

(** ** Properties *)

(** C22. In a well-formed block tree the skip list changes nothing:
    [GetAncestor] returns, for every height up to the block's, the block that
    many [pprev] steps below it, and a null pointer otherwise; it never
    follows a null pointer. *)
Theorem get_ancestor_walks (m : BlockMap) (i : CBlockIndex) (h : Z) :
  tree_wf m -> stored m i ->
  GetAncestor m i h = Some (if bool_decide (0 <= h <= bi_nHeight i) then ancestor m i h else None) /\
  (0 <= h <= bi_nHeight i -> exists j, ancestor m i h = Some j /\ bi_nHeight j = h /\ stored m j).
Proof.
  intros W S. split; [by apply GetAncestor_spec|]. intros H.
  destruct (ancestor_total m W i h S H) as (j & A & SJ & HJ). by exists j.
Qed.

Lemma get_ancestor_walks_witness :
  GetAncestor (line_map 101) (line_index 100) 37 = Some (Some (line_index 37)).
Proof.
  destruct (get_ancestor_walks (line_map 101) (line_index 100) 37 (line_map_wf 101)
              (line_stored 101 100 ltac:(lia))) as [E _].
  rewrite E. reflexivity.
Defined.

(** The active chain: moving its tip to any stored block gives the path
    from the genesis block to it, position by position; [FindFork] and
    [LastCommonAncestor] then return the highest block that the given blocks
    have in common. *)
Theorem active_chain_correct (m : BlockMap) (v : CChain) (old new i : CBlockIndex) :
  tree_wf m -> single_root m -> is_chain m v old -> stored m new -> stored m i ->
  exists v', SetTip m v (Some new) = Some v' /\ is_chain m v' new /\
    (forall j, stored m j -> Contains v' j = true <-> is_ancestor m j new) /\
    (exists c, FindFork m v' (Some i) = Some (Some c) /\ last_common m i new c) /\
    (exists c, LastCommonAncestor m i new = Some c /\ last_common m i new c).
Proof.
  intros W R CH SN SI. destruct (SetTip_spec m W v old new CH SN) as (v' & E & C').
  exists v'. split; [done|split; [done|split; [|split]]].
  - intros j SJ. by apply Contains_spec.
  - by apply FindFork_spec.
  - by apply LastCommonAncestor_spec.
Qed.

Lemma line_single_root n : single_root (line_map n).
Proof.
  intros i j SI SJ HI HJ. unfold stored in *. rewrite lookup_line_map in SI, SJ.
  case_bool_decide; [|done]. case_bool_decide; [|done]. injection SI as EI. injection SJ as EJ.
  pose proof (f_equal bi_nHeight EI) as XI. pose proof (f_equal bi_nHeight EJ) as XJ. cbn in XI, XJ.
  rewrite <- EI, <- EJ. f_equal. lia.
Qed.

Lemma line_genesis_chain n : (0 < n)%nat -> is_chain (line_map n) [1] (line_index 0).
Proof.
  intros N. split; [apply line_stored; lia|]. split; [done|]. intros j [L A]. cbn in L.
  replace (bi_nHeight j) with 0 in A by lia. cbn in A. injection A as <-. done.
Qed.

Lemma active_chain_correct_witness :
  exists v, SetTip (line_map 9) [1] (Some (line_index 6)) = Some v /\ v = [1; 2; 3; 4; 5; 6; 7] /\
    exists c, FindFork (line_map 9) v (Some (line_index 8)) = Some (Some c) /\
              last_common (line_map 9) (line_index 8) (line_index 6) c.
Proof.
  destruct (active_chain_correct (line_map 9) [1] (line_index 0) (line_index 6) (line_index 8)
              (line_map_wf 9) (line_single_root 9) (line_genesis_chain 9 ltac:(lia))
              (line_stored 9 6 ltac:(lia)) (line_stored 9 8 ltac:(lia))) as (v & S & _ & _ & F & _).
  exists v. split; [exact S|]. split; [|exact F].
  assert (E : SetTip (line_map 9) [1] (Some (line_index 6)) = Some [1; 2; 3; 4; 5; 6; 7]) by (vm_compute; reflexivity).
  rewrite E in S. injection S as <-. reflexivity.
Defined.
