(* ===== verification/Pow.v ===== *)
(** * Difficulty and proof of work

    pow.cpp.  Targets are 256-bit values (see ArithUint256). *)

From S2P Require Import Prelude Params Crypto Serialize Transaction ArithUint256 Chain.

(** The operators of [arith_uint256] on values: an [int64_t] factor converts
    to [uint32_t], a divisor to [uint64_t]. *)
Definition arith_mul32 (x b : Z) : Z := (x * u32 b) mod M256.
Definition arith_add (x y : Z) : Z := (x + y) mod M256.
Definition arith_shl (x s : Z) : Z := (x * 2 ^ s) mod M256.
Definition arith_div (x y : Z) : option Z := if y =? 0 then None else Some (x / y).
Definition compact_value (nBits : Z) : Z := fst (fst (SetCompact nBits)).

(** The proof-of-stake retarget. *)
Definition NextWork_pos (p : CChainParams) (m : BlockMap) (last : CBlockIndex) : option Z :=
  let c := consensus p in
  v2 ← IsTimeProtocolV2 c (bi_nHeight last + 1);
  let fTimeV2 := negb (IsRegTestNet p) && v2 in
  let bnTargetLimit := ProofOfStakeLimit c fTimeV2 in
  let nTargetTimespan := TargetTimespan c fTimeV2 in
  nActualSpacing ← (if negb (bi_nHeight last =? 0)
                    then prev ← parent m last; Some (bi_nTime last - bi_nTime prev) else Some 0);
  let nActualSpacing := if nActualSpacing <? 0 then 1 else nActualSpacing in
  let nActualSpacing := if fTimeV2 && (nTargetSpacing c * 10 <? nActualSpacing)
                        then nTargetSpacing c * 10 else nActualSpacing in
  let bnNew := compact_value (bi_nBits last) in
  lastV2 ← (if fTimeV2 then IsTimeProtocolV2 c (bi_nHeight last) else Some true);
  let bnNew := if negb lastV2 then arith_shl bnNew 4 else bnNew in
  let nInterval := Z.quot nTargetTimespan (nTargetSpacing c) in
  let bnNew := arith_mul32 bnNew ((nInterval - 1) * nTargetSpacing c + nActualSpacing + nActualSpacing) in
  bnNew ← arith_div bnNew (u64 ((nInterval + 1) * nTargetSpacing c));
  let bnNew := if (bnNew <=? 0) || (bnTargetLimit <? bnNew) then bnTargetLimit else bnNew in
  GetCompact bnNew false.

(** One turn of the loop over the past blocks; the state is
    [CountBlocks], [PastDifficultyAverage], [nActualTimespan], [LastBlockTime].
    [PastDifficultyAveragePrev] always equals the average. *)
Record DGWState := { CountBlocks : Z; PastDifficultyAverage : Z; nActualTimespan : Z; LastBlockTime : Z }.

Definition DGW_step (i : CBlockIndex) (s : DGWState) : option DGWState :=
  let count := CountBlocks s + 1 in
  avg ← (if count <=? 24 then
           if count =? 1 then Some (compact_value (bi_nBits i))
           else arith_div (arith_add (arith_mul32 (PastDifficultyAverage s) count) (compact_value (bi_nBits i)))
                          (u64 (count + 1))
         else Some (PastDifficultyAverage s));
  Some {| CountBlocks := count; PastDifficultyAverage := avg;
          nActualTimespan := if 0 <? LastBlockTime s then nActualTimespan s + (LastBlockTime s - bi_nTime i)
                             else nActualTimespan s;
          LastBlockTime := bi_nTime i |}.

(** [fuel] turns are left of the [PastBlocksMax] ones. *)
Fixpoint DGW_loop (fuel : nat) (m : BlockMap) (BlockReading : CBlockIndex) (s : DGWState) : option DGWState :=
  match fuel with
  | O => Some s
  | S fuel =>
      if 0 <? bi_nHeight BlockReading then
        s ← DGW_step BlockReading s;
        match parent m BlockReading with
        | None => Some s
        | Some prev => DGW_loop fuel m prev s
        end
      else Some s
  end.

Definition PastBlocksMax : nat := 24.

Definition NextWork_dgw (p : CChainParams) (m : BlockMap) (last : CBlockIndex) : option Z :=
  let c := consensus p in
  s ← DGW_loop PastBlocksMax m last
        {| CountBlocks := 0; PastDifficultyAverage := 0; nActualTimespan := 0; LastBlockTime := 0 |};
  let target := CountBlocks s * nTargetSpacing c in
  let span := nActualTimespan s in
  let span := if span <? Z.quot target 3 then Z.quot target 3 else span in
  let span := if target * 3 <? span then target * 3 else span in
  bnNew ← arith_div (arith_mul32 (PastDifficultyAverage s) span) (u64 target);
  GetCompact (if powLimit c <? bnNew then powLimit c else bnNew) false.

(** [None] is a failed assertion or a division by zero. *)
Definition GetNextWorkRequired (p : CChainParams) (m : BlockMap) (pindexLast : option CBlockIndex) : option Z :=
  let c := consensus p in
  if fPowNoRetargeting c then last ← pindexLast; Some (bi_nBits last)
  else
    match pindexLast with
    | None => GetCompact (powLimit c) false
    | Some last =>
        if (bi_nHeight last =? 0) || (bi_nHeight last <? 24) then GetCompact (powLimit c) false
        else
          pos ← NetworkUpgradeActive (bi_nHeight last + 1) c UPGRADE_POS;
          if (pos : bool) then NextWork_pos p m last else NextWork_dgw p m last
    end.

Definition CheckProofOfWork (c : ConsensusParams) (hash nBits : Z) : bool :=
  let '(bnTarget, fNegative, fOverflow) := SetCompact nBits in
  if fNegative || (bnTarget =? 0) || fOverflow || (powLimit c <? bnTarget) then false
  else negb (bnTarget <? hash).

(** [~bnTarget / (bnTarget + 1) + 1]; [None] is a division by zero. *)
Definition GetBlockProof (nBits : Z) : option Z :=
  let '(bnTarget, fNegative, fOverflow) := SetCompact nBits in
  if fNegative || fOverflow || (bnTarget =? 0) then Some 0
  else
    q ← arith_div (M256 - 1 - bnTarget) (arith_add bnTarget 1);
    Some (arith_add q 1).

(** ** Lemmas *)

Lemma compact_value_range nBits : 0 <= nBits -> 0 <= compact_value nBits < M256.
Proof.
  intros N. unfold compact_value, SetCompact.
  assert (B : 0 <= Z.land nBits 8388607 < 2 ^ 23).
  { change 8388607 with (Z.ones 23). rewrite Z.land_ones by lia. apply Z.mod_pos_bound. lia. }
  destruct (Z.leb_spec (Z.shiftr nBits 24) 3) as [L|G]; cbn [fst].
  - assert (0 <= Z.shiftr nBits 24) by (apply Z.shiftr_nonneg; lia).
    rewrite (Z.shiftr_div_pow2 (Z.land _ _)) by lia. assert (0 < 2 ^ (8 * (3 - Z.shiftr nBits 24))) by lia.
    split; [apply Z.div_pos; lia|]. apply Z.div_lt_upper_bound; [lia|]. unfold M256. nia.
  - apply Z.mod_pos_bound. done.
Qed.

Lemma arith_div_range x y q : 0 <= x < M256 -> 0 <= y -> arith_div x y = Some q -> 0 <= q < M256.
Proof.
  unfold arith_div. intros X Y. destruct (Z.eqb_spec y 0); [done|]. intros [= <-]. split; [apply Z.div_pos; lia|].
  apply Z.div_lt_upper_bound; nia.
Qed.

Lemma compact_round_pos x : 0 < x -> 0 < compact_round x.
Proof.
  intros X. destruct (compact_round_bounds x X) as [[B _] _]. destruct (nbits_range x X) as [_ N].
  assert (0 < 2 ^ (nbits x - 1)) by (apply Z.pow_pos_nonneg; lia). lia.
Qed.

(** The compact form of a target between 1 and a limit. *)
Definition good_bits (limit nBits : Z) : Prop :=
  exists t, SetCompact nBits = (t, false, false) /\ 0 < t <= limit.

Lemma GetCompact_good limit x :
  0 < x <= limit -> limit < M256 -> exists c, GetCompact x false = Some c /\ good_bits limit c.
Proof.
  intros X L. destruct (SetCompact_GetCompact x) as (c & G & _ & S); [lia|].
  exists c. split; [done|]. exists (compact_round x). split; [done|].
  destruct (compact_round_bounds x) as [B _]; [lia|]. pose proof (compact_round_pos x). lia.
Qed.

(** ** Properties *)

(** The target that follows a block with target [t] that came [spacing]
    seconds after its parent, with 60 second blocks and a 30 minute window. *)
Definition clamp_spacing (spacing : Z) : Z := if spacing <? 0 then 1 else Z.min spacing 600.
Definition next_target (limit t spacing : Z) : Z :=
  let x := t * (29 * 60 + 2 * clamp_spacing spacing) / (31 * 60) in
  if (x <=? 0) || (limit <? x) then limit else x.

Lemma next_target_range limit t spacing : 0 < limit -> 0 < next_target limit t spacing <= limit.
Proof. intros L. unfold next_target. destruct (_ || _) eqn:C; [lia|]. bool_to_prop. lia. Qed.

(** C23. Once proof of stake is active on the main network or the testnet, the
    target of the next block is defined for every block of a well-formed
    tree and is the exponential-average retarget of the last target: the
    exact quotient with the spacing clamped to ten times the ideal one,
    without wrap-around, between 1 and the stake limit, and rounded only by
    the compact form. *)
Theorem stake_retarget chain (m : BlockMap) (last : CBlockIndex)
    (p := CreateChainParams chain) (limit := posLimitV2 (consensus p)) :
  chain = MAIN \/ chain = TESTNET ->
  tree_wf m -> stored m last -> vUpgrades (consensus p) UPGRADE_POS <= bi_nHeight last + 1 ->
  0 < compact_value (bi_nBits last) <= limit ->
  exists prev bits, parent m last = Some prev /\
    let t := next_target limit (compact_value (bi_nBits last)) (bi_nTime last - bi_nTime prev) in
    GetNextWorkRequired p m (Some last) = Some bits /\
    SetCompact bits = (compact_round t, false, false) /\ 0 < compact_round t <= t /\ t <= limit.
Proof.
  intros NET W S H T.
  assert (LIM : limit = 0x00000fffffffffffffffffffffffffffffffffffffffffffffffffffffffffff)
    by (destruct NET as [-> | ->]; reflexivity).
  assert (HT : 100 <= bi_nHeight last) by (destruct NET as [-> | ->]; cbn in H; lia).
  destruct (stored_parent m W last S) as (prev & EP & _ & _); [lia|].
  set (t := next_target limit (compact_value (bi_nBits last)) (bi_nTime last - bi_nTime prev)).
  assert (TR : 0 < t <= limit) by (apply next_target_range; rewrite LIM; lia).
  assert (G : GetNextWorkRequired p m (Some last) = GetCompact t false).
  { assert (CL : (if 60 * 10 <? (if bi_nTime last - bi_nTime prev <? 0 then 1 else bi_nTime last - bi_nTime prev)
                  then 60 * 10 else (if bi_nTime last - bi_nTime prev <? 0 then 1 else bi_nTime last - bi_nTime prev))
                 = clamp_spacing (bi_nTime last - bi_nTime prev))
      by (unfold clamp_spacing; repeat case_match; bool_to_prop; lia).
    assert (CR : 0 <= clamp_spacing (bi_nTime last - bi_nTime prev) <= 600)
      by (unfold clamp_spacing; repeat case_match; bool_to_prop; lia).
    assert (ACT : NetworkUpgradeActive (bi_nHeight last + 1) (consensus p) UPGRADE_POS = Some true
                  /\ IsTimeProtocolV2 (consensus p) (bi_nHeight last + 1) = Some true
                  /\ IsTimeProtocolV2 (consensus p) (bi_nHeight last) = Some true).
    { assert (0 <= vUpgrades (consensus p) UPGRADE_POS) by (destruct NET as [-> | ->]; vm_compute; discriminate).
      assert (vUpgrades (consensus p) UPGRADE_V4_0 = 0) by (destruct NET as [-> | ->]; reflexivity).
      unfold IsTimeProtocolV2. split; [|split]; apply NetworkUpgradeActive_from; lia. }
    destruct ACT as (A1 & A2 & A3). unfold GetNextWorkRequired.
    replace (fPowNoRetargeting (consensus p)) with false by (destruct NET as [-> | ->]; reflexivity).
    rewrite (proj2 (Z.eqb_neq (bi_nHeight last) 0)), (proj2 (Z.ltb_ge (bi_nHeight last) 24)) by lia. cbn [orb].
    rewrite A1. cbn [mbind option_bind]. unfold NextWork_pos. rewrite A2, A3, EP. cbn [mbind option_bind].
    rewrite (proj2 (Z.eqb_neq (bi_nHeight last) 0)) by lia. cbn [mbind option_bind negb].
    replace (IsRegTestNet p) with false by (destruct NET as [-> | ->]; reflexivity). cbn [negb andb mbind option_bind].
    replace (nTargetSpacing (consensus p)) with 60 by (destruct NET as [-> | ->]; reflexivity).
    change (ProofOfStakeLimit (consensus p) true) with limit.
    replace (TargetTimespan (consensus p) true) with (30 * 60) by (destruct NET as [-> | ->]; reflexivity).
    rewrite CL. set (s := clamp_spacing _) in *. change (Z.quot (30 * 60) 60) with 30.
    unfold arith_div. change (u64 ((30 + 1) * 60)) with (31 * 60). rewrite (proj2 (Z.eqb_neq (31 * 60) 0)) by lia.
    cbn [mbind option_bind]. unfold arith_mul32, uint. rewrite (Z.mod_small ((30 - 1) * 60 + s + s)) by lia.
    rewrite Z.mod_small by (unfold M256; rewrite LIM in T; split; nia).
    unfold t, next_target. fold s. replace ((30 - 1) * 60 + s + s) with (29 * 60 + 2 * s) by lia. done. }
  destruct (SetCompact_GetCompact t) as (bits & GC & _ & SC); [unfold M256; rewrite LIM in TR; lia|].
  exists prev, bits. split; [done|]. cbn zeta. fold t. rewrite G. split; [done|split; [done|]].
  destruct (compact_round_bounds t) as [B _]; [lia|]. pose proof (compact_round_pos t). clearbody t. lia.
Qed.

(** [GetBlockProof] never divides by zero and, for the compact form of a
    target [t], is the expected number of hashes, the quotient of 2^256 by
    [t + 1]; a block whose bits pass [CheckProofOfWork] therefore adds at
    least one unit of work. *)
Theorem block_proof_exact (c : ConsensusParams) (hash nBits : Z) :
  0 <= nBits -> 0 <= hash -> powLimit c < M256 - 1 -> CheckProofOfWork c hash nBits = true ->
  exists t, SetCompact nBits = (t, false, false) /\ hash <= t <= powLimit c /\
    GetBlockProof nBits = Some (2 ^ 256 / (t + 1)) /\ 1 <= 2 ^ 256 / (t + 1).
Proof.
  intros N HN PL. unfold CheckProofOfWork, GetBlockProof. pose proof (compact_value_range nBits N) as R.
  unfold compact_value in R. destruct (SetCompact nBits) as [[t neg] ovf]. cbn [fst] in R.
  destruct (_ || _) eqn:C; [done|]. intros LT. bool_to_prop. subst neg ovf. exists t.
  rewrite (proj2 (Z.eqb_neq t 0)) by lia. cbn [orb]. unfold arith_div, arith_add.
  rewrite (Z.mod_small (t + 1)) by lia. rewrite (proj2 (Z.eqb_neq (t + 1) 0)) by lia. cbn [mbind option_bind].
  assert (Q : (M256 - 1 - t) / (t + 1) + 1 = 2 ^ 256 / (t + 1)).
  { fold M256. replace M256 with (M256 - 1 - t + 1 * (t + 1)) at 2 by lia. rewrite Z.div_add by lia. done. }
  assert (1 <= 2 ^ 256 / (t + 1)) by (apply Z.div_le_lower_bound; unfold M256 in *; lia).
  assert (2 ^ 256 / (t + 1) < M256) by (apply Z.div_lt_upper_bound; unfold M256 in *; lia).
  repeat split; try done; try lia. f_equal. rewrite Q. apply Z.mod_small. lia.
Qed.

Lemma block_proof_exact_witness :
  exists t, SetCompact 0x1e0ffff0 = (t, false, false) /\
    GetBlockProof 0x1e0ffff0 = Some (2 ^ 256 / (t + 1)) /\ 1 <= 2 ^ 256 / (t + 1).
Proof.
  destruct (block_proof_exact CMainParams_consensus 12345 0x1e0ffff0 ltac:(discriminate) ltac:(discriminate)
              ltac:(vm_compute; reflexivity) ltac:(vm_compute; reflexivity)) as (t & A & _ & B & C).
  exists t. split; [exact A|split; [exact B|exact C]].
Defined.

Lemma stake_retarget_witness :
  exists bits, GetNextWorkRequired (CreateChainParams TESTNET) (line_map 201) (Some (line_index 200)) = Some bits /\
    exists t, SetCompact bits = (t, false, false).
Proof.
  destruct (stake_retarget TESTNET (line_map 201) (line_index 200) (or_intror eq_refl) (line_map_wf 201)
              (line_stored 201 200 ltac:(lia)) ltac:(vm_compute; discriminate)
              ltac:(vm_compute; split; [reflexivity|discriminate])) as (prev & bits & _ & G & S & _).
  exists bits. split; [exact G|]. eexists. exact S.
Defined.
