(* ===== verification/Merkle.v ===== *)
(** * Merkle trees

    consensus/merkle.cpp: the constant-space root and branch computation, and
    the tree it computes. *)

From S2P Require Import Prelude Crypto Serialize Transaction.

(** [CHash256] over two 32-byte values. *)
Definition Hash2 `{HashFunctions} (a b : Z) : Z := Hash (le_bytes 32 a ++ le_bytes 32 b).

(** ** MerkleComputation *)

(** [count & (((uint32_t)1) << level)] *)
Definition level_bit (count : Z) (level : nat) : bool :=
  negb (Z.land count (u32 (Z.shiftl 1 (Z.of_nat level))) =? 0).

Definition inner_set (inner : nat -> Z) (level : nat) (h : Z) : nat -> Z :=
  fun k => if Nat.eqb k level then h else inner k.

(** The [pbranch] part of a combination step; [pbranch] tells whether the
    caller asked for the branch. *)
Definition branch_step (pbranch : bool) (matchlevel : Z) (level : nat) (inner : nat -> Z) (h : Z)
    (matchh : bool) (branch : list Z) : bool * list Z :=
  if pbranch then
    if matchh then (true, branch ++ [inner level])
    else if matchlevel =? Z.of_nat level then (true, branch ++ [h])
    else (false, branch)
  else (matchh, branch).

Section Computation.
Context `{HashFunctions} (pbranch : bool).

(** The loop that combines [h] with the stored subtrees while the bit of the
    level is 0: the level reached, [h], [matchh], [mutated] and the branch.
    An [uint32_t] has no more than 32 levels. *)
Fixpoint combine (fuel : nat) (count matchlevel : Z) (inner : nat -> Z) (level : nat) (h : Z)
    (matchh mutated : bool) (branch : list Z) : option (nat * Z * bool * bool * list Z) :=
  match fuel with
  | O => None
  | S fuel =>
      if level_bit count level then Some (level, h, matchh, mutated, branch)
      else
        let '(matchh, branch) := branch_step pbranch matchlevel level inner h matchh branch in
        combine fuel count matchlevel inner (S level) (Hash2 (inner level) h) matchh
                (mutated || (inner level =? h)) branch
  end.

(** The first loop, over the leaves that are left. *)
Fixpoint process_leaves (branchpos : Z) (leaves : list Z) (count : Z) (inner : nat -> Z) (matchlevel : Z)
    (mutated : bool) (branch : list Z) : option (Z * (nat -> Z) * Z * bool * list Z) :=
  match leaves with
  | [] => Some (count, inner, matchlevel, mutated, branch)
  | leaf :: leaves =>
      let matchh := count =? branchpos in
      let count := u32 (count + 1) in
      '(level, h, matchh, mutated, branch) ← combine 32 count matchlevel inner 0 leaf matchh mutated branch;
      process_leaves branchpos leaves count (inner_set inner level h)
        (if matchh : bool then Z.of_nat level else matchlevel) mutated branch
  end.

(** [while (!(count & (1 << level))) level++] *)
Fixpoint skip_levels (fuel : nat) (count : Z) (level : nat) : option nat :=
  match fuel with
  | O => None
  | S fuel => if level_bit count level then Some level else skip_levels fuel count (S level)
  end.

(** The final sweep; its combinations do not look for mutations. *)
Fixpoint sweep (fuel : nat) (count matchlevel : Z) (inner : nat -> Z) (level : nat) (h : Z)
    (matchh : bool) (branch : list Z) : option (Z * list Z) :=
  match fuel with
  | O => None
  | S fuel =>
      if count =? u32 (Z.shiftl 1 (Z.of_nat level)) then Some (h, branch)
      else
        let branch := if pbranch && matchh then branch ++ [h] else branch in
        let count' := u32 (count + u32 (Z.shiftl 1 (Z.of_nat level))) in
        '(level', h, matchh, _, branch) ←
          combine 32 count' matchlevel inner (S level) (Hash2 h h) matchh false branch;
        sweep fuel count' matchlevel inner level' h matchh branch
  end.

(** Root, [mutated] and branch; [None] is a loop that does not end. *)
Definition MerkleComputation (leaves : list Z) (branchpos : Z) : option (Z * bool * list Z) :=
  match leaves with
  | [] => Some (0, false, [])
  | _ =>
      '(count, inner, matchlevel, mutated, branch) ←
        process_leaves branchpos leaves 0 (fun _ => 0) (-1) false [];
      level ← skip_levels 32 count 0;
      '(h, branch) ← sweep 33 count matchlevel inner level (inner level) (matchlevel =? Z.of_nat level) branch;
      Some (h, mutated, branch)
  end.

End Computation.

Section Roots.
Context `{HashFunctions}.

Definition ComputeMerkleRoot (leaves : list Z) : option (Z * bool) :=
  '(root, mutated, _) ← MerkleComputation false leaves (u32 (-1)); Some (root, mutated).

Definition ComputeMerkleBranch (leaves : list Z) (position : Z) : option (list Z) :=
  '(_, _, branch) ← MerkleComputation true leaves position; Some branch.

Fixpoint ComputeMerkleRootFromBranch (leaf : Z) (vMerkleBranch : list Z) (nIndex : Z) : Z :=
  match vMerkleBranch with
  | [] => leaf
  | it :: vMerkleBranch =>
      ComputeMerkleRootFromBranch (if Z.odd nIndex then Hash2 it leaf else Hash2 leaf it)
        vMerkleBranch (Z.shiftr nIndex 1)
  end.

Definition BlockMerkleRoot (block : CBlock) : option (Z * bool) := ComputeMerkleRoot (GetHash <$> vtx block).
Definition BlockMerkleBranch (block : CBlock) (position : Z) : option (list Z) :=
  ComputeMerkleBranch (GetHash <$> vtx block) position.

End Roots.

(** ** The tree

    [tnode k i] is node [i] of level [k] of the tree over [n] leaves: a node
    whose right child does not exist hashes its left child twice. *)

Section Tree.
Context `{HashFunctions} (leaves : list Z).

Definition leaf_count : Z := size leaves.

Fixpoint tnode (k : nat) (i : Z) : Z :=
  match k with
  | O => nth (Z.to_nat i) leaves 0
  | S k =>
      let l := tnode k (2 * i) in
      Hash2 l (if (2 * i + 1) * 2 ^ Z.of_nat k <? leaf_count then tnode k (2 * i + 1) else l)
  end.

(** The number of levels above the leaves. *)
Definition tree_height : nat := Z.to_nat (Z.log2_up leaf_count).

Definition merkle_root : Z := tnode tree_height 0.

(** Two equal siblings, both over a full set of leaves. *)
Definition equal_siblings : Prop :=
  exists k i, 0 <= i /\ (2 * i + 2) * 2 ^ Z.of_nat k <= leaf_count /\ tnode k (2 * i) = tnode k (2 * i + 1).

(** The sibling of node [i] of level [k], and the path of a leaf. *)
Definition sibling (k : nat) (i : Z) : Z :=
  if Z.odd i then tnode k (i - 1)
  else if (i + 1) * 2 ^ Z.of_nat k <? leaf_count then tnode k (i + 1) else tnode k i.

Definition path (pos : Z) (k : nat) : list Z :=
  (fun j => sibling j (pos / 2 ^ Z.of_nat j)) <$> seq 0 k.

End Tree.

(** ** Correctness of the computation *)

Section Correct.
Context `{HashFunctions} (leaves : list Z) (pos : Z).

Abbreviation n := (leaf_count leaves).
Abbreviation node := (tnode leaves).
Abbreviation pow k := (2 ^ Z.of_nat k).

Lemma pow_pos k : 0 < pow k.
Proof. lia. Qed.

Lemma pow_S k : pow (S k) = 2 * pow k.
Proof. rewrite Nat2Z.inj_succ, Z.pow_succ_r by lia. done. Qed.

Lemma level_bit_odd q level :
  (level < 32)%nat -> level_bit (q * pow level) level = Z.odd q.
Proof.
  intros L. unfold level_bit, uint. rewrite Z.shiftl_1_l.
  rewrite (Z.mod_small (2 ^ Z.of_nat level)) by (split; [lia|apply Z.pow_lt_mono_r; lia]).
  assert (OD : Z.odd q = Z.testbit (q * pow level) (Z.of_nat level))
    by (by rewrite Z.mul_pow2_bits, Z.sub_diag, Z.bit0_odd by lia).
  rewrite OD. set (x := q * pow level). destruct (Z.testbit x (Z.of_nat level)) eqn:B.
  - apply negb_true_iff, Z.eqb_neq. intros E.
    assert (T : Z.testbit (Z.land x (pow level)) (Z.of_nat level) = true)
      by (rewrite Z.land_spec, B, Z.pow2_bits_true by lia; done).
    rewrite E, Z.bits_0 in T. done.
  - apply negb_false_iff, Z.eqb_eq, Z.bits_inj'. intros i I.
    rewrite Z.land_spec, Z.bits_0. destruct (decide (i = Z.of_nat level)) as [->|]; [by rewrite B|].
    rewrite Z.pow2_bits_false by lia. apply andb_false_r.
Qed.

(** [inner[k]] is the last full subtree of level [k] where bit [k] is set. *)
Definition inner_ok (c : Z) (inner : nat -> Z) : Prop :=
  forall k, Z.odd (c / pow k) = true -> inner k = node k (c / pow k - 1).

(** The subtree in [h] contains the leaf, or it is still to be met. *)
Definition matched (level : nat) (q : Z) (branch : list Z) : Prop :=
  pos / pow level = q - 1 /\ branch = path leaves pos level.

Definition pending (c : Z) (level : nat) (matchlevel : Z) (branch : list Z) : Prop :=
  (c < pos /\ matchlevel = -1 /\ branch = []) \/
  (exists m, (level <= m)%nat /\ matchlevel = Z.of_nat m /\ Z.odd (c / pow m) = true /\
    c / pow m - 1 = pos / pow m /\ branch = path leaves pos m).

Definition bstate (c : Z) (level : nat) (q matchlevel : Z) (matchh : bool) (branch : list Z) : Prop :=
  if matchh then matched level q branch else pending c level matchlevel branch.

Lemma path_S k : path leaves pos (S k) = path leaves pos k ++ [sibling leaves k (pos / pow k)].
Proof. unfold path. by rewrite seq_S, fmap_app. Qed.

Lemma div_pow_S x k : x / pow (S k) = x / pow k / 2.
Proof. rewrite pow_S, Z.mul_comm, <- Z.div_div by lia. done. Qed.

Lemma odd_even_half q : Z.odd q = false -> q = 2 * (q / 2).
Proof. intros E. pose proof (Z.div_mod q 2). rewrite Zmod_odd, E in *. lia. Qed.

(** The node above a pair. *)
Lemma node_pair level q :
  Z.odd q = false -> 2 <= q -> (q - 1) * pow level < n ->
  Hash2 (node level (q - 2)) (node level (q - 1)) = node (S level) (q / 2 - 1).
Proof.
  intros E Q L. pose proof (odd_even_half q E) as EQ. cbn [tnode].
  replace (2 * (q / 2 - 1) + 1) with (q - 1) by lia. replace (2 * (q / 2 - 1)) with (q - 2) by lia.
  by rewrite (proj2 (Z.ltb_lt _ _)).
Qed.

(** The node above a lonely left child. *)
Lemma node_single level q :
  Z.odd q = true -> n <= q * pow level ->
  Hash2 (node level (q - 1)) (node level (q - 1)) = node (S level) ((q + 1) / 2 - 1).
Proof.
  intros E L. assert (EQ : q + 1 = 2 * ((q + 1) / 2)).
  { apply odd_even_half. rewrite Z.add_1_r, Z.odd_succ, <- Z.negb_odd, E. done. }
  cbn [tnode]. replace (2 * ((q + 1) / 2 - 1) + 1) with q by lia.
  replace (2 * ((q + 1) / 2 - 1)) with (q - 1) by lia. by rewrite (proj2 (Z.ltb_ge _ _)).
Qed.

Lemma inner_at c inner level q :
  inner_ok c inner -> Z.odd q = false -> (q - 1) * pow level <= c < q * pow level ->
  inner level = node level (q - 2).
Proof.
  intros I E B. assert (D : c / pow level = q - 1).
  { symmetry. apply (Z.div_unique c (pow level) (q - 1) (c - (q - 1) * pow level)); lia. }
  rewrite I; rewrite D; [f_equal; lia|]. by rewrite Z.sub_1_r, Z.odd_pred, <- Z.negb_odd, E.
Qed.

Lemma div_range c level q : (q - 1) * pow level <= c < q * pow level -> c / pow level = q - 1.
Proof. intros B. symmetry. apply (Z.div_unique c (pow level) (q - 1) (c - (q - 1) * pow level)); lia. Qed.

Lemma branch_step_ok c inner level q matchlevel h matchh branch :
  inner_ok c inner -> Z.odd q = false -> 2 <= q -> h = node level (q - 1) ->
  (q - 1) * pow level <= c < q * pow level -> (q - 1) * pow level < n ->
  bstate c level q matchlevel matchh branch ->
  let '(matchh', branch') := branch_step true matchlevel level inner h matchh branch in
  bstate c (S level) (q / 2) matchlevel matchh' branch'.
Proof.
  intros I E Q -> B N S. pose proof (odd_even_half q E) as EQ.
  pose proof (inner_at c inner level q I E B) as IN. pose proof (div_range c level q B) as DC.
  assert (OQ : Z.odd (q - 1) = true) by (by rewrite Z.sub_1_r, Z.odd_pred, <- Z.negb_odd, E).
  unfold branch_step. destruct matchh; cbn [bstate] in *.
  - destruct S as [P ->]. split; [rewrite div_pow_S, P; Z.div_mod_to_equations; lia|].
    rewrite path_S. f_equal. unfold sibling. rewrite P, OQ, IN. by replace (q - 1 - 1) with (q - 2) by lia.
  - destruct S as [(C & -> & ->)|(m & M & -> & O & P & ->)].
    + rewrite (proj2 (Z.eqb_neq _ _)) by lia. left. done.
    + destruct (decide (m = level)) as [->|NE].
      * rewrite Z.eqb_refl. cbn [bstate]. assert (P' : pos / pow level = q - 2) by lia.
        split; [rewrite div_pow_S, P'; Z.div_mod_to_equations; lia|].
        rewrite path_S. f_equal. unfold sibling. rewrite P'.
        replace (Z.odd (q - 2)) with false
          by (replace (q - 2) with (q - 1 - 1) by lia; rewrite (Z.sub_1_r (q - 1)), Z.odd_pred, <- Z.negb_odd, OQ; done).
        replace (q - 2 + 1) with (q - 1) by lia. by rewrite (proj2 (Z.ltb_lt _ _)).
      * rewrite (proj2 (Z.eqb_neq _ _)) by lia. right. exists m. repeat split; try done. lia.
Qed.

(** New equal pairs are found where they are completed. *)
Definition completes (count : Z) (level : nat) : Prop :=
  exists k i, (level <= k)%nat /\ 0 <= i /\ (2 * i + 2) * pow k = count /\ node k (2 * i) = node k (2 * i + 1).

Lemma completes_odd q level : Z.odd q = true -> ~ completes (q * pow level) level.
Proof.
  intros O (k & i & K & I & E & _).
  replace (Z.of_nat k) with (Z.of_nat (k - level) + Z.of_nat level) in E by lia.
  rewrite Z.pow_add_r in E by lia.
  assert (q = 2 * ((i + 1) * 2 ^ Z.of_nat (k - level))) as ->.
  { apply (Z.mul_reg_r _ _ (pow level)); [lia|]. rewrite <- E. ring. }
  by rewrite Z.odd_mul in O.
Qed.

Lemma completes_even q level :
  Z.odd q = false -> 2 <= q ->
  completes (q * pow level) level <->
  node level (q - 2) = node level (q - 1) \/ completes (q / 2 * pow (S level)) (S level).
Proof.
  intros E Q. pose proof (odd_even_half q E) as EQ.
  assert (CE : q / 2 * pow (S level) = q * pow level) by (rewrite pow_S; nia). rewrite CE. split.
  - intros (k & i & K & I & C & N). destruct (decide (k = level)) as [->|].
    + left. assert (2 * i + 2 = q) by (apply (Z.mul_reg_r _ _ (pow level)); lia).
      by replace (q - 2) with (2 * i) by lia; replace (q - 1) with (2 * i + 1) by lia.
    + right. exists k, i. repeat split; try done. lia.
  - intros [N|(k & i & K & I & C & N)].
    + exists level, (q / 2 - 1). repeat split; try lia.
      by replace (2 * (q / 2 - 1)) with (q - 2) by lia; replace (q - 2 + 1) with (q - 1) by lia.
    + exists k, i. repeat split; try done. lia.
Qed.

Lemma combine_ok pb c inner matchlevel fuel : forall level q h matchh mutated branch,
  inner_ok c inner -> 1 <= q -> q * pow level < 2 ^ 32 -> (32 <= fuel + level)%nat ->
  h = node level (q - 1) -> (q - 1) * pow level <= c < q * pow level -> (q - 1) * pow level < n ->
  (pb = true -> bstate c level q matchlevel matchh branch) ->
  exists level' q' matchh' mutated' branch',
    combine pb fuel (q * pow level) matchlevel inner level h matchh mutated branch =
      Some (level', node level' (q' - 1), matchh', mutated', branch') /\
    q * pow level = q' * pow level' /\ Z.odd q' = true /\ 1 <= q' /\ (level <= level')%nat /\
    (q' - 1) * pow level' <= c < q' * pow level' /\ (q' - 1) * pow level' < n /\
    (pb = true -> bstate c level' q' matchlevel matchh' branch') /\
    (mutated' = true <-> mutated = true \/ completes (q * pow level) level) /\
    (level' = level \/ exists l, level' = S l /\ pow l < n).
Proof.
  induction fuel as [|fuel IH]; intros level q h matchh mutated branch I Q C F -> B N BS.
  { exfalso. assert (pow 32 <= pow level) by (apply Z.pow_le_mono_r; lia). change (pow 32) with (2 ^ 32) in *. nia. }
  assert (L : (level < 32)%nat).
  { destruct (decide (level < 32)%nat); [done|]. exfalso.
    assert (pow 32 <= pow level) by (apply Z.pow_le_mono_r; lia). change (pow 32) with (2 ^ 32) in *. nia. }
  cbn [combine]. rewrite level_bit_odd by done. destruct (Z.odd q) eqn:O.
  - exists level, q, matchh, mutated, branch. repeat split; try done; try lia; try (by left).
    intros [?|X]; [done|]. by apply completes_odd in X.
  - assert (2 <= q) by (destruct (decide (q = 1)) as [->|]; [done|lia]).
    pose proof (odd_even_half q O) as EQ.
    pose proof (branch_step_ok c inner level q matchlevel _ matchh branch I O ltac:(done) eq_refl B N) as BS'.
    rewrite (inner_at c inner level q I O B), node_pair by done.
    assert (CE : q * pow level = q / 2 * pow (S level)) by (rewrite pow_S; nia). rewrite CE.
    destruct (branch_step pb matchlevel level inner (node level (q - 1)) matchh branch) as [mh br] eqn:EB.
    destruct (IH (S level) (q / 2) (node (S level) (q / 2 - 1)) mh
                (mutated || (node level (q - 2) =? node level (q - 1))) br) as
      (l' & q' & mh' & mu' & br' & R & E1 & O' & Q' & L' & B' & N' & BS2 & M & HT); try done; try lia.
    + rewrite pow_S. nia.
    + rewrite pow_S. nia.
    + intros ->. rewrite EB in BS'. by apply BS', BS.
    + exists l', q', mh', mu', br'. repeat split; try done; try lia.
      * intros X%M. rewrite <- CE, completes_even by done. rewrite orb_true_iff, Z.eqb_eq in X. tauto.
      * rewrite <- CE, completes_even by done. intros X. apply M. rewrite orb_true_iff, Z.eqb_eq. tauto.
      * right. destruct HT as [-> | X]; [|done]. exists level. split; [done|nia].
Qed.

Lemma pow_split k l : (l <= k)%nat -> pow k = 2 ^ Z.of_nat (k - l) * pow l.
Proof. intros L. rewrite <- Z.pow_add_r by lia. f_equal. lia. Qed.

Lemma div_above c q l k :
  c + 1 = q * pow l -> Z.odd q = true -> (l < k)%nat -> (c + 1) / pow k = c / pow k.
Proof.
  intros E O L.
  assert (PK : pow k = pow l * (2 * pow (k - S l))).
  { rewrite (pow_split k l) by lia. rewrite <- pow_S. replace (S (k - S l)) with (k - l)%nat by lia. ring. }
  rewrite PK.
  rewrite <- !Z.div_div by lia.
  assert (C : c / pow l = q - 1) by (apply div_range; lia).
  rewrite C, E, Z.div_mul by lia. f_equal.
  apply Z.odd_spec in O as [r ->]. Z.div_mod_to_equations. lia.
Qed.

Lemma odd_below q l k : (k < l)%nat -> Z.odd (q * pow l / pow k) = false.
Proof.
  intros L. rewrite (pow_split l k) by lia. rewrite Z.mul_assoc, Z.div_mul by lia.
  replace (l - k)%nat with (S (l - k - 1)) by lia. rewrite pow_S, Z.odd_mul, Z.odd_mul. cbn. apply andb_false_r.
Qed.

Lemma inner_ok_set c inner q l :
  inner_ok c inner -> c + 1 = q * pow l -> Z.odd q = true ->
  inner_ok (c + 1) (inner_set inner l (node l (q - 1))).
Proof.
  intros I E O k OK. unfold inner_set. destruct (Nat.eqb_spec k l) as [->|NE].
  - rewrite E, Z.div_mul by lia. done.
  - destruct (decide (k < l)%nat).
    + rewrite E, odd_below in OK by done. done.
    + rewrite (div_above c q l k) in * by (done || lia). by apply I.
Qed.

Definition leaf_state (c matchlevel : Z) (branch : list Z) : Prop :=
  (c <= pos /\ matchlevel = -1 /\ branch = []) \/
  (exists m, matchlevel = Z.of_nat m /\ Z.odd (c / pow m) = true /\
    c / pow m - 1 = pos / pow m /\ branch = path leaves pos m).

Lemma leaf_state_enter c matchlevel branch :
  0 <= c -> leaf_state c matchlevel branch ->
  bstate c 0 (c + 1) matchlevel (c =? pos) branch.
Proof.
  intros C S. destruct (Z.eqb_spec c pos) as [->|NE]; cbn [bstate].
  - destruct S as [(_ & -> & ->)|(m & -> & O & P & ->)].
    + split; [|done]. rewrite Z.div_1_r. lia.
    + exfalso. lia.
  - destruct S as [(L & -> & ->)|(m & -> & O & P & ->)]; [left; split; [lia|done]|right].
    exists m. repeat split; try done. lia.
Qed.

Lemma leaf_state_leave c q l matchlevel matchh branch :
  c + 1 = q * pow l -> Z.odd q = true -> bstate c l q matchlevel matchh branch ->
  leaf_state (c + 1) (if matchh then Z.of_nat l else matchlevel) branch.
Proof.
  intros E O S. destruct matchh; cbn [bstate] in S.
  - destruct S as [P ->]. right. exists l. rewrite E, Z.div_mul by lia. done.
  - destruct S as [(L & -> & ->)|(m & M & -> & OM & P & ->)]; [left; split; [lia|done]|right].
    assert (m <> l).
    { intros ->. rewrite (div_range c l q), Z.sub_1_r, Z.odd_pred, <- Z.negb_odd, O in OM by lia. done. }
    exists m. by rewrite (div_above c q l m) by (done || lia).
Qed.

Definition equal_siblings_upto (c : Z) : Prop :=
  exists k i, 0 <= i /\ (2 * i + 2) * pow k <= c /\ node k (2 * i) = node k (2 * i + 1).

Lemma equal_siblings_step c : equal_siblings_upto (c + 1) <-> equal_siblings_upto c \/ completes (c + 1) 0.
Proof.
  split.
  - intros (k & i & I & L & E). destruct (decide ((2 * i + 2) * pow k = c + 1)).
    + right. exists k, i. repeat split; try done. lia.
    + left. exists k, i. repeat split; try done. lia.
  - intros [(k & i & I & L & E)|(k & i & _ & I & L & E)]; exists k, i; repeat split; try done; lia.
Qed.

Lemma process_leaves_ok pb rest : forall before c inner matchlevel mutated branch,
  leaves = before ++ rest -> c = size before -> n <= 2 ^ 31 ->
  inner_ok c inner -> (pb = true -> leaf_state c matchlevel branch) ->
  (mutated = true <-> equal_siblings_upto c) ->
  exists inner' matchlevel' mutated' branch',
    process_leaves pb pos rest c inner matchlevel mutated branch =
      Some (n, inner', matchlevel', mutated', branch') /\
    inner_ok n inner' /\ (pb = true -> leaf_state n matchlevel' branch') /\
    (mutated' = true <-> equal_siblings_upto n).
Proof.
  induction rest as [|leaf rest IH]; intros before c inner matchlevel mutated branch LV -> N I LS M.
  { exists inner, matchlevel, mutated, branch. unfold leaf_count. rewrite LV, app_nil_r. done. }
  cbn [process_leaves]. set (c := size before) in *.
  assert (NC : c < n) by (unfold leaf_count, c; rewrite LV, size_app, size_cons; pose proof (size_nonneg rest); lia).
  assert (C0 : 0 <= c) by apply size_nonneg.
  unfold uint. rewrite Z.mod_small by lia.
  assert (LEAF : leaf = node 0 (c + 1 - 1)).
  { cbn [tnode]. unfold c. rewrite LV, Z.add_simpl_r, to_nat_size, app_nth2, Nat.sub_diag by lia. done. }
  destruct (combine_ok pb c inner matchlevel 32 0 (c + 1) leaf (c =? pos) mutated branch) as
    (l & q & mh & mu & br & R & E & O & Q & _ & B & N' & BS & MU & _); try done; try lia.
  { intros P. by apply leaf_state_enter, LS. }
  rewrite Z.mul_1_r in R, E, MU. rewrite R. cbn [mbind option_bind].
  destruct (IH (before ++ [leaf]) (c + 1) (inner_set inner l (node l (q - 1)))
              (if mh then Z.of_nat l else matchlevel) mu br) as (i' & ml' & mu' & br' & R' & HI & HL & HM); try done.
  - by rewrite <- app_assoc.
  - unfold c. rewrite size_app. done.
  - by apply inner_ok_set.
  - intros P. eapply leaf_state_leave; [done|done|by apply BS].
  - rewrite MU, equal_siblings_step, M. done.
  - rewrite R'. exists i', ml', mu', br'. done.
Qed.

(** What holds of a level whose last node is in [h]. *)
Definition last_node (level : nat) (q : Z) : Prop :=
  1 <= q /\ Z.odd q = true /\ (q - 1) * pow level < n <= q * pow level /\ q * pow level <= 2 ^ 31 /\
  (level <= tree_height leaves)%nat.

Lemma level_small level q : last_node level q -> (level < 32)%nat.
Proof.
  intros (Q & _ & _ & L & _). destruct (decide (level < 32)%nat); [done|]. exfalso.
  assert (pow 32 <= pow level) by (apply Z.pow_le_mono_r; lia). change (pow 32) with (2 ^ 32) in *. nia.
Qed.

Lemma height_above level : pow level < n -> (S level <= tree_height leaves)%nat.
Proof.
  intros L. unfold tree_height. apply Nat2Z.inj_le. rewrite Z2Nat.id by apply Z.log2_up_nonneg.
  pose proof (Z.log2_up_le_pow2 n (Z.of_nat level) ltac:(lia)) as X. lia.
Qed.

Lemma height_top level : 0 < n -> n <= pow level -> (tree_height leaves <= level)%nat.
Proof.
  intros P L. unfold tree_height. apply Nat2Z.inj_le. rewrite Z2Nat.id by apply Z.log2_up_nonneg.
  by apply Z.log2_up_le_pow2.
Qed.

Lemma last_node_up level q :
  last_node level q -> q <> 1 ->
  let q1 := (q + 1) / 2 in
  (q + 1) * pow level = q1 * pow (S level) /\ 1 <= q1 /\ q1 * pow (S level) <= 2 ^ 31 /\
  (q1 - 1) * pow (S level) < n < q1 * pow (S level) /\ (q - 1) / 2 = q1 - 1.
Proof.
  intros LN NE q1. pose proof (level_small level q LN) as SM. destruct LN as (Q & O & [N1 N2] & L & _).
  apply Z.odd_spec in O as [r ->]. unfold q1. replace (2 * r + 1 + 1) with ((r + 1) * 2) by lia.
  rewrite Z.div_mul by lia. replace (2 * r + 1 - 1) with (r * 2) by lia. rewrite Z.div_mul by lia.
  rewrite pow_S. assert (P31 : 2 ^ 31 = 2 ^ Z.of_nat (31 - level) * pow level)
    by (rewrite <- Z.pow_add_r by lia; f_equal; lia).
  assert ((2 * r + 1) <= 2 ^ Z.of_nat (31 - level)) by nia.
  assert (2 * r + 2 <= 2 ^ Z.of_nat (31 - level)).
  { destruct (31 - level)%nat as [|d]; [lia|]. rewrite pow_S in *. lia. }
  repeat split; try lia; nia.
Qed.

Definition sweep_state (level : nat) (q matchlevel : Z) (matchh : bool) (branch : list Z) : Prop :=
  if matchh then matched level q branch else pending n (S level) matchlevel branch.

Lemma sweep_state_dup level q matchlevel matchh branch :
  last_node level q -> q <> 1 -> sweep_state level q matchlevel matchh branch ->
  bstate n (S level) ((q + 1) / 2) matchlevel matchh
    (if matchh then branch ++ [node level (q - 1)] else branch).
Proof.
  intros LN NE S. destruct (last_node_up level q LN NE) as (_ & _ & _ & _ & D).
  destruct matchh; cbn [bstate sweep_state] in *; [|done]. destruct S as [P ->].
  destruct LN as (_ & O & [_ N2] & _). split; [by rewrite div_pow_S, P|].
  rewrite path_S, P. unfold sibling. rewrite Z.sub_1_r, Z.odd_pred, <- Z.negb_odd, O. cbn [negb].
  rewrite <- Z.sub_1_r, Z.sub_add, (proj2 (Z.ltb_ge _ _)) by lia. done.
Qed.

Lemma sweep_state_combined level q matchlevel matchh branch :
  Z.odd q = true -> (q - 1) * pow level <= n < q * pow level ->
  bstate n level q matchlevel matchh branch -> sweep_state level q matchlevel matchh branch.
Proof.
  intros O B S. destruct matchh; [done|].
  destruct S as [S|(m & M & -> & OM & P & ->)]; [by left|right].
  assert (m <> level).
  { intros ->. rewrite (div_range n level q), Z.sub_1_r, Z.odd_pred, <- Z.negb_odd, O in OM by lia. done. }
  exists m. repeat split; try done. lia.
Qed.

Lemma sweep_state_top level matchlevel matchh branch :
  pos < n -> 0 < n <= pow level -> sweep_state level 1 matchlevel matchh branch -> branch = path leaves pos level.
Proof.
  intros P N S. destruct matchh; [by destruct S as [_ ->]|].
  destruct S as [(L & _)|(m & M & _ & O & _)]; [lia|].
  assert (pow (S level) <= pow m) by (apply Z.pow_le_mono_r; lia). rewrite pow_S in *.
  rewrite Z.div_small in O by lia. done.
Qed.

Lemma sweep_ok pb inner matchlevel fuel : forall level q matchh branch,
  inner_ok n inner -> last_node level q -> (33 <= fuel + level)%nat ->
  (pb = true -> sweep_state level q matchlevel matchh branch) ->
  exists branch', sweep pb fuel (q * pow level) matchlevel inner level (node level (q - 1)) matchh branch =
    Some (merkle_root leaves, branch') /\
    (pb = true -> pos < n -> branch' = path leaves pos (tree_height leaves)).
Proof.
  induction fuel as [|fuel IH]; intros level q matchh branch I LN F BS;
    pose proof (level_small level q LN) as SM; [lia|].
  cbn [sweep]. rewrite Z.shiftl_1_l.
  assert (W : u32 (pow level) = pow level)
    by (apply Z.mod_small; split; [lia|apply Z.pow_lt_mono_r; lia]).
  rewrite !W.
  destruct (Z.eqb_spec (q * pow level) (pow level)) as [E|NE].
  - assert (q = 1) as -> by nia. destruct LN as (_ & _ & N1 & _ & H1).
    assert (level = tree_height leaves) as -> by (pose proof (height_top level); lia).
    exists branch. split; [done|]. intros P PN. eapply sweep_state_top; [done| |by apply BS]. lia.
  - assert (NE1 : q <> 1) by (intros ->; lia).
    destruct (last_node_up level q LN NE1) as (E1 & Q1 & L1 & B1 & _).
    assert (W2 : u32 (q * pow level + pow level) = (q + 1) / 2 * pow (S level)).
    { rewrite <- E1. unfold uint. rewrite Z.mod_small; lia. }
    rewrite W2. destruct LN as (Q & O & [N1 N2] & L & HT). rewrite node_single by done.
    destruct (combine_ok pb n inner matchlevel 32 (S level) ((q + 1) / 2) (node (S level) ((q + 1) / 2 - 1)) matchh false
                (if pb && matchh then branch ++ [node level (q - 1)] else branch)) as
      (l & q' & mh & mu & br & R & E' & O' & Q' & L' & B' & N' & BS' & _ & HT'); try done; try lia.
    { intros ->. apply sweep_state_dup; [|done|by apply BS]. by repeat split. }
    rewrite R. cbn [mbind option_bind]. rewrite E'. apply IH; [done| |lia|].
    + repeat split; try done; try lia.
      destruct HT' as [-> | (l0 & -> & X)]; apply height_above; [nia|done].
    + intros P. apply sweep_state_combined; [done|lia|by apply BS'].
Qed.

Lemma skip_levels_ok fuel : forall level q,
  1 <= q -> q * pow level < 2 ^ 32 -> (32 <= fuel + level)%nat ->
  exists l q', skip_levels fuel (q * pow level) level = Some l /\ q * pow level = q' * pow l /\
    Z.odd q' = true /\ 1 <= q'.
Proof.
  induction fuel as [|fuel IH]; intros level q Q C F.
  { exfalso. assert (pow 32 <= pow level) by (apply Z.pow_le_mono_r; lia). change (pow 32) with (2 ^ 32) in *. nia. }
  assert (L : (level < 32)%nat).
  { destruct (decide (level < 32)%nat); [done|]. exfalso.
    assert (pow 32 <= pow level) by (apply Z.pow_le_mono_r; lia). change (pow 32) with (2 ^ 32) in *. nia. }
  cbn [skip_levels]. rewrite level_bit_odd by done. destruct (Z.odd q) eqn:O; [by exists level, q|].
  pose proof (odd_even_half q O) as EQ.
  assert (CE : q * pow level = q / 2 * pow (S level)) by (rewrite pow_S; nia). rewrite CE.
  apply IH; lia.
Qed.

Lemma sweep_state_start q l matchlevel branch :
  n = q * pow l -> Z.odd q = true -> pos < n -> leaf_state n matchlevel branch ->
  sweep_state l q matchlevel (matchlevel =? Z.of_nat l) branch.
Proof.
  intros E O P [(L & _)|(m & -> & OM & PM & ->)]; [lia|].
  destruct (Z.eqb_spec (Z.of_nat m) (Z.of_nat l)) as [EQ|NE]; cbn [sweep_state].
  - apply Nat2Z.inj in EQ as ->. split; [|done]. rewrite <- PM, E, Z.div_mul by lia. done.
  - right. exists m. repeat split; try done. destruct (decide (m < l)%nat); [|lia].
    rewrite E, odd_below in OM by done. done.
Qed.

Lemma MerkleComputation_ok pb :
  0 < n <= 2 ^ 31 -> (pb = true -> pos < n) -> 0 <= pos ->
  exists mutated branch,
    MerkleComputation pb leaves pos = Some (merkle_root leaves, mutated, branch) /\
    (mutated = true <-> equal_siblings leaves) /\
    (pb = true -> branch = path leaves pos (tree_height leaves)).
Proof.
  intros N PB P0.
  destruct (process_leaves_ok pb leaves [] 0 (fun _ => 0) (-1) false []) as
    (inner & ml & mu & br & R & I & LS & M); try done; try lia.
  { intros _. left. done. }
  { split; [done|]. intros (k & i & I0 & L & _). pose proof (pow_pos k). nia. }
  destruct (skip_levels_ok 32 0 n) as (l & q & S & E & O & Q); [lia|lia|lia|].
  rewrite Z.mul_1_r in S, E.
  assert (LN : last_node l q).
  { repeat split; try done; try lia. unfold tree_height. apply Nat2Z.inj_le.
    rewrite Z2Nat.id by apply Z.log2_up_nonneg. rewrite <- (Z.log2_up_pow2 (Z.of_nat l)) by lia.
    apply Z.log2_up_le_mono. nia. }
  destruct (sweep_ok pb inner ml 33 l q (ml =? Z.of_nat l) br I LN) as (br' & SW & B); [lia| |].
  { intros PT. apply sweep_state_start; [done|done|by apply PB|by apply LS]. }
  exists mu, br'. split; [|split; [done|]]; [|intros PT; by apply B, PB].
  assert (NE : leaves <> []).
  { intros EQ. unfold leaf_count in N. rewrite EQ in N. change (size (@nil Z)) with 0 in N. lia. }
  unfold MerkleComputation. rewrite R. cbn [mbind option_bind]. rewrite S. cbn [mbind option_bind].
  rewrite (I l); rewrite E, Z.div_mul by lia; [|done]. rewrite SW. clear -NE. by destruct leaves.
Qed.

(** *** Verifying a branch *)

Lemma branch_up k i d :
  0 <= i -> i * pow k < n ->
  ComputeMerkleRootFromBranch (node k i) ((fun j => sibling leaves j (i / 2 ^ Z.of_nat (j - k))) <$> seq k d) i =
  node (k + d) (i / pow d).
Proof.
  revert k i. induction d as [|d IH]; intros k i I N.
  { cbn. rewrite Nat.add_0_r, Z.div_1_r. done. }
  cbn [seq fmap list_fmap ComputeMerkleRootFromBranch]. rewrite Nat.sub_diag, Z.div_1_r, Z.shiftr_div_pow2 by lia.
  change (2 ^ 1) with 2.
  assert (UP : (if Z.odd i then Hash2 (sibling leaves k i) (node k i) else Hash2 (node k i) (sibling leaves k i)) =
               node (S k) (i / 2)).
  { unfold sibling. cbn [tnode]. destruct (Z.odd i) eqn:O.
    - apply Z.odd_spec in O as [r ->]. replace ((2 * r + 1) / 2) with r by (Z.div_mod_to_equations; lia).
      rewrite Z.add_simpl_r, (proj2 (Z.ltb_lt _ _)) by lia. done.
    - rewrite <- (odd_even_half i O). by destruct (_ <? _). }
  rewrite UP.
  assert (EQ : ((fun j => sibling leaves j (i / 2 ^ Z.of_nat (j - k))) <$> seq (S k) d) =
               ((fun j => sibling leaves j (i / 2 / 2 ^ Z.of_nat (j - S k))) <$> seq (S k) d)).
  { apply list_fmap_ext. intros x j X. apply lookup_seq in X as [-> X].
    rewrite Z.div_div by lia. do 2 f_equal. replace (S k + x - k)%nat with (S (S k + x - S k)) by lia.
    by rewrite pow_S. }
  rewrite EQ, IH.
  - rewrite Nat.add_succ_r. f_equal. rewrite pow_S, Z.div_div by lia. done.
  - apply Z.div_pos; lia.
  - rewrite pow_S. assert (2 * (i / 2) <= i) by (apply Z.mul_div_le; lia). nia.
Qed.

Lemma path_root :
  0 <= pos < n ->
  ComputeMerkleRootFromBranch (nth (Z.to_nat pos) leaves 0) (path leaves pos (tree_height leaves)) pos =
  merkle_root leaves.
Proof.
  intros P. pose proof (branch_up 0 pos (tree_height leaves)) as B. cbn [tnode] in B.
  unfold path. rewrite <- (list_fmap_ext (fun j => sibling leaves j (pos / pow (j - 0)))).
  2: { intros j x _. by rewrite Nat.sub_0_r. }
  rewrite B by lia. unfold merkle_root. f_equal. apply Z.div_small. split; [lia|].
  unfold tree_height. rewrite Z2Nat.id by apply Z.log2_up_nonneg.
  pose proof (Z.log2_log2_up_spec n). lia.
Qed.

End Correct.

(** ** What a root commits to *)

Section Binding.
Context `{HashSizes}.

(** The string that is hashed for a node. *)
Definition node_input (a b : Z) : bytes := le_bytes 32 a ++ le_bytes 32 b.

(** The strings that are hashed for a node and for the nodes below it. *)
Fixpoint hashed_under (l : list Z) (k : nat) (i : Z) : list bytes :=
  match k with
  | O => []
  | S k =>
      if (2 * i + 1) * 2 ^ Z.of_nat k <? leaf_count l
      then node_input (tnode l k (2 * i)) (tnode l k (2 * i + 1)) :: hashed_under l k (2 * i) ++ hashed_under l k (2 * i + 1)
      else node_input (tnode l k (2 * i)) (tnode l k (2 * i)) :: hashed_under l k (2 * i)
  end.

(** The strings that are hashed for a tree. *)
Definition hashed (l : list Z) : list bytes := hashed_under l (tree_height l) 0.

Abbreviation u256 x := (0 <= x < 2 ^ 256).
Abbreviation pow k := (2 ^ Z.of_nat k).

Lemma Hash2_inj Q a b c d :
  injective_on Hash Q -> node_input a b ∈ Q -> node_input c d ∈ Q ->
  u256 a -> u256 b -> u256 c -> u256 d -> Hash2 a b = Hash2 c d -> a = c /\ b = d.
Proof.
  intros Inj Q1 Q2 A B C D E. apply (injective_on_eq _ _ _ _ Inj Q1 Q2) in E.
  apply app_inj_1 in E as [E1 E2]; [|by rewrite !length_le_bytes].
  apply (f_equal le_value) in E1, E2. rewrite !le_value_bytes in E1, E2.
  change (256 ^ Z.of_nat 32) with (2 ^ 256) in *. rewrite !Z.mod_small in E1, E2 by done. done.
Qed.

(** The leaves under a node. *)
Definition segment {A} (l : list A) (k : nat) (i : Z) : list A :=
  take (2 ^ k) (drop (Z.to_nat i * 2 ^ k) l).

Lemma segment_S {A} (l : list A) k i :
  0 <= i -> segment l (S k) i = segment l k (2 * i) ++ segment l k (2 * i + 1).
Proof.
  intros I. unfold segment. rewrite Nat.pow_succ_r'. set (m := (2 ^ k)%nat).
  replace (2 * m)%nat with (m + m)%nat by lia.
  replace (Z.to_nat (2 * i) * m)%nat with (Z.to_nat i * (m + m))%nat by lia.
  replace (Z.to_nat (2 * i + 1) * m)%nat with (Z.to_nat i * (m + m) + m)%nat by lia.
  by rewrite <- drop_drop, take_take_drop.
Qed.

Lemma segment_length {A} (l : list A) k i :
  0 <= i -> length (segment l k i) = (2 ^ k `min` (length l - Z.to_nat i * 2 ^ k))%nat.
Proof. intros I. unfold segment. by rewrite length_take, length_drop. Qed.

Lemma pow_nat k : Z.of_nat (2 ^ k) = pow k.
Proof. by rewrite Nat2Z.inj_pow. Qed.

Lemma segment_empty l k i : 0 <= i -> leaf_count l <= i * pow k -> segment l k i = [].
Proof.
  intros I L. apply nil_length_inv. rewrite segment_length by done. unfold leaf_count, size in L.
  rewrite <- pow_nat in L. nia.
Qed.

Lemma segment_full l k i :
  0 <= i -> length (segment l k i) = (2 ^ k)%nat <-> (i + 1) * pow k <= leaf_count l.
Proof.
  intros I. rewrite segment_length by done. unfold leaf_count, size. rewrite <- pow_nat.
  pose proof (Nat.pow_nonzero 2 k). nia.
Qed.

Lemma tnode_range l k i :
  Forall (fun x => u256 x) l -> 0 <= i -> i * pow k < leaf_count l -> u256 (tnode l k i).
Proof.
  intros F I L. destruct k as [|k]; [|apply Hash_bound]. cbn. apply Forall_nth; [done|].
  unfold leaf_count, size in L. rewrite Z.mul_1_r in L. lia.
Qed.

Lemma segment_leaf l i : 0 <= i < leaf_count l -> segment l 0 i = [tnode l 0 i].
Proof.
  intros I. unfold segment, leaf_count, size in *. cbn. rewrite Nat.mul_1_r, nth_lookup.
  destruct (lookup_lt_is_Some_2 l (Z.to_nat i)) as [x X]; [lia|]. by rewrite (drop_S _ _ _ X), X.
Qed.

Lemma cons_subseteq (x : bytes) l Q : x :: l ⊆ Q -> x ∈ Q /\ l ⊆ Q.
Proof. intros S. split; [apply S, list_elem_of_here|intros y Y; by apply S, list_elem_of_further]. Qed.

Lemma app_subseteq (l l' Q : list bytes) : l ++ l' ⊆ Q -> l ⊆ Q /\ l' ⊆ Q.
Proof. intros S. split; intros y Y; apply S, elem_of_app; [by left|by right]. Qed.

(** Equal nodes of trees without equal full siblings have equal leaves, where
    the hash is injective on the strings below them. *)
Definition binding_at (Q : list bytes) (k : nat) : Prop := forall l1 l2 i j,
  Forall (fun x => u256 x) l1 -> Forall (fun x => u256 x) l2 ->
  ~ equal_siblings l1 -> ~ equal_siblings l2 ->
  0 <= i -> 0 <= j -> i * pow k < leaf_count l1 -> j * pow k < leaf_count l2 ->
  hashed_under l1 k i ⊆ Q -> hashed_under l2 k j ⊆ Q ->
  tnode l1 k i = tnode l2 k j -> segment l1 k i = segment l2 k j.

(** A right child differs from its left sibling: with the same hash it would
    be full. *)
Lemma right_differs Q k l i :
  binding_at Q k -> Forall (fun x => u256 x) l -> ~ equal_siblings l -> 0 <= i ->
  (2 * i + 1) * pow k < leaf_count l -> hashed_under l k (2 * i) ⊆ Q -> hashed_under l k (2 * i + 1) ⊆ Q ->
  tnode l k (2 * i + 1) <> tnode l k (2 * i).
Proof.
  intros B F S I L Q1 Q2 E. assert (SE : segment l k (2 * i + 1) = segment l k (2 * i)) by (apply B; (done || lia)).
  apply S. exists k, i. split; [done|split; [|done]].
  replace (2 * i + 2) with (2 * i + 1 + 1) by lia. apply segment_full; [lia|].
  rewrite SE. apply segment_full; lia.
Qed.

Lemma node_binding Q k : injective_on Hash Q -> binding_at Q k.
Proof.
  intros Inj. induction k as [|k IH]; intros l1 l2 i j F1 F2 S1 S2 I J L1 L2 Q1 Q2 E.
  { rewrite Z.mul_1_r in *. rewrite !segment_leaf by lia. by rewrite E. }
  rewrite Nat2Z.inj_succ, Z.pow_succ_r in L1, L2 by lia. rewrite !segment_S by done. cbn [tnode] in E. cbn [hashed_under] in Q1, Q2.
  assert (RA : u256 (tnode l1 k (2 * i))) by (apply tnode_range; [done|lia|lia]).
  assert (RC : u256 (tnode l2 k (2 * j))) by (apply tnode_range; [done|lia|lia]).
  destruct (Z.ltb_spec ((2 * i + 1) * pow k) (leaf_count l1)) as [R1|R1];
    destruct (Z.ltb_spec ((2 * j + 1) * pow k) (leaf_count l2)) as [R2|R2];
    apply cons_subseteq in Q1 as [P1 Q1], Q2 as [P2 Q2]; try (apply app_subseteq in Q1 as [Q1 Q1']); try (apply app_subseteq in Q2 as [Q2 Q2']);
    apply (Hash2_inj Q) in E as [EA EB]; try done; try (apply tnode_range; [done|lia|lia]).
  all: assert (SL : segment l1 k (2 * i) = segment l2 k (2 * j)) by (apply IH; (done || lia)).
  - assert (SR : segment l1 k (2 * i + 1) = segment l2 k (2 * j + 1)) by (apply IH; (done || lia)).
    by rewrite SL, SR.
  - exfalso. apply (right_differs Q k l1 i); try done. by rewrite EB, <- EA.
  - exfalso. apply (right_differs Q k l2 j); try done. by rewrite <- EB, EA.
  - rewrite SL, (segment_empty l1 k (2 * i + 1)), (segment_empty l2 k (2 * j + 1)) by lia. done.
Qed.

End Binding.

(** ** Properties *)

(** C19. [ComputeMerkleRoot] terminates on every list of at most 2^31 hashes
    and returns the root of the tree in which a node without a right sibling
    is paired with itself; it reports a mutation exactly when two sibling
    nodes over full, equally many leaves are equal (CVE-2012-2459); and for
    every leaf, [ComputeMerkleBranch] returns a branch from which
    [ComputeMerkleRootFromBranch] recomputes that root. *)
Theorem merkle_computation_correct `{HashFunctions} (leaves : list Z) :
  0 < size leaves <= 2 ^ 31 ->
  (exists mutated, ComputeMerkleRoot leaves = Some (merkle_root leaves, mutated) /\
     (mutated = true <-> equal_siblings leaves)) /\
  (forall pos, 0 <= pos < size leaves ->
     exists branch, ComputeMerkleBranch leaves pos = Some branch /\
       ComputeMerkleRootFromBranch (nth (Z.to_nat pos) leaves 0) branch pos = merkle_root leaves).
Proof.
  intros N. split.
  - destruct (MerkleComputation_ok leaves (u32 (-1)) false N) as (mu & br & R & M & _); [done|done|].
    exists mu. unfold ComputeMerkleRoot. by rewrite R.
  - intros pos P. destruct (MerkleComputation_ok leaves pos true N) as (mu & br & R & _ & B); [intros _; apply P|lia|].
    exists br. unfold ComputeMerkleBranch. rewrite R, B by done. split; [done|]. by apply path_root.
Qed.

Lemma merkle_computation_correct_witness :
  0 < size [7; 8; 9] <= 2 ^ 31 /\
  exists branch, ComputeMerkleBranch (H := checksum_hashes) [7; 8; 9] 1 = Some branch /\
    ComputeMerkleRootFromBranch (H := checksum_hashes) 8 branch 1 = merkle_root (H := checksum_hashes) [7; 8; 9].
Proof.
  assert (N : 0 < size [7; 8; 9] <= 2 ^ 31) by (split; [reflexivity|discriminate]).
  destruct (merkle_computation_correct (H := checksum_hashes) [7; 8; 9] N) as [_ B].
  split; [exact N|]. apply (B 1). split; [discriminate|reflexivity].
Defined.

(** C20. A root stands for one list.  Two lists of hashes whose trees have the
    same height and the same root, and neither of which [ComputeMerkleRoot]
    reports as mutated, are the same list, where the double SHA-256 does not
    collide on the 64-byte strings that are hashed for the nodes of these two
    trees. *)
Theorem merkle_root_binding `{HashSizes} (l1 l2 : list Z) (root : Z) :
  Forall (fun x => 0 <= x < 2 ^ 256) l1 -> Forall (fun x => 0 <= x < 2 ^ 256) l2 ->
  0 < size l1 <= 2 ^ 31 -> 0 < size l2 <= 2 ^ 31 -> Z.log2_up (size l1) = Z.log2_up (size l2) ->
  injective_on Hash (hashed l1 ++ hashed l2) ->
  ComputeMerkleRoot l1 = Some (root, false) -> ComputeMerkleRoot l2 = Some (root, false) ->
  l1 = l2.
Proof.
  intros F1 F2 N1 N2 HE Inj R1 R2. unfold ComputeMerkleRoot in *.
  destruct (MerkleComputation_ok l1 (u32 (-1)) false N1) as (m1 & b1 & E1 & M1 & _); [done|done|].
  destruct (MerkleComputation_ok l2 (u32 (-1)) false N2) as (m2 & b2 & E2 & M2 & _); [done|done|].
  rewrite E1 in R1. rewrite E2 in R2. injection R1 as R1 ->. injection R2 as R2 ->.
  assert (TH : tree_height l1 = tree_height l2) by (unfold tree_height, leaf_count; by rewrite HE).
  unfold merkle_root in R1, R2. unfold hashed in Inj. rewrite TH in R1, Inj.
  assert (S : segment l1 (tree_height l2) 0 = segment l2 (tree_height l2) 0).
  { destruct (app_subseteq _ _ _ (reflexivity (hashed_under l1 (tree_height l2) 0 ++ hashed_under l2 (tree_height l2) 0))) as [Q1 Q2].
    apply (node_binding _ _ Inj); try done; try (unfold leaf_count; lia); [by intros S%M1|by intros S%M2]. }
  unfold segment in S. cbn in S. rewrite !drop_0 in S.
  assert (full : forall l, 0 < size l -> tree_height l = tree_height l2 -> take (2 ^ tree_height l2) l = l).
  { intros l L <-. apply take_ge. unfold tree_height, leaf_count, size in *.
    apply Nat2Z.inj_le. rewrite Nat2Z.inj_pow, Z2Nat.id by apply Z.log2_up_nonneg.
    change (Z.of_nat 2) with 2. apply Z.log2_up_le_pow2; lia. }
  rewrite !full in S by (done || lia). done.
Qed.

Definition ex_root : Z :=
  Eval vm_compute in match ComputeMerkleRoot (H := checksum_hashes) [7; 8; 19] with Some (r, _) => r | None => 0 end.

Lemma merkle_root_binding_witness :
  ComputeMerkleRoot (H := checksum_hashes) [7; 8; 19] = Some (ex_root, false) /\
  injective_on (@Hash checksum_hashes) (hashed (H := checksum_hashes) [7; 8; 19] ++ hashed (H := checksum_hashes) [7; 8; 19]) /\
  [7; 8; 19] = [7; 8; 19].
Proof.
  assert (R : ComputeMerkleRoot (H := checksum_hashes) [7; 8; 19] = Some (ex_root, false))
    by (vm_compute; reflexivity).
  assert (F : Forall (fun x => 0 <= x < 2 ^ 256) [7; 8; 19])
    by (repeat constructor; vm_compute; discriminate || reflexivity).
  assert (N : 0 < size [7; 8; 19] <= 2 ^ 31) by (split; [reflexivity|discriminate]).
  assert (I : injective_on (@Hash checksum_hashes) (hashed (H := checksum_hashes) [7; 8; 19] ++ hashed (H := checksum_hashes) [7; 8; 19]))
    by (refine (bool_decide_unpack _ _); vm_compute; exact I).
  split; [exact R|]. split; [exact I|].
  exact (merkle_root_binding (H := checksum_hashes) (H0 := checksum_sizes) [7; 8; 19] [7; 8; 19] ex_root
           F F N N eq_refl I R R).
Defined.
