(* ===== verification/Genesis.v ===== *)
(** * The genesis blocks

    [CreateGenesisBlock] and the constructors of the three networks in
    chainparams.cpp.  Each constructor builds its genesis block, hashes it and
    asserts the hash and the Merkle root; the hashes are evaluated with the
    program's own SHA-256, on the bytes the serialization gives. *)

From Stdlib Require Import String.
From S2P Require Import Prelude Params Crypto Hashing Serialize Script StrEncodings Transaction Merkle ArithUint256 Pow.

Open Scope krova_scope.

Definition GENESIS_PUBKEY_HEX : bytes :=
  str "04c10e83b2703ccf322f7dbd62dd5855ac7c10bd055814ce121ba32607d573b8810c02c0582aed05b4deb9c4b77b26d92428c61256cd42774babea0a073b2ed0c9".

(** The coinbase of the genesis block.  [CScript << CScriptNum] pushes bytes. *)
Definition genesis_tx (pszTimestamp : bytes) (genesisOutputScript : CScript) (genesisReward : Z) : CTransaction := {|
  tx_nVersion := 1; nType := 0;
  vin := [{| prevout := {| op_hash := 0; op_n := 0xffffffff |};
             scriptSig := [] <<int 486604799 <<data CScriptNum_serialize 4 <<data pszTimestamp;
             nSequence := SEQUENCE_FINAL |}];
  vout := [{| nValue := genesisReward; scriptPubKey := genesisOutputScript |}];
  nLockTime := 0;
  sapData := Some {| valueBalance := 0; vShieldedSpend := []; vShieldedOutput := []; bindingSig := replicate 64 0 |};
  extraPayload := None
|}.

(** Both overloads; [None] if the Merkle computation aborts. *)
Definition CreateGenesisBlock `{HashFunctions} (pszTimestamp : bytes) (nTime nNonce nBits nVersion genesisReward : Z) : option CBlock :=
  let genesisOutputScript := [] <<data ParseHex GENESIS_PUBKEY_HEX <<op OP_CHECKSIG in
  let block root := {|
    header := {| nVersion := nVersion; hashPrevBlock := 0; hashMerkleRoot := root; nTime := nTime; nBits := nBits; nNonce := nNonce;
                 nAccumulatorCheckpoint := 0; hashFinalSaplingRoot := 0 |};
    vtx := [genesis_tx pszTimestamp genesisOutputScript genesisReward];
    vchBlockSig := []
  |} in
  '(root, _) ← BlockMerkleRoot (block 0);
  Some (block root).

Definition set_sapling_root (b : CBlock) (root : Z) : CBlock := {|
  header := {| nVersion := nVersion b; hashPrevBlock := hashPrevBlock b; hashMerkleRoot := hashMerkleRoot b; nTime := nTime b;
               nBits := nBits b; nNonce := nNonce b; nAccumulatorCheckpoint := nAccumulatorCheckpoint b; hashFinalSaplingRoot := root |};
  vtx := vtx b; vchBlockSig := vchBlockSig b
|}.

(** What a network gives to [CreateGenesisBlock], and the two values it asserts. *)
Definition genesis_timestamp (net : Network) : bytes :=
  match net with
  | MAIN => str "KrovaCoin genesis - TODO insert verifiable Aug 2026 headline before public launch (see launch plan)"
  | TESTNET => str "NPR 06/Aug/2026 Trump signs new orders targeting birthright citizenship, weeks after Supreme Court ruling"
  | REGTEST => str "KrovaCoin regtest genesis"
  end.

Definition asserted_root (net : Network) : Z :=
  match net with
  | MAIN => 0xb26beffd3e4735aa77e7ce94a9ff49902ad46b39a7e0f0ab50b13787a4381008
  | TESTNET => 0x58bf5810460b66efe8d63401963dfe68d2ddbe6e1e9ba05ec0bcd6db19a9e606
  | REGTEST => 0xa2fe36fb9bd6393bc2ab6c66aa108388497abacb1f53bad6d16d7691e8a3a56f
  end.

(** The genesis block of a network, with the assertions of the constructor;
    [hashGenesisBlock] of Params is the asserted hash. *)
Definition genesis `{HashFunctions} (net : Network) : option CBlock :=
  b ← match net with
      | MAIN => CreateGenesisBlock (genesis_timestamp net) 1785931200 231101 0x1e0ffff0 8 0
      | TESTNET => CreateGenesisBlock (genesis_timestamp net) 1786170027 987529 0x1e0ffff0 8 0
      | REGTEST => CreateGenesisBlock (genesis_timestamp net) 1785920000 2 0x207fffff 8 0
      end;
  let b := set_sapling_root b 0x3e49b5f954aa9d3545bc6c37744661eea48d7c34e3000d82b7f0010c30f4c2fb in
  assert (CBlockHeader_GetHash b =? hashGenesisBlock (consensus (CreateChainParams net)))
    (assert (hashMerkleRoot b =? asserted_root net) (Some b)).

(** The constructor's first assertion. *)
Lemma genesis_hash `{HashFunctions} net b : genesis net = Some b -> CBlockHeader_GetHash b = hashGenesisBlock (consensus (CreateChainParams net)).
Proof.
  unfold genesis. intros E. apply bind_Some_inv in E as (c & _ & E). unfold assert in E.
  destruct (CBlockHeader_GetHash _ =? _) eqn:C; [|done]. destruct (hashMerkleRoot _ =? _); [|done]. injection E as <-. by apply Z.eqb_eq.
Qed.

(** The constructors of the three networks succeed: on the program's own
    SHA-256 the genesis blocks have the hashes and the Merkle roots that the
    constructors assert, and each block meets the proof of work that its
    [nBits] demand; neither Quark nor BLAKE2b is involved. *)
Example genesis_blocks quark blake net :
  exists b, genesis (H := node_hashes quark blake) net = Some b /\
    CheckProofOfWork (consensus (CreateChainParams net)) (CBlockHeader_GetHash (H := node_hashes quark blake) b) (nBits b) = true.
Proof.
  enough (E : exists b, genesis (H := node_hashes quark blake) net = Some b /\ nBits b = match net with REGTEST => 0x207fffff | _ => 0x1e0ffff0 end).
  { destruct E as (b & E & B). exists b. split; [done|]. rewrite (genesis_hash net b E), B. destruct net; vm_compute; reflexivity. }
  destruct net; eexists; (split; [vm_compute; reflexivity|reflexivity]).
Qed.
