(* ===== verification/NoteTree.v ===== *)
(** * The note commitment tree

    sapling/incrementalmerkletree.h and .cpp: the append-only Merkle tree that
    keeps one hash per level, its authentication paths, and the witnesses that
    follow the tree as it grows.  The depth and the hash are arguments, as in
    the templates. *)

From S2P Require Import Prelude Serialize Crypto.

(** ** The tree *)

Record IncrementalMerkleTree := { left : option Z; right : option Z; parents : list (option Z) }.

Definition new_tree : IncrementalMerkleTree := {| left := None; right := None; parents := [] |}.

#[export] Instance IncrementalMerkleTree_eq_dec : EqDecision IncrementalMerkleTree.
Proof. solve_decision. Defined.

(** [PathFiller::next]: a hash from the queue, or that of an empty tree. *)
Definition filler_next (EmptyRoot : nat -> Z) (queue : list Z) (depth : nat) : Z * list Z :=
  match queue with h :: queue => (h, queue) | [] => (EmptyRoot depth, []) end.

Section Tree.
Context (combine : nat -> Z -> Z -> Z) (EmptyRoot : nat -> Z) (Depth : nat).

(** [wfcheck]: an exception is [false]. *)
Definition wfcheck (t : IncrementalMerkleTree) : bool :=
  negb (Depth <=? length (parents t))%nat &&
  match last (parents t) with Some None => false | _ => true end &&
  negb (negb (bool_decide (is_Some (left t))) && bool_decide (is_Some (right t))) &&
  negb (negb (bool_decide (is_Some (left t))) && (0 <? length (parents t))%nat).

(** [last]: [None] is the exception. *)
Definition tree_last (t : IncrementalMerkleTree) : option Z :=
  match right t with Some r => Some r | None => left t end.

(** [size]: the shift is one of an [int], the sum one of [size_t]. *)
Fixpoint parents_size (i : nat) (ps : list (option Z)) (ret : Z) : Z :=
  match ps with
  | [] => ret
  | p :: ps => parents_size (S i) ps (match p with Some _ => u64 (ret + i32 (Z.shiftl 1 (Z.of_nat i + 1))) | None => ret end)
  end.

Definition tree_size (t : IncrementalMerkleTree) : Z :=
  let ret := match left t with Some _ => 1 | None => 0 end in
  let ret := match right t with Some _ => ret + 1 | None => ret end in
  parents_size 0 (parents t) ret.

Definition is_complete (t : IncrementalMerkleTree) (depth : nat) : bool :=
  match left t, right t with
  | Some _, Some _ => (length (parents t) =? depth - 1)%nat && forallb (fun p => bool_decide (is_Some p)) (parents t)
  | _, _ => false
  end.

(** The loop of [append], from index [i]. *)
Fixpoint propagate (i : nat) (combined : Z) (ps : list (option Z)) : list (option Z) :=
  match ps with
  | [] => [Some combined]
  | Some p :: ps => None :: propagate (S i) (combine (i + 1) p combined) ps
  | None :: ps => Some combined :: ps
  end.

(** [append]: [None] is the exception of a full tree.  The loop ends within
    [Depth] turns, since a tree that is not full has fewer parents. *)
Definition append (t : IncrementalMerkleTree) (obj : Z) : option IncrementalMerkleTree :=
  if is_complete t Depth then None
  else Some
    match left t, right t with
    | None, _ => {| left := Some obj; right := right t; parents := parents t |}
    | Some _, None => {| left := left t; right := Some obj; parents := parents t |}
    | Some l, Some r => {| left := Some obj; right := None; parents := propagate 0 (combine 0 l r) (parents t) |}
    end.

(** The loop of [next_depth] over the parents. *)
Fixpoint next_depth_loop (ps : list (option Z)) (skip d : nat) : nat :=
  match ps with
  | [] => d + skip
  | Some _ :: ps => next_depth_loop ps skip (S d)
  | None :: ps => match skip with S skip => next_depth_loop ps skip (S d) | O => d end
  end.

Definition next_depth (t : IncrementalMerkleTree) (skip : nat) : nat :=
  let after_right skip := next_depth_loop (parents t) skip 1 in
  let after_left skip :=
    match right t with
    | None => match skip with S skip => after_right skip | O => O end
    | Some _ => after_right skip
    end in
  match left t with
  | None => match skip with S skip => after_left skip | O => O end
  | Some _ => after_left skip
  end.

(** *** Root *)

(** The loop over the parents, then the loop up to [depth]. *)
Fixpoint root_parents (ps : list (option Z)) (d : nat) (root : Z) (queue : list Z) : Z * nat * list Z :=
  match ps with
  | [] => (root, d, queue)
  | Some p :: ps => root_parents ps (S d) (combine d p root) queue
  | None :: ps => let '(f, queue) := filler_next EmptyRoot queue d in root_parents ps (S d) (combine d root f) queue
  end.

Fixpoint root_fill (n d : nat) (root : Z) (queue : list Z) : Z :=
  match n with
  | O => root
  | S n => let '(f, queue) := filler_next EmptyRoot queue d in root_fill n (S d) (combine d root f) queue
  end.

Definition root_with (t : IncrementalMerkleTree) (depth : nat) (filler_hashes : list Z) : Z :=
  let '(l, q) := match left t with Some l => (l, filler_hashes) | None => filler_next EmptyRoot filler_hashes 0 end in
  let '(r, q) := match right t with Some r => (r, q) | None => filler_next EmptyRoot q 0 end in
  let '(root, d, q) := root_parents (parents t) 1 (combine 0 l r) q in
  root_fill (depth - d) d root q.

Definition root (t : IncrementalMerkleTree) : Z := root_with t Depth [].

(** *** Path *)

(** The sibling hashes and sides, from the leaf up. *)
Fixpoint path_parents (ps : list (option Z)) (d : nat) (queue : list Z) : list (Z * bool) * nat * list Z :=
  match ps with
  | [] => ([], d, queue)
  | p :: ps =>
      let '(x, queue) := match p with Some h => ((h, true), queue) | None => let '(f, q) := filler_next EmptyRoot queue d in ((f, false), q) end in
      let '(l, d, queue) := path_parents ps (S d) queue in
      (x :: l, d, queue)
  end.

Fixpoint path_fill (n d : nat) (queue : list Z) : list (Z * bool) :=
  match n with
  | O => []
  | S n => let '(f, queue) := filler_next EmptyRoot queue d in (f, false) :: path_fill n (S d) queue
  end.

Definition path_pairs (t : IncrementalMerkleTree) (filler_hashes : list Z) : option (list (Z * bool)) :=
  match left t with
  | None => None
  | Some l =>
      let '(x, q) := match right t with
                     | Some _ => ((l, true), filler_hashes)
                     | None => let '(f, q) := filler_next EmptyRoot filler_hashes 0 in ((f, false), q)
                     end in
      let '(ps, d, q) := path_parents (parents t) 1 q in
      Some (x :: ps ++ path_fill (Depth - d) d q)
  end.

End Tree.

(** [convertBytesVectorToVector]: the bits of each byte, the highest first. *)
Definition convertBytesVectorToVector (l : bytes) : list bool :=
  flat_map (fun c => map (fun j => Z.odd (Z.shiftr c (7 - Z.of_nat j))) (seq 0 8)) l.

(** [path]: hashes as bits, from the root down. *)
Record MerklePath := { authentication_path : list (list bool); path_index : list bool }.

Definition tree_path (EmptyRoot : nat -> Z) (Depth : nat) (t : IncrementalMerkleTree) (filler_hashes : list Z) : option MerklePath :=
  l ← path_pairs EmptyRoot Depth t filler_hashes;
  Some {| authentication_path := reverse (map (fun x => convertBytesVectorToVector (le_bytes 32 (fst x))) l);
          path_index := reverse (map snd l) |}.

(** ** Witnesses *)

Record IncrementalWitness := {
  w_tree : IncrementalMerkleTree;
  filled : list Z;
  cursor : option IncrementalMerkleTree;
  cursor_depth : nat
}.

(** [tree.witness()] *)
Definition witness (t : IncrementalMerkleTree) : IncrementalWitness :=
  {| w_tree := t; filled := []; cursor := None; cursor_depth := 0 |}.

Section Witness.
Context (combine : nat -> Z -> Z -> Z) (EmptyRoot : nat -> Z) (Depth : nat).

Definition partial_path (w : IncrementalWitness) : list Z :=
  filled w ++ match cursor w with Some c => [root_with combine EmptyRoot c (cursor_depth w) []] | None => [] end.

Definition witness_root (w : IncrementalWitness) : Z := root_with combine EmptyRoot (w_tree w) Depth (partial_path w).
Definition witness_path (w : IncrementalWitness) : option (list (Z * bool)) := path_pairs EmptyRoot Depth (w_tree w) (partial_path w).
Definition element (w : IncrementalWitness) : option Z := tree_last (w_tree w).
Definition position (w : IncrementalWitness) : Z := u64 (tree_size (w_tree w) - 1).

(** [append] of a witness: [None] is an exception. *)
Definition witness_append (w : IncrementalWitness) (obj : Z) : option IncrementalWitness :=
  match cursor w with
  | Some c =>
      c ← append combine Depth c obj;
      if is_complete c (cursor_depth w)
      then Some {| w_tree := w_tree w; filled := filled w ++ [root_with combine EmptyRoot c (cursor_depth w) []]; cursor := None; cursor_depth := cursor_depth w |}
      else Some {| w_tree := w_tree w; filled := filled w; cursor := Some c; cursor_depth := cursor_depth w |}
  | None =>
      let d := next_depth (w_tree w) (length (filled w)) in
      if (Depth <=? d)%nat then None
      else if (d =? 0)%nat
      then Some {| w_tree := w_tree w; filled := filled w ++ [obj]; cursor := None; cursor_depth := d |}
      else
        c ← append combine Depth new_tree obj;
        Some {| w_tree := w_tree w; filled := filled w; cursor := Some c; cursor_depth := d |}
  end.

End Witness.

(** ** The Merkle tree of a list of leaves *)

Section Reference.
Context (combine : nat -> Z -> Z -> Z) (EmptyRoot : nat -> Z) (Depth : nat).

(** Missing leaves are those of an empty tree. *)
Fixpoint merkle (n : nat) (l : list Z) : Z :=
  match n with
  | O => match l with x :: _ => x | [] => EmptyRoot 0 end
  | S n => combine n (merkle n (take (2 ^ n) l)) (merkle n (drop (2 ^ n) l))
  end.

(** The root from a leaf and its siblings, from level [d] up. *)
Fixpoint climb (d : nat) (h : Z) (l : list (Z * bool)) : Z :=
  match l with
  | [] => h
  | (s, true) :: l => climb (S d) (combine d s h) l
  | (s, false) :: l => climb (S d) (combine d h s) l
  end.

(** The roots of the subtrees of depths [ds] that [xs] fills, in order. *)
Fixpoint fillers (ds : list nat) (xs : list Z) : list Z :=
  match ds, xs with
  | d :: ds, _ :: _ => merkle d (take (2 ^ d) xs) :: fillers ds (drop (2 ^ d) xs)
  | _, _ => []
  end.

(** *** The representation *)

(** [ps], from level [i], holds the roots of the full subtrees that make up [l]. *)
Fixpoint reps (i : nat) (ps : list (option Z)) (l : list Z) : Prop :=
  match ps with
  | [] => l = []
  | None :: ps => reps (S i) ps l
  | Some h :: ps => exists l1 l2, l = l1 ++ l2 /\ length l2 = (2 ^ i)%nat /\ h = merkle i l2 /\ reps (S i) ps l1
  end.

(** The last level is in use. *)
Definition canonical (ps : list (option Z)) : Prop := last ps <> Some None.

Record represents (t : IncrementalMerkleTree) (l : list Z) : Prop := {
  rep_parents : exists pre tail, l = pre ++ tail /\ reps 1 (parents t) pre /\
    match left t, right t with
    | None, None => pre = [] /\ tail = []
    | Some a, None => tail = [a]
    | Some a, Some b => tail = [a; b]
    | None, Some _ => False
    end;
  rep_canonical : canonical (parents t)
}.

Lemma pow2_pos n : (0 < 2 ^ n)%nat.
Proof. apply Nat.neq_0_lt_0, Nat.pow_nonzero. lia. Qed.

Lemma pow2_S n : (2 ^ S n = 2 ^ n + 2 ^ n)%nat.
Proof. rewrite Nat.pow_succ_r'. lia. Qed.

(** A full subtree with something on its right. *)
Lemma merkle_split n (l k : list Z) : length l = (2 ^ n)%nat -> merkle (S n) (l ++ k) = combine n (merkle n l) (merkle n k).
Proof. intros L. cbn [merkle]. by rewrite take_app_length', drop_app_length'. Qed.

(** Nothing on the right. *)
Lemma merkle_half n (l : list Z) : (length l <= 2 ^ n)%nat -> merkle (S n) l = combine n (merkle n l) (merkle n []).
Proof. intros L. cbn [merkle]. by rewrite take_ge, drop_ge. Qed.

Lemma reps_length i ps : forall l, reps i ps l -> exists k, length l = (k * 2 ^ i)%nat.
Proof.
  revert i. induction ps as [|[h|] ps IH]; intros i l R; cbn [reps] in R.
  - subst. by exists 0%nat.
  - destruct R as (l1 & l2 & -> & L & _ & R). destruct (IH _ _ R) as [k K]. exists (2 * k + 1)%nat. rewrite length_app, K, L, pow2_S. lia.
  - destruct (IH _ _ R) as [k K]. exists (2 * k)%nat. rewrite K, pow2_S. lia.
Qed.

(** *** Appending *)

Lemma propagate_reps ps : forall i c l1 l2, reps (S i) ps l1 -> length l2 = (2 ^ S i)%nat -> c = merkle (S i) l2 ->
  reps (S i) (propagate combine i c ps) (l1 ++ l2).
Proof.
  induction ps as [|[h|] ps IH]; intros i c l1 l2 R L C; cbn [propagate reps] in *.
  - subst l1. exists [], l2. repeat split; done.
  - destruct R as (l0 & l3 & -> & L3 & -> & R). rewrite <- app_assoc. apply IH; [done|rewrite length_app, L3, L, (pow2_S (S i)); lia|].
    rewrite C, Nat.add_1_r. symmetry. by apply merkle_split.
  - exists l1, l2. repeat split; done.
Qed.

Lemma propagate_canonical ps : forall i c, canonical ps -> canonical (propagate combine i c ps).
Proof.
  unfold canonical. induction ps as [|p ps IH]; intros i c C; [done|]. destruct p as [h|]; cbn [propagate].
  - assert (N : propagate combine (S i) (combine (i + 1) h c) ps <> []) by (by destruct ps as [|[]]).
    assert (C' : last ps <> Some None) by (destruct ps; [done|exact C]). specialize (IH (S i) (combine (i + 1) h c) C').
    destruct (propagate combine (S i) (combine (i + 1) h c) ps) eqn:E; [done|]. exact IH.
  - destruct ps; [done|exact C].
Qed.

Lemma new_tree_represents : represents new_tree [].
Proof. split; [exists [], []; done|done]. Qed.

Lemma append_represents t t' l x : represents t l -> append combine Depth t x = Some t' -> represents t' (l ++ [x]).
Proof.
  intros [(pre & tail & -> & R & M) C] A. unfold append in A. destruct (is_complete t Depth); [done|]. injection A as <-.
  destruct (left t) as [a|] eqn:EL, (right t) as [b|] eqn:ER; try done; cbn [left right parents]; (split; [|try done]).
  - subst tail. exists (pre ++ [a; b]), [x]. cbn [parents left right]. rewrite <- app_assoc. split; [done|]. split; [|done].
    apply propagate_reps; [done|done|reflexivity].
  - by apply propagate_canonical.
  - subst tail. exists pre, [a; x]. cbn [parents left right]. rewrite <- app_assoc. done.
  - destruct M as [-> ->]. exists [], [x]. done.
Qed.

(** *** Full trees *)

Definition all_set (ps : list (option Z)) : bool := forallb (fun p => bool_decide (is_Some p)) ps.

Lemma reps_full i ps : forall l, reps i ps l -> all_set ps = true -> (length l + 2 ^ i = 2 ^ (i + length ps))%nat.
Proof.
  revert i. induction ps as [|[h|] ps IH]; intros i l R F; cbn [reps] in R.
  - subst l. by rewrite Nat.add_0_r.
  - destruct R as (l1 & l2 & -> & L & _ & R). specialize (IH _ _ R F). cbn [length]. rewrite Nat.add_succ_r, <- Nat.add_succ_l, <- IH.
    rewrite length_app, L, (pow2_S i). lia.
  - done.
Qed.

Lemma reps_nil i ps : reps i ps [] -> canonical ps -> ps = [].
Proof.
  revert i. induction ps as [|[h|] ps IH]; intros i R C; [done| |]; cbn [reps] in R.
  - destruct R as (l1 & l2 & E & L & _). symmetry in E. apply app_nil in E as [_ ->]. pose proof (pow2_pos i). cbn in L. lia.
  - destruct ps as [|p ps]; [by destruct C|]. by apply (IH (S i)) in R.
Qed.

Lemma reps_full_inv i ps : forall l m, reps i ps l -> canonical ps -> (length l + 2 ^ i = 2 ^ (i + m))%nat -> length ps = m /\ all_set ps = true.
Proof.
  revert i. induction ps as [|[h|] ps IH]; intros i l m R C E; cbn [reps] in R.
  - subst l. cbn in E. apply Nat.pow_inj_r in E; [|lia]. split; [cbn; lia|done].
  - destruct R as (l1 & l2 & -> & L & _ & R). rewrite length_app, L in E.
    destruct m as [|m]; [rewrite Nat.add_0_r in E; pose proof (pow2_pos i); lia|].
    destruct (IH (S i) l1 m R) as [Lp F]; [by destruct ps| |split; [cbn [length]; lia|done]].
    rewrite (pow2_S i). replace (S i + m)%nat with (i + S m)%nat by lia. lia.
  - exfalso. destruct (reps_length _ _ _ R) as [k K]. rewrite K, (pow2_S i) in E. destruct m as [|m].
    + rewrite Nat.add_0_r in E. assert (k = 0%nat) by (pose proof (pow2_pos i); nia). subst k.
      apply nil_length_inv in K as ->. destruct ps as [|p ps]; [by apply C|]. by apply (reps_nil (S i) (p :: ps)) in R.
    + rewrite Nat.add_succ_r, pow2_S, Nat.pow_add_r in E. pose proof (pow2_pos i).
      assert (E' : (2 * k + 1 = 2 * 2 ^ m)%nat) by nia. lia.
Qed.

Lemma complete_length t l d : represents t l -> (1 <= d)%nat -> is_complete t d = true <-> length l = (2 ^ d)%nat.
Proof.
  intros [(pre & tail & -> & R & M) C] D. unfold is_complete. fold (all_set (parents t)). rewrite length_app.
  destruct (left t) as [a|], (right t) as [b|]; try done.
  - subst tail. cbn [length]. rewrite andb_true_iff, Nat.eqb_eq. split.
    + intros [L F]. pose proof (reps_full _ _ _ R F) as E. rewrite L in E. replace (1 + (d - 1))%nat with d in E by lia. exact E.
    + intros E. replace d with (1 + (d - 1))%nat in E by lia. destruct (reps_full_inv 1 _ pre _ R C E) as [Lp F]. by rewrite Lp.
  - subst tail. cbn [length]. split; [done|]. intros E. destruct (reps_length _ _ _ R) as [k K]. rewrite K in E.
    destruct d as [|d]; [lia|]. rewrite pow2_S in E. cbn [Nat.pow] in E. lia.
  - destruct M as [-> ->]. split; [done|]. cbn. pose proof (pow2_pos d). lia.
Qed.

Lemma append_total t l x : represents t l -> (1 <= Depth)%nat -> (length l < 2 ^ Depth)%nat -> exists t', append combine Depth t x = Some t'.
Proof.
  intros R D L. unfold append. destruct (is_complete t Depth) eqn:E; [|eauto]. apply (complete_length t l) in E; [lia|done|done].
Qed.

(** *** The root *)

(** Empty subtrees have the table's roots. *)
Context (Empty : forall d, (d < Depth)%nat -> EmptyRoot (S d) = combine d (EmptyRoot d) (EmptyRoot d)).

Lemma merkle_empty n : (n <= Depth)%nat -> merkle n [] = EmptyRoot n.
Proof. induction n as [|n IH]; intros L; [done|]. cbn [merkle]. rewrite take_nil, drop_nil, IH, Empty by lia. done. Qed.

Lemma fillers_nil ds : fillers ds [] = [].
Proof. by destruct ds. Qed.

(** The subtrees on the right that are still to come, lowest first. *)
Fixpoint parents_uncles (depth : nat) (ps : list (option Z)) (d : nat) : list nat :=
  match ps with
  | [] => seq d (depth - d)
  | Some _ :: ps => parents_uncles depth ps (S d)
  | None :: ps => d :: parents_uncles depth ps (S d)
  end.

Definition uncles (depth : nat) (t : IncrementalMerkleTree) : list nat :=
  (if left t is Some _ then [] else [0%nat]) ++ (if right t is Some _ then [] else [0%nat]) ++ parents_uncles depth (parents t) 1.

(** [cur] is what the subtree of depth [d] holds; [xs] comes after it only
    when it is full. *)
Definition fits (d : nat) (cur xs : list Z) : Prop := (length cur <= 2 ^ d)%nat /\ (xs <> [] -> length cur = (2 ^ d)%nat).

Lemma fill_step d cur xs ds : fits d cur xs -> (d <= Depth)%nat ->
  exists f cur' xs', filler_next EmptyRoot (fillers (d :: ds) xs) d = (f, fillers ds xs') /\
    combine d (merkle d cur) f = merkle (S d) cur' /\ cur' ++ xs' = cur ++ xs /\ fits (S d) cur' xs'.
Proof.
  intros [L F] D. destruct xs as [|x xs].
  - exists (EmptyRoot d), cur, []. rewrite !fillers_nil. split; [done|]. split; [|split; [done|split; [rewrite pow2_S; lia|done]]].
    by rewrite merkle_half, merkle_empty by done.
  - specialize (F ltac:(done)). set (y := x :: xs). exists (merkle d (take (2 ^ d) y)), (cur ++ take (2 ^ d) y), (drop (2 ^ d) y).
    split; [done|]. split; [by rewrite merkle_split|]. split; [by rewrite <- app_assoc, take_drop|].
    split; rewrite length_app, F, length_take, pow2_S; [lia|]. intros N.
    assert (length (drop (2 ^ d) y) <> 0%nat) by (by intros ?%nil_length_inv). rewrite length_drop in *. lia.
Qed.

Lemma root_fill_spec n : forall d cur xs, fits d cur xs -> (length (cur ++ xs) <= 2 ^ (d + n))%nat -> (d + n <= Depth)%nat ->
  root_fill combine EmptyRoot n d (merkle d cur) (fillers (seq d n) xs) = merkle (d + n) (cur ++ xs).
Proof.
  induction n as [|n IH]; intros d cur xs F L D; cbn [root_fill].
  - rewrite Nat.add_0_r in *. destruct F as [_ F]. destruct xs as [|x xs]; [by rewrite app_nil_r|].
    rewrite length_app, F in L by done. cbn in L. lia.
  - cbn [seq]. destruct (fill_step d cur xs (seq (S d) n) F) as (f & cur' & xs' & -> & -> & E & F'); [lia|].
    rewrite IH, E by (done || (rewrite E; replace (S d + n)%nat with (d + S n)%nat by lia; done) || lia). f_equal. lia.
Qed.

Lemma root_parents_spec depth ps : forall d pre cur xs, reps d ps pre -> fits d cur xs ->
  (length (pre ++ cur ++ xs) <= 2 ^ depth)%nat -> (d + length ps <= depth <= Depth)%nat ->
  (let '(r, d', q) := root_parents combine EmptyRoot ps d (merkle d cur) (fillers (parents_uncles depth ps d) xs) in
   root_fill combine EmptyRoot (depth - d') d' r q) = merkle depth (pre ++ cur ++ xs).
Proof.
  induction ps as [|[h|] ps IH]; intros d pre cur xs R F L D; cbn [reps root_parents parents_uncles length] in *.
  - subst pre. cbn [app] in *. rewrite root_fill_spec by (done || (replace (d + (depth - d))%nat with depth by lia; done) || lia). f_equal. lia.
  - destruct R as (l1 & l2 & -> & L2 & -> & R). rewrite <- merkle_split by done. rewrite <- app_assoc in *.
    rewrite (app_assoc l2) in *. apply IH; [done| |done|lia]. destruct F as [F1 F2].
    split; rewrite length_app, L2, pow2_S; [lia|]. intros N. rewrite F2 by done. lia.
  - destruct (fill_step d cur xs (parents_uncles depth ps (S d)) F) as (f & cur' & xs' & -> & -> & E & F'); [lia|].
    rewrite <- E in *. apply IH; [done|done|done|lia].
Qed.

Lemma root_with_spec t l xs depth : represents t l -> (1 + length (parents t) <= depth <= Depth)%nat -> (length (l ++ xs) <= 2 ^ depth)%nat ->
  root_with combine EmptyRoot t depth (fillers (uncles depth t) xs) = merkle depth (l ++ xs).
Proof.
  intros [(pre & tail & -> & R & M) C] D L. unfold root_with, uncles. rewrite <- app_assoc in *.
  destruct (left t) as [a|], (right t) as [b|]; try done; cbn [app].
  - subst tail. apply (root_parents_spec depth (parents t) 1 pre [a; b] xs); [done|by split|done|done].
  - subst tail. destruct (fill_step 0 [a] xs (parents_uncles depth (parents t) 1)) as (f & cur & xs' & -> & Ec & E & F); [by split|lia|].
    cbn [merkle] in Ec. rewrite Ec, <- E in *. apply (root_parents_spec depth (parents t) 1 pre cur xs'); done.
  - destruct M as [-> ->]. cbn [app] in *. destruct xs as [|x xs].
    + rewrite !fillers_nil. cbn [filler_next]. change (EmptyRoot 0) with (merkle 0 []). rewrite <- (merkle_half 0 []) by (cbn; lia).
      pose proof (root_parents_spec depth (parents t) 1 [] [] [] R) as E. rewrite fillers_nil in E. apply E; [by split; [cbn; lia|]|done|lia].
    + destruct (fill_step 0 [x] xs (parents_uncles depth (parents t) 1)) as (f & cur & xs' & E1 & Ec & E & F); [by split|lia|].
      set (u := parents_uncles depth (parents t) 1) in *. change (fillers (0%nat :: 0%nat :: u) (x :: xs)) with (x :: fillers (0%nat :: u) xs).
      cbn [filler_next]. rewrite E1. cbn [merkle] in Ec. rewrite Ec. change (x :: xs) with ([x] ++ xs) in *.
      rewrite <- E in *. apply (root_parents_spec depth (parents t) 1 [] cur xs'); done.
Qed.

(** *** Paths *)

Lemma climb_fill n : forall d h q, climb d h (path_fill EmptyRoot n d q) = root_fill combine EmptyRoot n d h q.
Proof.
  induction n as [|n IH]; intros d h q; cbn [path_fill root_fill]; [done|]. destruct (filler_next EmptyRoot q d) as [f q']. apply IH.
Qed.

Lemma climb_parents ps : forall d h q, exists l d' q' r, path_parents EmptyRoot ps d q = (l, d', q') /\
  root_parents combine EmptyRoot ps d h q = (r, d', q') /\ forall m, climb d h (l ++ m) = climb d' r m.
Proof.
  induction ps as [|[p|] ps IH]; intros d h q; cbn [path_parents root_parents].
  - by exists [], d, q, h.
  - destruct (IH (S d) (combine d p h) q) as (l & d' & q' & r & -> & -> & E). by exists ((p, true) :: l), d', q', r.
  - destruct (filler_next EmptyRoot q d) as [f q1]. destruct (IH (S d) (combine d h f) q1) as (l & d' & q' & r & -> & -> & E).
    by exists ((f, false) :: l), d', q', r.
Qed.

Lemma note_path_root t q l : path_pairs EmptyRoot Depth t q = Some l ->
  exists x, tree_last t = Some x /\ climb 0 x l = root_with combine EmptyRoot t Depth q.
Proof.
  unfold path_pairs, tree_last, root_with. intros P. destruct (left t) as [a|]; [|done]. destruct (right t) as [b|].
  - destruct (climb_parents (parents t) 1 (combine 0 a b) q) as (m & d' & q' & r & E1 & E2 & E). rewrite E1 in P. injection P as <-.
    exists b. split; [done|]. rewrite E2. cbn [climb]. by rewrite E, climb_fill.
  - destruct (filler_next EmptyRoot q 0) as [f q1].
    destruct (climb_parents (parents t) 1 (combine 0 a f) q1) as (m & d' & q' & r & E1 & E2 & E). rewrite E1 in P. injection P as <-.
    exists a. split; [done|]. rewrite E2. cbn [climb]. by rewrite E, climb_fill.
Qed.

(** *** Sizes *)

Lemma reps_lower i ps l : reps i ps l -> canonical ps -> ps <> [] -> (2 ^ (i + length ps) <= 2 * length l)%nat.
Proof.
  revert i l. induction ps as [|p ps IH]; intros i l R C N; [done|]. assert (C' : ps <> [] -> canonical ps) by (intros; by destruct ps).
  cbn [length]. rewrite Nat.add_succ_r, <- Nat.add_succ_l. destruct (decide (ps = [])) as [->|N'].
  - destruct p as [h|]; [|by destruct C]. destruct R as (l1 & l2 & -> & L & _). rewrite length_app, L, Nat.add_0_r, pow2_S. lia.
  - specialize (C' N'). destruct p as [h|]; cbn [reps] in R; [|by apply IH].
    destruct R as (l1 & l2 & -> & L & _ & R). specialize (IH (S i) l1 R C' N'). rewrite length_app. lia.
Qed.

Lemma parents_bound t l d : represents t l -> (1 <= d)%nat -> (length l <= 2 ^ d)%nat -> (1 + length (parents t) <= d)%nat.
Proof.
  intros [(pre & tail & -> & R & M) C] D L. destruct (decide (parents t = [])) as [->|N]; [cbn; lia|].
  pose proof (reps_lower _ _ _ R C N) as P. rewrite length_app in L.
  assert (T : (0 < length tail)%nat).
  { destruct (left t), (right t); try done; [by subst tail; cbn; lia|by subst tail; cbn; lia|]. destruct M as [-> ->]. cbn in P.
    pose proof (pow2_pos (1 + length (parents t))). cbn in *. lia. }
  destruct (Nat.le_gt_cases (1 + length (parents t)) d) as [|G]; [done|]. exfalso.
  assert (2 ^ (S d) <= 2 ^ (1 + length (parents t)))%nat by (apply Nat.pow_le_mono_r; lia). pose proof (pow2_S d). lia.
Qed.

(** The root is that of the leaves. *)
Lemma root_spec t l : represents t l -> (1 <= Depth)%nat -> (length l <= 2 ^ Depth)%nat -> root combine EmptyRoot Depth t = merkle Depth l.
Proof.
  intros R D L. pose proof (parents_bound t l Depth R D L). unfold root.
  pose proof (root_with_spec t l [] Depth R) as E. rewrite app_nil_r, fillers_nil in E. apply E; [lia|done].
Qed.

(** The subtree roots a witness asks for. *)
Lemma complete_root c l d : represents c l -> (1 <= d <= Depth)%nat -> (length l <= 2 ^ d)%nat -> root_with combine EmptyRoot c d [] = merkle d l.
Proof.
  intros R D L. pose proof (parents_bound c l d R ltac:(lia) L).
  pose proof (root_with_spec c l [] d R) as E. rewrite app_nil_r, fillers_nil in E. apply E; [lia|done].
Qed.

Definition capacity (ds : list nat) : nat := foldr (fun d n => (2 ^ d + n)%nat) 0%nat ds.

Lemma capacity_seq n : forall d, (2 ^ d + capacity (seq d n) = 2 ^ (d + n))%nat.
Proof.
  induction n as [|n IH]; intros d; cbn [seq capacity foldr]; [by rewrite !Nat.add_0_r|]. fold (capacity (seq (S d) n)).
  specialize (IH (S d)). rewrite pow2_S in IH. replace (d + S n)%nat with (S d + n)%nat by lia. lia.
Qed.

Lemma parents_capacity depth ps : forall d pre, reps d ps pre -> (d + length ps <= depth)%nat ->
  (length pre + 2 ^ d + capacity (parents_uncles depth ps d) = 2 ^ depth)%nat.
Proof.
  induction ps as [|[h|] ps IH]; intros d pre R D; cbn [reps parents_uncles length] in *.
  - subst pre. pose proof (capacity_seq (depth - d) d) as E. replace (d + (depth - d))%nat with depth in E by lia. exact E.
  - destruct R as (l1 & l2 & -> & L & _ & R). specialize (IH (S d) l1 R ltac:(lia)). rewrite pow2_S in IH. rewrite length_app, L. lia.
  - specialize (IH (S d) pre R ltac:(lia)). rewrite pow2_S in IH. cbn [capacity foldr]. fold (capacity (parents_uncles depth ps (S d))). lia.
Qed.

Lemma uncles_capacity t l : represents t l -> (1 + length (parents t) <= Depth)%nat -> (length l + capacity (uncles Depth t) = 2 ^ Depth)%nat.
Proof.
  intros [(pre & tail & -> & R & M) _] D. pose proof (parents_capacity Depth _ _ _ R ltac:(lia)) as P. unfold uncles.
  rewrite length_app. destruct (left t), (right t); try done; cbn [app capacity foldr]; fold (capacity (parents_uncles Depth (parents t) 1));
    [subst tail|subst tail|destruct M as [-> ->]]; cbn in *; lia.
Qed.

(** [next_depth] finds the next of them. *)
Lemma next_depth_loop_spec ps : forall d skip, (d + length ps <= Depth)%nat ->
  match parents_uncles Depth ps d !! skip with
  | Some x => next_depth_loop ps skip d = x /\ (x < Depth)%nat
  | None => (Depth <= next_depth_loop ps skip d)%nat
  end.
Proof.
  induction ps as [|[h|] ps IH]; intros d skip D; cbn [parents_uncles next_depth_loop length] in *.
  - destruct (seq d (Depth - d) !! skip) as [x|] eqn:E.
    + apply lookup_seq in E. lia.
    + apply lookup_seq_ge_None in E || (apply lookup_ge_None in E; rewrite length_seq in E). lia.
  - apply IH. lia.
  - destruct skip as [|skip]; [cbn; lia|]. cbn [lookup list_lookup]. apply IH. lia.
Qed.

Lemma next_depth_spec t skip : left t <> None -> (1 + length (parents t) <= Depth)%nat ->
  match uncles Depth t !! skip with
  | Some x => next_depth t skip = x /\ (x < Depth)%nat
  | None => (Depth <= next_depth t skip)%nat
  end.
Proof.
  intros L D. unfold uncles, next_depth. destruct (left t) as [a|]; [|done]. cbn [app]. destruct (right t) as [b|]; cbn [app].
  - by apply next_depth_loop_spec.
  - destruct skip as [|skip]; [cbn; lia|]. by apply next_depth_loop_spec.
Qed.

(** *** Witnesses *)

(** [xs] fills, one after the other, subtrees of [ds] with the roots [fs];
    [rest] are still empty. *)
Inductive full_run : list nat -> list Z -> list Z -> list nat -> Prop :=
  | run_nil ds : full_run ds [] [] ds
  | run_cons d ds x fs xs rest : length x = (2 ^ d)%nat -> full_run ds fs xs rest -> full_run (d :: ds) (merkle d x :: fs) (x ++ xs) rest.

Lemma full_run_fillers ds fs xs rest ys : full_run ds fs xs rest -> fillers ds (xs ++ ys) = fs ++ fillers rest ys.
Proof.
  induction 1 as [|d ds x fs xs rest L _ IH]; [done|]. rewrite <- app_assoc. destruct x as [|a x]; [cbn in L; pose proof (pow2_pos d); lia|].
  cbn [app fillers]. change (a :: x ++ xs ++ ys) with ((a :: x) ++ xs ++ ys). rewrite take_app_length', drop_app_length', IH by done. done.
Qed.

Lemma full_run_snoc ds fs xs d rest y : full_run ds fs xs (d :: rest) -> length y = (2 ^ d)%nat -> full_run ds (fs ++ [merkle d y]) (xs ++ y) rest.
Proof.
  remember (d :: rest) as r eqn:E. intros F L. revert E. induction F as [|d' ds x fs xs rest' L' _ IH]; intros E.
  - subst ds. pose proof (run_cons d rest y [] [] rest L (run_nil rest)) as F. by rewrite app_nil_r in F.
  - rewrite <- app_assoc. cbn [app]. apply run_cons; auto.
Qed.

Lemma full_run_capacity ds fs xs rest : full_run ds fs xs rest -> (length xs + capacity rest = capacity ds)%nat.
Proof. induction 1 as [|d ds x fs xs rest L _ IH]; [done|]. cbn [capacity foldr]. fold (capacity ds). rewrite length_app, L. lia. Qed.

Lemma full_run_lookup ds fs xs rest : full_run ds fs xs rest -> ds !! length fs = head rest.
Proof. induction 1 as [ds|d ds x fs xs rest L _ IH]; [by destruct ds|done]. Qed.

(** The witness of the tree of [l], after [xs]. *)
Record follows (w : IncrementalWitness) (l xs : list Z) : Prop := {
  fo_tree : represents (w_tree w) l;
  fo_left : left (w_tree w) <> None;
  fo_run : exists done part rest, xs = done ++ part /\ full_run (uncles Depth (w_tree w)) (filled w) done rest /\
    match cursor w with
    | None => part = []
    | Some c => exists rest', rest = cursor_depth w :: rest' /\ represents c part /\ (0 < length part < 2 ^ cursor_depth w)%nat /\
                  (1 <= cursor_depth w <= Depth)%nat
    end
}.

Lemma follows_path w l xs : follows w l xs -> partial_path combine EmptyRoot w = fillers (uncles Depth (w_tree w)) xs.
Proof.
  intros [_ _ (done & part & rest & -> & F & C)]. unfold partial_path. rewrite (full_run_fillers _ _ _ _ part F). f_equal.
  destruct (cursor w) as [c|].
  - destruct C as (rest' & -> & R & L & D). rewrite (complete_root c part) by (done || lia).
    destruct part as [|a part]; [cbn in L; lia|]. cbn [fillers]. rewrite take_ge, drop_ge by lia. by rewrite fillers_nil.
  - subst part. by rewrite fillers_nil.
Qed.

Lemma witness_follows t l : represents t l -> l <> [] -> follows (witness t) l [].
Proof.
  intros R N. split; cbn [witness w_tree filled cursor]; [done| |].
  - destruct R as [(pre & tail & -> & R & M) _]. destruct (left t), (right t); try done. by destruct M as [-> ->].
  - exists [], [], (uncles Depth t). repeat split. constructor.
Qed.

Lemma witness_append_follows w l xs x : follows w l xs -> (1 <= Depth)%nat -> (length (l ++ xs) < 2 ^ Depth)%nat ->
  exists w', witness_append combine EmptyRoot Depth w x = Some w' /\ follows w' l (xs ++ [x]).
Proof.
  intros [RT LT (done & part & rest & -> & F & C)] D L. unfold witness_append. destruct (cursor w) as [c|] eqn:EC.
  - destruct C as (rest' & -> & R & Lp & Dc). assert (2 ^ cursor_depth w <= 2 ^ Depth)%nat by (apply Nat.pow_le_mono_r; lia).
    destruct (append_total c part x R D ltac:(lia)) as [c' A]. rewrite A. cbn [mbind option_bind].
    pose proof (append_represents c c' part x R A) as R'. pose proof (complete_length c' _ (cursor_depth w) R' ltac:(lia)) as K.
    rewrite length_app in K. cbn [length] in K. rewrite <- app_assoc.
    destruct (is_complete c' (cursor_depth w)).
    + eexists. split; [done|]. split; cbn [w_tree filled cursor cursor_depth]; [done|done|].
      exists (done ++ part ++ [x]), [], rest'. rewrite app_nil_r. split; [done|]. split; [|done].
      rewrite (complete_root c' (part ++ [x])) by (done || lia || (rewrite length_app; cbn; lia)).
      apply full_run_snoc; [done|]. rewrite length_app. cbn. by apply K.
    + eexists. split; [done|]. split; cbn [w_tree filled cursor cursor_depth]; [done|done|].
      exists done, (part ++ [x]), (cursor_depth w :: rest'). split; [done|]. split; [done|]. exists rest'. split; [done|]. split; [done|].
      rewrite length_app. cbn [length]. split; [|done]. assert (length part + 1 <> 2 ^ cursor_depth w)%nat by (intros E; by apply K in E). lia.
  - subst part. rewrite !app_nil_r in *. assert (B : (1 + length (parents (w_tree w)) <= Depth)%nat).
    { apply (parents_bound _ l); [done|done|]. rewrite length_app in L. lia. }
    pose proof (next_depth_spec (w_tree w) (length (filled w)) LT B) as N. rewrite (full_run_lookup _ _ _ _ F) in N.
    destruct rest as [|d rest].
    { pose proof (full_run_capacity _ _ _ _ F) as K. pose proof (uncles_capacity _ _ RT B). cbn in K. rewrite length_app in L. lia. }
    cbn [head] in N. destruct N as [-> Dd]. rewrite (proj2 (Nat.leb_gt _ _)) by done. destruct d as [|d]; cbn [Nat.eqb].
    + eexists. split; [done|]. split; cbn [w_tree filled cursor cursor_depth]; [done|done|]. exists (done ++ [x]), [], rest.
      rewrite app_nil_r. split; [done|]. split; [|done]. by apply (full_run_snoc _ _ _ 0 rest [x]).
    + destruct (append_total new_tree [] x new_tree_represents D) as [c A]; [cbn; apply pow2_pos|]. rewrite A. cbn [mbind option_bind].
      pose proof (append_represents _ _ _ x new_tree_represents A) as R. eexists. split; [done|].
      split; cbn [w_tree filled cursor cursor_depth]; [done|done|]. exists done, [x], (S d :: rest). split; [done|]. split; [done|].
      exists rest. split; [done|]. split; [done|]. pose proof (pow2_pos d). rewrite pow2_S. cbn [length]. lia.
Qed.

(** *** Positions *)

(** A number from its bits, the lowest first. *)
Fixpoint bits_value (l : list bool) : nat :=
  match l with [] => 0 | b :: l => (if b then 1 else 0) + 2 * bits_value l end%nat.

Lemma bits_value_app l k : bits_value (l ++ k) = (bits_value l + 2 ^ length l * bits_value k)%nat.
Proof. induction l as [|b l IH]; cbn [bits_value app length]; [cbn; lia|]. rewrite IH, pow2_S. lia. Qed.

Lemma path_fill_bits n : forall d q, bits_value (map snd (path_fill EmptyRoot n d q)) = 0%nat.
Proof.
  induction n as [|n IH]; intros d q; cbn [path_fill]; [done|]. destruct (filler_next EmptyRoot q d) as [f q']. cbn. by rewrite IH.
Qed.

Lemma path_parents_bits ps : forall d q l d' q' pre, path_parents EmptyRoot ps d q = (l, d', q') -> reps d ps pre ->
  (bits_value (map snd l) * 2 ^ d = length pre)%nat.
Proof.
  induction ps as [|[h|] ps IH]; intros d q l d' q' pre P R; cbn [path_parents reps] in *.
  - injection P as <- _ _. by subst.
  - destruct R as (l1 & l2 & -> & L & _ & R). destruct (path_parents EmptyRoot ps (S d) q) as [[m d1] q1] eqn:E. injection P as <- _ _.
    specialize (IH _ _ _ _ _ _ E R). rewrite pow2_S in IH. rewrite length_app, L. cbn [map snd bits_value]. lia.
  - destruct (filler_next EmptyRoot q d) as [f q0]. destruct (path_parents EmptyRoot ps (S d) q0) as [[m d1] q1] eqn:E. injection P as <- _ _.
    specialize (IH _ _ _ _ _ _ E R). rewrite pow2_S in IH. cbn [map snd bits_value]. lia.
Qed.

(** The sides of the path are the bits of the position. *)
Lemma path_position t l q p : represents t l -> path_pairs EmptyRoot Depth t q = Some p -> S (bits_value (map snd p)) = length l.
Proof.
  intros [(pre & tail & -> & R & M) _] P. unfold path_pairs in P. destruct (left t) as [a|]; [|done]. rewrite length_app.
  assert (G : forall x q l, (let '(ps, d, q) := path_parents EmptyRoot (parents t) 1 q in Some (x :: ps ++ path_fill EmptyRoot (Depth - d) d q)) = Some l ->
    bits_value (map snd l) = ((if snd x : bool then 1 else 0) + length pre)%nat).
  { clear P. intros x q0 l0 P. destruct (path_parents EmptyRoot (parents t) 1 q0) as [[ps d] q1] eqn:E. injection P as <-.
    pose proof (path_parents_bits _ _ _ _ _ _ _ E R) as B. cbn [map bits_value]. rewrite map_app, bits_value_app, path_fill_bits. cbn in B. lia. }
  destruct (right t) as [b|]; [subst tail; apply G in P; cbn in *; lia|].
  destruct (filler_next EmptyRoot q 0) as [f q1]. subst tail. apply G in P. cbn in *. lia.
Qed.

Lemma path_fill_length n : forall d q, length (path_fill EmptyRoot n d q) = n.
Proof. induction n as [|n IH]; intros d q; cbn [path_fill]; [done|]. destruct (filler_next EmptyRoot q d). cbn [length]. by rewrite IH. Qed.

Lemma path_parents_length ps : forall d q, let '(l, d', _) := path_parents EmptyRoot ps d q in length l = length ps /\ d' = (d + length ps)%nat.
Proof.
  induction ps as [|p ps IH]; intros d q; cbn [path_parents]; [by rewrite Nat.add_0_r|].
  destruct (match p with Some h => _ | None => _ end) as [x q1]. specialize (IH (S d) q1).
  destruct (path_parents EmptyRoot ps (S d) q1) as [[l d'] q']. cbn [length]. lia.
Qed.

(** A path exists, with one sibling per level. *)
Lemma path_pairs_total t q : left t <> None -> (1 + length (parents t) <= Depth)%nat ->
  exists p, path_pairs EmptyRoot Depth t q = Some p /\ length p = Depth.
Proof.
  intros L B. unfold path_pairs. destruct (left t) as [a|]; [|done].
  destruct (match right t with Some _ => _ | None => _ end) as [x q1]. pose proof (path_parents_length (parents t) 1 q1) as E.
  destruct (path_parents EmptyRoot (parents t) 1 q1) as [[l d] q2]. eexists. split; [done|].
  cbn [length]. rewrite length_app, path_fill_length. lia.
Qed.

Lemma represents_last t l x : represents t l -> tree_last t = Some x -> last l = Some x.
Proof.
  intros [(pre & tail & -> & R & M) _] E. unfold tree_last in E.
  destruct (left t), (right t); try done; simplify_eq; [by rewrite last_app|by rewrite last_snoc].
Qed.

Lemma parents_size_spec ps : forall i ret pre, reps (S i) ps pre -> 0 <= ret -> ret + size pre < 2 ^ 31 ->
  parents_size i ps ret = ret + size pre.
Proof.
  induction ps as [|[h|] ps IH]; intros i ret pre R Z0 L; cbn [parents_size reps] in *.
  - subst pre. change (size (@nil Z)) with 0. lia.
  - destruct R as (l1 & l2 & -> & L2 & _ & R). rewrite size_app in *. pose proof (size_nonneg l1).
    assert (E : size l2 = 2 ^ (Z.of_nat i + 1)).
    { unfold size. rewrite L2, Nat2Z.inj_pow. f_equal. lia. }
    rewrite Z.shiftl_1_l, <- E, i32_id, uint_id by (unfold in_i32, INT32_MIN, INT32_MAX; pose proof (size_nonneg l2); lia).
    rewrite (IH (S i) _ l1) by (done || (pose proof (size_nonneg l2); lia)). lia.
  - by apply IH.
Qed.

(** [size] counts the leaves, up to 2^31 of them. *)
Lemma tree_size_spec t l : represents t l -> size l < 2 ^ 31 -> tree_size t = size l.
Proof.
  intros [(pre & tail & -> & R & M) _] L. unfold tree_size. rewrite size_app in *. pose proof (size_nonneg pre).
  destruct (left t), (right t); try done; [subst tail|subst tail|destruct M as [-> ->]];
    (rewrite (parents_size_spec _ 0 _ _ R) by (unfold size in *; cbn [length] in *; lia)); unfold size; cbn [length]; lia.
Qed.

Lemma represents_wf t l : represents t l -> (1 <= Depth)%nat -> (length l <= 2 ^ Depth)%nat -> wfcheck Depth t = true.
Proof.
  intros R D L. pose proof (parents_bound _ _ _ R D L) as B. destruct R as [(pre & tail & -> & R & M) C]. unfold wfcheck.
  rewrite (proj2 (Nat.leb_gt _ _)) by lia. cbn [negb andb]. unfold canonical in C.
  replace (match last (parents t) with Some None => false | _ => true end) with true by (by destruct (last (parents t)) as [[]|]).
  destruct (left t) as [a|]; [done|]. destruct (right t) as [b|]; [done|]. destruct M as [-> _].
  by rewrite (reps_nil _ _ R C).
Qed.

End Reference.

(** ** Trees from leaves *)

Section Build.
Context (combine : nat -> Z -> Z -> Z) (EmptyRoot : nat -> Z) (Depth : nat).

(** [append] of each leaf, to a tree and to a witness. *)
Definition appends (t : IncrementalMerkleTree) (l : list Z) : option IncrementalMerkleTree :=
  foldl (fun t x => t ← t; append combine Depth t x) (Some t) l.

Definition witness_appends (w : IncrementalWitness) (l : list Z) : option IncrementalWitness :=
  foldl (fun w x => w ← w; witness_append combine EmptyRoot Depth w x) (Some w) l.

Context (Empty : forall d, (d < Depth)%nat -> EmptyRoot (S d) = combine d (EmptyRoot d) (EmptyRoot d)) (D : (1 <= Depth)%nat).

Abbreviation represents := (represents combine EmptyRoot).

Lemma appends_represents xs : forall t l, represents t l -> (length (l ++ xs) <= 2 ^ Depth)%nat ->
  exists t', appends t xs = Some t' /\ represents t' (l ++ xs).
Proof.
  induction xs as [|x xs IH]; intros t l R L; unfold appends; cbn [foldl]; [rewrite app_nil_r; eauto|].
  destruct (append_total combine EmptyRoot Depth t l x R D) as [t1 A]; [rewrite length_app in L; cbn in L; lia|].
  cbn [mbind option_bind]. rewrite A. pose proof (append_represents combine EmptyRoot Depth t t1 l x R A) as R1.
  destruct (IH t1 (l ++ [x]) R1) as (t' & A' & R'); rewrite <- app_assoc in *; [done|]. by exists t'.
Qed.

Lemma witness_appends_follows xs : forall w l ys, follows combine EmptyRoot Depth w l ys -> (length (l ++ ys ++ xs) <= 2 ^ Depth)%nat ->
  exists w', witness_appends w xs = Some w' /\ follows combine EmptyRoot Depth w' l (ys ++ xs).
Proof.
  induction xs as [|x xs IH]; intros w l ys F L; unfold witness_appends; cbn [foldl]; [rewrite app_nil_r; eauto|].
  destruct (witness_append_follows combine EmptyRoot Depth Empty w l ys x F D) as (w1 & A & F1); [rewrite !length_app in *; cbn in L; lia|].
  cbn [mbind option_bind]. rewrite A. destruct (IH w1 l (ys ++ [x]) F1) as (w' & A' & F'); rewrite <- app_assoc in *; [done|]. by exists w'.
Qed.

Lemma witness_appends_tree xs : forall w w', witness_appends w xs = Some w' -> w_tree w' = w_tree w.
Proof.
  induction xs as [|x xs IH]; intros w w' A; unfold witness_appends in A; cbn [foldl] in A; [by injection A as <-|].
  cbn [mbind option_bind] in A. destruct (witness_append combine EmptyRoot Depth w x) as [w1|] eqn:E.
  - apply IH in A. rewrite A. unfold witness_append in E. destruct (cursor w) as [c|].
    + apply bind_Some_inv in E as (c' & _ & E). by destruct (is_complete c' _); injection E as <-.
    + destruct (_ <=? _)%nat; [done|]. destruct (_ =? 0)%nat; [by injection E as <-|]. apply bind_Some_inv in E as (c' & _ & E). by injection E as <-.
  - exfalso. clear - A. induction xs; cbn in A; auto. done.
Qed.

End Build.
