(* ===== verification/Coins.v ===== *)
(** * The coins cache

    coins.{h,cpp}: the set of unspent outputs as a stack of caches.  A cache
    entry carries the flags DIRTY (may differ from the parent view) and FRESH
    (the parent has no unspent coin there); [Flush] writes the dirty entries
    to the parent.  The Sapling anchors and nullifiers are cached the same
    way.  Read operations fill the cache, so every operation returns the
    cache it leaves. *)

From S2P Require Import Prelude Params Crypto Script Serialize Transaction.

(** ** Data *)

Record Coin := {
  fCoinBase : bool;
  fCoinStake : bool;
  coin_out : CTxOut;
  coin_nHeight : Z
}.

Definition coinEmpty : Coin :=
  {| fCoinBase := false; fCoinStake := false; coin_out := TxOut_null; coin_nHeight := 0 |}.

Definition IsSpent (c : Coin) : bool := TxOut_IsNull (coin_out c).

Record CCoinsCacheEntry := { coin : Coin; DIRTY : bool; FRESH : bool }.

(** sapling/incrementalmerkletree.h: the note commitment tree, whose hash
    function is in the Rust library. *)
Class SaplingTree := {
  SaplingMerkleTree : Type;
  tree_empty : SaplingMerkleTree;
  tree_append : SaplingMerkleTree -> Z -> SaplingMerkleTree;
  tree_root : SaplingMerkleTree -> Z
}.

Record CAnchorsSaplingCacheEntry `{SaplingTree} := {
  a_entered : bool; a_tree : SaplingMerkleTree; a_DIRTY : bool
}.

Record CNullifiersCacheEntry := { n_entered : bool; n_DIRTY : bool }.

(** The interface of a view, as its answers. *)
Record CCoinsView `{SaplingTree} := {
  v_GetCoin : COutPoint -> option Coin;
  v_GetBestBlock : Z;
  v_GetSaplingAnchorAt : Z -> option SaplingMerkleTree;
  v_GetNullifier : Z -> bool;
  v_GetBestAnchor : Z
}.

Record CCoinsViewCache `{SaplingTree} := {
  cacheCoins : gmap COutPoint CCoinsCacheEntry;
  hashBlock : Z;
  hashSaplingAnchor : Z;
  cacheSaplingAnchors : gmap Z CAnchorsSaplingCacheEntry;
  cacheSaplingNullifiers : gmap Z CNullifiersCacheEntry
}.

Section Cache.
Context `{SaplingTree} (base : CCoinsView).

Definition set_coins (v : CCoinsViewCache) (m : gmap COutPoint CCoinsCacheEntry) : CCoinsViewCache :=
  {| cacheCoins := m; hashBlock := hashBlock v; hashSaplingAnchor := hashSaplingAnchor v;
     cacheSaplingAnchors := cacheSaplingAnchors v; cacheSaplingNullifiers := cacheSaplingNullifiers v |}.

Definition set_nullifiers (v : CCoinsViewCache) (m : gmap Z CNullifiersCacheEntry) : CCoinsViewCache :=
  {| cacheCoins := cacheCoins v; hashBlock := hashBlock v; hashSaplingAnchor := hashSaplingAnchor v;
     cacheSaplingAnchors := cacheSaplingAnchors v; cacheSaplingNullifiers := m |}.

Definition set_anchors (v : CCoinsViewCache) (h : Z) (m : gmap Z CAnchorsSaplingCacheEntry)
  : CCoinsViewCache :=
  {| cacheCoins := cacheCoins v; hashBlock := hashBlock v; hashSaplingAnchor := h;
     cacheSaplingAnchors := m; cacheSaplingNullifiers := cacheSaplingNullifiers v |}.

(** ** Coins *)

Definition FetchCoin (v : CCoinsViewCache) (outpoint : COutPoint)
  : option CCoinsCacheEntry * CCoinsViewCache :=
  match cacheCoins v !! outpoint with
  | Some e => (Some e, v)
  | None =>
      match v_GetCoin base outpoint with
      | None => (None, v)
      | Some tmp =>
          let e := {| coin := tmp; DIRTY := false; FRESH := IsSpent tmp |} in
          (Some e, set_coins v (<[outpoint := e]> (cacheCoins v)))
      end
  end.

Definition GetCoin (v : CCoinsViewCache) (outpoint : COutPoint) : option Coin * CCoinsViewCache :=
  let '(it, v) := FetchCoin v outpoint in (option_map coin it, v).

(** [None] is a failed assertion or a thrown [logic_error]. *)
Definition AddCoin (v : CCoinsViewCache) (outpoint : COutPoint) (c : Coin) (possible_overwrite : bool)
  : option CCoinsViewCache :=
  assert (negb (IsSpent c)) (
    if IsUnspendable (scriptPubKey (coin_out c)) then Some v
    else if TxOut_IsZerocoinMint (coin_out c) then Some v
    else
      let e := default {| coin := coinEmpty; DIRTY := false; FRESH := false |} (cacheCoins v !! outpoint) in
      let put fresh :=
        set_coins v (<[outpoint := {| coin := c; DIRTY := true; FRESH := FRESH e || fresh |}]> (cacheCoins v)) in
      if negb possible_overwrite then
        if negb (IsSpent (coin e)) then None else Some (put (negb (DIRTY e)))
      else Some (put false)).

(** Returns the coin moved out when there was an entry. *)
Definition SpendCoin (v : CCoinsViewCache) (outpoint : COutPoint) : option Coin * CCoinsViewCache :=
  let '(it, v) := FetchCoin v outpoint in
  match it with
  | None => (None, v)
  | Some e =>
      (Some (coin e),
       set_coins v (if FRESH e then delete outpoint (cacheCoins v)
                    else <[outpoint := {| coin := coinEmpty; DIRTY := true; FRESH := FRESH e |}]> (cacheCoins v)))
  end.

Definition AccessCoin (v : CCoinsViewCache) (outpoint : COutPoint) : Coin * CCoinsViewCache :=
  let '(it, v) := FetchCoin v outpoint in
  (match it with None => coinEmpty | Some e => coin e end, v).

Definition HaveCoin (v : CCoinsViewCache) (outpoint : COutPoint) : bool * CCoinsViewCache :=
  let '(it, v) := FetchCoin v outpoint in
  (match it with None => false | Some e => negb (IsSpent (coin e)) end, v).

Definition HaveCoinInCache (v : CCoinsViewCache) (outpoint : COutPoint) : bool :=
  bool_decide (is_Some (cacheCoins v !! outpoint)).

Definition GetBestBlock (v : CCoinsViewCache) : Z * CCoinsViewCache :=
  let h := if hashBlock v =? 0 then v_GetBestBlock base else hashBlock v in
  (h, {| cacheCoins := cacheCoins v; hashBlock := h; hashSaplingAnchor := hashSaplingAnchor v;
         cacheSaplingAnchors := cacheSaplingAnchors v; cacheSaplingNullifiers := cacheSaplingNullifiers v |}).

Definition SetBestBlock (v : CCoinsViewCache) (hashBlockIn : Z) : CCoinsViewCache :=
  {| cacheCoins := cacheCoins v; hashBlock := hashBlockIn; hashSaplingAnchor := hashSaplingAnchor v;
     cacheSaplingAnchors := cacheSaplingAnchors v; cacheSaplingNullifiers := cacheSaplingNullifiers v |}.

Definition Uncache (v : CCoinsViewCache) (outpoint : COutPoint) : CCoinsViewCache :=
  match cacheCoins v !! outpoint with
  | Some e => if negb (DIRTY e) && negb (FRESH e) then set_coins v (delete outpoint (cacheCoins v)) else v
  | None => v
  end.

(** The loop over the inputs; [in.nSequence * COIN] is computed in [int64_t]. *)
Fixpoint GetValueIn_loop (v : CCoinsViewCache) (ins : list CTxIn) (nResult : Z) : Z * CCoinsViewCache :=
  match ins with
  | [] => (nResult, v)
  | i :: ins =>
      if TxIn_IsZerocoinSpend i || TxIn_IsZerocoinPublicSpend i
      then GetValueIn_loop v ins (i64 (nResult + i64 (nSequence i * COIN)))
      else
        let '(c, v) := AccessCoin v (prevout i) in
        GetValueIn_loop v ins (i64 (nResult + nValue (coin_out c)))
  end.

Definition GetValueIn (v : CCoinsViewCache) (tx : CTransaction) : option (Z * CCoinsViewCache) :=
  if IsCoinBase tx then Some (0, v)
  else
    let '(nResult, v) := GetValueIn_loop v (vin tx) 0 in
    shielded ← GetShieldedValueIn tx;
    Some (i64 (nResult + shielded), v).

Fixpoint HaveInputs_loop (v : CCoinsViewCache) (ins : list CTxIn) : bool * CCoinsViewCache :=
  match ins with
  | [] => (true, v)
  | i :: ins =>
      let '(have, v) := HaveCoin v (prevout i) in
      if negb have then (false, v) else HaveInputs_loop v ins
  end.

Definition HaveInputs (v : CCoinsViewCache) (tx : CTransaction) : bool * CCoinsViewCache :=
  if negb (IsCoinBase tx) && negb (HasZerocoinSpendInputs tx) then HaveInputs_loop v (vin tx)
  else (true, v).

Definition GetUTXOCoin (v : CCoinsViewCache) (outpoint : COutPoint) : option Coin * CCoinsViewCache :=
  let '(r, v) := GetCoin v outpoint in
  (match r with Some c => if negb (IsSpent c) then Some c else None | None => None end, v).

(** [fuel] is the number of outpoints left, at most [MAX_OUTPUTS_PER_BLOCK]. *)
Definition MAX_BLOCK_SIZE_CURRENT : Z := 2000000.

Definition MAX_OUTPUTS_PER_BLOCK : Z := MAX_BLOCK_SIZE_CURRENT / size (Ser CTxOut_fmt TxOut_null).

Fixpoint AccessByTxid_loop (v : CCoinsViewCache) (txid n : Z) (fuel : nat) : Coin * CCoinsViewCache :=
  match fuel with
  | O => (coinEmpty, v)
  | S fuel =>
      let '(alternate, v) := AccessCoin v {| op_hash := txid; op_n := n |} in
      if negb (IsSpent alternate) then (alternate, v) else AccessByTxid_loop v txid (n + 1) fuel
  end.

Definition AccessByTxid (v : CCoinsViewCache) (txid : Z) : Coin * CCoinsViewCache :=
  AccessByTxid_loop v txid 0 (Z.to_nat MAX_OUTPUTS_PER_BLOCK).

(** The spends of [PruneInvalidEntries] before its [Flush]. *)
Definition PruneInvalidEntries (v : CCoinsViewCache) (setInvalidOutPoints : list COutPoint) : CCoinsViewCache :=
  foldl (fun v out =>
    let '(have, v) := HaveCoin v out in
    if (have : bool) then snd (SpendCoin v out) else v) v setInvalidOutPoints.

Definition GetCoinDepthAtHeight (v : CCoinsViewCache) (output : COutPoint) (nHeight : Z)
  : Z * CCoinsViewCache :=
  let '(c, v) := AccessCoin v output in
  (if negb (IsSpent c) then i32 (nHeight - coin_nHeight c + 1) else -1, v).

(** [invalid] is [invalid_out::ContainsOutPoint]. *)
Fixpoint AddCoins_loop (v : CCoinsViewCache) (invalid : COutPoint -> bool) (txid : Z) (outs : list CTxOut)
    (i nHeight : Z) (isCoinbase isCoinstake check fSkipInvalid : bool) : option CCoinsViewCache :=
  match outs with
  | [] => Some v
  | o :: outs =>
      let out := {| op_hash := txid; op_n := i |} in
      v ← (if fSkipInvalid && invalid out then Some (snd (SpendCoin v out))
           else
             let '(overwrite, v) := if check then HaveCoin v out else (false, v) in
             AddCoin v out {| fCoinBase := isCoinbase; fCoinStake := isCoinstake;
                              coin_out := o; coin_nHeight := u32 nHeight |} overwrite);
      AddCoins_loop v invalid txid outs (i + 1) nHeight isCoinbase isCoinstake check fSkipInvalid
  end.

Definition AddCoins `{HashFunctions} (v : CCoinsViewCache) (invalid : COutPoint -> bool) (tx : CTransaction)
    (nHeight : Z) (check fSkipInvalid : bool) : option CCoinsViewCache :=
  AddCoins_loop v invalid (GetHash tx) (vout tx) 0 nHeight (IsCoinBase tx) (IsCoinStake tx) check fSkipInvalid.

(** ** Sapling anchors and nullifiers *)

Definition GetSaplingAnchorAt (v : CCoinsViewCache) (rt : Z)
  : option SaplingMerkleTree * CCoinsViewCache :=
  match cacheSaplingAnchors v !! rt with
  | Some e => (if a_entered e then Some (a_tree e) else None, v)
  | None =>
      match v_GetSaplingAnchorAt base rt with
      | None => (None, v)
      | Some tree =>
          (Some tree, set_anchors v (hashSaplingAnchor v)
             (<[rt := {| a_entered := true; a_tree := tree; a_DIRTY := false |}]> (cacheSaplingAnchors v)))
      end
  end.

Definition GetNullifier (v : CCoinsViewCache) (nullifier : Z) : bool * CCoinsViewCache :=
  match cacheSaplingNullifiers v !! nullifier with
  | Some e => (n_entered e, v)
  | None =>
      let tmp := v_GetNullifier base nullifier in
      (tmp, set_nullifiers v
              (<[nullifier := {| n_entered := tmp; n_DIRTY := false |}]> (cacheSaplingNullifiers v)))
  end.

Definition GetBestAnchor (v : CCoinsViewCache) : Z * CCoinsViewCache :=
  let h := if hashSaplingAnchor v =? 0 then v_GetBestAnchor base else hashSaplingAnchor v in
  (h, set_anchors v h (cacheSaplingAnchors v)).

Definition PushAnchor (v : CCoinsViewCache) (tree : SaplingMerkleTree) : CCoinsViewCache :=
  let newrt := tree_root tree in
  let '(currentRoot, v) := GetBestAnchor v in
  if negb (currentRoot =? newrt) then
    set_anchors v newrt
      (<[newrt := {| a_entered := true; a_tree := tree; a_DIRTY := true |}]> (cacheSaplingAnchors v))
  else v.

Definition PopAnchor (v : CCoinsViewCache) (newrt : Z) : option CCoinsViewCache :=
  let '(currentRoot, v) := GetBestAnchor v in
  if negb (currentRoot =? newrt) then
    let '(found, v) := GetSaplingAnchorAt v currentRoot in
    match found with
    | None => None
    | Some tree =>
        Some (set_anchors v newrt
          (<[currentRoot := {| a_entered := false; a_tree := tree; a_DIRTY := true |}]> (cacheSaplingAnchors v)))
    end
  else Some v.

(** One [insert] and update of [SetNullifiers]. *)
Definition SetNullifier (spent : bool) (m : gmap Z CNullifiersCacheEntry) (s : SpendDescription)
  : gmap Z CNullifiersCacheEntry :=
  <[sd_nullifier s := {| n_entered := spent; n_DIRTY := true |}]> m.

Definition SetNullifiers (v : CCoinsViewCache) (tx : CTransaction) (spent : bool) : CCoinsViewCache :=
  match sapData tx with
  | None => v
  | Some d => set_nullifiers v (foldl (SetNullifier spent) (cacheSaplingNullifiers v) (vShieldedSpend d))
  end.

Fixpoint HaveShieldedRequirements_loop (v : CCoinsViewCache) (spends : list SpendDescription)
  : bool * CCoinsViewCache :=
  match spends with
  | [] => (true, v)
  | s :: spends =>
      let '(spent, v) := GetNullifier v (sd_nullifier s) in
      if (spent : bool) then (false, v)
      else
        let '(tree, v) := GetSaplingAnchorAt v (sd_anchor s) in
        match tree with
        | None => (false, v)
        | Some _ => HaveShieldedRequirements_loop v spends
        end
  end.

Definition HaveShieldedRequirements (v : CCoinsViewCache) (tx : CTransaction) : bool * CCoinsViewCache :=
  if IsShieldedTx tx
  then HaveShieldedRequirements_loop v (match sapData tx with Some d => vShieldedSpend d | None => [] end)
  else (true, v).

End Cache.

(** ** Writing a child cache to its parent *)

Section Flush.
Context `{SaplingTree}.

(** One iteration of the loop of [CCoinsViewCache::BatchWrite] over the
    child's entries, [us] being the parent's map. *)
Definition BatchWriteCoin (us : gmap COutPoint CCoinsCacheEntry) (it : COutPoint * CCoinsCacheEntry)
  : option (gmap COutPoint CCoinsCacheEntry) :=
  let '(o, e) := it in
  if negb (DIRTY e) then Some us
  else
    match us !! o with
    | None =>
        if FRESH e && IsSpent (coin e) then Some us
        else Some (<[o := {| coin := coin e; DIRTY := true; FRESH := FRESH e |}]> us)
    | Some itUs =>
        if FRESH e && negb (IsSpent (coin itUs)) then None
        else if FRESH itUs && IsSpent (coin e) then Some (delete o us)
        else Some (<[o := {| coin := coin e; DIRTY := true; FRESH := FRESH itUs |}]> us)
    end.

Fixpoint BatchWriteCoins (us : gmap COutPoint CCoinsCacheEntry) (l : list (COutPoint * CCoinsCacheEntry))
  : option (gmap COutPoint CCoinsCacheEntry) :=
  match l with
  | [] => Some us
  | it :: l => us ← BatchWriteCoin us it; BatchWriteCoins us l
  end.

Definition BatchWriteAnchor (us : gmap Z CAnchorsSaplingCacheEntry) (it : Z * CAnchorsSaplingCacheEntry)
  : gmap Z CAnchorsSaplingCacheEntry :=
  let '(rt, e) := it in
  if negb (a_DIRTY e) then us
  else
    match us !! rt with
    | None => <[rt := {| a_entered := a_entered e; a_tree := a_tree e; a_DIRTY := true |}]> us
    | Some p =>
        if Bool.eqb (a_entered p) (a_entered e) then us
        else <[rt := {| a_entered := a_entered e; a_tree := a_tree p; a_DIRTY := true |}]> us
    end.

Definition BatchWriteAnchors (l : list (Z * CAnchorsSaplingCacheEntry))
    (us : gmap Z CAnchorsSaplingCacheEntry) : gmap Z CAnchorsSaplingCacheEntry :=
  foldl BatchWriteAnchor us l.

Definition BatchWriteNullifier (us : gmap Z CNullifiersCacheEntry) (it : Z * CNullifiersCacheEntry)
  : gmap Z CNullifiersCacheEntry :=
  let '(nf, e) := it in
  if negb (n_DIRTY e) then us
  else
    match us !! nf with
    | None => <[nf := {| n_entered := n_entered e; n_DIRTY := true |}]> us
    | Some p =>
        if Bool.eqb (n_entered p) (n_entered e) then us
        else <[nf := {| n_entered := n_entered e; n_DIRTY := true |}]> us
    end.

Definition BatchWriteNullifiers (l : list (Z * CNullifiersCacheEntry))
    (us : gmap Z CNullifiersCacheEntry) : gmap Z CNullifiersCacheEntry :=
  foldl BatchWriteNullifier us l.

(** The maps are given in an iteration order of the hash tables. *)
Definition BatchWrite (us : CCoinsViewCache) (mapCoins : list (COutPoint * CCoinsCacheEntry))
    (hashBlockIn hashSaplingAnchorIn : Z) (mapSaplingAnchors : list (Z * CAnchorsSaplingCacheEntry))
    (mapSaplingNullifiers : list (Z * CNullifiersCacheEntry)) : option CCoinsViewCache :=
  coins ← BatchWriteCoins (cacheCoins us) mapCoins;
  Some {| cacheCoins := coins; hashBlock := hashBlockIn; hashSaplingAnchor := hashSaplingAnchorIn;
          cacheSaplingAnchors := BatchWriteAnchors mapSaplingAnchors (cacheSaplingAnchors us);
          cacheSaplingNullifiers := BatchWriteNullifiers mapSaplingNullifiers (cacheSaplingNullifiers us) |}.

(** The parent and the emptied child. *)
Definition Flush (parent v : CCoinsViewCache) : option (CCoinsViewCache * CCoinsViewCache) :=
  parent ← BatchWrite parent (map_to_list (cacheCoins v)) (hashBlock v) (hashSaplingAnchor v)
             (map_to_list (cacheSaplingAnchors v)) (map_to_list (cacheSaplingNullifiers v));
  Some (parent, {| cacheCoins := ∅; hashBlock := hashBlock v; hashSaplingAnchor := hashSaplingAnchor v;
                   cacheSaplingAnchors := ∅; cacheSaplingNullifiers := ∅ |}).

(** The answers a cache over [base] gives to its own child. *)
Definition cache_view (base : CCoinsView) (v : CCoinsViewCache) : CCoinsView := {|
  v_GetCoin := fun o => fst (GetCoin base v o);
  v_GetBestBlock := fst (GetBestBlock base v);
  v_GetSaplingAnchorAt := fun rt => fst (GetSaplingAnchorAt base v rt);
  v_GetNullifier := fun nf => fst (GetNullifier base v nf);
  v_GetBestAnchor := fst (GetBestAnchor base v)
|}.

End Flush.

(** ** The unspent outputs a cache denotes *)

Definition unspent (c : option Coin) : option Coin :=
  match c with Some c => if IsSpent c then None else Some c | None => None end.

Section Denotation.
Context `{SaplingTree}.

Definition utxo (base : CCoinsView) (v : CCoinsViewCache) (o : COutPoint) : option Coin :=
  unspent (match cacheCoins v !! o with Some e => Some (coin e) | None => v_GetCoin base o end).

Definition nullified (base : CCoinsView) (v : CCoinsViewCache) (nf : Z) : bool :=
  match cacheSaplingNullifiers v !! nf with Some e => n_entered e | None => v_GetNullifier base nf end.

Definition anchor_tree (base : CCoinsView) (v : CCoinsViewCache) (rt : Z) : option SaplingMerkleTree :=
  match cacheSaplingAnchors v !! rt with
  | Some e => if a_entered e then Some (a_tree e) else None
  | None => v_GetSaplingAnchorAt base rt
  end.

(** *** The invariant of the flags *)

Definition entry_wf (base : CCoinsView) (o : COutPoint) (e : CCoinsCacheEntry) : Prop :=
  (FRESH e = true -> unspent (v_GetCoin base o) = None) /\
  (DIRTY e = false -> unspent (Some (coin e)) = unspent (v_GetCoin base o)).

Definition coins_wf (base : CCoinsView) (v : CCoinsViewCache) : Prop :=
  map_Forall (entry_wf base) (cacheCoins v).

(** Trees are known by their root. *)
Definition view_anchors_wf (base : CCoinsView) : Prop :=
  forall rt t, v_GetSaplingAnchorAt base rt = Some t -> tree_root t = rt.

Definition anchor_wf (base : CCoinsView) (rt : Z) (e : CAnchorsSaplingCacheEntry) : Prop :=
  tree_root (a_tree e) = rt /\
  (a_DIRTY e = false -> a_entered e = bool_decide (is_Some (v_GetSaplingAnchorAt base rt))).

Definition nullifier_wf (base : CCoinsView) (nf : Z) (e : CNullifiersCacheEntry) : Prop :=
  n_DIRTY e = false -> n_entered e = v_GetNullifier base nf.

Definition sapling_wf (base : CCoinsView) (v : CCoinsViewCache) : Prop :=
  view_anchors_wf base /\
  map_Forall (anchor_wf base) (cacheSaplingAnchors v) /\
  map_Forall (nullifier_wf base) (cacheSaplingNullifiers v).

End Denotation.

#[export] Hint Unfold entry_wf anchor_wf nullifier_wf : krova.

(** ** Operations on the denotation *)

Section CoinLaws.
Context `{SaplingTree} (base : CCoinsView).

Lemma unspent_Some c c' : unspent c = Some c' <-> c = Some c' /\ IsSpent c' = false.
Proof.
  destruct c as [c|]; cbn; [|naive_solver].
  destruct (IsSpent c) eqn:E; naive_solver congruence.
Qed.

Lemma unspent_coinEmpty : unspent (Some coinEmpty) = None.
Proof. reflexivity. Qed.

(** The denotation after one entry of the map is written. *)
Lemma utxo_insert v o e o' :
  utxo base (set_coins v (<[o := e]> (cacheCoins v))) o' =
  if decide (o = o') then unspent (Some (coin e)) else utxo base v o'.
Proof.
  unfold utxo, set_coins; cbn. case_decide; subst;
    [by rewrite lookup_insert_eq|by rewrite lookup_insert_ne].
Qed.

Lemma utxo_delete v o o' :
  utxo base (set_coins v (delete o (cacheCoins v))) o' =
  if decide (o = o') then unspent (v_GetCoin base o) else utxo base v o'.
Proof.
  unfold utxo, set_coins; cbn. case_decide; subst;
    [by rewrite lookup_delete_eq|by rewrite lookup_delete_ne].
Qed.

Lemma coins_wf_insert v o e :
  coins_wf base v -> entry_wf base o e -> coins_wf base (set_coins v (<[o := e]> (cacheCoins v))).
Proof. intros W E. apply map_Forall_insert_2; done. Qed.

Lemma coins_wf_delete v o : coins_wf base v -> coins_wf base (set_coins v (delete o (cacheCoins v))).
Proof. apply map_Forall_delete. Qed.

Lemma FetchCoin_wf v o : coins_wf base v -> coins_wf base (snd (FetchCoin base v o)).
Proof.
  unfold FetchCoin. intros W. destruct (cacheCoins v !! o); [done|].
  destruct (v_GetCoin base o) as [c|] eqn:E; [|done]. apply coins_wf_insert; [done|].
  split; cbn; rewrite E; [|done]. cbn. by intros ->.
Qed.

Lemma FetchCoin_utxo v o o' : utxo base (snd (FetchCoin base v o)) o' = utxo base v o'.
Proof.
  unfold FetchCoin. destruct (cacheCoins v !! o) eqn:E; [done|].
  destruct (v_GetCoin base o) as [c|] eqn:Eb; [|done]. cbn [snd]. rewrite utxo_insert.
  case_decide; subst; [|done]. unfold utxo. by rewrite E, Eb.
Qed.

Lemma FetchCoin_result v o : unspent (option_map coin (fst (FetchCoin base v o))) = utxo base v o.
Proof.
  unfold FetchCoin, utxo. destruct (cacheCoins v !! o) eqn:E; [done|].
  by destruct (v_GetCoin base o).
Qed.

Lemma GetUTXOCoin_spec v o : fst (GetUTXOCoin base v o) = utxo base v o.
Proof.
  rewrite <- FetchCoin_result. unfold GetUTXOCoin, GetCoin.
  destruct (FetchCoin base v o) as [[e|] v']; cbn; [|done]. by destruct (IsSpent (coin e)).
Qed.

(** The entry fetched is in the cache afterwards. *)
Lemma FetchCoin_lookup v o : cacheCoins (snd (FetchCoin base v o)) !! o = fst (FetchCoin base v o).
Proof.
  unfold FetchCoin. destruct (cacheCoins v !! o) eqn:E; [done|].
  destruct (v_GetCoin base o); cbn; [by rewrite lookup_insert_eq|done].
Qed.

Lemma HaveCoin_spec v o :
  fst (HaveCoin base v o) = bool_decide (is_Some (utxo base v o)).
Proof.
  rewrite <- FetchCoin_result. unfold HaveCoin.
  destruct (FetchCoin base v o) as [[e|] v']; cbn; [|done]. by destruct (IsSpent (coin e)).
Qed.

Lemma HaveCoin_state v o : snd (HaveCoin base v o) = snd (FetchCoin base v o).
Proof. unfold HaveCoin. by destruct (FetchCoin base v o). Qed.

Lemma AccessCoin_state v o : snd (AccessCoin base v o) = snd (FetchCoin base v o).
Proof. unfold AccessCoin. by destruct (FetchCoin base v o). Qed.

Lemma AccessCoin_spec v o : unspent (Some (fst (AccessCoin base v o))) = utxo base v o.
Proof.
  rewrite <- FetchCoin_result. unfold AccessCoin. by destruct (FetchCoin base v o) as [[e|] v'].
Qed.

(** *** Adding *)

Definition is_stored (c : Coin) : bool :=
  negb (IsUnspendable (scriptPubKey (coin_out c))) && negb (TxOut_IsZerocoinMint (coin_out c)).

Lemma AddCoin_Some v o c ow v' :
  AddCoin v o c ow = Some v' ->
  IsSpent c = false /\
  (is_stored c = false /\ v' = v \/
   is_stored c = true /\
   exists f, v' = set_coins v (<[o := {| coin := c; DIRTY := true; FRESH := f |}]> (cacheCoins v))).
Proof.
  unfold AddCoin, assert, is_stored. destruct (IsSpent c); [done|]. cbn. split; [done|].
  repeat case_match; simplify_eq/=; eauto 6.
Qed.

Lemma AddCoin_utxo v o c ow v' o' :
  AddCoin v o c ow = Some v' ->
  utxo base v' o' = if is_stored c && bool_decide (o = o') then Some c else utxo base v o'.
Proof.
  intros (S & [(-> & ->) | (-> & f & ->)])%AddCoin_Some; [done|]. rewrite utxo_insert. cbn.
  case_decide; [rewrite bool_decide_true by done; by rewrite S|by rewrite bool_decide_false].
Qed.

Lemma AddCoin_wf v o c ow v' :
  AddCoin v o c ow = Some v' -> coins_wf base v -> (ow = false -> utxo base v o = None) ->
  coins_wf base v'.
Proof.
  intros A W P. unfold AddCoin, assert in A. destruct (IsSpent c); [done|]. cbn in A.
  repeat (case_match; simplify_eq/=; try done).
  all: apply coins_wf_insert; [done|split; cbn; [|done]].
  all: unfold utxo in P; destruct (cacheCoins v !! o) as [e|] eqn:E; cbn in *; try (specialize (W _ _ E) as [W1 W2]).
  - destruct (DIRTY e); cbn; [rewrite orb_false_r; auto|].
    destruct (IsSpent (coin e)) eqn:S; [|done]. intros _. rewrite <- W2 by done. cbn. by rewrite S.
  - destruct ow; [done|]. intros _. by apply P.
  - rewrite orb_false_r. auto.
  - done.
Qed.

Lemma AddCoin_total v o c ow :
  IsSpent c = false -> (ow = false -> utxo base v o = None) -> is_Some (AddCoin v o c ow).
Proof.
  intros S P. unfold AddCoin, assert. rewrite S. cbn. repeat case_match; try (eexists; reflexivity).
  all: destruct ow; [done|]. unfold utxo in P. destruct (cacheCoins v !! o) as [e|]; cbn in *; [|done].
  destruct (IsSpent (coin e)); [done|]. by specialize (P eq_refl).
Qed.

(** *** Spending *)

Lemma SpendCoin_result v o : unspent (fst (SpendCoin base v o)) = utxo base v o.
Proof.
  rewrite <- FetchCoin_result. unfold SpendCoin. by destruct (FetchCoin base v o) as [[e|] v'].
Qed.

Lemma SpendCoin_wf v o : coins_wf base v -> coins_wf base (snd (SpendCoin base v o)).
Proof.
  intros W%(FetchCoin_wf v o). unfold SpendCoin.
  pose proof (FetchCoin_lookup v o) as L. destruct (FetchCoin base v o) as [[e|] v']; cbn in *; [|done].
  destruct (FRESH e) eqn:F; [by apply coins_wf_delete|].
  apply coins_wf_insert; [done|]. by split.
Qed.

Lemma SpendCoin_utxo v o o' :
  coins_wf base v ->
  utxo base (snd (SpendCoin base v o)) o' = if decide (o = o') then None else utxo base v o'.
Proof.
  intros W%(FetchCoin_wf v o). rewrite <- (FetchCoin_utxo v o o'). unfold SpendCoin.
  pose proof (FetchCoin_lookup v o) as L.
  pose proof (FetchCoin_result v o) as R. rewrite <- (FetchCoin_utxo v o o) in R.
  destruct (FetchCoin base v o) as [[e|] v']; cbn [fst snd option_map] in *.
  - destruct (FRESH e) eqn:F; [rewrite utxo_delete|by rewrite utxo_insert].
    case_decide; [|done]. by apply (W _ _ L).
  - case_decide; subst; [|done]. by rewrite <- R.
Qed.

Lemma Uncache_utxo v o o' : coins_wf base v -> utxo base (Uncache v o) o' = utxo base v o'.
Proof.
  intros W. unfold Uncache. destruct (cacheCoins v !! o) as [e|] eqn:E; [|done].
  destruct (DIRTY e) eqn:D, (FRESH e); try done. cbn. rewrite utxo_delete.
  case_decide; subst; [|done]. unfold utxo. rewrite E. symmetry. by apply (W _ _ E).
Qed.

Lemma Uncache_wf v o : coins_wf base v -> coins_wf base (Uncache v o).
Proof.
  intros W. unfold Uncache. destruct (cacheCoins v !! o) as [e|]; [|done].
  case_match; [by apply coins_wf_delete|done].
Qed.

End CoinLaws.

(** ** Flushing *)

Section FlushLaws.
Context `{SaplingTree}.

(** What one dirty child entry makes of the parent's entry, and when the
    write throws. *)
Definition merged (p : option CCoinsCacheEntry) (e : CCoinsCacheEntry) : option CCoinsCacheEntry :=
  if negb (DIRTY e) then p
  else
    if default (FRESH e) (FRESH <$> p) && IsSpent (coin e) then None
    else Some {| coin := coin e; DIRTY := true; FRESH := default (FRESH e) (FRESH <$> p) |}.

Definition clash (p : option CCoinsCacheEntry) (e : CCoinsCacheEntry) : bool :=
  DIRTY e && FRESH e && negb (default true (IsSpent ∘ coin <$> p)).

Lemma BatchWriteCoin_eq us o e :
  BatchWriteCoin us (o, e) =
  if clash (us !! o) e then None else Some (partial_alter (fun p => merged p e) o us).
Proof.
  unfold BatchWriteCoin, clash, merged. destruct (DIRTY e); cbn;
    [|by rewrite partial_alter_id].
  assert (delete_none : us !! o = None -> partial_alter (fun _ => None) o us = us).
  { intros E. apply map_eq. intros k. destruct (decide (o = k)); subst;
      [by rewrite lookup_partial_alter_eq|by rewrite lookup_partial_alter_ne]. }
  destruct (us !! o) as [p|] eqn:E; cbn.
  - destruct (FRESH e && negb (IsSpent (coin p))); [done|].
    destruct (FRESH p && IsSpent (coin e)) eqn:F; f_equal; apply partial_alter_ext; intros x;
      rewrite E; intros <-; cbn; by rewrite F.
  - rewrite andb_false_r. destruct (FRESH e && IsSpent (coin e)) eqn:F; f_equal.
    + rewrite <- (delete_none eq_refl) at 1. apply partial_alter_ext. intros x.
      rewrite E. intros <-. cbn. by rewrite F.
    + apply partial_alter_ext. intros x. rewrite E. intros <-. cbn. by rewrite F.
Qed.

Lemma BatchWriteCoins_spec l : forall us,
  NoDup l.*1 ->
  Forall (fun it => clash (us !! it.1) it.2 = false) l ->
  exists us', BatchWriteCoins us l = Some us' /\
    forall o, us' !! o = match (list_to_map l : gmap COutPoint CCoinsCacheEntry) !! o with
                         | Some e => merged (us !! o) e | None => us !! o end.
Proof.
  induction l as [|[o e] l IH]; intros us ND C; [by exists us|].
  apply NoDup_cons in ND as [NI ND]. apply Forall_cons in C as [C0 C]. cbn [fst snd] in *.
  cbn [BatchWriteCoins]. rewrite BatchWriteCoin_eq, C0. cbn [mbind option_bind].
  destruct (IH (partial_alter (fun p => merged p e) o us) ND) as (us' & -> & L).
  { apply Forall_forall. intros [k c] I. rewrite lookup_partial_alter_ne.
    - by apply (proj1 (Forall_forall _ _) C _ I).
    - intros ->. apply NI. apply list_elem_of_fmap. by exists (k, c). }
  exists us'. split; [done|]. intros k. rewrite L. cbn [list_to_map foldr].
  destruct (decide (o = k)) as [->|]; cbn.
  - rewrite lookup_insert_eq, not_elem_of_list_to_map_1 by done. by rewrite lookup_partial_alter_eq.
  - rewrite lookup_insert_ne by done. by rewrite lookup_partial_alter_ne.
Qed.

(** A merge under the invariants keeps the invariant over the grandparent
    and shows what the child showed. *)
Lemma merged_wf (base : CCoinsView) o p e (seen := match p with Some p => Some (coin p) | None => v_GetCoin base o end) :
  (forall q, p = Some q -> entry_wf base o q) ->
  (FRESH e = true -> unspent seen = None) ->
  (DIRTY e = false -> unspent (Some (coin e)) = unspent seen) ->
  clash p e = false /\
  (forall q, merged p e = Some q -> entry_wf base o q) /\
  unspent (match merged p e with Some q => Some (coin q) | None => v_GetCoin base o end) =
  unspent (Some (coin e)).
Proof.
  intros P F D. unfold clash, merged. destruct (DIRTY e) eqn:ED; cbn.
  2: { split; [done|split; [done|]]. symmetry. by apply D. }
  assert (G : default (FRESH e) (FRESH <$> p) = true -> unspent (v_GetCoin base o) = None).
  { destruct p as [p|]; cbn in *; [|done]. by apply P. }
  split; [|split].
  - destruct p as [p|]; cbn in *; [|by rewrite andb_false_r].
    destruct (FRESH e), (IsSpent (coin p)); try done. by specialize (F eq_refl).
  - intros q. case_match; [done|]. intros [= <-]. by split.
  - destruct (_ && _) eqn:EQ; [|done]. cbn. apply andb_true_iff in EQ as [E1 ->]. by apply G.
Qed.

Lemma lookup_cache_view base v o :
  v_GetCoin (cache_view base v) o =
  match cacheCoins v !! o with Some e => Some (coin e) | None => v_GetCoin base o end.
Proof.
  cbn. unfold GetCoin, FetchCoin. destruct (cacheCoins v !! o); [done|]. by destruct (v_GetCoin base o).
Qed.

(** A read of the parent does not change its answers to the child. *)
Lemma cache_view_FetchCoin base v o o' :
  v_GetCoin (cache_view base (snd (FetchCoin base v o))) o' = v_GetCoin (cache_view base v) o'.
Proof.
  rewrite !lookup_cache_view. unfold FetchCoin. destruct (cacheCoins v !! o) eqn:E; [done|].
  destruct (v_GetCoin base o) eqn:B; [|done]. cbn. destruct (decide (o = o')) as [->|].
  - by rewrite lookup_insert_eq, E, B.
  - by rewrite lookup_insert_ne.
Qed.

Lemma utxo_cache_view base v o : unspent (v_GetCoin (cache_view base v) o) = utxo base v o.
Proof. by rewrite lookup_cache_view. Qed.

(** One merge, read off the maps. *)
Lemma flush_entry base parent v o e :
  coins_wf base parent -> coins_wf (cache_view base parent) v -> cacheCoins v !! o = Some e ->
  clash (cacheCoins parent !! o) e = false /\
  (forall q, merged (cacheCoins parent !! o) e = Some q -> entry_wf base o q) /\
  unspent (match merged (cacheCoins parent !! o) e with Some q => Some (coin q) | None => v_GetCoin base o end) =
  unspent (Some (coin e)).
Proof.
  intros WP WV E. specialize (WV _ _ E) as [F D]. rewrite lookup_cache_view in F, D.
  apply merged_wf; [|exact F|exact D]. intros q Q. by apply WP.
Qed.

Lemma BatchWriteCoins_flush base parent v :
  coins_wf base parent -> coins_wf (cache_view base parent) v ->
  exists us, BatchWriteCoins (cacheCoins parent) (map_to_list (cacheCoins v)) = Some us /\
    map_Forall (entry_wf base) us /\
    forall o, unspent (match us !! o with Some e => Some (coin e) | None => v_GetCoin base o end) =
              utxo (cache_view base parent) v o.
Proof.
  intros WP WV.
  destruct (BatchWriteCoins_spec (map_to_list (cacheCoins v)) (cacheCoins parent)) as (us & E & L).
  { apply NoDup_fst_map_to_list. }
  { apply Forall_forall. intros [o e] I%elem_of_map_to_list. by eapply flush_entry. }
  rewrite list_to_map_to_list in L. exists us. split; [done|split].
  - intros o q Q. rewrite L in Q. destruct (cacheCoins v !! o) as [e|] eqn:EV; [|by apply WP].
    by eapply flush_entry.
  - intros o. rewrite L. unfold utxo. destruct (cacheCoins v !! o) as [e|] eqn:EV.
    + by eapply flush_entry.
    + by rewrite lookup_cache_view.
Qed.

(** *** Nullifiers and anchors *)

(** A fold of writes at distinct keys, read back at one key. *)
Lemma lookup_foldl_writes {A} (step : gmap Z A -> Z * A -> gmap Z A) (f : option A -> A -> option A) l :
  (forall m k a k', step m (k, a) !! k' = if decide (k = k') then f (m !! k) a else m !! k') ->
  forall m k, NoDup l.*1 ->
  foldl step m l !! k =
  match (list_to_map l : gmap Z A) !! k with Some a => f (m !! k) a | None => m !! k end.
Proof.
  intros S. induction l as [|[k0 a] l IH]; intros m k ND; [done|].
  apply NoDup_cons in ND as [NI ND]. cbn [foldl list_to_map foldr fst] in *.
  rewrite IH, S by done. cbn. destruct (decide (k0 = k)) as [->|].
  - by rewrite lookup_insert_eq, not_elem_of_list_to_map_1.
  - by rewrite lookup_insert_ne.
Qed.

Definition merged_nullifier (p : option CNullifiersCacheEntry) (e : CNullifiersCacheEntry)
  : option CNullifiersCacheEntry :=
  if negb (n_DIRTY e) then p
  else Some (match p with
             | Some p => if Bool.eqb (n_entered p) (n_entered e) then p
                         else {| n_entered := n_entered e; n_DIRTY := true |}
             | None => {| n_entered := n_entered e; n_DIRTY := true |}
             end).

Lemma lookup_BatchWriteNullifiers (m us : gmap Z CNullifiersCacheEntry) k :
  BatchWriteNullifiers (map_to_list m) us !! k =
  match m !! k with Some e => merged_nullifier (us !! k) e | None => us !! k end.
Proof.
  unfold BatchWriteNullifiers.
  rewrite (lookup_foldl_writes _ merged_nullifier), list_to_map_to_list;
    [done| |apply NoDup_fst_map_to_list].
  intros m' k0 a k'. unfold BatchWriteNullifier, merged_nullifier.
  repeat (case_match || case_decide); simplify_eq/=; simplify_map_eq; done.
Qed.

Definition merged_anchor (p : option CAnchorsSaplingCacheEntry) (e : CAnchorsSaplingCacheEntry)
  : option CAnchorsSaplingCacheEntry :=
  if negb (a_DIRTY e) then p
  else Some (match p with
             | Some p => if Bool.eqb (a_entered p) (a_entered e) then p
                         else {| a_entered := a_entered e; a_tree := a_tree p; a_DIRTY := true |}
             | None => {| a_entered := a_entered e; a_tree := a_tree e; a_DIRTY := true |}
             end).

Lemma lookup_BatchWriteAnchors (m us : gmap Z CAnchorsSaplingCacheEntry) k :
  BatchWriteAnchors (map_to_list m) us !! k =
  match m !! k with Some e => merged_anchor (us !! k) e | None => us !! k end.
Proof.
  unfold BatchWriteAnchors.
  rewrite (lookup_foldl_writes _ merged_anchor), list_to_map_to_list;
    [done| |apply NoDup_fst_map_to_list].
  intros m' k0 a k'. unfold BatchWriteAnchor, merged_anchor.
  repeat (case_match || case_decide); simplify_eq/=; simplify_map_eq; done.
Qed.

Lemma GetNullifier_spec base v nf : fst (GetNullifier base v nf) = nullified base v nf.
Proof. unfold GetNullifier, nullified. by destruct (cacheSaplingNullifiers v !! nf). Qed.

Lemma GetSaplingAnchorAt_spec base v rt : fst (GetSaplingAnchorAt base v rt) = anchor_tree base v rt.
Proof.
  unfold GetSaplingAnchorAt, anchor_tree. destruct (cacheSaplingAnchors v !! rt); [done|].
  by destruct (v_GetSaplingAnchorAt base rt).
Qed.

Lemma anchor_tree_root base v rt t : sapling_wf base v -> anchor_tree base v rt = Some t -> tree_root t = rt.
Proof.
  intros (WB & WA & _). unfold anchor_tree. destruct (cacheSaplingAnchors v !! rt) as [e|] eqn:E; [|apply WB].
  destruct (a_entered e); [|done]. intros [= <-]. by apply (WA _ _ E).
Qed.

Lemma flush_nullifiers base parent v :
  sapling_wf base parent -> sapling_wf (cache_view base parent) v ->
  let us := BatchWriteNullifiers (map_to_list (cacheSaplingNullifiers v)) (cacheSaplingNullifiers parent) in
  map_Forall (nullifier_wf base) us /\
  forall nf, match us !! nf with Some e => n_entered e | None => v_GetNullifier base nf end =
             nullified (cache_view base parent) v nf.
Proof.
  intros (_ & _ & WP) (_ & _ & WV) us.
  assert (V : forall nf, v_GetNullifier (cache_view base parent) nf = nullified base parent nf)
    by (intros; apply GetNullifier_spec).
  split.
  - intros nf e. unfold us. rewrite lookup_BatchWriteNullifiers. intros L D.
    destruct (cacheSaplingNullifiers v !! nf) as [c|]; [|by apply (WP nf)].
    unfold merged_nullifier in L. repeat case_match; simplify_eq/=; try done; by apply (WP nf).
  - intros nf. unfold us, nullified. rewrite lookup_BatchWriteNullifiers.
    destruct (cacheSaplingNullifiers v !! nf) as [c|] eqn:EV; [|by rewrite V].
    specialize (WV _ _ EV). unfold nullifier_wf in WV. rewrite V in WV. unfold nullified in WV.
    unfold merged_nullifier. destruct (n_DIRTY c); cbn; [|by rewrite WV].
    destruct (cacheSaplingNullifiers parent !! nf) as [p|]; [|done].
    case_match eqn:EQ; [by apply eqb_prop in EQ|done].
Qed.

Lemma flush_anchors base parent v :
  sapling_wf base parent -> sapling_wf (cache_view base parent) v ->
  let us := BatchWriteAnchors (map_to_list (cacheSaplingAnchors v)) (cacheSaplingAnchors parent) in
  map_Forall (anchor_wf base) us /\
  forall rt, is_Some (match us !! rt with Some e => if a_entered e then Some (a_tree e) else None
                                     | None => v_GetSaplingAnchorAt base rt end) <->
             is_Some (anchor_tree (cache_view base parent) v rt).
Proof.
  intros (WB & WP & _) (_ & WV & _) us.
  assert (V : forall rt, v_GetSaplingAnchorAt (cache_view base parent) rt = anchor_tree base parent rt)
    by (intros; apply GetSaplingAnchorAt_spec).
  split.
  - intros rt e. unfold us. rewrite lookup_BatchWriteAnchors. intros L.
    destruct (cacheSaplingAnchors v !! rt) as [c|] eqn:EV; [|by apply WP].
    specialize (WV _ _ EV) as [RT _]. unfold merged_anchor in L.
    repeat case_match; simplify_eq/=; try (by apply WP); split; try done; cbn; by eapply WP.
  - intros rt. unfold us, anchor_tree. rewrite lookup_BatchWriteAnchors.
    destruct (cacheSaplingAnchors v !! rt) as [c|] eqn:EV; [|by rewrite V].
    specialize (WV _ _ EV) as [_ WV]. rewrite V in WV. unfold anchor_tree in WV.
    unfold merged_anchor. destruct (a_DIRTY c); cbn.
    2: { rewrite WV by done. by destruct (decide (is_Some (match cacheSaplingAnchors parent !! rt with
           Some e => if a_entered e then Some (a_tree e) else None | None => v_GetSaplingAnchorAt base rt end)));
         [rewrite bool_decide_true|rewrite bool_decide_false]. }
    destruct (cacheSaplingAnchors parent !! rt) as [p|]; [|done].
    destruct (a_entered p) eqn:E1, (a_entered c) eqn:E2; cbn; by rewrite ?E1, ?E2.
Qed.

End FlushLaws.

(** ** Refinement of the abstract chain state

    What the stack of caches promises its clients: a map of unspent coins, a
    set of revealed nullifiers, a set of valid anchors with a best one, and
    the best block. *)

Record ChainState := {
  cs_coins : COutPoint -> option Coin;
  cs_nullifiers : Z -> bool;
  cs_anchors : Z -> bool;
  cs_best_anchor : Z;
  cs_best_block : Z
}.

#[export] Instance ChainState_equiv : Equiv ChainState := fun s t =>
  (forall o, cs_coins s o = cs_coins t o) /\
  (forall nf, cs_nullifiers s nf = cs_nullifiers t nf) /\
  (forall rt, cs_anchors s rt = cs_anchors t rt) /\
  cs_best_anchor s = cs_best_anchor t /\ cs_best_block s = cs_best_block t.

#[export] Instance ChainState_equivalence : Equivalence (≡@{ChainState}).
Proof.
  split.
  - by intros s.
  - intros s t (?&?&?&?&?). by repeat split.
  - intros s t u (H1&H2&H3&H4&H5) (K1&K2&K3&K4&K5).
    repeat split; intros; [by rewrite H1|by rewrite H2|by rewrite H3|by rewrite H4|by rewrite H5].
Qed.

Definition upd {A} `{EqDecision K} (f : K -> A) (k : K) (a : A) : K -> A :=
  fun k' => if decide (k = k') then a else f k'.

Inductive cache_op `{SaplingTree} :=
  | OpAccessCoin (o : COutPoint)
  | OpHaveCoin (o : COutPoint)
  | OpAddCoin (o : COutPoint) (c : Coin) (possible_overwrite : bool)
  | OpSpendCoin (o : COutPoint)
  | OpUncache (o : COutPoint)
  | OpGetNullifier (nf : Z)
  | OpSetNullifiers (tx : CTransaction) (spent : bool)
  | OpGetSaplingAnchorAt (rt : Z)
  | OpPushAnchor (tree : SaplingMerkleTree)
  | OpPopAnchor (rt : Z)
  | OpSetBestBlock (h : Z).

Section Refinement.
Context `{SaplingTree}.

Definition run_op (base : CCoinsView) (v : CCoinsViewCache) (op : cache_op) : option CCoinsViewCache :=
  match op with
  | OpAccessCoin o => Some (snd (AccessCoin base v o))
  | OpHaveCoin o => Some (snd (HaveCoin base v o))
  | OpAddCoin o c ow => AddCoin v o c ow
  | OpSpendCoin o => Some (snd (SpendCoin base v o))
  | OpUncache o => Some (Uncache v o)
  | OpGetNullifier nf => Some (snd (GetNullifier base v nf))
  | OpSetNullifiers tx spent => Some (SetNullifiers v tx spent)
  | OpGetSaplingAnchorAt rt => Some (snd (GetSaplingAnchorAt base v rt))
  | OpPushAnchor tree => Some (PushAnchor base v tree)
  | OpPopAnchor rt => PopAnchor base v rt
  | OpSetBestBlock h => Some (SetBestBlock v h)
  end.

Definition set_cs_coins s f := {| cs_coins := f; cs_nullifiers := cs_nullifiers s; cs_anchors := cs_anchors s;
  cs_best_anchor := cs_best_anchor s; cs_best_block := cs_best_block s |}.
Definition set_cs_nullifiers s f := {| cs_coins := cs_coins s; cs_nullifiers := f; cs_anchors := cs_anchors s;
  cs_best_anchor := cs_best_anchor s; cs_best_block := cs_best_block s |}.
Definition set_cs_anchors s f h := {| cs_coins := cs_coins s; cs_nullifiers := cs_nullifiers s; cs_anchors := f;
  cs_best_anchor := h; cs_best_block := cs_best_block s |}.

Definition tx_nullifiers (tx : CTransaction) : list Z :=
  match sapData tx with Some d => sd_nullifier <$> vShieldedSpend d | None => [] end.

Definition spec_op (s : ChainState) (op : cache_op) : ChainState :=
  match op with
  | OpAddCoin o c _ => if is_stored c then set_cs_coins s (upd (cs_coins s) o (Some c)) else s
  | OpSpendCoin o => set_cs_coins s (upd (cs_coins s) o None)
  | OpSetNullifiers tx spent =>
      set_cs_nullifiers s (fun nf => if bool_decide (nf ∈ tx_nullifiers tx) then spent else cs_nullifiers s nf)
  | OpPushAnchor tree =>
      if cs_best_anchor s =? tree_root tree then s
      else set_cs_anchors s (upd (cs_anchors s) (tree_root tree) true) (tree_root tree)
  | OpPopAnchor rt =>
      if cs_best_anchor s =? rt then s
      else set_cs_anchors s (upd (cs_anchors s) (cs_best_anchor s) false) rt
  | OpSetBestBlock h => {| cs_coins := cs_coins s; cs_nullifiers := cs_nullifiers s;
      cs_anchors := cs_anchors s; cs_best_anchor := cs_best_anchor s; cs_best_block := h |}
  | _ => s
  end.

(** What a caller owes: a coin is added unspent, and, unless it may
    overwrite, where there is none; the anchor that is popped is valid; the
    null hash is neither an anchor nor a block. *)
Definition legal_op (s : ChainState) (op : cache_op) : Prop :=
  match op with
  | OpAddCoin o c ow => IsSpent c = false /\ (ow = false -> cs_coins s o = None)
  | OpPushAnchor tree => tree_root tree <> 0
  | OpPopAnchor rt => rt <> 0 /\ cs_anchors s (cs_best_anchor s) = true
  | OpSetBestBlock h => h <> 0
  | _ => True
  end.

Fixpoint run_ops (base : CCoinsView) (v : CCoinsViewCache) (ops : list cache_op) : option CCoinsViewCache :=
  match ops with [] => Some v | op :: ops => v ← run_op base v op; run_ops base v ops end.

Fixpoint legal_ops (s : ChainState) (ops : list cache_op) : Prop :=
  match ops with [] => True | op :: ops => legal_op s op /\ legal_ops (spec_op s op) ops end.

Definition denote (base : CCoinsView) (v : CCoinsViewCache) : ChainState := {|
  cs_coins := utxo base v;
  cs_nullifiers := nullified base v;
  cs_anchors := fun rt => bool_decide (is_Some (anchor_tree base v rt));
  cs_best_anchor := fst (GetBestAnchor base v);
  cs_best_block := fst (GetBestBlock base v)
|}.

Definition cache_wf (base : CCoinsView) (v : CCoinsViewCache) : Prop :=
  coins_wf base v /\ sapling_wf base v.

#[export] Instance spec_op_proper : Proper ((≡) ==> (=) ==> (≡)) spec_op.
Proof.
  intros s t (H1&H2&H3&H4&H5) op ? <-. destruct op; cbn; try (by repeat split).
  - case_match; repeat split; try done. intros x. cbn. unfold upd. by case_decide.
  - repeat split; try done. intros x. cbn. unfold upd. by case_decide.
  - repeat split; try done. intros x. cbn. by case_match.
  - rewrite H4. case_match; repeat split; try done. intros x. cbn. unfold upd. by case_decide.
  - rewrite H4. case_match; repeat split; try done. intros x. cbn. unfold upd. by case_decide.
Qed.

Lemma legal_op_proper s t op : s ≡ t -> legal_op s op -> legal_op t op.
Proof.
  intros (H1&H2&H3&H4&H5). destruct op; cbn; try done.
  - by rewrite H1.
  - by rewrite H3, H4.
Qed.

Lemma legal_ops_proper ops : forall s t, s ≡ t -> legal_ops s ops -> legal_ops t ops.
Proof.
  induction ops as [|op ops IH]; intros s t E; [done|]. cbn. intros [L R]. split.
  - by eapply legal_op_proper.
  - eapply IH, R. by rewrite E.
Qed.

(** Coin operations leave the Sapling part, and conversely. *)
Lemma refine_coins base v v' (f : COutPoint -> option Coin) :
  (exists m, v' = set_coins v m) -> coins_wf base v' -> (forall o, utxo base v' o = f o) ->
  cache_wf base v -> cache_wf base v' /\ denote base v' ≡ set_cs_coins (denote base v) f.
Proof. intros [m ->] W U [_ S]. split; [by split|by repeat split]. Qed.

Lemma set_coins_same v : exists m, v = set_coins v m.
Proof. exists (cacheCoins v). by destruct v. Qed.

Lemma FetchCoin_set base v o : exists m, snd (FetchCoin base v o) = set_coins v m.
Proof.
  unfold FetchCoin. repeat case_match; [apply set_coins_same|eexists; reflexivity|apply set_coins_same].
Qed.

Lemma SpendCoin_set base v o : exists m, snd (SpendCoin base v o) = set_coins v m.
Proof.
  destruct (FetchCoin_set base v o) as [m E]. unfold SpendCoin.
  destruct (FetchCoin base v o) as [[e|] v']; cbn in *; subst; eexists; reflexivity.
Qed.

Lemma Uncache_set v o : exists m, Uncache v o = set_coins v m.
Proof. unfold Uncache. repeat case_match; try apply set_coins_same. eexists; reflexivity. Qed.

Lemma AddCoin_set v o c ow v' : AddCoin v o c ow = Some v' -> exists m, v' = set_coins v m.
Proof. intros (_ & [(_ & ->)|(_ & f & ->)])%AddCoin_Some; [apply set_coins_same|eexists; reflexivity]. Qed.

Lemma refines_intro base v s :
  coins_wf base v -> view_anchors_wf base -> map_Forall (anchor_wf base) (cacheSaplingAnchors v) ->
  map_Forall (nullifier_wf base) (cacheSaplingNullifiers v) ->
  (forall o, utxo base v o = cs_coins s o) -> (forall nf, nullified base v nf = cs_nullifiers s nf) ->
  (forall rt, cs_anchors (denote base v) rt = cs_anchors s rt) ->
  cs_best_anchor (denote base v) = cs_best_anchor s -> cs_best_block (denote base v) = cs_best_block s ->
  cache_wf base v /\ denote base v ≡ s.
Proof. done. Qed.

Lemma GetNullifier_refines base v nf :
  cache_wf base v ->
  cache_wf base (snd (GetNullifier base v nf)) /\ denote base (snd (GetNullifier base v nf)) ≡ denote base v.
Proof.
  intros (WC & WB & WA & WN). unfold GetNullifier. destruct (cacheSaplingNullifiers v !! nf) eqn:E; [done|].
  apply refines_intro; try done.
  - apply map_Forall_insert_2; done.
  - cbn. unfold nullified. cbn. intros k. destruct (decide (nf = k)) as [->|].
    + by rewrite lookup_insert_eq, E.
    + by rewrite lookup_insert_ne.
Qed.

Lemma lookup_SetNullifiers spent l : forall m nf,
  foldl (SetNullifier spent) m l !! nf =
  if bool_decide (nf ∈ sd_nullifier <$> l) then Some {| n_entered := spent; n_DIRTY := true |} else m !! nf.
Proof.
  induction l as [|s l IH]; intros m nf; [done|]. cbn [foldl]. rewrite IH. unfold SetNullifier.
  destruct (decide (nf ∈ sd_nullifier <$> l)) as [I|I].
  - rewrite !bool_decide_true; [done|set_solver|done].
  - rewrite (bool_decide_false _ I). destruct (decide (nf = sd_nullifier s)) as [->|].
    + rewrite lookup_insert_eq, bool_decide_true by set_solver. done.
    + rewrite lookup_insert_ne, bool_decide_false by set_solver. done.
Qed.

Lemma SetNullifiers_refines base v tx spent :
  cache_wf base v ->
  cache_wf base (SetNullifiers v tx spent) /\
  denote base (SetNullifiers v tx spent) ≡ spec_op (denote base v) (OpSetNullifiers tx spent).
Proof.
  intros (WC & WB & WA & WN). cbn. unfold SetNullifiers, tx_nullifiers.
  destruct (sapData tx) as [d|]; apply refines_intro; try done.
  - intros nf e. cbn. rewrite lookup_SetNullifiers. case_bool_decide; [by intros [= <-]|apply WN].
  - intros nf. cbn. unfold nullified. cbn. rewrite lookup_SetNullifiers. by case_bool_decide.
Qed.

(** Writing one anchor entry. *)
Lemma set_anchors_refines base v h rt e :
  cache_wf base v -> anchor_wf base rt e -> h <> 0 ->
  let v' := set_anchors v h (<[rt := e]> (cacheSaplingAnchors v)) in
  cache_wf base v' /\
  denote base v' ≡ set_cs_anchors (denote base v) (upd (cs_anchors (denote base v)) rt (a_entered e)) h.
Proof.
  intros (WC & WB & WA & WN) WE NZ v'. apply refines_intro; try done.
  - by apply map_Forall_insert_2.
  - intros k. cbn. unfold anchor_tree, upd. cbn. case_decide; subst.
    + rewrite lookup_insert_eq. by destruct (a_entered e).
    + by rewrite lookup_insert_ne.
  - cbn. by rewrite (proj2 (Z.eqb_neq _ _)).
Qed.

Lemma GetBestAnchor_refines base v :
  cache_wf base v ->
  cache_wf base (snd (GetBestAnchor base v)) /\ denote base (snd (GetBestAnchor base v)) ≡ denote base v.
Proof.
  intros (WC & WB & WA & WN). apply refines_intro; try done. cbn.
  destruct (hashSaplingAnchor v =? 0) eqn:E; [|by rewrite E]. by case_match.
Qed.

Lemma GetSaplingAnchorAt_refines base v rt :
  cache_wf base v ->
  cache_wf base (snd (GetSaplingAnchorAt base v rt)) /\
  denote base (snd (GetSaplingAnchorAt base v rt)) ≡ denote base v.
Proof.
  intros (WC & WB & WA & WN). unfold GetSaplingAnchorAt.
  destruct (cacheSaplingAnchors v !! rt) eqn:E; [done|].
  destruct (v_GetSaplingAnchorAt base rt) as [t|] eqn:T; [|done]. apply refines_intro; try done.
  - apply map_Forall_insert_2; [|done]. split; cbn; [by apply WB|by rewrite T].
  - intros k. cbn. unfold anchor_tree. cbn. destruct (decide (rt = k)) as [->|].
    + by rewrite lookup_insert_eq, E, T.
    + by rewrite lookup_insert_ne.
Qed.

Lemma PushAnchor_refines base v tree :
  cache_wf base v -> tree_root tree <> 0 ->
  cache_wf base (PushAnchor base v tree) /\
  denote base (PushAnchor base v tree) ≡ spec_op (denote base v) (OpPushAnchor tree).
Proof.
  intros W NZ. destruct (GetBestAnchor_refines base v W) as [W' E]. unfold PushAnchor.
  rewrite <- (spec_op_proper _ _ E _ _ eq_refl).
  pose proof (proj1 (proj2 (proj2 (proj2 E)))) as B. cbn [cs_best_anchor denote] in B.
  destruct (GetBestAnchor base v) as [h v'] eqn:G; cbn [fst snd] in *.
  cbn [spec_op]. cbn [cs_best_anchor denote]. rewrite B. destruct (h =? tree_root tree); cbn [negb]; [done|].
  by apply (set_anchors_refines base v' _ _ {| a_entered := true; a_tree := tree; a_DIRTY := true |}).
Qed.

Lemma PopAnchor_refines base v rt :
  cache_wf base v -> legal_op (denote base v) (OpPopAnchor rt) ->
  exists v', PopAnchor base v rt = Some v' /\ cache_wf base v' /\
    denote base v' ≡ spec_op (denote base v) (OpPopAnchor rt).
Proof.
  intros W [NZ L]. destruct (GetBestAnchor_refines base v W) as [W1 E1]. unfold PopAnchor.
  cbn [spec_op]. cbn [cs_best_anchor denote] in L |- *.
  destruct (GetBestAnchor base v) as [h v1] eqn:G; cbn [fst snd] in *.
  destruct (h =? rt); cbn [negb]; [by exists v1|].
  destruct (GetSaplingAnchorAt_refines base v1 h W1) as [W2 E2].
  pose proof (GetSaplingAnchorAt_spec base v1 h) as S.
  destruct (GetSaplingAnchorAt base v1 h) as [found v2] eqn:G2; cbn [fst snd] in *.
  pose proof (proj1 (proj2 (proj2 E1)) h) as A1. cbn in A1, L. rewrite L, <- S in A1.
  destruct found as [tree|]; [|done]. eexists. split; [done|].
  destruct (set_anchors_refines base v2 rt h {| a_entered := false; a_tree := tree; a_DIRTY := true |})
    as [W3 E3]; [done| |done|].
  { split; [|done]. eapply (anchor_tree_root base v1); [apply W1|done]. }
  split; [exact W3|]. rewrite E3.
  assert (E : denote base v2 ≡ denote base v) by by rewrite E2.
  destruct E as (D1 & D2 & D3 & D4 & D5). repeat split; try done.
  intros k. cbn [cs_anchors set_cs_anchors]. unfold upd. by case_decide.
Qed.

Lemma run_op_refines base v op :
  cache_wf base v -> legal_op (denote base v) op ->
  exists v', run_op base v op = Some v' /\ cache_wf base v' /\ denote base v' ≡ spec_op (denote base v) op.
Proof.
  intros W L. pose proof (proj1 W) as WC.
  assert (K : forall v', (exists m, v' = set_coins v m) -> coins_wf base v' ->
    (forall o, utxo base v' o = utxo base v o) -> cache_wf base v' /\ denote base v' ≡ denote base v)
    by (intros; by apply refine_coins).
  destruct op; cbn [run_op] in *; try (eexists; split; [reflexivity|]).
  - apply K; rewrite AccessCoin_state; auto using FetchCoin_set, FetchCoin_wf, FetchCoin_utxo.
  - apply K; rewrite HaveCoin_state; auto using FetchCoin_set, FetchCoin_wf, FetchCoin_utxo.
  - destruct L as [S P]. destruct (AddCoin_total base v o c possible_overwrite) as [v' A]; [done|done|].
    exists v'. split; [done|]. cbn [spec_op].
    assert (U := fun o' => AddCoin_utxo base v o c possible_overwrite v' o' A).
    assert (W' := AddCoin_wf base v o c possible_overwrite v' A WC P).
    destruct (is_stored c); [|apply K; eauto using AddCoin_set].
    apply refine_coins; eauto using AddCoin_set. intros o'. rewrite U. unfold upd. cbn.
    by repeat (case_bool_decide || case_decide).
  - cbn [spec_op]. apply refine_coins; auto using SpendCoin_set, SpendCoin_wf.
    intros o'. by rewrite SpendCoin_utxo.
  - apply K; auto using Uncache_set, Uncache_wf, Uncache_utxo.
  - by apply GetNullifier_refines.
  - by apply SetNullifiers_refines.
  - by apply GetSaplingAnchorAt_refines.
  - by apply PushAnchor_refines.
  - by apply PopAnchor_refines.
  - destruct W as (WC' & WB & WA & WN). apply refines_intro; try done.
    cbn. by rewrite (proj2 (Z.eqb_neq _ _)).
Qed.

Lemma foldl_spec_op_proper ops : forall s t, s ≡ t -> foldl spec_op s ops ≡ foldl spec_op t ops.
Proof. induction ops as [|op ops IH]; intros s t E; [done|]. cbn. apply IH. by rewrite E. Qed.

Lemma run_ops_refines base ops : forall v,
  cache_wf base v -> legal_ops (denote base v) ops ->
  exists v', run_ops base v ops = Some v' /\ cache_wf base v' /\
    denote base v' ≡ foldl spec_op (denote base v) ops.
Proof.
  induction ops as [|op ops IH]; intros v W; [by exists v|]. intros [L LS]. cbn [run_ops foldl].
  destruct (run_op_refines base v op W L) as (v1 & -> & W1 & E1). cbn [mbind option_bind].
  destruct (IH v1 W1) as (v2 & R & W2 & E2); [by eapply legal_ops_proper|].
  exists v2. split; [done|split; [done|]]. rewrite E2. by apply foldl_spec_op_proper.
Qed.

(** A new cache over a view. *)
Definition new_cache : CCoinsViewCache :=
  {| cacheCoins := ∅; hashBlock := 0; hashSaplingAnchor := 0;
     cacheSaplingAnchors := ∅; cacheSaplingNullifiers := ∅ |}.

Lemma new_cache_wf base : view_anchors_wf base -> cache_wf base new_cache.
Proof. intros W. repeat split; try done; apply map_Forall_empty. Qed.

Lemma cache_view_anchors base v : cache_wf base v -> view_anchors_wf (cache_view base v).
Proof. intros [_ S] rt t. cbn. rewrite GetSaplingAnchorAt_spec. by apply anchor_tree_root. Qed.

Lemma denote_new_cache base v : denote (cache_view base v) new_cache ≡ denote base v.
Proof.
  repeat split; try done.
  - intros o. unfold denote, cs_coins, utxo at 1. cbn [cacheCoins new_cache]. rewrite lookup_empty.
    apply utxo_cache_view.
  - intros nf. apply GetNullifier_spec.
  - intros rt. apply bool_decide_ext. unfold anchor_tree at 1. cbn.
    by rewrite lookup_empty, GetSaplingAnchorAt_spec.
Qed.

Lemma Flush_refines base parent v :
  cache_wf base parent -> cache_wf (cache_view base parent) v ->
  hashBlock v <> 0 -> hashSaplingAnchor v <> 0 ->
  exists parent' v', Flush parent v = Some (parent', v') /\ cache_wf base parent' /\
    cache_wf (cache_view base parent') v' /\
    denote base parent' ≡ denote (cache_view base parent) v.
Proof.
  intros [WC WS] [VC VS] NB NA.
  destruct (BatchWriteCoins_flush base parent v WC VC) as (us & B & WU & U).
  destruct (flush_nullifiers base parent v WS VS) as [WN N].
  destruct (flush_anchors base parent v WS VS) as [WA A].
  unfold Flush, BatchWrite. rewrite B. cbn [mbind option_bind]. do 2 eexists. split; [done|].
  match goal with |- cache_wf base ?p /\ _ => set (parent' := p) end.
  destruct (refines_intro base parent' (denote (cache_view base parent) v)) as [W D]; try done.
  - apply WS.
  - intros rt. cbn. apply bool_decide_ext, A.
  - cbn. by rewrite !(proj2 (Z.eqb_neq _ _)).
  - cbn. by rewrite !(proj2 (Z.eqb_neq _ _)).
  - split; [done|split; [|done]]. split; [apply map_Forall_empty|].
    split; [by apply cache_view_anchors|split; apply map_Forall_empty].
Qed.

End Refinement.

(** ** Properties *)

(** C17. The coins cache implements the abstract chain state: a new cache over
    a well-formed parent, driven by any sequence of operations that the
    callers may issue (lookups, additions, spends, evictions, nullifiers,
    anchors), never throws and then denotes exactly the result of the
    abstract operations; when the child has learnt its best block and its best
    anchor (neither is null), [Flush] succeeds (no misapplied FRESH flag),
    leaves the parent denoting that state, and keeps every invariant. *)
Theorem cache_refines_chain_state `{SaplingTree} (base : CCoinsView) (parent : CCoinsViewCache)
    (ops : list cache_op) :
  cache_wf base parent ->
  legal_ops (denote base parent) ops ->
  exists v, run_ops (cache_view base parent) new_cache ops = Some v /\
    denote (cache_view base parent) v ≡ foldl spec_op (denote base parent) ops /\
    (hashBlock v <> 0 -> hashSaplingAnchor v <> 0 ->
     exists parent' v', Flush parent v = Some (parent', v') /\
       cache_wf base parent' /\ cache_wf (cache_view base parent') v' /\
       denote base parent' ≡ foldl spec_op (denote base parent) ops).
Proof.
  intros WP L.
  assert (W0 : cache_wf (cache_view base parent) new_cache) by by apply new_cache_wf, cache_view_anchors.
  destruct (run_ops_refines (cache_view base parent) ops new_cache W0) as (v & R & W & D).
  { eapply legal_ops_proper; [|done]. by rewrite denote_new_cache. }
  rewrite (foldl_spec_op_proper ops _ _ (denote_new_cache base parent)) in D.
  exists v. split; [done|split; [done|]]. intros NB NA.
  destruct (Flush_refines base parent v WP W NB NA) as (p' & v' & F & WP' & WV' & D').
  exists p', v'. by rewrite D'.
Qed.

(** A tree whose root is the number of leaves plus one. *)
Definition counting_tree : SaplingTree :=
  {| SaplingMerkleTree := Z; tree_empty := 1; tree_append := fun t _ => t + 1; tree_root := fun t => t |}.

Definition empty_view `{SaplingTree} : CCoinsView :=
  {| v_GetCoin := fun _ => None; v_GetBestBlock := 0; v_GetSaplingAnchorAt := fun _ => None;
     v_GetNullifier := fun _ => false; v_GetBestAnchor := 0 |}.

Definition ex_coin : Coin :=
  {| fCoinBase := false; fCoinStake := false; coin_out := {| nValue := 5; scriptPubKey := [81] |}; coin_nHeight := 7 |}.
Definition ex_outpoint (n : Z) : COutPoint := {| op_hash := 1; op_n := n |}.
Definition ex_ops : list (cache_op (H := counting_tree)) :=
  [ OpAddCoin (ex_outpoint 0) ex_coin false; OpAddCoin (ex_outpoint 1) ex_coin false;
    OpHaveCoin (ex_outpoint 2); OpSpendCoin (ex_outpoint 0);
    OpPushAnchor (H := counting_tree) 2; OpSetBestBlock 9 ].

Lemma cache_refines_chain_state_witness :
  exists v, run_ops (H := counting_tree) (cache_view empty_view new_cache) new_cache ex_ops = Some v /\
    exists p v', Flush new_cache v = Some (p, v') /\
      cs_coins (denote empty_view p) (ex_outpoint 0) = None /\
      cs_coins (denote empty_view p) (ex_outpoint 1) = Some ex_coin.
Proof.
  assert (W : cache_wf (H := counting_tree) empty_view new_cache) by (apply new_cache_wf; done).
  destruct (cache_refines_chain_state (H := counting_tree) empty_view new_cache ex_ops W)
    as (v & R & D & F).
  { vm_compute. repeat split; discriminate. }
  exists v. split; [exact R|].
  assert (E : run_ops (H := counting_tree) (cache_view empty_view new_cache) new_cache ex_ops = Some v) by exact R.
  vm_compute in E. injection E as <-.
  destruct F as (p & v' & FL & _ & _ & DP); [discriminate|discriminate|].
  exists p, v'. split; [exact FL|]. split; rewrite (proj1 DP); reflexivity.
Defined.
