(* ===== verification/NoteHash.v ===== *)
(** * The hashes of the note commitment tree

    The two instances of the tree in sapling/incrementalmerkletree.cpp:
    [SHA256Compress], whose hash is in the program, and [PedersenHash], whose
    hash is a function of the Rust library.  What the tree promises to the rest
    of the program is stated here: roots, paths and witnesses are those of the
    Merkle tree over the notes, and the class [SaplingTree] of Coins is
    discharged. *)

From S2P Require Import Prelude Params Serialize BlockHash Sha2 Sha256 Crypto Hashing Transaction Genesis.
From S2P Require Import EmptyRoots NoteTree Coins.

#[local] Opaque sha256_Transform.

(** ** SHA256Compress *)

(** [combine]: one compression, without padding; [None] would be the exception
    of [FinalizeNoPadding].  [mem] is what the hasher's buffer holds at first. *)
Definition SHA256Compress_combine (mem : bytes) (a b : Z) : option Z :=
  let hasher := CSHA256_Write (CSHA256_Write (CSHA256_new mem) (le_bytes 32 a)) (le_bytes 32 b) in
  le_value <$> CSHA256_FinalizeNoPadding hasher true.

(** One block of the compression function. *)
Definition sha256_pair (depth : nat) (a b : Z) : Z :=
  le_value (sha256_digest (sha256_Transform sha256_Initialize (le_bytes 32 a ++ le_bytes 32 b))).

Definition SHA256Compress_EmptyRoot (depth : nat) : Z := table_root sha256_empty_roots depth.

Lemma SHA256Compress_combine_spec mem a b depth : length mem = 64%nat -> SHA256Compress_combine mem a b = Some (sha256_pair depth a b).
Proof.
  intros M. unfold SHA256Compress_combine, CSHA256_FinalizeNoPadding, CSHA256_Write, CSHA256_new.
  pose proof (Write_holds (H := sha256) _ _ (le_bytes 32 b) (Write_holds (H := sha256) _ _ (le_bytes 32 a) (new_hasher_holds (H := sha256) mem M))) as Hh.
  cbn [app] in Hh. set (h := Write _ _) in *. assert (S : size (le_bytes 32 a ++ le_bytes 32 b) = 64) by (unfold size; rewrite length_app, !length_le_bytes; done).
  assert (Hs : h_s h = sha256_Transform sha256_Initialize (le_bytes 32 a ++ le_bytes 32 b)).
  { rewrite (holds_aligned (H := sha256) _ _ Hh) by (by rewrite S). unfold fold_blocks. rewrite length_app, !length_le_bytes.
    change ((32 + 32) / block (BlockHash := sha256))%nat with 1%nat. cbn [blocks foldl Transform Initialize block sha256].
    by rewrite firstn_all2 by (rewrite length_app, !length_le_bytes; done). }
  rewrite (holds_bytes (H := sha256) _ _ Hh), S, Hs. reflexivity.
Qed.

(** The table is the one the hash gives. *)
Lemma sha256_empty_table : forallb (fun d => SHA256Compress_EmptyRoot (S d) =? sha256_pair d (SHA256Compress_EmptyRoot d) (SHA256Compress_EmptyRoot d)) (seq 0 65) = true.
Proof. vm_compute. reflexivity. Qed.

Lemma sha256_empty d : (d < 65)%nat -> SHA256Compress_EmptyRoot (S d) = sha256_pair d (SHA256Compress_EmptyRoot d) (SHA256Compress_EmptyRoot d).
Proof.
  intros L. pose proof sha256_empty_table as T. rewrite forallb_forall in T. apply Z.eqb_eq, T, in_seq. lia.
Qed.

(** ** What the tree promises *)

Section Promise.
Context (combine : nat -> Z -> Z -> Z) (EmptyRoot : nat -> Z) (Depth : nat).

(** C33. The incremental tree is the Merkle tree of the leaves appended to it:
    as long as they fit, [append] succeeds, the root is the one of the full
    tree in which missing leaves are empty, the representation passes the check
    that reading one from disk makes, and [size] counts the leaves (while they
    are fewer than 2^31); the leaf after the last that fits is refused. *)
Theorem note_tree_sound l :
  (forall d, (d < Depth)%nat -> EmptyRoot (S d) = combine d (EmptyRoot d) (EmptyRoot d)) -> (1 <= Depth)%nat -> (length l <= 2 ^ Depth)%nat ->
  exists t, appends combine Depth new_tree l = Some t /\
    root combine EmptyRoot Depth t = merkle combine EmptyRoot Depth l /\
    wfcheck Depth t = true /\
    (size l < 2 ^ 31 -> tree_size t = size l) /\
    (forall x, append combine Depth t x = None <-> length l = (2 ^ Depth)%nat).
Proof.
  intros Empty D L.
  destruct (appends_represents combine EmptyRoot Depth D l new_tree [] (new_tree_represents combine EmptyRoot) L) as (t & A & R).
  cbn [app] in R. exists t. split; [done|]. split; [by apply root_spec|]. split; [by eapply represents_wf|]. split; [by eapply tree_size_spec|].
  intros x. pose proof (complete_length combine EmptyRoot t l Depth R D) as K. unfold append. destruct (is_complete t Depth); split; try done.
  - intros _. by apply K.
  - intros E. by apply K in E.
Qed.

(** C34. A witness keeps up with the tree.  Taken after the leaves [l] and given
    the later leaves [xs], it still proves the last leaf of [l]: its root is
    the root of the grown tree, its path has one sibling per level and leads
    from the leaf to that root, and the sides of the path spell the position of
    the leaf. *)
Theorem witness_sound l xs :
  (forall d, (d < Depth)%nat -> EmptyRoot (S d) = combine d (EmptyRoot d) (EmptyRoot d)) -> (1 <= Depth)%nat ->
  l <> [] -> (length (l ++ xs) <= 2 ^ Depth)%nat ->
  exists t t' w p x, appends combine Depth new_tree l = Some t /\ appends combine Depth t xs = Some t' /\
    witness_appends combine EmptyRoot Depth (witness t) xs = Some w /\ last l = Some x /\ element w = Some x /\
    witness_root combine EmptyRoot Depth w = root combine EmptyRoot Depth t' /\
    witness_path combine EmptyRoot Depth w = Some p /\ length p = Depth /\
    climb combine 0 x p = root combine EmptyRoot Depth t' /\ S (bits_value (map snd p)) = length l.
Proof.
  intros Empty D N L.
  destruct (appends_represents combine EmptyRoot Depth D l new_tree [] (new_tree_represents combine EmptyRoot)) as (t & A & R).
  { rewrite length_app in L. cbn [app]. lia. }
  cbn [app] in R. destruct (appends_represents combine EmptyRoot Depth D xs t l R L) as (t' & A' & R').
  destruct (witness_appends_follows combine EmptyRoot Depth Empty D xs (witness t) l [] (witness_follows combine EmptyRoot Depth t l R N) L) as (w & Aw & F).
  pose proof (witness_appends_tree combine EmptyRoot Depth xs _ _ Aw) as T. cbn [witness w_tree] in T. cbn [app] in F.
  assert (B : (1 + length (parents t) <= Depth)%nat) by (apply (parents_bound combine EmptyRoot _ l); [done|done|rewrite length_app in L; lia]).
  assert (Ew : witness_root combine EmptyRoot Depth w = root combine EmptyRoot Depth t').
  { unfold witness_root. rewrite (follows_path combine EmptyRoot Depth Empty w l xs F), T.
    rewrite (root_with_spec combine EmptyRoot Depth Empty t l xs Depth R) by (done || lia). symmetry. by apply root_spec. }
  destruct (path_pairs_total EmptyRoot Depth (w_tree w) (partial_path combine EmptyRoot w)) as (p & P & Lp); [apply F|by rewrite T|].
  destruct (note_path_root combine EmptyRoot Depth _ _ _ P) as (x & X & C). rewrite T in X.
  exists t, t', w, p, x. unfold element. rewrite T. do 3 (split; [done|]). split; [by apply (represents_last combine EmptyRoot t)|].
  split; [exact X|]. split; [exact Ew|]. split; [exact P|]. split; [exact Lp|]. split; [|by apply (path_position combine EmptyRoot Depth (w_tree w) l (partial_path combine EmptyRoot w) p); [rewrite T|]].
  by rewrite C, <- Ew.
Qed.

End Promise.

(** Five notes in a tree of depth four, the third one followed to the end. *)
Lemma note_tree_sound_witness :
  exists t, appends sha256_pair 4 new_tree [1; 2; 3; 4; 5] = Some t /\
    root sha256_pair SHA256Compress_EmptyRoot 4 t = merkle sha256_pair SHA256Compress_EmptyRoot 4 [1; 2; 3; 4; 5] /\
    wfcheck 4 t = true /\ (size [1; 2; 3; 4; 5] < 2 ^ 31 -> tree_size t = size [1; 2; 3; 4; 5]) /\
    (forall x, append sha256_pair 4 t x = None <-> length [1; 2; 3; 4; 5] = (2 ^ 4)%nat).
Proof.
  apply (note_tree_sound sha256_pair SHA256Compress_EmptyRoot 4 [1; 2; 3; 4; 5]); [intros d L; apply sha256_empty; lia|lia|cbn; lia].
Defined.

Lemma witness_sound_witness :
  exists t t' w p x, appends sha256_pair 4 new_tree [1; 2; 3] = Some t /\ appends sha256_pair 4 t [4; 5] = Some t' /\
    witness_appends sha256_pair SHA256Compress_EmptyRoot 4 (witness t) [4; 5] = Some w /\ last [1; 2; 3] = Some x /\ element w = Some x /\
    witness_root sha256_pair SHA256Compress_EmptyRoot 4 w = root sha256_pair SHA256Compress_EmptyRoot 4 t' /\
    witness_path sha256_pair SHA256Compress_EmptyRoot 4 w = Some p /\ length p = 4%nat /\
    climb sha256_pair 0 x p = root sha256_pair SHA256Compress_EmptyRoot 4 t' /\ S (bits_value (map snd p)) = length [1; 2; 3].
Proof.
  apply (witness_sound sha256_pair SHA256Compress_EmptyRoot 4 [1; 2; 3] [4; 5]);
    [intros d L; apply sha256_empty; lia|lia|done|cbn; lia].
Defined.

(** ** The tree of the chain *)

(** [SAPLING_INCREMENTAL_MERKLE_TREE_DEPTH] *)
Definition SAPLING_DEPTH : nat := 32.

Definition PedersenHash_EmptyRoot (depth : nat) : Z := table_root pedersen_empty_roots depth.

(** [SaplingMerkleTree] over the library's hash [pedersen]; a full tree, which
    makes the code throw, stays as it is. *)
Definition sapling_tree (pedersen : nat -> Z -> Z -> Z) : SaplingTree := {|
  SaplingMerkleTree := IncrementalMerkleTree;
  tree_empty := new_tree;
  tree_append t x := default t (append pedersen SAPLING_DEPTH t x);
  tree_root t := root pedersen PedersenHash_EmptyRoot SAPLING_DEPTH t
|}.

(** The root of the empty tree is the one in the genesis blocks. *)
Lemma genesis_sapling_root quark blake net b : genesis (H := node_hashes quark blake) net = Some b ->
  hashFinalSaplingRoot b = PedersenHash_EmptyRoot SAPLING_DEPTH.
Proof.
  unfold genesis. intros E. apply bind_Some_inv in E as (c & _ & E). unfold assert in E.
  destruct (_ =? _); [|done]. destruct (_ =? _); [|done]. injection E as <-. vm_compute. reflexivity.
Qed.

Lemma default_appends pedersen xs : forall t t', appends pedersen SAPLING_DEPTH t xs = Some t' ->
  foldl (tree_append (SaplingTree := sapling_tree pedersen)) t xs = t'.
Proof.
  induction xs as [|x xs IH]; intros t t' A; unfold appends in A; cbn [foldl] in *; [by injection A|].
  cbn [mbind option_bind] in A. cbn [tree_append sapling_tree]. destruct (append pedersen SAPLING_DEPTH t x) as [t1|].
  - by apply IH.
  - exfalso. clear - A. induction xs; cbn in A; auto. done.
Qed.

(** If the library's hash agrees with the table of empty roots, the root of
    the chain's tree is the Merkle root of the note commitments. *)
Lemma sapling_root pedersen l :
  (forall d, (d < SAPLING_DEPTH)%nat -> PedersenHash_EmptyRoot (S d) = pedersen d (PedersenHash_EmptyRoot d) (PedersenHash_EmptyRoot d)) ->
  (length l <= 2 ^ SAPLING_DEPTH)%nat ->
  tree_root (SaplingTree := sapling_tree pedersen) (foldl (tree_append (SaplingTree := sapling_tree pedersen)) tree_empty l) =
  merkle pedersen PedersenHash_EmptyRoot SAPLING_DEPTH l.
Proof.
  intros Empty L. assert (D : (1 <= SAPLING_DEPTH)%nat) by (unfold SAPLING_DEPTH; lia).
  destruct (appends_represents pedersen PedersenHash_EmptyRoot SAPLING_DEPTH D l new_tree []
    (new_tree_represents pedersen PedersenHash_EmptyRoot) L) as (t & A & R).
  cbn [tree_empty sapling_tree]. rewrite (default_appends pedersen l new_tree t A). by apply root_spec.
Qed.

(** ** Trees and witnesses on disk *)

Open Scope krova_scope.

(** [READWRITE(left, right, parents)], then [wfcheck]. *)
Definition tree_fields : Formatter IncrementalMerkleTree :=
  fields_fmt (fun t => (left t, (right t, parents t))) (fun '(l, (r, ps)) => {| left := l; right := r; parents := ps |})
    (OptionalFormatter uint256_fmt ⊕ OptionalFormatter uint256_fmt ⊕ VectorFormatter (OptionalFormatter uint256_fmt)).

Definition tree_fmt (Depth : nat) : Formatter IncrementalMerkleTree := {|
  Ser t := Ser tree_fields t;
  Unser s := '(t, s) ← Unser tree_fields s; if wfcheck Depth t then Some (t, s) else None;
  ok t := ok tree_fields t /\ wfcheck Depth t = true
|}.

#[export] Instance tree_fmt_lawful Depth : Lawful (tree_fmt Depth).
Proof.
  intros t rest [O W]. cbn [Ser Unser tree_fmt]. rewrite (unser_ser (f := tree_fields)) by done. cbn [mbind option_bind]. by rewrite W.
Qed.

(** [READWRITE(tree, filled, cursor)]; reading computes [cursor_depth]. *)
Definition witness_fields (Depth : nat) : Formatter (IncrementalMerkleTree * (list Z * option IncrementalMerkleTree)) :=
  tree_fmt Depth ⊕ VectorFormatter uint256_fmt ⊕ OptionalFormatter (tree_fmt Depth).

Definition witness_ser (Depth : nat) (w : IncrementalWitness) : bytes := Ser (witness_fields Depth) (w_tree w, (filled w, cursor w)).

Definition witness_unser (Depth : nat) : Reader IncrementalWitness := fun s =>
  '((t, (f, c)), s) ← Unser (witness_fields Depth) s;
  Some ({| w_tree := t; filled := f; cursor := c; cursor_depth := next_depth t (length f) |}, s).

(** A witness that is read back proves the same and goes on the same. *)
Lemma witness_read_back combine EmptyRoot Depth w l xs rest :
  follows combine EmptyRoot Depth w l xs -> (1 + length (parents (w_tree w)) <= Depth)%nat ->
  ok (witness_fields Depth) (w_tree w, (filled w, cursor w)) ->
  exists w', witness_unser Depth (witness_ser Depth w ++ rest) = Some (w', rest) /\
    witness_root combine EmptyRoot Depth w' = witness_root combine EmptyRoot Depth w /\
    witness_path combine EmptyRoot Depth w' = witness_path combine EmptyRoot Depth w /\
    forall x, witness_append combine EmptyRoot Depth w' x = witness_append combine EmptyRoot Depth w x.
Proof.
  intros [_ LT (done & part & r & _ & F & C)] B O. unfold witness_unser, witness_ser.
  rewrite (unser_ser (f := witness_fields Depth)) by done. cbn [mbind option_bind]. eexists. split; [done|].
  pose proof (next_depth_spec Depth (w_tree w) (length (filled w)) LT B) as N. rewrite (full_run_lookup _ _ _ _ _ _ F) in N.
  unfold witness_root, witness_path, witness_append, partial_path. cbn [w_tree filled cursor cursor_depth].
  destruct (cursor w) as [c|]; [|done]. destruct C as (rest' & -> & _). cbn [head] in N. by destruct N as [-> _].
Qed.

(** The depth of a cursor that is not there is not restored, and
    [operator==] compares it. *)
Example witness_unequal_after_reading :
  exists w w', witness_append sha256_pair SHA256Compress_EmptyRoot 4 (witness {| left := Some 1; right := None; parents := [] |}) 2 = Some w /\
    witness_unser 4 (witness_ser 4 w) = Some (w', []) /\ cursor w' = cursor w /\ cursor_depth w' <> cursor_depth w.
Proof. do 2 eexists. split; [reflexivity|]. split; [vm_compute; reflexivity|]. split; [done|]. vm_compute. lia. Qed.

(** [1 << (i+1)] is one of an [int]: at 2^31 leaves the count is wrong. *)
Example tree_size_overflows :
  tree_size {| left := Some 1; right := None; parents := replicate 30 None ++ [Some 1] |} <> 2 ^ 31 + 1.
Proof. vm_compute. lia. Qed.
