(* ===== verification/TxVerify.v ===== *)
(** * Context-free transaction checks

    consensus/tx_verify.cpp and the context-free part of
    sapling/sapling_validation.cpp. *)

From S2P Require Import Prelude Params Crypto Script Serialize Transaction ValidationState Coins.

Definition MAX_TX_SIZE_AFTER_SAPLING : Z := 400000.
Definition MAX_STANDARD_TX_SIZE : Z := 100000.
Definition MIN_COLDSTAKING_AMOUNT : Z := 1 * COIN.
Definition MAX_BLOCK_SIGOPS_CURRENT : Z := MAX_BLOCK_SIZE_CURRENT / 50.

(** [GetAdjustedTime] is read from the clock. *)
Definition IsFinalTx (GetAdjustedTime : Z) (tx : CTransaction) (nBlockHeight nBlockTime : Z) : bool :=
  if nLockTime tx =? 0 then true
  else
    let nBlockTime := if nBlockTime =? 0 then GetAdjustedTime else nBlockTime in
    if nLockTime tx <? (if nLockTime tx <? LOCKTIME_THRESHOLD then nBlockHeight else nBlockTime) then true
    else forallb TxIn_IsFinal (vin tx).

(** [nSigOps] is an [unsigned int]. *)
Fixpoint sum_sigops (counts : list (option Z)) (nSigOps : Z) : option Z :=
  match counts with
  | [] => Some nSigOps
  | c :: counts => c ← c; sum_sigops counts (u32 (nSigOps + c))
  end.

Definition GetLegacySigOpCount (tx : CTransaction) : option Z :=
  n ← sum_sigops ((fun i => GetSigOpCount (scriptSig i) false) <$> vin tx) 0;
  sum_sigops ((fun o => GetSigOpCount (scriptPubKey o) false) <$> vout tx) n.

Fixpoint P2SHSigOps_loop `{SaplingTree} (base : CCoinsView) (v : CCoinsViewCache) (ins : list CTxIn)
    (nSigOps : Z) : option (Z * CCoinsViewCache) :=
  match ins with
  | [] => Some (nSigOps, v)
  | i :: ins =>
      let '(c, v) := AccessCoin base v (prevout i) in
      let script := scriptPubKey (coin_out c) in
      n ← (if IsPayToScriptHash script
           then c ← GetSigOpCount_scriptSig script (scriptSig i); Some (u32 (nSigOps + c))
           else Some nSigOps);
      P2SHSigOps_loop base v ins n
  end.

Definition GetP2SHSigOpCount `{SaplingTree} (base : CCoinsView) (v : CCoinsViewCache) (tx : CTransaction)
  : option (Z * CCoinsViewCache) :=
  if IsCoinBase tx then Some (0, v) else P2SHSigOps_loop base v (vin tx) 0.

(** ** SaplingValidation::CheckTransaction *)

(** The [std::set] loops: no element is seen twice. *)
Fixpoint check_unique `{Countable K} (seen : gset K) (l : list K) : bool :=
  match l with
  | [] => true
  | k :: l => if bool_decide (k ∈ seen) then false else check_unique ({[k]} ∪ seen) l
  end.

(** Returns [nValueOut]. *)
Definition CheckTransactionWithoutProofVerification (p : ConsensusParams) (tx : CTransaction) (nValueOut : Z)
  : Result Z :=
  if negb (isSaplingVersion tx) then Aborted
  else
  match sapData tx with
  | None => Aborted
  | Some d =>
      reject_if ((size (vShieldedSpend d) =? 0) && (size (vShieldedOutput d) =? 0) && negb (valueBalance d =? 0))
        100 "bad-txns-valuebalance-nonzero" (
      reject_if ((nMaxMoneyOut p <? valueBalance d) || (valueBalance d <? - nMaxMoneyOut p))
        100 "bad-txns-valuebalance-toolarge" (
      let out := if valueBalance d <? 0 then i64 (nValueOut + - valueBalance d) else nValueOut in
      reject_if ((valueBalance d <? 0) && negb (MoneyRange p out)) 100 "bad-txns-txouttotal-toolarge" (
      reject_if ((0 <? valueBalance d) && negb (MoneyRange p (valueBalance d)))
        100 "bad-txns-txintotal-toolarge" (
      reject_if (negb (check_unique ∅ (sd_nullifier <$> vShieldedSpend d)))
        100 "bad-spend-description-nullifiers-duplicate" (
      Valid out)))))
  end.

Definition Sapling_CheckTransaction (p : ConsensusParams) (tx : CTransaction) (nValueOut : Z) : Result Z :=
  reject_if (negb (isSaplingVersion tx) && hasSaplingData tx) 100 "bad-txns-form-not-sapling" (
  if negb (hasSaplingData tx) then Valid nValueOut
  else
    reject_if (IsCoinStake tx || IsCoinBase tx || HasZerocoinSpendInputs tx || HasZerocoinMintOutputs tx)
      100 "bad-txns-invalid-sapling" (
    CheckTransactionWithoutProofVerification p tx nValueOut)).

(** ** CheckTransaction *)

Definition sap_empty {A} (proj : SaplingTxData -> list A) (tx : CTransaction) : bool :=
  match sapData tx with Some d => size (proj d) =? 0 | None => false end.

(** The loop over the outputs. *)
Fixpoint CheckOutputs (p : ConsensusParams) (generated fColdStakingActive : bool) (outs : list CTxOut)
    (nValueOut : Z) : Result Z :=
  match outs with
  | [] => Valid nValueOut
  | o :: outs =>
      reject_if (TxOut_IsEmpty o && negb generated) 100 "bad-txns-vout-empty" (
      reject_if (nValue o <? 0) 100 "bad-txns-vout-negative" (
      reject_if (nMaxMoneyOut p <? nValue o) 100 "bad-txns-vout-toolarge" (
      let nValueOut := i64 (nValueOut + nValue o) in
      reject_if (negb (MoneyRange p nValueOut)) 100 "bad-txns-txouttotal-toolarge" (
      let cold := IsPayToColdStaking (scriptPubKey o) in
      reject_if (cold && negb fColdStakingActive) 10 "cold-stake-inactive" (
      reject_if (cold && (nValue o <? MIN_COLDSTAKING_AMOUNT)) 100 "cold-stake-vout-toosmall" (
      CheckOutputs p generated fColdStakingActive outs nValueOut))))))
  end.

(** [tx.vin[0].scriptSig.size()]. *)
Definition coinbase_script_size (tx : CTransaction) : Z :=
  match vin tx with i :: _ => size (scriptSig i) | [] => 0 end.

Definition CheckTransaction (p : ConsensusParams) (tx : CTransaction) (fColdStakingActive : bool) : Result unit :=
  reject_if ((size (vin tx) =? 0) && sap_empty vShieldedSpend tx && negb (IsQuorumCommitmentTx tx))
    10 "bad-txns-vin-empty" (
  reject_if ((size (vout tx) =? 0) && sap_empty vShieldedOutput tx && negb (IsQuorumCommitmentTx tx))
    10 "bad-txns-vout-empty" (
  reject_if ((tx_nVersion tx <? 1) || (TOOHIGH <=? tx_nVersion tx)) 10 "bad-tx-version-too-high" (
  let nMaxSize := if IsShieldedTx tx then MAX_TX_SIZE_AFTER_SAPLING else MAX_STANDARD_TX_SIZE in
  reject_if (nMaxSize <? size (Ser CTransaction_fmt tx)) 10 "bad-txns-oversize" (
  nValueOut ← Sapling_CheckTransaction p tx 0;
  _ ← CheckOutputs p (IsCoinBase tx || IsCoinStake tx) fColdStakingActive (vout tx) nValueOut;
  reject_if (negb (check_unique ∅ (prevout <$> vin tx))) 100 "bad-txns-inputs-duplicate" (
  if IsCoinBase tx then
    reject_if ((coinbase_script_size tx <? 2) || (150 <? coinbase_script_size tx)) 100 "bad-cb-length" (
    reject_if (HasExchangeAddr tx) 100 "bad-exchange-address-in-cb" (
    Valid ()))
  else
    reject_if (existsb (fun i => OutPoint_IsNull (prevout i)) (vin tx)) 10 "bad-txns-prevout-null" (
    Valid ())))))).

(** ** Lemmas *)

Lemma check_unique_NoDup `{Countable K} l : forall seen : gset K,
  check_unique seen l = true <-> NoDup l /\ forall k, k ∈ l -> k ∉ seen.
Proof.
  induction l as [|k l IH]; intros seen; cbn.
  - split; [|done]. intros _. split; [constructor|set_solver].
  - case_bool_decide as E.
    + split; [done|]. intros [_ D]. by destruct (D k); [set_solver|].
    + rewrite IH, NoDup_cons. set_solver.
Qed.

Lemma check_unique_empty `{Countable K} (l : list K) : check_unique ∅ l = true <-> NoDup l.
Proof. rewrite check_unique_NoDup. set_solver. Qed.

(** Every network has the same money range, of which two fit in 64 bits
    unsigned but not signed. *)
Class MoneyCap (p : ConsensusParams) := money_cap : nMaxMoneyOut p = 72000000000 * COIN.

#[export] Instance network_money_cap chain : MoneyCap (consensus (CreateChainParams chain)).
Proof. by destruct chain. Qed.

Section Amounts.
Context (p : ConsensusParams) `{!MoneyCap p}.

Lemma MoneyRange_iff x : MoneyRange p x = true <-> 0 <= x <= nMaxMoneyOut p.
Proof. unfold MoneyRange. bool_to_prop. lia. Qed.

(** Adding two amounts in range: the test after a possibly wrapped addition
    decides the range of the exact sum. *)
Lemma MoneyRange_add a b :
  0 <= a <= nMaxMoneyOut p -> 0 <= b <= nMaxMoneyOut p ->
  MoneyRange p (i64 (a + b)) = true <-> a + b <= nMaxMoneyOut p.
Proof.
  rewrite MoneyRange_iff, money_cap. unfold COIN. intros A B.
  destruct (Z_le_gt_dec (a + b) INT64_MAX) as [L|G].
  - rewrite i64_id by (unfold in_i64, INT64_MIN, INT64_MAX in *; lia). lia.
  - unfold sint. change (2 ^ (64 - 1)) with 9223372036854775808. change (2 ^ 64) with 18446744073709551616.
    unfold INT64_MAX in G. split; [|lia]. Z.div_mod_to_equations. lia.
Qed.

Lemma CheckOutputs_Valid gen cold outs : forall n r,
  0 <= n <= nMaxMoneyOut p ->
  CheckOutputs p gen cold outs n = Valid r ->
  r = n + sumZ nValue outs /\ 0 <= r <= nMaxMoneyOut p /\
  Forall (fun o => 0 <= nValue o <= nMaxMoneyOut p) outs.
Proof.
  induction outs as [|o outs IH]; intros n r N; cbn [CheckOutputs].
  - intros [= <-]. cbn. repeat split; try lia. constructor.
  - intros H. valid_inv H. bool_to_prop.
    assert (V : 0 <= nValue o <= nMaxMoneyOut p) by lia.
    rewrite MoneyRange_add in C2 by lia.
    rewrite i64_id in H by (rewrite money_cap in *; unfold in_i64, INT64_MIN, INT64_MAX, COIN in *; lia).
    apply IH in H as (-> & R & F); [|lia]. cbn. repeat split; try lia. by constructor.
Qed.

(** What a transaction moves between the transparent and the shielded pool. *)
Definition shielded_out (tx : CTransaction) : Z := Z.max 0 (- tx_valueBalance tx).
Definition shielded_in (tx : CTransaction) : Z := Z.max 0 (tx_valueBalance tx).

Lemma hasSaplingData_false tx : hasSaplingData tx = false -> tx_valueBalance tx = 0.
Proof.
  unfold hasSaplingData, tx_valueBalance. destruct (sapData tx) as [d|]; [|done].
  intros H. bool_to_prop. done.
Qed.

Lemma Sapling_CheckTransaction_Valid tx r :
  Sapling_CheckTransaction p tx 0 = Valid r ->
  r = shielded_out tx /\ 0 <= r <= nMaxMoneyOut p /\ tx_valueBalance tx <= nMaxMoneyOut p /\
  (hasSaplingData tx = true ->
   isSaplingVersion tx = true /\ IsCoinBase tx = false /\ IsCoinStake tx = false /\ HasZerocoinSpendInputs tx = false) /\
  NoDup (tx_nullifiers tx).
Proof.
  unfold Sapling_CheckTransaction, shielded_out. intros H. valid_inv H.
  destruct (hasSaplingData tx) eqn:D; cbn [negb] in H.
  - valid_inv H. unfold CheckTransactionWithoutProofVerification, tx_valueBalance, tx_nullifiers in *.
    destruct (isSaplingVersion tx); cbn [negb andb] in *; [|done].
    destruct (sapData tx) as [d|]; [|done]. valid_inv H. injection H as <-. bool_to_prop.
    apply check_unique_empty in C5. rewrite money_cap in *. unfold COIN in *.
    assert (R : (if valueBalance d <? 0 then i64 (0 + - valueBalance d) else 0) = Z.max 0 (- valueBalance d)).
    { destruct (Z.ltb_spec (valueBalance d) 0); [|lia].
      rewrite i64_id by (unfold in_i64, INT64_MIN, INT64_MAX; lia). lia. }
    rewrite R. repeat split; try done; lia.
  - injection H as <-. rewrite hasSaplingData_false by done. rewrite money_cap. unfold COIN.
    repeat split; try done. unfold tx_nullifiers. unfold hasSaplingData in D.
    destruct (sapData tx) as [d|]; [|constructor]. bool_to_prop.
    destruct (vShieldedSpend d); [constructor|]. rewrite size_cons in *. pose proof (size_nonneg l). lia.
Qed.

Lemma GetValueOut_loop_exact outs : forall n,
  0 <= n -> Forall (fun o => 0 <= nValue o) outs -> n + sumZ nValue outs <= INT64_MAX ->
  GetValueOut_loop outs n = Some (n + sumZ nValue outs).
Proof.
  induction outs as [|o outs IH]; intros n N F L; cbn in *; [f_equal; lia|].
  apply Forall_cons in F as [F0 F]. pose proof (sumZ_nonneg nValue outs F).
  rewrite i64_id by (unfold in_i64, INT64_MIN; lia).
  rewrite (proj2 (Z.ltb_ge _ _)), (proj2 (Z.ltb_ge _ _)) by lia. rewrite IH by (done || lia). f_equal. lia.
Qed.

(** The amounts of a transaction that passed [CheckTransaction]. *)
Record amounts_ok (tx : CTransaction) : Prop := {
  amounts_outs : Forall (fun o => 0 <= nValue o <= nMaxMoneyOut p) (vout tx);
  amounts_total : sumZ nValue (vout tx) + shielded_out tx <= nMaxMoneyOut p;
  amounts_GetValueOut : GetValueOut tx = Some (sumZ nValue (vout tx) + shielded_out tx);
  amounts_shielded : GetShieldedValueIn tx = Some (shielded_in tx) /\ shielded_in tx <= nMaxMoneyOut p
}.

Lemma CheckTransaction_Valid tx cold :
  CheckTransaction p tx cold = Valid () ->
  amounts_ok tx /\ NoDup (prevout <$> vin tx) /\ NoDup (tx_nullifiers tx) /\
  (IsCoinBase tx = false -> Forall (fun i => OutPoint_IsNull (prevout i) = false) (vin tx)) /\
  (hasSaplingData tx = true ->
   IsCoinBase tx = false /\ IsCoinStake tx = false /\ HasZerocoinSpendInputs tx = false).
Proof.
  unfold CheckTransaction. intros H. valid_inv H.
  apply Sapling_CheckTransaction_Valid in E as (-> & R0 & V & S & N).
  apply CheckOutputs_Valid in E0 as (-> & R & F); [|done].
  apply negb_false_iff, check_unique_empty in C3.
  assert (POS : Forall (fun o => 0 <= nValue o) (vout tx)) by (eapply Forall_impl; [done|cbn; lia]).
  pose proof (sumZ_nonneg nValue (vout tx) POS).
  pose proof money_cap as CAP. unfold COIN in CAP. split; [split|split; [|split; [|split]]]; try done.
  - lia.
  - unfold GetValueOut. rewrite GetValueOut_loop_exact by (done || (unfold INT64_MAX; lia)).
    cbn [mbind option_bind]. unfold shielded_out in *. destruct (hasSaplingData tx) eqn:D; cbn [andb].
    + destruct S as (-> & _); [done|]. destruct (Z.ltb_spec (tx_valueBalance tx) 0); cbn; f_equal; [|lia].
      rewrite !i64_id by (rewrite ?i64_id by (unfold in_i64, INT64_MIN, INT64_MAX; lia); unfold in_i64, INT64_MIN, INT64_MAX; lia).
      lia.
    + rewrite (hasSaplingData_false tx D). f_equal. lia.
  - unfold GetShieldedValueIn, shielded_in. destruct (hasSaplingData tx) eqn:D; cbn [andb].
    + destruct S as (-> & _); [done|]. destruct (Z.ltb_spec 0 (tx_valueBalance tx)); cbn; split; f_equal; lia.
    + rewrite (hasSaplingData_false tx D). split; [done|lia].
  - intros CB. rewrite CB in H. valid_inv H. clear -C4.
    induction (vin tx) as [|i l IH]; [constructor|]. apply orb_false_elim in C4 as [C C4].
    constructor; auto.
  - tauto.
Qed.

End Amounts.

(** ** Properties *)

(** C18. A transaction that passes [CheckTransaction] on any of the networks
    has outputs between 0 and 72 billion coins each, and its output total,
    the value sent to the shielded pool included, computed without
    wrap-around although two amounts in range may overflow an [int64_t], is
    what [GetValueOut] returns and is in range too; it spends no output and
    reveals no nullifier twice, and a coinbase or coinstake carries no
    shielded data. *)
Theorem CheckTransaction_sound chain tx cold (p := consensus (CreateChainParams chain)) :
  CheckTransaction p tx cold = Valid () ->
  Forall (fun o => 0 <= nValue o <= 72000000000 * COIN) (vout tx) /\
  GetValueOut tx = Some (sumZ nValue (vout tx) + shielded_out tx) /\
  0 <= sumZ nValue (vout tx) + shielded_out tx <= 72000000000 * COIN /\
  GetShieldedValueIn tx = Some (shielded_in tx) /\
  NoDup (prevout <$> vin tx) /\ NoDup (tx_nullifiers tx) /\
  (IsCoinBase tx = true \/ IsCoinStake tx = true -> tx_valueBalance tx = 0).
Proof.
  intros H. apply CheckTransaction_Valid in H as (A & D & N & _ & S); [|apply _].
  pose proof (money_cap (p := p)) as CAP. destruct A as [F T V SH]. rewrite CAP in *.
  pose proof (sumZ_nonneg nValue (vout tx) ltac:(eapply Forall_impl; [exact F|cbn; lia])).
  repeat split; try done; try apply SH; try (unfold shielded_out in *; lia).
  intros G. apply hasSaplingData_false. destruct (hasSaplingData tx); [|done].
  destruct (S eq_refl) as (? & ? & _). intuition congruence.
Qed.

Definition ex_spend : CTransaction := {|
  vin := [{| prevout := {| op_hash := 5; op_n := 1 |}; scriptSig := []; nSequence := SEQUENCE_FINAL |}];
  vout := [{| nValue := 3 * COIN; scriptPubKey := [OP_1 : Z] |};
           {| nValue := 72000000000 * COIN - 3 * COIN; scriptPubKey := [OP_1 : Z] |}];
  tx_nVersion := 1; nType := 0; nLockTime := 0; sapData := None; extraPayload := None
|}.

Lemma CheckTransaction_sound_witness :
  GetValueOut ex_spend = Some (sumZ nValue (vout ex_spend) + shielded_out ex_spend) /\
  NoDup (prevout <$> vin ex_spend).
Proof.
  assert (E : CheckTransaction (consensus (CreateChainParams MAIN)) ex_spend false = Valid ())
    by (vm_compute; reflexivity).
  destruct (CheckTransaction_sound MAIN ex_spend false E) as (_ & V & _ & _ & D & _).
  exact (conj V D).
Defined.
