(* ===== verification/Interpreter.v ===== *)
(** * The script interpreter

    script/interpreter.cpp: encoding checks, [EvalScript], signature hashes,
    [TransactionSignatureChecker] and [VerifyScript].  ECDSA over secp256k1 is
    an interface, as the digests are. *)

From S2P Require Import Prelude Params Crypto Script Standard Serialize Transaction.

Local Open Scope krova_scope.
Local Set Warnings "-clear-no-such-hyp".

(** ** Errors (script/script_error.h) *)

Inductive ScriptError :=
| SCRIPT_ERR_OK | SCRIPT_ERR_UNKNOWN_ERROR | SCRIPT_ERR_EVAL_FALSE | SCRIPT_ERR_OP_RETURN
| SCRIPT_ERR_SCRIPT_SIZE | SCRIPT_ERR_PUSH_SIZE | SCRIPT_ERR_OP_COUNT | SCRIPT_ERR_STACK_SIZE
| SCRIPT_ERR_SIG_COUNT | SCRIPT_ERR_PUBKEY_COUNT | SCRIPT_ERR_VERIFY | SCRIPT_ERR_EQUALVERIFY
| SCRIPT_ERR_EXCHANGEADDRVERIFY | SCRIPT_ERR_CHECKCOLDSTAKEVERIFY | SCRIPT_ERR_CHECKMULTISIGVERIFY
| SCRIPT_ERR_CHECKSIGVERIFY | SCRIPT_ERR_NUMEQUALVERIFY | SCRIPT_ERR_BAD_OPCODE
| SCRIPT_ERR_DISABLED_OPCODE | SCRIPT_ERR_INVALID_STACK_OPERATION
| SCRIPT_ERR_INVALID_ALTSTACK_OPERATION | SCRIPT_ERR_UNBALANCED_CONDITIONAL
| SCRIPT_ERR_NEGATIVE_LOCKTIME | SCRIPT_ERR_UNSATISFIED_LOCKTIME | SCRIPT_ERR_SIG_HASHTYPE
| SCRIPT_ERR_SIG_DER | SCRIPT_ERR_MINIMALDATA | SCRIPT_ERR_SIG_PUSHONLY | SCRIPT_ERR_SIG_HIGH_S
| SCRIPT_ERR_SIG_NULLDUMMY | SCRIPT_ERR_PUBKEYTYPE | SCRIPT_ERR_CLEANSTACK
| SCRIPT_ERR_DISCOURAGE_UPGRADABLE_NOPS.

(** A computation of the interpreter: a value, [set_error] and [return false],
    a C++ exception, or a failed assertion (also: a loop that does not end). *)
Inductive Eval (A : Type) :=
| EvalOk (a : A)
| EvalError (e : ScriptError)
| EvalThrow
| EvalAbort.

Arguments EvalOk {A} _.
Arguments EvalError {A} _.
Arguments EvalThrow {A}.
Arguments EvalAbort {A}.

#[export] Instance Eval_ret : MRet Eval := fun A => EvalOk.
#[export] Instance Eval_bind : MBind Eval := fun A B f m =>
  match m with
  | EvalOk a => f a
  | EvalError e => EvalError e
  | EvalThrow => EvalThrow
  | EvalAbort => EvalAbort
  end.

Definition error_if {A} (b : bool) (e : ScriptError) (k : Eval A) : Eval A :=
  if b then EvalError e else k.

(** An assertion that fails is an abort; an exception is thrown. *)
Definition asserted {A} (o : option A) : Eval A := match o with Some a => EvalOk a | None => EvalAbort end.
Definition thrown {A} (o : option A) : Eval A := match o with Some a => EvalOk a | None => EvalThrow end.

(** ** Flags and signature hash types (script/interpreter.h) *)

Definition SIGHASH_ALL : Z := 1.
Definition SIGHASH_NONE : Z := 2.
Definition SIGHASH_SINGLE : Z := 3.
Definition SIGHASH_ANYONECANPAY : Z := 0x80.

Definition SCRIPT_VERIFY_P2SH : Z := Z.shiftl 1 0.
Definition SCRIPT_VERIFY_STRICTENC : Z := Z.shiftl 1 1.
Definition SCRIPT_VERIFY_DERSIG : Z := Z.shiftl 1 2.
Definition SCRIPT_VERIFY_LOW_S : Z := Z.shiftl 1 3.
Definition SCRIPT_VERIFY_NULLDUMMY : Z := Z.shiftl 1 4.
Definition SCRIPT_VERIFY_SIGPUSHONLY : Z := Z.shiftl 1 5.
Definition SCRIPT_VERIFY_MINIMALDATA : Z := Z.shiftl 1 6.
Definition SCRIPT_VERIFY_DISCOURAGE_UPGRADABLE_NOPS : Z := Z.shiftl 1 7.
Definition SCRIPT_VERIFY_CLEANSTACK : Z := Z.shiftl 1 8.
Definition SCRIPT_VERIFY_CHECKLOCKTIMEVERIFY : Z := Z.shiftl 1 9.
Definition SCRIPT_VERIFY_EXCHANGEADDR : Z := Z.shiftl 1 10.

(** [flags & f] as a condition. *)
Definition has_flag (flags f : Z) : bool := negb (Z.land flags f =? 0).

(** [CPubKey::Verify] on a well-formed key and [CPubKey::CheckLowS], which
    call libsecp256k1. *)
Class Ecdsa := {
  ecdsa_verify : bytes -> Z -> bytes -> bool;
  CheckLowS : bytes -> bool
}.

(** A concrete instance for examples: the signature of a key is its own bytes. *)
Definition echo_ecdsa : Ecdsa := {|
  ecdsa_verify pubkey _ sig := bool_decide (sig = pubkey);
  CheckLowS _ := true
|}.

(** ** Encodings *)

Fixpoint CastToBool (vch : bytes) : bool :=
  match vch with
  | [] => false
  | b :: rest =>
      if negb (b =? 0) then negb (bool_decide (rest = []) && (b =? 0x80)) else CastToBool rest
  end.

Definition IsCompressedOrUncompressedPubKey (vchPubKey : bytes) : bool :=
  if size vchPubKey <? COMPRESSED_PUBLIC_KEY_SIZE then false
  else if at_ vchPubKey 0 =? 0x04 then size vchPubKey =? PUBLIC_KEY_SIZE
  else if (at_ vchPubKey 0 =? 0x02) || (at_ vchPubKey 0 =? 0x03)
  then size vchPubKey =? COMPRESSED_PUBLIC_KEY_SIZE
  else false.

Definition IsValidSignatureEncoding (sig : bytes) : bool :=
  let s i := at_ sig (Z.to_nat i) in
  if size sig <? 9 then false
  else if 73 <? size sig then false
  else if negb (s 0 =? 0x30) then false
  else if negb (s 1 =? size sig - 3) then false
  else
    let lenR := s 3 in
    if size sig <=? 5 + lenR then false
    else
      let lenS := s (5 + lenR) in
      if negb (lenR + lenS + 7 =? size sig) then false
      else if negb (s 2 =? 0x02) then false
      else if lenR =? 0 then false
      else if has_flag (s 4) 0x80 then false
      else if (1 <? lenR) && (s 4 =? 0x00) && negb (has_flag (s 5) 0x80) then false
      else if negb (s (lenR + 4) =? 0x02) then false
      else if lenS =? 0 then false
      else if has_flag (s (lenR + 6)) 0x80 then false
      else if (1 <? lenS) && (s (lenR + 6) =? 0x00) && negb (has_flag (s (lenR + 7)) 0x80) then false
      else true.

Definition IsDefinedHashtypeSignature (vchSig : bytes) : bool :=
  match last vchSig with
  | None => false
  | Some b =>
      let nHashType := Z.land b (u8 (Z.lnot SIGHASH_ANYONECANPAY)) in
      negb ((nHashType <? SIGHASH_ALL) || (SIGHASH_SINGLE <? nHashType))
  end.

(** The last byte, the hash type, dropped. *)
Definition drop_last (l : bytes) : bytes := take (length l - 1) l.

Section Encodings.
Context `{Ecdsa}.

Definition IsLowDERSignature (vchSig : bytes) : Eval unit :=
  error_if (negb (IsValidSignatureEncoding vchSig)) SCRIPT_ERR_SIG_DER (
  error_if (negb (CheckLowS (drop_last vchSig))) SCRIPT_ERR_SIG_HIGH_S (
  EvalOk tt)).

Definition CheckSignatureEncoding (vchSig : bytes) (flags : Z) : Eval unit :=
  if size vchSig =? 0 then EvalOk tt
  else
    let strict := Z.lor (Z.lor SCRIPT_VERIFY_DERSIG SCRIPT_VERIFY_LOW_S) SCRIPT_VERIFY_STRICTENC in
    error_if (has_flag flags strict && negb (IsValidSignatureEncoding vchSig)) SCRIPT_ERR_SIG_DER (
    _ ← (if has_flag flags SCRIPT_VERIFY_LOW_S then IsLowDERSignature vchSig else EvalOk tt);
    error_if (has_flag flags SCRIPT_VERIFY_STRICTENC && negb (IsDefinedHashtypeSignature vchSig))
      SCRIPT_ERR_SIG_HASHTYPE (
    EvalOk tt)).

End Encodings.

Definition CheckPubKeyEncoding (vchSig : bytes) (flags : Z) : Eval unit :=
  error_if (has_flag flags SCRIPT_VERIFY_STRICTENC && negb (IsCompressedOrUncompressedPubKey vchSig))
    SCRIPT_ERR_PUBKEYTYPE (EvalOk tt).

Definition CheckMinimalPush (data : bytes) (opcode : Z) : bool :=
  if size data =? 0 then opcode =? OP_0
  else if (size data =? 1) && (1 <=? at_ data 0) && (at_ data 0 <=? 16) then opcode =? OP_1 + (at_ data 0 - 1)
  else if (size data =? 1) && (at_ data 0 =? 0x81) then opcode =? OP_1NEGATE
  else if size data <=? 75 then opcode =? size data
  else if size data <=? 255 then opcode =? OP_PUSHDATA1
  else if size data <=? 65535 then opcode =? OP_PUSHDATA2
  else true.

(** ** The machine

    The stacks are lists with the top first: [stacktop(-i)] is element [i - 1],
    and the innermost conditional is the head of [vfExec].  The code hash
    position is the part of the script after it. *)

Record EvalState := {
  stack : list bytes;
  altstack : list bytes;
  vfExec : list bool;
  nOpCount : Z;
  pbegincodehash : bytes
}.

Definition with_stack (st : EvalState) (s : list bytes) : EvalState := {|
  stack := s; altstack := altstack st; vfExec := vfExec st; nOpCount := nOpCount st;
  pbegincodehash := pbegincodehash st
|}.

Definition with_vfExec (st : EvalState) (v : list bool) : EvalState := {|
  stack := stack st; altstack := altstack st; vfExec := v; nOpCount := nOpCount st;
  pbegincodehash := pbegincodehash st
|}.

Definition with_nOpCount (st : EvalState) (n : Z) : EvalState := {|
  stack := stack st; altstack := altstack st; vfExec := vfExec st; nOpCount := n;
  pbegincodehash := pbegincodehash st
|}.

Definition with_altstack (st : EvalState) (s alt : list bytes) : EvalState := {|
  stack := s; altstack := alt; vfExec := vfExec st; nOpCount := nOpCount st;
  pbegincodehash := pbegincodehash st
|}.

Definition with_codehash (st : EvalState) (pc : bytes) : EvalState := {|
  stack := stack st; altstack := altstack st; vfExec := vfExec st; nOpCount := nOpCount st;
  pbegincodehash := pc
|}.

Definition vchFalse : bytes := [].
Definition vchTrue : bytes := [1].
Definition vchBool (b : bool) : bytes := if b then vchTrue else vchFalse.

(** [stacktop(-i)]; [vector::at] throws. *)
Definition stacktop (s : list bytes) (i : Z) : Eval bytes := thrown (s !! Z.to_nat (i - 1)).

Definition too_small {A} : Eval A := EvalError SCRIPT_ERR_INVALID_STACK_OPERATION.

(** The opcodes as the enumeration, [None] for a byte that is none of them. *)
Definition all_opcodes : list opcodetype :=
  [OP_0; OP_PUSHDATA1; OP_PUSHDATA2; OP_PUSHDATA4; OP_1NEGATE; OP_RESERVED; OP_1; OP_2;
   OP_3; OP_4; OP_5; OP_6; OP_7; OP_8; OP_9; OP_10; OP_11; OP_12; OP_13; OP_14;
   OP_15; OP_16; OP_NOP; OP_VER; OP_IF; OP_NOTIF; OP_VERIF; OP_VERNOTIF; OP_ELSE;
   OP_ENDIF; OP_VERIFY; OP_RETURN; OP_TOALTSTACK; OP_FROMALTSTACK; OP_2DROP; OP_2DUP;
   OP_3DUP; OP_2OVER; OP_2ROT; OP_2SWAP; OP_IFDUP; OP_DEPTH; OP_DROP; OP_DUP; OP_NIP;
   OP_OVER; OP_PICK; OP_ROLL; OP_ROT; OP_SWAP; OP_TUCK; OP_CAT; OP_SUBSTR; OP_LEFT;
   OP_RIGHT; OP_SIZE; OP_INVERT; OP_AND; OP_OR; OP_XOR; OP_EQUAL; OP_EQUALVERIFY;
   OP_RESERVED1; OP_RESERVED2; OP_1ADD; OP_1SUB; OP_2MUL; OP_2DIV; OP_NEGATE; OP_ABS;
   OP_NOT; OP_0NOTEQUAL; OP_ADD; OP_SUB; OP_MUL; OP_DIV; OP_MOD; OP_LSHIFT; OP_RSHIFT;
   OP_BOOLAND; OP_BOOLOR; OP_NUMEQUAL; OP_NUMEQUALVERIFY; OP_NUMNOTEQUAL; OP_LESSTHAN;
   OP_GREATERTHAN; OP_LESSTHANOREQUAL; OP_GREATERTHANOREQUAL; OP_MIN; OP_MAX; OP_WITHIN;
   OP_RIPEMD160; OP_SHA1; OP_SHA256; OP_HASH160; OP_HASH256; OP_CODESEPARATOR; OP_CHECKSIG;
   OP_CHECKSIGVERIFY; OP_CHECKMULTISIG; OP_CHECKMULTISIGVERIFY; OP_NOP1; OP_NOP2; OP_NOP3;
   OP_NOP4; OP_NOP5; OP_NOP6; OP_NOP7; OP_NOP8; OP_NOP9; OP_NOP10; OP_ZEROCOINMINT;
   OP_ZEROCOINSPEND; OP_ZEROCOINPUBLICSPEND; OP_CHECKCOLDSTAKEVERIFY_LOF;
   OP_CHECKCOLDSTAKEVERIFY; OP_EXCHANGEADDR; OP_INVALIDOPCODE].

Definition decode_opcode (opcode : Z) : option opcodetype :=
  find (fun op => opcode_value op =? opcode) all_opcodes.

Definition disabled_opcode (opcode : Z) : bool :=
  existsb (fun op => opcode_value op =? opcode)
    [OP_CAT; OP_SUBSTR; OP_LEFT; OP_RIGHT; OP_INVERT; OP_AND; OP_OR; OP_XOR; OP_2MUL; OP_2DIV;
     OP_MUL; OP_DIV; OP_MOD; OP_LSHIFT; OP_RSHIFT].

(** ** Stack operations *)

(** The opcodes that only rearrange the stack. *)
Definition exec_stack_op (op : opcodetype) (s : list bytes) : Eval (list bytes) :=
  match op, s with
  | OP_2DROP, _ :: _ :: s => EvalOk s
  | OP_2DUP, x2 :: x1 :: _ => EvalOk (x2 :: x1 :: s)
  | OP_3DUP, x3 :: x2 :: x1 :: _ => EvalOk (x3 :: x2 :: x1 :: s)
  | OP_2OVER, x4 :: x3 :: x2 :: x1 :: _ => EvalOk (x2 :: x1 :: s)
  | OP_2ROT, x6 :: x5 :: x4 :: x3 :: x2 :: x1 :: s => EvalOk (x2 :: x1 :: x6 :: x5 :: x4 :: x3 :: s)
  | OP_2SWAP, x4 :: x3 :: x2 :: x1 :: s => EvalOk (x2 :: x1 :: x4 :: x3 :: s)
  | OP_IFDUP, x :: _ => EvalOk (if CastToBool x then x :: s else s)
  | OP_DEPTH, _ => EvalOk (CScriptNum_serialize (size s) :: s)
  | OP_DROP, _ :: s => EvalOk s
  | OP_DUP, x :: _ => EvalOk (x :: s)
  | OP_NIP, x2 :: _ :: s => EvalOk (x2 :: s)
  | OP_OVER, x2 :: x1 :: _ => EvalOk (x1 :: s)
  | OP_ROT, x3 :: x2 :: x1 :: s => EvalOk (x1 :: x3 :: x2 :: s)
  | OP_SWAP, x2 :: x1 :: s => EvalOk (x1 :: x2 :: s)
  | OP_TUCK, x2 :: x1 :: s => EvalOk (x2 :: x1 :: x2 :: s)
  | OP_SIZE, x :: _ => EvalOk (CScriptNum_serialize (size x) :: s)
  | _, _ => too_small
  end.

(** [OP_PICK] and [OP_ROLL] *)
Definition exec_pick (fRequireMinimal roll : bool) (s : list bytes) : Eval (list bytes) :=
  match s with
  | x :: ((_ :: _) as s) =>
      n ← thrown (CScriptNum x fRequireMinimal nDefaultMaxNumSize);
      let n := getint n in
      if (n <? 0) || (size s <=? n) then too_small
      else
        vch ← stacktop s (n + 1);
        EvalOk (vch :: if roll : bool then delete (Z.to_nat n) s else s)
  | _ => too_small
  end.

(** ** Numeric operations *)

Definition of_bool (b : bool) : Z := if b then 1 else 0.

Definition exec_num1 (op : opcodetype) (bn : Z) : Eval Z :=
  match op with
  | OP_1ADD => if bn <=? INT64_MAX - 1 then EvalOk (bn + 1) else EvalAbort
  | OP_1SUB => if INT64_MIN + 1 <=? bn then EvalOk (bn - 1) else EvalAbort
  | OP_NEGATE => asserted (CScriptNum_neg bn)
  | OP_ABS => if bn <? 0 then asserted (CScriptNum_neg bn) else EvalOk bn
  | OP_NOT => EvalOk (of_bool (bn =? 0))
  | OP_0NOTEQUAL => EvalOk (of_bool (negb (bn =? 0)))
  | _ => EvalAbort
  end.

Definition exec_num2 (op : opcodetype) (bn1 bn2 : Z) : Eval Z :=
  match op with
  | OP_ADD => EvalOk (i64 (bn1 + bn2))
  | OP_SUB => EvalOk (i64 (bn1 - bn2))
  | OP_BOOLAND => EvalOk (of_bool (negb (bn1 =? 0) && negb (bn2 =? 0)))
  | OP_BOOLOR => EvalOk (of_bool (negb (bn1 =? 0) || negb (bn2 =? 0)))
  | OP_NUMEQUAL => EvalOk (of_bool (bn1 =? bn2))
  | OP_NUMEQUALVERIFY => EvalOk (of_bool (bn1 =? bn2))
  | OP_NUMNOTEQUAL => EvalOk (of_bool (negb (bn1 =? bn2)))
  | OP_LESSTHAN => EvalOk (of_bool (bn1 <? bn2))
  | OP_GREATERTHAN => EvalOk (of_bool (bn2 <? bn1))
  | OP_LESSTHANOREQUAL => EvalOk (of_bool (bn1 <=? bn2))
  | OP_GREATERTHANOREQUAL => EvalOk (of_bool (bn2 <=? bn1))
  | OP_MIN => EvalOk (if bn1 <? bn2 then bn1 else bn2)
  | OP_MAX => EvalOk (if bn2 <? bn1 then bn1 else bn2)
  | _ => EvalAbort
  end.

Definition exec_unary (fRequireMinimal : bool) (op : opcodetype) (s : list bytes) : Eval (list bytes) :=
  match s with
  | x :: s =>
      bn ← thrown (CScriptNum x fRequireMinimal nDefaultMaxNumSize);
      bn ← exec_num1 op bn;
      EvalOk (CScriptNum_serialize bn :: s)
  | _ => too_small
  end.

Definition exec_binary (fRequireMinimal : bool) (op : opcodetype) (s : list bytes) : Eval (list bytes) :=
  match s with
  | x2 :: x1 :: s =>
      bn1 ← thrown (CScriptNum x1 fRequireMinimal nDefaultMaxNumSize);
      bn2 ← thrown (CScriptNum x2 fRequireMinimal nDefaultMaxNumSize);
      bn ← exec_num2 op bn1 bn2;
      match op with
      | OP_NUMEQUALVERIFY =>
          if CastToBool (CScriptNum_serialize bn) then EvalOk s else EvalError SCRIPT_ERR_NUMEQUALVERIFY
      | _ => EvalOk (CScriptNum_serialize bn :: s)
      end
  | _ => too_small
  end.

Definition exec_within (fRequireMinimal : bool) (s : list bytes) : Eval (list bytes) :=
  match s with
  | x3 :: x2 :: x1 :: s =>
      bn1 ← thrown (CScriptNum x1 fRequireMinimal nDefaultMaxNumSize);
      bn2 ← thrown (CScriptNum x2 fRequireMinimal nDefaultMaxNumSize);
      bn3 ← thrown (CScriptNum x3 fRequireMinimal nDefaultMaxNumSize);
      EvalOk (vchBool ((bn2 <=? bn1) && (bn1 <? bn3)) :: s)
  | _ => too_small
  end.

(** [OP_EQUAL] and [OP_EQUALVERIFY] *)
Definition exec_equal (verify : bool) (s : list bytes) : Eval (list bytes) :=
  match s with
  | vch2 :: vch1 :: s =>
      let fEqual := bool_decide (vch1 = vch2) in
      if verify then error_if (negb fEqual) SCRIPT_ERR_EQUALVERIFY (EvalOk s)
      else EvalOk (vchBool fEqual :: s)
  | _ => too_small
  end.

Definition exec_hash `{HashFunctions} (op : opcodetype) (s : list bytes) : Eval (list bytes) :=
  match s with
  | vch :: s =>
      let vchHash :=
        match op with
        | OP_RIPEMD160 => RIPEMD160 vch
        | OP_SHA1 => SHA1 vch
        | OP_SHA256 => SHA256 vch
        | OP_HASH160 => Hash160 vch
        | _ => Hash256 vch
        end in
      EvalOk (vchHash :: s)
  | _ => too_small
  end.

(** ** Signature checkers

    [BaseSignatureChecker]: what the interpreter asks of the transaction that
    spends the output.  The stack [CheckColdStake] reads is not changed. *)
Record BaseSignatureChecker := {
  CheckSig : bytes -> bytes -> CScript -> SigVersion -> Eval bool;
  CheckLockTime : Z -> Eval bool;
  CheckColdStake : bool -> CScript -> list bytes -> Z -> Eval unit
}.

Section Evaluation.
Context `{HashFunctions, Ecdsa}.
Context (script : CScript) (flags : Z) (checker : BaseSignatureChecker) (sigversion : SigVersion).

Definition fRequireMinimal : bool := has_flag flags SCRIPT_VERIFY_MINIMALDATA.

(** [OP_CHECKSIG] and [OP_CHECKSIGVERIFY]; [pbegincodehash, pend) is the code
    that is signed, without the signature. *)
Definition exec_checksig (verify : bool) (code : bytes) (s : list bytes) : Eval (list bytes) :=
  match s with
  | vchPubKey :: vchSig :: s =>
      '(_, scriptCode) ← asserted (FindAndDelete code (push_data [] vchSig));
      _ ← CheckSignatureEncoding vchSig flags;
      _ ← CheckPubKeyEncoding vchPubKey flags;
      fSuccess ← CheckSig checker vchSig vchPubKey scriptCode sigversion;
      if verify then error_if (negb fSuccess) SCRIPT_ERR_CHECKSIGVERIFY (EvalOk s)
      else EvalOk (vchBool fSuccess :: s)
  | _ => too_small
  end.

(** The signatures [stacktop(-isig-k)], [k < n], dropped from the code. *)
Fixpoint delete_sigs (s : list bytes) (isig : Z) (n : nat) (scriptCode : CScript) : Eval CScript :=
  match n with
  | O => EvalOk scriptCode
  | S n =>
      vchSig ← stacktop s isig;
      '(_, scriptCode) ← asserted (FindAndDelete scriptCode (push_data [] vchSig));
      delete_sigs s (isig + 1) n scriptCode
  end.

(** [while (fSuccess && nSigsCount > 0)] *)
Fixpoint multisig_loop (fuel : nat) (s : list bytes) (scriptCode : CScript)
    (isig nSigsCount ikey nKeysCount : Z) : Eval bool :=
  if nSigsCount <=? 0 then EvalOk true
  else
    match fuel with
    | O => EvalAbort
    | S fuel =>
        vchSig ← stacktop s isig;
        vchPubKey ← stacktop s ikey;
        _ ← CheckSignatureEncoding vchSig flags;
        _ ← CheckPubKeyEncoding vchPubKey flags;
        fOk ← CheckSig checker vchSig vchPubKey scriptCode sigversion;
        let isig := if fOk : bool then isig + 1 else isig in
        let nSigsCount := if fOk : bool then nSigsCount - 1 else nSigsCount in
        let ikey := ikey + 1 in
        let nKeysCount := nKeysCount - 1 in
        if nKeysCount <? nSigsCount then EvalOk false
        else multisig_loop fuel s scriptCode isig nSigsCount ikey nKeysCount
    end.

(** [OP_CHECKMULTISIG] and [OP_CHECKMULTISIGVERIFY] *)
Definition exec_checkmultisig (verify : bool) (st : EvalState) : Eval EvalState :=
  let s := stack st in
  let i := 1 in
  if size s <? i then too_small
  else
    x ← stacktop s i;
    n ← thrown (CScriptNum x fRequireMinimal nDefaultMaxNumSize);
    let nKeysCount := getint n in
    error_if ((nKeysCount <? 0) || (MAX_PUBKEYS_PER_MULTISIG <? nKeysCount)) SCRIPT_ERR_PUBKEY_COUNT (
    let nOps := nOpCount st + nKeysCount in
    error_if (201 <? nOps) SCRIPT_ERR_OP_COUNT (
    let i := i + 1 in
    let ikey := i in
    let i := i + nKeysCount in
    if size s <? i then too_small
    else
      x ← stacktop s i;
      n ← thrown (CScriptNum x fRequireMinimal nDefaultMaxNumSize);
      let nSigsCount := getint n in
      error_if ((nSigsCount <? 0) || (nKeysCount <? nSigsCount)) SCRIPT_ERR_SIG_COUNT (
      let i := i + 1 in
      let isig := i in
      let i := i + nSigsCount in
      if size s <? i then too_small
      else
        scriptCode ← delete_sigs s isig (Z.to_nat nSigsCount) (pbegincodehash st);
        fSuccess ← multisig_loop (S (Z.to_nat nKeysCount)) s scriptCode isig nSigsCount ikey nKeysCount;
        match drop (Z.to_nat (i - 1)) s with
        | [] => too_small
        | dummy :: s =>
            error_if (has_flag flags SCRIPT_VERIFY_NULLDUMMY && negb (size dummy =? 0))
              SCRIPT_ERR_SIG_NULLDUMMY (
            let st := with_nOpCount st nOps in
            if verify then error_if (negb fSuccess) SCRIPT_ERR_CHECKMULTISIGVERIFY (EvalOk (with_stack st s))
            else EvalOk (with_stack st (vchBool fSuccess :: s)))
        end))).

(** [OP_CHECKLOCKTIMEVERIFY] *)
Definition exec_cltv (s : list bytes) : Eval unit :=
  if negb (has_flag flags SCRIPT_VERIFY_CHECKLOCKTIMEVERIFY) then
    error_if (has_flag flags SCRIPT_VERIFY_DISCOURAGE_UPGRADABLE_NOPS)
      SCRIPT_ERR_DISCOURAGE_UPGRADABLE_NOPS (EvalOk tt)
  else
    match s with
    | [] => too_small
    | x :: _ =>
        nLockTime ← thrown (CScriptNum x fRequireMinimal 5);
        error_if (nLockTime <? 0) SCRIPT_ERR_NEGATIVE_LOCKTIME (
        fOk ← CheckLockTime checker nLockTime;
        error_if (negb fOk) SCRIPT_ERR_UNSATISFIED_LOCKTIME (EvalOk tt))
    end.

(** [OP_IF] and [OP_NOTIF] *)
Definition exec_if (notif fExec : bool) (st : EvalState) : Eval EvalState :=
  if fExec then
    match stack st with
    | [] => EvalError SCRIPT_ERR_UNBALANCED_CONDITIONAL
    | vch :: s =>
        let fValue := if notif then negb (CastToBool vch) else CastToBool vch in
        EvalOk (with_vfExec (with_stack st s) (fValue :: vfExec st))
    end
  else EvalOk (with_vfExec st (false :: vfExec st)).

(** The [switch]; [pc] is the code after the opcode. *)
Definition exec_op (op : opcodetype) (fExec : bool) (pc : bytes) (st : EvalState) : Eval EvalState :=
  let on_stack (r : Eval (list bytes)) := s ← r; EvalOk (with_stack st s) in
  match op with
  | OP_1NEGATE | OP_1 | OP_2 | OP_3 | OP_4 | OP_5 | OP_6 | OP_7 | OP_8 | OP_9 | OP_10 | OP_11
  | OP_12 | OP_13 | OP_14 | OP_15 | OP_16 =>
      EvalOk (with_stack st (CScriptNum_serialize (op - (OP_1 - 1)) :: stack st))
  | OP_NOP => EvalOk st
  | OP_EXCHANGEADDR =>
      error_if (negb (has_flag flags SCRIPT_VERIFY_EXCHANGEADDR)) SCRIPT_ERR_BAD_OPCODE (
      error_if (negb (IsPayToExchangeAddress script)) SCRIPT_ERR_EXCHANGEADDRVERIFY (EvalOk st))
  | OP_NOP2 => _ ← exec_cltv (stack st); EvalOk st
  | OP_NOP1 | OP_NOP3 | OP_NOP4 | OP_NOP5 | OP_NOP6 | OP_NOP7 | OP_NOP8 | OP_NOP9 | OP_NOP10 =>
      error_if (has_flag flags SCRIPT_VERIFY_DISCOURAGE_UPGRADABLE_NOPS)
        SCRIPT_ERR_DISCOURAGE_UPGRADABLE_NOPS (EvalOk st)
  | OP_IF => exec_if false fExec st
  | OP_NOTIF => exec_if true fExec st
  | OP_ELSE =>
      match vfExec st with
      | [] => EvalError SCRIPT_ERR_UNBALANCED_CONDITIONAL
      | b :: v => EvalOk (with_vfExec st (negb b :: v))
      end
  | OP_ENDIF =>
      match vfExec st with
      | [] => EvalError SCRIPT_ERR_UNBALANCED_CONDITIONAL
      | _ :: v => EvalOk (with_vfExec st v)
      end
  | OP_VERIFY =>
      match stack st with
      | [] => too_small
      | x :: s => error_if (negb (CastToBool x)) SCRIPT_ERR_VERIFY (EvalOk (with_stack st s))
      end
  | OP_RETURN => EvalError SCRIPT_ERR_OP_RETURN
  | OP_TOALTSTACK =>
      match stack st with
      | [] => too_small
      | x :: s => EvalOk (with_altstack st s (x :: altstack st))
      end
  | OP_FROMALTSTACK =>
      match altstack st with
      | [] => EvalError SCRIPT_ERR_INVALID_ALTSTACK_OPERATION
      | x :: alt => EvalOk (with_altstack st (x :: stack st) alt)
      end
  | OP_2DROP | OP_2DUP | OP_3DUP | OP_2OVER | OP_2ROT | OP_2SWAP | OP_IFDUP | OP_DEPTH | OP_DROP
  | OP_DUP | OP_NIP | OP_OVER | OP_ROT | OP_SWAP | OP_TUCK | OP_SIZE =>
      on_stack (exec_stack_op op (stack st))
  | OP_PICK => on_stack (exec_pick fRequireMinimal false (stack st))
  | OP_ROLL => on_stack (exec_pick fRequireMinimal true (stack st))
  | OP_EQUAL => on_stack (exec_equal false (stack st))
  | OP_EQUALVERIFY => on_stack (exec_equal true (stack st))
  | OP_1ADD | OP_1SUB | OP_NEGATE | OP_ABS | OP_NOT | OP_0NOTEQUAL =>
      on_stack (exec_unary fRequireMinimal op (stack st))
  | OP_ADD | OP_SUB | OP_BOOLAND | OP_BOOLOR | OP_NUMEQUAL | OP_NUMEQUALVERIFY | OP_NUMNOTEQUAL
  | OP_LESSTHAN | OP_GREATERTHAN | OP_LESSTHANOREQUAL | OP_GREATERTHANOREQUAL | OP_MIN | OP_MAX =>
      on_stack (exec_binary fRequireMinimal op (stack st))
  | OP_WITHIN => on_stack (exec_within fRequireMinimal (stack st))
  | OP_RIPEMD160 | OP_SHA1 | OP_SHA256 | OP_HASH160 | OP_HASH256 => on_stack (exec_hash op (stack st))
  | OP_CODESEPARATOR => EvalOk (with_codehash st pc)
  | OP_CHECKSIG => on_stack (exec_checksig false (pbegincodehash st) (stack st))
  | OP_CHECKSIGVERIFY => on_stack (exec_checksig true (pbegincodehash st) (stack st))
  | OP_CHECKMULTISIG => exec_checkmultisig false st
  | OP_CHECKMULTISIGVERIFY => exec_checkmultisig true st
  | OP_CHECKCOLDSTAKEVERIFY => _ ← CheckColdStake checker false script (stack st) flags; EvalOk st
  | OP_CHECKCOLDSTAKEVERIFY_LOF => _ ← CheckColdStake checker true script (stack st) flags; EvalOk st
  | _ => EvalError SCRIPT_ERR_BAD_OPCODE
  end.

(** One turn of the loop, after [GetOp]. *)
Definition EvalScript_step (opcode : Z) (vchPushValue pc : bytes) (st : EvalState) : Eval EvalState :=
  let fExec := forallb id (vfExec st) in
  error_if (MAX_SCRIPT_ELEMENT_SIZE <? size vchPushValue) SCRIPT_ERR_PUSH_SIZE (
  let st := if OP_16 <? opcode then with_nOpCount st (nOpCount st + 1) else st in
  error_if ((OP_16 <? opcode) && (201 <? nOpCount st)) SCRIPT_ERR_OP_COUNT (
  error_if (disabled_opcode opcode) SCRIPT_ERR_DISABLED_OPCODE (
  st ← (if fExec && (0 <=? opcode) && (opcode <=? OP_PUSHDATA4) then
          error_if (fRequireMinimal && negb (CheckMinimalPush vchPushValue opcode)) SCRIPT_ERR_MINIMALDATA (
          EvalOk (with_stack st (vchPushValue :: stack st)))
        else if fExec || ((OP_IF <=? opcode) && (opcode <=? OP_ENDIF)) then
          match decode_opcode opcode with
          | Some op => exec_op op fExec pc st
          | None => EvalError SCRIPT_ERR_BAD_OPCODE
          end
        else EvalOk st);
  error_if (1000 <? size (stack st) + size (altstack st)) SCRIPT_ERR_STACK_SIZE (EvalOk st)))).

(** [while (pc < pend)]; every turn reads at least one byte. *)
Fixpoint EvalScript_loop (fuel : nat) (pc : bytes) (st : EvalState) : Eval EvalState :=
  match pc with
  | [] => EvalOk st
  | _ =>
      match fuel with
      | O => EvalAbort
      | S fuel =>
          match GetOp2 pc with
          | GetOp_false _ => EvalError SCRIPT_ERR_BAD_OPCODE
          | GetOp_true opcode vch pc => st ← EvalScript_step opcode vch pc st; EvalScript_loop fuel pc st
          end
      end
  end.

Definition EvalScript_init (s : list bytes) : EvalState :=
  {| stack := s; altstack := []; vfExec := []; nOpCount := 0; pbegincodehash := script |}.

(** The stack after the script. *)
Definition EvalScript (s : list bytes) : Eval (list bytes) :=
  error_if (MAX_SCRIPT_SIZE <? size script) SCRIPT_ERR_SCRIPT_SIZE (
  match EvalScript_loop (length script) script (EvalScript_init s) with
  | EvalOk st =>
      error_if (negb (bool_decide (vfExec st = []))) SCRIPT_ERR_UNBALANCED_CONDITIONAL (EvalOk (stack st))
  | EvalError e => EvalError e
  | EvalThrow => EvalError SCRIPT_ERR_UNKNOWN_ERROR
  | EvalAbort => EvalAbort
  end).

End Evaluation.

(** ** VerifyScript *)

Section Verify.
Context `{HashFunctions, Ecdsa}.

Definition VerifyScript (scriptSig scriptPubKey : CScript) (flags : Z) (checker : BaseSignatureChecker)
    (sigversion : SigVersion) : Eval unit :=
  let eval_true (s : list bytes) : Eval unit :=
    match s with
    | [] => EvalError SCRIPT_ERR_EVAL_FALSE
    | x :: _ => error_if (negb (CastToBool x)) SCRIPT_ERR_EVAL_FALSE (EvalOk tt)
    end in
  pushOnly ← asserted (IsPushOnly scriptSig);
  error_if (has_flag flags SCRIPT_VERIFY_SIGPUSHONLY && negb pushOnly) SCRIPT_ERR_SIG_PUSHONLY (
  s ← EvalScript scriptSig flags checker sigversion [];
  let stackCopy := if has_flag flags SCRIPT_VERIFY_P2SH then s else [] in
  s ← EvalScript scriptPubKey flags checker sigversion s;
  _ ← eval_true s;
  s ← (if has_flag flags SCRIPT_VERIFY_P2SH && IsPayToScriptHash scriptPubKey then
         error_if (negb pushOnly) SCRIPT_ERR_SIG_PUSHONLY (
         match stackCopy with
         | [] => EvalAbort
         | pubKey2 :: s =>
             s ← EvalScript pubKey2 flags checker sigversion s;
             _ ← eval_true s;
             EvalOk s
         end)
       else EvalOk s);
  if has_flag flags SCRIPT_VERIFY_CLEANSTACK then
    if negb (has_flag flags SCRIPT_VERIFY_P2SH) then EvalAbort
    else error_if (negb (size s =? 1)) SCRIPT_ERR_CLEANSTACK (EvalOk tt)
  else EvalOk tt).

End Verify.

(** ** Signature hashes *)

Definition NOT_AN_INPUT : Z := 0xffffffff.
Definition UINT256_ONE : Z := 1.

(** *** CTransactionSignatureSerializer *)

Section Serializer.
Context (txTo : CTransaction) (scriptCode : CScript) (nIn nHashType : Z).

Definition fAnyoneCanPay : bool := has_flag nHashType SIGHASH_ANYONECANPAY.
Definition fHashSingle : bool := Z.land nHashType 0x1f =? SIGHASH_SINGLE.
Definition fHashNone : bool := Z.land nHashType 0x1f =? SIGHASH_NONE.

(** The second loop of [SerializeScriptCode]: the code without its separators,
    up to the point where [GetOp] stops. *)
Fixpoint SerializeScriptCode_loop (fuel : nat) (itBegin it : bytes) : option bytes :=
  match fuel with
  | O => None
  | S fuel =>
      match GetOp2 it with
      | GetOp_true opcode _ it =>
          if opcode =? OP_CODESEPARATOR then
            rest ← SerializeScriptCode_loop fuel it it;
            Some (take (length itBegin - length it - 1) itBegin ++ rest)
          else SerializeScriptCode_loop fuel itBegin it
      | GetOp_false it => Some (take (length itBegin - length it) itBegin)
      end
  end.

(** The first loop counts the separators as [CScript::Find] does. *)
Definition SerializeScriptCode : option bytes :=
  nCodeSeparators ← Find scriptCode OP_CODESEPARATOR;
  code ← SerializeScriptCode_loop (S (length scriptCode)) scriptCode scriptCode;
  Some (WriteCompactSize (size scriptCode - nCodeSeparators) ++ code).

(** [None] for a subscript out of range. *)
Definition SerializeInput (nInput : Z) : option bytes :=
  let nInput := if fAnyoneCanPay then nIn else nInput in
  txin ← vin txTo !! Z.to_nat nInput;
  code ← (if negb (nInput =? nIn) then Some (Ser blob_fmt []) else SerializeScriptCode);
  Some (Ser COutPoint_fmt (prevout txin) ++ code ++
        (if negb (nInput =? nIn) && (fHashSingle || fHashNone) then Ser int32_fmt 0
         else Ser uint32_fmt (nSequence txin))).

Definition SerializeOutput (nOutput : Z) : option bytes :=
  if fHashSingle && negb (nOutput =? nIn) then Some (Ser CTxOut_fmt TxOut_null)
  else Ser CTxOut_fmt <$> vout txTo !! Z.to_nat nOutput.

(** [for (n = 0; n < count; n++) ...] *)
Definition serialize_each (f : Z -> option bytes) (count : Z) : option bytes :=
  parts ← mapM f (map Z.of_nat (seq 0 (Z.to_nat count)));
  Some (concat parts).

Definition SerializeForSignature : option bytes :=
  let nInputs := if fAnyoneCanPay then 1 else size (vin txTo) in
  ins ← serialize_each SerializeInput nInputs;
  let nOutputs := if fHashNone then 0 else if fHashSingle then u32 (nIn + 1) else size (vout txTo) in
  outs ← serialize_each SerializeOutput nOutputs;
  Some (Ser int16_fmt (tx_nVersion txTo) ++ Ser int16_fmt (nType txTo)
        ++ WriteCompactSize nInputs ++ ins ++ WriteCompactSize nOutputs ++ outs
        ++ Ser uint32_fmt (nLockTime txTo)).

End Serializer.

(** *** Sapling signature hashes *)

(** Personalizations: a character array padded with zeros to 16 bytes. *)
Definition PREVOUTS_HASH_PERSONALIZATION : bytes :=
  [0x50; 0x49; 0x56; 0x58; 0x50; 0x72; 0x65; 0x76; 0x6f; 0x75; 0x74; 0x48; 0x61; 0x73; 0x68; 0].
Definition SEQUENCE_HASH_PERSONALIZATION : bytes :=
  [0x50; 0x49; 0x56; 0x58; 0x53; 0x65; 0x71; 0x75; 0x65; 0x6e; 0x63; 0x48; 0x61; 0x73; 0x68; 0].
Definition OUTPUTS_HASH_PERSONALIZATION : bytes :=
  [0x50; 0x49; 0x56; 0x58; 0x4f; 0x75; 0x74; 0x70; 0x75; 0x74; 0x73; 0x48; 0x61; 0x73; 0x68; 0].
Definition SHIELDED_SPENDS_HASH_PERSONALIZATION : bytes :=
  [0x50; 0x49; 0x56; 0x58; 0x53; 0x53; 0x70; 0x65; 0x6e; 0x64; 0x73; 0x48; 0x61; 0x73; 0x68; 0].
Definition SHIELDED_OUTPUTS_HASH_PERSONALIZATION : bytes :=
  [0x50; 0x49; 0x56; 0x58; 0x53; 0x4f; 0x75; 0x74; 0x70; 0x75; 0x74; 0x48; 0x61; 0x73; 0x68; 0].

(** The first 12 bytes of [KROVACOINSigHash], then a branch id of 0. *)
Definition sighash_personalization : bytes :=
  [0x4b; 0x52; 0x4f; 0x56; 0x41; 0x43; 0x4f; 0x49; 0x4e; 0x53; 0x69; 0x67; 0; 0; 0; 0].

Section SignatureHash.
Context `{HashFunctions}.

Definition GetPrevoutHash (txTo : CTransaction) : Z :=
  BLAKE2b PREVOUTS_HASH_PERSONALIZATION (concat (map (fun i => Ser COutPoint_fmt (prevout i)) (vin txTo))).

Definition GetSequenceHash (txTo : CTransaction) : Z :=
  BLAKE2b SEQUENCE_HASH_PERSONALIZATION (concat (map (fun i => Ser uint32_fmt (nSequence i)) (vin txTo))).

Definition GetOutputsHash (txTo : CTransaction) : Z :=
  BLAKE2b OUTPUTS_HASH_PERSONALIZATION (concat (map (Ser CTxOut_fmt) (vout txTo))).

Definition GetShieldedSpendsHash (txTo : CTransaction) : option Z :=
  d ← sapData txTo;
  Some (BLAKE2b SHIELDED_SPENDS_HASH_PERSONALIZATION
    (concat (map (fun n => Ser uint256_fmt (sd_cv n) ++ Ser uint256_fmt (sd_anchor n)
                           ++ Ser uint256_fmt (sd_nullifier n) ++ Ser uint256_fmt (sd_rk n)
                           ++ Ser (array_fmt 192) (sd_zkproof n)) (vShieldedSpend d)))).

Definition GetShieldedOutputsHash (txTo : CTransaction) : option Z :=
  d ← sapData txTo;
  Some (BLAKE2b SHIELDED_OUTPUTS_HASH_PERSONALIZATION
    (concat (map (Ser OutputDescription_fmt) (vShieldedOutput d)))).

Record PrecomputedTransactionData := {
  hashPrevouts : Z;
  hashSequence : Z;
  hashOutputs : Z;
  hashShieldedSpends : Z;
  hashShieldedOutputs : Z
}.

Definition mkPrecomputedTransactionData (txTo : CTransaction) : PrecomputedTransactionData := {|
  hashPrevouts := GetPrevoutHash txTo;
  hashSequence := GetSequenceHash txTo;
  hashOutputs := GetOutputsHash txTo;
  hashShieldedSpends := default 0 (GetShieldedSpendsHash txTo);
  hashShieldedOutputs := default 0 (GetShieldedOutputsHash txTo)
|}.

(** [cache ? cache->field : computed] *)
Definition cached {A} (cache : option PrecomputedTransactionData) (f : PrecomputedTransactionData -> A)
    (computed : A) : A :=
  match cache with Some c => f c | None => computed end.

(** What the Sapling branch writes to its hasher. *)
Definition SaplingSignaturePreimage (scriptCode : CScript) (txTo : CTransaction) (nIn nHashType amount : Z)
    (cache : option PrecomputedTransactionData) : option bytes :=
  let anyone := has_flag nHashType SIGHASH_ANYONECANPAY in
  let base := Z.land nHashType 0x1f in
  let all := negb (base =? SIGHASH_SINGLE) && negb (base =? SIGHASH_NONE) in
  let hPrevouts := if negb anyone then cached cache hashPrevouts (GetPrevoutHash txTo) else 0 in
  let hSequence := if negb anyone && all then cached cache hashSequence (GetSequenceHash txTo) else 0 in
  let hOutputs :=
    if all then cached cache hashOutputs (GetOutputsHash txTo)
    else if (base =? SIGHASH_SINGLE) && (nIn <? size (vout txTo)) then
      BLAKE2b OUTPUTS_HASH_PERSONALIZATION
        (Ser CTxOut_fmt (nth (Z.to_nat nIn) (vout txTo) TxOut_null))
    else 0 in
  let '(hasSpends, hasOutputs) :=
    match sapData txTo with
    | Some d => (negb (bool_decide (vShieldedSpend d = [])), negb (bool_decide (vShieldedOutput d = [])))
    | None => (false, false)
    end in
  hSpends ← (if hasSpends : bool
             then cached cache (fun c => Some (hashShieldedSpends c)) (GetShieldedSpendsHash txTo)
             else Some 0);
  hShieldedOuts ← (if hasOutputs : bool
                   then cached cache (fun c => Some (hashShieldedOutputs c)) (GetShieldedOutputsHash txTo)
                   else Some 0);
  input ← (if nIn =? NOT_AN_INPUT then Some []
           else
             txin ← vin txTo !! Z.to_nat nIn;
             Some (Ser COutPoint_fmt (prevout txin) ++ Ser blob_fmt scriptCode
                   ++ Ser int64_fmt amount ++ Ser uint32_fmt (nSequence txin)));
  payload ← (if IsSpecialTx txTo then Ser blob_fmt <$> extraPayload txTo else Some []);
  Some (Ser int16_fmt (tx_nVersion txTo) ++ Ser int16_fmt (nType txTo)
        ++ Ser uint256_fmt hPrevouts ++ Ser uint256_fmt hSequence ++ Ser uint256_fmt hOutputs
        ++ (if hasSpends || hasOutputs
            then Ser uint256_fmt hSpends ++ Ser uint256_fmt hShieldedOuts
                 ++ Ser int64_fmt (tx_valueBalance txTo)
            else [])
        ++ input ++ payload ++ Ser uint32_fmt (nLockTime txTo) ++ Ser int32_fmt nHashType).

Definition SignatureHash (scriptCode : CScript) (txTo : CTransaction) (nIn nHashType amount : Z)
    (sigversion : SigVersion) (cache : option PrecomputedTransactionData) : Eval Z :=
  if (size (vin txTo) <=? nIn) && negb (nIn =? NOT_AN_INPUT) then EvalOk UINT256_ONE
  else
    match sigversion with
    | SIGVERSION_SAPLING =>
        data ← asserted (SaplingSignaturePreimage scriptCode txTo nIn nHashType amount cache);
        EvalOk (BLAKE2b sighash_personalization data)
    | SIGVERSION_BASE =>
        if isSaplingVersion txTo then EvalThrow
        else if (Z.land nHashType 0x1f =? SIGHASH_SINGLE) && (size (vout txTo) <=? nIn)
        then EvalOk UINT256_ONE
        else
          data ← asserted (SerializeForSignature txTo scriptCode nIn nHashType);
          EvalOk (Hash (data ++ Ser int32_fmt nHashType))
    end.

End SignatureHash.

(** ** TransactionSignatureChecker *)

Section Checker.
Context `{HashFunctions, Ecdsa}.
Context (txTo : CTransaction) (nIn amount : Z) (precomTxData : option PrecomputedTransactionData).

Definition Tx_CheckSig (vchSigIn vchPubKey : bytes) (scriptCode : CScript) (sigversion : SigVersion) : Eval bool :=
  match CPubKey vchPubKey with
  | None => EvalOk false
  | Some pubkey =>
      match last vchSigIn with
      | None => EvalOk false
      | Some nHashType =>
          sighash ← SignatureHash scriptCode txTo nIn nHashType amount sigversion precomTxData;
          EvalOk (ecdsa_verify pubkey sighash (drop_last vchSigIn))
      end
  end.

Definition Tx_CheckLockTime (nLock : Z) : Eval bool :=
  if negb (((nLockTime txTo <? LOCKTIME_THRESHOLD) && (nLock <? LOCKTIME_THRESHOLD))
           || ((LOCKTIME_THRESHOLD <=? nLockTime txTo) && (LOCKTIME_THRESHOLD <=? nLock)))
  then EvalOk false
  else if nLockTime txTo <? nLock then EvalOk false
  else
    txin ← asserted (vin txTo !! Z.to_nat nIn);
    EvalOk (negb (TxIn_IsFinal txin)).

(** The loop over the outputs [i], [i + 1], ..., of which there are [outs]. *)
Fixpoint ColdStake_outputs (fAllowLastOutputFree : bool) (prevoutScript : CScript) (outs i : Z)
    (l : list CTxOut) (outValue : Z) : Eval Z :=
  match l with
  | [] => EvalOk outValue
  | o :: l =>
      if negb (bool_decide (scriptPubKey o = prevoutScript)) then
        if negb fAllowLastOutputFree || negb (i =? outs - 1) || (outs <? 3)
        then EvalError SCRIPT_ERR_CHECKCOLDSTAKEVERIFY
        else ColdStake_outputs fAllowLastOutputFree prevoutScript outs (i + 1) l outValue
      else ColdStake_outputs fAllowLastOutputFree prevoutScript outs (i + 1) l (i64 (outValue + nValue o))
  end.

Definition Tx_CheckColdStake (fAllowLastOutputFree : bool) (prevoutScript : CScript) (s : list bytes)
    (flags : Z) : Eval unit :=
  match s with
  | [vchPubKeyHash; vchPubKey; vchSig] =>
      _ ← CheckSignatureEncoding vchSig flags;
      _ ← CheckPubKeyEncoding vchPubKey flags;
      error_if (negb (size vchPubKeyHash =? 20)) SCRIPT_ERR_SCRIPT_SIZE (
      error_if (negb (IsCoinStake txTo)) SCRIPT_ERR_CHECKCOLDSTAKEVERIFY (
      error_if (negb (size (vin txTo) =? 1)) SCRIPT_ERR_CHECKCOLDSTAKEVERIFY (
      let outs := size (vout txTo) in
      if outs <? 2 then EvalAbort
      else
        outValue ← ColdStake_outputs fAllowLastOutputFree prevoutScript outs 1 (drop 1 (vout txTo)) 0;
        error_if (outValue <? amount) SCRIPT_ERR_CHECKCOLDSTAKEVERIFY (EvalOk tt))))
  | _ => too_small
  end.

Definition TransactionSignatureChecker : BaseSignatureChecker := {|
  CheckSig := Tx_CheckSig;
  CheckLockTime := Tx_CheckLockTime;
  CheckColdStake := Tx_CheckColdStake
|}.

End Checker.

(** ** Safety of evaluation

    [sat P m]: [m] does not abort, and a value it returns satisfies [P]. *)

Definition sat {A} (P : A -> Prop) (m : Eval A) : Prop :=
  match m with EvalOk a => P a | EvalAbort => False | _ => True end.

Lemma sat_bind {A B} (P : A -> Prop) (Q : B -> Prop) (m : Eval A) (f : A -> Eval B) :
  sat P m -> (forall a, P a -> sat Q (f a)) -> sat Q (m ≫= f).
Proof. destruct m; simpl; auto. Qed.

Lemma sat_error_if {A} (P : A -> Prop) b e k : (b = false -> sat P k) -> sat P (error_if b e k).
Proof. destruct b; simpl; auto. Qed.

Lemma sat_thrown {A} (P : A -> Prop) o : (forall a, o = Some a -> P a) -> sat P (thrown o).
Proof. destruct o; simpl; auto. Qed.

Lemma sat_weaken {A} (P Q : A -> Prop) m : sat P m -> (forall a, P a -> Q a) -> sat Q m.
Proof. destruct m; simpl; auto. Qed.

(** A stack element: bytes, within the push limit. *)
Definition elem_ok (v : bytes) : Prop := bytes_ok v /\ size v <= MAX_SCRIPT_ELEMENT_SIZE.

Definition stack_ok (s : list bytes) : Prop := Forall elem_ok s.

Record machine_ok (st : EvalState) : Prop := {
  mok_stack : stack_ok (stack st);
  mok_alt : stack_ok (altstack st);
  mok_ops : nOpCount st <= 201
}.

(** What the machine relies on: a checker that does not abort. *)
Class CheckerTotal (checker : BaseSignatureChecker) : Prop := {
  CheckSig_total sig key code v : sat (fun _ => True) (CheckSig checker sig key code v);
  CheckLockTime_total n : sat (fun _ => True) (CheckLockTime checker n);
  CheckColdStake_total lof script s flags : sat (fun _ => True) (CheckColdStake checker lof script s flags)
}.

Lemma elem_ok_small v : bytes_ok v -> size v <= 32 -> elem_ok v.
Proof. split; [done|]. unfold MAX_SCRIPT_ELEMENT_SIZE. lia. Qed.

Lemma elem_ok_vchBool b : elem_ok (vchBool b).
Proof. apply elem_ok_small; destruct b; simpl; repeat constructor; unfold size; simpl; lia. Qed.

Lemma elem_ok_num n : Z.abs n <= INT64_MAX -> elem_ok (CScriptNum_serialize n).
Proof.
  intros Hn. pose proof (CScriptNum_serialize_size n). apply elem_ok_small; [|lia].
  by apply (CScriptNum_serialize_ok n 9).
Qed.

Lemma elem_ok_hash `{HashSizes} op v s r :
  exec_hash op (v :: s) = EvalOk r -> stack_ok s -> stack_ok r.
Proof.
  intros [= <-] Hs. constructor; [|done].
  assert (forall d, elem_ok (SHA256 d)) by
    (intros d; destruct (SHA256_size d) as [Hl Hb]; apply elem_ok_small; [done | unfold size; lia]).
  assert (forall d, elem_ok (RIPEMD160 d)) by
    (intros d; destruct (RIPEMD160_size d) as [Hl Hb]; apply elem_ok_small; [done | unfold size; lia]).
  assert (forall d, elem_ok (SHA1 d)) by
    (intros d; destruct (SHA1_size d) as [Hl Hb]; apply elem_ok_small; [done | unfold size; lia]).
  destruct op; unfold Hash160, Hash256; auto.
Qed.

(** Operands are 32-bit magnitudes. *)
Lemma operand_small v m n :
  elem_ok v -> CScriptNum v m nDefaultMaxNumSize = Some n -> Z.abs n <= INT32_MAX.
Proof. intros [Hv _] Hn. apply CScriptNum_range in Hn; [|done | vm_compute; discriminate]. change (256 ^ (nDefaultMaxNumSize - 1) * 128) with 2147483648 in Hn. unfold INT32_MAX. lia. Qed.

Lemma exec_num1_sat op n :
  op ∈ [OP_1ADD; OP_1SUB; OP_NEGATE; OP_ABS; OP_NOT; OP_0NOTEQUAL] -> Z.abs n <= INT32_MAX ->
  sat (fun r => Z.abs r <= INT64_MAX) (exec_num1 op n).
Proof.
  unfold INT32_MAX. intros Hop Hn. set_unfold.
  destruct_or! Hop; subst op; cbn [exec_num1]; unfold CScriptNum_neg, Prelude.assert, of_bool, INT64_MIN, INT64_MAX in *;
    repeat case_match; bool_to_prop; simpl; lia.
Qed.

Lemma exec_num2_sat op n1 n2 :
  op ∈ [OP_ADD; OP_SUB; OP_BOOLAND; OP_BOOLOR; OP_NUMEQUAL; OP_NUMEQUALVERIFY; OP_NUMNOTEQUAL; OP_LESSTHAN;
        OP_GREATERTHAN; OP_LESSTHANOREQUAL; OP_GREATERTHANOREQUAL; OP_MIN; OP_MAX] ->
  Z.abs n1 <= INT32_MAX -> Z.abs n2 <= INT32_MAX ->
  sat (fun r => Z.abs r <= INT64_MAX) (exec_num2 op n1 n2).
Proof.
  unfold INT32_MAX. intros Hop H1 H2. set_unfold.
  destruct_or! Hop; subst op; cbn [exec_num2 sat];
    try (rewrite i64_id by (unfold in_i64, INT64_MIN, INT64_MAX; lia));
    unfold of_bool, INT64_MAX; repeat case_match; lia.
Qed.

(** The stack operations keep the elements well formed. *)
Section StackSafety.
Context `{HashSizes}.

Ltac stack_ok_tac :=
  unfold stack_ok, too_small in *; repeat case_match; simplify_eq; simpl; try done;
  rewrite ?Forall_cons in *; naive_solver.

Lemma size_small_num {A} (l : list A) : size l <= 1000 -> Z.abs (size l) <= INT64_MAX.
Proof. pose proof (size_nonneg l). unfold INT64_MAX. lia. Qed.

Lemma exec_stack_op_sat op s : stack_ok s -> size s <= 1000 -> sat stack_ok (exec_stack_op op s).
Proof.
  intros Hs Hsz. assert (elem_ok (CScriptNum_serialize (size s))) by (by apply elem_ok_num, size_small_num).
  assert (forall x s', s = x :: s' -> elem_ok (CScriptNum_serialize (size x))).
  { intros x s' ->. inversion Hs as [|?? [_ Hx] _]; subst. apply elem_ok_num, size_small_num.
    unfold MAX_SCRIPT_ELEMENT_SIZE in Hx. lia. }
  unfold exec_stack_op. destruct op; stack_ok_tac.
Qed.

Lemma stacktop_sat s i : stack_ok s -> sat elem_ok (stacktop s i).
Proof. intros Hs. apply sat_thrown. intros v Hv. by eapply Forall_lookup_1. Qed.

Lemma exec_pick_sat m roll s : stack_ok s -> sat stack_ok (exec_pick m roll s).
Proof.
  intros Hs. unfold exec_pick. destruct s as [|x [|y s]]; [done|done|]. apply Forall_cons in Hs as [Hx Hs].
  eapply (sat_bind (fun _ => True)); [by apply sat_thrown|]. intros n _.
  case_match; [done|]. eapply sat_bind; [by apply stacktop_sat|]. intros v Hv.
  apply Forall_cons. split; [done|]. destruct roll; [by apply Forall_delete | done].
Qed.

Lemma exec_unary_sat m op s :
  op ∈ [OP_1ADD; OP_1SUB; OP_NEGATE; OP_ABS; OP_NOT; OP_0NOTEQUAL] ->
  stack_ok s -> sat stack_ok (exec_unary m op s).
Proof.
  intros Hop Hs. unfold exec_unary. destruct s as [|x s]; [done|]. apply Forall_cons in Hs as [Hx Hs].
  eapply sat_bind; [apply sat_thrown; intros n Hn; exact (operand_small _ _ _ Hx Hn)|]. intros n Hn.
  eapply sat_bind; [by apply exec_num1_sat|]. intros r Hr. apply Forall_cons. by split; [apply elem_ok_num|].
Qed.

Lemma exec_binary_sat m op s :
  op ∈ [OP_ADD; OP_SUB; OP_BOOLAND; OP_BOOLOR; OP_NUMEQUAL; OP_NUMEQUALVERIFY; OP_NUMNOTEQUAL; OP_LESSTHAN;
        OP_GREATERTHAN; OP_LESSTHANOREQUAL; OP_GREATERTHANOREQUAL; OP_MIN; OP_MAX] ->
  stack_ok s -> sat stack_ok (exec_binary m op s).
Proof.
  intros Hop Hs. unfold exec_binary. destruct s as [|x2 [|x1 s]]; [done|done|].
  apply Forall_cons in Hs as [Hx2 Hs]. apply Forall_cons in Hs as [Hx1 Hs].
  eapply sat_bind; [apply sat_thrown; intros n Hn; exact (operand_small _ _ _ Hx1 Hn)|]. intros n1 H1.
  eapply sat_bind; [apply sat_thrown; intros n Hn; exact (operand_small _ _ _ Hx2 Hn)|]. intros n2 H2.
  eapply sat_bind; [by apply exec_num2_sat|]. intros r Hr.
  assert (stack_ok (CScriptNum_serialize r :: s)) by (apply Forall_cons; by split; [apply elem_ok_num|]).
  destruct op; try done. by case_match.
Qed.

Lemma exec_within_sat m s : stack_ok s -> sat stack_ok (exec_within m s).
Proof.
  intros Hs. unfold exec_within. destruct s as [|x3 [|x2 [|x1 s]]]; try done. unfold stack_ok in Hs; rewrite !Forall_cons in Hs.
  do 3 (eapply (sat_bind (fun _ => True)); [by apply sat_thrown|]; intros ? _).
  apply Forall_cons. split; [apply elem_ok_vchBool | tauto].
Qed.

Lemma exec_equal_sat verify s : stack_ok s -> sat stack_ok (exec_equal verify s).
Proof.
  intros Hs. unfold exec_equal. destruct s as [|x2 [|x1 s]]; try done. unfold stack_ok in Hs; rewrite !Forall_cons in Hs.
  destruct verify; [apply sat_error_if; intros _; simpl; tauto|].
  apply Forall_cons. split; [apply elem_ok_vchBool | tauto].
Qed.

Lemma exec_hash_sat op s : stack_ok s -> sat stack_ok (exec_hash op s).
Proof.
  intros Hs. destruct s as [|x s]; [done|]. apply Forall_cons in Hs as [_ Hs].
  destruct (exec_hash op (x :: s)) eqn:E; try done. simpl. by eapply elem_ok_hash.
Qed.

End StackSafety.

Section EvalSafety.
Context `{HashSizes, Ecdsa}.
Context (script : CScript) (flags : Z) (checker : BaseSignatureChecker) (sigversion : SigVersion).
Context `{!CheckerTotal checker}.

Lemma CheckSignatureEncoding_sat sig : sat (fun _ => True) (CheckSignatureEncoding sig flags).
Proof. unfold CheckSignatureEncoding, IsLowDERSignature, error_if. by repeat case_match. Qed.

Lemma CheckPubKeyEncoding_sat sig : sat (fun _ => True) (CheckPubKeyEncoding sig flags).
Proof. unfold CheckPubKeyEncoding. by apply sat_error_if. Qed.

Lemma exec_checksig_sat verify code s :
  stack_ok s -> sat stack_ok (exec_checksig flags checker sigversion verify code s).
Proof.
  intros Hs. unfold exec_checksig. destruct s as [|key [|sig s]]; try done. unfold stack_ok in Hs; rewrite !Forall_cons in Hs.
  destruct (FindAndDelete_total code (push_data [] sig)) as (n & c & ->). cbn [asserted mbind Eval_bind].
  eapply sat_bind; [apply CheckSignatureEncoding_sat|]. intros ? _.
  eapply sat_bind; [apply CheckPubKeyEncoding_sat|]. intros ? _.
  eapply sat_bind; [apply CheckSig_total|]. intros fSuccess _.
  destruct verify; [apply sat_error_if; intros _; simpl; tauto|].
  apply Forall_cons. split; [apply elem_ok_vchBool | tauto].
Qed.

Lemma delete_sigs_sat s isig n code : sat (fun _ => True) (delete_sigs s isig n code).
Proof.
  revert isig code. induction n as [|n IH]; intros isig code; [done|]. cbn [delete_sigs].
  eapply (sat_bind (fun _ => True)); [by apply sat_thrown|]. intros sig _.
  destruct (FindAndDelete_total code (push_data [] sig)) as (k & c & ->). cbn [asserted mbind Eval_bind]. apply IH.
Qed.

(** Every turn uses up a key. *)
Lemma multisig_loop_sat fuel s code isig nSigs ikey nKeys :
  nKeys < Z.of_nat fuel -> nSigs <= nKeys ->
  sat (fun _ => True) (multisig_loop flags checker sigversion fuel s code isig nSigs ikey nKeys).
Proof.
  revert isig nSigs ikey nKeys. induction fuel as [|fuel IH]; intros isig nSigs ikey nKeys Hf Hle; cbn [multisig_loop].
  { destruct (nSigs <=? 0) eqn:E; [done|]. bool_to_prop. lia. }
  destruct (nSigs <=? 0) eqn:E; [done|]. bool_to_prop.
  do 2 (eapply (sat_bind (fun _ => True)); [by apply sat_thrown|]; intros ? _).
  eapply sat_bind; [apply CheckSignatureEncoding_sat|]. intros ? _.
  eapply sat_bind; [apply CheckPubKeyEncoding_sat|]. intros ? _.
  eapply sat_bind; [apply CheckSig_total|]. intros fOk _. cbn zeta.
  set (n := if fOk then nSigs - 1 else nSigs). destruct (nKeys - 1 <? n) eqn:En; [done|].
  bool_to_prop. apply IH; lia.
Qed.

Lemma exec_checkmultisig_sat verify st :
  machine_ok st -> sat machine_ok (exec_checkmultisig flags checker sigversion verify st).
Proof.
  intros [Hs Ha Ho]. unfold exec_checkmultisig. cbn zeta. case_match; [done|].
  do 2 (eapply (sat_bind (fun _ => True)); [by apply sat_thrown|]; intros ? _).
  apply sat_error_if. intros E1. apply sat_error_if. intros E2. case_match; [done|].
  do 2 (eapply (sat_bind (fun _ => True)); [by apply sat_thrown|]; intros ? _).
  apply sat_error_if. intros E3. bool_to_prop. case_match; [done|].
  eapply sat_bind; [apply delete_sigs_sat|]. intros code _.
  eapply sat_bind; [apply multisig_loop_sat; lia|]. intros fSuccess _.
  destruct (drop _ (stack st)) as [|dummy s] eqn:Ed; [done|].
  assert (Hs' : stack_ok s).
  { assert (stack_ok (dummy :: s)) as [_ ?]%Forall_cons by (rewrite <- Ed; by apply Forall_drop). done. }
  apply sat_error_if. intros _. pose proof (elem_ok_vchBool fSuccess).
  destruct verify; [apply sat_error_if; intros _|]; constructor; simpl; try (done || lia). by constructor.
Qed.

Lemma exec_cltv_sat s : sat (fun _ => True) (exec_cltv flags checker s).
Proof.
  unfold exec_cltv. case_match; [by apply sat_error_if|]. destruct s as [|x s]; [done|].
  eapply (sat_bind (fun _ => True)); [by apply sat_thrown|]. intros n _. apply sat_error_if. intros _.
  eapply sat_bind; [apply CheckLockTime_total|]. intros b _. by apply sat_error_if.
Qed.

Lemma exec_if_sat notif fExec st : machine_ok st -> sat machine_ok (exec_if notif fExec st).
Proof.
  intros [Hs Ha Ho]. unfold exec_if. destruct fExec; [|done]. destruct (stack st) as [|v s]; [done|].
  apply Forall_cons in Hs as [? ?]. done.
Qed.

Lemma exec_op_sat op fExec pc st :
  machine_ok st -> size (stack st) <= 1000 ->
  sat machine_ok (exec_op script flags checker sigversion op fExec pc st).
Proof.
  intros Hm Hsz. destruct Hm as [Hs Ha Ho] eqn:Em. clear Em.
  assert (Hon : forall r, sat stack_ok r -> sat machine_ok (r ≫= fun s => EvalOk (with_stack st s))).
  { intros r Hr. eapply sat_bind; [exact Hr|]. by constructor. }
  assert (Hnum : forall n, Z.abs n <= 16 -> sat machine_ok (EvalOk (with_stack st (CScriptNum_serialize n :: stack st)))).
  { intros n Hn. constructor; simpl; try done. constructor; [|done]. apply elem_ok_num. unfold INT64_MAX. lia. }
  destruct op; cbn [exec_op]; try done;
    try (apply Hnum; vm_compute; discriminate);
    try (apply Hon; first [ by apply exec_stack_op_sat | by apply exec_pick_sat | by apply exec_equal_sat
      | by apply exec_within_sat | by apply exec_hash_sat | by apply exec_checksig_sat
      | apply exec_unary_sat; [set_solver | done] | apply exec_binary_sat; [set_solver | done] ]);
    try (by apply exec_checkmultisig_sat);
    try (eapply sat_bind; [apply CheckColdStake_total || apply exec_cltv_sat | done]);
    try (by apply exec_if_sat);
    try (unfold error_if; repeat case_match; done);
    unfold error_if, too_small, stack_ok in *; repeat case_match; try done;
    rewrite ?Forall_cons in *; destruct_and?; constructor; simpl; try done; by constructor.
Qed.

(** The invariant of the loop. *)
Definition bounded (st : EvalState) : Prop :=
  machine_ok st /\ size (stack st) + size (altstack st) <= 1000.

Lemma EvalScript_step_sat opcode vch pc st :
  bytes_ok vch -> bounded st ->
  sat bounded (EvalScript_step script flags checker sigversion opcode vch pc st).
Proof.
  intros Hv [Hm Hb]. unfold EvalScript_step. apply sat_error_if. intros E1. bool_to_prop. cbn zeta.
  set (st' := if OP_16 <? opcode then _ else st).
  assert (Hst : stack st' = stack st /\ altstack st' = altstack st) by (unfold st'; by case_match).
  destruct Hst as [Est Ealt]. apply sat_error_if. intros E2. apply sat_error_if. intros _.
  assert (Hm' : machine_ok st').
  { destruct Hm as [Hs Ha Ho]. constructor; [by rewrite Est | by rewrite Ealt|].
    unfold st' in *. destruct (OP_16 <? opcode); cbn [andb] in E2; bool_to_prop; lia. }
  pose proof (size_nonneg (altstack st)).
  eapply (sat_bind machine_ok); [|intros st2 Hst2; apply sat_error_if; intros E; bool_to_prop; by split].
  case_match.
  - apply sat_error_if. intros _. destruct Hm'. constructor; simpl; try done. by repeat constructor.
  - case_match; [|done]. case_match; [|done]. apply exec_op_sat; [done|]. rewrite Est. lia.
Qed.

Lemma EvalScript_loop_sat fuel pc st :
  bytes_ok pc -> (length pc <= fuel)%nat -> bounded st ->
  sat bounded (EvalScript_loop script flags checker sigversion fuel pc st).
Proof.
  revert pc st. induction fuel as [|fuel IH]; intros pc st Hok Hf Hb; cbn [EvalScript_loop].
  { by destruct pc; [|simpl in Hf; lia]. }
  destruct pc as [|b pc]; [done|]. destruct (GetOp2 (b :: pc)) as [|op v pc'] eqn:E; [done|].
  destruct (GetOp2_ok _ _ _ _ Hok E) as (_ & Hv & Hpc). apply GetOp2_shorter in E.
  eapply sat_bind; [by apply EvalScript_step_sat|]. intros st' Hst'. apply IH; [done | simpl in *; lia | done].
Qed.

(** What a caller of [EvalScript] may put on the stack and finds there. *)
Definition stack_limits (s : list bytes) : Prop := stack_ok s /\ size s <= 1000.

Lemma EvalScript_sat s :
  bytes_ok script -> stack_limits s ->
  sat stack_limits (EvalScript script flags checker sigversion s) /\
  EvalScript script flags checker sigversion s <> EvalThrow.
Proof.
  intros Hok [Hs Hsz]. unfold EvalScript, error_if. case_match; [done|].
  assert (Hb : bounded (EvalScript_init script s)).
  { split; [by constructor; simpl; [|constructor|lia]|]. simpl. change (size (@nil bytes)) with 0. lia. }
  pose proof (EvalScript_loop_sat (length script) script _ Hok ltac:(lia) Hb) as H3.
  destruct (EvalScript_loop _ _ _ _ _ _ _) as [st| | |]; try done.
  destruct H3 as [[Hst _ _] Hz]. pose proof (size_nonneg (altstack st)). case_match; (split; [|done]); try done.
  split; [done|]. lia.
Qed.

End EvalSafety.

(** ** Reading a template: one opcode or push at a time *)

Lemma decode_opcode_value (op : opcodetype) : decode_opcode op = Some op.
Proof. by destruct op. Qed.

Section Steps.
Context `{HashFunctions, Ecdsa}.
Context (script : CScript) (flags : Z) (checker : BaseSignatureChecker) (sigversion : SigVersion).

Abbreviation loop := (EvalScript_loop script flags checker sigversion).
Abbreviation op_exec := (exec_op script flags checker sigversion).

(** [st] after an opcode that counts. *)
Definition counted (st : EvalState) : EvalState := with_nOpCount st (nOpCount st + 1).

Definition within_limits (st : EvalState) : Eval EvalState :=
  error_if (1000 <? size (stack st) + size (altstack st)) SCRIPT_ERR_STACK_SIZE (EvalOk st).

Lemma within_limits_ok st : size (stack st) + size (altstack st) <= 1000 -> within_limits st = EvalOk st.
Proof. intros Hs. unfold within_limits. by rewrite (proj2 (Z.ltb_ge _ _)). Qed.

Lemma GetOp2_opcode (op : opcodetype) pc : OP_PUSHDATA4 < op -> GetOp2 (opcode_value op :: pc) = GetOp_true op [] pc.
Proof. intros Hop. cbn [GetOp2]. by rewrite (proj2 (Z.leb_gt _ _)) by done. Qed.

Lemma loop_op fuel (op : opcodetype) pc st :
  OP_16 < op -> disabled_opcode op = false -> forallb id (vfExec st) = true -> nOpCount st <= 200 ->
  loop (S fuel) (opcode_value op :: pc) st =
    (st ← op_exec op true pc (counted st); st ← within_limits st; loop fuel pc st).
Proof.
  intros Hop Hd Hx Hn. cbn [EvalScript_loop]. rewrite GetOp2_opcode by (cbn [opcode_value] in *; lia).
  unfold EvalScript_step. rewrite Hx. cbn zeta. cbn [error_if]. change (MAX_SCRIPT_ELEMENT_SIZE <? size []) with false.
  cbv iota. rewrite (proj2 (Z.ltb_lt _ _) Hop). cbn [andb counted with_nOpCount nOpCount].
  rewrite (proj2 (Z.ltb_ge 201 _)), Hd by lia. unfold error_if at 1 2.
  rewrite (proj2 (Z.leb_gt op OP_PUSHDATA4)) by (cbn [opcode_value] in *; lia).
  rewrite andb_false_r. cbn [orb]. rewrite decode_opcode_value. unfold within_limits.
  by destruct (op_exec op true pc _) as [st'| | |].
Qed.

(** A push in an executed branch. *)
Lemma loop_push_at fuel code opcode d pc st :
  GetOp2 code = GetOp_true opcode d pc -> 0 <= opcode <= OP_PUSHDATA4 ->
  size d <= MAX_SCRIPT_ELEMENT_SIZE -> forallb id (vfExec st) = true ->
  loop (S fuel) code st =
    error_if (fRequireMinimal flags && negb (CheckMinimalPush d opcode)) SCRIPT_ERR_MINIMALDATA
      (st ← within_limits (with_stack st (d :: stack st)); loop fuel pc st).
Proof.
  intros HG Hop Hd Hx. cbn [EvalScript_loop]. destruct code as [|b l]; [by simpl in HG|]. rewrite HG. clear HG.
  unfold EvalScript_step. rewrite Hx, (proj2 (Z.ltb_ge _ _) Hd). cbn [error_if]. cbn zeta.
  assert (H16 : (OP_16 <? opcode) = false) by (apply Z.ltb_ge; cbn [opcode_value] in *; lia).
  assert (Hdis : disabled_opcode opcode = false).
  { unfold disabled_opcode. cbn [existsb opcode_value] in *. rewrite !(proj2 (Z.eqb_neq _ _)) by lia. done. }
  rewrite H16, Hdis, (proj2 (Z.leb_le 0 opcode)), (proj2 (Z.leb_le opcode _)) by lia. cbn [andb error_if].
  destruct (fRequireMinimal flags && _); [done|]. unfold within_limits, error_if. cbn [mbind Eval_bind].
  by destruct (1000 <? _).
Qed.

(** Whichever push opcode encodes it. *)
Lemma loop_push fuel d pc st :
  size d <= MAX_SCRIPT_ELEMENT_SIZE -> forallb id (vfExec st) = true ->
  exists opcode, 0 <= opcode <= OP_PUSHDATA4 /\
  loop (S fuel) (push_data [] d ++ pc) st =
    error_if (fRequireMinimal flags && negb (CheckMinimalPush d opcode)) SCRIPT_ERR_MINIMALDATA
      (st ← within_limits (with_stack st (d :: stack st)); loop fuel pc st).
Proof.
  intros Hd Hx. destruct (GetOp2_push_data d pc) as (op & HG & Hop).
  { unfold MAX_SCRIPT_ELEMENT_SIZE in Hd. lia. }
  exists op. split; [done|]. by apply loop_push_at.
Qed.

(** Opcodes and pushes in a branch that is not executed. *)
Lemma loop_skip_push fuel d pc st :
  size d <= MAX_SCRIPT_ELEMENT_SIZE -> forallb id (vfExec st) = false ->
  loop (S fuel) (push_data [] d ++ pc) st = (st ← within_limits st; loop fuel pc st).
Proof.
  intros Hd Hx. destruct (GetOp2_push_data d pc) as (op & HG & Hop).
  { unfold MAX_SCRIPT_ELEMENT_SIZE in Hd. lia. }
  cbn [EvalScript_loop]. destruct (push_data [] d ++ pc) as [|b l] eqn:El; [by simpl in HG|]. rewrite HG. clear El HG.
  unfold EvalScript_step. rewrite Hx, (proj2 (Z.ltb_ge _ _) Hd). cbn [error_if]. cbn zeta.
  assert (H16 : (OP_16 <? op) = false) by (apply Z.ltb_ge; cbn [opcode_value] in *; lia).
  assert (Hdis : disabled_opcode op = false).
  { unfold disabled_opcode. cbn [existsb opcode_value] in *. rewrite !(proj2 (Z.eqb_neq _ _)) by lia. done. }
  assert (Hif : (OP_IF <=? op) = false) by (apply Z.leb_gt; cbn [opcode_value] in *; lia).
  by rewrite H16, Hdis, Hif.
Qed.

(** A control opcode, executed or not, and an opcode that is skipped. *)
Lemma loop_control fuel (op : opcodetype) pc st :
  OP_IF <= op <= OP_ENDIF -> nOpCount st <= 200 ->
  loop (S fuel) (opcode_value op :: pc) st =
    (st ← op_exec op (forallb id (vfExec st)) pc (counted st); st ← within_limits st; loop fuel pc st).
Proof.
  intros [Hlo Hhi] Hn. cbn [EvalScript_loop]. rewrite GetOp2_opcode by (cbn [opcode_value] in *; lia).
  unfold EvalScript_step. cbn zeta. change (MAX_SCRIPT_ELEMENT_SIZE <? size []) with false. cbn [error_if].
  rewrite (proj2 (Z.ltb_lt OP_16 op)) by (cbn [opcode_value] in *; lia).
  cbn [andb counted with_nOpCount nOpCount]. rewrite (proj2 (Z.ltb_ge 201 _)) by lia.
  assert (Hdis : disabled_opcode op = false).
  { unfold disabled_opcode. cbn [existsb opcode_value] in *. rewrite !(proj2 (Z.eqb_neq _ _)) by lia. done. }
  rewrite Hdis, (proj2 (Z.leb_gt op OP_PUSHDATA4)), andb_false_r by (cbn [opcode_value] in *; lia).
  rewrite (proj2 (Z.leb_le OP_IF op)), (proj2 (Z.leb_le op OP_ENDIF)), orb_true_r by done.
  rewrite decode_opcode_value. cbn [error_if]. unfold within_limits.
  by destruct (op_exec op _ pc _) as [st'| | |].
Qed.

Lemma loop_skip_op fuel (op : opcodetype) pc st :
  OP_ENDIF < op -> disabled_opcode op = false -> forallb id (vfExec st) = false -> nOpCount st <= 200 ->
  loop (S fuel) (opcode_value op :: pc) st = (st ← within_limits (counted st); loop fuel pc st).
Proof.
  intros Hop Hd Hx Hn. cbn [EvalScript_loop]. rewrite GetOp2_opcode by (cbn [opcode_value] in *; lia).
  unfold EvalScript_step. rewrite Hx. cbn zeta. change (MAX_SCRIPT_ELEMENT_SIZE <? size []) with false.
  cbn [error_if]. rewrite (proj2 (Z.ltb_lt OP_16 op)) by (cbn [opcode_value] in *; lia).
  cbn [andb orb counted with_nOpCount nOpCount]. rewrite (proj2 (Z.ltb_ge 201 _)), Hd by lia.
  by rewrite (proj2 (Z.leb_gt op OP_ENDIF)), andb_false_r by done.
Qed.

End Steps.

(** ** The transaction checker does not abort *)

Lemma SerializeScriptCode_loop_total fuel itBegin it :
  (length it < fuel)%nat -> exists code, SerializeScriptCode_loop fuel itBegin it = Some code.
Proof.
  revert itBegin it. induction fuel as [|fuel IH]; intros itBegin it Hf; [lia|]. cbn [SerializeScriptCode_loop].
  destruct (GetOp2 it) as [|op v it'] eqn:E; [eauto|]. apply GetOp2_shorter in E. case_match; [|apply IH; lia].
  destruct (IH it' it') as [code ->]; [lia|]. cbn [mbind option_bind]. eauto.
Qed.

Lemma SerializeScriptCode_total code : exists r, SerializeScriptCode code = Some r.
Proof.
  unfold SerializeScriptCode. destruct (Find_total code OP_CODESEPARATOR) as [n ->]. cbn [mbind option_bind].
  destruct (SerializeScriptCode_loop_total (S (length code)) code code) as [r ->]; [lia|]. eauto.
Qed.

Lemma serialize_each_total f count :
  (forall i, 0 <= i < count -> is_Some (f i)) -> is_Some (serialize_each f count).
Proof.
  intros Hf. unfold serialize_each. destruct (mapM f _) as [parts|] eqn:E; [by eexists|].
  apply mapM_None in E. apply Exists_exists in E as (i & Hi & Hn).
  apply list_elem_of_In, in_map_iff in Hi as (k & <- & Hk). apply in_seq in Hk.
  destruct (Hf (Z.of_nat k)) as [r Hr]; [lia|]. congruence.
Qed.

Lemma lookup_in_range {A} (l : list A) i : 0 <= i < size l -> is_Some (l !! Z.to_nat i).
Proof. intros Hi. apply lookup_lt_is_Some. unfold size in Hi. lia. Qed.

Section CheckerSafety.
Context `{HashFunctions, Ecdsa}.
Context (txTo : CTransaction) (nIn amount : Z) (cache : option PrecomputedTransactionData).
Context (Hin : 0 <= nIn < size (vin txTo)) (Hin32 : nIn < NOT_AN_INPUT).

Lemma SerializeForSignature_total code nHashType :
  (Z.land nHashType 0x1f = SIGHASH_SINGLE -> nIn < size (vout txTo)) ->
  is_Some (SerializeForSignature txTo code nIn nHashType).
Proof.
  intros Hsingle. unfold SerializeForSignature.
  assert (Hins : forall i, 0 <= i < (if fAnyoneCanPay nHashType then 1 else size (vin txTo)) ->
            is_Some (SerializeInput txTo code nIn nHashType i)).
  { intros i Hi. unfold SerializeInput. set (k := if fAnyoneCanPay nHashType then nIn else i).
    assert (0 <= k < size (vin txTo)) by (unfold k; case_match; lia).
    destruct (lookup_in_range (vin txTo) k) as [txin ->]; [done|]. cbn [mbind option_bind].
    destruct (SerializeScriptCode_total code) as [r ->]. destruct (negb (k =? nIn)); by eexists. }
  destruct (serialize_each_total _ _ Hins) as [ins ->]. cbn [mbind option_bind].
  set (nOut := if fHashNone nHashType then 0 else _).
  assert (Houts : forall i, 0 <= i < nOut -> is_Some (SerializeOutput txTo nIn nHashType i)).
  { intros i Hi. unfold SerializeOutput. destruct (fHashSingle nHashType && _) eqn:E; [by eexists|].
    destruct (lookup_in_range (vout txTo) i) as [o ->]; [|by eexists].
    unfold nOut in Hi. destruct (fHashNone nHashType); [lia|]. destruct (fHashSingle nHashType) eqn:Es; [|done].
    cbn [andb] in E. unfold fHashSingle in Es. bool_to_prop. specialize (Hsingle Es). lia. }
  destruct (serialize_each_total _ _ Houts) as [outs ->]. by eexists.
Qed.

Lemma SaplingSignaturePreimage_total code nHashType :
  is_Some (SaplingSignaturePreimage code txTo nIn nHashType amount cache).
Proof.
  unfold SaplingSignaturePreimage. cbn zeta. rewrite (proj2 (Z.eqb_neq nIn NOT_AN_INPUT)) by lia.
  destruct (lookup_in_range (vin txTo) nIn) as [txin ->]; [done|]. cbn [mbind option_bind].
  assert (Hp : is_Some (if IsSpecialTx txTo then Ser blob_fmt <$> extraPayload txTo else Some [])).
  { destruct (IsSpecialTx txTo) eqn:E; [|by eexists]. unfold IsSpecialTx, hasExtraPayload in E.
    destruct (extraPayload txTo); [by eexists|]. rewrite ?andb_false_r in E. done. }
  destruct Hp as [payload ->]. unfold GetShieldedSpendsHash, GetShieldedOutputsHash, cached.
  destruct (sapData txTo) as [d|]; cbn [mbind option_bind]; [|by eexists].
  repeat case_match; by eexists.
Qed.

Lemma SignatureHash_total code nHashType v :
  sat (fun _ => True) (SignatureHash code txTo nIn nHashType amount v cache).
Proof.
  unfold SignatureHash. case_match; [done|]. destruct v.
  - case_match; [done|]. case_match eqn:E; [done|].
    destruct (SerializeForSignature_total code nHashType) as [d ->]; [|done].
    intros Hs. apply andb_false_iff in E as [E|E]; bool_to_prop; [congruence | lia].
  - by destruct (SaplingSignaturePreimage_total code nHashType) as [d ->].
Qed.

Lemma ColdStake_outputs_total lof script outs i l v : sat (fun _ => True) (ColdStake_outputs lof script outs i l v).
Proof. revert i v. induction l as [|o l IH]; intros i v; [done|]. cbn [ColdStake_outputs]. by repeat case_match. Qed.

Lemma IsCoinStake_outs tx : IsCoinStake tx = true -> 2 <= size (vout tx).
Proof.
  unfold IsCoinStake, size. intros Hc. destruct (vin tx) as [|i l]; [done|]. cbn zeta in Hc.
  destruct (OutPoint_IsNull _ && _); [done|]. destruct (vout tx) as [|o1 [|o2 outs]]; [done | done | simpl; lia].
Qed.

#[export] Instance TransactionSignatureChecker_total :
  CheckerTotal (TransactionSignatureChecker txTo nIn amount cache).
Proof.
  constructor; intros; cbn [CheckSig CheckLockTime CheckColdStake TransactionSignatureChecker].
  - unfold Tx_CheckSig. case_match; [|done]. case_match; [|done].
    eapply sat_bind; [apply SignatureHash_total | done].
  - unfold Tx_CheckLockTime. case_match; [done|]. case_match; [done|].
    by destruct (lookup_in_range (vin txTo) nIn) as [txin ->].
  - unfold Tx_CheckColdStake. destruct s as [|h [|k [|sg [|? ?]]]]; try done.
    eapply sat_bind; [apply CheckSignatureEncoding_sat|]. intros _ _.
    eapply sat_bind; [apply CheckPubKeyEncoding_sat|]. intros _ _.
    apply sat_error_if. intros _. apply sat_error_if. intros E%negb_false_iff%IsCoinStake_outs.
    apply sat_error_if. intros _.
    cbn zeta. rewrite (proj2 (Z.ltb_ge _ 2)) by lia.
    eapply sat_bind; [apply ColdStake_outputs_total|]. intros ? _. by apply sat_error_if.
Qed.

End CheckerSafety.

(** ** VerifyScript is safe *)

(** A script-hash output cannot be satisfied from an empty stack. *)
Lemma EvalScript_P2SH_empty `{HashFunctions, Ecdsa} spk flags checker v :
  IsPayToScriptHash spk = true -> EvalScript spk flags checker v [] = too_small.
Proof.
  intros (id & Hid & ->)%IsPayToScriptHash_iff. destruct_list id Hid.
  unfold EvalScript. cbn [GetScriptForDestination]. unfold push_op, push_data.
  match goal with |- context [EvalScript_loop ?scr _ _ _ _ _ _] => set (script := scr) end.
  change (length script) with 23%nat. unfold script at 2.
  match goal with |- context [EvalScript_loop _ _ _ _ 23 ?l _] =>
    let r := eval cbv in l in change l with (opcode_value OP_HASH160 :: tail r) end.
  by rewrite loop_op.
Qed.

Section VerifySafety.
Context `{HashSizes, Ecdsa}.
Context (flags : Z) (checker : BaseSignatureChecker) (sigversion : SigVersion).
Context `{!CheckerTotal checker}.

Lemma EvalScript_ok script s :
  bytes_ok script -> stack_limits s ->
  (exists s', EvalScript script flags checker sigversion s = EvalOk s' /\ stack_limits s') \/
  (exists e, EvalScript script flags checker sigversion s = EvalError e).
Proof.
  intros Hok Hs. destruct (EvalScript_sat script flags checker sigversion s Hok Hs) as [Hsat Ht].
  destruct (EvalScript _ _ _ _ _) as [s'|e| |]; simpl in *; (done || eauto).
Qed.

(** [m] returns a value or sets an error. *)
Definition returns {A} (m : Eval A) : Prop :=
  match m with EvalOk _ | EvalError _ => True | _ => False end.

Lemma returns_error_if {A} b e (k : Eval A) : (b = false -> returns k) -> returns (error_if b e k).
Proof. destruct b; simpl; auto. Qed.

Lemma VerifyScript_returns scriptSig scriptPubKey :
  bytes_ok scriptSig -> bytes_ok scriptPubKey ->
  (has_flag flags SCRIPT_VERIFY_CLEANSTACK = true -> has_flag flags SCRIPT_VERIFY_P2SH = true) ->
  returns (VerifyScript scriptSig scriptPubKey flags checker sigversion).
Proof.
  intros Hsig Hspk Hcs. unfold VerifyScript. destruct (IsPushOnly_total scriptSig) as [po ->].
  cbn [asserted mbind Eval_bind]. apply returns_error_if. intros _.
  assert (Hnil : stack_limits []) by (split; [constructor | vm_compute; discriminate]).
  destruct (EvalScript_ok scriptSig [] Hsig Hnil) as [(s & -> & Hs)|[e ->]]; [|done]. cbn [mbind Eval_bind].
  destruct (EvalScript_ok scriptPubKey s Hspk Hs) as [(s2 & E2 & Hs2)|[e ->]]; [|done].
  rewrite E2. destruct s2 as [|x s2]; [done|]. cbn [mbind Eval_bind].
  destruct (CastToBool x); [|done]. cbn [negb error_if mbind Eval_bind].
  assert (Hend : forall s3 : list bytes, returns
    (if has_flag flags SCRIPT_VERIFY_CLEANSTACK
     then if negb (has_flag flags SCRIPT_VERIFY_P2SH) then EvalAbort
          else error_if (negb (size s3 =? 1)) SCRIPT_ERR_CLEANSTACK (EvalOk tt)
     else EvalOk tt)).
  { intros s3. destruct (has_flag flags SCRIPT_VERIFY_CLEANSTACK); [|done]. rewrite Hcs by done. by apply returns_error_if. }
  destruct (has_flag flags SCRIPT_VERIFY_P2SH && IsPayToScriptHash scriptPubKey) eqn:Ep; [|apply Hend].
  apply andb_prop in Ep as [Ef Ep]. rewrite Ef in *. destruct po; [|done]. cbn [negb error_if].
  destruct s as [|redeem s]; [by rewrite EvalScript_P2SH_empty in E2|].
  destruct Hs as [[[Hr _] Hs]%Forall_cons Hsz]. rewrite size_cons in Hsz.
  destruct (EvalScript_ok redeem s Hr) as [(s3 & -> & _)|[e ->]]; [split; [done|lia] | | done].
  cbn [mbind Eval_bind]. destruct s3 as [|y s3]; [done|]. destruct (CastToBool y); [|done]. apply Hend.
Qed.

Lemma VerifyScript_safe scriptSig scriptPubKey :
  bytes_ok scriptSig -> bytes_ok scriptPubKey ->
  (has_flag flags SCRIPT_VERIFY_CLEANSTACK = true -> has_flag flags SCRIPT_VERIFY_P2SH = true) ->
  VerifyScript scriptSig scriptPubKey flags checker sigversion = EvalOk tt \/
  exists e, VerifyScript scriptSig scriptPubKey flags checker sigversion = EvalError e.
Proof.
  intros Hsig Hspk Hcs. pose proof (VerifyScript_returns _ _ Hsig Hspk Hcs) as Hr.
  destruct (VerifyScript _ _ _ _ _) as [[]|e| |]; (done || eauto).
Qed.

End VerifySafety.

(** C27. Script evaluation is safe.  For a transaction input that exists, the
    interpreter always returns: no assertion of it fails ([CScriptNum]
    overflow, the multisig loop, the cold-stake output count, the restored
    P2SH stack), no exception escapes and no loop runs on; and every stack it
    leaves has at most 1000 elements of at most 520 bytes. *)
Theorem script_evaluation_safe `{HashSizes, Ecdsa} txTo nIn amount cache flags sigversion
    scriptSig scriptPubKey script s :
  0 <= nIn < size (vin txTo) -> nIn < NOT_AN_INPUT ->
  let checker := TransactionSignatureChecker txTo nIn amount cache in
  (bytes_ok scriptSig -> bytes_ok scriptPubKey ->
   (has_flag flags SCRIPT_VERIFY_CLEANSTACK = true -> has_flag flags SCRIPT_VERIFY_P2SH = true) ->
   VerifyScript scriptSig scriptPubKey flags checker sigversion = EvalOk tt \/
   exists e, VerifyScript scriptSig scriptPubKey flags checker sigversion = EvalError e) /\
  (bytes_ok script -> stack_limits s ->
   (exists s', EvalScript script flags checker sigversion s = EvalOk s' /\ stack_limits s') \/
   (exists e, EvalScript script flags checker sigversion s = EvalError e)).
Proof.
  intros Hin Hin32 checker.
  pose proof (TransactionSignatureChecker_total txTo nIn amount cache Hin Hin32) as Ht.
  split; [by apply VerifyScript_safe | by apply EvalScript_ok].
Qed.

Definition example_tx (nSeq nLock : Z) : CTransaction := {|
  vin := [{| prevout := {| op_hash := 5; op_n := 0 |}; scriptSig := []; nSequence := nSeq |}];
  vout := [{| nValue := 0; scriptPubKey := [] |}; {| nValue := 700; scriptPubKey := [OP_1 : Z] |}];
  tx_nVersion := 1; nType := 0; nLockTime := nLock; sapData := Some SaplingTxData_empty; extraPayload := None
|}.

Lemma script_evaluation_safe_witness :
  let checker := @TransactionSignatureChecker checksum_hashes echo_ecdsa (example_tx 7 0) 0 500 None in
  (bytes_ok [1; 5] -> bytes_ok [OP_1ADD : Z] ->
   (has_flag 1 SCRIPT_VERIFY_CLEANSTACK = true -> has_flag 1 SCRIPT_VERIFY_P2SH = true) ->
   @VerifyScript checksum_hashes echo_ecdsa [1; 5] [OP_1ADD : Z] 1 checker SIGVERSION_BASE = EvalOk tt \/
   exists e, @VerifyScript checksum_hashes echo_ecdsa [1; 5] [OP_1ADD : Z] 1 checker SIGVERSION_BASE = EvalError e) /\
  (bytes_ok [OP_1ADD : Z] -> stack_limits [[5]] ->
   (exists s', @EvalScript checksum_hashes echo_ecdsa [OP_1ADD : Z] 1 checker SIGVERSION_BASE [[5]] = EvalOk s' /\ stack_limits s') \/
   (exists e, @EvalScript checksum_hashes echo_ecdsa [OP_1ADD : Z] 1 checker SIGVERSION_BASE [[5]] = EvalError e)).
Proof.
  apply (@script_evaluation_safe checksum_hashes checksum_sizes echo_ecdsa (example_tx 7 0) 0 500 None 1 SIGVERSION_BASE
           [1; 5] [OP_1ADD : Z] [OP_1ADD : Z] [[5]]); vm_compute; [split; [discriminate | reflexivity] | reflexivity].
Defined.
