(* ===== verification/Bloom.v ===== *)
(** * Bloom filters

    [MurmurHash3] of hash.cpp, [CBloomFilter] of bloom.cpp, and the messages of
    net_processing.cpp with which a peer sets its filter.  The constructor from
    a false-positive rate computes with floating-point numbers and is left out:
    a filter is here what a peer sends. *)

From S2P Require Import Prelude Crypto Serialize BlockHash Script Standard Transaction Interpreter.

Local Open Scope krova_scope.

(** ** MurmurHash3 *)

Definition ROTL32 (x r : Z) : Z := Z.lor (u32 (Z.shiftl x r)) (Z.shiftr x (32 - r)).

(** [k1 *= c1; k1 = ROTL32(k1, 15); k1 *= c2;] *)
Definition murmur_mix (k1 : Z) : Z := u32 (ROTL32 (u32 (k1 * 0xcc9e2d51)) 15 * 0x1b873593).

Definition murmur_block (data : bytes) (h1 : Z) (i : nat) : Z :=
  let h1 := Z.lxor h1 (murmur_mix (ReadLE 4 data (i * 4))) in
  u32 (ROTL32 h1 13 * 5 + 0xe6546b64).

(** The [switch] falls through. *)
Definition murmur_tail (tail : bytes) (h1 : Z) : Z :=
  match tail with
  | [t0; t1; t2] => Z.lxor h1 (murmur_mix (Z.lxor (Z.lxor (Z.shiftl t2 16) (Z.shiftl t1 8)) t0))
  | [t0; t1] => Z.lxor h1 (murmur_mix (Z.lxor (Z.shiftl t1 8) t0))
  | [t0] => Z.lxor h1 (murmur_mix t0)
  | _ => h1
  end.

Definition murmur_final (h1 : Z) : Z :=
  let h1 := u32 (Z.lxor h1 (Z.shiftr h1 16) * 0x85ebca6b) in
  let h1 := u32 (Z.lxor h1 (Z.shiftr h1 13) * 0xc2b2ae35) in
  Z.lxor h1 (Z.shiftr h1 16).

Definition MurmurHash3 (nHashSeed : Z) (vDataToHash : bytes) : Z :=
  let nblocks := (length vDataToHash / 4)%nat in
  let h1 := foldl (murmur_block vDataToHash) nHashSeed (seq 0 nblocks) in
  let h1 := murmur_tail (drop (nblocks * 4) vDataToHash) h1 in
  murmur_final (u32 (Z.lxor h1 (size vDataToHash))).

(** ** CBloomFilter *)

Definition MAX_BLOOM_FILTER_SIZE : Z := 36000.
Definition MAX_HASH_FUNCS : Z := 50.
Definition BLOOM_UPDATE_ALL : Z := 1.
Definition BLOOM_UPDATE_P2PUBKEY_ONLY : Z := 2.
Definition BLOOM_UPDATE_MASK : Z := 3.

Record CBloomFilter := {
  vData : bytes; isFull : bool; isEmpty : bool; nHashFuncs : Z; nTweak : Z; nFlags : Z
}.

(** [CBloomFilter()] *)
Definition CBloomFilter_default : CBloomFilter :=
  {| vData := []; isFull := true; isEmpty := false; nHashFuncs := 0; nTweak := 0; nFlags := 0 |}.

Definition with_data (f : CBloomFilter) (v : bytes) (full empty : bool) : CBloomFilter :=
  {| vData := v; isFull := full; isEmpty := empty; nHashFuncs := nHashFuncs f; nTweak := nTweak f; nFlags := nFlags f |}.

(** What is serialized; the flags are those of the object that is read into. *)
Definition CBloomFilter_fmt : Formatter (bytes * (Z * (Z * Z))) := blob_fmt ⊕ uint32_fmt ⊕ uint32_fmt ⊕ uint8_fmt.

(** [None] is a division by zero. *)
Definition Bloom_Hash (f : CBloomFilter) (nHashNum : Z) (vDataToHash : bytes) : option Z :=
  assert (negb (size (vData f) =? 0))
    (Some (MurmurHash3 (u32 (nHashNum * 0xFBA4C795 + nTweak f)) vDataToHash mod (size (vData f) * 8))).

(** [vData[nIndex >> 3] |= (1 << (7 & nIndex))]; [None] is out of range. *)
Definition set_bit (v : bytes) (nIndex : Z) : option bytes :=
  let q := Z.to_nat (Z.shiftr nIndex 3) in
  b ← v !! q; Some (<[q := Z.lor b (Z.shiftl 1 (Z.land 7 nIndex))]> v).

Definition get_bit (v : bytes) (nIndex : Z) : option bool :=
  b ← v !! Z.to_nat (Z.shiftr nIndex 3); Some (negb (Z.land b (Z.shiftl 1 (Z.land 7 nIndex)) =? 0)).

(** The loops over [i < nHashFuncs], [count] turns from [i] on. *)
Fixpoint insert_loop (count : nat) (i : Z) (f : CBloomFilter) (vKey v : bytes) : option bytes :=
  match count with
  | O => Some v
  | S count => nIndex ← Bloom_Hash f i vKey; v ← set_bit v nIndex; insert_loop count (i + 1) f vKey v
  end.

Definition insert (f : CBloomFilter) (vKey : bytes) : option CBloomFilter :=
  if isFull f then Some f
  else v ← insert_loop (Z.to_nat (nHashFuncs f)) 0 f vKey (vData f); Some (with_data f v (isFull f) false).

Definition insert_outpoint (f : CBloomFilter) (outpoint : COutPoint) : option CBloomFilter := insert f (Ser COutPoint_fmt outpoint).
Definition insert_hash (f : CBloomFilter) (hash : Z) : option CBloomFilter := insert f (le_bytes 32 hash).

Fixpoint contains_loop (count : nat) (i : Z) (f : CBloomFilter) (vKey : bytes) : option bool :=
  match count with
  | O => Some true
  | S count =>
      nIndex ← Bloom_Hash f i vKey; b ← get_bit (vData f) nIndex;
      if (b : bool) then contains_loop count (i + 1) f vKey else Some false
  end.

Definition contains (f : CBloomFilter) (vKey : bytes) : option bool :=
  if isFull f then Some true
  else if isEmpty f then Some false
  else contains_loop (Z.to_nat (nHashFuncs f)) 0 f vKey.

Definition contains_outpoint (f : CBloomFilter) (outpoint : COutPoint) : option bool := contains f (Ser COutPoint_fmt outpoint).
Definition contains_hash (f : CBloomFilter) (hash : Z) : option bool := contains f (le_bytes 32 hash).

Definition clear (f : CBloomFilter) : CBloomFilter := with_data f (replicate (length (vData f)) 0) false true.

Definition reset (f : CBloomFilter) (nNewTweak : Z) : CBloomFilter :=
  let f := clear f in
  {| vData := vData f; isFull := isFull f; isEmpty := isEmpty f; nHashFuncs := nHashFuncs f; nTweak := nNewTweak; nFlags := nFlags f |}.

Definition IsWithinSizeConstraints (f : CBloomFilter) : bool :=
  (size (vData f) <=? MAX_BLOOM_FILTER_SIZE) && (nHashFuncs f <=? MAX_HASH_FUNCS).

Definition MatchesAll (f : CBloomFilter) : bool := forallb (fun b => b =? 0xff) (vData f).

(** The answer and the filter; [None] is the write to the first byte of the
    vector that has just been cleared. *)
Definition Merge (f filter : CBloomFilter) : option (bool * CBloomFilter) :=
  if negb (MatchesAll f) && negb (MatchesAll filter) then
    if negb ((size (vData filter) =? size (vData f)) && (nHashFuncs filter =? nHashFuncs f) && (nTweak filter =? nTweak f))
    then Some (false, f)
    else Some (true, with_data f (zip_with Z.lor (vData f) (vData filter)) (isFull f) (isEmpty f))
  else None.

Definition UpdateEmptyFull (f : CBloomFilter) : CBloomFilter :=
  with_data f (vData f) (forallb (fun b => b =? 0xff) (vData f)) (forallb (fun b => b =? 0) (vData f)).

(** ** IsRelevantAndUpdate *)

(** The first element of a script that the filter contains, if there is one;
    a script that does not parse ends the search. *)
Fixpoint script_matches (fuel : nat) (f : CBloomFilter) (pc : bytes) : option bool :=
  match fuel with
  | O => None
  | S fuel =>
      match pc with
      | [] => Some false
      | _ =>
          match GetOp2 pc with
          | GetOp_false _ => Some false
          | GetOp_true _ data pc =>
              b ← (if size data =? 0 then Some false else contains f data);
              if (b : bool) then Some true else script_matches fuel f pc
          end
      end
  end.

Definition matches (f : CBloomFilter) (script : CScript) : option bool := script_matches (S (length script)) f script.

(** The flags decide whether the output is added. *)
Definition update_output (f : CBloomFilter) (o : COutPoint) (script : CScript) : option CBloomFilter :=
  if Z.land (nFlags f) BLOOM_UPDATE_MASK =? BLOOM_UPDATE_ALL then insert_outpoint f o
  else if Z.land (nFlags f) BLOOM_UPDATE_MASK =? BLOOM_UPDATE_P2PUBKEY_ONLY then
    solved ← Solver script;
    match solved with
    | Some (TX_PUBKEY, _) | Some (TX_MULTISIG, _) => insert_outpoint f o
    | _ => Some f
    end
  else Some f.

Fixpoint relevant_outputs (f : CBloomFilter) (hash i : Z) (vout : list CTxOut) (fFound : bool) : option (bool * CBloomFilter) :=
  match vout with
  | [] => Some (fFound, f)
  | txout :: vout =>
      m ← matches f (scriptPubKey txout);
      if (m : bool) then
        f ← update_output f {| op_hash := hash; op_n := i |} (scriptPubKey txout);
        relevant_outputs f hash (i + 1) vout true
      else relevant_outputs f hash (i + 1) vout fFound
  end.

Fixpoint relevant_inputs (f : CBloomFilter) (vin : list CTxIn) : option bool :=
  match vin with
  | [] => Some false
  | txin :: vin =>
      p ← contains_outpoint f (prevout txin);
      if (p : bool) then Some true
      else m ← matches f (scriptSig txin); if (m : bool) then Some true else relevant_inputs f vin
  end.

Definition IsRelevantAndUpdate `{HashFunctions} (f : CBloomFilter) (tx : CTransaction) : option (bool * CBloomFilter) :=
  if isFull f then Some (true, f)
  else if isEmpty f then Some (false, f)
  else
    let hash := GetHash tx in
    fFound ← contains_hash f hash;
    '(fFound, f) ← relevant_outputs f hash 0 (vout tx) fFound;
    if (fFound : bool) then Some (true, f)
    else b ← relevant_inputs f (vin tx); Some (b, f).

(** ** The filter of a peer *)

(** What the messages touch of a [CNode]; [misbehaved] is the sum of the
    scores. *)
Record Peer := { pfilter : option CBloomFilter; fRelayTxes : bool; misbehaved : Z }.

Definition misbehaving (p : Peer) : Peer := {| pfilter := pfilter p; fRelayTxes := fRelayTxes p; misbehaved := misbehaved p + 100 |}.

Definition set_filter (p : Peer) (f : CBloomFilter) (relay : bool) : Peer :=
  {| pfilter := Some f; fRelayTxes := relay; misbehaved := misbehaved p |}.

Definition filterload (p : Peer) (v : bytes) (funcs tweak flags : Z) : Peer :=
  let d := CBloomFilter_default in
  let filter := {| vData := v; isFull := isFull d; isEmpty := isEmpty d; nHashFuncs := funcs; nTweak := tweak; nFlags := flags |} in
  if negb (IsWithinSizeConstraints filter) then misbehaving p
  else set_filter p (UpdateEmptyFull filter) true.

Definition filteradd (p : Peer) (v : bytes) : option Peer :=
  if MAX_SCRIPT_ELEMENT_SIZE <? size v then Some (misbehaving p)
  else match pfilter p with
       | Some f => f ← insert f v; Some (set_filter p f (fRelayTxes p))
       | None => Some (misbehaving p)
       end.

Definition filterclear (p : Peer) : Peer := set_filter p CBloomFilter_default true.

(** ** Bits *)

Lemma lxor_range n a b : 0 <= n -> 0 <= a < 2 ^ n -> 0 <= b < 2 ^ n -> 0 <= Z.lxor a b < 2 ^ n.
Proof.
  intros N A B. assert (0 <= Z.lxor a b) by (apply Z.lxor_nonneg; lia). split; [done|].
  destruct (decide (Z.lxor a b = 0)) as [->|NZ]; [lia|]. apply Z.log2_lt_pow2; [lia|].
  eapply Z.le_lt_trans; [apply Z.log2_lxor; lia|].
  assert (L : forall x, 0 <= x < 2 ^ n -> 0 < n -> Z.log2 x < n).
  { intros x X P. destruct (decide (x = 0)) as [->|]; [done|]. apply Z.log2_lt_pow2; lia. }
  destruct (decide (n = 0)) as [->|]; [exfalso; apply NZ; replace a with 0 by lia; replace b with 0 by lia; done|].
  apply Z.max_lub_lt; apply L; lia.
Qed.

Lemma bits_high x w n : 0 <= x < 2 ^ w -> 0 <= w <= n -> Z.testbit x n = false.
Proof. intros X W. rewrite <- (Z.mod_small x (2 ^ w)) by done. by apply Z.mod_pow2_bits_high. Qed.

Lemma MurmurHash3_range seed data : 0 <= MurmurHash3 seed data < 2 ^ 32.
Proof.
  unfold MurmurHash3, murmur_final. set (h := u32 (_ * 0xc2b2ae35)). assert (R : 0 <= h < 2 ^ 32) by by apply uint_range.
  apply lxor_range; [done|done|]. rewrite Z.shiftr_div_pow2 by done. split; [apply Z.div_pos; lia|]. apply Z.div_lt_upper_bound; lia.
Qed.

#[local] Opaque MurmurHash3.

(** The bit with an index. *)
Definition bit (v : bytes) (j : Z) : bool := Z.testbit (nth (Z.to_nat (j / 8)) v 0) (j mod 8).

Lemma index_split j : Z.shiftr j 3 = j / 8 /\ Z.land 7 j = j mod 8.
Proof. split; [by rewrite Z.shiftr_div_pow2|]. rewrite Z.land_comm. apply (land_ones_mod j 3). lia. Qed.

Lemma land_bit b k : 0 <= k -> negb (Z.land b (Z.shiftl 1 k) =? 0) = Z.testbit b k.
Proof.
  intros K. rewrite Z.shiftl_1_l. destruct (Z.eqb_spec (Z.land b (2 ^ k)) 0) as [E|E]; cbn [negb]; symmetry.
  - apply (f_equal (fun x => Z.testbit x k)) in E. rewrite Z.land_spec, Z.pow2_bits_true, andb_true_r, Z.bits_0 in E by done. done.
  - apply not_false_iff_true. intros T. apply E. apply Z.bits_inj'. intros n N. rewrite Z.land_spec, Z.bits_0, Z.pow2_bits_eqb by done.
    destruct (Z.eqb_spec k n) as [<-|]; [by rewrite T|apply andb_false_r].
Qed.

Lemma index_lookup (v : bytes) j : 0 <= j < size v * 8 -> v !! Z.to_nat (j / 8) = Some (nth (Z.to_nat (j / 8)) v 0).
Proof.
  intros J. unfold size in J. destruct (lookup_lt_is_Some_2 v (Z.to_nat (j / 8))) as [b B].
  - pose proof (Z.div_lt_upper_bound j 8 (Z.of_nat (length v))). lia.
  - by rewrite B, (nth_lookup_Some _ _ _ _ B).
Qed.

Lemma get_bit_spec v j : 0 <= j < size v * 8 -> get_bit v j = Some (bit v j).
Proof.
  intros J. unfold get_bit. destruct (index_split j) as [-> ->]. rewrite index_lookup by done. cbn. f_equal. apply land_bit.
  apply Z.mod_pos_bound. lia.
Qed.

Lemma set_bit_spec v i : 0 <= i < size v * 8 ->
  exists v', set_bit v i = Some v' /\ length v' = length v /\ forall j, 0 <= j -> bit v' j = bit v j || (i =? j).
Proof.
  intros I. unfold set_bit. destruct (index_split i) as [-> ->]. rewrite index_lookup by done. cbn. eexists. split; [done|].
  split; [apply length_insert|]. intros j J. unfold bit. pose proof (index_lookup v i I) as L. apply lookup_lt_Some in L.
  pose proof (Z.mod_pos_bound i 8). pose proof (Z.mod_pos_bound j 8). pose proof (Z.div_mod i 8). pose proof (Z.div_mod j 8).
  pose proof (Z.div_pos i 8). pose proof (Z.div_pos j 8).
  rewrite (nth_lookup (<[_ := _]> v)). destruct (decide (i / 8 = j / 8)) as [E|NE].
  - rewrite <- E, list_lookup_insert_eq by done. cbn. rewrite Z.lor_spec, Z.shiftl_1_l, Z.pow2_bits_eqb by lia. f_equal.
    destruct (Z.eqb_spec (i mod 8) (j mod 8)), (Z.eqb_spec i j); try done; lia.
  - rewrite list_lookup_insert_ne by lia. rewrite <- nth_lookup. destruct (Z.eqb_spec i j); [congruence|]. by rewrite orb_false_r.
Qed.

(** ** What a filter holds *)

Definition filter_ok (f : CBloomFilter) : Prop := isFull f = true \/ vData f <> [].

(** The bits of a key. *)
Definition index_at (f : CBloomFilter) (key : bytes) (i : Z) : Z :=
  MurmurHash3 (u32 (i * 0xFBA4C795 + nTweak f)) key mod (size (vData f) * 8).

Definition indexes (f : CBloomFilter) (key : bytes) (i : Z) (count : nat) : list Z := index_at f key <$> seqZ i (Z.of_nat count).

Definition holds (f : CBloomFilter) (key : bytes) : bool :=
  isFull f || (negb (isEmpty f) && forallb (bit (vData f)) (indexes f key 0 (Z.to_nat (nHashFuncs f)))).

Lemma size_pos {A} (v : list A) : v <> [] -> 0 < size v.
Proof. unfold size. destruct v; [done|cbn; lia]. Qed.

Lemma index_range f key i : vData f <> [] -> 0 <= index_at f key i < size (vData f) * 8.
Proof. intros N%size_pos. apply Z.mod_pos_bound. lia. Qed.

Lemma Bloom_Hash_spec f i key : vData f <> [] -> Bloom_Hash f i key = Some (index_at f key i).
Proof. intros N%size_pos. unfold Bloom_Hash. by destruct (Z.eqb_spec (size (vData f)) 0); [lia|]. Qed.

Lemma indexes_S f key i n : indexes f key i (S n) = index_at f key i :: indexes f key (i + 1) n.
Proof. unfold indexes. rewrite seqZ_cons by lia. by replace (Z.pred (Z.of_nat (S n))) with (Z.of_nat n) by lia. Qed.

Lemma insert_loop_spec f key : vData f <> [] -> forall n i v, length v = length (vData f) ->
  exists v', insert_loop n i f key v = Some v' /\ length v' = length v /\
    forall j, 0 <= j -> bit v' j = bit v j || bool_decide (j ∈ indexes f key i n).
Proof.
  intros N. induction n as [|n IH]; intros i v L; cbn [insert_loop].
  { exists v. split; [done|]. split; [done|]. intros j _. by rewrite bool_decide_false, orb_false_r by apply not_elem_of_nil. }
  rewrite Bloom_Hash_spec by done. cbn [mbind option_bind]. pose proof (index_range f key i N) as R.
  destruct (set_bit_spec v (index_at f key i)) as (v1 & -> & L1 & B1); [unfold size in *; lia|]. cbn [mbind option_bind].
  destruct (IH (i + 1) v1) as (v' & -> & L' & B'); [congruence|]. exists v'. split; [done|]. split; [congruence|].
  intros j J. rewrite B', B1, indexes_S by done. rewrite <- orb_assoc. f_equal.
  apply eq_bool_prop_intro. rewrite orb_True, !bool_decide_spec, elem_of_cons, Is_true_true, Z.eqb_eq. split; intros [->|]; auto.
Qed.

Lemma contains_loop_spec f key : vData f <> [] -> forall n i, contains_loop n i f key = Some (forallb (bit (vData f)) (indexes f key i n)).
Proof.
  intros N. induction n as [|n IH]; intros i; [done|]. cbn [contains_loop]. rewrite Bloom_Hash_spec by done. cbn [mbind option_bind].
  rewrite get_bit_spec by by apply index_range. cbn [mbind option_bind]. rewrite indexes_S. cbn [forallb].
  destruct (bit (vData f) (index_at f key i)); [apply IH|done].
Qed.

Lemma contains_spec f key : filter_ok f -> contains f key = Some (holds f key).
Proof.
  intros O. unfold contains, holds. destruct (isFull f) eqn:F; [done|]. destruct (isEmpty f); [done|]. destruct O as [|N]; [congruence|].
  by apply contains_loop_spec.
Qed.

(** Only bits are added. *)
Record grows (f f' : CBloomFilter) : Prop := {
  gr_ok : filter_ok f -> filter_ok f';
  gr_flags : nFlags f' = nFlags f;
  gr_holds : forall key, holds f key = true -> holds f' key = true
}.

#[export] Instance grows_preorder : PreOrder grows.
Proof. split; [by split|]. intros a b c [O1 F1 H1] [O2 F2 H2]. split; [auto|congruence|auto]. Qed.

Lemma holds_mono f v : length v = length (vData f) -> (forall j, 0 <= j -> bit (vData f) j = true -> bit v j = true) ->
  vData f <> [] -> isFull f = false -> forall key, holds f key = true -> holds (with_data f v false false) key = true.
Proof.
  intros L B N Fu key. unfold holds, indexes, index_at. cbn [with_data vData isFull isEmpty nHashFuncs nTweak]. rewrite Fu. unfold size. rewrite L.
  cbn [orb]. destruct (isEmpty f); [done|]. cbn [negb andb]. rewrite !forallb_forall. intros A x X. apply B; [|by apply A].
  rewrite <- list_elem_of_In in X. apply list_elem_of_fmap in X as (i & -> & _). by apply (index_range f key i).
Qed.

Lemma insert_spec f key : filter_ok f -> exists f', insert f key = Some f' /\ grows f f' /\ holds f' key = true.
Proof.
  intros O. unfold insert. destruct (isFull f) eqn:Fu. { exists f. split; [done|]. split; [done|]. unfold holds. by rewrite Fu. }
  destruct O as [|N]; [congruence|].
  destruct (insert_loop_spec f key N (Z.to_nat (nHashFuncs f)) 0 (vData f) eq_refl) as (v & -> & L & B). cbn [mbind option_bind].
  eexists. split; [done|]. assert (NV : v <> []) by (intros ->; by destruct (vData f)). split.
  - split; [by right|done|]. apply holds_mono; [done| |done|done]. intros j J T. by rewrite B, T.
  - unfold holds. cbn [with_data vData isFull isEmpty nHashFuncs orb negb andb]. apply forallb_forall. intros x X.
    rewrite <- list_elem_of_In in X. replace (indexes (with_data f v false false) key 0 (Z.to_nat (nHashFuncs f))) with (indexes f key 0 (Z.to_nat (nHashFuncs f))) in X.
    2: { unfold indexes, index_at, size. cbn. by rewrite L. }
    rewrite B, (bool_decide_true _ X), orb_true_r; [done|]. apply list_elem_of_fmap in X as (i & -> & _). by apply (index_range f key i).
Qed.

(** ** Relevant transactions *)

(** The non-empty elements that a script pushes, up to where it fails to
    parse. *)
Fixpoint pushes (fuel : nat) (pc : bytes) : list bytes :=
  match fuel with
  | O => []
  | S fuel =>
      match GetOp2 pc with
      | GetOp_false _ => []
      | GetOp_true _ data pc => (if size data =? 0 then [] else [data]) ++ pushes fuel pc
      end
  end.

Definition script_data (script : CScript) : list bytes := pushes (S (length script)) script.

Lemma script_matches_spec f : filter_ok f -> forall fuel pc, (length pc < fuel)%nat ->
  script_matches fuel f pc = Some (existsb (holds f) (pushes fuel pc)).
Proof.
  intros O. induction fuel as [|fuel IH]; intros pc L; [lia|]. cbn [script_matches pushes]. destruct pc as [|c pc']; [done|].
  destruct (GetOp2 (c :: pc')) as [|op data pc] eqn:G; [done|]. apply GetOp2_shorter in G. cbn [length] in *.
  destruct (size data =? 0); [cbn; apply IH; lia|]. rewrite contains_spec by done. cbn. destruct (holds f data); [done|]. apply IH. lia.
Qed.

Lemma matches_spec f script : filter_ok f -> matches f script = Some (existsb (holds f) (script_data script)).
Proof. intros O. apply script_matches_spec; [done|lia]. Qed.

Lemma update_output_spec f o script : filter_ok f -> exists f', update_output f o script = Some f' /\ grows f f' /\
  (Z.land (nFlags f) BLOOM_UPDATE_MASK = BLOOM_UPDATE_ALL -> holds f' (Ser COutPoint_fmt o) = true).
Proof.
  intros O. unfold update_output. destruct (insert_spec f (Ser COutPoint_fmt o) O) as (f' & E & G & H).
  destruct (Z.eqb_spec (Z.land (nFlags f) BLOOM_UPDATE_MASK) BLOOM_UPDATE_ALL) as [A|A]; [by exists f'|].
  destruct (_ =? BLOOM_UPDATE_P2PUBKEY_ONLY); [|by exists f]. destruct (Solver_total script) as [solved ->]. cbn [mbind option_bind].
  destruct solved as [[[] ?]|]; try (by exists f); by exists f'.
Qed.

Lemma existsb_mono {A} (g h : A -> bool) l : (forall x, g x = true -> h x = true) -> existsb g l = true -> existsb h l = true.
Proof. intros M. rewrite !existsb_exists. intros (x & X & G). exists x. auto. Qed.

(** Some script of an output carries an element that the filter holds. *)
Definition output_matches (f : CBloomFilter) (txout : CTxOut) : bool := existsb (holds f) (script_data (scriptPubKey txout)).

Definition input_matches (f : CBloomFilter) (txin : CTxIn) : bool :=
  holds f (Ser COutPoint_fmt (prevout txin)) || existsb (holds f) (script_data (scriptSig txin)).

Lemma relevant_outputs_spec hash vout : forall f i fFound, filter_ok f -> exists b f', relevant_outputs f hash i vout fFound = Some (b, f') /\
  grows f f' /\ (fFound = true -> b = true) /\ (existsb (output_matches f) vout = true -> b = true) /\
  (b = true -> fFound = true \/ existsb (output_matches f') vout = true) /\
  (Z.land (nFlags f) BLOOM_UPDATE_MASK = BLOOM_UPDATE_ALL -> forall k txout, vout !! k = Some txout -> output_matches f txout = true ->
     holds f' (Ser COutPoint_fmt {| op_hash := hash; op_n := i + Z.of_nat k |}) = true).
Proof.
  induction vout as [|txout vout IH]; intros f i fFound O; cbn [relevant_outputs].
  { exists fFound, f. split; [done|]. split; [done|]. split; [done|]. split; [done|]. split; [auto|]. intros _ k t X. by rewrite lookup_nil in X. }
  rewrite matches_spec by done. cbn [mbind option_bind existsb]. fold (output_matches f txout).
  destruct (output_matches f txout) eqn:M.
  - destruct (update_output_spec f {| op_hash := hash; op_n := i |} (scriptPubKey txout) O) as (f1 & -> & G1 & A1). cbn [mbind option_bind].
    destruct (IH f1 (i + 1) true (gr_ok _ _ G1 O)) as (b & f' & -> & G' & Tr & _ & _ & Al). exists b, f'. specialize (Tr eq_refl) as ->.
    assert (G : grows f f') by by etrans. split; [done|]. split; [done|]. split; [done|]. split; [done|]. split.
    + intros _. right. rewrite orb_true_iff. left. apply (existsb_mono (holds f)); [apply G|done].
    + intros A [|k] t X Mt; cbn in X.
      * injection X as <-. rewrite Z.add_0_r. apply G', A1, A.
      * replace (i + Z.of_nat (S k)) with (i + 1 + Z.of_nat k) by lia. apply (Al (eq_trans (f_equal (fun z => Z.land z _) (gr_flags _ _ G1)) A) k t X).
        apply (existsb_mono (holds f)); [apply G1|done].
  - destruct (IH f (i + 1) fFound O) as (b & f' & -> & G' & Tr & Mt & Co & Al). exists b, f'. split; [done|]. split; [done|]. split; [done|].
    split; [done|]. split. { intros B. destruct (Co B) as [|C]; [by left|right]. by rewrite C, orb_true_r. }
    intros A [|k] t X Mt'; cbn in X; [congruence|]. replace (i + Z.of_nat (S k)) with (i + 1 + Z.of_nat k) by lia. by apply (Al A k t).
Qed.

Lemma relevant_inputs_spec f vin : filter_ok f -> relevant_inputs f vin = Some (existsb (input_matches f) vin).
Proof.
  intros O. induction vin as [|txin vin IH]; [done|]. cbn [relevant_inputs existsb]. unfold contains_outpoint. rewrite contains_spec by done.
  cbn [mbind option_bind]. unfold input_matches at 1. destruct (holds f (Ser COutPoint_fmt (prevout txin))); [done|]. rewrite matches_spec by done. cbn [mbind option_bind orb].
  by destruct (existsb _ (script_data _)).
Qed.

(** A transaction that concerns the owner of the filter. *)
Definition relevant `{HashFunctions} (f : CBloomFilter) (tx : CTransaction) : bool :=
  isFull f || (negb (isEmpty f) &&
    (holds f (le_bytes 32 (GetHash tx)) || existsb (output_matches f) (vout tx) || existsb (input_matches f) (vin tx))).

Lemma relevant_mono `{HashFunctions} f f' tx : (isFull f = true \/ isEmpty f' = false) -> (isFull f = true -> isFull f' = true) ->
  (forall key, holds f key = true -> holds f' key = true) -> relevant f tx = true -> relevant f' tx = true.
Proof.
  intros E Fu M. unfold relevant. rewrite !orb_true_iff, !andb_true_iff, !orb_true_iff. intros [F|[_ R]]; [left; auto|].
  destruct E as [F| ->]; [left; auto|]. right. split; [done|].
  destruct R as [[T|O]|I]; [left; left; auto|left; right|right].
  - revert O. apply existsb_mono. intros o. by apply existsb_mono.
  - revert I. apply existsb_mono. intros i. unfold input_matches. rewrite !orb_true_iff. intros [P|S]; [left; auto|right].
    revert S. by apply existsb_mono.
Qed.

Lemma insert_flags f key f' : insert f key = Some f' -> isFull f' = isFull f /\ (isEmpty f = false -> isEmpty f' = false).
Proof.
  unfold insert. destruct (isFull f) eqn:F; [by intros [= <-]|]. intros (v & _ & [= <-])%bind_Some_inv. by cbn.
Qed.

Lemma update_output_flags f o script f' : update_output f o script = Some f' -> isFull f' = isFull f /\ (isEmpty f = false -> isEmpty f' = false).
Proof.
  unfold update_output. destruct (_ =? BLOOM_UPDATE_ALL); [apply insert_flags|]. destruct (_ =? BLOOM_UPDATE_P2PUBKEY_ONLY); [|by intros [= <-]].
  intros (solved & _ & E)%bind_Some_inv. destruct solved as [[[] ?]|]; try (injection E as <-; done); by apply insert_flags in E.
Qed.

Lemma relevant_outputs_flags hash vout : forall f i fFound b f', relevant_outputs f hash i vout fFound = Some (b, f') ->
  isFull f' = isFull f /\ (isEmpty f = false -> isEmpty f' = false).
Proof.
  induction vout as [|txout vout IH]; intros f i fFound b f'; cbn [relevant_outputs]; [by intros [= _ <-]|].
  intros (m & _ & E)%bind_Some_inv. destruct m; [|by apply IH in E]. apply bind_Some_inv in E as (f1 & U & E).
  apply update_output_flags in U as [F1 E1]. apply IH in E as [F2 E2]. split; [congruence|auto].
Qed.

Lemma IsRelevantAndUpdate_spec `{HashFunctions} f tx : filter_ok f -> exists b f', IsRelevantAndUpdate f tx = Some (b, f') /\
  grows f f' /\ (isEmpty f = false -> isEmpty f' = false) /\ (relevant f tx = true -> b = true) /\ (b = true -> relevant f' tx = true) /\
  (Z.land (nFlags f) BLOOM_UPDATE_MASK = BLOOM_UPDATE_ALL -> isEmpty f = false -> forall k txout, vout tx !! k = Some txout ->
     output_matches f txout = true -> holds f' (Ser COutPoint_fmt {| op_hash := GetHash tx; op_n := Z.of_nat k |}) = true).
Proof.
  intros O. unfold IsRelevantAndUpdate, relevant at 1. destruct (isFull f) eqn:Fu.
  { exists true, f. split; [done|]. split; [done|]. split; [done|]. split; [done|]. unfold relevant, holds. rewrite Fu. done. }
  destruct (isEmpty f) eqn:Em. { by exists false, f. }
  unfold contains_hash. rewrite contains_spec by done. cbn [mbind option_bind orb negb andb].
  destruct (relevant_outputs_spec (GetHash tx) (vout tx) f 0 (holds f (le_bytes 32 (GetHash tx))) O) as (b & f' & E & G & T1 & T2 & Co & Al).
  pose proof (relevant_outputs_flags _ _ _ _ _ _ _ E) as [F' E']. rewrite E. cbn [mbind option_bind]. clear E.
  assert (O' : filter_ok f') by by apply G. specialize (E' Em). rewrite Fu in F'.
  assert (Al' : Z.land (nFlags f) BLOOM_UPDATE_MASK = BLOOM_UPDATE_ALL -> false = false -> forall k txout, vout tx !! k = Some txout ->
    output_matches f txout = true -> holds f' (Ser COutPoint_fmt {| op_hash := GetHash tx; op_n := Z.of_nat k |}) = true).
  { intros A _ k t X M. by apply (Al A k t). }
  destruct b.
  - exists true, f'. split; [done|]. split; [done|]. split; [done|]. split; [done|]. split; [|exact Al']. intros _. unfold relevant. rewrite F', E'. cbn [orb negb andb].
    destruct (Co eq_refl) as [C|C]; [by rewrite (gr_holds _ _ G _ C)|by rewrite C, orb_true_r].
  - rewrite relevant_inputs_spec by done. cbn [mbind option_bind]. eexists _, f'. split; [done|]. split; [done|]. split; [done|]. split; [|split; [|exact Al']].
    + rewrite !orb_true_iff. intros [[C|C]|C]; [by specialize (T1 C)|by specialize (T2 C)|]. revert C. apply existsb_mono. intros i. unfold input_matches.
      rewrite !orb_true_iff. intros [P|S]; [left; by apply G|right]. revert S. apply existsb_mono, G.
    + intros I. unfold relevant. by rewrite F', E', I, !orb_true_r.
Qed.

Lemma IsRelevantAndUpdate_flags `{HashFunctions} f tx b f' : IsRelevantAndUpdate f tx = Some (b, f') ->
  isFull f' = isFull f /\ (isEmpty f = false -> isEmpty f' = false).
Proof.
  unfold IsRelevantAndUpdate. destruct (isFull f) eqn:Fu; [by intros [= _ <-]|]. destruct (isEmpty f) eqn:Em; [by intros [= _ <-]|].
  intros (h & _ & E)%bind_Some_inv. apply bind_Some_inv in E as ([c g] & O & E). apply relevant_outputs_flags in O as [F1 E1].
  destruct c; [injection E as _ <-|apply bind_Some_inv in E as (x & _ & [= _ <-])]; rewrite F1, Fu; auto.
Qed.

(** Relevance survives the updates. *)
Lemma relevant_kept `{HashFunctions} f tx b f' tx' : filter_ok f -> IsRelevantAndUpdate f tx = Some (b, f') -> relevant f tx' = true -> relevant f' tx' = true.
Proof.
  intros O E R. destruct (IsRelevantAndUpdate_spec f tx O) as (b' & g & E' & G & _). rewrite E in E'. injection E' as <- <-.
  destruct (IsRelevantAndUpdate_flags f tx b f' E) as [Fu Em]. assert (C : isFull f = true \/ isEmpty f' = false).
  { unfold relevant in R. destruct (isFull f); [by left|right]. destruct (isEmpty f); [done|auto]. }
  revert R. apply relevant_mono; [done|by rewrite Fu|apply G].
Qed.

(** ** A peer and its messages *)

Inductive message :=
| FilterLoad (v : bytes) (funcs tweak flags : Z)
| FilterAdd (v : bytes)
| FilterClear
| Relay (tx : CTransaction).

(** A transaction is relayed only if it passes the filter. *)
Definition deliver `{HashFunctions} (p : Peer) (m : message) : option Peer :=
  match m with
  | FilterLoad v funcs tweak flags => Some (filterload p v funcs tweak flags)
  | FilterAdd v => filteradd p v
  | FilterClear => Some (filterclear p)
  | Relay tx =>
      match pfilter p with
      | None => Some p
      | Some f => '(_, f) ← IsRelevantAndUpdate f tx; Some (set_filter p f (fRelayTxes p))
      end
  end.

Fixpoint deliver_all `{HashFunctions} (p : Peer) (ms : list message) : option Peer :=
  match ms with
  | [] => Some p
  | m :: ms => p ← deliver p m; deliver_all p ms
  end.

Definition peer_ok (p : Peer) : Prop := forall f, pfilter p = Some f -> filter_ok f.

(** The messages that replace the filter. *)
Definition replaces (m : message) : bool := match m with FilterLoad _ _ _ _ | FilterClear => true | _ => false end.

Lemma UpdateEmptyFull_ok f : filter_ok (UpdateEmptyFull f).
Proof. unfold filter_ok. cbn. destruct (vData f); [by left|by right]. Qed.

Lemma deliver_spec `{HashFunctions} p m : peer_ok p -> exists p', deliver p m = Some p' /\ peer_ok p' /\
  (replaces m = false -> forall f, pfilter p = Some f -> exists f', pfilter p' = Some f' /\ grows f f' /\
     forall v, m = FilterAdd v -> size v <= MAX_SCRIPT_ELEMENT_SIZE -> holds f' v = true).
Proof.
  intros O. destruct m as [v funcs tweak flags|v| |tx]; cbn [deliver replaces].
  - eexists. split; [done|]. split; [|done]. unfold filterload. destruct (negb _); [done|]. intros f [= <-]. apply UpdateEmptyFull_ok.
  - unfold filteradd. destruct (Z.ltb_spec MAX_SCRIPT_ELEMENT_SIZE (size v)) as [L|L].
    { eexists. split; [done|]. split; [done|]. intros _ f E. exists f. split; [done|]. split; [done|]. intros w [= <-]. lia. }
    destruct (pfilter p) as [f|] eqn:E; [|by exists (misbehaving p); split; [|split; [intros f; cbn; rewrite E|]]].
    destruct (insert_spec f v (O f E)) as (f' & -> & G & Hv). cbn [mbind option_bind]. eexists. split; [done|]. split.
    + intros g [= <-]. apply G, O, E.
    + intros _ g [= <-]. exists f'. split; [done|]. split; [done|]. by intros w [= <-].
  - eexists. split; [done|]. split; [|done]. intros f [= <-]. by left.
  - destruct (pfilter p) as [f|] eqn:E; [|by exists p].
    destruct (IsRelevantAndUpdate_spec f tx (O f E)) as (b & f' & -> & G & _). cbn [mbind option_bind]. eexists. split; [done|]. split.
    + intros g [= <-]. apply G, O, E.
    + intros _ g [= <-]. exists f'. split; [done|]. by split.
Qed.

Lemma deliver_all_spec `{HashFunctions} ms : forall p, peer_ok p -> exists p', deliver_all p ms = Some p' /\ peer_ok p' /\
  (existsb replaces ms = false -> forall f, pfilter p = Some f -> exists f', pfilter p' = Some f' /\ grows f f' /\
     forall v, FilterAdd v ∈ ms -> size v <= MAX_SCRIPT_ELEMENT_SIZE -> holds f' v = true).
Proof.
  induction ms as [|m ms IH]; intros p O; cbn [deliver_all existsb].
  { exists p. split; [done|]. split; [done|]. intros _ f E. exists f. split; [done|]. split; [done|]. intros v X. by apply elem_of_nil in X. }
  destruct (deliver_spec p m O) as (p1 & -> & O1 & S1). cbn [mbind option_bind]. destruct (IH p1 O1) as (p' & -> & O' & S'). exists p'.
  split; [done|]. split; [done|]. intros [R1 R']%orb_false_iff f E. destruct (S1 R1 f E) as (f1 & E1 & G1 & A1).
  destruct (S' R' f1 E1) as (f' & E' & G' & A'). exists f'. split; [done|]. split; [by etrans|]. intros v [Em|X]%elem_of_cons Sz; [|by apply A'].
  subst m. by apply G', A1.
Qed.

(** ** Properties *)

(** C38. A filter has no false negatives, and following it never dies.  From a
    peer whose filter was loaded or cleared, every sequence of messages and of
    transactions offered to the peer is worked off without a division by zero
    or an access out of range; as long as the filter is not replaced, it still
    matches whatever it matched before and every element added since.  A
    transaction that is relevant to the filter is relayed; what is relayed is
    relevant to the filter as updated; and if the filter asks for it, a
    transaction that spends a matched output is relayed later. *)
Theorem bloom_no_false_negatives `{HashFunctions} p ms : peer_ok p ->
  exists p', deliver_all p ms = Some p' /\ forall f', pfilter p' = Some f' ->
    (existsb replaces ms = false -> forall f, pfilter p = Some f ->
       (forall v, FilterAdd v ∈ ms -> size v <= MAX_SCRIPT_ELEMENT_SIZE -> contains f' v = Some true) /\
       (forall v, contains f v = Some true -> contains f' v = Some true)) /\
    forall tx, exists b f2, IsRelevantAndUpdate f' tx = Some (b, f2) /\ (relevant f' tx = true -> b = true) /\ (b = true -> relevant f2 tx = true) /\
      (Z.land (nFlags f') BLOOM_UPDATE_MASK = BLOOM_UPDATE_ALL -> isEmpty f' = false -> forall k txout, vout tx !! k = Some txout ->
         output_matches f' txout = true -> forall tx2 txin, txin ∈ vin tx2 -> prevout txin = {| op_hash := GetHash tx; op_n := Z.of_nat k |} ->
         relevant f2 tx2 = true).
Proof.
  intros O. destruct (deliver_all_spec ms p O) as (p' & E & O' & S). exists p'. split; [done|]. intros f' F'. pose proof (O' f' F') as Ok. split.
  - intros R f F. destruct (S R f F) as (f1 & F1 & G & A). assert (f1 = f') as -> by congruence. split; intros v; rewrite ?contains_spec by auto.
    + intros X Sz. f_equal. by apply A.
    + intros [= X]. f_equal. by apply G.
  - intros tx. destruct (IsRelevantAndUpdate_spec f' tx Ok) as (b & f2 & Er & _ & E2 & R1 & R2 & Al). exists b, f2. split; [done|]. split; [done|]. split; [done|].
    intros A Em k t X M tx2 txin I P. specialize (E2 Em). specialize (Al A Em k t X M). rewrite <- P in Al. unfold relevant. rewrite E2. apply orb_true_iff. right.
    cbn [negb andb]. apply orb_true_iff. right. apply existsb_exists. exists txin. split; [by apply list_elem_of_In|]. unfold input_matches. by rewrite Al.
Qed.

Definition loaded : Peer := filterload {| pfilter := None; fRelayTxes := false; misbehaved := 0 |} [0; 0; 0] 5 7 BLOOM_UPDATE_ALL.

Lemma bloom_no_false_negatives_witness : exists p f, deliver_all (H := checksum_hashes) loaded [FilterAdd [1; 2; 3]] = Some p /\ pfilter p = Some f /\
  contains f [1; 2; 3] = Some true /\ contains f [1; 2; 4] = Some false.
Proof.
  destruct (bloom_no_false_negatives (H := checksum_hashes) loaded [FilterAdd [1; 2; 3]]) as (p & E & P); [intros f [= <-]; by right|].
  assert (V : match deliver_all (H := checksum_hashes) loaded [FilterAdd [1; 2; 3]] with
              | Some p => match pfilter p with Some f => contains f [1; 2; 4] = Some false | None => False end | None => False end) by (vm_compute; reflexivity).
  rewrite E in V. destruct p as [[f|] relay mis]; [|destruct V]. eexists _, f. split; [exact E|]. split; [reflexivity|]. split; [|exact V].
  destruct (P f eq_refl) as [A _]. destruct (A eq_refl _ eq_refl) as [B _]. apply B; [by left|done].
Defined.

(** The vectors of test/hash_tests.cpp. *)
Example murmur_vectors :
  MurmurHash3 0 [] = 0 /\ MurmurHash3 0xFBA4C795 [] = 0x6a396f08 /\ MurmurHash3 0xffffffff [] = 0x81f16f39 /\
  MurmurHash3 0 [0x00] = 0x514e28b7 /\ MurmurHash3 0xFBA4C795 [0x00] = 0xea3f0b17 /\ MurmurHash3 0 [0xff] = 0xfd6cf10d /\
  MurmurHash3 0 [0x00; 0x11] = 0x16c6b7ab /\ MurmurHash3 0 [0x00; 0x11; 0x22] = 0x8eb51c3d /\
  MurmurHash3 0 [0x00; 0x11; 0x22; 0x33] = 0xb4471bf8 /\ MurmurHash3 0 [0x00; 0x11; 0x22; 0x33; 0x44] = 0xe2301fa8 /\
  MurmurHash3 0 [0x00; 0x11; 0x22; 0x33; 0x44; 0x55; 0x66; 0x77; 0x88] = 0xb4698def.
Proof. vm_compute. done. Qed.

(** [Merge] with a filter that matches everything writes to an empty vector. *)
Lemma merge_full_crashes f : Merge f CBloomFilter_default = None.
Proof. unfold Merge. by rewrite andb_false_r. Qed.

(** [Merge] into a filter that is marked as empty leaves the mark, and the
    elements of the other filter are not found. *)
Example merge_forgets : exists f g f' key, contains g key = Some true /\ Merge f g = Some (true, f') /\ contains f' key = Some false.
Proof.
  exists {| vData := [0; 0; 0]; isFull := false; isEmpty := true; nHashFuncs := 5; nTweak := 7; nFlags := 0 |}.
  exists {| vData := [32; 34; 128]; isFull := false; isEmpty := false; nHashFuncs := 5; nTweak := 7; nFlags := 0 |}.
  exists {| vData := [32; 34; 128]; isFull := false; isEmpty := true; nHashFuncs := 5; nTweak := 7; nFlags := 0 |}, [1; 2; 3].
  split; [vm_compute; reflexivity|]. split; vm_compute; reflexivity.
Qed.
