(* ===== verification/RollingBloom.v ===== *)
(** * The rolling Bloom filter

    [CRollingBloomFilter] of bloom.cpp: which transactions and addresses a peer
    already knows.  Each position holds two bits, the number of the generation
    that wrote it last, spread over two words.  The constructor computes the
    sizes with floating-point numbers; they are here the fields of the state. *)

From S2P Require Import Prelude Bloom.

Record CRollingBloomFilter := {
  nEntriesPerGeneration : Z; nEntriesThisGeneration : Z; nGeneration : Z;
  data : list Z; rb_nTweak : Z; rb_nHashFuncs : Z
}.

Definition RollingBloomHash (nHashNum tweak : Z) (vDataToHash : bytes) : Z := MurmurHash3 (u32 (nHashNum * 0xFBA4C795 + tweak)) vDataToHash.

Definition FastMod (x n : Z) : Z := u32 (Z.shiftr (u64 (x * n)) 32).

(** The old entries of a generation are removed; [None] is a read past an odd
    end. *)
Fixpoint wipe (nGenerationMask1 nGenerationMask2 : Z) (data : list Z) : option (list Z) :=
  match data with
  | [] => Some []
  | [_] => None
  | p1 :: p2 :: rest =>
      let mask := Z.lor (Z.lxor p1 nGenerationMask1) (Z.lxor p2 nGenerationMask2) in
      rest ← wipe nGenerationMask1 nGenerationMask2 rest;
      Some (Z.land p1 mask :: Z.land p2 mask :: rest)
  end.

(** [pos & ~1] and [pos | 1]. *)
Definition low_word (pos : Z) : nat := Z.to_nat (Z.land pos 0xFFFFFFFE).
Definition high_word (pos : Z) : nat := Z.to_nat (Z.lor pos 1).

Definition put_bit (data : list Z) (at_word : nat) (bit value : Z) : option (list Z) :=
  d ← data !! at_word;
  Some (<[at_word := Z.lor (Z.land d (Z.lxor (2 ^ 64 - 1) (Z.shiftl 1 bit))) (Z.shiftl value bit)]> data).

Fixpoint write_loop (count : nat) (n tweak generation : Z) (vKey : bytes) (data : list Z) : option (list Z) :=
  match count with
  | O => Some data
  | S count =>
      let h := RollingBloomHash n tweak vKey in
      let bit := Z.land h 0x3F in
      let pos := FastMod h (size data) in
      data ← put_bit data (low_word pos) bit (Z.land generation 1);
      data ← put_bit data (high_word pos) bit (Z.shiftr generation 1);
      write_loop count (n + 1) tweak generation vKey data
  end.

(** The next generation, if this one is full. *)
Definition next_generation (f : CRollingBloomFilter) : option CRollingBloomFilter :=
  if nEntriesThisGeneration f =? nEntriesPerGeneration f then
    let g := if nGeneration f + 1 =? 4 then 1 else nGeneration f + 1 in
    d ← wipe (u64 (- Z.land g 1)) (u64 (- Z.shiftr g 1)) (data f);
    Some {| nEntriesPerGeneration := nEntriesPerGeneration f; nEntriesThisGeneration := 0; nGeneration := g; data := d;
            rb_nTweak := rb_nTweak f; rb_nHashFuncs := rb_nHashFuncs f |}
  else Some f.

Definition rolling_insert (f : CRollingBloomFilter) (vKey : bytes) : option CRollingBloomFilter :=
  f ← next_generation f;
  d ← write_loop (Z.to_nat (rb_nHashFuncs f)) 0 (rb_nTweak f) (nGeneration f) vKey (data f);
  Some {| nEntriesPerGeneration := nEntriesPerGeneration f; nEntriesThisGeneration := nEntriesThisGeneration f + 1; nGeneration := nGeneration f;
          data := d; rb_nTweak := rb_nTweak f; rb_nHashFuncs := rb_nHashFuncs f |}.

Fixpoint find_loop (count : nat) (n tweak : Z) (vKey : bytes) (data : list Z) : option bool :=
  match count with
  | O => Some true
  | S count =>
      let h := RollingBloomHash n tweak vKey in
      let bit := Z.land h 0x3F in
      let pos := FastMod h (size data) in
      lo ← data !! low_word pos;
      hi ← data !! high_word pos;
      if Z.land (Z.shiftr (Z.lor lo hi) bit) 1 =? 0 then Some false else find_loop count (n + 1) tweak vKey data
  end.

Definition rolling_contains (f : CRollingBloomFilter) (vKey : bytes) : option bool :=
  find_loop (Z.to_nat (rb_nHashFuncs f)) 0 (rb_nTweak f) vKey (data f).

(** [tweak] is the random number. *)
Definition rolling_reset (f : CRollingBloomFilter) (tweak : Z) : CRollingBloomFilter :=
  {| nEntriesPerGeneration := nEntriesPerGeneration f; nEntriesThisGeneration := 0; nGeneration := 1;
     data := replicate (length (data f)) 0; rb_nTweak := tweak; rb_nHashFuncs := rb_nHashFuncs f |}.

Fixpoint rolling_inserts (f : CRollingBloomFilter) (keys : list bytes) : option CRollingBloomFilter :=
  match keys with
  | [] => Some f
  | key :: keys => f ← rolling_insert f key; rolling_inserts f keys
  end.

(** ** Cells

    A cell is the word pair [q] and the bit [b] in it. *)

Definition cell (d : list Z) (q : nat) (b : Z) : Z :=
  Z.b2z (Z.testbit (nth (2 * q) d 0) b) + 2 * Z.b2z (Z.testbit (nth (2 * q + 1) d 0) b).

(** The cell of the [n]-th hash of a key, in a filter of [m] word pairs. *)
Definition cell_of (m : nat) (tweak : Z) (key : bytes) (n : Z) : nat * Z :=
  let h := RollingBloomHash n tweak key in
  (Z.to_nat (FastMod h (2 * Z.of_nat m) / 2), h mod 64).

Definition cells (m : nat) (tweak : Z) (key : bytes) (n : Z) (count : nat) : list (nat * Z) := cell_of m tweak key <$> seqZ n (Z.of_nat count).

Lemma cells_S m tweak key n k : cells m tweak key n (S k) = cell_of m tweak key n :: cells m tweak key (n + 1) k.
Proof. unfold cells. rewrite seqZ_cons by lia. by replace (Z.pred (Z.of_nat (S k))) with (Z.of_nat k) by lia. Qed.

#[local] Opaque MurmurHash3.

Lemma hash_range n tweak key : 0 <= RollingBloomHash n tweak key < 2 ^ 32.
Proof. apply MurmurHash3_range. Qed.

Lemma FastMod_range x n : 0 <= x < 2 ^ 32 -> 0 < n < 2 ^ 32 -> 0 <= FastMod x n < n.
Proof.
  intros X N. unfold FastMod. assert (0 <= x * n < 2 ^ 32 * n) by nia. rewrite (uint_id 64) by nia. rewrite Z.shiftr_div_pow2 by done.
  assert (0 <= x * n / 2 ^ 32 < n) by (split; [apply Z.div_pos; lia|apply Z.div_lt_upper_bound; lia]). rewrite uint_id; lia.
Qed.

(** The words of a position. *)
Lemma words_of pos : 0 <= pos < 2 ^ 32 -> low_word pos = (2 * Z.to_nat (pos / 2))%nat /\ high_word pos = (2 * Z.to_nat (pos / 2) + 1)%nat.
Proof.
  intros P. pose proof (Z.div_pos pos 2). assert (T : forall n, 0 <= n -> Z.testbit (pos / 2) n = Z.testbit pos (Z.succ n)).
  { intros n N. by apply Z.div2_bits. }
  assert (E : Z.land pos 0xFFFFFFFE = 2 * (pos / 2)).
  { apply Z.bits_inj'. intros n N. rewrite Z.land_spec. destruct (decide (n = 0)) as [->|].
    - rewrite Z.testbit_even_0. apply andb_false_r.
    - replace n with (Z.succ (n - 1)) by lia. change 0xFFFFFFFE with (2 * Z.ones 31). rewrite !Z.testbit_even_succ, T by lia.
      destruct (decide (n < 32)); [by rewrite Z.ones_spec_low, andb_true_r by lia|]. by rewrite (bits_high pos 32) by lia. }
  assert (E1 : Z.lor pos 1 = 2 * (pos / 2) + 1).
  { apply Z.bits_inj'. intros n N. rewrite Z.lor_spec. destruct (decide (n = 0)) as [->|].
    - rewrite Z.testbit_odd_0. apply orb_true_r.
    - replace n with (Z.succ (n - 1)) by lia. change (Z.testbit 1) with (Z.testbit (2 * 0 + 1)). rewrite !Z.testbit_odd_succ, T, Z.bits_0, orb_false_r by lia. done. }
  unfold low_word, high_word. rewrite E, E1. lia.
Qed.

Lemma put_bit_spec d w b v : (w < length d)%nat -> 0 <= b < 64 -> 0 <= v <= 1 ->
  exists d', put_bit d w b v = Some d' /\ length d' = length d /\ forall x j, 0 <= j < 64 ->
    Z.testbit (nth x d' 0) j = if decide (x = w /\ j = b) then Z.odd v else Z.testbit (nth x d 0) j.
Proof.
  intros W B V. unfold put_bit. destruct (lookup_lt_is_Some_2 d w W) as [e L]. rewrite L. cbn. eexists. split; [done|].
  split; [apply length_insert|]. intros x j J. rewrite (nth_lookup (<[_ := _]> d)). destruct (decide (x = w)) as [->|NX].
  - rewrite list_lookup_insert_eq by done. cbn. rewrite Z.lor_spec, Z.land_spec, Z.lxor_spec, Z.shiftl_1_l, Z.pow2_bits_eqb, Z.shiftl_spec by lia.
    change (2 ^ 64 - 1) with (Z.ones 64). rewrite Z.ones_spec_low by lia. rewrite (nth_lookup_Some _ _ _ _ L). destruct (decide (w = w /\ j = b)) as [[_ ->]|N].
    + rewrite Z.eqb_refl, Z.sub_diag, Z.bit0_odd. cbn [xorb]. by rewrite andb_false_r.
    + destruct (Z.eqb_spec b j) as [->|]; [by destruct N|]. cbn [xorb]. rewrite andb_true_r. destruct (decide (j < b)); [by rewrite (Z.testbit_neg_r v), orb_false_r by lia|].
      rewrite (bits_high v 1), orb_false_r by lia. done.
  - rewrite list_lookup_insert_ne by done. rewrite <- nth_lookup. destruct (decide _) as [[? _]|]; [congruence|done].
Qed.

(** ** The generations

    [lw q b] is the generation, counted from the start, that wrote a cell last. *)

Definition number (g : Z) : Z := g mod 3 + 1.

Record state_ok (m : nat) (G : Z) (lw : nat -> Z -> Z) (d : list Z) : Prop := {
  so_length : length d = (2 * m)%nat;
  so_past : forall q b, lw q b <= G;
  so_cell : forall q b, (q < m)%nat -> 0 <= b < 64 -> cell d q b = if G - lw q b <=? 2 then number (lw q b) else 0
}.

Lemma number_range g : 1 <= number g <= 3.
Proof. unfold number. pose proof (Z.mod_pos_bound g 3). lia. Qed.

Lemma number_bits g : number g = Z.land (number g) 1 + 2 * Z.shiftr (number g) 1 /\
  0 <= Z.land (number g) 1 <= 1 /\ 0 <= Z.shiftr (number g) 1 <= 1.
Proof. pose proof (number_range g). assert (C : number g = 1 \/ number g = 2 \/ number g = 3) by lia. destruct C as [-> |[-> | ->]]; by vm_compute. Qed.

Lemma b2z_odd v : 0 <= v <= 1 -> Z.b2z (Z.odd v) = v.
Proof. intros V. assert (C : v = 0 \/ v = 1) by lia. by destruct C as [-> | ->]. Qed.

(** Words of a mask: all bits of one bit of the number. *)
Lemma mask_bit g j : 0 <= g <= 1 -> 0 <= j < 64 -> Z.testbit (u64 (- g)) j = Z.odd g.
Proof.
  intros G J. assert (C : g = 0 \/ g = 1) by lia. destruct C as [-> | ->]; [apply Z.bits_0|]. change (u64 (- (1))) with (Z.ones 64).
  by rewrite Z.ones_spec_low by lia.
Qed.

Lemma wipe_spec g m : forall d, length d = (2 * m)%nat -> exists d',
  wipe (u64 (- Z.land (number g) 1)) (u64 (- Z.shiftr (number g) 1)) d = Some d' /\ length d' = length d /\
  forall q b, (q < m)%nat -> 0 <= b < 64 -> cell d' q b = if cell d q b =? number g then 0 else cell d q b.
Proof.
  destruct (number_bits g) as (E & R1 & R2). revert E R1 R2. generalize (Z.land (number g) 1) (Z.shiftr (number g) 1). intros x y E R1 R2.
  rewrite E. clear E. induction m as [|m IH]; intros d L; [destruct d; [by exists []; split; [|split; [|lia]]|done]|].
  destruct d as [|p1 [|p2 d]]; cbn in L; [lia|lia|]. destruct (IH d) as (d' & W & L' & C); [lia|]. cbn [wipe]. rewrite W. cbn [mbind option_bind].
  eexists. split; [done|]. split; [cbn; lia|]. intros [|q] b Q B.
  - unfold cell. cbn [nth Nat.mul Nat.add]. rewrite !Z.land_spec, Z.lor_spec, !Z.lxor_spec, !mask_bit by lia.
    rewrite <- (b2z_odd x R1) at 3. rewrite <- (b2z_odd y R2) at 3. by destruct (Z.testbit p1 b), (Z.testbit p2 b), (Z.odd x), (Z.odd y).
  - replace (cell (Z.land p1 _ :: _ :: d') (S q) b) with (cell d' q b) by (unfold cell; replace (2 * S q)%nat with (S (S (2 * q))) by lia; done).
    replace (cell (p1 :: p2 :: d) (S q) b) with (cell d q b) by (unfold cell; replace (2 * S q)%nat with (S (S (2 * q))) by lia; done).
    apply C; [lia|done].
Qed.

Lemma number_next G : (if number G + 1 =? 4 then 1 else number G + 1) = number (G + 1).
Proof. unfold number. destruct (Z.eqb_spec (G mod 3 + 1 + 1) 4); pose proof (Z.mod_pos_bound G 3); Z.div_mod_to_equations; lia. Qed.

(** A new generation forgets what the third last wrote. *)
Lemma wipe_state m G lw d : state_ok m G lw d -> exists d',
  wipe (u64 (- Z.land (number (G + 1)) 1)) (u64 (- Z.shiftr (number (G + 1)) 1)) d = Some d' /\ state_ok m (G + 1) lw d'.
Proof.
  intros [L P C]. destruct (wipe_spec (G + 1) m d L) as (d' & W & L' & C'). exists d'. split; [done|]. split; [congruence| |].
  - intros q b. specialize (P q b). lia.
  - intros q b Q B. rewrite C', C by done. specialize (P q b). pose proof (number_range (G + 1)).
    destruct (Z.leb_spec (G - lw q b) 2), (Z.leb_spec (G + 1 - lw q b) 2); try lia.
    + destruct (Z.eqb_spec (number (lw q b)) (number (G + 1))) as [E|]; [|done]. unfold number in E. exfalso. Z.div_mod_to_equations. lia.
    + replace (lw q b) with (G - 2) by lia. destruct (Z.eqb_spec (number (G - 2)) (number (G + 1))) as [|N]; [done|]. exfalso. apply N. unfold number.
      Z.div_mod_to_equations. lia.
    + by destruct (_ =? _).
Qed.

(** The cell of a key is written with the number of the generation. *)
Lemma write_state m G lw d q b : state_ok m G lw d -> (q < m)%nat -> 0 <= b < 64 -> exists d1 d2,
  put_bit d (2 * q) b (Z.land (number G) 1) = Some d1 /\ put_bit d1 (2 * q + 1) b (Z.shiftr (number G) 1) = Some d2 /\
  state_ok m G (fun q' b' => if decide (q' = q /\ b' = b) then G else lw q' b') d2.
Proof.
  intros [L P C] Q B. destruct (number_bits G) as (E & R1 & R2).
  destruct (put_bit_spec d (2 * q) b (Z.land (number G) 1)) as (d1 & E1 & L1 & B1); [lia|done|done|].
  destruct (put_bit_spec d1 (2 * q + 1) b (Z.shiftr (number G) 1)) as (d2 & E2 & L2 & B2); [lia|done|done|].
  exists d1, d2. split; [done|]. split; [done|]. split; [congruence| |].
  - intros q' b'. destruct (decide _); [lia|apply P].
  - intros q' b' Q' B'. unfold cell. rewrite !B2, !B1 by done.
    destruct (decide (2 * q' = 2 * q + 1 /\ b' = b)%nat) as [[? _]|_]; [lia|]. destruct (decide (2 * q' + 1 = 2 * q /\ b' = b)%nat) as [[? _]|_]; [lia|].
    destruct (decide (q' = q /\ b' = b)) as [[-> ->]|N].
    + destruct (decide (2 * q = 2 * q /\ b = b)%nat) as [_|X]; [|by destruct X]. destruct (decide (2 * q + 1 = 2 * q + 1 /\ b = b)%nat) as [_|X]; [|by destruct X].
      rewrite Z.sub_diag, !b2z_odd by done. change (0 <=? 2) with true. cbn iota. lia.
    + destruct (decide (2 * q' = 2 * q /\ b' = b)%nat) as [[? ?]|_]; [destruct N; split; [lia|done]|].
      destruct (decide (2 * q' + 1 = 2 * q + 1 /\ b' = b)%nat) as [[? ?]|_]; [destruct N; split; [lia|done]|]. by apply C.
Qed.

(** ** Runs *)

Section Run.
Context (m : nat) (tweak : Z) (count : nat) (e : Z).
Context (M : (0 < m)%nat) (Sz : 2 * Z.of_nat m < 2 ^ 32) (E1 : 1 <= e).

Abbreviation key_cells key := (cells m tweak key 0 count).

Lemma cell_of_range key n : (fst (cell_of m tweak key n) < m)%nat /\ 0 <= snd (cell_of m tweak key n) < 64.
Proof.
  unfold cell_of. cbn [fst snd]. pose proof (hash_range n tweak key) as H. pose proof (FastMod_range _ (2 * Z.of_nat m) H ltac:(lia)) as F.
  split; [|apply Z.mod_pos_bound; lia]. assert (FastMod (RollingBloomHash n tweak key) (2 * Z.of_nat m) / 2 < Z.of_nat m) by (apply Z.div_lt_upper_bound; lia).
  pose proof (Z.div_pos (FastMod (RollingBloomHash n tweak key) (2 * Z.of_nat m)) 2). lia.
Qed.

(** The code's words and bit of a hash. *)
Lemma position_spec key n (d : list Z) : length d = (2 * m)%nat -> let h := RollingBloomHash n tweak key in let '(q, b) := cell_of m tweak key n in
  low_word (FastMod h (size d)) = (2 * q)%nat /\ high_word (FastMod h (size d)) = (2 * q + 1)%nat /\ Z.land h 0x3F = b.
Proof.
  intros L h. unfold cell_of. fold h. replace (size d) with (2 * Z.of_nat m) by (unfold size; lia).
  pose proof (FastMod_range _ (2 * Z.of_nat m) (hash_range n tweak key : 0 <= h < _) ltac:(lia)) as F.
  destruct (words_of (FastMod h (2 * Z.of_nat m))) as [-> ->]; [lia|]. split; [done|]. split; [done|]. apply (land_ones_mod h 6). lia.
Qed.

Lemma write_loop_spec key G : forall k n lw d, state_ok m G lw d -> exists d' lw', write_loop k n tweak (number G) key d = Some d' /\
  state_ok m G lw' d' /\ forall q b, lw' q b = if bool_decide ((q, b) ∈ cells m tweak key n k) then G else lw q b.
Proof.
  induction k as [|k IH]; intros n lw d S; cbn [write_loop].
  { exists d, lw. split; [done|]. split; [done|]. intros q b. by rewrite bool_decide_false by apply not_elem_of_nil. }
  pose proof (position_spec key n d (so_length _ _ _ _ S)) as P. pose proof (cell_of_range key n) as R. cbv zeta in P.
  rewrite cells_S. destruct (cell_of m tweak key n) as [q b]. cbn [fst snd] in R. destruct P as (-> & -> & ->).
  destruct (write_state m G lw d q b S) as (d1 & d2 & -> & Ed & S2); [lia|lia|]. cbn [mbind option_bind]. rewrite Ed. cbn [mbind option_bind].
  destruct (IH (n + 1) _ d2 S2) as (d' & lw' & -> & S' & Lw). exists d', lw'. split; [done|]. split; [done|]. intros q' b'. rewrite Lw.
  destruct (bool_decide_reflect ((q', b') ∈ cells m tweak key (n + 1) k)) as [I|I]; [by rewrite bool_decide_true by by right|].
  destruct (decide (q' = q /\ b' = b)) as [[-> ->]|N]; [by rewrite bool_decide_true by by left|]. rewrite bool_decide_false; [done|].
  intros [X|X]%elem_of_cons; [|done]. apply N. by injection X.
Qed.

(** A cell is set if one of the last three generations wrote it. *)
Lemma find_loop_spec key G lw d : state_ok m G lw d -> forall k n,
  find_loop k n tweak key d = Some (forallb (fun c => G - lw (fst c) (snd c) <=? 2) (cells m tweak key n k)).
Proof.
  intros S. induction k as [|k IH]; intros n; [done|]. cbn [find_loop].
  pose proof (position_spec key n d (so_length _ _ _ _ S)) as P. pose proof (cell_of_range key n) as R. cbv zeta in P.
  rewrite cells_S. destruct (cell_of m tweak key n) as [q b]. cbn [fst snd] in R. destruct P as (-> & -> & ->). pose proof (so_length _ _ _ _ S) as L.
  destruct (lookup_lt_is_Some_2 d (2 * q)) as [lo Lo]; [lia|]. destruct (lookup_lt_is_Some_2 d (2 * q + 1)) as [hi Hi]; [lia|].
  rewrite Lo, Hi. cbn [mbind option_bind forallb fst snd]. rewrite IH.
  assert (C : cell d q b = Z.b2z (Z.testbit lo b) + 2 * Z.b2z (Z.testbit hi b)).
  { unfold cell. by rewrite (nth_lookup_Some _ _ _ _ Lo), (nth_lookup_Some _ _ _ _ Hi). }
  rewrite (so_cell _ _ _ _ S) in C by lia. pose proof (number_range (lw q b)).
  replace (Z.land (Z.shiftr (Z.lor lo hi) b) 1) with (Z.b2z (Z.testbit lo b || Z.testbit hi b)).
  - destruct (G - lw q b <=? 2), (Z.testbit lo b), (Z.testbit hi b); cbn in C |- *; done || lia.
  - rewrite (land_ones_mod _ 1), <- Z.lor_spec by done. change (2 ^ 1) with 2. rewrite <- Z.bit0_mod, Z.shiftr_spec by done. done.
Qed.

Definition generation (n : nat) : Z := if decide (n = 0%nat) then 0 else (Z.of_nat n - 1) / e.

Lemma generation_S n : generation (S n) = Z.of_nat n / e.
Proof. unfold generation. destruct (decide _); [done|]. f_equal. lia. Qed.

Record run_ok (keys : list bytes) (f : CRollingBloomFilter) : Prop := {
  ro_per : nEntriesPerGeneration f = e;
  ro_this : nEntriesThisGeneration f = if decide (length keys = 0%nat) then 0 else (size keys - 1) mod e + 1;
  ro_number : nGeneration f = number (generation (length keys));
  ro_tweak : rb_nTweak f = tweak;
  ro_count : Z.to_nat (rb_nHashFuncs f) = count;
  ro_state : exists lw, state_ok m (generation (length keys)) lw (data f) /\ forall q b,
    (forall i key, keys !! i = Some key -> (q, b) ∈ key_cells key -> Z.of_nat i / e <= lw q b) /\
    (lw q b = -3 \/ exists i key, keys !! i = Some key /\ (q, b) ∈ key_cells key /\ lw q b = Z.of_nat i / e)
}.

Lemma next_generation_spec keys f : run_ok keys f -> exists f', next_generation f = Some f' /\
  nEntriesPerGeneration f' = e /\ nEntriesThisGeneration f' + 1 = size keys mod e + 1 /\ nGeneration f' = number (size keys / e) /\
  rb_nTweak f' = tweak /\ Z.to_nat (rb_nHashFuncs f') = count /\
  exists lw, state_ok m (size keys / e) lw (data f') /\ forall q b,
    (forall i key, keys !! i = Some key -> (q, b) ∈ key_cells key -> Z.of_nat i / e <= lw q b) /\
    (lw q b = -3 \/ exists i key, keys !! i = Some key /\ (q, b) ∈ key_cells key /\ lw q b = Z.of_nat i / e).
Proof.
  intros [P T N Tw Cn (lw & S & Lw)]. unfold next_generation. rewrite T, P. unfold generation in *. unfold size in *.
  destruct (decide (length keys = 0%nat)) as [Z0|NZ].
  - destruct (Z.eqb_spec 0 e); [lia|]. exists f. split; [done|]. split; [done|]. rewrite T, N, Z0. change (Z.of_nat 0) with 0. rewrite Z.div_0_l, Z.mod_0_l by lia.
    split; [done|]. split; [done|]. split; [done|]. split; [done|]. by exists lw.
  - set (n := Z.of_nat (length keys)) in *. assert (1 <= n) by lia.
    destruct (Z.eqb_spec ((n - 1) mod e + 1) e) as [F|F].
    + rewrite N, number_next. destruct (wipe_state _ _ _ _ S) as (d' & -> & S'). cbn [mbind option_bind]. eexists. split; [done|].
      cbn [nEntriesPerGeneration nEntriesThisGeneration nGeneration rb_nTweak rb_nHashFuncs data].
      assert (D : n / e = (n - 1) / e + 1 /\ n mod e = 0).
      { pose proof (Z.div_mod (n - 1) e). split; symmetry.
        - apply (Z.div_unique n e _ 0); lia.
        - apply (Z.mod_unique n e ((n - 1) / e + 1)); lia. }
      destruct D as [-> ->]. split; [done|]. split; [done|]. split; [done|]. split; [done|]. split; [done|]. by exists lw.
    + exists f. split; [done|]. assert (D : n / e = (n - 1) / e /\ n mod e = (n - 1) mod e + 1).
      { pose proof (Z.div_mod (n - 1) e). pose proof (Z.mod_pos_bound (n - 1) e). split; symmetry.
        - apply (Z.div_unique n e _ ((n - 1) mod e + 1)); lia.
        - apply (Z.mod_unique n e ((n - 1) / e)); lia. }
      destruct D as [-> ->]. rewrite P, T, N. split; [done|]. split; [done|]. split; [done|]. split; [done|]. split; [done|]. by exists lw.
Qed.

Lemma rolling_insert_spec keys f key : run_ok keys f -> exists f', rolling_insert f key = Some f' /\ run_ok (keys ++ [key]) f'.
Proof.
  intros R. unfold rolling_insert. destruct (next_generation_spec keys f R) as (f1 & -> & P & T & N & Tw & Cn & lw & S & Lw). cbn [mbind option_bind].
  rewrite Tw, Cn, N. destruct (write_loop_spec key _ count 0 lw (data f1) S) as (d' & lw' & -> & S' & Lw'). cbn [mbind option_bind].
  eexists. split; [done|]. assert (G : generation (length (keys ++ [key])) = size keys / e).
  { rewrite length_app. cbn [length]. rewrite Nat.add_1_r. apply generation_S. }
  split; cbn [nEntriesPerGeneration nEntriesThisGeneration nGeneration rb_nTweak rb_nHashFuncs data]; rewrite ?G; try done.
  - destruct (decide _) as [X|_]; [by rewrite length_app in X; cbn in X; lia|]. rewrite size_app, T. f_equal. f_equal. unfold size. cbn. lia.
  - exists lw'. split; [done|]. intros q b. rewrite Lw'. destruct (Lw q b) as [U V]. split.
    + intros i k X I. apply lookup_app_Some in X as [X|[Ge X]].
      * pose proof (U i k X I). apply lookup_lt_Some in X. destruct (bool_decide _); [|done]. unfold size. apply Z.div_le_mono; lia.
      * apply list_lookup_singleton_Some in X as [Z0 <-]. rewrite (bool_decide_true _ I). unfold size. apply Z.div_le_mono; lia.
    + destruct (bool_decide_reflect ((q, b) ∈ key_cells key)) as [I|I].
      * right. exists (length keys), key. split; [by apply list_lookup_middle|]. by split.
      * destruct V as [V|(i & k & X & I' & V)]; [by left|right]. exists i, k. split; [by apply lookup_app_l_Some|]. by split.
Qed.

Lemma rolling_inserts_spec keys : forall before f, run_ok before f -> exists f', rolling_inserts f keys = Some f' /\ run_ok (before ++ keys) f'.
Proof.
  induction keys as [|key keys IH]; intros before f R; cbn [rolling_inserts]; [exists f; by rewrite app_nil_r|].
  destruct (rolling_insert_spec before f key R) as (f1 & -> & R1). cbn [mbind option_bind]. destruct (IH _ f1 R1) as (f' & -> & R').
  exists f'. split; [done|]. by rewrite <- app_assoc in R'.
Qed.

Lemma rolling_contains_spec keys f key : run_ok keys f -> exists b, rolling_contains f key = Some b /\
  (b = true <-> forall c, c ∈ key_cells key -> exists i k, keys !! i = Some k /\ c ∈ key_cells k /\ generation (length keys) - Z.of_nat i / e <= 2).
Proof.
  intros [P T N Tw Cn (lw & S & Lw)]. unfold rolling_contains. rewrite Tw, Cn, (find_loop_spec key _ lw _ S). eexists. split; [done|].
  rewrite forallb_forall. assert (G0 : 0 <= generation (length keys)) by (unfold generation; destruct (decide _); [done|apply Z.div_pos; lia]).
  split.
  - intros A c I. destruct c as [q b]. specialize (A (q, b)). cbn [fst snd] in A. rewrite <- list_elem_of_In in A. apply A, Z.leb_le in I as L.
    destruct (Lw q b) as [_ [V|(i & k & X & I' & V)]]; [lia|]. exists i, k. split; [done|]. split; [done|]. lia.
  - intros A c I. rewrite <- list_elem_of_In in I. destruct (A c I) as (i & k & X & I' & L). apply Z.leb_le. destruct c as [q b].
    destruct (Lw q b) as [U _]. pose proof (U i k X I'). cbn [fst snd]. lia.
Qed.

Lemma reset_run_ok f : nEntriesPerGeneration f = e -> Z.to_nat (rb_nHashFuncs f) = count -> length (data f) = (2 * m)%nat -> run_ok [] (rolling_reset f tweak).
Proof.
  intros P C L. split; try done. exists (fun _ _ => -3). split; [|intros q b; split; [intros i k X; by rewrite lookup_nil in X|by left]].
  split; [by cbn; rewrite length_replicate|done|]. intros q b Q B. unfold cell. cbn [rolling_reset data]. rewrite !nth_lookup, !lookup_replicate_2 by lia.
  cbn [default]. by rewrite Z.bits_0.
Qed.

End Run.

(** ** Properties *)

(** C39. The rolling filter remembers.  After any insertions into a reset
    filter (an even number of words, at least one entry per generation), it
    answers, without an access out of range, whether each of the positions of
    a key was written by one of the last three generations; in particular it
    contains each of the last [2 * nEntriesPerGeneration] keys, and so at least
    the [nElements] that it was made for. *)
Theorem rolling_remembers f tweak keys (m : nat) :
  length (data f) = (2 * m)%nat -> (0 < m)%nat -> size (data f) < 2 ^ 32 -> 1 <= nEntriesPerGeneration f ->
  exists f', rolling_inserts (rolling_reset f tweak) keys = Some f' /\
    (forall key, exists b, rolling_contains f' key = Some b /\
       (b = true <-> forall c, c ∈ cells m tweak key 0 (Z.to_nat (rb_nHashFuncs f)) ->
          exists i k, keys !! i = Some k /\ c ∈ cells m tweak k 0 (Z.to_nat (rb_nHashFuncs f)) /\
            generation (nEntriesPerGeneration f) (length keys) - Z.of_nat i / nEntriesPerGeneration f <= 2)) /\
    (forall i key, keys !! i = Some key -> size keys - Z.of_nat i <= 2 * nEntriesPerGeneration f -> rolling_contains f' key = Some true).
Proof.
  intros L M Sz E. set (e := nEntriesPerGeneration f) in *. set (count := Z.to_nat (rb_nHashFuncs f)). assert (S : 2 * Z.of_nat m < 2 ^ 32) by (unfold size in Sz; lia).
  destruct (rolling_inserts_spec m tweak count e M S E keys [] _ ltac:(by apply (reset_run_ok m tweak count e M f))) as (f' & I & R). cbn [app] in R.
  exists f'. split; [done|]. split; [intros key; by apply (rolling_contains_spec m tweak count e M S E keys f' key)|].
  intros i key X Rc. destruct (rolling_contains_spec m tweak count e M S E keys f' key R) as (b & -> & B). f_equal. apply B. intros c C. exists i, key.
  split; [done|]. split; [done|]. apply lookup_lt_Some in X. unfold generation. destruct (decide _); [lia|]. unfold size in Rc.
  assert ((Z.of_nat (length keys) - 1) / e <= Z.of_nat i / e + 2); [|lia]. rewrite <- Z.div_add by lia. apply Z.div_le_mono; lia.
Qed.

Definition small_rolling : CRollingBloomFilter := {|
  nEntriesPerGeneration := 2; nEntriesThisGeneration := 0; nGeneration := 1; data := replicate 8 0; rb_nTweak := 0; rb_nHashFuncs := 3
|}.

Lemma rolling_remembers_witness : exists f, rolling_inserts (rolling_reset small_rolling 7) [[1]; [2]; [3]; [4]; [5]; [6]; [7]] = Some f /\
  rolling_contains f [4] = Some true /\ rolling_contains f [1] = Some false.
Proof.
  destruct (rolling_remembers small_rolling 7 [[1]; [2]; [3]; [4]; [5]; [6]; [7]] 4) as (f & E & _ & P); [reflexivity|lia|vm_compute; reflexivity|done|].
  exists f. split; [exact E|]. split; [apply (P 3%nat); [reflexivity|vm_compute; congruence]|].
  assert (V : match rolling_inserts (rolling_reset small_rolling 7) [[1]; [2]; [3]; [4]; [5]; [6]; [7]] with
              | Some f => rolling_contains f [1] = Some false | None => False end) by (vm_compute; reflexivity).
  rewrite E in V. exact V.
Defined.
