(* ===== verification/MerkleBlock.v ===== *)
(** * Partial Merkle trees

    merkleblock.cpp: the proof that some transactions are in a block, which a
    node sends to light clients.  The tree is traversed depth first; a bit per
    node says whether a matched transaction is below, and a node without one
    is given by its hash. *)

From S2P Require Import Prelude Crypto Serialize Script Transaction Merkle Coins Bloom.

Local Open Scope krova_scope.

(** ** Bits and bytes *)

Definition or_bit (ret : bytes) (p : nat) (b : bool) : bytes :=
  alter (fun x => Z.lor x (Z.shiftl (Z.b2z b) (Z.of_nat (p mod 8)))) (p / 8)%nat ret.

Fixpoint BitsToBytes_loop (bits : list bool) (p : nat) (ret : bytes) : bytes :=
  match bits with
  | [] => ret
  | b :: bits => BitsToBytes_loop bits (S p) (or_bit ret p b)
  end.

Definition BitsToBytes (bits : list bool) : bytes := BitsToBytes_loop bits 0 (replicate ((length bits + 7) / 8) 0).

Definition BytesToBits (l : bytes) : list bool :=
  (fun p => negb (Z.land (nth (p / 8) l 0) (Z.shiftl 1 (Z.of_nat (p mod 8))) =? 0)) <$> seq 0 (length l * 8).

(** ** CPartialMerkleTree *)

Record CPartialMerkleTree := { nTransactions : Z; vBits : list bool; vHash : list Z; fBad : bool }.

Definition tree_fields : Formatter (Z * (list Z * bytes)) := uint32_fmt ⊕ VectorFormatter uint256_fmt ⊕ blob_fmt.

Definition PartialMerkleTree_ser (t : CPartialMerkleTree) : bytes := Ser tree_fields (nTransactions t, (vHash t, BitsToBytes (vBits t))).

Definition PartialMerkleTree_unser : Reader CPartialMerkleTree := fun s =>
  '((n, (hashes, l)), s) ← Unser tree_fields s;
  Some ({| nTransactions := n; vBits := BytesToBits l; vHash := hashes; fBad := false |}, s).

Definition CalcTreeWidth (n : Z) (height : nat) : Z := Z.shiftr (u32 (n + Z.shiftl 1 (Z.of_nat height) - 1)) (Z.of_nat height).

(** [while (CalcTreeWidth(nHeight) > 1) nHeight++]; beyond 31 the shift is not
    defined. *)
Fixpoint height_loop (fuel : nat) (n : Z) (nHeight : nat) : option nat :=
  match fuel with
  | O => None
  | S fuel => if 1 <? CalcTreeWidth n nHeight then height_loop fuel n (S nHeight) else Some nHeight
  end.

Definition CalcHeight (n : Z) : option nat := height_loop 31 n 0.

Section PartialTree.
Context `{HashFunctions}.

(** [None] is an index out of range. *)
Fixpoint CalcHash (n : Z) (height : nat) (pos : Z) (vTxid : list Z) : option Z :=
  match height with
  | O => vTxid !! Z.to_nat pos
  | S height =>
      lhash ← CalcHash n height (u32 (pos * 2)) vTxid;
      rhash ← (if u32 (u32 (pos * 2) + 1) <? CalcTreeWidth n height then CalcHash n height (u32 (u32 (pos * 2) + 1)) vTxid else Some lhash);
      Some (Hash2 lhash rhash)
  end.

(** [fParentOfMatch |= vMatch[p]] from [p] on, at most [count] times. *)
Fixpoint any_match (count : nat) (p last n : Z) (vMatch : list bool) (acc : bool) : option bool :=
  match count with
  | O => Some acc
  | S count =>
      if (p <? last) && (p <? n) then b ← vMatch !! Z.to_nat p; any_match count (u32 (p + 1)) last n vMatch (acc || b)
      else Some acc
  end.

Definition ParentOfMatch (n : Z) (height : nat) (pos : Z) (vMatch : list bool) : option bool :=
  any_match (S (length vMatch)) (u32 (Z.shiftl pos (Z.of_nat height))) (u32 (Z.shiftl (u32 (pos + 1)) (Z.of_nat height))) n vMatch false.

(** The bits and the hashes that are pushed. *)
Fixpoint TraverseAndBuild (n : Z) (height : nat) (pos : Z) (vTxid : list Z) (vMatch : list bool) : option (list bool * list Z) :=
  fParentOfMatch ← ParentOfMatch n height pos vMatch;
  match height with
  | O => h ← CalcHash n height pos vTxid; Some ([fParentOfMatch : bool], [h])
  | S height' =>
      if negb fParentOfMatch then h ← CalcHash n height pos vTxid; Some ([fParentOfMatch], [h])
      else
        '(bits, hashes) ← TraverseAndBuild n height' (u32 (pos * 2)) vTxid vMatch;
        '(bits', hashes') ← (if u32 (u32 (pos * 2) + 1) <? CalcTreeWidth n height'
                             then TraverseAndBuild n height' (u32 (u32 (pos * 2) + 1)) vTxid vMatch else Some ([], []));
        Some (fParentOfMatch :: bits ++ bits', hashes ++ hashes')
  end.

Definition PartialMerkleTree (vTxid : list Z) (vMatch : list bool) : option CPartialMerkleTree :=
  let n := u32 (size vTxid) in
  nHeight ← CalcHeight n;
  '(bits, hashes) ← TraverseAndBuild n nHeight 0 vTxid vMatch;
  Some {| nTransactions := n; vBits := bits; vHash := hashes; fBad := false |}.

(** The counters, the matches and the flag. *)
Record Traversal := { nBitsUsed : Z; nHashUsed : Z; tr_match : list Z; tr_bad : bool }.

Definition traverse_bad (s : Traversal) : Z * Traversal :=
  (0, {| nBitsUsed := nBitsUsed s; nHashUsed := nHashUsed s; tr_match := tr_match s; tr_bad := true |}).

Definition use_bit (s : Traversal) : Traversal :=
  {| nBitsUsed := nBitsUsed s + 1; nHashUsed := nHashUsed s; tr_match := tr_match s; tr_bad := tr_bad s |}.

Definition use_hash (s : Traversal) (matched : list Z) : Traversal :=
  {| nBitsUsed := nBitsUsed s; nHashUsed := nHashUsed s + 1; tr_match := tr_match s ++ matched; tr_bad := tr_bad s |}.

Fixpoint TraverseAndExtract (t : CPartialMerkleTree) (height : nat) (pos : Z) (s : Traversal) : Z * Traversal :=
  match vBits t !! Z.to_nat (nBitsUsed s) with
  | None => traverse_bad s
  | Some fParentOfMatch =>
      let s := use_bit s in
      let stored matched :=
        match vHash t !! Z.to_nat (nHashUsed s) with
        | None => traverse_bad s
        | Some hash => (hash, use_hash s (if (matched : bool) then [hash] else []))
        end in
      match height with
      | O => stored fParentOfMatch
      | S height =>
          if negb fParentOfMatch then stored false
          else
            let '(lhash, s) := TraverseAndExtract t height (u32 (pos * 2)) s in
            let '(rhash, s) :=
              if u32 (u32 (pos * 2) + 1) <? CalcTreeWidth (nTransactions t) height
              then TraverseAndExtract t height (u32 (u32 (pos * 2) + 1)) s else (lhash, s) in
            (Hash2 lhash rhash, s)
      end
  end.

(** The root (zero is a failure), the matches, and the tree with its flag;
    [None] is a height at which the shift is not defined. *)
Definition ExtractMatches (t : CPartialMerkleTree) : option (Z * list Z * CPartialMerkleTree) :=
  if nTransactions t =? 0 then Some (0, [], t)
  else if MAX_BLOCK_SIZE_CURRENT / 60 <? nTransactions t then Some (0, [], t)
  else if nTransactions t <? size (vHash t) then Some (0, [], t)
  else if size (vBits t) <? size (vHash t) then Some (0, [], t)
  else
    nHeight ← CalcHeight (nTransactions t);
    let '(hashMerkleRoot, s) := TraverseAndExtract t nHeight 0 {| nBitsUsed := 0; nHashUsed := 0; tr_match := []; tr_bad := fBad t |} in
    let t := {| nTransactions := nTransactions t; vBits := vBits t; vHash := vHash t; fBad := tr_bad s |} in
    Some (if tr_bad s then 0
          else if negb ((nBitsUsed s + 7) / 8 =? (size (vBits t) + 7) / 8) then 0
          else if negb (nHashUsed s =? size (vHash t)) then 0
          else hashMerkleRoot, tr_match s, t).

(** ** CMerkleBlock *)

Record CMerkleBlock := { mb_header : CBlockHeader; mb_txn : CPartialMerkleTree; vMatchedTxn : list (Z * Z) }.

(** The matches, the pairs of [vMatchedTxn] and the filter as updated. *)
Fixpoint match_txs (i : Z) (txs : list CTransaction) (filter : option CBloomFilter) (txids : option (list Z))
  : option (list bool * list (Z * Z) * option CBloomFilter) :=
  match txs with
  | [] => Some ([], [], filter)
  | tx :: txs =>
      let hash := GetHash tx in
      if match txids with Some l => bool_decide (hash ∈ l) | None => false end then
        '(ms, pairs, filter) ← match_txs (i + 1) txs filter txids; Some (true :: ms, pairs, filter)
      else
        '(b, filter) ← match filter with
                       | Some f => '(b, f) ← IsRelevantAndUpdate f tx; Some (b, Some f)
                       | None => Some (false, None)
                       end;
        '(ms, pairs, filter) ← match_txs (i + 1) txs filter txids;
        Some (b :: ms, (if (b : bool) then [(i, hash)] else []) ++ pairs, filter)
  end.

Definition MerkleBlock (block : CBlock) (filter : option CBloomFilter) (txids : option (list Z))
  : option (CMerkleBlock * option CBloomFilter) :=
  '(vMatch, matched, filter) ← match_txs 0 (vtx block) filter txids;
  txn ← PartialMerkleTree (GetHash <$> vtx block) vMatch;
  Some ({| mb_header := header block; mb_txn := txn; vMatchedTxn := matched |}, filter).

End PartialTree.

(** ** Widths and heights *)

Abbreviation pow k := (2 ^ Z.of_nat k).

Lemma pow_mono h : (h <= 30)%nat -> 1 <= pow h <= 2 ^ 30.
Proof. intros L. split; [pose proof (pow_pos h); lia|]. apply Z.pow_le_mono_r; lia. Qed.

Lemma width_lt n h p : 0 < n <= 2 ^ 30 -> (h <= 30)%nat -> 0 <= p -> (p <? CalcTreeWidth n h) = (p * pow h <? n).
Proof.
  intros N L P. pose proof (pow_mono h L). unfold CalcTreeWidth. rewrite Z.shiftl_1_l, uint_id, Z.shiftr_div_pow2 by lia.
  apply eq_bool_prop_intro. rewrite !Is_true_true, !Z.ltb_lt. split; intros X.
  - assert (p * pow h <= n + pow h - 1 - pow h); [|lia]. assert (X' : p + 1 <= (n + pow h - 1) / pow h) by lia.
    apply (Z.mul_le_mono_nonneg_r _ _ (pow h)) in X'; [|lia]. pose proof (Z.mul_div_le (n + pow h - 1) (pow h)). lia.
  - apply Z.lt_le_trans with (p + 1); [lia|]. apply Z.div_le_lower_bound; lia.
Qed.

Lemma height_loop_spec n : 0 < n <= 2 ^ 30 -> forall fuel h, (fuel + h = 31)%nat -> (Z.of_nat h <= Z.log2_up n) ->
  height_loop fuel n h = Some (Z.to_nat (Z.log2_up n)).
Proof.
  intros N. assert (U : Z.log2_up n <= 30) by (apply Z.log2_up_le_pow2; lia). induction fuel as [|fuel IH]; intros h F L; [lia|].
  cbn [height_loop]. rewrite width_lt, Z.mul_1_l by lia. destruct (Z.ltb_spec (pow h) n) as [X|X].
  - apply IH; [lia|]. apply Z.log2_up_lt_pow2 in X; lia.
  - f_equal. apply Z.log2_up_le_pow2 in X; lia.
Qed.

Lemma CalcHeight_spec n : 0 < n <= 2 ^ 30 -> CalcHeight n = Some (Z.to_nat (Z.log2_up n)) /\ (Z.to_nat (Z.log2_up n) <= 30)%nat /\ n <= pow (Z.to_nat (Z.log2_up n)).
Proof.
  intros N. split; [apply height_loop_spec; [done|done|apply Z.log2_up_nonneg]|]. assert (U : Z.log2_up n <= 30) by (apply Z.log2_up_le_pow2; lia).
  split; [lia|]. rewrite Z2Nat.id by apply Z.log2_up_nonneg. destruct (decide (n = 1)) as [->|]; [done|]. apply Z.log2_up_spec. lia.
Qed.

(** The children of a node that exists. *)
Lemma children n h pos : 0 < n <= 2 ^ 30 -> (h < 30)%nat -> 0 <= pos -> pos * pow (S h) < n ->
  u32 (pos * 2) = 2 * pos /\ u32 (u32 (pos * 2) + 1) = 2 * pos + 1 /\ 2 * pos * pow h < n /\
  (u32 (u32 (pos * 2) + 1) <? CalcTreeWidth n h) = ((2 * pos + 1) * pow h <? n).
Proof.
  intros N L P B. rewrite pow_S in B. pose proof (pow_mono h ltac:(lia)).
  assert (E : u32 (pos * 2) = 2 * pos) by (rewrite uint_id; nia). rewrite E. assert (E' : u32 (2 * pos + 1) = 2 * pos + 1) by (rewrite uint_id; nia).
  rewrite E'. split; [done|]. split; [done|]. split; [lia|]. apply width_lt; lia.
Qed.

(** ** The shape of a partial tree

    A subtree as the bits and hashes that describe it, its root and the leaves
    that it marks. *)

Section Shape.
Context `{HashFunctions} (n : Z).

Inductive ptree : nat -> Z -> list bool -> list Z -> Z -> list Z -> Prop :=
| pt_leaf pos (b : bool) x : ptree 0 pos [b] [x] x (if b then [x] else [])
| pt_cut h pos x : ptree (S h) pos [false] [x] x []
| pt_pair h pos bs hs r ms bs' hs' r' ms' : (2 * pos + 1) * pow h < n ->
    ptree h (2 * pos) bs hs r ms -> ptree h (2 * pos + 1) bs' hs' r' ms' ->
    ptree (S h) pos (true :: bs ++ bs') (hs ++ hs') (Hash2 r r') (ms ++ ms')
| pt_single h pos bs hs r ms : n <= (2 * pos + 1) * pow h -> ptree h (2 * pos) bs hs r ms ->
    ptree (S h) pos (true :: bs) hs (Hash2 r r) ms.

Lemma ptree_sizes h pos bs hs r ms : ptree h pos bs hs r ms -> (1 <= length hs <= length bs)%nat.
Proof. induction 1; cbn; rewrite ?length_app; lia. Qed.

(** Extraction reads a subtree where it stands. *)
Definition standing (t : CPartialMerkleTree) (s : Traversal) (bs : list bool) (hs : list Z) : Prop :=
  0 <= nBitsUsed s /\ 0 <= nHashUsed s /\ bs `prefix_of` drop (Z.to_nat (nBitsUsed s)) (vBits t) /\ hs `prefix_of` drop (Z.to_nat (nHashUsed s)) (vHash t).

Definition advance (s : Traversal) (bs : list bool) (hs ms : list Z) : Traversal :=
  {| nBitsUsed := nBitsUsed s + size bs; nHashUsed := nHashUsed s + size hs; tr_match := tr_match s ++ ms; tr_bad := tr_bad s |}.

Lemma advance_advance s bs hs ms bs' hs' ms' : advance (advance s bs hs ms) bs' hs' ms' = advance s (bs ++ bs') (hs ++ hs') (ms ++ ms').
Proof. unfold advance. cbn. by rewrite !size_app, !Z.add_assoc, app_assoc. Qed.

Lemma drop_prefix {A} (l : list A) i a x : x :: a `prefix_of` drop i l -> l !! i = Some x /\ a `prefix_of` drop (S i) l.
Proof.
  intros [z E]. assert (L : l !! i = Some x) by (rewrite <- (Nat.add_0_r i), <- lookup_drop, E; done). split; [done|].
  exists z. rewrite (drop_S _ _ _ L) in E. by injection E.
Qed.

Lemma prefix_split {A} (l a b : list A) i : a ++ b `prefix_of` drop i l -> a `prefix_of` drop i l /\ b `prefix_of` drop (i + length a) l.
Proof.
  intros [z E]. split; [exists (b ++ z); by rewrite E, app_assoc|]. exists z. by rewrite <- drop_drop, E, <- app_assoc, drop_app_length.
Qed.

Lemma standing_app t s bs bs' hs hs' ms : standing t s (bs ++ bs') (hs ++ hs') -> standing t s bs hs /\ standing t (advance s bs hs ms) bs' hs'.
Proof.
  intros (B & H' & Pb & Ph). apply prefix_split in Pb as [Pb Pb'], Ph as [Ph Ph']. split; [done|].
  unfold standing, advance, size. cbn. rewrite !Z2Nat.inj_add, !Nat2Z.id by lia. split; [lia|]. split; [lia|]. done.
Qed.

Section Extract.
Context (t : CPartialMerkleTree) (Tn : nTransactions t = n) (N : 0 < n <= 2 ^ 30).

Lemma extract_complete h pos bs hs r ms : ptree h pos bs hs r ms -> forall s, (h <= 30)%nat -> 0 <= pos -> pos * pow h < n -> standing t s bs hs ->
  TraverseAndExtract t h pos s = (r, advance s bs hs ms).
Proof.
  induction 1 as [pos b x|h pos x|h pos bs hs r ms bs' hs' r' ms' R T1 IH1 T2 IH2|h pos bs hs r ms R T1 IH1]; intros s L P B St; cbn [TraverseAndExtract].
  - destruct St as (B0 & H0 & [-> _]%drop_prefix & [E _]%drop_prefix). cbn [use_bit nHashUsed]. rewrite E. done.
  - destruct St as (B0 & H0 & [-> _]%drop_prefix & [E _]%drop_prefix). cbn [use_bit nHashUsed negb]. rewrite E. unfold use_hash, advance. cbn. done.
  - destruct St as (B0 & H0 & [-> Pb]%drop_prefix & Ph). cbn [negb]. destruct (children n h pos N ltac:(lia) P B) as (E1 & E2 & B1 & E3).
    rewrite Tn, E3, E1. rewrite E1 in E2. rewrite E2. rewrite (proj2 (Z.ltb_lt _ _) R).
    assert (St1 : standing t (use_bit s) (bs ++ bs') (hs ++ hs')).
    { unfold standing, use_bit. cbn. rewrite Z2Nat.inj_add, Nat.add_1_r by lia. split; [lia|]. done. }
    apply (standing_app t _ _ _ _ _ ms) in St1 as [St1 St2]. rewrite (IH1 (use_bit s)) by (done || lia). rewrite (IH2 (advance (use_bit s) bs hs ms)) by (done || lia).
    rewrite advance_advance. f_equal. unfold advance, use_bit. cbn. rewrite size_cons. f_equal. lia.
  - destruct St as (B0 & H0 & [-> Pb]%drop_prefix & Ph). cbn [negb]. destruct (children n h pos N ltac:(lia) P B) as (E1 & E2 & B1 & E3).
    rewrite Tn, E3, E1, (proj2 (Z.ltb_ge _ _) R). rewrite (IH1 (use_bit s)); [|lia|lia|lia|].
    + f_equal. unfold advance, use_bit. cbn. rewrite size_cons. f_equal. lia.
    + unfold standing, use_bit. cbn. rewrite Z2Nat.inj_add, Nat.add_1_r by lia. split; [lia|]. done.
Qed.

End Extract.
End Shape.

(** ** Building *)

(** The transactions that are marked. *)
Fixpoint marked (l : list Z) (m : list bool) : list Z :=
  match l, m with
  | x :: l, b :: m => (if b then [x] else []) ++ marked l m
  | _, _ => []
  end.

Lemma marked_app l m l' m' : length l = length m -> marked (l ++ l') (m ++ m') = marked l m ++ marked l' m'.
Proof. revert m. induction l as [|x l IH]; intros [|b m] L; try done. cbn. rewrite IH by (cbn in L; lia). by rewrite app_assoc. Qed.

Lemma marked_none l m : length l = length m -> existsb id m = false -> marked l m = [].
Proof. revert m. induction l as [|x l IH]; intros [|[] m] L; try done. cbn. intros E. apply IH; [cbn in L; lia|done]. Qed.

Lemma marked_some l m : length l = length m -> existsb id m = true -> (1 <= length (marked l m))%nat.
Proof. revert m. induction l as [|x l IH]; intros [|[] m] L; try done; cbn; [lia|]. intros E. apply IH; [cbn in L; lia|done]. Qed.

Lemma any_match_spec (vMatch : list bool) n last : n = size vMatch -> n <= 2 ^ 30 -> forall count p acc, 0 <= p -> (n - p < Z.of_nat count) ->
  any_match count p last n vMatch acc = Some (acc || existsb id (take (Z.to_nat (last - p)) (drop (Z.to_nat p) vMatch))).
Proof.
  intros En N. induction count as [|count IH]; intros p acc P L.
  { cbn. rewrite drop_ge by (unfold size in En; lia). by rewrite take_nil, orb_false_r. }
  cbn [any_match]. destruct (Z.ltb_spec p last) as [A|A]; cbn [andb].
  2: { replace (Z.to_nat (last - p)) with 0%nat by lia. by rewrite take_0, orb_false_r. }
  destruct (Z.ltb_spec p n) as [B|B]; [|rewrite drop_ge by (unfold size in En; lia); by rewrite take_nil, orb_false_r].
  destruct (lookup_lt_is_Some_2 vMatch (Z.to_nat p)) as [b E]; [unfold size in En; lia|]. rewrite E. cbn [mbind option_bind].
  rewrite uint_id by lia. rewrite IH by lia. rewrite (drop_S _ _ _ E). replace (Z.to_nat (last - p)) with (S (Z.to_nat (last - (p + 1)))) by lia.
  replace (Z.to_nat (p + 1)) with (S (Z.to_nat p)) by lia. cbn [take existsb]. by rewrite orb_assoc.
Qed.

Section Build.
Context `{HashFunctions} (vTxid : list Z) (vMatch : list bool).
Let n := size vTxid.
Context (N : 0 < n <= 2 ^ 30) (Lm : length vMatch = length vTxid).

Lemma ParentOfMatch_spec h pos : (h <= 30)%nat -> 0 <= pos -> pos * pow h < n -> ParentOfMatch n h pos vMatch = Some (existsb id (segment vMatch h pos)).
Proof.
  intros L P B. pose proof (pow_mono h L). unfold ParentOfMatch. rewrite !Z.shiftl_mul_pow2 by lia. assert (D : (pos + 1) * pow h = pos * pow h + pow h) by lia.
  assert (0 <= pos * pow h) by nia. assert (pos < n) by nia. rewrite (uint_id 32 (pos + 1)) by lia. rewrite !uint_id by lia.
  assert (En : n = size vMatch) by (unfold n, size; lia). rewrite any_match_spec; [|done|lia|lia|unfold size in En; lia]. cbn [orb]. unfold segment. do 3 f_equal.
  - replace ((pos + 1) * pow h - pos * pow h) with (pow h) by lia. rewrite <- pow_nat. lia.
  - f_equal. rewrite <- pow_nat. nia.
Qed.

Lemma CalcHash_spec h : forall pos, (h <= 30)%nat -> 0 <= pos -> pos * pow h < n -> CalcHash n h pos vTxid = Some (tnode vTxid h pos).
Proof.
  induction h as [|h IH]; intros pos L P B; cbn [CalcHash tnode].
  { rewrite Z.mul_1_r in B. destruct (lookup_lt_is_Some_2 vTxid (Z.to_nat pos)) as [x E]; [unfold n, size in B; lia|]. by rewrite E, (nth_lookup_Some _ _ _ _ E). }
  destruct (children n h pos N ltac:(lia) P B) as (E1 & E2 & B1 & E3). rewrite E3, E1. rewrite E1 in E2. rewrite E2, (IH (2 * pos)) by lia. cbn [mbind option_bind].
  change (leaf_count vTxid) with n. destruct (Z.ltb_spec ((2 * pos + 1) * pow h) n); [by rewrite IH by lia|done].
Qed.

Abbreviation seg_tx h pos := (segment vTxid h pos).
Abbreviation seg_match h pos := (segment vMatch h pos).

Lemma seg_lengths h pos : 0 <= pos -> length (seg_tx h pos) = length (seg_match h pos).
Proof. intros P. rewrite !segment_length by done. by rewrite Lm. Qed.

Lemma seg_nonempty h pos : 0 <= pos -> pos * pow h < n -> (1 <= length (seg_tx h pos))%nat.
Proof. intros P B. rewrite segment_length by done. unfold n, size in B. rewrite <- pow_nat in B. pose proof (Nat.pow_nonzero 2 h). nia. Qed.

(** The sizes of the description of a subtree: at most one hash per leaf, and
    per match one for each level and one more; in a full tree two bits per
    hash but one, otherwise up to one more per level. *)
Record small (h : nat) (pos : Z) (bs : list bool) (hs : list Z) : Prop := {
  sm_leaves : (length hs <= length (seg_tx h pos))%nat;
  sm_matches : (length hs <= 1 + length (marked (seg_tx h pos) (seg_match h pos)) * h)%nat;
  sm_bits : (length bs + 1 <= 2 * length hs + h)%nat;
  sm_full : (pos + 1) * pow h <= n -> (length bs + 1 <= 2 * length hs)%nat
}.

Lemma small_stored h pos b x : 0 <= pos -> pos * pow h < n -> small h pos [b] [x].
Proof. intros P B. pose proof (seg_nonempty h pos P B). split; cbn; lia. Qed.

Lemma TraverseAndBuild_spec h : forall pos, (h <= 30)%nat -> 0 <= pos -> pos * pow h < n -> exists bs hs,
  TraverseAndBuild n h pos vTxid vMatch = Some (bs, hs) /\ ptree n h pos bs hs (tnode vTxid h pos) (marked (seg_tx h pos) (seg_match h pos)) /\
  small h pos bs hs /\ Forall (fun x => exists k i, (k <= h)%nat /\ 0 <= i /\ i * pow k < n /\ x = tnode vTxid k i) hs.
Proof.
  induction h as [|h IH]; intros pos L P B; cbn [TraverseAndBuild]; rewrite ParentOfMatch_spec by done; cbn [mbind option_bind].
  - rewrite CalcHash_spec by done. cbn [mbind option_bind]. eexists _, _. split; [done|]. split; [|split; [by apply small_stored|]].
    + rewrite Z.mul_1_r in B. rewrite segment_leaf by (unfold leaf_count; fold n; lia). unfold segment. cbn. rewrite Nat.mul_1_r.
      destruct (lookup_lt_is_Some_2 vMatch (Z.to_nat pos)) as [b E]; [unfold n, size in B; lia|]. rewrite (drop_S _ _ _ E). cbn. rewrite app_nil_r, orb_false_r. constructor.
    + apply Forall_singleton. exists 0%nat, pos. done.
  - destruct (existsb id (seg_match (S h) pos)) eqn:A; cbn [negb].
    2: { rewrite CalcHash_spec by done. cbn [mbind option_bind]. eexists _, _. split; [done|]. split; [|split; [by apply small_stored|]].
         - rewrite marked_none by (done || by apply seg_lengths). constructor.
         - apply Forall_singleton. by exists (S h), pos. }
    destruct (children n h pos N ltac:(lia) P B) as (E1 & E2 & B1 & E3). rewrite E3, E1. rewrite E1 in E2. rewrite E2.
    destruct (IH (2 * pos)) as (bs & hs & -> & T1 & S1 & F1); [lia|lia|lia|]. cbn [mbind option_bind].
    pose proof (marked_some _ _ (seg_lengths (S h) pos P) A) as Mk. rewrite !segment_S in Mk |- * by done. rewrite marked_app in Mk |- * by (apply seg_lengths; lia).
    cbn [tnode]. change (leaf_count vTxid) with n. rewrite length_app in Mk.
    assert (W : forall l, Forall (fun x => exists k i, (k <= h)%nat /\ 0 <= i /\ i * pow k < n /\ x = tnode vTxid k i) l ->
      Forall (fun x => exists k i, (k <= S h)%nat /\ 0 <= i /\ i * pow k < n /\ x = tnode vTxid k i) l).
    { intros l Fl. apply (Forall_impl _ _ _ Fl). intros x (k & i & ? & X). exists k, i. split; [lia|done]. }
    destruct (Z.ltb_spec ((2 * pos + 1) * pow h) n) as [R|R].
    + destruct (IH (2 * pos + 1)) as (bs' & hs' & -> & T2 & S2 & F2); [lia|lia|lia|]. cbn [mbind option_bind].
      eexists _, _. split; [done|]. split; [by constructor|]. split; [|by apply W, Forall_app].
      pose proof (sm_full _ _ _ _ S1 ltac:(lia)). destruct S1 as [A1 A2 A3 _], S2 as [C1 C2 C3 C4].
      split; rewrite ?segment_S, ?marked_app by (done || apply seg_lengths; lia); cbn [length]; rewrite ?length_app; [lia| |lia|].
      * nia.
      * intros Fu. rewrite pow_S in Fu. specialize (C4 ltac:(lia)). lia.
    + cbn [mbind option_bind]. rewrite !app_nil_r. eexists _, _. split; [done|].
      assert (Em : forall A (l : list A), length l = length vTxid -> segment l h (2 * pos + 1) = []).
      { intros A' l Ll. apply nil_length_inv. rewrite segment_length by lia. unfold n, size in R. rewrite <- pow_nat in R. nia. }
      rewrite (Em _ vTxid eq_refl), (Em _ vMatch Lm) in *. cbn [marked length] in *. rewrite !app_nil_r. split; [by constructor|]. split; [|by apply W].
      destruct S1 as [A1 A2 A3 _]. split; rewrite ?segment_S, ?marked_app, ?(Em _ vTxid eq_refl), ?(Em _ vMatch Lm) by (done || apply seg_lengths; lia);
        cbn [marked length]; rewrite ?app_nil_r; [lia|nia|lia|]. intros Fu. rewrite pow_S in Fu. pose proof (pow_pos h). lia.
Qed.

End Build.

(** ** Bits packed in bytes *)

Definition packed_bit (l : bytes) (j : nat) : bool := Z.testbit (nth (j / 8) l 0) (Z.of_nat (j mod 8)).

Lemma or_bit_spec ret p b j : (p < 8 * length ret)%nat -> packed_bit (or_bit ret p b) j = packed_bit ret j || (bool_decide (j = p) && b).
Proof.
  intros P. unfold packed_bit, or_bit. assert (Q : (p / 8 < length ret)%nat) by (apply Nat.Div0.div_lt_upper_bound; lia).
  pose proof (Nat.div_mod_eq p 8). pose proof (Nat.div_mod_eq j 8). pose proof (Nat.mod_upper_bound p 8). pose proof (Nat.mod_upper_bound j 8).
  rewrite (nth_lookup (alter _ _ _)). destruct (decide (j / 8 = p / 8)%nat) as [E|NE].
  - rewrite E, list_lookup_alter_eq. destruct (lookup_lt_is_Some_2 ret (p / 8) Q) as [x X]. rewrite (nth_lookup_Some _ _ _ _ X), X. cbn [fmap option_fmap option_map default from_option id].
    rewrite Z.lor_spec. f_equal. rewrite Z.shiftl_spec by lia. destruct (bool_decide_reflect (j = p)) as [->|N]; [by rewrite Z.sub_diag, Z.b2z_bit0|].
    cbn [andb]. destruct (decide (j mod 8 < p mod 8)%nat); [by apply Z.testbit_neg_r; lia|]. destruct b; [|apply Z.bits_0]. apply (bits_high 1 1); lia.
  - rewrite list_lookup_alter_ne by done. rewrite <- nth_lookup. rewrite bool_decide_false by congruence. by rewrite orb_false_r.
Qed.

Lemma or_bit_length ret p b : length (or_bit ret p b) = length ret.
Proof. apply length_alter. Qed.

Lemma BitsToBytes_loop_spec bits : forall p ret, (p + length bits <= 8 * length ret)%nat ->
  length (BitsToBytes_loop bits p ret) = length ret /\ forall j, packed_bit (BitsToBytes_loop bits p ret) j = packed_bit ret j || (bool_decide (p <= j)%nat && nth (j - p) bits false).
Proof.
  induction bits as [|b bits IH]; intros p ret L; cbn [BitsToBytes_loop].
  { split; [done|]. intros j. rewrite (nth_overflow []) by (cbn; lia). by rewrite andb_false_r, orb_false_r. }
  cbn [length] in L. destruct (IH (S p) (or_bit ret p b)) as [L' B]; [rewrite or_bit_length; lia|]. rewrite or_bit_length in L'. split; [done|].
  intros j. rewrite B, or_bit_spec by lia. rewrite <- orb_assoc. f_equal. destruct (bool_decide_reflect (j = p)) as [->|N].
  - rewrite bool_decide_false, bool_decide_true, Nat.sub_diag by lia. cbn. apply orb_false_r.
  - cbn [andb orb]. destruct (decide (p < j)%nat).
    + rewrite !bool_decide_true by lia. replace (j - p)%nat with (S (j - S p)) by lia. done.
    + by rewrite !bool_decide_false by lia.
Qed.

Lemma bytes_for k : (k <= 8 * ((k + 7) / 8) < k + 8)%nat.
Proof. pose proof (Nat.div_mod_eq (k + 7) 8). pose proof (Nat.mod_upper_bound (k + 7) 8). lia. Qed.

Lemma BitsToBytes_length bits : length (BitsToBytes bits) = ((length bits + 7) / 8)%nat.
Proof. unfold BitsToBytes. pose proof (bytes_for (length bits)). destruct (BitsToBytes_loop_spec bits 0 (replicate ((length bits + 7) / 8) 0)) as [-> _]; rewrite length_replicate; lia. Qed.

(** The bits come back, padded to whole bytes. *)
Lemma bits_roundtrip bits : BytesToBits (BitsToBytes bits) = bits ++ replicate (8 * ((length bits + 7) / 8) - length bits) false.
Proof.
  pose proof (bytes_for (length bits)) as K. apply list_eq. intros j. unfold BytesToBits. rewrite list_lookup_fmap, BitsToBytes_length.
  destruct (decide (j < 8 * ((length bits + 7) / 8))%nat) as [J|J].
  - rewrite lookup_seq_lt by lia. cbn [fmap option_fmap option_map]. rewrite land_bit by lia.
    change (Some (packed_bit (BitsToBytes bits) j) = (bits ++ replicate (8 * ((length bits + 7) / 8) - length bits) false) !! j).
    unfold BitsToBytes. destruct (BitsToBytes_loop_spec bits 0 (replicate ((length bits + 7) / 8) 0)) as [_ ->]; [rewrite length_replicate; lia|].
    assert (Z0 : packed_bit (replicate ((length bits + 7) / 8) 0) j = false).
    { unfold packed_bit. rewrite nth_lookup. rewrite lookup_replicate_2; [cbn; apply Z.bits_0|]. apply Nat.Div0.div_lt_upper_bound. lia. }
    rewrite Z0, bool_decide_true, Nat.sub_0_r by lia. cbn [orb andb]. destruct (decide (j < length bits)%nat) as [I|I].
    + rewrite lookup_app_l by done. destruct (lookup_lt_is_Some_2 bits j I) as [b B]. by rewrite B, (nth_lookup_Some _ _ _ _ B).
    + rewrite lookup_app_r, lookup_replicate_2, nth_overflow by lia. done.
  - rewrite lookup_seq_ge by lia. symmetry. apply lookup_ge_None_2. rewrite length_app, length_replicate. lia.
Qed.

(** ** Extraction of what was built *)

Lemma PartialMerkleTree_spec `{HashFunctions} vTxid vMatch : 0 < size vTxid <= 2 ^ 30 -> length vMatch = length vTxid ->
  exists t, PartialMerkleTree vTxid vMatch = Some t /\ nTransactions t = size vTxid /\ fBad t = false /\
    ptree (size vTxid) (tree_height vTxid) 0 (vBits t) (vHash t) (merkle_root vTxid) (marked vTxid vMatch) /\
    (length (vHash t) <= length vTxid)%nat /\ (length (vHash t) <= 1 + length (marked vTxid vMatch) * tree_height vTxid)%nat /\
    (length (vBits t) + 1 <= 2 * length (vHash t) + tree_height vTxid)%nat /\
    Forall (fun x => exists k i, 0 <= i /\ i * pow k < size vTxid /\ x = tnode vTxid k i) (vHash t).
Proof.
  intros N L. unfold PartialMerkleTree. rewrite (uint_id 32) by lia. destruct (CalcHeight_spec (size vTxid) N) as (-> & Hh & Pw). cbn [mbind option_bind].
  fold (tree_height vTxid) in *. change (Z.to_nat (Z.log2_up (size vTxid))) with (tree_height vTxid) in *.
  destruct (TraverseAndBuild_spec vTxid vMatch N L (tree_height vTxid) 0 Hh) as (bs & hs & -> & T & S & F); [lia|lia|]. cbn [mbind option_bind].
  eexists. split; [done|]. cbn [nTransactions fBad vBits vHash]. split; [done|]. split; [done|].
  assert (Sg : forall A (l : list A), length l = length vTxid -> segment l (tree_height vTxid) 0 = l).
  { intros A l Ll. unfold segment. cbn. apply take_ge. unfold size in Pw. rewrite <- pow_nat in Pw. lia. }
  rewrite (Sg _ vTxid eq_refl), (Sg _ vMatch L) in T. split; [exact T|]. destruct S as [S1 S2 S3 _].
  rewrite (Sg _ vTxid eq_refl) in S1. rewrite (Sg _ vTxid eq_refl), (Sg _ vMatch L) in S2. split; [done|]. split; [done|]. split; [done|].
  apply (Forall_impl _ _ _ F). intros x (k & i & _ & X). by exists k, i.
Qed.

Lemma ExtractMatches_built `{HashFunctions} vTxid bs hs ms k : 0 < size vTxid <= MAX_BLOCK_SIZE_CURRENT / 60 ->
  ptree (size vTxid) (tree_height vTxid) 0 bs hs (merkle_root vTxid) ms -> (length hs <= length vTxid)%nat ->
  ((length bs + k + 7) / 8 = (length bs + 7) / 8)%nat ->
  let t := {| nTransactions := size vTxid; vBits := bs ++ replicate k false; vHash := hs; fBad := false |} in
  ExtractMatches t = Some (merkle_root vTxid, ms, t).
Proof.
  intros N T L K t. assert (Mx : MAX_BLOCK_SIZE_CURRENT / 60 <= 2 ^ 30) by (vm_compute; congruence). destruct (ptree_sizes _ _ _ _ _ _ _ T) as [P1 P2].
  unfold ExtractMatches. cbn [t nTransactions vBits vHash fBad]. destruct (Z.eqb_spec (size vTxid) 0); [lia|].
  destruct (Z.ltb_spec (MAX_BLOCK_SIZE_CURRENT / 60) (size vTxid)); [lia|]. destruct (Z.ltb_spec (size vTxid) (size hs)); [unfold size in *; lia|].
  destruct (Z.ltb_spec (size (bs ++ replicate k false)) (size hs)) as [X|_]; [unfold size in X; rewrite length_app in X; lia|].
  destruct (CalcHeight_spec (size vTxid) ltac:(lia)) as (-> & Hh & Pw). cbn [mbind option_bind].
  change (Z.to_nat (Z.log2_up (size vTxid))) with (tree_height vTxid) in *.
  rewrite (extract_complete (size vTxid) t eq_refl ltac:(lia) _ _ _ _ _ _ T); [|lia|lia|lia|].
  - cbn [advance tr_bad nBitsUsed nHashUsed tr_match app t vBits vHash]. rewrite !Z.add_0_l, Z.eqb_refl. cbn [negb].
    replace ((size bs + 7) / 8 =? (size (bs ++ replicate k false) + 7) / 8) with true; [done|]. symmetry. apply Z.eqb_eq. unfold size.
    rewrite length_app, length_replicate. rewrite Nat2Z.inj_add. apply (f_equal Z.of_nat) in K. rewrite !Nat2Z.inj_div, !Nat2Z.inj_add in K. done.
  - split; [done|]. split; [done|]. cbn. rewrite !drop_0. split; [by eexists|done].
Qed.

(** A tree that is built is extracted, directly and from its bytes. *)
Lemma tree_sent `{HashSizes} ids vMatch rest : 0 < size ids <= MAX_BLOCK_SIZE_CURRENT / 60 -> length vMatch = length ids ->
  Forall (fun x => 0 <= x < 2 ^ 256) ids -> exists t t', PartialMerkleTree ids vMatch = Some t /\
  ExtractMatches t = Some (merkle_root ids, marked ids vMatch, t) /\
  PartialMerkleTree_unser (PartialMerkleTree_ser t ++ rest) = Some (t', rest) /\
  ExtractMatches t' = Some (merkle_root ids, marked ids vMatch, t').
Proof.
  intros N L Fi. assert (Mx : MAX_BLOCK_SIZE_CURRENT / 60 <= 2 ^ 15 + 2 ^ 10) by (vm_compute; congruence).
  destruct (PartialMerkleTree_spec ids vMatch) as (t & E & Tn & Tb & T & L1 & _ & L3 & F); [lia|done|].
  destruct t as [n bs hs bad]. cbn [nTransactions vBits vHash fBad] in *. subst n bad.
  eexists _, {| nTransactions := size ids; vBits := BytesToBits (BitsToBytes bs); vHash := hs; fBad := false |}. split; [exact E|]. split; [|split].
  - pose proof (ExtractMatches_built ids bs hs (marked ids vMatch) 0) as X. cbv zeta in X. rewrite app_nil_r in X. apply X; [lia|done|done|]. by rewrite Nat.add_0_r.
  - unfold PartialMerkleTree_ser, PartialMerkleTree_unser. rewrite unser_ser; [done|]. cbn [ok tree_fields uint32_fmt uint_fmt pair_fmt VectorFormatter uint256_fmt blob_fmt nTransactions vHash vBits].
    split; [by enough (0 <= size ids < 2 ^ 32) by done; lia|]. assert (M : MAX_SIZE = 2 ^ 25) by done. split; [split|].
    + unfold size in *. lia.
    + apply (Forall_impl _ _ _ F). intros x (k & i & I0 & I1 & ->). enough (0 <= tnode ids k i < 2 ^ 256) by done. by apply tnode_range.
    + unfold size. rewrite BitsToBytes_length. pose proof (bytes_for (length bs)). destruct (CalcHeight_spec (size ids) ltac:(lia)) as (_ & Hh & _).
      change (Z.to_nat (Z.log2_up (size ids))) with (tree_height ids) in Hh. unfold size in *. lia.
  - rewrite bits_roundtrip. apply ExtractMatches_built; [lia|done|done|]. pose proof (bytes_for (length bs)).
    replace (length bs + (8 * ((length bs + 7) / 8) - length bs) + 7)%nat with (7 + ((length bs + 7) / 8) * 8)%nat by lia. by rewrite Nat.div_add by lia.
Qed.

(** What a caller asks for: the identifiers, or the filter. *)
Definition wanted `{HashFunctions} (filter : option CBloomFilter) (txids : option (list Z)) (tx : CTransaction) : Prop :=
  (exists l, txids = Some l /\ GetHash tx ∈ l) \/ (exists f, filter = Some f /\ relevant f tx = true).

(** Asked for by identifier. *)
Definition listed `{HashFunctions} (txids : option (list Z)) (tx : CTransaction) : bool :=
  match txids with Some l => bool_decide (GetHash tx ∈ l) | None => false end.

(** The answer of a filter, and the filter with the outpoints it has added. *)
Definition answer `{HashFunctions} (filter : option CBloomFilter) (tx : CTransaction) : bool :=
  match filter with Some f => match IsRelevantAndUpdate f tx with Some (b, _) => b | None => false end | None => false end.

Definition updated `{HashFunctions} (filter : option CBloomFilter) (tx : CTransaction) : option CBloomFilter :=
  f ← filter; '(_, f) ← IsRelevantAndUpdate f tx; Some f.

(** The filter after some transactions; it is not shown the listed ones. *)
Definition filter_after `{HashFunctions} (txids : option (list Z)) (filter : option CBloomFilter) (txs : list CTransaction) : option CBloomFilter :=
  foldl (fun filter tx => if listed txids tx then filter else updated filter tx) filter txs.

Definition filters_ok (filter : option CBloomFilter) : Prop := forall f, filter = Some f -> filter_ok f.

(** A filter answers and is updated; what it finds relevant stays relevant. *)
Lemma answer_spec `{HashFunctions} filter tx : filters_ok filter ->
  (match filter with Some f => '(b, f) ← IsRelevantAndUpdate f tx; Some (b, Some f) | None => Some (false, None) end) = Some (answer filter tx, updated filter tx) /\
  filters_ok (updated filter tx) /\ (forall txids tx', wanted filter txids tx' -> wanted (updated filter tx) txids tx') /\
  (wanted filter None tx -> answer filter tx = true).
Proof.
  intros O. unfold answer, updated. destruct filter as [f|]; cbn [mbind option_bind].
  - destruct (IsRelevantAndUpdate_spec f tx (O f eq_refl)) as (b & f1 & E & G & _ & R & _). rewrite E. cbn [mbind option_bind]. split; [done|].
    split; [intros g [= <-]; by apply G, O|]. split.
    + intros txids tx' [?|(g & [= <-] & Rl)]; [by left|]. right. exists f1. split; [done|]. by apply (relevant_kept f tx b f1 tx' (O f eq_refl) E).
    + intros [(l & [=] & I)|(g & [= <-] & Rl)]. by apply R.
  - split; [done|]. split; [done|]. split; [done|]. by intros [(l & [=] & I)|(g & [=] & Rl)].
Qed.

Lemma wanted_listed `{HashFunctions} filter txids tx : wanted filter txids tx -> listed txids tx = false -> wanted filter None tx.
Proof. intros [(l & -> & I)|R] L; [by apply bool_decide_eq_false in L|by right]. Qed.

(** Each mark is the answer of the list or of the filter as it stands, and the
    pairs are those of the marks of the filter. *)
Lemma match_txs_spec `{HashFunctions} txids txs : forall i filter, filters_ok filter -> exists ms pairs,
  match_txs i txs filter txids = Some (ms, pairs, filter_after txids filter txs) /\ length ms = length txs /\
  (forall k tx, txs !! k = Some tx -> ms !! k = Some (listed txids tx || answer (filter_after txids filter (take k txs)) tx)) /\
  (forall j h, (j, h) ∈ pairs <-> exists k tx, txs !! k = Some tx /\ j = i + Z.of_nat k /\ h = GetHash tx /\ listed txids tx = false /\ ms !! k = Some true) /\
  (forall k tx, txs !! k = Some tx -> wanted filter txids tx -> ms !! k = Some true).
Proof.
  induction txs as [|tx txs IH]; intros i filter O; cbn [match_txs].
  { eexists _, _. split; [done|]. split; [done|]. split; [by intros k tx X; rewrite lookup_nil in X|].
    split; [|by intros k tx X; rewrite lookup_nil in X]. intros j h. split; [by intros ?%elem_of_nil|]. intros (k & tx & X & _). by rewrite lookup_nil in X. }
  change (match txids with Some l => bool_decide (GetHash tx ∈ l) | None => false end) with (listed txids tx).
  cbn [filter_after foldl]. destruct (listed txids tx) eqn:T.
  - destruct (IH (i + 1) filter O) as (ms & pairs & -> & L & X & Pr & W). cbn [mbind option_bind]. eexists _, _. split; [done|]. split; [cbn; lia|]. split; [|split].
    + intros [|k] tx' E; cbn in E |- *; [injection E as <-; by rewrite T|]. rewrite T. by apply X.
    + intros j h. rewrite Pr. split; [intros (k & tx' & E & -> & V); exists (S k), tx'; split; [done|split; [lia|done]]|].
      intros ([|k] & tx' & E & -> & V & F & M); cbn in E, M; [by injection E as <-; rewrite T in F|]. exists k, tx'. split; [done|split; [lia|done]].
    + intros [|k] tx' E; cbn in E |- *; [done|]. by apply W.
  - destruct (answer_spec filter tx O) as (-> & O1 & K & B). cbn [mbind option_bind].
    destruct (IH (i + 1) (updated filter tx) O1) as (ms & pairs & -> & L & X & Pr & W). cbn [mbind option_bind]. eexists _, _. split; [done|]. split; [cbn; lia|]. split; [|split].
    + intros [|k] tx' E; cbn in E |- *; [injection E as <-; by rewrite T|]. rewrite T. by apply X.
    + intros j h. rewrite elem_of_app, Pr. split.
      * intros [Hd|(k & tx' & E & -> & V)]; [|exists (S k), tx'; split; [done|split; [lia|done]]].
        destruct (answer filter tx) eqn:An; [|by apply elem_of_nil in Hd]. apply list_elem_of_singleton in Hd as [= -> ->].
        exists 0%nat, tx. split; [done|]. split; [lia|]. done.
      * intros ([|k] & tx' & E & -> & V & F & M); cbn in E, M.
        -- left. injection E as <-. injection M as ->. subst h. rewrite Z.add_0_r. by apply list_elem_of_singleton.
        -- right. exists k, tx'. split; [done|split; [lia|done]].
    + intros [|k] tx' E Wt; cbn in E |- *; [injection E as <-; f_equal; by apply B, (wanted_listed _ txids)|]. by apply (W k tx' E), K.
Qed.

(** ** Properties *)

(** C36. A proof that is sent proves.  From a block of any size that the protocol
    allows, [CMerkleBlock] is built without an access out of range, with the
    header of the block; what the receiver extracts from it, directly or from
    the bytes on the wire, is the Merkle root of the block (which [CheckBlock]
    compares with the header's) and, in their order, the identifiers of the
    marked transactions.  A transaction is marked exactly if it is listed by
    its identifier or the filter, with what the earlier transactions have added
    to it, answers that it is relevant; so none that is relevant to the filter
    as given is missed.  [vMatchedTxn] has the positions and identifiers of
    those that the filter has marked. *)
Theorem merkle_block_proves `{HashSizes} (block : CBlock) filter txids rest :
  0 < size (vtx block) <= MAX_BLOCK_SIZE_CURRENT / 60 -> filters_ok filter -> exists mb root mutated vMatch t,
  MerkleBlock block filter txids = Some (mb, filter_after txids filter (vtx block)) /\ mb_header mb = header block /\
  BlockMerkleRoot block = Some (root, mutated) /\
  ExtractMatches (mb_txn mb) = Some (root, marked (GetHash <$> vtx block) vMatch, mb_txn mb) /\
  PartialMerkleTree_unser (PartialMerkleTree_ser (mb_txn mb) ++ rest) = Some (t, rest) /\
  ExtractMatches t = Some (root, marked (GetHash <$> vtx block) vMatch, t) /\ length vMatch = length (vtx block) /\
  (forall k tx, vtx block !! k = Some tx -> vMatch !! k = Some (listed txids tx || answer (filter_after txids filter (take k (vtx block))) tx)) /\
  (forall k tx, vtx block !! k = Some tx -> wanted filter txids tx -> vMatch !! k = Some true) /\
  (forall j h, (j, h) ∈ vMatchedTxn mb <->
     exists k tx, vtx block !! k = Some tx /\ j = Z.of_nat k /\ h = GetHash tx /\ listed txids tx = false /\ vMatch !! k = Some true).
Proof.
  intros N O. destruct (match_txs_spec txids (vtx block) 0 filter O) as (vMatch & pairs & E & L & X & Pr & W).
  unfold MerkleBlock. rewrite E. cbn [mbind option_bind].
  set (ids := GetHash <$> vtx block). assert (Si : size ids = size (vtx block)) by (unfold size, ids; by rewrite length_fmap).
  assert (Fi : Forall (fun x => 0 <= x < 2 ^ 256) ids) by (unfold ids; apply Forall_fmap, Forall_true; intros tx; apply Hash_bound).
  destruct (tree_sent ids vMatch rest) as (t & t' & -> & R1 & R2 & R3); [lia|unfold ids; rewrite length_fmap; lia|done|]. cbn [mbind option_bind].
  destruct (MerkleComputation_ok ids (u32 (-1)) false) as (mu & br & R & _);
    [assert (MAX_BLOCK_SIZE_CURRENT / 60 <= 2 ^ 31) by (vm_compute; congruence); unfold leaf_count; lia|done|done|].
  eexists _, (merkle_root ids), mu, vMatch, t'. split; [done|]. split; [done|].
  split; [unfold BlockMerkleRoot, ComputeMerkleRoot; fold ids; by rewrite R|]. cbn [mb_txn vMatchedTxn]. by split_and!.
Qed.

(** ** Extraction of what anyone has made *)

Section Receiver.
Context `{HashSizes}.

Definition extract_start (t : CPartialMerkleTree) : Traversal := {| nBitsUsed := 0; nHashUsed := 0; tr_match := []; tr_bad := fBad t |}.

(** The strings that [TraverseAndExtract] hashes. *)
Fixpoint extract_inputs (t : CPartialMerkleTree) (height : nat) (pos : Z) (s : Traversal) : list bytes :=
  match vBits t !! Z.to_nat (nBitsUsed s), height with
  | Some true, S height =>
      let '(lhash, s1) := TraverseAndExtract t height (u32 (pos * 2)) (use_bit s) in
      if u32 (u32 (pos * 2) + 1) <? CalcTreeWidth (nTransactions t) height then
        let '(rhash, _) := TraverseAndExtract t height (u32 (u32 (pos * 2) + 1)) s1 in
        node_input lhash rhash :: extract_inputs t height (u32 (pos * 2)) (use_bit s) ++ extract_inputs t height (u32 (u32 (pos * 2) + 1)) s1
      else node_input lhash lhash :: extract_inputs t height (u32 (pos * 2)) (use_bit s)
  | _, _ => []
  end.

(** The strings that [ExtractMatches] hashes. *)
Definition extracted_inputs (t : CPartialMerkleTree) : list bytes :=
  match CalcHeight (nTransactions t) with Some h => extract_inputs t h 0 (extract_start t) | None => [] end.

Abbreviation u256 x := (0 <= x < 2 ^ 256).

Context (t : CPartialMerkleTree) (l : list Z) (Q : list bytes) (N : 0 < nTransactions t <= 2 ^ 30)
  (Ft : Forall (fun x => u256 x) (vHash t)) (Fl : Forall (fun x => u256 x) l) (Inj : injective_on Hash Q).

(** The marks of a subtree are leaves under every node with its hash. *)
Definition marks_under (h : nat) (r : Z) (ms : list Z) : Prop := forall i, 0 <= i -> i * pow h < leaf_count l ->
  hashed_under l h i ⊆ Q -> r = tnode l h i -> forall x, x ∈ ms -> x ∈ segment l h i.

Lemma marks_leaf r (b : bool) : marks_under 0 r (if b then [r] else []).
Proof.
  intros i I0 I1 _ -> x X. rewrite Z.mul_1_r in I1. rewrite segment_leaf by done. destruct b; [done|by apply elem_of_nil in X].
Qed.

Lemma marks_pair h a b ms ms' : u256 a -> u256 b -> node_input a b ∈ Q -> marks_under h a ms -> marks_under h b ms' -> marks_under (S h) (Hash2 a b) (ms ++ ms').
Proof.
  intros A B Qa M M' i I0 I1 Qi E x X. rewrite pow_S in I1. cbn [hashed_under tnode] in Qi, E. rewrite segment_S by done. apply elem_of_app.
  assert (T : u256 (tnode l h (2 * i))) by (apply tnode_range; [done|lia|lia]).
  destruct (Z.ltb_spec ((2 * i + 1) * pow h) (leaf_count l)) as [R|R]; apply cons_subseteq in Qi as [Qi Qc].
  - apply app_subseteq in Qc as [Q1 Q2]. assert (T' : u256 (tnode l h (2 * i + 1))) by (apply tnode_range; [done|lia|lia]).
    apply (Hash2_inj Q) in E as [E1 E2]; [|done..].
    apply elem_of_app in X as [X|X]; [left; apply M; (done || lia)|right; apply M'; (done || lia)].
  - apply (Hash2_inj Q) in E as [E1 E2]; [|done..]. left.
    apply elem_of_app in X as [X|X]; [apply M; (done || lia)|apply M'; (done || lia)].
Qed.

Lemma extract_marks h : forall pos s r s', (h <= 30)%nat -> 0 <= pos -> pos * pow h < nTransactions t -> extract_inputs t h pos s ⊆ Q ->
  TraverseAndExtract t h pos s = (r, s') -> tr_bad s' = false -> tr_bad s = false /\ u256 r /\ exists ms, tr_match s' = tr_match s ++ ms /\ marks_under h r ms.
Proof.
  assert (St : forall s (m : bool) r s', tr_bad s' = false ->
    match vHash t !! Z.to_nat (nHashUsed (use_bit s)) with
    | None => traverse_bad (use_bit s)
    | Some hash => (hash, use_hash (use_bit s) (if m then [hash] else []))
    end = (r, s') -> tr_bad s = false /\ u256 r /\ tr_match s' = tr_match s ++ (if m then [r] else [])).
  { intros s m r s' Bd. destruct (vHash t !! _) as [x|] eqn:Hx; intros [= <- <-]; [|done]. split; [done|]. split; [|done].
    by apply (Forall_lookup_1 _ _ _ _ Ft Hx). }
  induction h as [|h IH]; intros pos s r s' L Ps B Qs; cbn [TraverseAndExtract extract_inputs] in *;
    (destruct (vBits t !! _) as [b|]; [|by intros [= <- <-]]).
  - intros E Bd. destruct (St _ _ _ _ Bd E) as (Bs & Pr & M). split; [done|]. split; [done|]. eexists. split; [exact M|]. apply marks_leaf.
  - destruct b; cbn [negb].
    2: { intros E Bd. destruct (St s false _ _ Bd E) as (Bs & Pr & M). split; [done|]. split; [done|]. exists []. split; [exact M|]. by intros i _ _ _ _ x X%elem_of_nil. }
    destruct (children (nTransactions t) h pos N ltac:(lia) Ps B) as (E1 & E2 & B1 & E3). rewrite E3, E1 in *. rewrite E2 in *.
    destruct (TraverseAndExtract t h (2 * pos) (use_bit s)) as [lh s1] eqn:X1.
    destruct (Z.ltb_spec ((2 * pos + 1) * pow h) (nTransactions t)) as [R|R].
    + destruct (TraverseAndExtract t h (2 * pos + 1) s1) as [r2 s2] eqn:X2. intros [= <- <-] Bd.
      apply cons_subseteq in Qs as [Qn Qs]. apply app_subseteq in Qs as [Q1 Q2].
      destruct (IH (2 * pos + 1) _ _ _ ltac:(lia) ltac:(lia) R Q2 X2 Bd) as (Bd1 & U2 & ms2 & M2 & K2).
      destruct (IH (2 * pos) _ _ _ ltac:(lia) ltac:(lia) B1 Q1 X1 Bd1) as (Bd0 & U1 & ms1 & M1 & K1). split; [done|]. split; [apply Hash_bound|].
      exists (ms1 ++ ms2). split; [by rewrite M2, M1, app_assoc|]. by apply marks_pair.
    + intros [= <- <-] Bd. apply cons_subseteq in Qs as [Qn Q1].
      destruct (IH (2 * pos) _ _ _ ltac:(lia) ltac:(lia) B1 Q1 X1 Bd) as (Bd0 & U1 & ms1 & M1 & K1). split; [done|]. split; [apply Hash_bound|].
      exists ms1. split; [done|]. rewrite <- (app_nil_r ms1). apply marks_pair; try done. by intros i _ _ _ _ x X%elem_of_nil.
Qed.

End Receiver.

(** C37. A proof that is accepted cannot lie.  If a tree from anywhere yields the
    Merkle root of a list of transactions whose tree has the same height, each
    hash that it reports as matched is one of the list, where the double
    SHA-256 does not collide on the strings that the receiver hashes and those
    hashed for the tree of the list. *)
Theorem partial_tree_sound `{HashSizes} t root ms t' l : ExtractMatches t = Some (root, ms, t') -> root <> 0 ->
  0 <= nTransactions t -> Forall (fun x => 0 <= x < 2 ^ 256) (vHash t) -> Forall (fun x => 0 <= x < 2 ^ 256) l -> 0 < size l ->
  Z.log2_up (nTransactions t) = Z.log2_up (size l) -> root = merkle_root l -> injective_on Hash (extracted_inputs t ++ hashed l) ->
  forall x, x ∈ ms -> x ∈ l.
Proof.
  intros E NZ N0 Fh Fl Sl Hh R Inj x Xm. unfold ExtractMatches in E. destruct (Z.eqb_spec (nTransactions t) 0); [congruence|].
  destruct (Z.ltb_spec (MAX_BLOCK_SIZE_CURRENT / 60) (nTransactions t)) as [|Mx]; [congruence|]. destruct (nTransactions t <? size (vHash t)); [congruence|].
  destruct (size (vBits t) <? size (vHash t)); [congruence|]. assert (C : MAX_BLOCK_SIZE_CURRENT / 60 <= 2 ^ 30) by (vm_compute; congruence).
  destruct (CalcHeight_spec (nTransactions t) ltac:(lia)) as (Ch & Hl & Pw). rewrite Ch in E. cbn [mbind option_bind] in E.
  destruct (TraverseAndExtract t _ 0 _) as [r s] eqn:X. destruct (tr_bad s) eqn:Bd; [congruence|].
  destruct (negb _); [congruence|]. destruct (negb _); [congruence|]. injection E as -> <- _.
  unfold extracted_inputs in Inj. rewrite Ch in Inj. unfold hashed, tree_height, leaf_count in Inj. rewrite <- Hh in Inj.
  destruct (app_subseteq _ _ _ (reflexivity (extract_inputs t (Z.to_nat (Z.log2_up (nTransactions t))) 0 (extract_start t) ++
    hashed_under l (Z.to_nat (Z.log2_up (nTransactions t))) 0))) as [Q1 Q2].
  destruct (extract_marks t l _ ltac:(lia) Fh Fl Inj _ 0 _ _ _ Hl ltac:(lia) ltac:(lia) Q1 X Bd) as (_ & _ & ms' & M & K).
  rewrite M in Xm. assert (Sg : x ∈ segment l (Z.to_nat (Z.log2_up (nTransactions t))) 0).
  { apply K; [lia|unfold leaf_count; lia|done| |done]. rewrite R. unfold merkle_root, tree_height, leaf_count. by rewrite Hh. }
  unfold segment in Sg. apply elem_of_take in Sg as (k & Sg & _). rewrite lookup_drop in Sg. by apply list_elem_of_lookup_2 in Sg.
Qed.

Definition proof_tx (n : Z) : CTransaction := {|
  tx_nVersion := 1; nType := 0; vin := []; vout := [{| nValue := n; scriptPubKey := [] |}]; nLockTime := n; sapData := None; extraPayload := None
|}.

Definition proof_block : CBlock := {|
  header := {| nVersion := 8; hashPrevBlock := 0;
    hashMerkleRoot := match ComputeMerkleRoot (H := checksum_hashes) (GetHash (H := checksum_hashes) <$> (proof_tx <$> [1; 2; 3; 4; 5])) with Some (r, _) => r | None => 0 end;
    nTime := 0; nBits := 0; nNonce := 0; nAccumulatorCheckpoint := 0; hashFinalSaplingRoot := 0 |};
  vtx := proof_tx <$> [1; 2; 3; 4; 5]; vchBlockSig := []
|}.

Lemma merkle_block_proves_witness : let ids := (fun n => GetHash (H := checksum_hashes) (proof_tx n)) <$> [2; 5] in
  exists mb, MerkleBlock (H := checksum_hashes) proof_block None (Some ids) = Some (mb, None) /\
    ExtractMatches (H := checksum_hashes) (mb_txn mb) = Some (hashMerkleRoot (mb_header mb), ids, mb_txn mb) /\ hashMerkleRoot (mb_header mb) <> 0.
Proof.
  intros ids. destruct (merkle_block_proves (H := checksum_hashes) (H0 := checksum_sizes) proof_block None (Some ids) [])
    as (mb & root & mu & vMatch & t & B & Hd & Rt & X & _); [vm_compute; split; congruence|done|].
  assert (F : filter_after (H := checksum_hashes) (Some ids) None (vtx proof_block) = None) by (vm_compute; reflexivity). rewrite F in B.
  assert (V : match MerkleBlock (H := checksum_hashes) proof_block None (Some ids) with
              | Some (mb, None) => match ExtractMatches (H := checksum_hashes) (mb_txn mb) with
                                   | Some (root, ms, _) => ms = ids /\ root = hashMerkleRoot (header proof_block) /\ root <> 0 | None => False end
              | _ => False end) by (vm_compute; split; [reflexivity|split; [reflexivity|discriminate]]).
  rewrite B in V. rewrite X in V. destruct V as (M & ER & NZ). exists mb. split; [exact B|]. rewrite X, M, Hd, <- ER. split; [reflexivity|exact NZ].
Defined.

(** merkleblock.h promises at most [2 * N - 1] bits for [N] hashes; nodes with a
    single child take more. *)
Example flag_bits_exceed : exists t, PartialMerkleTree (H := checksum_hashes) [7; 8; 9] [false; false; true] = Some t /\ 2 * size (vHash t) - 1 < size (vBits t).
Proof. eexists. split; [vm_compute; reflexivity|done]. Qed.

Lemma partial_tree_sound_witness : exists t root, PartialMerkleTree (H := checksum_hashes) [7; 8; 19] [false; true; false] = Some t /\
  ExtractMatches (H := checksum_hashes) t = Some (root, [8], t) /\ forall x, x ∈ [8] -> x ∈ [7; 8; 19].
Proof.
  assert (V : match PartialMerkleTree (H := checksum_hashes) [7; 8; 19] [false; true; false] with
              | Some t => ExtractMatches (H := checksum_hashes) t = Some (merkle_root (H := checksum_hashes) [7; 8; 19], [8], t) /\
                  nTransactions t = 3 /\ forallb (fun x => (0 <=? x) && (x <? 2 ^ 256)) (vHash t) = true /\
                  bool_decide (injective_on (@Hash checksum_hashes) (extracted_inputs (H := checksum_hashes) t ++ hashed (H := checksum_hashes) [7; 8; 19])) = true
              | None => False end) by (vm_compute; repeat split).
  destruct (PartialMerkleTree _ _) as [t|] eqn:E; [|destruct V]. destruct V as (X & N & F & I). exists t. eexists. split; [reflexivity|]. split; [exact X|].
  apply (partial_tree_sound (H := checksum_hashes) (H0 := checksum_sizes) t _ [8] t [7; 8; 19] X).
  - vm_compute. discriminate.
  - rewrite N. lia.
  - apply Forall_forall. intros x Ix. apply list_elem_of_In in Ix. pose proof (proj1 (forallb_forall _ _) F x Ix) as B. apply andb_prop in B as [B1 B2].
    apply Z.leb_le in B1. apply Z.ltb_lt in B2. done.
  - repeat constructor; lia.
  - reflexivity.
  - rewrite N. reflexivity.
  - reflexivity.
  - by apply bool_decide_eq_true in I.
Defined.

(** The heights must agree: a tree with one transaction passes the root itself
    off as a transaction. *)
Lemma root_as_transaction `{HashFunctions} root :
  let t := {| nTransactions := 1; vBits := [true]; vHash := [root]; fBad := false |} in ExtractMatches t = Some (root, [root], t).
Proof. reflexivity. Qed.
