(* ===== verification/Spending.v ===== *)
(** * What it takes to spend an output

    The scripts the program builds (script/standard.cpp, consensus/vesting.cpp)
    run by the interpreter of script/interpreter.cpp, for any input script a
    spender may supply. *)

From S2P Require Import Prelude Params Crypto Script Standard Serialize Transaction Vesting TxVerify Interpreter.

Local Open Scope krova_scope.

(** ** Inversion of an evaluation that succeeds *)

Section Inversion.
Context `{HashFunctions, Ecdsa}.
Context (script : CScript) (flags : Z) (checker : BaseSignatureChecker) (sigversion : SigVersion).

Abbreviation loop := (EvalScript_loop script flags checker sigversion).
Abbreviation op_exec := (exec_op script flags checker sigversion).

Lemma bind_Ok_inv {A B} (f : A -> Eval B) m b : m ≫= f = EvalOk b -> exists a, m = EvalOk a /\ f a = EvalOk b.
Proof. destruct m; simpl; [eauto | done | done | done]. Qed.

Lemma error_if_Ok_inv {A} c e (k : Eval A) a : error_if c e k = EvalOk a -> c = false /\ k = EvalOk a.
Proof. by destruct c. Qed.

Lemma within_limits_inv st st' : within_limits st = EvalOk st' -> st' = st.
Proof. intros [_ [= ->]]%error_if_Ok_inv. done. Qed.

Lemma loop_fuel fuel b pc st r : loop fuel (b :: pc) st = EvalOk r -> exists fuel', fuel = S fuel'.
Proof. destruct fuel; [done | eauto]. Qed.

Lemma loop_op_inv fuel (op : opcodetype) pc st r :
  OP_16 < op -> disabled_opcode op = false -> forallb id (vfExec st) = true -> nOpCount st <= 200 ->
  loop fuel (opcode_value op :: pc) st = EvalOk r ->
  exists fuel' st', op_exec op true pc (counted st) = EvalOk st' /\ loop fuel' pc st' = EvalOk r.
Proof.
  intros Hop Hd Hx Hn Hl. destruct (loop_fuel _ _ _ _ _ Hl) as [fuel' ->].
  rewrite loop_op in Hl by done. apply bind_Ok_inv in Hl as (st' & He & Hl).
  apply bind_Ok_inv in Hl as (st2 & ->%within_limits_inv & Hl). eauto.
Qed.

Lemma loop_control_inv fuel (op : opcodetype) pc st r :
  OP_IF <= op <= OP_ENDIF -> nOpCount st <= 200 ->
  loop fuel (opcode_value op :: pc) st = EvalOk r ->
  exists fuel' st', op_exec op (forallb id (vfExec st)) pc (counted st) = EvalOk st' /\ loop fuel' pc st' = EvalOk r.
Proof.
  intros Hop Hn Hl. destruct (loop_fuel _ _ _ _ _ Hl) as [fuel' ->].
  rewrite loop_control in Hl by done. apply bind_Ok_inv in Hl as (st' & He & Hl).
  apply bind_Ok_inv in Hl as (st2 & ->%within_limits_inv & Hl). eauto.
Qed.

Lemma loop_skip_op_inv fuel (op : opcodetype) pc st r :
  OP_ENDIF < op -> disabled_opcode op = false -> forallb id (vfExec st) = false -> nOpCount st <= 200 ->
  loop fuel (opcode_value op :: pc) st = EvalOk r -> exists fuel', loop fuel' pc (counted st) = EvalOk r.
Proof.
  intros Hop Hd Hx Hn Hl. destruct (loop_fuel _ _ _ _ _ Hl) as [fuel' ->].
  rewrite loop_skip_op in Hl by done.
  apply bind_Ok_inv in Hl as (st2 & ->%within_limits_inv & Hl). eauto.
Qed.

Lemma push_data_cons d : exists b l, push_data [] d = b :: l.
Proof. unfold push_data. repeat case_match; simpl; eauto. Qed.

Lemma loop_push_inv fuel d pc st r :
  size d <= MAX_SCRIPT_ELEMENT_SIZE -> forallb id (vfExec st) = true ->
  loop fuel (push_data [] d ++ pc) st = EvalOk r ->
  exists fuel', loop fuel' pc (with_stack st (d :: stack st)) = EvalOk r.
Proof.
  intros Hd Hx Hl. assert (exists fuel', fuel = S fuel') as [fuel' ->].
  { destruct (push_data_cons d) as (b & l & E). rewrite E in Hl. by eapply loop_fuel. }
  destruct (loop_push script flags checker sigversion fuel' d pc st Hd Hx) as (op & _ & E).
  rewrite E in Hl. apply error_if_Ok_inv in Hl as [_ Hl].
  apply bind_Ok_inv in Hl as (st2 & ->%within_limits_inv & Hl). eauto.
Qed.

Lemma loop_skip_push_inv fuel d pc st r :
  size d <= MAX_SCRIPT_ELEMENT_SIZE -> forallb id (vfExec st) = false ->
  loop fuel (push_data [] d ++ pc) st = EvalOk r -> exists fuel', loop fuel' pc st = EvalOk r.
Proof.
  intros Hd Hx Hl. assert (exists fuel', fuel = S fuel') as [fuel' ->].
  { destruct (push_data_cons d) as (b & l & E). rewrite E in Hl. by eapply loop_fuel. }
  rewrite loop_skip_push in Hl by done.
  apply bind_Ok_inv in Hl as (st2 & ->%within_limits_inv & Hl). eauto.
Qed.

Lemma loop_end fuel st r : loop fuel [] st = EvalOk r -> r = st.
Proof. destruct fuel; by intros [= ->]. Qed.

(** A signature by the key [pubkey] over the code of the running script. *)
Definition signed (code sig pubkey : bytes) : Prop :=
  exists n scriptCode, FindAndDelete code (push_data [] sig) = Some (n, scriptCode) /\
    CheckSignatureEncoding sig flags = EvalOk tt /\ CheckPubKeyEncoding pubkey flags = EvalOk tt /\
    CheckSig checker sig pubkey scriptCode sigversion = EvalOk true.

Lemma exec_checksig_inv code s s' :
  exec_checksig flags checker sigversion false code s = EvalOk s' ->
  exists pubkey sig rest b, s = pubkey :: sig :: rest /\ s' = vchBool b :: rest /\ (b = true -> signed code sig pubkey).
Proof.
  unfold exec_checksig. destruct s as [|pubkey [|sig rest]]; [done|done|]. intros Hs.
  destruct (FindAndDelete code (push_data [] sig)) as [[n scriptCode]|] eqn:Ef; [|done].
  cbn [asserted] in Hs. apply bind_Ok_inv in Hs as ([n' c'] & [= <- <-] & Hs).
  apply bind_Ok_inv in Hs as ([] & He & Hs). apply bind_Ok_inv in Hs as ([] & Hk & Hs).
  apply bind_Ok_inv in Hs as (b & Hb & Hs). injection Hs as <-.
  exists pubkey, sig, rest, b. split_and!; try done. intros ->. by exists n, scriptCode.
Qed.

(** The tail [<hash> OP_EQUALVERIFY OP_CHECKSIG] once the hash is pushed. *)
Lemma equalverify_checksig_inv fuel st r hash h pubkey rest :
  stack st = hash :: h :: pubkey :: rest -> vfExec st = [] -> nOpCount st <= 190 ->
  loop fuel [OP_EQUALVERIFY : Z; OP_CHECKSIG : Z] st = EvalOk r ->
  h = hash /\ vfExec r = [] /\
  exists sig rest' b, rest = sig :: rest' /\ stack r = vchBool b :: rest' /\
    (b = true -> signed (pbegincodehash st) sig pubkey).
Proof.
  intros Hst Hx Hn Hl. apply loop_op_inv in Hl as (f1 & st1 & E1 & Hl); try done; [|by rewrite Hx|lia].
  cbn [exec_op] in E1. apply bind_Ok_inv in E1 as (s1 & E1 & [= <-]). cbn [counted with_nOpCount stack] in E1.
  rewrite Hst in E1. unfold exec_equal in E1. apply error_if_Ok_inv in E1 as [Eq [= <-]].
  apply negb_false_iff, bool_decide_eq_true in Eq.
  apply loop_op_inv in Hl as (f2 & st2 & E2 & Hl); try done; [|by cbn; rewrite Hx|cbn; lia].
  cbn [exec_op] in E2. apply bind_Ok_inv in E2 as (s2 & E2 & [= <-]). cbn [counted with_nOpCount with_stack stack pbegincodehash] in E2.
  apply exec_checksig_inv in E2 as (pk & sig & rest' & b & [= <- ->] & -> & Hb).
  apply loop_end in Hl as ->. cbn. split_and!; try done. by exists sig, rest', b.
Qed.

End Inversion.

(** ** Templates *)

(** The templates as the opcodes and pushes they consist of. *)
Definition p2pkh_code (keyID : bytes) : CScript :=
  (OP_DUP : Z) :: (OP_HASH160 : Z) :: push_data [] keyID ++ [OP_EQUALVERIFY : Z; OP_CHECKSIG : Z].

Definition p2cs_code (ccsv : opcodetype) (staker owner : bytes) : CScript :=
  (OP_DUP : Z) :: (OP_HASH160 : Z) :: (OP_ROT : Z) :: (OP_IF : Z) :: (ccsv : Z) :: push_data [] staker ++
  (OP_ELSE : Z) :: push_data [] owner ++ [OP_ENDIF : Z; OP_EQUALVERIFY : Z; OP_CHECKSIG : Z].

Lemma p2pkh_template keyID : GetScriptForDestination (CKeyID keyID) = p2pkh_code keyID.
Proof. cbn [GetScriptForDestination]. rewrite push_data_app. unfold push_op. by rewrite <- !app_assoc. Qed.

Definition p2sh_code (scriptID : bytes) : CScript :=
  (OP_HASH160 : Z) :: push_data [] scriptID ++ [OP_EQUAL : Z].

Lemma p2sh_template scriptID : GetScriptForDestination (CScriptID scriptID) = p2sh_code scriptID.
Proof. cbn [GetScriptForDestination]. rewrite push_data_app. unfold push_op. by rewrite <- !app_assoc. Qed.

Lemma p2cs_template staker owner :
  GetScriptForStakeDelegation staker owner = p2cs_code OP_CHECKCOLDSTAKEVERIFY staker owner.
Proof.
  unfold GetScriptForStakeDelegation. rewrite push_data_app, (push_data_app _ staker).
  unfold push_op. by rewrite <- !app_assoc.
Qed.

Lemma p2cs_lof_template staker owner :
  GetScriptForStakeDelegationLOF staker owner = p2cs_code OP_CHECKCOLDSTAKEVERIFY_LOF staker owner.
Proof.
  unfold GetScriptForStakeDelegationLOF. rewrite push_data_app, (push_data_app _ staker).
  unfold push_op. by rewrite <- !app_assoc.
Qed.

Lemma cltv_template lockTime keyID :
  16 < lockTime ->
  GetCLTVPayToPubKeyHash lockTime keyID =
    push_data [] (CScriptNum_serialize lockTime) ++ (OP_CHECKLOCKTIMEVERIFY : Z) :: (OP_DROP : Z) :: p2pkh_code keyID.
Proof.
  intros Ht. unfold GetCLTVPayToPubKeyHash, push_int64.
  rewrite (proj2 (Z.eqb_neq lockTime (-1))), (proj2 (Z.leb_gt lockTime 16)), (proj2 (Z.eqb_neq lockTime 0)) by lia.
  rewrite andb_false_r. cbn [orb]. rewrite (push_data_app _ keyID).
  unfold push_op, p2pkh_code. by rewrite <- !app_assoc.
Qed.

Section Templates.
Context `{HashFunctions, Ecdsa}.
Context (script : CScript) (flags : Z) (checker : BaseSignatureChecker) (sigversion : SigVersion).

Abbreviation loop := (EvalScript_loop script flags checker sigversion).
Abbreviation signed := (signed flags checker sigversion).

Lemma dup_hash160_inv fuel pc st r :
  vfExec st = [] -> nOpCount st <= 190 ->
  loop fuel ((OP_DUP : Z) :: (OP_HASH160 : Z) :: pc) st = EvalOk r ->
  exists fuel' x s st', stack st = x :: s /\ stack st' = Hash160 x :: x :: s /\ vfExec st' = [] /\
    nOpCount st' = nOpCount st + 2 /\ pbegincodehash st' = pbegincodehash st /\ loop fuel' pc st' = EvalOk r.
Proof.
  intros Hx Hn Hl. apply loop_op_inv in Hl as (f1 & st1 & E1 & Hl); try done; [|by rewrite Hx|lia].
  cbn [exec_op] in E1. apply bind_Ok_inv in E1 as (s1 & E1 & [= <-]). cbn [counted with_nOpCount stack] in E1.
  destruct (stack st) as [|x s] eqn:Est; [done|]. injection E1 as <-.
  apply loop_op_inv in Hl as (f2 & st2 & E2 & Hl); try done; [|by cbn; rewrite Hx|cbn; lia].
  cbn [exec_op] in E2. apply bind_Ok_inv in E2 as (s2 & E2 & [= <-]). injection E2 as <-.
  exists f2, x, s. eexists. split_and!; [done | | | | | exact Hl]; cbn; (done || lia).
Qed.

Lemma p2pkh_inv fuel keyID st r :
  length keyID = 20%nat -> vfExec st = [] -> nOpCount st <= 180 ->
  loop fuel (p2pkh_code keyID) st = EvalOk r ->
  exists pubkey sig rest b, stack st = pubkey :: sig :: rest /\ Hash160 pubkey = keyID /\
    stack r = vchBool b :: rest /\ (b = true -> signed (pbegincodehash st) sig pubkey).
Proof.
  intros Hk Hx Hn Hl. apply dup_hash160_inv in Hl as (f1 & pubkey & s & st1 & Hst & Hst1 & Hx1 & Hn1 & Hc & Hl); [|done|lia].
  apply loop_push_inv in Hl as [f2 Hl]; [|unfold size, MAX_SCRIPT_ELEMENT_SIZE; lia | by rewrite Hx1].
  apply (equalverify_checksig_inv _ _ _ _ _ _ _ keyID (Hash160 pubkey) pubkey s) in Hl
    as (Heq & _ & sig & rest & b & -> & Hr & Hb); [| by cbn; rewrite Hst1 | done | cbn; lia].
  exists pubkey, sig, rest, b. rewrite Hst. split_and!; try done. intros Hb'. specialize (Hb Hb'). cbn in Hb. by rewrite Hc in Hb.
Qed.

Lemma p2sh_inv fuel scriptID st r :
  length scriptID = 20%nat -> vfExec st = [] -> nOpCount st <= 180 ->
  loop fuel (p2sh_code scriptID) st = EvalOk r ->
  exists x s, stack st = x :: s /\ stack r = vchBool (bool_decide (Hash160 x = scriptID)) :: s.
Proof.
  intros Hk Hx Hn Hl. apply loop_op_inv in Hl as (f1 & st1 & E1 & Hl); try done; [|by rewrite Hx|lia].
  cbn [exec_op] in E1. apply bind_Ok_inv in E1 as (s1 & E1 & [= <-]). cbn [counted with_nOpCount stack] in E1.
  destruct (stack st) as [|x s] eqn:Est; [done|]. injection E1 as <-.
  apply loop_push_inv in Hl as [f2 Hl]; [|unfold size, MAX_SCRIPT_ELEMENT_SIZE; lia | by cbn; rewrite Hx].
  apply loop_op_inv in Hl as (f3 & st3 & E3 & Hl); try done; [|by cbn; rewrite Hx|cbn; lia].
  cbn [exec_op] in E3. apply bind_Ok_inv in E3 as (s3 & E3 & [= <-]). injection E3 as <-.
  apply loop_end in Hl as ->. by exists x, s.
Qed.

(** The lock time of a CHECKLOCKTIMEVERIFY output is checked. *)
Lemma cltv_inv fuel lockTime keyID st r :
  has_flag flags SCRIPT_VERIFY_CHECKLOCKTIMEVERIFY = true ->
  16 < lockTime <= INT64_MAX -> size (CScriptNum_serialize lockTime) <= 5 ->
  length keyID = 20%nat -> vfExec st = [] -> nOpCount st <= 170 ->
  loop fuel (GetCLTVPayToPubKeyHash lockTime keyID) st = EvalOk r ->
  CheckLockTime checker lockTime = EvalOk true /\
  exists pubkey sig rest b, stack st = pubkey :: sig :: rest /\ Hash160 pubkey = keyID /\
    stack r = vchBool b :: rest /\ (b = true -> signed (pbegincodehash st) sig pubkey).
Proof.
  intros Hf Ht Hsz Hk Hx Hn Hl. rewrite cltv_template in Hl by lia.
  apply loop_push_inv in Hl as [f1 Hl]; [| unfold MAX_SCRIPT_ELEMENT_SIZE; lia | by rewrite Hx].
  assert (Hnum : forall m, CScriptNum (CScriptNum_serialize lockTime) m 5 = Some lockTime).
  { intros [|]; [apply CScriptNum_serialize_ok; (done || lia)|].
    destruct (CScriptNum_serialize_ok lockTime 5) as [_ E]; [lia | done |].
    unfold CScriptNum in *. destruct (5 <? _); [done|]. cbn [andb]. by destruct (_ && _ && _ && _) in E. }
  apply loop_op_inv in Hl as (f2 & st2 & E2 & Hl); try done; [|by cbn; rewrite Hx|cbn; lia].
  cbn [exec_op OP_CHECKLOCKTIMEVERIFY] in E2. apply bind_Ok_inv in E2 as ([] & E2 & [= <-]).
  unfold exec_cltv in E2. rewrite Hf in E2. cbn [negb counted with_nOpCount with_stack stack] in E2.
  rewrite Hnum in E2. cbn [thrown mbind Eval_bind] in E2. apply error_if_Ok_inv in E2 as [_ E2].
  apply bind_Ok_inv in E2 as (b & Hlock & E2). apply error_if_Ok_inv in E2 as [->%negb_false_iff _].
  apply loop_op_inv in Hl as (f3 & st3 & E3 & Hl); try done; [|by cbn; rewrite Hx|cbn; lia].
  cbn [exec_op] in E3. apply bind_Ok_inv in E3 as (s3 & [= <-] & [= <-]).
  apply p2pkh_inv in Hl; [|done | done | cbn; lia]. done.
Qed.

End Templates.

(** ** Cold staking *)

Section ColdStaking.
Context `{HashFunctions, Ecdsa}.
Context (script : CScript) (flags : Z) (checker : BaseSignatureChecker) (sigversion : SigVersion).

Abbreviation loop := (EvalScript_loop script flags checker sigversion).
Abbreviation signed := (signed flags checker sigversion).

(** Which opcode delegates, and whether it leaves the last output free. *)
Definition ccsv_op (lof : bool) : opcodetype :=
  if lof then OP_CHECKCOLDSTAKEVERIFY_LOF else OP_CHECKCOLDSTAKEVERIFY.

Lemma ccsv_exec lof pc st :
  exec_op script flags checker sigversion (ccsv_op lof) true pc st =
    (_ ← CheckColdStake checker lof script (stack st) flags; EvalOk st).
Proof. by destruct lof. Qed.

(** A branch of the conditional: the hash that has to match. *)
Lemma p2cs_branches_inv fuel lof staker owner st r flag h pubkey rest :
  length staker = 20%nat -> length owner = 20%nat ->
  stack st = flag :: h :: pubkey :: rest -> vfExec st = [] -> nOpCount st <= 150 ->
  loop fuel ((OP_IF : Z) :: (ccsv_op lof : Z) :: push_data [] staker ++
    (OP_ELSE : Z) :: push_data [] owner ++ [OP_ENDIF : Z; OP_EQUALVERIFY : Z; OP_CHECKSIG : Z]) st = EvalOk r ->
  (h = owner \/ h = staker /\ CheckColdStake checker lof script (h :: pubkey :: rest) flags = EvalOk tt) /\
  exists sig rest' b, rest = sig :: rest' /\ stack r = vchBool b :: rest' /\
    (b = true -> signed (pbegincodehash st) sig pubkey).
Proof.
  intros Hs Ho Hst Hx Hn Hl.
  assert (Hsz : forall k : bytes, length k = 20%nat -> size k <= MAX_SCRIPT_ELEMENT_SIZE)
    by (intros k Hk; unfold size, MAX_SCRIPT_ELEMENT_SIZE; lia).
  assert (Hccsv : OP_16 < ccsv_op lof /\ OP_ENDIF < ccsv_op lof /\ disabled_opcode (ccsv_op lof) = false) by by destruct lof.
  destruct Hccsv as (Hc1 & Hc2 & Hc3).
  apply loop_control_inv in Hl as (f1 & st1 & E1 & Hl); [|done|lia].
  rewrite Hx in E1. cbn [exec_op forallb] in E1. unfold exec_if in E1.
  cbn [counted with_nOpCount stack vfExec] in E1. rewrite Hst in E1. injection E1 as <-.
  destruct (CastToBool flag).
  - apply loop_op_inv in Hl as (f2 & st2 & E2 & Hl); try done; [|by cbn; rewrite Hx|cbn; lia].
    rewrite ccsv_exec in E2. apply bind_Ok_inv in E2 as ([] & E2 & [= <-]).
    apply loop_push_inv in Hl as [f3 Hl]; [|by apply Hsz | by cbn; rewrite Hx].
    apply loop_control_inv in Hl as (f4 & st4 & [= <-] & Hl); [|done|cbn; lia].
    apply loop_skip_push_inv in Hl as [f5 Hl]; [|by apply Hsz | done].
    apply loop_control_inv in Hl as (f6 & st6 & [= <-] & Hl); [|done|cbn; lia].
    apply (equalverify_checksig_inv _ _ _ _ _ _ _ staker h pubkey rest) in Hl
      as (-> & _ & Hl); [| done | by cbn; rewrite Hx | cbn; lia].
    split; [by right | exact Hl].
  - apply loop_skip_op_inv in Hl as (f2 & Hl); try done; [|cbn; lia].
    apply loop_skip_push_inv in Hl as [f3 Hl]; [|by apply Hsz | done].
    apply loop_control_inv in Hl as (f4 & st4 & [= <-] & Hl); [|done|cbn; lia].
    apply loop_push_inv in Hl as [f5 Hl]; [|by apply Hsz | by cbn; rewrite Hx].
    apply loop_control_inv in Hl as (f6 & st6 & [= <-] & Hl); [|done|cbn; lia].
    apply (equalverify_checksig_inv _ _ _ _ _ _ _ owner h pubkey rest) in Hl
      as (-> & _ & Hl); [| done | by cbn; rewrite Hx | cbn; lia].
    split; [by left | exact Hl].
Qed.

Lemma p2cs_inv fuel lof staker owner st r :
  length staker = 20%nat -> length owner = 20%nat -> vfExec st = [] -> nOpCount st = 0 ->
  loop fuel (p2cs_code (ccsv_op lof) staker owner) st = EvalOk r ->
  exists pubkey sig rest b,
    (Hash160 pubkey = owner \/
     Hash160 pubkey = staker /\
     CheckColdStake checker lof script (Hash160 pubkey :: pubkey :: sig :: rest) flags = EvalOk tt) /\
    stack r = vchBool b :: rest /\ (b = true -> signed (pbegincodehash st) sig pubkey).
Proof.
  intros Hs Ho Hx Hn Hl.
  apply dup_hash160_inv in Hl as (f1 & pubkey & s & st1 & Hst & Hst1 & Hx1 & Hn1 & Hc & Hl); [|done|lia].
  apply loop_op_inv in Hl as (f2 & st2 & E2 & Hl); try done; [|by rewrite Hx1|lia].
  cbn [exec_op] in E2. apply bind_Ok_inv in E2 as (s2 & E2 & [= <-]).
  cbn [counted with_nOpCount stack] in E2. rewrite Hst1 in E2. destruct s as [|flag s]; [done|]. injection E2 as <-.
  apply (p2cs_branches_inv _ _ _ _ _ _ flag (Hash160 pubkey) pubkey s) in Hl
    as (Hh & sig & rest & b & -> & Hr & Hb); [| done | done | done | done | cbn; lia].
  exists pubkey, sig, rest, b. split_and!; try done. intros Hb'. specialize (Hb Hb'). cbn in Hb. by rewrite Hc in Hb.
Qed.

End ColdStaking.

(** Outputs that return to the delegation script. *)
Definition returned (script : CScript) (outs : list CTxOut) : Z :=
  sumZ (fun o => if bool_decide (scriptPubKey o = script) then nValue o else 0) outs.

(** Outputs [i], [i + 1], ... of [outs]: all pay to the script, but for the
    last one where it may be left free. *)
Definition pays_back (lof : bool) (script : CScript) (outs i : Z) (l : list CTxOut) : Prop :=
  forall k o, l !! k = Some o -> scriptPubKey o = script \/
    (lof = true /\ i + Z.of_nat k = outs - 1 /\ 3 <= outs).

Lemma ColdStake_outputs_inv lof script outs i l v v' :
  ColdStake_outputs lof script outs i l v = EvalOk v' ->
  pays_back lof script outs i l /\ (in_i64 v -> v' = i64 (v + returned script l)).
Proof.
  revert i v. induction l as [|o l IH]; intros i v Hl; cbn [ColdStake_outputs] in Hl.
  { injection Hl as <-. split; [by intros k o|]. intros Hv. cbn. rewrite Z.add_0_r. by rewrite i64_id. }
  unfold returned. cbn [sumZ]. fold (returned script l). case_bool_decide as Eo; cbn [negb] in Hl.
  - apply IH in Hl as [Hp Hv]. split.
    + intros [|k] o' Hk; [injection Hk as <-; by left|]. destruct (Hp k o' Hk) as [?|(? & ? & ?)]; [by left|right].
      split_and!; try done. lia.
    + intros _. rewrite Hv by apply i64_range. rewrite i64_add_l. f_equal. lia.
  - destruct (negb lof || _ || _) eqn:Ec; [done|]. bool_to_prop. apply IH in Hl as [Hp Hv]. split.
    + intros [|k] o' Hk; [injection Hk as <-; right; split_and!; [done | lia | lia]|].
      destruct (Hp k o' Hk) as [?|(? & ? & ?)]; [by left|right]. split_and!; try done. lia.
    + intros Hi. rewrite Hv by done. f_equal.
Qed.

(** ** Verification of a whole input *)

Section Verified.
Context `{HashFunctions, Ecdsa}.
Context (flags : Z) (checker : BaseSignatureChecker) (sigversion : SigVersion).

Lemma EvalScript_inv script s s' :
  EvalScript script flags checker sigversion s = EvalOk s' ->
  exists st, EvalScript_loop script flags checker sigversion (length script) script (EvalScript_init script s) = EvalOk st
    /\ stack st = s'.
Proof.
  unfold EvalScript. intros [_ Hs]%error_if_Ok_inv.
  destruct (EvalScript_loop _ _ _ _ _ _ _) as [st| | |]; [|done|done|done].
  apply error_if_Ok_inv in Hs as [_ [= <-]]. eauto.
Qed.

Lemma VerifyScript_inv scriptSig scriptPubKey :
  VerifyScript scriptSig scriptPubKey flags checker sigversion = EvalOk tt ->
  exists s x s', EvalScript scriptSig flags checker sigversion [] = EvalOk s /\
    EvalScript scriptPubKey flags checker sigversion s = EvalOk (x :: s') /\ CastToBool x = true.
Proof.
  unfold VerifyScript. destruct (IsPushOnly scriptSig) as [po|]; [|done]. cbn [asserted mbind Eval_bind].
  intros [_ Hv]%error_if_Ok_inv. apply bind_Ok_inv in Hv as (s & Es & Hv).
  apply bind_Ok_inv in Hv as (s2 & Es2 & Hv). apply bind_Ok_inv in Hv as ([] & Ht & _).
  destruct s2 as [|x s2]; [done|]. apply error_if_Ok_inv in Ht as [Ht%negb_false_iff _]. eauto 6.
Qed.

Lemma CastToBool_vchBool b : CastToBool (vchBool b) = b.
Proof. by destruct b. Qed.

(** The redeem script of a script-hash output. *)
Lemma VerifyScript_P2SH_inv scriptSig scriptID :
  length scriptID = 20%nat -> has_flag flags SCRIPT_VERIFY_P2SH = true ->
  VerifyScript scriptSig (GetScriptForDestination (CScriptID scriptID)) flags checker sigversion = EvalOk tt ->
  IsPushOnly scriptSig = Some true /\
  exists redeem s x s', EvalScript scriptSig flags checker sigversion [] = EvalOk (redeem :: s) /\
    Hash160 redeem = scriptID /\ EvalScript redeem flags checker sigversion s = EvalOk (x :: s') /\ CastToBool x = true.
Proof.
  intros Hid Hf Hv. assert (Hp : IsPayToScriptHash (GetScriptForDestination (CScriptID scriptID)) = true).
  { apply IsPayToScriptHash_iff. eauto. }
  unfold VerifyScript in Hv. destruct (IsPushOnly scriptSig) as [po|]; [|done]. cbn [asserted mbind Eval_bind] in Hv.
  apply error_if_Ok_inv in Hv as [_ Hv]. apply bind_Ok_inv in Hv as (s & Es & Hv).
  apply bind_Ok_inv in Hv as (s2 & Es2 & Hv). apply bind_Ok_inv in Hv as ([] & Ht & Hv).
  rewrite Hf, Hp in Hv. cbn [andb] in Hv. apply bind_Ok_inv in Hv as (s3 & Hv & _).
  apply error_if_Ok_inv in Hv as [->%negb_false_iff Hv]. destruct s as [|redeem s]; [done|].
  apply bind_Ok_inv in Hv as (s4 & Er & Hv). apply bind_Ok_inv in Hv as ([] & Ht4 & _).
  destruct s4 as [|y s4]; [done|]. apply error_if_Ok_inv in Ht4 as [Hy%negb_false_iff _].
  destruct s2 as [|x s2]; [done|]. apply error_if_Ok_inv in Ht as [Hx%negb_false_iff _].
  split; [done|]. exists redeem, s, y, s4. split_and!; try done.
  apply EvalScript_inv in Es2 as (st & Hl & Est). rewrite p2sh_template in Hl.
  apply p2sh_inv in Hl as (x' & s' & [= <- <-] & Er'); [| done | done | cbn; lia].
  rewrite Est in Er'. injection Er' as -> ->. rewrite CastToBool_vchBool in Hx. by apply bool_decide_eq_true in Hx.
Qed.

End Verified.

(** ** The canonical input script of a key-hash output *)

Lemma GetOp2_push_direct d rest :
  size d <= 75 -> GetOp2 (push_data [] d ++ rest) = GetOp_true (size d) d rest.
Proof.
  intros Hd. pose proof (size_nonneg d). pose proof (size_nonneg rest). unfold push_data. cbn [opcode_value].
  rewrite (proj2 (Z.ltb_lt _ _)) by lia. cbn [app GetOp2]. cbn [opcode_value].
  rewrite (proj2 (Z.leb_le _ _)), (proj2 (Z.ltb_lt _ _)) by lia. unfold GetOp2_data.
  rewrite size_app, (proj2 (Z.ltb_ge _ _)) by lia. by rewrite to_nat_size, take_app_length, drop_app_length.
Qed.

Lemma CheckMinimalPush_direct d : 2 <= size d <= 75 -> CheckMinimalPush d (size d) = true.
Proof.
  intros Hd. unfold CheckMinimalPush. rewrite (proj2 (Z.eqb_neq (size d) 0)), (proj2 (Z.eqb_neq (size d) 1)) by lia.
  cbn [andb]. rewrite (proj2 (Z.leb_le _ 75)) by lia. apply Z.eqb_refl.
Qed.

Lemma length_push_direct d : size d <= 75 -> length (push_data [] d) = S (length d).
Proof. intros Hd. unfold push_data. cbn [opcode_value]. by rewrite (proj2 (Z.ltb_lt _ _)) by lia. Qed.

(** An exception is caught by [EvalScript]. *)
Definition caught {A} (m : Eval A) : Eval A :=
  match m with EvalThrow => EvalError SCRIPT_ERR_UNKNOWN_ERROR | m => m end.

Section Canonical.
Context `{HashFunctions, Ecdsa}.
Context (flags : Z) (checker : BaseSignatureChecker) (sigversion : SigVersion).
Context (sig pubkey keyID : bytes).
Context (Hsig : 2 <= size sig <= 75) (Hpk : 2 <= size pubkey <= 75) (Hid : length keyID = 20%nat).

Definition canonical_scriptSig : CScript := [] <<data sig <<data pubkey.

Lemma canonical_scriptSig_app : canonical_scriptSig = push_data [] sig ++ push_data [] pubkey ++ [].
Proof. unfold canonical_scriptSig. rewrite push_data_app. by rewrite app_nil_r. Qed.

Lemma IsPushOnly_loop_push fuel d rest :
  size d <= 75 -> IsPushOnly_loop (S fuel) (push_data [] d ++ rest) = IsPushOnly_loop fuel rest.
Proof.
  intros Hd. cbn [IsPushOnly_loop]. rewrite GetOp2_push_direct by done.
  destruct (push_data_cons d) as (b & l & ->). cbn [app].
  by rewrite (proj2 (Z.ltb_ge _ _)) by (cbn [opcode_value]; lia).
Qed.

Lemma canonical_lengths :
  length canonical_scriptSig = S (S (length sig + length pubkey)) /\ size canonical_scriptSig <= 152.
Proof.
  rewrite canonical_scriptSig_app. unfold size in *. rewrite !length_app, !length_push_direct by (unfold size; lia).
  simpl length. split; lia.
Qed.

Lemma canonical_push_only : IsPushOnly canonical_scriptSig = Some true.
Proof.
  unfold IsPushOnly. rewrite (proj1 canonical_lengths), canonical_scriptSig_app.
  by rewrite !IsPushOnly_loop_push by lia.
Qed.

Lemma canonical_eval : EvalScript canonical_scriptSig flags checker sigversion [] = EvalOk [pubkey; sig].
Proof.
  unfold EvalScript. destruct canonical_lengths as [Hl Hs].
  rewrite (proj2 (Z.ltb_ge _ _)) by (unfold MAX_SCRIPT_SIZE; lia). cbn [error_if]. rewrite Hl.
  rewrite canonical_scriptSig_app at 2.
  rewrite (loop_push_at _ _ _ _ _ _ (size sig) sig (push_data [] pubkey ++ []))
    by (try done; try (apply GetOp2_push_direct); cbn [opcode_value]; unfold MAX_SCRIPT_ELEMENT_SIZE; lia).
  rewrite CheckMinimalPush_direct, andb_false_r by done. cbn [error_if].
  rewrite within_limits_ok by (unfold size; simpl; lia). cbn [mbind Eval_bind].
  rewrite (loop_push_at _ _ _ _ _ _ (size pubkey) pubkey [])
    by (try done; try (apply GetOp2_push_direct); cbn [opcode_value]; unfold MAX_SCRIPT_ELEMENT_SIZE; lia).
  rewrite CheckMinimalPush_direct, andb_false_r by done. cbn [error_if].
  rewrite within_limits_ok by (unfold size; simpl; lia). cbn [mbind Eval_bind].
  by destruct (length sig + length pubkey)%nat.
Qed.

(** What the key-hash script does with the two elements. *)
Definition p2pkh_result : Eval unit :=
  error_if (negb (bool_decide (Hash160 pubkey = keyID))) SCRIPT_ERR_EQUALVERIFY (
  fSuccess ← caught (
    '(_, scriptCode) ← asserted (FindAndDelete (GetScriptForDestination (CKeyID keyID)) (push_data [] sig));
    _ ← CheckSignatureEncoding sig flags;
    _ ← CheckPubKeyEncoding pubkey flags;
    CheckSig checker sig pubkey scriptCode sigversion);
  error_if (negb fSuccess) SCRIPT_ERR_EVAL_FALSE (EvalOk tt)).

Lemma p2pkh_eval :
  EvalScript (GetScriptForDestination (CKeyID keyID)) flags checker sigversion [pubkey; sig] =
    error_if (negb (bool_decide (Hash160 pubkey = keyID))) SCRIPT_ERR_EQUALVERIFY (
    fSuccess ← caught (
      '(_, scriptCode) ← asserted (FindAndDelete (GetScriptForDestination (CKeyID keyID)) (push_data [] sig));
      _ ← CheckSignatureEncoding sig flags;
      _ ← CheckPubKeyEncoding pubkey flags;
      CheckSig checker sig pubkey scriptCode sigversion);
    EvalOk [vchBool fSuccess]).
Proof.
  rewrite p2pkh_template. set (spk := p2pkh_code keyID).
  assert (Hlen : length spk = 25%nat).
  { unfold spk, p2pkh_code. simpl length. rewrite length_app, length_push_direct by (unfold size; lia). simpl. lia. }
  unfold EvalScript. replace (size spk) with 25 by (unfold size; lia). change (MAX_SCRIPT_SIZE <? 25) with false.
  cbn [error_if]. rewrite Hlen. unfold spk at 2, p2pkh_code.
  rewrite loop_op by done. cbn [exec_op exec_stack_op counted with_nOpCount EvalScript_init stack mbind Eval_bind].
  rewrite within_limits_ok by (unfold size; simpl; lia). cbn [mbind Eval_bind].
  rewrite loop_op by done. cbn [exec_op exec_hash counted with_nOpCount with_stack stack mbind Eval_bind].
  rewrite within_limits_ok by (unfold size; simpl; lia). cbn [mbind Eval_bind].
  rewrite (loop_push_at _ _ _ _ _ _ (size keyID) keyID [OP_EQUALVERIFY : Z; OP_CHECKSIG : Z])
    by (try done; try (apply GetOp2_push_direct); cbn [opcode_value]; unfold size, MAX_SCRIPT_ELEMENT_SIZE; lia).
  rewrite CheckMinimalPush_direct, andb_false_r by (unfold size; lia). cbn [error_if].
  rewrite within_limits_ok by (unfold size; simpl; lia). cbn [mbind Eval_bind].
  rewrite loop_op by done. cbn [exec_op exec_equal counted with_nOpCount with_stack stack].
  destruct (bool_decide (Hash160 pubkey = keyID)); [|done]. cbn [negb error_if mbind Eval_bind].
  rewrite within_limits_ok by (unfold size; simpl; lia). cbn [mbind Eval_bind].
  rewrite loop_op by done. cbn [exec_op counted with_nOpCount with_stack stack pbegincodehash].
  cbn [EvalScript_init pbegincodehash]. unfold exec_checksig. destruct (FindAndDelete spk _) as [[n code]|]; [|done]. cbn [asserted mbind Eval_bind].
  destruct (CheckSignatureEncoding sig flags) as [[]| | |]; try done. cbn [mbind Eval_bind].
  destruct (CheckPubKeyEncoding pubkey flags) as [[]| | |]; try done. cbn [mbind Eval_bind].
  by destruct (CheckSig checker sig pubkey code sigversion) as [b| | |].
Qed.

Lemma p2pkh_canonical :
  (has_flag flags SCRIPT_VERIFY_CLEANSTACK = true -> has_flag flags SCRIPT_VERIFY_P2SH = true) ->
  VerifyScript canonical_scriptSig (GetScriptForDestination (CKeyID keyID)) flags checker sigversion = p2pkh_result.
Proof.
  intros Hcs. unfold VerifyScript. rewrite canonical_push_only. cbn [asserted mbind Eval_bind negb].
  rewrite andb_false_r. cbn [error_if]. rewrite canonical_eval. cbn [mbind Eval_bind]. rewrite p2pkh_eval.
  unfold p2pkh_result. destruct (bool_decide (Hash160 pubkey = keyID)); [|done]. cbn [negb error_if].
  destruct (caught _) as [b| | |]; try done. cbn [mbind Eval_bind]. rewrite CastToBool_vchBool.
  destruct b; [|done]. cbn [negb error_if mbind Eval_bind].
  assert (Hp : IsPayToScriptHash (GetScriptForDestination (CKeyID keyID)) = false) by by destruct_list keyID Hid.
  rewrite Hp, andb_false_r. cbn [mbind Eval_bind]. destruct (has_flag flags SCRIPT_VERIFY_CLEANSTACK); [|done].
  by rewrite Hcs.
Qed.

End Canonical.

(** ** Signatures of the spending transaction *)

(** A key that signed the transaction for this input: the ECDSA signature,
    followed by its hash type, is valid for the hash of the transaction with
    the spent script. *)
Definition spend_signature `{HashFunctions, Ecdsa} (txTo : CTransaction) (nIn amount : Z)
    (cache : option PrecomputedTransactionData) (sigversion : SigVersion) (script : CScript) (pubkey : bytes) : Prop :=
  exists sig nHashType n code sighash,
    FindAndDelete script (push_data [] (sig ++ [nHashType])) = Some (n, code) /\
    SignatureHash code txTo nIn nHashType amount sigversion cache = EvalOk sighash /\
    CPubKey pubkey = Some pubkey /\ ecdsa_verify pubkey sighash sig = true.

Section Signed.
Context `{HashFunctions, Ecdsa}.
Context (txTo : CTransaction) (nIn amount : Z) (cache : option PrecomputedTransactionData).
Context (flags : Z) (sigversion : SigVersion).

Abbreviation checker := (TransactionSignatureChecker txTo nIn amount cache).

Lemma signed_spend script sig pubkey :
  signed flags checker sigversion script sig pubkey ->
  spend_signature txTo nIn amount cache sigversion script pubkey.
Proof.
  intros (n & code & Hf & _ & _ & Hc). cbn [CheckSig TransactionSignatureChecker] in Hc. unfold Tx_CheckSig in Hc.
  destruct (CPubKey pubkey) as [pk|] eqn:Ek; [|done].
  assert (pk = pubkey) as -> by (unfold CPubKey in Ek; repeat case_match; congruence).
  destruct sig as [|ht sig _] using rev_ind; [done|]. rewrite last_snoc in Hc.
  apply bind_Ok_inv in Hc as (sighash & Hs & [= Hv]).
  assert (Hd : drop_last (sig ++ [ht]) = sig).
  { unfold drop_last. rewrite length_app. simpl. by rewrite Nat.add_sub, take_app_length. }
  rewrite Hd in Hv. by exists sig, ht, n, code, sighash.
Qed.

Lemma p2pkh_owned scriptSig keyID :
  length keyID = 20%nat ->
  VerifyScript scriptSig (GetScriptForDestination (CKeyID keyID)) flags checker sigversion = EvalOk tt ->
  exists pubkey, Hash160 pubkey = keyID /\
    spend_signature txTo nIn amount cache sigversion (GetScriptForDestination (CKeyID keyID)) pubkey.
Proof.
  intros Hid (s & x & s' & _ & Hl & Hx)%VerifyScript_inv. apply EvalScript_inv in Hl as (st & Hl & Hst).
  rewrite p2pkh_template in *. apply p2pkh_inv in Hl as (pubkey & sig & rest & b & _ & Hk & Hr & Hb); [|done|done|cbn; lia].
  rewrite Hst in Hr. injection Hr as -> ->. rewrite CastToBool_vchBool in Hx.
  exists pubkey. split; [done|]. by apply (signed_spend _ sig), Hb.
Qed.

Lemma cltv_owned scriptSig lockTime keyID :
  has_flag flags SCRIPT_VERIFY_CHECKLOCKTIMEVERIFY = true ->
  16 < lockTime <= INT64_MAX -> size (CScriptNum_serialize lockTime) <= 5 -> length keyID = 20%nat ->
  VerifyScript scriptSig (GetCLTVPayToPubKeyHash lockTime keyID) flags checker sigversion = EvalOk tt ->
  Tx_CheckLockTime txTo nIn lockTime = EvalOk true /\
  exists pubkey, Hash160 pubkey = keyID /\
    spend_signature txTo nIn amount cache sigversion (GetCLTVPayToPubKeyHash lockTime keyID) pubkey.
Proof.
  intros Hf Ht Hsz Hid (s & x & s' & _ & Hl & Hx)%VerifyScript_inv. apply EvalScript_inv in Hl as (st & Hl & Hst).
  apply cltv_inv in Hl as (Hlock & pubkey & sig & rest & b & _ & Hk & Hr & Hb); try done.
  rewrite Hst in Hr. injection Hr as -> ->. rewrite CastToBool_vchBool in Hx.
  split; [done|]. exists pubkey. split; [done|]. by apply (signed_spend _ sig), Hb.
Qed.

(** What an accepted lock time means, and what it means in a block. *)
Lemma Tx_CheckLockTime_true lockTime :
  Tx_CheckLockTime txTo nIn lockTime = EvalOk true -> LOCKTIME_THRESHOLD <= lockTime ->
  lockTime <= nLockTime txTo /\ exists txin, vin txTo !! Z.to_nat nIn = Some txin /\ TxIn_IsFinal txin = false.
Proof.
  unfold Tx_CheckLockTime. intros Hc Hl. destruct (negb _); [done|].
  destruct (nLockTime txTo <? lockTime) eqn:E; [done|]. bool_to_prop. split; [done|].
  destruct (vin txTo !! Z.to_nat nIn) as [txin|]; [|done]. injection Hc as Hc. exists txin. split; [done|].
  by apply negb_true_iff.
Qed.

Lemma IsFinalTx_locked clock nHeight nTime txin :
  vin txTo !! Z.to_nat nIn = Some txin -> TxIn_IsFinal txin = false ->
  LOCKTIME_THRESHOLD <= nLockTime txTo -> nTime <> 0 ->
  IsFinalTx clock txTo nHeight nTime = true -> nLockTime txTo < nTime.
Proof.
  intros Hi Hfin Hlock Ht. unfold IsFinalTx. unfold LOCKTIME_THRESHOLD in *.
  rewrite (proj2 (Z.eqb_neq _ 0)), (proj2 (Z.eqb_neq nTime 0)), (proj2 (Z.ltb_ge _ 500000000)) by lia.
  destruct (nLockTime txTo <? nTime) eqn:E; [by bool_to_prop|]. intros Hall.
  rewrite forallb_forall in Hall. specialize (Hall txin). rewrite Hall in Hfin; [done|].
  apply list_elem_of_In. by eapply list_elem_of_lookup_2.
Qed.

(** Delegated outputs. *)
Definition delegation_script (lof : bool) (staker owner : bytes) : CScript :=
  if lof then GetScriptForStakeDelegationLOF staker owner else GetScriptForStakeDelegation staker owner.

Lemma CheckColdStake_inv lof script s :
  Tx_CheckColdStake txTo amount lof script s flags = EvalOk tt ->
  IsCoinStake txTo = true /\ size (vin txTo) = 1 /\
  pays_back lof script (size (vout txTo)) 1 (drop 1 (vout txTo)) /\
  amount <= i64 (returned script (drop 1 (vout txTo))).
Proof.
  unfold Tx_CheckColdStake. destruct s as [|h [|k [|sg [|? ?]]]]; try done. intros Hc.
  apply bind_Ok_inv in Hc as ([] & _ & Hc). apply bind_Ok_inv in Hc as ([] & _ & Hc).
  apply error_if_Ok_inv in Hc as [_ Hc]. apply error_if_Ok_inv in Hc as [E1%negb_false_iff Hc].
  apply error_if_Ok_inv in Hc as [E2 Hc]. cbn zeta in Hc. destruct (_ <? 2); [done|].
  apply bind_Ok_inv in Hc as (v & Hv & Hc). apply error_if_Ok_inv in Hc as [E3 _]. bool_to_prop.
  apply ColdStake_outputs_inv in Hv as [Hp Hv]. split_and!; try done.
  rewrite Hv, Z.add_0_l in E3; [done|]. by vm_compute.
Qed.

Lemma p2cs_owned scriptSig lof staker owner :
  length staker = 20%nat -> length owner = 20%nat ->
  let script := delegation_script lof staker owner in
  VerifyScript scriptSig script flags checker sigversion = EvalOk tt ->
  exists pubkey, spend_signature txTo nIn amount cache sigversion script pubkey /\
    (Hash160 pubkey = owner \/
     Hash160 pubkey = staker /\ IsCoinStake txTo = true /\ size (vin txTo) = 1 /\
     pays_back lof script (size (vout txTo)) 1 (drop 1 (vout txTo)) /\
     amount <= i64 (returned script (drop 1 (vout txTo)))).
Proof.
  intros Hs Ho script (s & x & s' & _ & Hl & Hx)%VerifyScript_inv. apply EvalScript_inv in Hl as (st & Hl & Hst).
  assert (Es : script = p2cs_code (ccsv_op lof) staker owner).
  { unfold script, delegation_script. destruct lof; [apply p2cs_lof_template | apply p2cs_template]. }
  rewrite Es in Hl at 3. apply p2cs_inv in Hl as (pubkey & sig & rest & b & Hh & Hr & Hb); try done.
  rewrite Hst in Hr. injection Hr as -> ->. rewrite CastToBool_vchBool in Hx.
  exists pubkey. split; [by apply (signed_spend _ sig), Hb|].
  destruct Hh as [?|[Hk Hc]]; [by left|right]. split; [done|]. exact (CheckColdStake_inv _ _ _ Hc).
Qed.

End Signed.

(** The unlock times fit the five bytes the interpreter reads, and are times,
    not heights. *)
Lemma vesting_unlock_range net i :
  (i < 36)%nat ->
  let unlock := AddMonthsUTC (genesis_nTime (CreateChainParams net)) (12 + Z.of_nat i) in
  LOCKTIME_THRESHOLD <= unlock <= INT64_MAX /\ size (CScriptNum_serialize unlock) <= 5.
Proof.
  intros Hi unlock.
  assert (Hall : forallb (fun k => let u := AddMonthsUTC (genesis_nTime (CreateChainParams net)) (12 + Z.of_nat k) in
    (LOCKTIME_THRESHOLD <=? u) && (u <=? INT64_MAX) && (size (CScriptNum_serialize u) <=? 5)) (seq 0 36) = true)
    by (destruct net; vm_compute; reflexivity).
  rewrite forallb_forall in Hall. specialize (Hall i ltac:(apply in_seq; lia)). cbn zeta in Hall. fold unlock in Hall.
  bool_to_prop. done.
Qed.

(** ** Properties *)

(** C28. Outputs to a key hash belong to the holder of the key.  Whatever input
    script is supplied, [VerifyScript] accepts the spend only if some public
    key with that hash signed the spending transaction (its signature hash
    over the spent script, the input and its amount).  For the canonical input
    script [<sig> <pubkey>] the outcome, errors included, is the one of
    [p2pkh_result]: wrong key, malformed or invalid signature, or success. *)
Theorem p2pkh_spend `{HashFunctions, Ecdsa} txTo nIn amount cache flags sigversion keyID :
  length keyID = 20%nat ->
  let script := GetScriptForDestination (CKeyID keyID) in
  let checker := TransactionSignatureChecker txTo nIn amount cache in
  (forall scriptSig, VerifyScript scriptSig script flags checker sigversion = EvalOk tt ->
     exists pubkey, Hash160 pubkey = keyID /\ spend_signature txTo nIn amount cache sigversion script pubkey) /\
  (forall sig pubkey, 2 <= size sig <= 75 -> 2 <= size pubkey <= 75 ->
     (has_flag flags SCRIPT_VERIFY_CLEANSTACK = true -> has_flag flags SCRIPT_VERIFY_P2SH = true) ->
     VerifyScript ([] <<data sig <<data pubkey) script flags checker sigversion =
       p2pkh_result flags checker sigversion sig pubkey keyID).
Proof.
  intros Hid script checker. split; [intros scriptSig; by apply p2pkh_owned|].
  intros sig pubkey Hs Hp Hcs. by apply p2pkh_canonical.
Qed.

(** C29. The script of a vesting output holds until the unlock date.  Where
    [VerifyScript], with the flag for CHECKLOCKTIMEVERIFY, accepts an input
    that spends tranche [i] of the team, the transaction carries a signature of
    the team key and a lock time no earlier than the unlock time, on an input
    that is not final; and a block for which [IsFinalTx] finds the transaction
    final has a block time later than the unlock time.  [ConnectBlock] runs the
    scripts, with this flag, from the height of the last checkpoint on; below
    it no script is run. *)
Theorem vesting_locked `{HashFunctions, Ecdsa} net outs i o txTo nIn amount cache flags sigversion scriptSig :
  let p := CreateChainParams net in
  let unlock := AddMonthsUTC (genesis_nTime p) (12 + Z.of_nat i) in
  GetTeamVestingOutputs p = Some outs -> outs !! i = Some o ->
  has_flag flags SCRIPT_VERIFY_CHECKLOCKTIMEVERIFY = true ->
  VerifyScript scriptSig (scriptPubKey o) flags (TransactionSignatureChecker txTo nIn amount cache) sigversion = EvalOk tt ->
  unlock <= nLockTime txTo /\
  (forall clock nHeight nTime, nTime <> 0 -> IsFinalTx clock txTo nHeight nTime = true -> unlock < nTime) /\
  exists pubkey, Hash160 pubkey = team_key p /\
    spend_signature txTo nIn amount cache sigversion (scriptPubKey o) pubkey.
Proof.
  intros p unlock Hv Ho Hf Hs. rewrite GetTeamVestingOutputs_eq in Hv. injection Hv as <-.
  assert (Hi : (i < 36)%nat) by (apply lookup_lt_Some in Ho; exact Ho).
  rewrite vesting_outputs_lookup in Ho by done. injection Ho as <-.
  destruct (vesting_unlock_range net i Hi) as [Hr Hsz]. fold p in Hr, Hsz. fold unlock in Hr, Hsz.
  cbn [vesting_tranche scriptPubKey] in *. change VESTING_CLIFF_MONTHS with 12 in *. fold unlock in Hs |- *.
  apply cltv_owned in Hs as [Hc Hk]; [| done | unfold LOCKTIME_THRESHOLD in Hr; lia | done | apply team_key_length].
  apply Tx_CheckLockTime_true in Hc as (Hlock & txin & Hin & Hfin); [|lia].
  split_and!; [done | | done]. intros clock nHeight nTime Ht Hfinal.
  pose proof (IsFinalTx_locked txTo nIn clock nHeight nTime txin Hin Hfin ltac:(lia) Ht Hfinal). lia.
Qed.

(** C30. A delegation gives the staker the power to stake and nothing else.
    An accepted spend of a cold-staking output is signed by the owner's key;
    or it is signed by the staker's key and is a coinstake with this one
    input, every output after the marker pays to the same delegation script
    (but, with the LOF opcode and at least three outputs, possibly the last
    one), and those outputs hold at least the delegated amount. *)
Theorem cold_stake_delegation `{HashFunctions, Ecdsa} txTo nIn amount cache flags sigversion scriptSig lof staker owner :
  length staker = 20%nat -> length owner = 20%nat ->
  0 <= returned (delegation_script lof staker owner) (drop 1 (vout txTo)) <= INT64_MAX ->
  let script := delegation_script lof staker owner in
  VerifyScript scriptSig script flags (TransactionSignatureChecker txTo nIn amount cache) sigversion = EvalOk tt ->
  exists pubkey, spend_signature txTo nIn amount cache sigversion script pubkey /\
    (Hash160 pubkey = owner \/
     Hash160 pubkey = staker /\ IsCoinStake txTo = true /\ size (vin txTo) = 1 /\
     pays_back lof script (size (vout txTo)) 1 (drop 1 (vout txTo)) /\
     amount <= returned script (drop 1 (vout txTo))).
Proof.
  intros Hs Ho Hsum script Hv. destruct (p2cs_owned _ _ _ _ _ _ _ _ _ _ Hs Ho Hv) as (pubkey & Hsig & Hk).
  exists pubkey. split; [done|]. destruct Hk as [?|(? & ? & ? & ? & Ha)]; [by left|right].
  rewrite i64_id in Ha by (unfold in_i64, INT64_MIN; lia). done.
Qed.

(** ** Examples: the hypotheses of the properties can be met *)

Definition example_key : bytes := 2 :: replicate 32 7.
Definition example_flags : Z := Z.lor SCRIPT_VERIFY_P2SH SCRIPT_VERIFY_CHECKLOCKTIMEVERIFY.

(** A digest under which the example key has the key hash [h]. *)
Definition hash_to (h : bytes) : HashFunctions := {|
  SHA256 := checksum 32; RIPEMD160 _ := h; SHA1 := checksum 20;
  HashQuark data := le_value (checksum 32 data); BLAKE2b _ data := le_value (checksum 32 data)
|}.

Lemma p2pkh_spend_witness :
  let script := GetScriptForDestination (CKeyID (replicate 20 9)) in
  let checker := @TransactionSignatureChecker (hash_to (replicate 20 9)) echo_ecdsa (example_tx 7 0) 0 500 None in
  exists pubkey, @Hash160 (hash_to (replicate 20 9)) pubkey = replicate 20 9 /\
    @spend_signature (hash_to (replicate 20 9)) echo_ecdsa (example_tx 7 0) 0 500 None SIGVERSION_BASE script pubkey.
Proof.
  intros script checker.
  apply (proj1 (@p2pkh_spend (hash_to (replicate 20 9)) echo_ecdsa (example_tx 7 0) 0 500 None example_flags
           SIGVERSION_BASE (replicate 20 9) eq_refl) ([] <<data (example_key ++ [1]) <<data example_key)).
  vm_compute. reflexivity.
Defined.

Lemma vesting_locked_witness :
  let p := CreateChainParams MAIN in
  let h := hash_to (team_key p) in
  let unlock := AddMonthsUTC (genesis_nTime p) (12 + Z.of_nat 0) in
  let tx := example_tx 7 (AddMonthsUTC (genesis_nTime p) 13) in
  let script := GetCLTVPayToPubKeyHash unlock (team_key p) in
  unlock <= nLockTime tx /\
  (forall clock nHeight nTime, nTime <> 0 -> IsFinalTx clock tx nHeight nTime = true -> unlock < nTime) /\
  exists pubkey, @Hash160 h pubkey = team_key p /\ @spend_signature h echo_ecdsa tx 0 500 None SIGVERSION_BASE script pubkey.
Proof.
  intros p h unlock tx script.
  apply (@vesting_locked h echo_ecdsa MAIN (vesting_outputs p) 0%nat
           (vesting_tranche (genesis_nTime p) (200000000 * COIN) (team_key p) 0) tx 0 500 None example_flags
           SIGVERSION_BASE ([] <<data (example_key ++ [1]) <<data example_key)); vm_compute; reflexivity.
Defined.

Definition example_coinstake : CTransaction :=
  let script := GetScriptForStakeDelegation (replicate 20 9) (replicate 20 8) in {|
  vin := [{| prevout := {| op_hash := 5; op_n := 0 |}; scriptSig := []; nSequence := 7 |}];
  vout := [{| nValue := 0; scriptPubKey := [] |}; {| nValue := 700; scriptPubKey := script |}];
  tx_nVersion := 1; nType := 0; nLockTime := 0; sapData := Some SaplingTxData_empty; extraPayload := None
|}.

Lemma cold_stake_delegation_witness :
  let h := hash_to (replicate 20 9) in
  let script := delegation_script false (replicate 20 9) (replicate 20 8) in
  exists pubkey, @spend_signature h echo_ecdsa example_coinstake 0 500 None SIGVERSION_BASE script pubkey /\
    (@Hash160 h pubkey = replicate 20 8 \/
     @Hash160 h pubkey = replicate 20 9 /\ IsCoinStake example_coinstake = true /\ size (vin example_coinstake) = 1 /\
     pays_back false script (size (vout example_coinstake)) 1 (drop 1 (vout example_coinstake)) /\
     500 <= returned script (drop 1 (vout example_coinstake))).
Proof.
  intros h script.
  apply (@cold_stake_delegation h echo_ecdsa example_coinstake 0 500 None example_flags SIGVERSION_BASE
           ([] <<data (example_key ++ [1]) <<op OP_1 <<data example_key) false (replicate 20 9) (replicate 20 8));
    [reflexivity | reflexivity | vm_compute; split; discriminate | vm_compute; reflexivity].
Defined.
