(* ===== verification/Sighash.v ===== *)
(** * What a signature commits to

    script/interpreter.cpp, [SignatureHash] of Sapling transactions: the parts
    of the transaction that two equal hashes have in common. *)

From S2P Require Import Prelude Params Crypto Script Standard Serialize Transaction Interpreter.

Local Open Scope krova_scope.

(** ** Serializations determine what they serialize *)

Lemma ser_app_inj {A} (f : Formatter A) `{!Lawful f} a b r r' :
  ok f a -> ok f b -> Ser f a ++ r = Ser f b ++ r' -> a = b /\ r = r'.
Proof.
  intros Ha Hb E. pose proof (unser_ser a r Ha) as H1. rewrite E, (unser_ser b r' Hb) in H1. by injection H1 as <- <-.
Qed.

Lemma concat_ser_inj {A} (f : Formatter A) `{!Lawful f} l k :
  (forall a, Ser f a <> []) -> Forall (ok f) l -> Forall (ok f) k ->
  concat (map (Ser f) l) = concat (map (Ser f) k) -> l = k.
Proof.
  intros Hne Hl. revert k. induction Hl as [|a l Ha Hl IH]; intros k Hk E.
  - destruct k as [|b k]; [done|]. cbn in E. symmetry in E. apply app_eq_nil in E as [E _]. by apply Hne in E.
  - destruct Hk as [|b k Hb Hk].
    + cbn in E. apply app_eq_nil in E as [E _]. by apply Hne in E.
    + cbn in E. apply ser_app_inj in E as [-> E]; [|done|done|done]. f_equal. by apply IH.
Qed.

Lemma int64_ok a : in_i64 a -> ok int64_fmt a.
Proof.
  unfold in_i64, INT64_MIN, INT64_MAX. intros Ha. cbn [ok int64_fmt int_fmt].
  change (256 ^ Z.of_nat 8 / 2) with 9223372036854775808. lia.
Qed.

Section Commitment.
Context `{HashSizes}.

(** BLAKE2b on some inputs, personalized: no two have the same digest, and none
    has the null one, which stands for an absent digest. *)
Definition blake_sound (Q : list (bytes * bytes)) : Prop :=
  injective_on (fun '(p, d) => BLAKE2b p d) Q /\ Forall (fun '(p, d) => BLAKE2b p d <> 0) Q.

#[export] Instance blake_sound_dec Q : Decision (blake_sound Q).
Proof. apply and_dec; [apply _|]. apply Forall_dec. intros [p d]. apply _. Defined.

Lemma blake_ok p d : ok uint256_fmt (BLAKE2b p d).
Proof. apply (BLAKE2b_bound p d). Qed.

Definition digest_or_null (b : bool) (p d : bytes) : Z := if b then BLAKE2b p d else 0.

Lemma digest_or_null_ok b p d : ok uint256_fmt (digest_or_null b p d).
Proof. destruct b; [apply blake_ok | vm_compute; split; [discriminate | reflexivity]]. Qed.

Section Digests.
Context (Q : list (bytes * bytes)) (Sound : blake_sound Q).

Lemma blake_inj p d d' : (p, d) ∈ Q -> (p, d') ∈ Q -> BLAKE2b p d = BLAKE2b p d' -> d = d'.
Proof. intros Q1 Q2 E. pose proof (injective_on_eq _ _ _ _ (proj1 Sound) Q1 Q2 E). congruence. Qed.

Lemma blake_not_null p d : (p, d) ∈ Q -> BLAKE2b p d <> 0.
Proof. intros Q1. exact (proj1 (Forall_forall _ _) (proj2 Sound) (p, d) Q1). Qed.

(** The digest of a list determines the list, also where the digest of an
    empty list is null. *)
Lemma list_digest_inj {A} (f : Formatter A) `{!Lawful f} p (l k : list A) :
  (forall a, Ser f a <> []) -> Forall (ok f) l -> Forall (ok f) k ->
  (p, concat (map (Ser f) l)) ∈ Q -> (p, concat (map (Ser f) k)) ∈ Q ->
  BLAKE2b p (concat (map (Ser f) l)) = BLAKE2b p (concat (map (Ser f) k)) -> l = k.
Proof. intros Hne Hl Hk Q1 Q2 E. apply blake_inj in E; [|done|done]. by apply concat_ser_inj in E. Qed.

Lemma list_digest_or_null_inj {A} (f : Formatter A) `{!Lawful f} p (l k : list A) :
  (forall a, Ser f a <> []) -> Forall (ok f) l -> Forall (ok f) k ->
  (l <> [] -> (p, concat (map (Ser f) l)) ∈ Q) -> (k <> [] -> (p, concat (map (Ser f) k)) ∈ Q) ->
  digest_or_null (negb (bool_decide (l = []))) p (concat (map (Ser f) l)) =
  digest_or_null (negb (bool_decide (k = []))) p (concat (map (Ser f) k)) -> l = k.
Proof.
  intros Hne Hl Hk Q1 Q2. case_bool_decide as El; case_bool_decide as Ek; cbn [negb digest_or_null]; intros E.
  - congruence.
  - symmetry in E. by apply blake_not_null in E; [|apply Q2].
  - by apply blake_not_null in E; [|apply Q1].
  - apply (list_digest_inj f p); auto.
Qed.

End Digests.

(** ** The preimage *)

(** Version, type, and the digests of prevouts, sequences and outputs. *)
Definition head_fmt := int16_fmt ⊕ int16_fmt ⊕ uint256_fmt ⊕ uint256_fmt ⊕ uint256_fmt.
Definition shielded_fmt := uint256_fmt ⊕ uint256_fmt ⊕ int64_fmt.
Definition input_fmt := COutPoint_fmt ⊕ blob_fmt ⊕ int64_fmt ⊕ uint32_fmt.

(** The signed part of a spend description. *)
Definition spend_fmt := uint256_fmt ⊕ uint256_fmt ⊕ uint256_fmt ⊕ uint256_fmt ⊕ array_fmt 192.
Definition spend_part (d : SpendDescription) : Z * (Z * (Z * (Z * bytes))) :=
  (sd_cv d, (sd_anchor d, (sd_nullifier d, (sd_rk d, sd_zkproof d)))).

Definition spends (tx : CTransaction) : list SpendDescription :=
  match sapData tx with Some d => vShieldedSpend d | None => [] end.
Definition outputs (tx : CTransaction) : list OutputDescription :=
  match sapData tx with Some d => vShieldedOutput d | None => [] end.
Definition has_shielded (tx : CTransaction) : bool :=
  negb (bool_decide (spends tx = [])) || negb (bool_decide (outputs tx = [])).

Definition head (tx : CTransaction) : Z * (Z * (Z * (Z * Z))) :=
  (tx_nVersion tx, (nType tx, (GetPrevoutHash tx, (GetSequenceHash tx, GetOutputsHash tx)))).

Definition shielded (tx : CTransaction) : Z * (Z * Z) :=
  (digest_or_null (negb (bool_decide (spends tx = []))) SHIELDED_SPENDS_HASH_PERSONALIZATION
     (concat (map (fun d => Ser spend_fmt (spend_part d)) (spends tx))),
   (digest_or_null (negb (bool_decide (outputs tx = []))) SHIELDED_OUTPUTS_HASH_PERSONALIZATION
     (concat (map (Ser OutputDescription_fmt) (outputs tx))),
    tx_valueBalance tx)).

Definition payload (tx : CTransaction) : bytes :=
  if IsSpecialTx tx then Ser blob_fmt (default [] (extraPayload tx)) else [].

(** What is hashed under the signature hash of an input: the digests of the
    parts, and the preimage made of them. *)
Definition preimage (code : CScript) (tx : CTransaction) (nIn amount : Z) : bytes :=
  default [] (SaplingSignaturePreimage code tx nIn SIGHASH_ALL amount None).

Definition sighash_inputs (code : CScript) (tx : CTransaction) (nIn amount : Z) : list (bytes * bytes) :=
  [(PREVOUTS_HASH_PERSONALIZATION, concat (map (fun i => Ser COutPoint_fmt (prevout i)) (vin tx)));
   (SEQUENCE_HASH_PERSONALIZATION, concat (map (fun i => Ser uint32_fmt (nSequence i)) (vin tx)));
   (OUTPUTS_HASH_PERSONALIZATION, concat (map (Ser CTxOut_fmt) (vout tx)));
   (sighash_personalization, preimage code tx nIn amount)] ++
  (if bool_decide (spends tx = []) then []
   else [(SHIELDED_SPENDS_HASH_PERSONALIZATION, concat (map (fun d => Ser spend_fmt (spend_part d)) (spends tx)))]) ++
  (if bool_decide (outputs tx = []) then []
   else [(SHIELDED_OUTPUTS_HASH_PERSONALIZATION, concat (map (Ser OutputDescription_fmt) (outputs tx)))]).

Lemma preimage_all code tx nIn amount txin :
  nIn < NOT_AN_INPUT -> vin tx !! Z.to_nat nIn = Some txin ->
  SaplingSignaturePreimage code tx nIn SIGHASH_ALL amount None =
    Some (Ser head_fmt (head tx) ++ (if has_shielded tx then Ser shielded_fmt (shielded tx) else [])
          ++ Ser input_fmt (prevout txin, (code, (amount, nSequence txin)))
          ++ payload tx ++ Ser uint32_fmt (nLockTime tx) ++ Ser int32_fmt SIGHASH_ALL).
Proof.
  intros Hn Hin. unfold SaplingSignaturePreimage. cbn zeta.
  change (has_flag SIGHASH_ALL SIGHASH_ANYONECANPAY) with false.
  change (Z.land SIGHASH_ALL 0x1f =? SIGHASH_SINGLE) with false. change (Z.land SIGHASH_ALL 0x1f =? SIGHASH_NONE) with false.
  cbn [negb andb cached]. rewrite (proj2 (Z.eqb_neq nIn NOT_AN_INPUT)), Hin by lia.
  unfold payload, has_shielded, shielded, spends, outputs, GetShieldedSpendsHash, GetShieldedOutputsHash.
  assert (Hp : (if IsSpecialTx tx then Ser blob_fmt <$> extraPayload tx else Some []) =
               Some (if IsSpecialTx tx then Ser blob_fmt (default [] (extraPayload tx)) else [])).
  { destruct (IsSpecialTx tx) eqn:E; [|done]. unfold IsSpecialTx, hasExtraPayload in E.
    destruct (extraPayload tx); [done|]. by rewrite ?andb_false_r in E. }
  rewrite Hp. destruct (sapData tx) as [d|]; cbn [mbind option_bind];
    [destruct (bool_decide (vShieldedSpend d = [])), (bool_decide (vShieldedOutput d = []))|];
    cbn [negb orb digest_or_null]; unfold head_fmt, shielded_fmt, input_fmt, head; cbn [Ser pair_fmt];
    by rewrite <- ?app_assoc.
Qed.

(** What the signer of an input commits to: the whole transaction but the
    input scripts and spend authorisations, and the script code and amount of
    the input itself. *)
Record committed (code1 code2 : CScript) (tx1 tx2 : CTransaction) (n1 n2 a1 a2 : Z) : Prop := {
  com_nVersion : tx_nVersion tx1 = tx_nVersion tx2;
  com_nType : nType tx1 = nType tx2;
  com_prevouts : prevout <$> vin tx1 = prevout <$> vin tx2;
  com_sequences : nSequence <$> vin tx1 = nSequence <$> vin tx2;
  com_vout : vout tx1 = vout tx2;
  com_spends : spend_part <$> spends tx1 = spend_part <$> spends tx2;
  com_outputs : outputs tx1 = outputs tx2;
  com_balance : has_shielded tx1 = true -> tx_valueBalance tx1 = tx_valueBalance tx2;
  com_payload : payload tx1 = payload tx2;
  com_nLockTime : nLockTime tx1 = nLockTime tx2;
  com_input : prevout <$> vin tx1 !! Z.to_nat n1 = prevout <$> vin tx2 !! Z.to_nat n2;
  com_code : code1 = code2;
  com_amount : a1 = a2
}.

Lemma tx_ok_parts tx :
  tx_ok tx -> isSaplingVersion tx = true ->
  ok head_fmt (head tx) /\ ok shielded_fmt (shielded tx) /\ ok uint32_fmt (nLockTime tx) /\
  size (vin tx) <= MAX_SIZE /\
  Forall (ok COutPoint_fmt) (prevout <$> vin tx) /\ Forall (ok uint32_fmt) (nSequence <$> vin tx) /\
  Forall (ok CTxOut_fmt) (vout tx) /\ Forall (ok spend_fmt) (spend_part <$> spends tx) /\
  Forall (ok OutputDescription_fmt) (outputs tx).
Proof.
  intros (Hv & Ht & [Hisz Hi] & [_ Ho] & Hl & Hs & _) Hsap. rewrite Hsap in Hs. cbn [ok OptionalFormatter sapData_fmt] in Hs.
  assert (Hd : Forall (ok spend_fmt) (spend_part <$> spends tx) /\ Forall (ok OutputDescription_fmt) (outputs tx)
               /\ ok int64_fmt (tx_valueBalance tx)).
  { unfold spends, outputs, tx_valueBalance. unfold sapData_fmt in Hs. cbn [ok OptionalFormatter] in Hs.
    destruct (sapData tx) as [d|]; [|split_and!; [constructor | constructor | vm_compute; split; [discriminate | reflexivity]]].
    destruct Hs as [(Hvb & [_ Hsp] & [_ Hop] & _) _]. split_and!; [|done|done].
    apply Forall_fmap. eapply Forall_impl; [exact Hsp|]. intros x [Hx _]. cbn in Hx |- *. tauto. }
  destruct Hd as (Hsp & Hop & Hvb).
  assert (ok head_fmt (head tx)) by (unfold head_fmt, head; cbn [ok pair_fmt]; split_and!; (done || apply blake_ok)).
  assert (ok shielded_fmt (shielded tx)) by
    (unfold shielded_fmt, shielded; cbn [ok pair_fmt]; split_and!; (done || apply digest_or_null_ok)).
  split_and!; try done.
  - apply Forall_fmap. eapply Forall_impl; [exact Hi|]. intros x [Hx _]. apply Hx.
  - apply Forall_fmap. eapply Forall_impl; [exact Hi|]. intros x [Hx _]. apply Hx.
Qed.

Lemma SignatureHash_preimage code tx nIn amount h :
  0 <= nIn < size (vin tx) -> size (vin tx) <= MAX_SIZE ->
  SignatureHash code tx nIn SIGHASH_ALL amount SIGVERSION_SAPLING None = EvalOk h ->
  exists txin, vin tx !! Z.to_nat nIn = Some txin /\ h = BLAKE2b sighash_personalization (preimage code tx nIn amount) /\
    preimage code tx nIn amount =
          Ser head_fmt (head tx) ++ (if has_shielded tx then Ser shielded_fmt (shielded tx) else [])
           ++ Ser input_fmt (prevout txin, (code, (amount, nSequence txin)))
           ++ payload tx ++ Ser uint32_fmt (nLockTime tx) ++ Ser int32_fmt SIGHASH_ALL.
Proof.
  intros Hin Hsz. destruct (lookup_in_range (vin tx) nIn Hin) as [txin Hl]. unfold SignatureHash, preimage.
  rewrite (proj2 (Z.leb_gt _ _)) by lia. cbn [andb]. unfold MAX_SIZE in Hsz.
  rewrite (preimage_all _ _ _ _ txin) by (unfold NOT_AN_INPUT; (done || lia)). cbn [asserted mbind Eval_bind default from_option id].
  intros [= <-]. by exists txin.
Qed.

(** The inputs of BLAKE2b that two signature hashes share. *)
Record inputs_in (Q : list (bytes * bytes)) (tx : CTransaction) : Prop := {
  in_prevouts : (PREVOUTS_HASH_PERSONALIZATION, concat (map (fun i => Ser COutPoint_fmt (prevout i)) (vin tx))) ∈ Q;
  in_sequences : (SEQUENCE_HASH_PERSONALIZATION, concat (map (fun i => Ser uint32_fmt (nSequence i)) (vin tx))) ∈ Q;
  in_vout : (OUTPUTS_HASH_PERSONALIZATION, concat (map (Ser CTxOut_fmt) (vout tx))) ∈ Q;
  in_spends : spends tx <> [] -> (SHIELDED_SPENDS_HASH_PERSONALIZATION, concat (map (fun d => Ser spend_fmt (spend_part d)) (spends tx))) ∈ Q;
  in_outputs : outputs tx <> [] -> (SHIELDED_OUTPUTS_HASH_PERSONALIZATION, concat (map (Ser OutputDescription_fmt) (outputs tx))) ∈ Q
}.

Lemma sighash_inputs_in Q code tx nIn amount : sighash_inputs code tx nIn amount ⊆ Q ->
  inputs_in Q tx /\ (sighash_personalization, preimage code tx nIn amount) ∈ Q.
Proof.
  intros S. unfold sighash_inputs in S.
  split; [constructor|]; [| | |intros Hne|intros Hne|]; apply S, elem_of_app.
  - left. apply list_elem_of_here.
  - left. apply list_elem_of_further, list_elem_of_here.
  - left. apply list_elem_of_further, list_elem_of_further, list_elem_of_here.
  - right. apply elem_of_app. left. rewrite bool_decide_false by done. by apply list_elem_of_singleton.
  - right. apply elem_of_app. right. rewrite bool_decide_false by done. by apply list_elem_of_singleton.
  - left. apply list_elem_of_further, list_elem_of_further, list_elem_of_further, list_elem_of_here.
Qed.

Lemma shielded_inj Q tx1 tx2 : blake_sound Q -> inputs_in Q tx1 -> inputs_in Q tx2 ->
  Forall (ok spend_fmt) (spend_part <$> spends tx1) -> Forall (ok spend_fmt) (spend_part <$> spends tx2) ->
  Forall (ok OutputDescription_fmt) (outputs tx1) -> Forall (ok OutputDescription_fmt) (outputs tx2) ->
  shielded tx1 = shielded tx2 ->
  spend_part <$> spends tx1 = spend_part <$> spends tx2 /\ outputs tx1 = outputs tx2 /\
  tx_valueBalance tx1 = tx_valueBalance tx2.
Proof.
  intros Sd I1 I2 Hs1 Hs2 Ho1 Ho2 E. injection E as Es Eo Eb. rewrite <- !(map_map spend_part (Ser spend_fmt)) in Es.
  assert (Hnil : forall tx, bool_decide (spends tx = []) = bool_decide (spend_part <$> spends tx = [])).
  { intros tx. apply bool_decide_ext. split; [by intros -> | by intros ?%fmap_nil_inv]. }
  assert (Hin : forall tx, inputs_in Q tx -> spend_part <$> spends tx <> [] ->
            (SHIELDED_SPENDS_HASH_PERSONALIZATION, concat (map (Ser spend_fmt) (spend_part <$> spends tx))) ∈ Q).
  { intros tx I Hne. pose proof (in_spends _ _ I) as X. rewrite <- (map_map spend_part (Ser spend_fmt)) in X. apply X. intros E0. apply Hne. by rewrite E0. }
  rewrite !Hnil in Es. apply (list_digest_or_null_inj Q Sd spend_fmt) in Es; [|by intros [? ?]|done|done|by apply Hin|by apply Hin].
  apply (list_digest_or_null_inj Q Sd OutputDescription_fmt) in Eo; [done|done|done|done|apply I1|apply I2].
Qed.

Lemma no_shielded tx : has_shielded tx = false -> spends tx = [] /\ outputs tx = [].
Proof. unfold has_shielded. intros Hn. by bool_to_prop. Qed.

Lemma preimage_inj Q code1 code2 tx1 tx2 n1 n2 a1 a2 i1 i2 :
  blake_sound Q -> inputs_in Q tx1 -> inputs_in Q tx2 ->
  tx_ok tx1 -> tx_ok tx2 -> isSaplingVersion tx1 = true -> isSaplingVersion tx2 = true ->
  ok input_fmt (prevout i1, (code1, (a1, nSequence i1))) -> ok input_fmt (prevout i2, (code2, (a2, nSequence i2))) ->
  vin tx1 !! Z.to_nat n1 = Some i1 -> vin tx2 !! Z.to_nat n2 = Some i2 ->
  has_shielded tx1 = has_shielded tx2 ->
  Ser head_fmt (head tx1) ++ (if has_shielded tx1 then Ser shielded_fmt (shielded tx1) else [])
    ++ Ser input_fmt (prevout i1, (code1, (a1, nSequence i1)))
    ++ payload tx1 ++ Ser uint32_fmt (nLockTime tx1) ++ Ser int32_fmt SIGHASH_ALL =
  Ser head_fmt (head tx2) ++ (if has_shielded tx2 then Ser shielded_fmt (shielded tx2) else [])
    ++ Ser input_fmt (prevout i2, (code2, (a2, nSequence i2)))
    ++ payload tx2 ++ Ser uint32_fmt (nLockTime tx2) ++ Ser int32_fmt SIGHASH_ALL ->
  committed code1 code2 tx1 tx2 n1 n2 a1 a2.
Proof.
  intros Sd In1 In2 Hok1 Hok2 Hv1 Hv2 Hi1 Hi2 Hl1 Hl2 Hsh E.
  destruct (tx_ok_parts _ Hok1 Hv1) as (Hh1 & Hs1 & Hlk1 & _ & Hp1 & Hq1 & Ho1 & Hsp1 & Hop1).
  destruct (tx_ok_parts _ Hok2 Hv2) as (Hh2 & Hs2 & Hlk2 & _ & Hp2 & Hq2 & Ho2 & Hsp2 & Hop2).
  pose proof In1 as [P1 S1 V1 _ _]. pose proof In2 as [P2 S2 V2 _ _].
  apply (ser_app_inj head_fmt) in E as [Eh E]; [|done|done]. injection Eh as Ev Et Ep Eq Eo.
  rewrite <- Hsh in E.
  assert (Hmid : (has_shielded tx1 = true -> shielded tx1 = shielded tx2) /\
    Ser input_fmt (prevout i1, (code1, (a1, nSequence i1))) ++ payload tx1 ++ Ser uint32_fmt (nLockTime tx1) ++ Ser int32_fmt SIGHASH_ALL =
    Ser input_fmt (prevout i2, (code2, (a2, nSequence i2))) ++ payload tx2 ++ Ser uint32_fmt (nLockTime tx2) ++ Ser int32_fmt SIGHASH_ALL).
  { destruct (has_shielded tx1); [|by split]. apply (ser_app_inj shielded_fmt) in E as [Es E]; [by split | done | done]. }
  destruct Hmid as [Es E']. apply (ser_app_inj input_fmt) in E' as [Ei E']; [|done|done]. injection Ei as Epo Eco Ea _.
  apply app_inj_2 in E' as [Epay El]; [|by cbn [Ser uint32_fmt int32_fmt uint_fmt int_fmt]; rewrite !length_app, !length_le_bytes].
  apply (ser_app_inj uint32_fmt) in El as [El _]; [|done|done].
  unfold GetOutputsHash in Eo. apply (list_digest_inj Q Sd CTxOut_fmt) in Eo; [|done..].
  unfold GetPrevoutHash in Ep. rewrite <- !(map_map prevout (Ser COutPoint_fmt)) in Ep. rewrite <- (map_map prevout (Ser COutPoint_fmt)) in P1. rewrite <- (map_map prevout (Ser COutPoint_fmt)) in P2.
  apply (list_digest_inj Q Sd COutPoint_fmt) in Ep; [|done..].
  unfold GetSequenceHash in Eq. rewrite <- !(map_map nSequence (Ser uint32_fmt)) in Eq. rewrite <- (map_map nSequence (Ser uint32_fmt)) in S1. rewrite <- (map_map nSequence (Ser uint32_fmt)) in S2.
  apply (list_digest_inj Q Sd uint32_fmt) in Eq; [|done..].
  assert (Hshield : spend_part <$> spends tx1 = spend_part <$> spends tx2 /\ outputs tx1 = outputs tx2 /\
                     (has_shielded tx1 = true -> tx_valueBalance tx1 = tx_valueBalance tx2)).
  { destruct (has_shielded tx1) eqn:E1.
    - destruct (shielded_inj Q tx1 tx2 Sd In1 In2 Hsp1 Hsp2 Hop1 Hop2 (Es eq_refl)) as (? & ? & ?). done.
    - symmetry in Hsh. apply no_shielded in E1 as [-> ->]. apply no_shielded in Hsh as [-> ->]. done. }
  destruct Hshield as (? & ? & ?). constructor; try done. rewrite Hl1, Hl2. cbn. congruence.
Qed.

End Commitment.

(** ** Properties *)

(** C31. A signature with hash type ALL commits to the transaction.  Two
    Sapling-format transactions, both with shielded parts or both without,
    whose signature hashes agree have the same version, type, spent
    outpoints, sequences, outputs, shielded spends and outputs, value balance,
    payload and lock time, and the same script code, amount and outpoint of
    the signed input, where BLAKE2b has no collision and no null digest among
    the strings hashed for these two signatures.  Input scripts, spend
    authorisations and the binding signature are not committed to. *)
Theorem sighash_commits `{HashSizes} code1 code2 tx1 tx2 n1 n2 a1 a2 h :
  tx_ok tx1 -> tx_ok tx2 -> isSaplingVersion tx1 = true -> isSaplingVersion tx2 = true ->
  0 <= n1 < size (vin tx1) -> 0 <= n2 < size (vin tx2) ->
  size code1 <= MAX_SIZE -> size code2 <= MAX_SIZE -> in_i64 a1 -> in_i64 a2 ->
  has_shielded tx1 = has_shielded tx2 -> blake_sound (sighash_inputs code1 tx1 n1 a1 ++ sighash_inputs code2 tx2 n2 a2) ->
  SignatureHash code1 tx1 n1 SIGHASH_ALL a1 SIGVERSION_SAPLING None = EvalOk h ->
  SignatureHash code2 tx2 n2 SIGHASH_ALL a2 SIGVERSION_SAPLING None = EvalOk h ->
  committed code1 code2 tx1 tx2 n1 n2 a1 a2.
Proof.
  intros Hok1 Hok2 Hv1 Hv2 Hn1 Hn2 Hc1 Hc2 Ha1 Ha2 Hsh Sd H1 H2.
  destruct (tx_ok_parts _ Hok1 Hv1) as (_ & _ & _ & Hsz1 & Hp1 & Hq1 & _).
  destruct (tx_ok_parts _ Hok2 Hv2) as (_ & _ & _ & Hsz2 & Hp2 & Hq2 & _).
  set (Q := sighash_inputs code1 tx1 n1 a1 ++ sighash_inputs code2 tx2 n2 a2) in Sd.
  destruct (sighash_inputs_in Q code1 tx1 n1 a1) as [In1 P1]; [intros q; unfold Q; rewrite elem_of_app; by left|].
  destruct (sighash_inputs_in Q code2 tx2 n2 a2) as [In2 P2]; [intros q; unfold Q; rewrite elem_of_app; by right|].
  apply SignatureHash_preimage in H1 as (i1 & Hl1 & -> & E1); [|done|done].
  apply SignatureHash_preimage in H2 as (i2 & Hl2 & Hh & E2); [|done|done].
  apply (blake_inj Q Sd) in Hh; [|done|done]. rewrite E1, E2 in Hh.
  assert (Hin : forall tx k i a c, Forall (ok COutPoint_fmt) (prevout <$> vin tx) -> Forall (ok uint32_fmt) (nSequence <$> vin tx) ->
            vin tx !! k = Some i -> size c <= MAX_SIZE -> in_i64 a -> ok input_fmt (prevout i, (c, (a, nSequence i)))).
  { intros tx k i a c Hp Hq Hl Hc Ha. unfold input_fmt. cbn [ok pair_fmt].
    split_and!; [apply (Forall_lookup_1 _ _ k _ Hp); by rewrite list_lookup_fmap, Hl | done | by apply int64_ok | apply (Forall_lookup_1 _ _ k _ Hq); by rewrite list_lookup_fmap, Hl]. }
  eapply (preimage_inj Q); try eassumption; [by apply (Hin tx1 (Z.to_nat n1)) | by apply (Hin tx2 (Z.to_nat n2))].
Qed.

Lemma sample_tx_ok : tx_ok sample_tx.
Proof. concrete_ok. Qed.

Lemma sighash_commits_witness :
  exists h, @SignatureHash checksum_hashes [OP_1 : Z] sample_tx 0 SIGHASH_ALL 700 SIGVERSION_SAPLING None = EvalOk h /\
  @committed [OP_1 : Z] [OP_1 : Z] sample_tx sample_tx 0 0 700 700.
Proof.
  assert (E : exists h, @SignatureHash checksum_hashes [OP_1 : Z] sample_tx 0 SIGHASH_ALL 700 SIGVERSION_SAPLING None = EvalOk h)
    by (eexists; vm_compute; reflexivity).
  assert (Sd : @blake_sound checksum_hashes (@sighash_inputs checksum_hashes [OP_1 : Z] sample_tx 0 700 ++ @sighash_inputs checksum_hashes [OP_1 : Z] sample_tx 0 700))
    by (refine (bool_decide_unpack _ _); vm_compute; exact I).
  destruct E as [h E]. exists h. split; [exact E|].
  exact (@sighash_commits checksum_hashes checksum_sizes [OP_1 : Z] [OP_1 : Z] sample_tx sample_tx 0 0 700 700 h
    sample_tx_ok sample_tx_ok eq_refl eq_refl ltac:(vm_compute; split; congruence) ltac:(vm_compute; split; congruence)
    ltac:(vm_compute; congruence) ltac:(vm_compute; congruence)
    ltac:(vm_compute; split; congruence) ltac:(vm_compute; split; congruence) eq_refl Sd E E).
Defined.
