(* ===== verification/Stake.v ===== *)
(** * Proof of stake

    kernel.{h,cpp}, stakeinput.{h,cpp}, legacy/stakemodifier.cpp, the stake
    modifiers of chain.cpp and [AddToBlockIndex] of validation.cpp: how a block
    index is made, what a stake kernel commits to, and when it meets the target.
    A null pointer that is followed, an index out of range and an exception
    that nothing catches are [None]. *)

From S2P Require Import Prelude Params Crypto Serialize Script Standard Transaction ArithUint256 Chain Pow Coins Interpreter.

(** ** Stake modifiers of a block index (chain.cpp) *)

Section StakeModifier.
Context `{HashFunctions} (p : CChainParams).

(** [uint256::GetCheapHash]: the first eight bytes. *)
Definition GetCheapHash (h : Z) : Z := u64 h.

Definition GetStakeEntropyBit (i : CBlockIndex) : Z := Z.land (GetCheapHash (phashBlock i)) 1.

Definition GeneratedStakeModifier (i : CBlockIndex) : bool := negb (Z.land (nFlags i) BLOCK_STAKE_MODIFIER =? 0).

(** The flags after the call; [None] is a returned [false]. *)
Definition SetStakeEntropyBit (flags nEntropyBit : Z) : option Z :=
  if 1 <? nEntropyBit then None
  else Some (Z.lor flags (if negb (nEntropyBit =? 0) then BLOCK_STAKE_ENTROPY else 0)).

(** The modifier's bytes and the flags after [SetStakeModifier(uint64_t, bool)]. *)
Definition SetStakeModifierV1 (nStakeModifier : Z) (fGeneratedStakeModifier : bool) (flags : Z) : bytes * Z :=
  (le_bytes 8 nStakeModifier, if fGeneratedStakeModifier then Z.lor flags BLOCK_STAKE_MODIFIER else flags).

(** [SetStakeModifier(const uint256&)]. *)
Definition SetStakeModifierV2 (nStakeModifier : Z) : bytes := le_bytes 32 nStakeModifier.

(** The [memcpy] is of [vStakeModifier.size()] bytes into an integer of eight. *)
Definition GetStakeModifierV1 (i : CBlockIndex) : option Z :=
  if bool_decide (vStakeModifier i = []) then Some 0
  else
    v2 ← NetworkUpgradeActive (bi_nHeight i) (consensus p) UPGRADE_V3_4;
    if (v2 : bool) then Some 0 else assert (size (vStakeModifier i) =? 8) (Some (le_value (vStakeModifier i))).

Definition GetStakeModifierV2 (i : CBlockIndex) : option Z :=
  if bool_decide (vStakeModifier i = []) then Some 0
  else
    v2 ← NetworkUpgradeActive (bi_nHeight i) (consensus p) UPGRADE_V3_4;
    if negb v2 then Some 0 else assert (size (vStakeModifier i) <=? 32) (Some (le_value (vStakeModifier i))).

(** *** legacy/stakemodifier.cpp *)

Definition MODIFIER_INTERVAL : Z := 60.
Definition MODIFIER_INTERVAL_RATIO : Z := 3.
Definition OLD_MODIFIER_INTERVAL : Z := 2087.

Definition GetStakeModifierSelectionIntervalSection (nSection : Z) : option Z :=
  assert ((0 <=? nSection) && (nSection <? 64))
    (Some (MODIFIER_INTERVAL * 63 / (63 + (63 - nSection) * (MODIFIER_INTERVAL_RATIO - 1)))).

(** The hash a candidate competes with. *)
Definition selection_hash (fModifierV2 : bool) (i : CBlockIndex) (nStakeModifierPrev : Z) : Z :=
  let hashProof := if fModifierV2 then phashBlock i
                   else if bi_IsProofOfStake i then 0 else phashBlock i in
  let hashSelection := Hash (Ser uint256_fmt hashProof ++ Ser uint64_fmt nStakeModifierPrev) in
  if bi_IsProofOfStake i then Z.shiftr hashSelection 32 else hashSelection.

(** The loop of [SelectBlockFromCandidates]; [best] is the selected block and
    its hash, [fModifierV2] is set on the first run.  [Some None] is a returned
    [false]. *)
Fixpoint Select_loop (m : BlockMap) (l : list (Z * Z)) (selected : list Z) (nSelectionIntervalStop nStakeModifierPrev : Z)
    (fModifierV2 : option bool) (best : option (CBlockIndex * Z)) : option (option CBlockIndex) :=
  match l with
  | [] => Some (option_map fst best)
  | (_, h) :: l =>
      match m !! h with
      | None => Some None
      | Some i =>
          if bool_decide (is_Some best) && (nSelectionIntervalStop <? bi_nTime i) then Some (option_map fst best)
          else
            v2 ← (match fModifierV2 with
                  | Some b => Some b
                  | None => NetworkUpgradeActive (bi_nHeight i) (consensus p) UPGRADE_POS_V2
                  end);
            if bool_decide (phashBlock i ∈ selected)
            then Select_loop m l selected nSelectionIntervalStop nStakeModifierPrev (Some v2) best
            else
              let hashSelection := selection_hash v2 i nStakeModifierPrev in
              let best' := match best with
                           | Some (_, hashBest) => if hashSelection <? hashBest then Some (i, hashSelection) else best
                           | None => Some (i, hashSelection)
                           end in
              Select_loop m l selected nSelectionIntervalStop nStakeModifierPrev (Some v2) best'
      end
  end.

Definition SelectBlockFromCandidates (m : BlockMap) (vSortedByTimestamp : list (Z * Z)) (mapSelectedBlocks : list Z)
    (nSelectionIntervalStop nStakeModifierPrev : Z) : option (option CBlockIndex) :=
  Select_loop m vSortedByTimestamp mapSelectedBlocks nSelectionIntervalStop nStakeModifierPrev None None.

Definition sortedByTimestamp (a b : Z * Z) : bool :=
  if fst a =? fst b then snd a <? snd b else fst a <? fst b.

(** [std::sort] under [sortedByTimestamp]. *)
Fixpoint insert_candidate (x : Z * Z) (l : list (Z * Z)) : list (Z * Z) :=
  match l with [] => [x] | y :: l => if sortedByTimestamp y x then y :: insert_candidate x l else x :: y :: l end.
Definition sort_candidates (l : list (Z * Z)) : list (Z * Z) := foldr insert_candidate [] l.

(** [while (p && p->pprev && !p->GeneratedStakeModifier()) p = p->pprev]. *)
Fixpoint last_generated (fuel : nat) (m : BlockMap) (i : CBlockIndex) : CBlockIndex :=
  match fuel with
  | O => i
  | S fuel =>
      match parent m i with
      | Some q => if GeneratedStakeModifier i then i else last_generated fuel m q
      | None => i
      end
  end.

(** The candidates back to [nSelectionIntervalStart], the last block first. *)
Fixpoint candidates (fuel : nat) (m : BlockMap) (i : option CBlockIndex) (nSelectionIntervalStart : Z) : list (Z * Z) :=
  match fuel, i with
  | S fuel, Some i =>
      if nSelectionIntervalStart <=? bi_nTime i
      then (bi_nTime i, phashBlock i) :: candidates fuel m (parent m i) nSelectionIntervalStart
      else []
  | _, _ => []
  end.

(** The rounds from [nRound] on; [Some None] is a round without a candidate. *)
Fixpoint select_rounds (rounds : nat) (m : BlockMap) (vSorted : list (Z * Z)) (nStakeModifier nRound nSelectionIntervalStop : Z)
    (selected : list Z) (nStakeModifierNew : Z) : option (option Z) :=
  match rounds with
  | O => Some (Some nStakeModifierNew)
  | S rounds =>
      section ← GetStakeModifierSelectionIntervalSection nRound;
      let stop := nSelectionIntervalStop + section in
      r ← SelectBlockFromCandidates m vSorted selected stop nStakeModifier;
      match r with
      | None => Some None
      | Some i =>
          select_rounds rounds m vSorted nStakeModifier (nRound + 1) stop (phashBlock i :: selected)
            (Z.lor nStakeModifierNew (u64 (Z.shiftl (GetStakeEntropyBit i) nRound)))
      end
  end.

(** The returned flag, [nStakeModifier] and [fGeneratedStakeModifier].
    [literal] is the value of [uint64_t("stakemodifier")], the address of the
    string literal in the running process. *)
Definition ComputeNextStakeModifier (literal : Z) (m : BlockMap) (pindexPrev : option CBlockIndex)
  : option (bool * Z * bool) :=
  match pindexPrev with
  | None => Some (true, 0, true)
  | Some prev =>
      if bi_nHeight prev =? 0 then Some (true, u64 literal, true)
      else
        let q := last_generated (S (Z.to_nat (bi_nHeight prev))) m prev in
        if negb (GeneratedStakeModifier q) then Some (false, 0, false)
        else
          nStakeModifier ← GetStakeModifierV1 q;
          if bi_nTime prev / MODIFIER_INTERVAL <=? bi_nTime q / MODIFIER_INTERVAL then Some (true, nStakeModifier, false)
          else
            let start := bi_nTime prev / MODIFIER_INTERVAL * MODIFIER_INTERVAL - OLD_MODIFIER_INTERVAL in
            let vSorted := sort_candidates (reverse (candidates (S (Z.to_nat (bi_nHeight prev))) m (Some prev) start)) in
            r ← select_rounds (Nat.min 64 (length vSorted)) m vSorted nStakeModifier 0 start [] 0;
            Some (match r with
                  | None => (false, nStakeModifier, false)
                  | Some nStakeModifierNew => (true, nStakeModifierNew, true)
                  end)
  end.

(** [SetNewStakeModifier()] on a new index: the modifier and the flags. *)
Definition SetNewStakeModifierV1 (literal : Z) (m : BlockMap) (i : CBlockIndex) : option (bytes * Z) :=
  let flags := default (nFlags i) (SetStakeEntropyBit (nFlags i) (GetStakeEntropyBit i)) in
  '(_, nStakeModifier, fGenerated) ← ComputeNextStakeModifier literal m (parent m i);
  Some (SetStakeModifierV1 nStakeModifier fGenerated flags).

(** [SetNewStakeModifier(prevoutId)]; nothing is set before the upgrade, and a
    null [pprev] throws. *)
Definition SetNewStakeModifierV2 (m : BlockMap) (i : CBlockIndex) (prevoutId : Z) : option bytes :=
  v2 ← NetworkUpgradeActive (bi_nHeight i) (consensus p) UPGRADE_V3_4;
  if negb v2 then Some (vStakeModifier i)
  else
    prev ← parent m i;
    prevModifier ← GetStakeModifierV2 prev;
    Some (SetStakeModifierV2 (Hash (Ser uint256_fmt prevoutId ++ Ser uint256_fmt prevModifier))).

(** *** The modifier of a kernel before the upgrade *)

(** [chainActive[h]] as an index. *)
Definition active_at (m : BlockMap) (v : CChain) (h : Z) : option CBlockIndex := k ← chain_at v h; m !! k.

(** The loop of [GetOldModifier] from [pindexNext]; it climbs the active chain. *)
Fixpoint GetOldModifier_loop (fuel : nat) (m : BlockMap) (v : CChain) (pindexNext : option CBlockIndex)
    (nStakeModifierTime stop : Z) : option (option Z) :=
  match fuel with
  | O => None
  | S fuel =>
      match pindexNext with
      | None => Some None
      | Some i =>
          let t := if GeneratedStakeModifier i then bi_nTime i else nStakeModifierTime in
          if t <? stop then GetOldModifier_loop fuel m v (active_at m v (bi_nHeight i + 1)) t stop
          else nStakeModifier ← GetStakeModifierV1 i; Some (Some nStakeModifier)
      end
  end.

(** [Some None] is a returned [false]. *)
Definition GetOldModifier (m : BlockMap) (v : CChain) (pindexFrom : CBlockIndex) : option (option Z) :=
  GetOldModifier_loop (S (length v)) m v (active_at m v (bi_nHeight pindexFrom + 1)) (bi_nTime pindexFrom)
    (bi_nTime pindexFrom + OLD_MODIFIER_INTERVAL).

End StakeModifier.

(** ** Stake inputs (stakeinput.cpp) *)

(** [CPivStake], the one class that implements [CStakeInput]; its [IsZPIV] is
    [false], so [GetOldStakeModifier] is [GetOldModifier] of its [pindexFrom]. *)
Record CPivStake := { outputFrom : CTxOut; outpointFrom : COutPoint; pindexFrom : CBlockIndex }.

Definition GetUniqueness (s : CPivStake) : bytes :=
  Ser uint32_fmt (op_n (outpointFrom s)) ++ Ser uint256_fmt (op_hash (outpointFrom s)).

Definition GetValue (s : CPivStake) : Z := nValue (outputFrom s).

Definition GetOldStakeModifier (p : CChainParams) (m : BlockMap) (v : CChain) (s : CPivStake) : option (option Z) :=
  GetOldModifier p m v (pindexFrom s).

Definition HasStakeMinAgeOrDepth (p : CChainParams) (nHeight nTime : Z) (i : CBlockIndex) : option bool :=
  zc ← NetworkUpgradeActive (nHeight + 1) (consensus p) UPGRADE_ZC_PUBLIC;
  if (zc : bool) then Params_HasStakeMinAgeOrDepth (consensus p) nHeight nTime (bi_nHeight i) (bi_nTime i)
  else Some true.

(** The global state that validation reads: [mapBlockIndex], [chainActive],
    [pcoinsTip] over its backing view, and [GetTransaction], which looks in the
    mempool, the transaction index and the block files. *)
Record NodeView `{SaplingTree} := {
  mapBlockIndex : BlockMap;
  chainActive : CChain;
  coinsBase : CCoinsView;
  GetTransaction : Z -> option (CTransaction * Z)
}.

Section Stake.
Context `{HashFunctions, Ecdsa, SaplingTree} (p : CChainParams) (g : NodeView).

(** The result and [pcoinsTip] after the lookup; the inner [None] is a returned [nullptr]. *)
Definition NewPivStake (tip : CCoinsViewCache) (txin : CTxIn) (nHeight nTime : Z)
  : option (option CPivStake * CCoinsViewCache) :=
  if TxIn_IsZerocoinSpend txin then Some (None, tip)
  else
    let '(c, tip) := AccessCoin (coinsBase g) tip (prevout txin) in
    if negb (IsSpent c) then
      i ← active_at (mapBlockIndex g) (chainActive g) (coin_nHeight c);
      ok ← HasStakeMinAgeOrDepth p nHeight nTime i;
      Some (if (ok : bool)
            then Some {| outputFrom := coin_out c; outpointFrom := prevout txin; pindexFrom := i |}
            else None, tip)
    else
      match GetTransaction g (op_hash (prevout txin)) with
      | None => Some (None, tip)
      | Some (txPrev, hashBlock) =>
          match mapBlockIndex g !! hashBlock with
          | None => Some (None, tip)
          | Some i =>
              if negb (Contains (chainActive g) i) then Some (None, tip)
              else
                ok ← HasStakeMinAgeOrDepth p nHeight nTime i;
                if negb ok then Some (None, tip)
                else
                  out ← vout txPrev !! Z.to_nat (op_n (prevout txin));
                  Some (Some {| outputFrom := out; outpointFrom := prevout txin; pindexFrom := i |}, tip)
          end
      end.

(** ** The kernel (kernel.cpp) *)

Record CStakeKernel := {
  stakeModifier : bytes;
  nTimeBlockFrom : Z;
  stakeUniqueness : bytes;
  k_nTime : Z;
  k_nBits : Z;
  stakeValue : Z
}.

(** The constructor.  A failed [GetOldStakeModifier] is logged and leaves 0. *)
Definition mkCStakeKernel (pindexPrev : CBlockIndex) (stakeInput : CPivStake) (nBits nTimeTx : Z) : option CStakeKernel :=
  v2 ← NetworkUpgradeActive (bi_nHeight pindexPrev + 1) (consensus p) UPGRADE_V3_4;
  modifier ← (if negb v2 then
                r ← GetOldStakeModifier p (mapBlockIndex g) (chainActive g) stakeInput;
                Some (Ser uint64_fmt (default 0 r))
              else
                x ← GetStakeModifierV2 p pindexPrev; Some (Ser uint256_fmt x));
  Some {| stakeModifier := modifier; nTimeBlockFrom := bi_nTime (pindexFrom stakeInput);
          stakeUniqueness := GetUniqueness stakeInput; k_nTime := nTimeTx; k_nBits := nBits;
          stakeValue := GetValue stakeInput |}.

Definition CStakeKernel_GetHash (k : CStakeKernel) : Z :=
  Hash (stakeModifier k ++ ser_writedata32 (nTimeBlockFrom k) ++ stakeUniqueness k ++ ser_writedata32 (k_nTime k)).

(** [bnTarget *= arith_uint256(stakeValue) / 100], in 256 bits. *)
Definition kernel_target (nBits value : Z) : Z := (compact_value nBits * (u64 value / 100)) mod M256.

Definition CheckKernelHash (k : CStakeKernel) : bool :=
  CStakeKernel_GetHash k <? kernel_target (k_nBits k) (stakeValue k).

Definition GetTimeSlot (nTime : Z) : Z := Z.quot nTime (nTimeSlotLength (consensus p)) * nTimeSlotLength (consensus p).
Definition GetCurrentTimeSlot (GetAdjustedTime : Z) : Z := GetTimeSlot GetAdjustedTime.

(** The result and [nTimeTx], which a null input leaves as it was. *)
Definition Stake (GetAdjustedTime : Z) (pindexPrev : CBlockIndex) (stakeInput : option CPivStake) (nBits nTimeTx : Z)
  : option (bool * Z) :=
  match stakeInput with
  | None => Some (false, nTimeTx)
  | Some s =>
      let nTimeTx := if IsRegTestNet p then GetAdjustedTime else GetCurrentTimeSlot GetAdjustedTime in
      if (nTimeTx <=? bi_nTime pindexPrev) && negb (IsRegTestNet p) then Some (false, nTimeTx)
      else
        k ← mkCStakeKernel pindexPrev s nBits (i32 nTimeTx);
        Some (CheckKernelHash k, nTimeTx)
  end.

(** [block.vtx[i]->vin[0]]. *)
Definition first_input (block : CBlock) (i : nat) : option CTxIn := tx ← vtx block !! i; vin tx !! 0%nat.

Definition LoadStakeInput (tip : CCoinsViewCache) (block : CBlock) (nHeight : Z)
  : option (option CPivStake * CCoinsViewCache) :=
  if negb (IsProofOfStake block) then Some (None, tip)
  else txin ← first_input block 1; NewPivStake tip txin nHeight (nTime block).

Definition MANDATORY_SCRIPT_VERIFY_FLAGS : Z := SCRIPT_VERIFY_P2SH.
Definition STANDARD_SCRIPT_VERIFY_FLAGS : Z :=
  foldl Z.lor MANDATORY_SCRIPT_VERIFY_FLAGS
    [SCRIPT_VERIFY_DERSIG; SCRIPT_VERIFY_STRICTENC; SCRIPT_VERIFY_MINIMALDATA; SCRIPT_VERIFY_NULLDUMMY;
     SCRIPT_VERIFY_DISCOURAGE_UPGRADABLE_NOPS; SCRIPT_VERIFY_CLEANSTACK; SCRIPT_VERIFY_LOW_S; SCRIPT_VERIFY_EXCHANGEADDR].

(** The boolean a call of [VerifyScript] returns. *)
Definition verdict (e : Eval unit) : option bool :=
  match e with EvalOk _ => Some true | EvalError _ => Some false | _ => None end.

(** The result and [pcoinsTip]; the string [strError] is not modelled. *)
Definition CheckProofOfStake (tip : CCoinsViewCache) (block : CBlock) (pindexPrev : CBlockIndex)
  : option (bool * CCoinsViewCache) :=
  '(input, tip) ← LoadStakeInput tip block (bi_nHeight pindexPrev + 1);
  match input with
  | None => Some (false, tip)
  | Some stakeInput =>
      k ← mkCStakeKernel pindexPrev stakeInput (nBits block) (i32 (nTime block));
      if negb (CheckKernelHash k) then Some (false, tip)
      else
        tx ← vtx block !! 1%nat;
        txin ← vin tx !! 0%nat;
        ok ← verdict (VerifyScript (scriptSig txin) (scriptPubKey (outputFrom stakeInput)) STANDARD_SCRIPT_VERIFY_FLAGS
                        (TransactionSignatureChecker tx 0 (nValue (outputFrom stakeInput)) None) (GetRequiredSigVersion tx));
        Some (ok, tip)
  end.

(** The hash, [None] inside when the kernel cannot be initialised. *)
Definition GetStakeKernelHash (tip : CCoinsViewCache) (block : CBlock) (pindexPrev : CBlockIndex)
  : option (option Z * CCoinsViewCache) :=
  '(input, tip) ← LoadStakeInput tip block (bi_nHeight pindexPrev + 1);
  match input with
  | None => Some (None, tip)
  | Some s =>
      k ← mkCStakeKernel pindexPrev s (nBits block) (i32 (nTime block));
      Some (Some (CStakeKernel_GetHash k), tip)
  end.

End Stake.

(** ** AddToBlockIndex (validation.cpp) *)

(** [mapBlockIndex], [pindexBestHeader], [setDirtyBlockIndex] and [mapPrevBlockIndex]. *)
Record BlockTree := {
  bt_map : BlockMap;
  pindexBestHeader : option Z;
  setDirtyBlockIndex : gset Z;
  mapPrevBlockIndex : list (Z * Z)
}.

(** [CBlockIndex(block)], with [phashBlock] set. *)
Definition CBlockIndex_new (hash : Z) (block : CBlock) : CBlockIndex := {|
  phashBlock := hash; pprev := None; pskip := None; bi_nHeight := 0; nChainWork := 0; nTx := 0; nChainTx := 0;
  nStatus := 0; vStakeModifier := []; nFlags := if IsProofOfStake block then BLOCK_PROOF_OF_STAKE else 0;
  nSaplingValue := 0; nChainSaplingValue := None;
  bi_nVersion := nVersion block; bi_hashMerkleRoot := hashMerkleRoot block;
  bi_hashFinalSaplingRoot := hashFinalSaplingRoot block; bi_nTime := nTime block; bi_nBits := nBits block;
  bi_nNonce := nNonce block;
  bi_nAccumulatorCheckpoint := if has_accumulator (nVersion block) then nAccumulatorCheckpoint block else 0;
  nTimeMax := 0
|}.

(** [pprev], [nHeight] and [pskip] set. *)
Definition with_parent (i : CBlockIndex) (prev : Z) (height : Z) (skip : option Z) : CBlockIndex := {|
  phashBlock := phashBlock i; pprev := Some prev; pskip := skip; bi_nHeight := height; nChainWork := nChainWork i;
  nTx := nTx i; nChainTx := nChainTx i; nStatus := nStatus i; vStakeModifier := vStakeModifier i; nFlags := nFlags i;
  nSaplingValue := nSaplingValue i; nChainSaplingValue := nChainSaplingValue i; bi_nVersion := bi_nVersion i;
  bi_hashMerkleRoot := bi_hashMerkleRoot i; bi_hashFinalSaplingRoot := bi_hashFinalSaplingRoot i;
  bi_nTime := bi_nTime i; bi_nBits := bi_nBits i; bi_nNonce := bi_nNonce i;
  bi_nAccumulatorCheckpoint := bi_nAccumulatorCheckpoint i; nTimeMax := nTimeMax i
|}.

(** [vStakeModifier], [nFlags], [nTimeMax], [nChainWork] and [nStatus] set. *)
Definition with_totals (i : CBlockIndex) (modifier : bytes) (flags timeMax work status : Z) : CBlockIndex := {|
  phashBlock := phashBlock i; pprev := pprev i; pskip := pskip i; bi_nHeight := bi_nHeight i; nChainWork := work;
  nTx := nTx i; nChainTx := nChainTx i; nStatus := status; vStakeModifier := modifier; nFlags := flags;
  nSaplingValue := nSaplingValue i; nChainSaplingValue := nChainSaplingValue i; bi_nVersion := bi_nVersion i;
  bi_hashMerkleRoot := bi_hashMerkleRoot i; bi_hashFinalSaplingRoot := bi_hashFinalSaplingRoot i;
  bi_nTime := bi_nTime i; bi_nBits := bi_nBits i; bi_nNonce := bi_nNonce i;
  bi_nAccumulatorCheckpoint := bi_nAccumulatorCheckpoint i; nTimeMax := timeMax
|}.

Section AddToBlockIndex.
Context `{HashFunctions} (p : CChainParams).

Definition set_new_modifier (literal : Z) (m : BlockMap) (block : CBlock) (i : CBlockIndex) : option (bytes * Z) :=
  v34 ← NetworkUpgradeActive (bi_nHeight i) (consensus p) UPGRADE_V3_4;
  if negb v34 then SetNewStakeModifierV1 p literal m i
  else
    txin ← first_input block 1;
    modifier ← SetNewStakeModifierV2 p m i (op_hash (prevout txin));
    Some (modifier, nFlags i).

(** The tree and the index of the block. *)
Definition AddToBlockIndex (literal : Z) (t : BlockTree) (block : CBlock) : option (BlockTree * CBlockIndex) :=
  let hash := CBlockHeader_GetHash block in
  match bt_map t !! hash with
  | Some pindex => Some (t, pindex)
  | None =>
      let new := CBlockIndex_new hash block in
      let m := <[hash := new]> (bt_map t) in
      let prev := m !! hashPrevBlock block in
      '(new, modifier, flags) ←
        (match prev with
         | None => Some (new, vStakeModifier new, nFlags new)
         | Some q =>
             let height := bi_nHeight q + 1 in
             skip ← BuildSkip m q height;
             let new := with_parent new (phashBlock q) height skip in
             '(modifier, flags) ← set_new_modifier literal m block new;
             Some (new, modifier, flags)
         end);
      proof ← GetBlockProof (bi_nBits new);
      let timeMax := match prev with Some q => Z.max (nTimeMax q) (bi_nTime new) | None => bi_nTime new end in
      let work := arith_add (match prev with Some q => nChainWork q | None => 0 end) proof in
      let new := with_totals new modifier flags timeMax work (snd (RaiseValidity (nStatus new) BLOCK_VALID_TREE)) in
      let best := match k ← pindexBestHeader t; bt_map t !! k with
                  | Some b => if nChainWork b <? work then Some hash else pindexBestHeader t
                  | None => Some hash
                  end in
      Some ({| bt_map := <[hash := new]> m;
               pindexBestHeader := best;
               setDirtyBlockIndex := {[hash]} ∪ setDirtyBlockIndex t;
               mapPrevBlockIndex := match prev with
                                    | Some q => mapPrevBlockIndex t ++ [(phashBlock q, hash)]
                                    | None => mapPrevBlockIndex t
                                    end |}, new)
  end.

End AddToBlockIndex.

(** ** The tree grows *)

Lemma parent_mono (m m' : BlockMap) i q : m ⊆ m' -> parent m i = Some q -> parent m' i = Some q.
Proof. unfold parent. intros S. destruct (pprev i); [|done]. cbn. intros L. by eapply lookup_weaken. Qed.

Lemma up_mono (m m' : BlockMap) n : forall i j, m ⊆ m' -> up n m i = Some j -> up n m' i = Some j.
Proof.
  induction n as [|n IH]; intros i j S; [done|]. cbn. destruct (parent m i) as [q|] eqn:E; [|done].
  rewrite (parent_mono _ _ _ _ S E). apply IH, S.
Qed.

Lemma index_wf_mono (m m' : BlockMap) k i : m ⊆ m' -> index_wf m k i -> index_wf m' k i.
Proof.
  intros S (K & N & Hh & R & C). split_and!; try done. intros P. destruct (C P) as [(q & E & Hq) (s & Es & A)].
  split; [exists q; split; [by eapply parent_mono|done]|]. exists s. split; [done|]. by eapply up_mono.
Qed.

Lemma tree_wf_insert (m : BlockMap) k i : tree_wf m -> m !! k = None -> index_wf (<[k := i]> m) k i -> tree_wf (<[k := i]> m).
Proof.
  intros W N I. apply map_Forall_insert; [done|]. split; [done|]. intros j x L.
  eapply index_wf_mono; [by apply insert_subseteq|]. by apply W.
Qed.

Lemma compact_value_not_max nBits : 0 <= nBits -> compact_value nBits <> M256 - 1.
Proof.
  intros N E. assert (O : compact_value nBits mod 2 = 1) by (rewrite E; reflexivity).
  assert (B : 0 <= Z.land nBits 8388607 < 2 ^ 23).
  { change 8388607 with (Z.ones 23). rewrite Z.land_ones by lia. apply Z.mod_pos_bound. lia. }
  unfold compact_value, SetCompact in *. destruct (Z.leb_spec (Z.shiftr nBits 24) 3) as [L|G]; cbn [fst] in *.
  - assert (0 <= Z.shiftr nBits 24) by (apply Z.shiftr_nonneg; lia). revert E. rewrite Z.shiftr_div_pow2 by lia.
    assert (0 < 2 ^ (8 * (3 - Z.shiftr nBits 24))) by lia.
    assert (Z.land nBits 8388607 / 2 ^ (8 * (3 - Z.shiftr nBits 24)) < 2 ^ 23) by (apply Z.div_lt_upper_bound; nia).
    unfold M256. lia.
  - revert O. set (k := 8 * (Z.shiftr nBits 24 - 3)).
    replace (2 ^ k) with (2 ^ (k - 1) * 2) by (rewrite Z.mul_comm, <- Z.pow_succ_r by lia; f_equal; lia).
    rewrite Z.mod_mod_divide by (by exists (2 ^ 255)). rewrite Z.mul_assoc, Z.mod_mul; lia.
Qed.

Lemma GetBlockProof_total nBits : 0 <= nBits -> is_Some (GetBlockProof nBits).
Proof.
  intros N. pose proof (compact_value_range nBits N). pose proof (compact_value_not_max nBits N).
  unfold GetBlockProof, compact_value in *. destruct (SetCompact nBits) as [[t neg] ov]. cbn [fst] in *.
  destruct (_ || _ || _); [done|]. unfold arith_div, arith_add. rewrite (Z.mod_small (t + 1)) by lia.
  rewrite (proj2 (Z.eqb_neq (t + 1) 0)) by lia. done.
Qed.

(** *** What every index satisfies *)

(** The running totals of an index over its parent's. *)
Definition totals_ok (m : BlockMap) (i : CBlockIndex) : Prop :=
  exists w, GetBlockProof (bi_nBits i) = Some w /\
  match parent m i with
  | Some q => nChainWork i = arith_add (nChainWork q) w /\ nTimeMax i = Z.max (nTimeMax q) (bi_nTime i)
  | None => nChainWork i = arith_add 0 w /\ nTimeMax i = bi_nTime i
  end.

(** None for a root; otherwise one of eight bytes before the upgrade, of
    thirty-two from it on. *)
Definition modifier_ok (p : CChainParams) (i : CBlockIndex) : Prop :=
  match pprev i with
  | None => vStakeModifier i = []
  | Some _ => size (vStakeModifier i) = (if upgrade_active (bi_nHeight i) (consensus p) UPGRADE_V3_4 then 32 else 8)
  end.

Lemma modifier_ok_sizes p i : modifier_ok p i ->
  vStakeModifier i = [] \/ size (vStakeModifier i) = (if upgrade_active (bi_nHeight i) (consensus p) UPGRADE_V3_4 then 32 else 8).
Proof. unfold modifier_ok. destruct (pprev i); auto. Qed.

Record tree_inv (p : CChainParams) (t : BlockTree) : Prop := {
  inv_wf : tree_wf (bt_map t);
  inv_totals : map_Forall (fun _ => totals_ok (bt_map t)) (bt_map t);
  inv_modifiers : map_Forall (fun _ => modifier_ok p) (bt_map t);
  inv_best : forall k i, bt_map t !! k = Some i ->
    exists kb b, pindexBestHeader t = Some kb /\ bt_map t !! kb = Some b /\ nChainWork i <= nChainWork b;
  inv_children : forall kp k, (kp, k) ∈ mapPrevBlockIndex t <-> exists i, bt_map t !! k = Some i /\ pprev i = Some kp
}.

Section Growth.
Context `{HashFunctions} (p : CChainParams).

(** A new index is as the constructor leaves it, or below a known block. *)
Definition extends (t : BlockTree) (block : CBlock) (new : CBlockIndex) : Prop :=
  phashBlock new = CBlockHeader_GetHash block /\ bi_nTime new = nTime block /\ bi_nBits new = nBits block /\
  match bt_map t !! hashPrevBlock block with
  | None => bi_nHeight new = 0 /\ pprev new = None /\ vStakeModifier new = []
  | Some q => bi_nHeight new = bi_nHeight q + 1 /\ pprev new = Some (phashBlock q) /\
      exists s, pskip new = Some (phashBlock s) /\ ancestor (bt_map t) q (GetSkipHeight (bi_nHeight new)) = Some s
  end.

Lemma new_index_wf hash block (m : BlockMap) : hash <> 0 -> index_wf m hash (CBlockIndex_new hash block).
Proof. intros N. split_and!; cbn; try done; lia. Qed.

Lemma BuildSkip_spec (m : BlockMap) q : tree_wf m -> stored m q ->
  exists s, BuildSkip m q (bi_nHeight q + 1) = Some (Some (phashBlock s)) /\
    ancestor m q (GetSkipHeight (bi_nHeight q + 1)) = Some s.
Proof.
  intros W S. pose proof (stored_height m W q S). pose proof (GetSkipHeight_range (bi_nHeight q + 1)).
  unfold BuildSkip. rewrite (GetAncestor_spec m W) by done. rewrite bool_decide_eq_true_2 by lia. cbn [mbind option_bind].
  destruct (ancestor_total m W q (GetSkipHeight (bi_nHeight q + 1)) S) as (s & -> & _); [lia|]. by exists s.
Qed.

Lemma set_new_modifier_size literal (m : BlockMap) block i r :
  0 <= bi_nHeight i -> set_new_modifier p literal m block i = Some r ->
  size (fst r) = if upgrade_active (bi_nHeight i) (consensus p) UPGRADE_V3_4 then 32 else 8.
Proof.
  intros N. unfold set_new_modifier, SetNewStakeModifierV1, SetNewStakeModifierV2.
  rewrite NetworkUpgradeActive_eq by done. cbn [mbind option_bind].
  destruct (upgrade_active _ _ _); cbn [negb].
  - destruct (first_input block 1); [|done]. cbn [mbind option_bind]. destruct (parent m i); [|done].
    cbn [mbind option_bind]. destruct (GetStakeModifierV2 p c0); [|done]. by intros [= <-].
  - destruct (ComputeNextStakeModifier _ _ _ _) as [[[? ?] ?]|]; [|done]. by intros [= <-].
Qed.

(** What a call on an unknown block returns. *)
Lemma AddToBlockIndex_new literal (t t' : BlockTree) (block : CBlock) new (hash := CBlockHeader_GetHash block) :
  tree_inv p t -> hash <> 0 -> hashPrevBlock block <> hash -> bt_map t !! hash = None ->
  AddToBlockIndex p literal t block = Some (t', new) ->
  extends t block new /\ modifier_ok p new /\
  (exists w, GetBlockProof (nBits block) = Some w /\
     nChainWork new = arith_add (match bt_map t !! hashPrevBlock block with Some q => nChainWork q | None => 0 end) w) /\
  nTimeMax new = (match bt_map t !! hashPrevBlock block with Some q => Z.max (nTimeMax q) (nTime block) | None => nTime block end) /\
  bt_map t' = <[hash := new]> (bt_map t) /\
  pindexBestHeader t' = (match k ← pindexBestHeader t; bt_map t !! k with
                         | Some b => if nChainWork b <? nChainWork new then Some hash else pindexBestHeader t
                         | None => Some hash
                         end) /\
  mapPrevBlockIndex t' = (match bt_map t !! hashPrevBlock block with
                          | Some q => mapPrevBlockIndex t ++ [(phashBlock q, hash)]
                          | None => mapPrevBlockIndex t
                          end).
Proof.
  intros I NZ NE N. unfold AddToBlockIndex. fold hash. rewrite N. cbn zeta. rewrite lookup_insert_ne by done.
  destruct (bt_map t !! hashPrevBlock block) as [q|] eqn:Q; unfold extends; rewrite Q; cycle 1.
  - cbn [mbind option_bind CBlockIndex_new bi_nBits vStakeModifier nFlags].
    destruct (GetBlockProof (nBits block)) as [w|] eqn:P; [|done]. cbn [mbind option_bind]. intros [= <- <-]. cbn.
    split_and!; try done; [by exists w|by rewrite insert_insert_eq].
  - assert (SQ : stored (bt_map t) q) by (unfold stored; by destruct (inv_wf _ _ I _ _ Q) as [-> _]).
    assert (W' : tree_wf (<[hash := CBlockIndex_new hash block]> (bt_map t)))
      by (apply tree_wf_insert; [apply I|done|by apply new_index_wf]).
    pose proof (stored_height _ (inv_wf _ _ I) q SQ) as HQ. pose proof (GetSkipHeight_range (bi_nHeight q + 1)) as SR.
    destruct (BuildSkip_spec _ q W') as (s & -> & A).
    { eapply lookup_weaken; [exact SQ|]. by apply insert_subseteq. }
    destruct (ancestor_total _ (inv_wf _ _ I) q (GetSkipHeight (bi_nHeight q + 1)) SQ) as (s' & A' & _); [lia|].
    assert (s' = s) as ->.
    { unfold ancestor in *. eapply up_mono in A'; [|by apply insert_subseteq]. rewrite A' in A. congruence. }
    cbn [mbind option_bind]. destruct (set_new_modifier _ _ _ _ _) as [[modifier flags]|] eqn:M; [|done].
    cbn [mbind option_bind]. apply set_new_modifier_size in M; [|cbn; lia].
    cbn [with_parent bi_nBits bi_nTime nStatus CBlockIndex_new]. destruct (GetBlockProof (nBits block)) as [w|] eqn:P; [|done].
    cbn [mbind option_bind]. intros [= <- <-]. cbn. split_and!; try done; [by exists s|by exists w|by rewrite insert_insert_eq].
Qed.

Lemma parent_stable (m m' : BlockMap) k i : tree_wf m -> m ⊆ m' -> m !! k = Some i -> parent m' i = parent m i.
Proof.
  intros W S L. destruct (W _ _ L) as (_ & _ & Hh & R & C). destruct (decide (bi_nHeight i = 0)) as [Z0|NZ].
  - unfold parent. by rewrite (R Z0).
  - destruct (C ltac:(lia)) as [(q & E & _) _]. rewrite E. by eapply parent_mono.
Qed.

Lemma totals_stable (m m' : BlockMap) k i : tree_wf m -> m ⊆ m' -> m !! k = Some i -> totals_ok m i -> totals_ok m' i.
Proof. intros W S L. unfold totals_ok. by erewrite (parent_stable m m') by done. Qed.

(** The parent of a new index in the grown tree. *)
Lemma extends_parent (t : BlockTree) (block : CBlock) new (hash := CBlockHeader_GetHash block) :
  tree_wf (bt_map t) -> hashPrevBlock block <> hash -> extends t block new ->
  parent (<[hash := new]> (bt_map t)) new = bt_map t !! hashPrevBlock block.
Proof.
  intros W NE (_ & _ & _ & X). unfold parent. destruct (bt_map t !! hashPrevBlock block) as [q|] eqn:Q.
  - destruct X as (_ & -> & _). cbn. destruct (W _ _ Q) as [-> _]. by rewrite lookup_insert_ne.
  - by destruct X as (_ & -> & _).
Qed.

Lemma extends_wf (t : BlockTree) (block : CBlock) new (hash := CBlockHeader_GetHash block) :
  tree_wf (bt_map t) -> hash <> 0 -> hashPrevBlock block <> hash -> bt_map t !! hash = None -> extends t block new ->
  index_wf (<[hash := new]> (bt_map t)) hash new.
Proof.
  intros W NZ NE N X. pose proof (extends_parent t block new W NE X) as P. fold hash in P.
  destruct X as (HH & _ & _ & X). destruct (bt_map t !! hashPrevBlock block) as [q|] eqn:Q.
  - assert (SQ : stored (bt_map t) q) by (unfold stored; by destruct (W _ _ Q) as [-> _]).
    pose proof (stored_height _ W q SQ). destruct X as (E & _ & s & Ps & A). split_and!; try done; try lia.
    intros _. split; [exists q; split; [done|lia]|]. exists s. split; [done|]. unfold ancestor in *.
    pose proof (GetSkipHeight_range (bi_nHeight new)).
    replace (Z.to_nat (bi_nHeight new - GetSkipHeight (bi_nHeight new)))
      with (S (Z.to_nat (bi_nHeight q - GetSkipHeight (bi_nHeight new)))) by lia.
    cbn [up]. rewrite P. cbn [mbind option_bind]. eapply up_mono; [|exact A]. by apply insert_subseteq.
  - destruct X as (E & Pr & _). split_and!; try done; lia.
Qed.

(** The best header keeps the most work. *)
Lemma best_step (t : BlockTree) hash new :
  tree_inv p t -> bt_map t !! hash = None ->
  let best := match k ← pindexBestHeader t; bt_map t !! k with
              | Some b => if nChainWork b <? nChainWork new then Some hash else pindexBestHeader t
              | None => Some hash
              end in
  forall k i, <[hash := new]> (bt_map t) !! k = Some i ->
  exists kb b, best = Some kb /\ <[hash := new]> (bt_map t) !! kb = Some b /\ nChainWork i <= nChainWork b.
Proof.
  intros I N best k i L. subst best.
  assert (O : forall k i, bt_map t !! k = Some i -> exists b,
            (k ← pindexBestHeader t; bt_map t !! k) = Some b /\ nChainWork i <= nChainWork b).
  { intros k' i' L'. destruct (inv_best _ _ I _ _ L') as (kb & b & -> & Lb & Le). by exists b. }
  assert (Hnew : (forall k i, bt_map t !! k = Some i -> nChainWork i <= nChainWork new) ->
            exists kb b, Some hash = Some kb /\ <[hash := new]> (bt_map t) !! kb = Some b /\ nChainWork i <= nChainWork b).
  { intros A. exists hash, new. rewrite lookup_insert_eq. split_and!; try done.
    apply lookup_insert_Some in L as [[_ <-]|[_ L]]; [lia|by eapply A]. }
  destruct (k0 ← pindexBestHeader t; bt_map t !! k0) as [b|] eqn:B.
  - destruct (Z.ltb_spec (nChainWork b) (nChainWork new)).
    + apply Hnew. intros k' i' L'. destruct (O _ _ L') as (b' & [= <-] & ?). lia.
    + destruct (pindexBestHeader t) as [kb|]; [|done]. cbn in B. exists kb, b.
      rewrite lookup_insert_ne by congruence. split_and!; try done.
      apply lookup_insert_Some in L as [[_ <-]|[_ L]]; [lia|]. by destruct (O _ _ L) as (b' & [= <-] & ?).
  - apply Hnew. intros k' i' L'. by destruct (O _ _ L') as (b' & ? & _).
Qed.

(** [mapPrevBlockIndex] lists the children. *)
Lemma children_step (t : BlockTree) hash new kp k :
  tree_inv p t -> bt_map t !! hash = None ->
  (exists i, <[hash := new]> (bt_map t) !! k = Some i /\ pprev i = Some kp) <->
  (kp, k) ∈ mapPrevBlockIndex t \/ k = hash /\ pprev new = Some kp.
Proof.
  intros I N. rewrite (inv_children _ _ I). split.
  - intros (i & L & E). apply lookup_insert_Some in L as [[<- <-]|[? L]]; naive_solver.
  - intros [(i & ? & ?)|[-> ?]]; [exists i; by rewrite lookup_insert_ne by congruence|exists new; by rewrite lookup_insert_eq].
Qed.

Lemma AddToBlockIndex_inv literal (t t' : BlockTree) (block : CBlock) new (hash := CBlockHeader_GetHash block) :
  tree_inv p t -> hash <> 0 -> hashPrevBlock block <> hash ->
  AddToBlockIndex p literal t block = Some (t', new) -> tree_inv p t'.
Proof.
  intros I NZ NE R. destruct (bt_map t !! hash) as [old|] eqn:N.
  { unfold AddToBlockIndex in R. fold hash in R. rewrite N in R. by injection R as <- _. }
  destruct (AddToBlockIndex_new _ _ _ _ _ I NZ NE N R) as (X & M & (w & P & Wk) & T & Map & Best & Ch). fold hash in Map.
  pose proof (inv_wf _ _ I) as W. pose proof (extends_parent t block new W NE X) as Par. fold hash in Par.
  assert (Sub : bt_map t ⊆ <[hash := new]> (bt_map t)) by (by apply insert_subseteq).
  split; rewrite ?Map.
  - apply tree_wf_insert; [done..|]. by apply extends_wf.
  - apply map_Forall_insert; [done|]. split.
    + exists w. destruct X as (_ & Ht & Hb & _). rewrite Hb, Ht, Par. split; [done|].
      destruct (bt_map t !! hashPrevBlock block); by rewrite Wk, T.
    + intros k i L. eapply totals_stable; [done..|]. exact (inv_totals _ _ I _ _ L).
  - apply map_Forall_insert; [done|]. split; [done|]. exact (inv_modifiers _ _ I).
  - rewrite Best. by apply best_step.
  - intros kp k. rewrite (children_step t hash new kp k I N), Ch. fold hash. destruct X as (_ & _ & _ & X).
    destruct (bt_map t !! hashPrevBlock block) as [q|]; destruct X as (_ & -> & _); [|naive_solver].
    rewrite elem_of_app, list_elem_of_singleton. naive_solver.
Qed.

(** *** When the call returns *)

Lemma GetStakeModifierV1_total i : 0 <= bi_nHeight i -> modifier_ok p i -> is_Some (GetStakeModifierV1 p i).
Proof.
  intros N M. unfold GetStakeModifierV1. case_bool_decide; [done|]. apply modifier_ok_sizes in M as [|M]; [done|].
  rewrite NetworkUpgradeActive_eq by done. cbn [mbind option_bind]. destruct (upgrade_active _ _ _); [done|].
  by rewrite M.
Qed.

Lemma GetStakeModifierV2_total i : 0 <= bi_nHeight i -> modifier_ok p i -> is_Some (GetStakeModifierV2 p i).
Proof.
  intros N M. unfold GetStakeModifierV2. case_bool_decide; [done|]. apply modifier_ok_sizes in M as [|M]; [done|].
  rewrite NetworkUpgradeActive_eq by done. cbn [mbind option_bind]. destruct (upgrade_active _ _ _); [|done].
  by rewrite M.
Qed.

Section Total.
Context (m : BlockMap) (W : tree_wf m).

Lemma Select_loop_total l selected stop prev : forall v2 best, is_Some (Select_loop p m l selected stop prev v2 best).
Proof.
  induction l as [|[t h] l IH]; intros v2 best; cbn [Select_loop]; [done|].
  destruct (m !! h) as [i|] eqn:L; [|done]. destruct (_ && _); [done|].
  destruct v2 as [b|]; cbn [mbind option_bind]; [case_bool_decide; apply IH|].
  destruct (W _ _ L) as (_ & _ & Hh & _). rewrite NetworkUpgradeActive_eq by done. cbn [mbind option_bind].
  case_bool_decide; apply IH.
Qed.

Lemma select_rounds_total rounds l prev : forall nRound stop selected new,
  0 <= nRound -> nRound + Z.of_nat rounds <= 64 -> is_Some (select_rounds p rounds m l prev nRound stop selected new).
Proof.
  induction rounds as [|rounds IH]; intros nRound stop selected new N B; cbn [select_rounds]; [done|].
  unfold GetStakeModifierSelectionIntervalSection, assert.
  rewrite (proj2 (Z.leb_le _ _)), (proj2 (Z.ltb_lt _ _)) by lia. cbn [andb mbind option_bind].
  destruct (Select_loop_total l selected (stop + MODIFIER_INTERVAL * 63 / (63 + (63 - nRound) * (MODIFIER_INTERVAL_RATIO - 1)))
              prev None None) as [r E].
  unfold SelectBlockFromCandidates. rewrite E. cbn [mbind option_bind]. destruct r; [apply IH; lia|done].
Qed.

Lemma last_generated_stored fuel : forall i, stored m i -> stored m (last_generated fuel m i).
Proof.
  induction fuel as [|fuel IH]; intros i S; [done|]. cbn. destruct (parent m i) as [q|] eqn:E; [|done].
  destruct (GeneratedStakeModifier i); [done|]. apply IH. by eapply parent_stored.
Qed.

Lemma ComputeNextStakeModifier_total literal i :
  map_Forall (fun _ => modifier_ok p) m -> stored m i -> is_Some (ComputeNextStakeModifier p literal m (Some i)).
Proof.
  intros M S. unfold ComputeNextStakeModifier. destruct (bi_nHeight i =? 0); [done|]. cbn zeta.
  set (q := last_generated _ _ _). assert (SQ : stored m q) by (by apply last_generated_stored).
  destruct (negb _); [done|]. destruct (GetStakeModifierV1_total q) as [x ->].
  { by eapply stored_height. } { exact (M _ _ SQ). }
  cbn [mbind option_bind]. destruct (_ <=? _); [done|].
  match goal with |- context [select_rounds p ?n m ?l x 0 ?stop [] 0] =>
    destruct (select_rounds_total n l x 0 stop [] 0) as [r ->]; [lia|lia|] end.
  cbn [mbind option_bind]. by destruct r.
Qed.

End Total.

Lemma set_new_modifier_total literal (m : BlockMap) block i q :
  tree_wf m -> map_Forall (fun _ => modifier_ok p) m -> parent m i = Some q -> 0 <= bi_nHeight i ->
  is_Some (set_new_modifier p literal m block i) <->
  upgrade_active (bi_nHeight i) (consensus p) UPGRADE_V3_4 = false \/ is_Some (first_input block 1).
Proof.
  intros W M P N. pose proof (parent_stored m W _ _ P) as S. pose proof (stored_height m W _ S).
  unfold set_new_modifier, SetNewStakeModifierV1, SetNewStakeModifierV2. rewrite NetworkUpgradeActive_eq by done.
  cbn [mbind option_bind]. rewrite P. destruct (upgrade_active _ _ _); cbn [negb].
  - destruct (first_input block 1) as [txin|]; cbn [mbind option_bind]; [|naive_solver].
    destruct (GetStakeModifierV2_total q) as [x ->]; [done|exact (M _ _ S)|]. naive_solver.
  - destruct (ComputeNextStakeModifier_total m W literal q) as [[[a b] c] ->]; [done..|]. naive_solver.
Qed.

(** The blocks whose index cannot be made: one transaction, at or after the upgrade. *)
Lemma AddToBlockIndex_total literal (t : BlockTree) (block : CBlock) (hash := CBlockHeader_GetHash block) :
  tree_inv p t -> hash <> 0 -> hashPrevBlock block <> hash -> 0 <= nBits block ->
  is_Some (AddToBlockIndex p literal t block) <->
  is_Some (bt_map t !! hash) \/
  (forall q, bt_map t !! hashPrevBlock block = Some q ->
     upgrade_active (bi_nHeight q + 1) (consensus p) UPGRADE_V3_4 = false \/ is_Some (first_input block 1)).
Proof.
  intros I NZ NE NB. unfold AddToBlockIndex. fold hash. destruct (bt_map t !! hash) as [old|] eqn:N; [naive_solver|].
  cbn zeta. rewrite lookup_insert_ne by done. destruct (GetBlockProof_total (nBits block) NB) as [w Hw].
  set (m := <[hash := CBlockIndex_new hash block]> (bt_map t)).
  assert (W' : tree_wf m) by (apply tree_wf_insert; [apply I|done|by apply new_index_wf]).
  assert (M' : map_Forall (fun _ => modifier_ok p) m) by (apply map_Forall_insert; [done|]; split; [done|apply I]).
  destruct (bt_map t !! hashPrevBlock block) as [q|] eqn:Q; cycle 1.
  - cbn [mbind option_bind CBlockIndex_new bi_nBits vStakeModifier nFlags]. rewrite Hw. naive_solver.
  - destruct (inv_wf _ _ I _ _ Q) as (HQ & _ & HH & _).
    assert (SQ : stored m q) by (unfold stored, m; rewrite lookup_insert_ne by congruence; by rewrite HQ).
    destruct (BuildSkip_spec m q W' SQ) as (s & -> & _). cbn [mbind option_bind].
    set (new := with_parent _ _ _ _).
    pose proof (set_new_modifier_total literal m block new q W' M' SQ ltac:(cbn; lia)) as T.
    change (bi_nHeight new) with (bi_nHeight q + 1) in T.
    destruct (set_new_modifier _ _ _ _ _) as [[modifier flags]|]; cbn [mbind option_bind];
      [change (bi_nBits new) with (nBits block); rewrite Hw|]; naive_solver.
Qed.

End Growth.

(** ** Claims *)

Definition empty_tree : BlockTree :=
  {| bt_map := ∅; pindexBestHeader := None; setDirtyBlockIndex := ∅; mapPrevBlockIndex := [] |}.

Lemma empty_tree_inv p : tree_inv p empty_tree.
Proof.
  split; unfold tree_wf; cbn [empty_tree bt_map pindexBestHeader mapPrevBlockIndex];
    [apply map_Forall_empty..|intros k i L; by rewrite lookup_empty in L|].
  intros kp k. split; [by intros E%not_elem_of_nil|]. intros (i & L & _). by rewrite lookup_empty in L.
Qed.

(** C25. [AddToBlockIndex] keeps the block tree well formed: every index is
    filed under its own hash, one higher than a parent that is in the tree,
    with a skip pointer to the right ancestor; its chain work and latest time
    are those of its parent with its own added; it has a stake modifier of the
    size its height calls for, unless it is a root, which has none;
    [mapPrevBlockIndex] lists exactly the children, and the best header has the
    most work of the whole tree.  The index that is returned is in the tree and
    no older one is lost. *)
Theorem block_tree_invariant `{HashFunctions} (p : CChainParams) literal (t t' : BlockTree) (block : CBlock) i :
  tree_inv p t -> CBlockHeader_GetHash block <> 0 -> hashPrevBlock block <> CBlockHeader_GetHash block ->
  AddToBlockIndex p literal t block = Some (t', i) ->
  tree_inv p t' /\ bt_map t' !! CBlockHeader_GetHash block = Some i /\ bt_map t ⊆ bt_map t'.
Proof.
  intros I NZ NE R. split; [by eapply AddToBlockIndex_inv|].
  destruct (bt_map t !! CBlockHeader_GetHash block) as [old|] eqn:N.
  - unfold AddToBlockIndex in R. rewrite N in R. by injection R as <- <-.
  - destruct (AddToBlockIndex_new p _ _ _ _ _ I NZ NE N R) as (_ & _ & _ & _ & -> & _).
    rewrite lookup_insert_eq. split; [done|]. by apply insert_subseteq.
Qed.

Definition sample_index : CBlockIndex :=
  match AddToBlockIndex (H := checksum_hashes) (CreateChainParams MAIN) 0 empty_tree sample_block with
  | Some (_, i) => i
  | None => CBlockIndex_new 0 sample_block
  end.

Definition sample_tree : BlockTree :=
  match AddToBlockIndex (H := checksum_hashes) (CreateChainParams MAIN) 0 empty_tree sample_block with
  | Some (t, _) => t
  | None => empty_tree
  end.

Lemma block_tree_invariant_witness :
  tree_inv (CreateChainParams MAIN) sample_tree /\
  bt_map sample_tree !! CBlockHeader_GetHash (H := checksum_hashes) sample_block = Some sample_index /\
  bt_map empty_tree ⊆ bt_map sample_tree.
Proof.
  apply (block_tree_invariant (H := checksum_hashes) (CreateChainParams MAIN) 0 empty_tree sample_tree sample_block sample_index
           (empty_tree_inv _)); vm_compute; congruence.
Defined.

(** C26. The blocks for which [AddToBlockIndex] returns an index are those that
    are known, whose parent is unknown, whose height is below that of upgrade
    v3.4, or that have a second transaction with an input, and no others.  A
    new block on top of a known block at or above that height that has no
    second transaction, or one without transparent inputs, makes it read
    [block.vtx[1]->vin[0]] out of range. *)
Theorem block_index_made `{HashFunctions} (p : CChainParams) literal (t : BlockTree) (block : CBlock) :
  tree_inv p t -> CBlockHeader_GetHash block <> 0 -> hashPrevBlock block <> CBlockHeader_GetHash block -> 0 <= nBits block ->
  is_Some (AddToBlockIndex p literal t block) <->
  is_Some (bt_map t !! CBlockHeader_GetHash block) \/
  (forall q, bt_map t !! hashPrevBlock block = Some q ->
     upgrade_active (bi_nHeight q + 1) (consensus p) UPGRADE_V3_4 = false \/ is_Some (first_input block 1)).
Proof. apply AddToBlockIndex_total. Qed.

(** Blocks of one transaction, each on top of the one before. *)
Definition next_block (prev : Z) : CBlock := {|
  header := {| nVersion := 8; hashPrevBlock := prev; hashMerkleRoot := 0; nTime := 1785920000; nBits := 0x207fffff; nNonce := 0;
               nAccumulatorCheckpoint := 0; hashFinalSaplingRoot := 0 |};
  vtx := [sample_tx]; vchBlockSig := []
|}.

Fixpoint grow `{HashFunctions} (p : CChainParams) (n : nat) (t : BlockTree) (block : CBlock) : option (BlockTree * CBlock) :=
  match n with
  | O => Some (t, block)
  | S n =>
      let hash := CBlockHeader_GetHash block in
      if (hash =? 0) || (hash =? hashPrevBlock block) then None
      else '(t, _) ← AddToBlockIndex p 0 t block; grow p n t (next_block hash)
  end.

Lemma grow_inv `{HashFunctions} p n : forall t b t' b', tree_inv p t -> grow p n t b = Some (t', b') -> tree_inv p t'.
Proof.
  induction n as [|n IH]; intros t b t' b' I; cbn; [by intros [= <- _]|].
  destruct (_ || _) eqn:E; [done|]. bool_to_prop. destruct (AddToBlockIndex p 0 t b) as [[t1 i]|] eqn:A; [|done].
  cbn. apply IH. by eapply AddToBlockIndex_inv; [| | |exact A].
Qed.

(** Four blocks on regtest, where the upgrade is at height 4, and the block after them. *)
Definition four_blocks : BlockTree * CBlock :=
  default (empty_tree, sample_block) (grow (H := checksum_hashes) (CreateChainParams REGTEST) 4 empty_tree (next_block 0)).

Lemma four_blocks_inv : tree_inv (CreateChainParams REGTEST) (fst four_blocks).
Proof.
  unfold four_blocks. destruct (grow _ _ _ _) as [[t b]|] eqn:G; [|apply empty_tree_inv].
  by eapply grow_inv; [apply empty_tree_inv|exact G].
Qed.

Lemma block_index_made_witness :
  ~ is_Some (AddToBlockIndex (H := checksum_hashes) (CreateChainParams REGTEST) 0 (fst four_blocks) (snd four_blocks)) /\
  is_Some (AddToBlockIndex (H := checksum_hashes) (CreateChainParams REGTEST) 0 empty_tree sample_block).
Proof.
  split.
  - intros S. apply (block_index_made (H := checksum_hashes) _ _ _ _ four_blocks_inv) in S;
      [|vm_compute; congruence..].
    destruct S as [[x E]|S]; [vm_compute in E; discriminate|].
    edestruct S as [E|[x E]]; [vm_compute; reflexivity|vm_compute in E; discriminate..].
  - apply (block_index_made (H := checksum_hashes) _ _ _ _ (empty_tree_inv _)); [vm_compute; congruence..|].
    right. intros q E. vm_compute in E. discriminate.
Defined.

(** The minimum age and depth of a stake are looked at only when the
    [UPGRADE_ZC_PUBLIC] upgrade is active, and no network activates it: every
    coin may stake, whatever its depth. *)
Theorem stake_depth_not_enforced chain nHeight nTime i :
  0 <= nHeight -> HasStakeMinAgeOrDepth (CreateChainParams chain) nHeight nTime i = Some true.
Proof.
  intros N. unfold HasStakeMinAgeOrDepth. rewrite NetworkUpgradeActive_never; [done|lia|by destruct chain].
Qed.

(** The weighted target is exact as long as it fits in 256 bits. *)
Lemma kernel_target_exact nBits value :
  0 <= nBits -> 0 <= value <= INT64_MAX -> compact_value nBits * (value / 100) < M256 ->
  kernel_target nBits value = compact_value nBits * (value / 100).
Proof.
  intros N V B. unfold kernel_target, uint. rewrite (Z.mod_small value) by (unfold INT64_MAX in V; lia).
  pose proof (compact_value_range nBits N). apply Z.mod_small. split; [|done].
  apply Z.mul_nonneg_nonneg; [lia|]. apply Z.div_pos; lia.
Qed.

(** Beyond that it wraps around: at the easiest target of the main network a
    stake of 1.048578 coins has a millionth of the target of one of 1.048577. *)
Example kernel_target_wraps :
  compact_value 0x1e0fffff <= posLimitV2 CMainParams_consensus /\
  kernel_target 0x1e0fffff 104857700 = (2 ^ 40 - 1) * 2 ^ 216 /\ kernel_target 0x1e0fffff 104857800 = (2 ^ 20 - 2) * 2 ^ 216.
Proof. split; [vm_compute; congruence|split; vm_compute; reflexivity]. Qed.

(** An outpoint after the last output of a transaction of the active chain
    makes [NewPivStake] read past the end of [txPrev->vout]. *)
Theorem stake_output_unchecked `{SaplingTree} p (g : NodeView) tip txin nHeight nTime txPrev h i :
  TxIn_IsZerocoinSpend txin = false -> utxo (coinsBase g) tip (prevout txin) = None -> 0 <= nHeight ->
  vUpgrades (consensus p) UPGRADE_ZC_PUBLIC = NO_ACTIVATION_HEIGHT ->
  GetTransaction g (op_hash (prevout txin)) = Some (txPrev, h) ->
  mapBlockIndex g !! h = Some i -> Contains (chainActive g) i = true -> size (vout txPrev) <= op_n (prevout txin) ->
  NewPivStake p g tip txin nHeight nTime = None.
Proof.
  intros Z U N ZC T M C S. unfold NewPivStake. rewrite Z. pose proof (AccessCoin_spec (coinsBase g) tip (prevout txin)) as A.
  destruct (AccessCoin _ _ _) as [c tip']. cbn [fst] in A. rewrite U in A. unfold unspent in A.
  destruct (IsSpent c) eqn:E; [|done]. cbn [negb]. rewrite T, M, C. cbn [negb]. unfold HasStakeMinAgeOrDepth.
  rewrite NetworkUpgradeActive_never by (done || lia). cbn [mbind option_bind negb].
  rewrite lookup_ge_None_2; [done|]. unfold size in S. lia.
Qed.

Lemma le_bytes_ext n x y : x mod 256 ^ Z.of_nat n = y mod 256 ^ Z.of_nat n -> le_bytes n x = le_bytes n y.
Proof.
  intros E. rewrite <- (le_bytes_value (le_bytes n x)), <- (le_bytes_value (le_bytes n y)) by apply le_bytes_ok.
  by rewrite !length_le_bytes, !le_value_bytes, E.
Qed.

Lemma le_bytes_i32 x : le_bytes 4 (i32 x) = le_bytes 4 x.
Proof.
  apply le_bytes_ext. change (256 ^ Z.of_nat 4) with (2 ^ 32). unfold sint.
  rewrite Zminus_mod_idemp_l. f_equal. lia.
Qed.

(** The bytes a kernel hashes: the parent's modifier, the time of the block
    the coin is from, the outpoint and the time of the new block. *)
Definition kernel_message (modifier timeFrom : Z) (o : COutPoint) (time : Z) : bytes :=
  le_bytes 32 modifier ++ le_bytes 4 timeFrom ++ (le_bytes 4 (op_n o) ++ le_bytes 32 (op_hash o)) ++ le_bytes 4 time.

Section Sound.
Context `{HashFunctions, Ecdsa, SaplingTree} (p : CChainParams) (g : NodeView).

(** Where the output behind an outpoint, and the block it is from, are found. *)
Definition stake_source (tip : CCoinsViewCache) (o : COutPoint) (out : CTxOut) (i : CBlockIndex) : Prop :=
  (exists c, utxo (coinsBase g) tip o = Some c /\ coin_out c = out /\
     active_at (mapBlockIndex g) (chainActive g) (coin_nHeight c) = Some i) \/
  (utxo (coinsBase g) tip o = None /\ Contains (chainActive g) i = true /\
     exists txPrev h, GetTransaction g (op_hash o) = Some (txPrev, h) /\ mapBlockIndex g !! h = Some i /\
       vout txPrev !! Z.to_nat (op_n o) = Some out).

Lemma NewPivStake_inv tip txin nHeight nTime s tip' :
  NewPivStake p g tip txin nHeight nTime = Some (Some s, tip') ->
  TxIn_IsZerocoinSpend txin = false /\ outpointFrom s = prevout txin /\
  stake_source tip (prevout txin) (outputFrom s) (pindexFrom s) /\
  (forall o, utxo (coinsBase g) tip' o = utxo (coinsBase g) tip o).
Proof.
  unfold NewPivStake. destruct (TxIn_IsZerocoinSpend txin); [done|].
  pose proof (AccessCoin_spec (coinsBase g) tip (prevout txin)) as A.
  pose proof (AccessCoin_state (coinsBase g) tip (prevout txin)) as T.
  destruct (AccessCoin _ _ _) as [c tip1]. cbn [fst snd] in A, T. unfold unspent in A.
  assert (U : forall o, utxo (coinsBase g) tip1 o = utxo (coinsBase g) tip o) by (intros o; rewrite T; apply FetchCoin_utxo).
  destruct (IsSpent c); cbn [negb].
  - destruct (GetTransaction g _) as [[txPrev h]|] eqn:G; [|done].
    destruct (mapBlockIndex g !! h) as [i|] eqn:M; [|done]. destruct (Contains _ i) eqn:C; [|done]. cbn [negb].
    destruct (HasStakeMinAgeOrDepth _ _ _ _) as [[]|]; [|done..]. cbn [mbind option_bind negb].
    destruct (vout txPrev !! _) as [out|] eqn:V; [|done]. intros [= <- <-]. split_and!; try done.
    right. split_and!; try done. by exists txPrev, h.
  - destruct (active_at _ _ _) as [i|] eqn:E; [|done]. cbn [mbind option_bind].
    destruct (HasStakeMinAgeOrDepth _ _ _ _) as [[]|]; [|done..]. intros [= <- <-]. split_and!; try done.
    left. by exists c.
Qed.

Lemma kernel_hash_message prev s bits time k :
  upgrade_active (bi_nHeight prev + 1) (consensus p) UPGRADE_V3_4 = true -> 0 <= bi_nHeight prev ->
  mkCStakeKernel p g prev s bits (i32 time) = Some k ->
  exists modifier, GetStakeModifierV2 p prev = Some modifier /\
    CStakeKernel_GetHash k = Hash (kernel_message modifier (bi_nTime (pindexFrom s)) (outpointFrom s) time) /\
    k_nBits k = bits /\ stakeValue k = nValue (outputFrom s).
Proof.
  intros U N. unfold mkCStakeKernel. rewrite NetworkUpgradeActive_eq, U by lia. cbn [mbind option_bind negb].
  destruct (GetStakeModifierV2 p prev) as [modifier|]; [|done]. intros [= <-]. exists modifier. split_and!; try done.
  unfold CStakeKernel_GetHash, kernel_message, ser_writedata32. cbn [stakeModifier nTimeBlockFrom stakeUniqueness k_nTime].
  by rewrite le_bytes_i32.
Qed.

End Sound.

(** C24. A block that passes [CheckProofOfStake] on top of a block is a
    proof-of-stake block; the first input of its coinstake spends an output
    that is in the coins set with its block on the active chain, or that a
    transaction of a block of the active chain has created; the hash of the
    parent's stake modifier, the time of the block the coin is from, the
    outpoint and the time of the new block - and of nothing else of the new
    block - is below the target weighted with the value of the output; and
    the input satisfies the script of the output under the standard flags.
    The coins set is not changed. *)
Theorem proof_of_stake_sound `{HashFunctions, Ecdsa, SaplingTree} (p : CChainParams) (g : NodeView)
    (tip tip' : CCoinsViewCache) (block : CBlock) (prev : CBlockIndex) :
  0 <= bi_nHeight prev -> upgrade_active (bi_nHeight prev + 1) (consensus p) UPGRADE_V3_4 = true ->
  CheckProofOfStake p g tip block prev = Some (true, tip') ->
  (forall o, utxo (coinsBase g) tip' o = utxo (coinsBase g) tip o) /\
  exists tx txin out from modifier,
    vtx block !! 1%nat = Some tx /\ IsCoinStake tx = true /\ vin tx !! 0%nat = Some txin /\
    stake_source g tip (prevout txin) out from /\ GetStakeModifierV2 p prev = Some modifier /\
    Hash (kernel_message modifier (bi_nTime from) (prevout txin) (nTime block)) < kernel_target (nBits block) (nValue out) /\
    VerifyScript (scriptSig txin) (scriptPubKey out) STANDARD_SCRIPT_VERIFY_FLAGS
      (TransactionSignatureChecker tx 0 (nValue out) None) (GetRequiredSigVersion tx) = EvalOk tt.
Proof.
  intros N U. unfold CheckProofOfStake, LoadStakeInput. destruct (IsProofOfStake block) eqn:P; [|done]. cbn [negb].
  unfold first_input. destruct (vtx block !! 1%nat) as [tx|] eqn:T; [|done]. cbn [mbind option_bind].
  assert (C : IsCoinStake tx = true).
  { unfold IsProofOfStake, vtx_IsProofOfStake in P. destruct (vtx block) as [|a [|b l]]; try done. by injection T as <-. }
  destruct (vin tx !! 0%nat) as [txin|] eqn:I; [|done]. cbn [mbind option_bind].
  destruct (NewPivStake _ _ _ _ _ _) as [[[s|] tip1]|] eqn:S; [|done..]. cbn [mbind option_bind].
  destruct (mkCStakeKernel _ _ _ _ _ _) as [k|] eqn:K; [|done]. cbn [mbind option_bind].
  destruct (CheckKernelHash k) eqn:L; [|done]. cbn [negb mbind option_bind].
  destruct (VerifyScript _ _ _ _ _) as [[]| | |] eqn:V; try done. intros [= <-].
  destruct (NewPivStake_inv _ _ _ _ _ _ _ _ S) as (_ & O & Src & St).
  destruct (kernel_hash_message _ _ _ _ _ _ _ U N K) as (modifier & M & Hk & Bk & Vk). split; [done|].
  exists tx, txin, (outputFrom s), (pindexFrom s), modifier. split_and!; try done.
  unfold CheckKernelHash in L. rewrite Hk, O, Bk, Vk in L. by apply Z.ltb_lt.
Qed.

(** A chain of four blocks on regtest, a coin of its second block, and a block that stakes it. *)
Definition stake_node : NodeView (H := counting_tree) := {|
  mapBlockIndex := line_map 4;
  chainActive := [1; 2; 3; 4];
  coinsBase := {| v_GetCoin := fun _ => Some {| fCoinBase := false; fCoinStake := false; coin_nHeight := 1;
                                                coin_out := {| nValue := COIN; scriptPubKey := [OP_1 : Z] |} |};
                  v_GetBestBlock := 4; v_GetSaplingAnchorAt := fun _ => None; v_GetNullifier := fun _ => false;
                  v_GetBestAnchor := 0 |};
  GetTransaction := fun _ => None
|}.

Definition stake_block : CBlock := {|
  header := {| nVersion := 8; hashPrevBlock := 4; hashMerkleRoot := 0; nTime := 1785920000; nBits := 0x1b0fffff; nNonce := 0;
               nAccumulatorCheckpoint := 0; hashFinalSaplingRoot := 0 |};
  vtx := [sample_tx;
          {| vin := [{| prevout := {| op_hash := 7; op_n := 0 |}; scriptSig := []; nSequence := 0 |}];
             vout := [{| nValue := 0; scriptPubKey := [] |}; {| nValue := COIN; scriptPubKey := [OP_1 : Z] |}];
             tx_nVersion := 1; nType := 0; nLockTime := 0; sapData := None; extraPayload := None |}];
  vchBlockSig := []
|}.

Lemma proof_of_stake_sound_witness :
  exists tip', CheckProofOfStake (H := checksum_hashes) (H0 := echo_ecdsa) (CreateChainParams REGTEST) stake_node new_cache
                 stake_block (line_index 3) = Some (true, tip') /\
    exists tx txin out from modifier, vtx stake_block !! 1%nat = Some tx /\ vin tx !! 0%nat = Some txin /\
      Hash (H := checksum_hashes) (kernel_message modifier (bi_nTime from) (prevout txin) (nTime stake_block))
        < kernel_target (nBits stake_block) (nValue out).
Proof.
  destruct (CheckProofOfStake (H := checksum_hashes) (H0 := echo_ecdsa) (CreateChainParams REGTEST) stake_node new_cache
              stake_block (line_index 3)) as [[[] tip']|] eqn:E; [|vm_compute in E; discriminate..].
  exists tip'. split; [reflexivity|].
  destruct (proof_of_stake_sound (H := checksum_hashes) (H0 := echo_ecdsa) (CreateChainParams REGTEST) stake_node new_cache
              tip' stake_block (line_index 3)) as (_ & tx & txin & out & from & modifier & T & _ & I & _ & _ & L & _);
    [vm_compute; congruence|vm_compute; reflexivity|exact E|].
  exists tx, txin, out, from, modifier. split; [exact T|split; [exact I|exact L]].
Defined.
