(* ===== verification/CheckBlock.v ===== *)
(** * Checks of a block

    [CheckBlock] and its context-dependent companions (validation.cpp),
    [CheckBlockSignature] (blocksignature.cpp) and the contextual check of
    shielded transactions (sapling/sapling_validation.cpp).  An index out of
    range, an empty iterator that is read and a failed assertion are
    [Aborted], or [None] in the functions that return a plain boolean. *)

From S2P Require Import Prelude Params Crypto Serialize Script Standard Transaction ArithUint256 Chain Pow Merkle Coins.
From S2P Require Import ValidationState TxVerify Interpreter Stake.
From Stdlib Require SpecFloat.

(** What the checks read of the rest of the node: whether it is in initial
    block download, the two sporks, the clock and the options. *)
Record NodeEnv := {
  IsInitialBlockDownload : bool;
  spork_coldstaking_maintenance : bool;
  spork_sapling_maintenance : Z;
  GetAdjustedTime : Z;
  fCheckpointsEnabled : bool;
  nMaxReorgDepth : Z
}.

(** ** IsInitialBlockDownload *)

Definition DEFAULT_MAX_TIP_AGE : Z := 24 * 60 * 60.

(** The result and the latch. *)
Definition CheckInitialBlockDownload (fEnabled : bool) (p : CChainParams) (latchToFalse fImporting fReindex : bool) (chainHeight : Z)
    (pindexBestHeader : CBlockIndex) (GetTime nMaxTipAge : Z) : bool * bool :=
  if latchToFalse then (false, true)
  else if fImporting || fReindex || (chainHeight <? GetTotalBlocksEstimate fEnabled p) then (true, false)
  else
    let state := (chainHeight <? bi_nHeight pindexBestHeader - 24 * 6) || (bi_nTime pindexBestHeader <? GetTime - nMaxTipAge) in
    (state, negb state).

(** ** CheckBlockSignature *)

Section Signature.
Context `{HashFunctions, Ecdsa}.

(** Skips a push at [start] of the [scriptSig]; [Some None] is a returned [false]. *)
Definition skip_push (scriptSig : CScript) (start : Z) : option (option Z) :=
  n ← scriptSig !! Z.to_nat start;
  let start := start + 1 + n in
  Some (if size scriptSig - 1 <=? start then None else Some start).

Definition CheckBlockSignature (block : CBlock) : option bool :=
  if IsProofOfWork block then Some (bool_decide (vchBlockSig block = []))
  else if bool_decide (vchBlockSig block = []) then Some false
  else
    tx ← vtx block !! 1%nat;
    txout ← vout tx !! 1%nat;
    txin ← vin tx !! 0%nat;
    solved ← Solver (scriptPubKey txout);
    match solved with
    | None => Some false
    | Some (whichType, vSolutions) =>
        let sig := scriptSig txin in
        let verify vch := match CPubKey vch with
                          | Some pubkey => Some (ecdsa_verify pubkey (CBlockHeader_GetHash block) (vchBlockSig block))
                          | None => Some false
                          end in
        match whichType with
        | TX_PUBKEY => verify (solution vSolutions 0)
        | TX_PUBKEYHASH =>
            if size sig =? 73 then Some false
            else
              r ← skip_push sig 0;
              match r with
              | None => Some false
              | Some start => verify (drop (Z.to_nat (start + 1)) sig)
              end
        | TX_COLDSTAKE =>
            r ← skip_push sig 0;
            match r with
            | None => Some false
            | Some start =>
                r ← skip_push sig start;
                match r with
                | None => Some false
                | Some start => verify (drop (Z.to_nat (start + 1)) sig)
                end
            end
        | _ => Some false
        end
    end.

End Signature.

(** ** CheckBlock *)

Definition CheckColdStakeFreeOutput (tx : CTransaction) : option bool :=
  assert (IsCoinStake tx) (
    out1 ← vout tx !! 1%nat;
    if negb (IsPayToColdStakingLOF (scriptPubKey out1)) then Some true
    else
      let outs := List.length (vout tx) in
      lastOut ← vout tx !! (outs - 1)%nat;
      prevOut ← vout tx !! (outs - 2)%nat;
      Some (negb ((3 <=? outs)%nat && negb (bool_decide (scriptPubKey lastOut = scriptPubKey prevOut))))).

Definition MAX_BLOCK_SHIELDED_TXES_SIZE : Z := 750000.

Definition GetTotalShieldedTxSize (block : CBlock) : Z :=
  foldl (fun n tx => if IsShieldedTx tx then u32 (n + size (Ser CTransaction_fmt tx)) else n) 0 (vtx block).

(** [CheckTransaction] on each transaction in turn. *)
Fixpoint CheckTransactions (c : ConsensusParams) (fColdStakingActive : bool) (txs : list CTransaction) : Result unit :=
  match txs with
  | [] => Valid ()
  | tx :: txs => _ ← CheckTransaction c tx fColdStakingActive; CheckTransactions c fColdStakingActive txs
  end.

Section CheckBlock.
Context `{HashFunctions, Ecdsa} (p : CChainParams) (env : NodeEnv) (m : BlockMap) (v : CChain).

Definition Tip : option CBlockIndex := k ← chain_Tip v; m !! k.

(** The checks of the merkle root. *)
Definition CheckMerkleRoot (block : CBlock) : Result unit :=
  '(root, mutated) ← of_option (BlockMerkleRoot block);
  if negb (hashMerkleRoot block =? root) then DoS 100 REJECT_INVALID "bad-txnmrklroot" true
  else if (mutated : bool) then DoS 100 REJECT_INVALID "bad-txns-duplicate" true
  else Valid ().

(** Whether cold staking is active, after the check of the free output.  The
    height that the code computes here is that of the tip, also for a block
    on another branch; it is only compared with 0. *)
Definition CheckFreeOutput (block : CBlock) : Result bool :=
  match Tip with
  | None => Valid true
  | Some tip =>
      if hashPrevBlock block =? 0 then Valid true
      else if negb (phashBlock tip =? hashPrevBlock block) && bool_decide (m !! hashPrevBlock block = None)
      then state_Error "blk-out-of-order"
      else
        let nHeight := bi_nHeight tip + 1 in
        if negb (nHeight =? 0) && negb (IsInitialBlockDownload env) then
          ok ← of_option (if IsProofOfStake block then cs ← vtx block !! 1%nat; CheckColdStakeFreeOutput cs else Some true);
          reject_if (negb ok) 0 "bad-p2cs-outs" (Valid (negb (spork_coldstaking_maintenance env)))
        else Valid true
  end.

(** The value is [block.fChecked] after the call. *)
Definition CheckBlock (block : CBlock) (fChecked fCheckPOW fCheckMerkleRoot fCheckSig : bool) : Result bool :=
  if fChecked then Valid true
  else
    let IsPoS := IsProofOfStake block in
    reject_if (negb IsPoS && fCheckPOW && negb (CheckProofOfWork (consensus p) (CBlockHeader_GetHash block) (nBits block)))
      50 "high-hash" (
    _ ← (if fCheckMerkleRoot then CheckMerkleRoot block else Valid ());
    let nBlockSize := size (Ser CBlock_fmt block) in
    reject_if (bool_decide (vtx block = []) || (MAX_BLOCK_SIZE_CURRENT <? size (vtx block)) || (MAX_BLOCK_SIZE_CURRENT <? nBlockSize))
      100 "bad-blk-length" (
    reject_if ((MAX_BLOCK_SHIELDED_TXES_SIZE <? nBlockSize) && (MAX_BLOCK_SHIELDED_TXES_SIZE <? GetTotalShieldedTxSize block))
      100 "bad-blk-shielded-size" (
    reject_if (match vtx block with [] => true | tx :: _ => negb (IsCoinBase tx) end) 100 "bad-cb-missing" (
    reject_if (existsb IsCoinBase (drop 1 (vtx block))) 100 "bad-cb-multiple" (
    reject_if (IsPoS && match vtx block !! 1%nat with Some tx => negb (IsCoinStake tx) | None => true end)
      100 "bad-cs-missing" (
    reject_if (IsPoS && existsb IsCoinStake (drop 2 (vtx block))) 100 "bad-cs-multiple" (
    fColdStakingActive ← CheckFreeOutput block;
    _ ← CheckTransactions (consensus p) fColdStakingActive (vtx block);
    nSigOps ← of_option (sum_sigops (GetLegacySigOpCount <$> vtx block) 0);
    if MAX_BLOCK_SIGOPS_CURRENT <? nSigOps then DoS 100 REJECT_INVALID "bad-blk-sigops" true
    else
      sig ← of_option (if fCheckSig then CheckBlockSignature block else Some true);
      if negb sig then DoS 100 REJECT_INVALID "bad-PoS-sig" true
      else Valid (fCheckPOW && fCheckMerkleRoot && fCheckSig)))))))).

End CheckBlock.

(** ** CheckWork *)

(** [double] as binary64 with the rounding of the standard. *)
Module Double.
Import SpecFloat.

Definition prec : Z := 53.
Definition emax : Z := 1024.
Definition of_Z (x e : Z) : spec_float := binary_normalize prec emax x e false.
Definition mul : spec_float -> spec_float -> spec_float := SFmul prec emax.
Definition div : spec_float -> spec_float -> spec_float := SFdiv prec emax.
Definition sub : spec_float -> spec_float -> spec_float := SFsub prec emax.
Definition gt (a b : spec_float) : bool := match SFcompare a b with Some Gt => true | _ => false end.

End Double.

Definition ConvertBitsToDouble (nBits : Z) : SpecFloat.spec_float :=
  let nShift := Z.land (Z.shiftr nBits 24) 0xff in
  let dDiff := Double.div (Double.of_Z 0x0000ffff 0) (Double.of_Z (Z.land nBits 0x00ffffff) 0) in
  let dDiff := Nat.iter (Z.to_nat (29 - nShift)) (fun d => Double.mul d (Double.of_Z 256 0)) dDiff in
  Nat.iter (Z.to_nat (nShift - 29)) (fun d => Double.div d (Double.of_Z 256 0)) dDiff.

Section Context.
Context `{HashFunctions} (p : CChainParams) (env : NodeEnv) (m : BlockMap) (v : CChain).

Definition CheckWork (block : CBlock) (pindexPrev : option CBlockIndex) : option bool :=
  match pindexPrev with
  | None => Some false
  | Some prev =>
      nBitsRequired ← GetNextWorkRequired p m (Some prev);
      if negb (IsRegTestNet p) && IsProofOfWork block && (bi_nHeight prev + 1 <=? 68589) then
        let n1 := ConvertBitsToDouble (nBits block) in
        let n2 := ConvertBitsToDouble nBitsRequired in
        Some (negb (Double.gt (SpecFloat.SFabs (Double.sub n1 n2)) (Double.mul n1 (Double.of_Z 1 (-1)))))
      else if negb (nBits block =? nBitsRequired) then
        badTime ← nKrovacoinBadBlockTime (consensus p);
        if negb (nTime block =? u32 badTime) then Some false
        else badBits ← nKrovacoinBadBlockBits (consensus p); Some (nBits block =? u32 badBits)
      else Some true
  end.

(** ** CheckBlockTime *)

Definition CheckBlockTime (block : CBlockHeader) (prev : CBlockIndex) : Result unit :=
  if IsRegTestNet p then Valid ()
  else
    let blockTime := nTime block in
    let blockHeight := bi_nHeight prev + 1 in
    maxTime ← of_option (MaxFutureBlockTime (consensus p) (GetAdjustedTime env) prev);
    reject_if (maxTime <? blockTime) 0 "time-too-new" (
    minTime ← of_option (MinPastBlockTime (consensus p) m prev);
    reject_if (blockTime <=? minTime) 50 "time-too-old" (
    ok ← of_option (IsValidBlockTimeStamp (consensus p) blockTime blockHeight);
    reject_if (negb ok) 100 "invalid-time-mask" (Valid ()))).

(** ** ContextualCheckBlockHeader *)

Definition GetLastCheckpoint : option CBlockIndex :=
  if negb (fCheckpointsEnabled env) then None
  else foldr (fun c found => match found with Some i => Some i | None => m !! snd c end) None (checkpoints p).

(** Whether a version is too old at a height. *)
Definition outdated_version (version nHeight : Z) : option bool :=
  let c := consensus p in
  let older n idx k := if version <? n then a ← NetworkUpgradeActive nHeight c idx; if (a : bool) then Some true else k else k in
  if (version <? 3) && (1 <=? nHeight) then Some true
  else
    older 4 UPGRADE_ZC (older 5 UPGRADE_BIP65 (older 6 UPGRADE_V3_4 (older 7 UPGRADE_V4_0 (older 8 UPGRADE_V5_0 (Some false))))).

Definition ContextualCheckBlockHeader (block : CBlockHeader) (pindexPrev : option CBlockIndex) : Result unit :=
  let hash := CBlockHeader_GetHash block in
  if hash =? hashGenesisBlock (consensus p) then Valid ()
  else
    prev ← of_option pindexPrev;
    let nHeight := bi_nHeight prev + 1 in
    let chainHeight := chain_Height v in
    if nMaxReorgDepth env <=? chainHeight - nHeight then DoS 1 0 EmptyString false
    else
      _ ← CheckBlockTime block prev;
      if negb (Checkpoints_CheckBlock (fCheckpointsEnabled env) p nHeight hash false)
      then DoS 100 REJECT_CHECKPOINT "checkpoint mismatch" false
      else if match GetLastCheckpoint with Some c => nHeight <? bi_nHeight c | None => false end then DoS 0 0 EmptyString false
      else
        old ← of_option (outdated_version (nVersion block) nHeight);
        if (old : bool) then DoS 0 REJECT_OBSOLETE "bad-version" false else Valid ().

End Context.

(** ** ContextualCheckTransaction *)

(** librustzcash: a verification context is threaded through the descriptions. *)
Class SaplingVerifier := {
  verification_ctx : Type;
  verification_ctx_init : verification_ctx;
  sapling_check_spend : verification_ctx -> SpendDescription -> Z -> option verification_ctx;
  sapling_check_output : verification_ctx -> OutputDescription -> option verification_ctx;
  sapling_final_check : verification_ctx -> Z -> bytes -> Z -> bool
}.

Section ContextualTransaction.
Context `{HashFunctions, SaplingVerifier} (p : CChainParams).

Fixpoint check_spends (level : Z) (dataToBeSigned : Z) (l : list SpendDescription) (ctx : verification_ctx)
  : Result verification_ctx :=
  match l with
  | [] => Valid ctx
  | s :: l =>
      match sapling_check_spend ctx s dataToBeSigned with
      | None => DoS level REJECT_INVALID "bad-txns-sapling-spend-description-invalid" false
      | Some ctx => check_spends level dataToBeSigned l ctx
      end
  end.

Fixpoint check_outputs (l : list OutputDescription) (ctx : verification_ctx) : Result verification_ctx :=
  match l with
  | [] => Valid ctx
  | o :: l =>
      match sapling_check_output ctx o with
      | None => DoS 100 REJECT_INVALID "bad-txns-sapling-output-description-invalid" false
      | Some ctx => check_outputs l ctx
      end
  end.

Definition ContextualCheckTransaction (tx : CTransaction) (nHeight : Z) (isMined isInitBlockDownload : bool) : Result unit :=
  let constricting := if isMined then 100 else 10 in
  let relaxing := if isMined then 100 else if isInitBlockDownload then 0 else 10 in
  v5 ← of_option (NetworkUpgradeActive nHeight (consensus p) UPGRADE_V5_0);
  if negb v5 then reject_if (IsShieldedTx tx) constricting "bad-txns-invalid-sapling-act" (Valid ())
  else
    reject_if (negb (isSaplingVersion tx) && hasSaplingData tx) constricting "bad-tx-sapling-version-too-low" (
    reject_if ((IsCoinBase tx || IsCoinStake tx) && hasSaplingData tx) relaxing "bad-cs-has-shielded-data" (
    match sapData tx with
    | Some d =>
        if negb (hasSaplingData tx) then Valid ()
        else
          v56 ← of_option (if HasExchangeAddr tx then NetworkUpgradeActive nHeight (consensus p) UPGRADE_V5_6 else Some false);
          reject_if v56 100 "bad-txns-exchange-addr-has-sapling" (
          match SignatureHash [] tx NOT_AN_INPUT SIGHASH_ALL 0 SIGVERSION_SAPLING None with
          | EvalOk dataToBeSigned =>
              ctx ← check_spends relaxing dataToBeSigned (vShieldedSpend d) verification_ctx_init;
              ctx ← check_outputs (vShieldedOutput d) ctx;
              reject_if (negb (sapling_final_check ctx (valueBalance d) (bindingSig d) dataToBeSigned))
                relaxing "bad-txns-sapling-binding-signature-invalid" (Valid ())
          | EvalThrow => DoS 100 REJECT_INVALID "error-computing-signature-hash" false
          | _ => Aborted
          end)
    | None => Valid ()
    end)).

(** ** ContextualCheckBlock *)

Context (env : NodeEnv).

Fixpoint ContextualCheckTransactions (nHeight nBlockTime : Z) (txs : list CTransaction) : Result unit :=
  match txs with
  | [] => Valid ()
  | tx :: txs =>
      _ ← ContextualCheckTransaction tx nHeight true (IsInitialBlockDownload env);
      reject_if (negb (IsFinalTx (GetAdjustedTime env) tx nHeight nBlockTime)) 10 "bad-txns-nonfinal" (
      ContextualCheckTransactions nHeight nBlockTime txs)
  end.

Definition ContextualCheckBlock (block : CBlock) (pindexPrev : option CBlockIndex) : Result unit :=
  let nHeight := match pindexPrev with None => 0 | Some prev => bi_nHeight prev + 1 end in
  _ ← ContextualCheckTransactions nHeight (nTime block) (vtx block);
  _ ← (if bool_decide (is_Some pindexPrev) then
         let expect := push_int64 [] nHeight in
         txin ← of_option (first_input block 0);
         reject_if ((size (scriptSig txin) <? size expect) || negb (bool_decide (take (List.length expect) (scriptSig txin) = expect)))
           100 "bad-cb-height" (Valid ())
       else Valid ());
  if IsProofOfStake block then
    csTx ← of_option (vtx block !! 1%nat);
    reject_if (1 <? size (vin csTx)) 100 "bad-cs-multi-inputs" (
    reject_if (existsb TxOut_IsEmpty (drop 1 (vout csTx))) 100 "bad-txns-vout-empty" (Valid ()))
  else Valid ().

End ContextualTransaction.

(** ** What a checked block looks like *)

Record checked_block (p : CChainParams) (block : CBlock) (cold : bool) : Prop := {
  cb_first : exists cb txs, vtx block = cb :: txs /\ IsCoinBase cb = true /\ Forall (fun tx => IsCoinBase tx = false) txs;
  cb_stake : IsProofOfStake block = true -> Forall (fun tx => IsCoinStake tx = false) (drop 2 (vtx block));
  cb_txs : Forall (fun tx => CheckTransaction (consensus p) tx cold = Valid ()) (vtx block)
}.

Lemma existsb_Forall {A} (f : A -> bool) l : existsb f l = false -> Forall (fun a => f a = false) l.
Proof.
  induction l as [|a l IH]; [constructor|]. cbn. intros [E F]%orb_false_elim. constructor; auto.
Qed.

Lemma CheckTransactions_Valid c cold txs :
  CheckTransactions c cold txs = Valid () -> Forall (fun tx => CheckTransaction c tx cold = Valid ()) txs.
Proof.
  induction txs as [|tx txs IH]; intros R; cbn [CheckTransactions] in R; [constructor|]. valid_inv R.
  destruct r. constructor; auto.
Qed.

Lemma CheckBlock_Valid `{HashFunctions, Ecdsa} p env m v block pow merkle sig r :
  CheckBlock p env m v block false pow merkle sig = Valid r -> exists cold, checked_block p block cold.
Proof.
  unfold CheckBlock. intros R. valid_inv R. exists r1. split.
  - destruct (vtx block) as [|cb txs]; [done|]. exists cb, txs. apply negb_false_iff in C2. split_and!; try done.
    by apply existsb_Forall.
  - intros P. rewrite P in C5. by apply existsb_Forall.
  - apply CheckTransactions_Valid. by destruct r2.
Qed.
