(* ===== verification/Connect.v ===== *)
(** * Connecting and disconnecting blocks

    [UpdateCoins], [CheckTxInputs], [CheckInputs], [ConnectBlock],
    [ApplyTxInUndo] and [DisconnectBlock] of validation.cpp.

    Files are left to others: undo data is passed along as a value (Compressor
    models the records in which it is kept), and the positions that
    [ConnectBlock] collects for the transaction index are left out. *)

From S2P Require Import Prelude Params Crypto Serialize Script Transaction Premine Superblock ValidationState Chain Coins.
From S2P Require Import TxVerify Interpreter Stake CheckBlock.

(** ** Definitions *)

Definition GetBlockValue (nHeight : Z) : option Z := if nHeight =? 1 then GetPremineTotal else Some 0.

(** [CTxUndo::vprevout] and [CBlockUndo::vtxundo]. *)
Abbreviation CTxUndo := (list Coin).
Abbreviation CBlockUndo := (list (list Coin)).

Record CScriptCheck := { sc_out : CTxOut; sc_tx : CTransaction; sc_nIn : Z; sc_flags : Z }.

Section Connect.
Context `{HashFunctions, Ecdsa, SaplingTree} (p : CChainParams) (env : NodeEnv).
Context (m : BlockMap) (chain : CChain) (base : CCoinsView).

(** The view's backing store is [base]; [invalid] is [invalid_out::ContainsOutPoint]. *)
Context (invalid : COutPoint -> bool).

Definition SkipInvalidUTXOS (nHeight : Z) : option bool :=
  if negb (bool_decide (networkID p = MAIN)) then Some false
  else
    zc ← NetworkUpgradeActive nHeight (consensus p) UPGRADE_ZC;
    Some (zc && (nHeight <=? height_last_invalid_UTXO (consensus p))).

(** The coins spent, in the order of the inputs; a coin that is not found leaves an empty one. *)
Fixpoint SpendInputs (v : CCoinsViewCache) (ins : list CTxIn) : CTxUndo * CCoinsViewCache :=
  match ins with
  | [] => ([], v)
  | txin :: ins =>
      let '(c, v) := SpendCoin base v (prevout txin) in
      let '(cs, v) := SpendInputs v ins in
      (default coinEmpty c :: cs, v)
  end.

Definition UpdateCoins (tx : CTransaction) (v : CCoinsViewCache) (nHeight : Z) (fSkipInvalid : bool)
  : option (CTxUndo * CCoinsViewCache) :=
  let '(txundo, v) := if IsCoinBase tx then ([], v) else SpendInputs v (vin tx) in
  let v := SetNullifiers v tx true in
  v ← AddCoins base v invalid tx nHeight false fSkipInvalid;
  Some (txundo, v).

(** *** Inputs *)

Definition GetSpendHeight (v : CCoinsViewCache) : option (Z * CCoinsViewCache) :=
  let '(h, v) := GetBestBlock base v in
  pindexPrev ← m !! h;
  Some (bi_nHeight pindexPrev + 1, v).

(** The loop over the inputs; the value is [nValueIn]. *)
Fixpoint CheckTxInputs_loop (nSpendHeight : Z) (ins : list CTxIn) (v : CCoinsViewCache) (nValueIn : Z)
  : Result (Z * CCoinsViewCache) :=
  match ins with
  | [] => Valid (nValueIn, v)
  | txin :: ins =>
      let '(c, v) := AccessCoin base v (prevout txin) in
      if IsSpent c then Aborted
      else
        reject_if ((fCoinBase c || fCoinStake c) && (nSpendHeight - coin_nHeight c <? nCoinbaseMaturity (consensus p)))
          0 "bad-txns-premature-spend-of-coinbase-coinstake" (
        let nValueIn := i64 (nValueIn + nValue (coin_out c)) in
        reject_if (negb (MoneyRange (consensus p) (nValue (coin_out c))) || negb (MoneyRange (consensus p) nValueIn))
          100 "bad-txns-inputvalues-outofrange" (
        CheckTxInputs_loop nSpendHeight ins v nValueIn))
  end.

Definition CheckTxInputs (tx : CTransaction) (v : CCoinsViewCache) (nSpendHeight : Z) : Result CCoinsViewCache :=
  let '(have, v) := HaveInputs base v tx in
  if negb have then DoS 0 0 EmptyString false
  else
    let '(met, v) := HaveShieldedRequirements base v tx in
    if negb met then DoS 0 0 EmptyString false
    else
      '(nValueIn, v) ← CheckTxInputs_loop nSpendHeight (vin tx) v 0;
      shielded ← of_option (GetShieldedValueIn tx);
      let nValueIn := i64 (nValueIn + shielded) in
      if negb (IsCoinStake tx) then
        nValueOut ← of_option (GetValueOut tx);
        reject_if (nValueIn <? nValueOut) 100 "bad-txns-in-belowout" (
        let nTxFee := i64 (nValueIn - nValueOut) in
        reject_if (nTxFee <? 0) 100 "bad-txns-fee-negative" (
        reject_if (negb (MoneyRange (consensus p) nTxFee)) 100 "bad-txns-fee-outofrange" (
        Valid v)))
      else Valid v.

(** [CScriptCheck::operator()]; the signature cache, which only remembers
    signatures that have been verified, is left out. *)
Definition CScriptCheck_run (c : CScriptCheck) : option bool :=
  txin ← vin (sc_tx c) !! Z.to_nat (sc_nIn c);
  verdict (VerifyScript (scriptSig txin) (scriptPubKey (sc_out c)) (sc_flags c)
             (TransactionSignatureChecker (sc_tx c) (sc_nIn c) (nValue (sc_out c))
                (Some (mkPrecomputedTransactionData (sc_tx c))))
             (GetRequiredSigVersion (sc_tx c))).

Definition STANDARD_NOT_MANDATORY_VERIFY_FLAGS : Z := Z.ldiff STANDARD_SCRIPT_VERIFY_FLAGS MANDATORY_SCRIPT_VERIFY_FLAGS.

(** The check of one input: kept for the queue ([fQueue], [pvChecks] is not
    null) or run at once. *)
Definition check_input (fQueue : bool) (c : CScriptCheck) : Result (list CScriptCheck) :=
  if fQueue then Valid [c]
  else
    ok ← of_option (CScriptCheck_run c);
    if (ok : bool) then Valid []
    else
      ok2 ← of_option (if negb (Z.land (sc_flags c) STANDARD_NOT_MANDATORY_VERIFY_FLAGS =? 0)
                       then CScriptCheck_run {| sc_out := sc_out c; sc_tx := sc_tx c; sc_nIn := sc_nIn c;
                              sc_flags := Z.ldiff (sc_flags c) STANDARD_NOT_MANDATORY_VERIFY_FLAGS |}
                       else Some false);
      if (ok2 : bool) then DoS 0 REJECT_NONSTANDARD "non-mandatory-script-verify-flag" false
      else DoS 100 REJECT_INVALID "mandatory-script-verify-flag-failed" false.

Fixpoint CheckScripts (fQueue : bool) (tx : CTransaction) (flags : Z) (ins : list CTxIn) (i : Z) (v : CCoinsViewCache)
  : Result (list CScriptCheck * CCoinsViewCache) :=
  match ins with
  | [] => Valid ([], v)
  | txin :: ins =>
      let '(c, v) := AccessCoin base v (prevout txin) in
      if IsSpent c then Aborted
      else
        queued ← check_input fQueue {| sc_out := coin_out c; sc_tx := tx; sc_nIn := i; sc_flags := flags |};
        '(rest, v) ← CheckScripts fQueue tx flags ins (i + 1) v;
        Valid (queued ++ rest, v)
  end.

Definition CheckInputs (tx : CTransaction) (v : CCoinsViewCache) (fScriptChecks : bool) (flags : Z) (fQueue : bool)
  : Result (list CScriptCheck * CCoinsViewCache) :=
  if IsCoinBase tx then Valid ([], v)
  else
    '(nSpendHeight, v) ← of_option (GetSpendHeight v);
    v ← CheckTxInputs tx v nSpendHeight;
    if fScriptChecks then CheckScripts fQueue tx flags (vin tx) 0 v else Valid ([], v).

(** *** ConnectBlock *)

(** The variables of the loop over the transactions. *)
Record ConnectState := {
  cn_view : CCoinsViewCache;
  cn_fees : Z;
  cn_valueIn : Z;
  cn_valueOut : Z;
  cn_sigops : Z;
  cn_undo : CBlockUndo;
  cn_checks : list CScriptCheck;
  cn_tree : SaplingMerkleTree
}.

(** What is fixed during the loop. *)
Record ConnectFlags := {
  fScriptChecks : bool;
  fCLTVIsActivated : bool;
  exchangeAddrActivated : bool;
  fSaplingMaintenance : bool;
  nScriptCheckThreads : bool
}.

Definition script_flags (f : ConnectFlags) : Z :=
  Z.lor (Z.lor (Z.lor SCRIPT_VERIFY_P2SH SCRIPT_VERIFY_DERSIG)
           (if fCLTVIsActivated f then SCRIPT_VERIFY_CHECKLOCKTIMEVERIFY else 0))
    (if exchangeAddrActivated f then SCRIPT_VERIFY_EXCHANGEADDR else 0).

Definition tx_outputs (tx : CTransaction) : list OutputDescription :=
  if IsShieldedTx tx then match sapData tx with Some d => vShieldedOutput d | None => [] end else [].

(** The inputs of a transaction exist, and its signature operations fit. *)
Definition ConnectTx_inputs (nSigOps : Z) (tx : CTransaction) (v : CCoinsViewCache) : Result (Z * CCoinsViewCache) :=
  if IsCoinBase tx then Valid (nSigOps, v)
  else
    let '(have, v) := HaveInputs base v tx in
    reject_if (negb have) 100 "bad-txns-inputs-missingorspent" (
    let '(met, v) := HaveShieldedRequirements base v tx in
    reject_if (negb met) 100 "bad-txns-sapling-requirements-not-met" (
    '(p2sh, v) ← of_option (GetP2SHSigOpCount base v tx);
    let nSigOps := u32 (nSigOps + p2sh) in
    reject_if (MAX_BLOCK_SIGOPS_CURRENT <? nSigOps) 100 "bad-blk-sigops" (
    Valid (nSigOps, v)))).

(** [nFees], [nValueIn], the script checks and the view. *)
Definition ConnectTx_amounts (f : ConnectFlags) (tx : CTransaction) (txValueOut nFees nValueIn : Z) (v : CCoinsViewCache)
  : Result (Z * Z * list CScriptCheck * CCoinsViewCache) :=
  if IsCoinBase tx then Valid (nFees, nValueIn, [], v)
  else
    '(txValueIn, v) ← of_option (GetValueIn base v tx);
    let nFees := if IsCoinStake tx then nFees else i64 (nFees + i64 (txValueIn - txValueOut)) in
    '(checks, v) ← CheckInputs tx v (fScriptChecks f) (script_flags f) (nScriptCheckThreads f);
    Valid (nFees, i64 (nValueIn + txValueIn), checks, v).

Definition ConnectTx (f : ConnectFlags) (nHeight : Z) (i : nat) (tx : CTransaction) (s : ConnectState) : Result ConnectState :=
  legacy ← of_option (GetLegacySigOpCount tx);
  let nSigOps := u32 (cn_sigops s + legacy) in
  reject_if (MAX_BLOCK_SIGOPS_CURRENT <? nSigOps) 100 "bad-blk-sigops" (
  if negb (IsInitialBlockDownload env) && fSaplingMaintenance f && IsShieldedTx tx then DoS 100 0 EmptyString false
  else
    '(nSigOps, v) ← ConnectTx_inputs nSigOps tx (cn_view s);
    txValueOut ← of_option (GetValueOut tx);
    '(fees, valueIn, checks, v) ← ConnectTx_amounts f tx txValueOut (cn_fees s) (cn_valueIn s) v;
    fSkipInvalid ← of_option (SkipInvalidUTXOS nHeight);
    '(txundo, v) ← of_option (UpdateCoins tx v nHeight fSkipInvalid);
    Valid {| cn_view := v; cn_fees := fees; cn_valueIn := valueIn; cn_valueOut := i64 (cn_valueOut s + txValueOut);
             cn_sigops := nSigOps; cn_undo := if (i =? 0)%nat then cn_undo s else cn_undo s ++ [txundo];
             cn_checks := cn_checks s ++ checks;
             cn_tree := foldl (fun t o => tree_append t (od_cmu o)) (cn_tree s) (tx_outputs tx) |}).

Fixpoint ConnectTxs (f : ConnectFlags) (nHeight : Z) (i : nat) (txs : list CTransaction) (s : ConnectState) : Result ConnectState :=
  match txs with
  | [] => Valid s
  | tx :: txs => s ← ConnectTx f nHeight i tx s; ConnectTxs f nHeight (S i) txs s
  end.

(** A payout transaction is looked for among those of the block; the lookups
    of its input only fill the cache. *)
Fixpoint find_payout (blocks : Z -> option CBlock) (nHeight : Z) (v : CCoinsViewCache) (txs : list CTransaction) : option bool :=
  match txs with
  | [] => Some false
  | tx :: txs =>
      ok ← CheckSuperblockPayoutTx p blocks (fun o => option_map coin_out (utxo base v o)) tx nHeight;
      if (ok : bool) then Some true else find_payout blocks nHeight v txs
  end.

(** [blocks] reads the block of a height of the active chain from disk. *)
Definition CheckSuperblock (blocks : Z -> option CBlock) (nHeight : Z) (v : CCoinsViewCache) (txs : list CTransaction) : Result unit :=
  if IsSuperblockHeight p nHeight then
    found ← of_option (find_payout blocks nHeight v txs);
    payout ← of_option (if (found : bool) then Some 0 else GetSuperblockPayout p nHeight);
    reject_if (negb found && (0 <? payout) && CycleHasStakers p blocks nHeight) 100 "bad-superblock-payout" (Valid ())
  else Valid ().

(** [CCheckQueueControl::Wait]: every queued check succeeds. *)
Fixpoint Wait (checks : list CScriptCheck) : option bool :=
  match checks with
  | [] => Some true
  | c :: checks => ok ← CScriptCheck_run c; if (ok : bool) then Wait checks else Some false
  end.

(** The status after the undo data is written. *)
Definition connected_status (status : Z) : Z :=
  if (Z.land status BLOCK_HAVE_UNDO =? 0) || negb (IsValid status BLOCK_VALID_SCRIPTS)
  then snd (RaiseValidity (if Z.land status BLOCK_HAVE_UNDO =? 0 then Z.lor status BLOCK_HAVE_UNDO else status) BLOCK_VALID_SCRIPTS)
  else status.

(** The checks between [CheckBlock] and the loop that need no coins. *)
Definition ConnectHeader (block : CBlock) (pindex : CBlockIndex) (isPoSActive : bool) : Result unit :=
  reject_if (negb isPoSActive && IsProofOfStake block) 100 "PoS-early" (
  reject_if (isPoSActive && negb (IsProofOfStake block)) 100 "PoW-ended" (
  reject_if (match nChainSaplingValue pindex with Some x => x <? 0 | None => false end)
    100 "turnstile-violation-sapling-shielded-pool" (Valid ()))).

(** Whether the coinbase of a proof-of-stake block is the empty one. *)
Definition empty_coinbase (block : CBlock) : bool :=
  match vtx block with
  | cb :: _ => match vout cb with [o] => TxOut_IsEmpty o | _ => false end
  | [] => false
  end.

Definition connect_flags (nHeight : Z) (prev : option CBlockIndex) (block : CBlock) (threads : bool) : option ConnectFlags :=
  let scripts := GetTotalBlocksEstimate (fCheckpointsEnabled env) p <=? nHeight in
  '(cltv, exch) ← (match prev with
                   | Some q =>
                       if scripts then
                         a ← NetworkUpgradeActive (bi_nHeight q) (consensus p) UPGRADE_BIP65;
                         b ← NetworkUpgradeActive (bi_nHeight q) (consensus p) UPGRADE_V5_6;
                         Some (a, b)
                       else Some (false, false)
                   | None => Some (false, false)
                   end);
  Some {| fScriptChecks := scripts; fCLTVIsActivated := cltv; exchangeAddrActivated := exch;
          fSaplingMaintenance := spork_sapling_maintenance env <? nTime block; nScriptCheckThreads := threads |}.

(** The checks on the amounts after the loop. *)
Definition CheckMint (block : CBlock) (nHeight : Z) (s : ConnectState) : Result unit :=
  if cn_fees s <? 0 then Aborted
  else
    let nMint := i64 (i64 (cn_valueOut s - cn_valueIn s) + cn_fees s) in
    value ← of_option (GetBlockValue nHeight);
    let nExpectedMint := if IsProofOfStake block then value else i64 (value + cn_fees s) in
    reject_if (nExpectedMint <? nMint) 100 "bad-blk-amount" (
    premine ← of_option (if nHeight =? 1 then cb ← vtx block !! 0%nat; CheckPremineCoinbase p cb else Some true);
    reject_if (negb premine) 100 "bad-premine-coinbase" (Valid ())).

(** The view, the undo data and the status of the index. *)
Definition ConnectBlock (blocks : Z -> option CBlock) (threads : bool) (block : CBlock) (fChecked : bool) (pindex : CBlockIndex)
    (v : CCoinsViewCache) (fJustCheck : bool) : Result (CCoinsViewCache * CBlockUndo * Z) :=
  let check := negb fJustCheck in
  _ ← (match CheckBlock p env m chain block fChecked check check check with
       | Failed st => if corruptionPossible st then state_Error "Corrupt block found" else Failed st
       | r => r
       end);
  let prev := parent m pindex in
  let hashPrevBlock := match prev with None => 0 | Some q => phashBlock q end in
  let '(best, v) := GetBestBlock base v in
  if negb (hashPrevBlock =? best) then Aborted
  else
    let nHeight := bi_nHeight pindex in
    let c := consensus p in
    isPoSActive ← of_option (NetworkUpgradeActive nHeight c UPGRADE_POS);
    isV5 ← of_option (NetworkUpgradeActive nHeight c UPGRADE_V5_0);
    isV6 ← of_option (NetworkUpgradeActive nHeight c UPGRADE_V6_0);
    reject_if (negb isV6 && IsProofOfStake block && negb (empty_coinbase block)) 100 "bad-cb-pos" (
    if CBlockHeader_GetHash block =? hashGenesisBlock c
    then Valid (if fJustCheck then v else SetBestBlock v (phashBlock pindex), [], nStatus pindex)
    else
      _ ← ConnectHeader block pindex isPoSActive;
      f ← of_option (connect_flags nHeight prev block threads);
      let '(anchor, v) := GetBestAnchor base v in
      let '(tree, v) := GetSaplingAnchorAt base v anchor in
      tree ← of_option tree;
      _ ← CheckSuperblock blocks nHeight v (vtx block);
      s ← ConnectTxs f nHeight 0 (vtx block)
            {| cn_view := v; cn_fees := 0; cn_valueIn := 0; cn_valueOut := 0; cn_sigops := 0; cn_undo := [];
               cn_checks := []; cn_tree := tree |};
      let v := PushAnchor base (cn_view s) (cn_tree s) in
      reject_if (isV5 && negb (hashFinalSaplingRoot block =? tree_root (cn_tree s))) 100 "bad-sapling-root-in-block" (
      _ ← CheckMint block nHeight s;
      scripts ← of_option (Wait (cn_checks s));
      reject_if (negb scripts) 100 "block-validation-failed" (
      if fJustCheck then Valid (v, cn_undo s, nStatus pindex)
      else Valid (SetBestBlock v (phashBlock pindex), cn_undo s, connected_status (nStatus pindex))))).

(** *** DisconnectBlock *)

Inductive DisconnectResult := DISCONNECT_OK | DISCONNECT_UNCLEAN | DISCONNECT_FAILED.

Definition ApplyTxInUndo (undo : Coin) (v : CCoinsViewCache) (out : COutPoint) : option (DisconnectResult * CCoinsViewCache) :=
  let '(have, v) := HaveCoin base v out in
  let fClean := negb have in
  let done (c : Coin) (v : CCoinsViewCache) := v ← AddCoin v out c (negb fClean); Some (if fClean then DISCONNECT_OK else DISCONNECT_UNCLEAN, v) in
  if coin_nHeight undo =? 0 then
    let '(alternate, v) := AccessByTxid base v (op_hash out) in
    if negb (IsSpent alternate)
    then done {| fCoinBase := fCoinBase alternate; fCoinStake := fCoinStake alternate; coin_out := coin_out undo;
                 coin_nHeight := coin_nHeight alternate |} v
    else Some (DISCONNECT_FAILED, v)
  else done undo v.

(** The outputs of a transaction are removed; whether they were those of the block. *)
Fixpoint RemoveOutputs (txid : Z) (outs : list CTxOut) (o : Z) (v : CCoinsViewCache) (fClean : bool) : bool * CCoinsViewCache :=
  match outs with
  | [] => (fClean, v)
  | out :: outs =>
      if IsUnspendable (scriptPubKey out) then RemoveOutputs txid outs (o + 1) v fClean
      else
        let '(c, v) := SpendCoin base v {| op_hash := txid; op_n := o |} in
        RemoveOutputs txid outs (o + 1) v (fClean && bool_decide (out = coin_out (default coinEmpty c)))
  end.

(** The inputs from the last to the first, with the coins they spent. *)
Fixpoint RestoreInputs (l : list (CTxIn * Coin)) (v : CCoinsViewCache) (fClean : bool) : option (option bool * CCoinsViewCache) :=
  match l with
  | [] => Some (Some fClean, v)
  | (txin, undo) :: l =>
      '(res, v) ← ApplyTxInUndo undo v (prevout txin);
      match res with
      | DISCONNECT_FAILED => Some (None, v)
      | DISCONNECT_OK => RestoreInputs l v fClean
      | DISCONNECT_UNCLEAN => RestoreInputs l v false
      end
  end.

(** One transaction; [undo] is its entry of the undo data, if it has one, and
    the inner [None] is [DISCONNECT_FAILED]. *)
Definition DisconnectTx (tx : CTransaction) (undo : option CTxUndo) (v : CCoinsViewCache) (fClean : bool)
  : option (option bool * CCoinsViewCache) :=
  let '(fClean, v) := RemoveOutputs (GetHash tx) (vout tx) 0 v fClean in
  if IsCoinBase tx then Some (Some fClean, v)
  else
    let v := SetNullifiers v tx false in
    txundo ← undo;
    if negb (size txundo =? size (vin tx)) then Some (None, v)
    else RestoreInputs (reverse (zip (vin tx) txundo)) v fClean.

(** The transactions from the last to the first. *)
Fixpoint DisconnectTxs (l : list (CTransaction * option CTxUndo)) (v : CCoinsViewCache) (fClean : bool)
  : option (option bool * CCoinsViewCache) :=
  match l with
  | [] => Some (Some fClean, v)
  | (tx, undo) :: l =>
      '(res, v) ← DisconnectTx tx undo v fClean;
      match res with
      | None => Some (None, v)
      | Some fClean => DisconnectTxs l v fClean
      end
  end.

(** The transactions with their undo data: none for the first. *)
Definition with_undo (txs : list CTransaction) (undo : CBlockUndo) : list (CTransaction * option CTxUndo) :=
  zip txs (None :: (Some <$> undo)).

(** [blockUndo] is what [UndoReadFromDisk] yields, none also where the index
    has no undo position; the parent is only followed after that. *)
Definition DisconnectBlock (block : CBlock) (pindex : CBlockIndex) (v : CCoinsViewCache) (blockUndo : option CBlockUndo)
  : option (DisconnectResult * CCoinsViewCache) :=
  match blockUndo with
  | None => Some (DISCONNECT_FAILED, v)
  | Some undo =>
      prev ← parent m pindex;
      if negb (size undo + 1 =? size (vtx block)) then Some (DISCONNECT_FAILED, v)
      else
        '(res, v) ← DisconnectTxs (reverse (with_undo (vtx block) undo)) v true;
        match res with
        | None => Some (DISCONNECT_FAILED, v)
        | Some fClean =>
            v5 ← NetworkUpgradeActive (bi_nHeight prev) (consensus p) UPGRADE_V5_0;
            v ← PopAnchor base v (if (v5 : bool) then bi_hashFinalSaplingRoot prev else tree_root tree_empty);
            Some (if (fClean : bool) then DISCONNECT_OK else DISCONNECT_UNCLEAN, SetBestBlock v (phashBlock prev))
        end
  end.
End Connect.
