(* ===== verification/Compressor.v ===== *)
(** * Compressed coins and undo data

    compressor.{h,cpp}, the serialization of [Coin] in coins.h, undo.h, and the
    undo records of validation.cpp: how unspent outputs are stored in the
    coins database and spent ones in the undo files.

    Points of the curve belong to libsecp256k1: the class [Curve] has the two
    calls that pubkey.cpp makes, and [CurveLaws] their documented behaviour.  A
    stream that ends early, an exception and a failed assertion are [None]. *)

From S2P Require Import Prelude Params Crypto Serialize Script Standard Transaction Superblock Coins Connect.

Local Open Scope krova_scope.

(** Division and remainder in [lia]. *)
#[local] Ltac Zify.zify_post_hook ::= Z.to_euclidean_division_equations.

(** ** Public keys *)

(** [secp256k1_ec_pubkey_parse] and [secp256k1_ec_pubkey_serialize] with
    [SECP256K1_EC_UNCOMPRESSED]. *)
Class Curve := {
  point : Type;
  ec_pubkey_parse : bytes -> option point;
  ec_pubkey_serialize : point -> bytes
}.

(** A point is written as [04], x and y; what is parsed from that form is
    written in that form again; and a point is also parsed from its x and the
    parity of its y. *)
Class CurveLaws `{Curve} : Prop := {
  serialize_length : forall p, length (ec_pubkey_serialize p) = 65%nat;
  serialize_parse : forall x y p, length x = 32%nat -> length y = 32%nat ->
    ec_pubkey_parse (4 :: x ++ y) = Some p -> ec_pubkey_serialize p = 4 :: x ++ y;
  parse_parity : forall x y p, length x = 32%nat -> length y = 32%nat ->
    ec_pubkey_parse (4 :: x ++ y) = Some p -> ec_pubkey_parse (2 + Z.land (at_ y 31) 1 :: x) = Some p
}.

(** A curve for examples: y is zero or one. *)
Definition flat_curve : Curve := {|
  point := bytes * Z;
  ec_pubkey_parse vch :=
    match vch with
    | h :: xy =>
        let x := take 32 xy in
        if (h =? 4) && bool_decide (drop 32 xy = replicate 31 0 ++ [0]) && (length x =? 32)%nat then Some (x, 0)
        else if (h =? 4) && bool_decide (drop 32 xy = replicate 31 0 ++ [1]) && (length x =? 32)%nat then Some (x, 1)
        else if ((h =? 2) || (h =? 3)) && (length xy =? 32)%nat then Some (xy, h - 2) else None
    | [] => None
    end;
  ec_pubkey_serialize '(x, y) := 4 :: take 32 (x ++ replicate 32 0) ++ replicate 31 0 ++ [y]
|}.

Section Compressor.
Context `{Curve}.

(** [IsValid()] holds of every key that [CPubKey] does not invalidate. *)
Definition IsFullyValid (vch : bytes) : bool := match ec_pubkey_parse vch with Some _ => true | None => false end.

Definition Decompress (vch : bytes) : option bytes := ec_pubkey_serialize <$> ec_pubkey_parse vch.

(** ** Scripts *)

Definition IsToKeyID (script : CScript) : option bytes :=
  if (size script =? 25) && (at_ script 0 =? OP_DUP) && (at_ script 1 =? OP_HASH160) && (at_ script 2 =? 20)
     && (at_ script 23 =? OP_EQUALVERIFY) && (at_ script 24 =? OP_CHECKSIG)
  then Some (take 20 (drop 3 script)) else None.

Definition IsToScriptID (script : CScript) : option bytes :=
  if (size script =? 23) && (at_ script 0 =? OP_HASH160) && (at_ script 1 =? 20) && (at_ script 22 =? OP_EQUAL)
  then Some (take 20 (drop 2 script)) else None.

Definition IsToPubKey (script : CScript) : option bytes :=
  if (size script =? 35) && (at_ script 0 =? 33) && (at_ script 34 =? OP_CHECKSIG) && ((at_ script 1 =? 0x02) || (at_ script 1 =? 0x03))
  then CPubKey (take 33 (drop 1 script))
  else if (size script =? 67) && (at_ script 0 =? 65) && (at_ script 66 =? OP_CHECKSIG) && (at_ script 1 =? 0x04)
  then pubkey ← CPubKey (take 65 (drop 1 script)); if IsFullyValid pubkey then Some pubkey else None
  else None.

Definition CompressScript (script : CScript) : option bytes :=
  match IsToKeyID script with
  | Some keyID => Some (0x00 :: keyID)
  | None =>
      match IsToScriptID script with
      | Some scriptID => Some (0x01 :: scriptID)
      | None =>
          match IsToPubKey script with
          | Some pubkey =>
              let x := take 32 (drop 1 pubkey) in
              if (at_ pubkey 0 =? 0x02) || (at_ pubkey 0 =? 0x03) then Some (at_ pubkey 0 :: x)
              else if at_ pubkey 0 =? 0x04 then Some (Z.lor 0x04 (Z.land (at_ pubkey 64) 0x01) :: x)
              else None
          | None => None
          end
      end
  end.

Definition GetSpecialScriptSize (nSize : Z) : Z :=
  if (nSize =? 0) || (nSize =? 1) then 20
  else if (nSize =? 2) || (nSize =? 3) || (nSize =? 4) || (nSize =? 5) then 32
  else 0.

(** [Some None] is the answer false. *)
Definition DecompressScript (nSize : Z) (inp : bytes) : option (option CScript) :=
  if nSize =? 0x00 then Some (Some ([OP_DUP : Z; OP_HASH160 : Z; 20] ++ take 20 inp ++ [OP_EQUALVERIFY : Z; OP_CHECKSIG : Z]))
  else if nSize =? 0x01 then Some (Some ([OP_HASH160 : Z; 20] ++ take 20 inp ++ [OP_EQUAL : Z]))
  else if (nSize =? 0x02) || (nSize =? 0x03) then Some (Some ([33; nSize] ++ take 32 inp ++ [OP_CHECKSIG : Z]))
  else if (nSize =? 0x04) || (nSize =? 0x05) then
    match CPubKey (nSize - 2 :: take 32 inp) with
    | None => Some None
    | Some pubkey =>
        match Decompress pubkey with
        | None => Some None
        | Some pubkey => assert (size pubkey =? 65) (Some (Some ([65] ++ pubkey ++ [OP_CHECKSIG : Z])))
        end
    end
  else Some None.

(** ** Amounts *)

(** The division by ten while it leaves no remainder, [k] times at most. *)
Fixpoint strip_zeros (k : nat) (n e : Z) : Z * Z :=
  match k with
  | O => (n, e)
  | S k => if n mod 10 =? 0 then strip_zeros k (n / 10) (e + 1) else (n, e)
  end.

Definition CompressAmount (n : Z) : option Z :=
  if n =? 0 then Some 0
  else
    let '(n, e) := strip_zeros 9 n 0 in
    if e <? 9 then
      let d := n mod 10 in
      assert ((1 <=? d) && (d <=? 9)) (Some (u64 (1 + (n / 10 * 9 + d - 1) * 10 + e)))
    else Some (u64 (1 + (n - 1) * 10 + 9)).

Fixpoint scale_up (e : nat) (n : Z) : Z :=
  match e with
  | O => n
  | S e => scale_up e (u64 (n * 10))
  end.

Definition DecompressAmount (x : Z) : Z :=
  if x =? 0 then 0
  else
    let x := x - 1 in
    let e := x mod 10 in
    let x := x / 10 in
    let n := if e <? 9 then u64 (x / 9 * 10 + (x mod 9 + 1)) else u64 (x + 1) in
    scale_up (Z.to_nat e) n.

(** ** Outputs *)

Definition nSpecialScripts : Z := 6.

Definition ScriptCompression_ser (script : CScript) : bytes :=
  match CompressScript script with
  | Some compr => compr
  | None => WriteVarInt 4 (u32 (size script + nSpecialScripts)) ++ script
  end.

(** Into an empty script. *)
Definition ScriptCompression_unser : Reader CScript := fun s =>
  '(nSize, s) ← ReadVarInt (2 ^ 32 - 1) s;
  if nSize <? nSpecialScripts then
    '(vch, s) ← read (GetSpecialScriptSize nSize) s;
    script ← DecompressScript nSize vch;
    Some (default [] script, s)
  else
    let nSize := nSize - nSpecialScripts in
    '(script, s) ← read nSize s;
    Some (if MAX_SCRIPT_SIZE <? nSize then [OP_RETURN : Z] else script, s).

Definition AmountCompression_ser (val : Z) : option bytes := v ← CompressAmount (u64 val); Some (WriteVarInt 8 v).

Definition AmountCompression_unser : Reader Z := fun s => '(v, s) ← ReadVarInt (2 ^ 64 - 1) s; Some (i64 (DecompressAmount v), s).

Definition TxOutCompression_ser (o : CTxOut) : option bytes :=
  amount ← AmountCompression_ser (nValue o); Some (amount ++ ScriptCompression_ser (scriptPubKey o)).

Definition TxOutCompression_unser : Reader CTxOut := fun s =>
  '(amount, s) ← AmountCompression_unser s;
  '(script, s) ← ScriptCompression_unser s;
  Some ({| nValue := amount; scriptPubKey := script |}, s).

(** ** Coins *)

Definition coin_code (c : Coin) : Z := u32 (coin_nHeight c * 4 + (if fCoinBase c then 2 else 0) + (if fCoinStake c then 1 else 0)).

Definition coin_of_code (code : Z) (o : CTxOut) : Coin :=
  {| fCoinBase := negb (Z.land code 2 =? 0); fCoinStake := negb (Z.land code 1 =? 0); coin_out := o; coin_nHeight := Z.shiftr code 2 |}.

Definition Coin_ser (c : Coin) : option bytes :=
  assert (negb (IsSpent c)) (out ← TxOutCompression_ser (coin_out c); Some (WriteVarInt 4 (coin_code c) ++ out)).

Definition Coin_unser : Reader Coin := fun s =>
  '(code, s) ← ReadVarInt (2 ^ 32 - 1) s;
  '(out, s) ← TxOutCompression_unser s;
  Some (coin_of_code code out, s).

(** ** Undo data *)

Definition TxInUndo_ser (txout : Coin) : option bytes :=
  out ← TxOutCompression_ser (coin_out txout);
  Some (WriteVarInt 4 (coin_code txout) ++ (if 0 <? coin_nHeight txout then [0] else []) ++ out).

Definition TxInUndo_unser : Reader Coin := fun s =>
  '(nCode, s) ← ReadVarInt (2 ^ 32 - 1) s;
  '(_, s) ← (if 0 <? Z.shiftr nCode 2 then ReadVarInt (2 ^ 32 - 1) s else Some (0, s));
  '(out, s) ← TxOutCompression_unser s;
  Some (coin_of_code nCode out, s).

(** [std::vector] of elements whose writer may fail. *)
Definition vector_ser {A} (ser : A -> option bytes) (l : list A) : option bytes :=
  elems ← mapM ser l; Some (WriteCompactSize (size l) ++ concat elems).

Fixpoint elements_unser {A} (unser : Reader A) (n : nat) : Reader (list A) := fun s =>
  match n with
  | O => Some ([], s)
  | S n => '(a, s) ← unser s; '(l, s) ← elements_unser unser n s; Some (a :: l, s)
  end.

Definition vector_unser {A} (unser : Reader A) : Reader (list A) := fun s =>
  '(n, s) ← ReadCompactSize true s; elements_unser unser (Z.to_nat n) s.

Definition CTxUndo_ser : CTxUndo -> option bytes := vector_ser TxInUndo_ser.
Definition CTxUndo_unser : Reader CTxUndo := vector_unser TxInUndo_unser.
Definition CBlockUndo_ser : CBlockUndo -> option bytes := vector_ser CTxUndo_ser.
Definition CBlockUndo_unser : Reader CBlockUndo := vector_unser CTxUndo_unser.

End Compressor.

(** ** Undo records *)

Section Undo.
Context `{HashFunctions, Curve} (MessageStart : bytes).

(** The bytes that are appended to the file; the undo data starts after the
    eight bytes of the header. *)
Definition UndoWriteToDisk (blockundo : CBlockUndo) (hashBlock : Z) : option bytes :=
  undo ← CBlockUndo_ser blockundo;
  Some (MessageStart ++ ser_writedata32 (u32 (size undo)) ++ undo ++ le_bytes 32 (Hash (le_bytes 32 hashBlock ++ undo))).

(** [file] from the position of the undo data on; the verifier hashes the bytes
    that were read. *)
Definition UndoReadFromDisk (file : bytes) (hashBlock : Z) : option CBlockUndo :=
  '(blockundo, s) ← CBlockUndo_unser file;
  let consumed := take (length file - length s) file in
  '(hashChecksum, _) ← Unser uint256_fmt s;
  if hashChecksum =? Hash (le_bytes 32 hashBlock ++ consumed) then Some blockundo else None.

End Undo.

(** ** Lemmas on amounts *)

Lemma strip_zeros_spec k n e : 0 < n -> exists m j, strip_zeros k n e = (m, e + j) /\ n = m * 10 ^ j /\ 0 < m /\ 0 <= j <= Z.of_nat k /\ (j < Z.of_nat k -> m mod 10 <> 0).
Proof.
  revert n e. induction k as [|k IH]; intros n e N; cbn [strip_zeros].
  - exists n, 0. rewrite Z.add_0_r, Z.mul_1_r. repeat split; lia.
  - destruct (Z.eqb_spec (n mod 10) 0) as [D|D].
    + destruct (IH (n / 10) (e + 1)) as (m & j & -> & E & M & J & D'); [lia|]. exists m, (j + 1). rewrite Z.pow_add_r, Z.pow_1_r, Z.mul_assoc, <- E by lia.
      repeat split; [f_equal; lia|lia|done|lia|lia|intros; apply D'; lia].
    + exists n, 0. rewrite Z.add_0_r, Z.mul_1_r. repeat split; lia.
Qed.

Lemma scale_up_spec e n : scale_up e (u64 n) = u64 (n * 10 ^ Z.of_nat e).
Proof.
  revert n. induction e as [|e IH]; intros n; cbn [scale_up]; [by rewrite Z.mul_1_r|].
  assert (E : u64 (u64 n * 10) = u64 (n * 10)) by (unfold uint; by rewrite Z.mul_mod_idemp_l). rewrite E, IH. f_equal.
  rewrite Nat2Z.inj_succ, Z.pow_succ_r by lia. ring.
Qed.

(** The digits of an amount, as they are packed. *)
Definition packed (m e : Z) : Z := if e <? 9 then m / 10 * 9 + m mod 10 - 1 else m - 1.

Lemma CompressAmount_spec n : 0 < n -> exists m e, n = m * 10 ^ e /\ 0 < m /\ 0 <= e <= 9 /\ (e < 9 -> m mod 10 <> 0) /\
  CompressAmount n = Some (u64 (1 + packed m e * 10 + e)).
Proof.
  intros N. destruct (strip_zeros_spec 9 n 0 N) as (m & e & E & V & M & B & D). exists m, e. split; [done|]. split; [done|]. split; [lia|]. split; [intros; apply D; lia|].
  unfold CompressAmount, packed. rewrite Z.add_0_l in E. rewrite E. destruct (Z.eqb_spec n 0); [lia|]. destruct (Z.ltb_spec e 9) as [L|L].
  - specialize (D ltac:(lia)). unfold assert. destruct (Z.leb_spec 1 (m mod 10)); [|lia]. destruct (Z.leb_spec (m mod 10) 9); [|lia]. done.
  - by replace e with 9 by lia.
Qed.

Lemma DecompressAmount_spec m e : 0 < m -> 0 <= e <= 9 -> (e < 9 -> m mod 10 <> 0) -> m < 2 ^ 64 -> DecompressAmount (1 + packed m e * 10 + e) = u64 (m * 10 ^ e).
Proof.
  intros M E D B. assert (P : 0 <= packed m e) by (unfold packed; destruct (Z.ltb_spec e 9); [specialize (D ltac:(lia))|]; lia).
  unfold DecompressAmount. destruct (Z.eqb_spec (1 + packed m e * 10 + e) 0); [lia|]. replace (1 + packed m e * 10 + e - 1) with (e + packed m e * 10) by lia.
  assert (R : e mod 10 = e) by (apply Z.mod_small; lia). rewrite Z.mod_add, R by lia.
  destruct (Z.ltb_spec e 9) as [L|L].
  - specialize (D ltac:(lia)). assert (Q : (e + packed m e * 10) / 10 = packed m e) by lia. rewrite Q.
    assert (Q2 : packed m e / 9 * 10 + (packed m e mod 9 + 1) = m) by (unfold packed; destruct (Z.ltb_spec e 9); lia). rewrite Q2, scale_up_spec. by rewrite Z2Nat.id by lia.
  - assert (Q : (e + packed m e * 10) / 10 + 1 = m) by (unfold packed; destruct (Z.ltb_spec e 9); lia). rewrite Q, scale_up_spec. by rewrite Z2Nat.id by lia.
Qed.

(** The largest amount up to which all amounts are kept. *)
Definition AMOUNT_LIMIT : Z := 2049638230412172402.

(** The amounts that are stored faithfully. *)
Definition amount_ok (n : Z) : Prop := 0 <= n < 2 ^ 63 /\ (n <= AMOUNT_LIMIT \/ n mod 10 = 0).

Lemma packed_fits m e n : n = m * 10 ^ e -> 0 < m -> 0 <= e <= 9 -> (e < 9 -> m mod 10 <> 0) -> amount_ok n -> 1 + packed m e * 10 + e < 2 ^ 64.
Proof.
  intros V M E D [B A]. unfold packed, AMOUNT_LIMIT in *. change (2 ^ 63) with 9223372036854775808 in B. change (2 ^ 64) with 18446744073709551616.
  destruct (Z.eq_dec e 0) as [->|Ne].
  - rewrite Z.mul_1_r in V. subst n. specialize (D ltac:(lia)). destruct (Z.ltb_spec 0 9); lia.
  - assert (P : 10 <= 10 ^ e) by (change 10 with (10 ^ 1) at 1; apply Z.pow_le_mono_r; lia). assert (m * 10 <= n) by (subst n; apply Z.mul_le_mono_nonneg_l; lia).
    destruct (Z.ltb_spec e 9); lia.
Qed.

Lemma amount_roundtrip n : amount_ok n -> exists c, CompressAmount n = Some c /\ 0 <= c < 2 ^ 64 /\ DecompressAmount c = n.
Proof.
  intros A. pose proof A as [B _]. destruct (Z.eq_dec n 0) as [->|N]; [exists 0; split; [done|]; split; [lia|done]|].
  destruct (CompressAmount_spec n) as (m & e & V & M & E & D & ->); [lia|]. pose proof (packed_fits m e n V M E D A) as F.
  assert (P : 0 <= packed m e) by (unfold packed; destruct (Z.ltb_spec e 9); [specialize (D ltac:(lia))|]; lia).
  eexists. split; [done|]. rewrite uint_id by lia. split; [lia|]. assert (Q : 1 <= 10 ^ e) by (pose proof (Z.pow_pos_nonneg 10 e); lia).
  assert (m <= n) by (subst n; rewrite <- (Z.mul_1_r m) at 1; apply Z.mul_le_mono_nonneg_l; lia).
  rewrite DecompressAmount_spec by first [done | lia]. rewrite <- V. apply uint_id. lia.
Qed.

(** Beyond the limit an odd amount is changed. *)
Lemma odd_amount_lost n : AMOUNT_LIMIT < n < 2 ^ 63 -> Z.odd n = true -> exists c, CompressAmount n = Some c /\ 0 <= c < 2 ^ 64 /\ DecompressAmount c <> n.
Proof.
  intros L O. unfold AMOUNT_LIMIT in L. destruct (CompressAmount_spec n) as (m & e & V & M & E & D & ->); [lia|]. eexists. split; [done|].
  set (c := u64 _). assert (C : 0 <= c < 2 ^ 64) by (apply uint_range; lia). split; [done|]. intros X. unfold DecompressAmount in X. destruct (Z.eqb_spec c 0); [lia|].
  set (e' := (c - 1) mod 10) in *. assert (E' : 0 <= e' < 10) by (apply Z.mod_pos_bound; lia). change (2 ^ 64) with 18446744073709551616 in C.
  destruct (Z.eq_dec e' 0) as [Z0|Z0].
  - rewrite Z0 in X. change (Z.to_nat 0) with 0%nat in X. cbn [scale_up] in X. change (0 <? 9) with true in X. cbv iota in X. rewrite uint_id in X; lia.
  - assert (S : forall k, scale_up (Z.to_nat e') (u64 k) <> n).
    { intros k Y. rewrite scale_up_spec, Z2Nat.id in Y by lia. apply Bool.eq_true_false_abs in O; [done|]. rewrite <- Y. unfold uint.
      replace e' with (1 + (e' - 1)) by lia. rewrite Z.pow_add_r, Z.pow_1_r by lia.
      rewrite Z.mod_eq by lia. change (2 ^ 64) with (2 * 2 ^ 63). rewrite Z.odd_sub. change 10 with (2 * 5) at 1.
      replace (k * (2 * 5 * 10 ^ (e' - 1))) with (2 * (k * 5 * 10 ^ (e' - 1))) by ring.
      rewrite <- Z.mul_assoc, !Z.odd_mul. done. }
    destruct (e' <? 9); by apply S in X.
Qed.

(** ** Lemmas on scripts *)

(** A list of known length as its elements. *)
Tactic Notation "take_list" hyp(s) int_or_var(n) := do n (destruct s as [|? s]; [done|]); destruct s; [|done].

Lemma IsToKeyID_spec s id : IsToKeyID s = Some id -> length id = 20%nat /\ s = [OP_DUP : Z; OP_HASH160 : Z; 20] ++ id ++ [OP_EQUALVERIFY : Z; OP_CHECKSIG : Z].
Proof.
  unfold IsToKeyID. destruct (_ && _) eqn:E; [|done]. intros [= <-]. rewrite !andb_true_iff, !Z.eqb_eq in E. destruct E as (((((L & A) & B) & C) & D) & F).
  assert (L' : length s = 25%nat) by (unfold size in L; lia). clear L. take_list s 25. cbn in *. by subst.
Qed.

Lemma IsToScriptID_spec s id : IsToScriptID s = Some id -> length id = 20%nat /\ s = [OP_HASH160 : Z; 20] ++ id ++ [OP_EQUAL : Z].
Proof.
  unfold IsToScriptID. destruct (_ && _) eqn:E; [|done]. intros [= <-]. rewrite !andb_true_iff, !Z.eqb_eq in E. destruct E as (((L & A) & B) & C).
  assert (L' : length s = 23%nat) by (unfold size in L; lia). clear L. take_list s 23. cbn in *. by subst.
Qed.

Section Keys.
Context `{Curve}.

Lemma IsToPubKey_spec s k : IsToPubKey s = Some k ->
  (exists h x, (h = 2 \/ h = 3) /\ length x = 32%nat /\ k = h :: x /\ s = [33; h] ++ x ++ [OP_CHECKSIG : Z]) \/
  (exists x y, length x = 32%nat /\ length y = 32%nat /\ k = 4 :: x ++ y /\ IsFullyValid k = true /\ s = [65] ++ k ++ [OP_CHECKSIG : Z]).
Proof.
  unfold IsToPubKey. destruct ((size s =? 35) && _ && _ && _) eqn:E.
  - rewrite !andb_true_iff, orb_true_iff, !Z.eqb_eq in E. destruct E as (((L & A) & B) & C). assert (L' : length s = 35%nat) by (unfold size in L; lia). clear L.
    intros K. left. assert (k = take 33 (drop 1 s)) as -> by (unfold CPubKey in K; case_match; congruence). clear K. take_list s 35. cbn in *. subst.
    destruct C as [-> | ->]; [eexists 2, _|eexists 3, _]; (split; [by auto|]; split; [|split; reflexivity]; reflexivity).
  - destruct ((size s =? 67) && _ && _ && _) eqn:E2; [|done]. rewrite !andb_true_iff, !Z.eqb_eq in E2. destruct E2 as (((L & A) & B) & C).
    assert (L' : length s = 67%nat) by (unfold size in L; lia). clear L E. intros K. right. destruct (CPubKey (take 65 (drop 1 s))) as [k'|] eqn:K'; [|done].
    cbn [mbind option_bind] in K. destruct (IsFullyValid k') eqn:V; [|done]. injection K as ->.
    assert (k = take 65 (drop 1 s)) as Ek by (unfold CPubKey in K'; case_match; congruence). clear K'. exists (take 32 (drop 2 s)), (take 32 (drop 34 s)).
    split; [rewrite length_take, length_drop; lia|]. split; [rewrite length_take, length_drop; lia|]. split; [|split; [done|]]; rewrite Ek; clear V Ek; take_list s 67; cbn in *; by subst.
Qed.

(** The bytes of a compressed script, and what they stand for. *)
Lemma CompressScript_spec `{!CurveLaws} s c : CompressScript s = Some c -> exists nSize vch, c = nSize :: vch /\ 0 <= nSize < nSpecialScripts /\
  size vch = GetSpecialScriptSize nSize /\ DecompressScript nSize vch = Some (Some s).
Proof.
  unfold CompressScript. destruct (IsToKeyID s) as [id|] eqn:K.
  { apply IsToKeyID_spec in K as [L ->]. intros [= <-]. exists 0, id. split; [done|]. split; [done|]. split; [unfold size; by rewrite L|].
    unfold DecompressScript. cbn [Z.eqb]. by rewrite take_ge by lia. }
  destruct (IsToScriptID s) as [id|] eqn:K2.
  { apply IsToScriptID_spec in K2 as [L ->]. intros [= <-]. exists 1, id. split; [done|]. split; [done|]. split; [unfold size; by rewrite L|].
    unfold DecompressScript. cbn [Z.eqb Pos.eqb]. by rewrite take_ge by lia. }
  destruct (IsToPubKey s) as [k|] eqn:K3; [|done]. apply IsToPubKey_spec in K3 as [(h & x & Hh & L & -> & ->)|(x & y & Lx & Ly & Ek & V & ->)].
  - replace ((at_ (h :: x) 0 =? 2) || (at_ (h :: x) 0 =? 3)) with true by (by destruct Hh as [-> | ->]). intros [= <-]. exists h, x.
    rewrite drop_0, take_ge by lia. split; [done|]. split; [unfold nSpecialScripts; lia|].
    split; [unfold size; rewrite L; by destruct Hh as [-> | ->]|]. unfold DecompressScript. destruct Hh as [-> | ->]; cbn [Z.eqb Pos.eqb orb]; by rewrite take_ge by lia.
  - rewrite Ek. cbn [at_ nth]. change ((4 =? 2) || (4 =? 3)) with false. change (4 =? 4) with true. cbv iota. cbn [drop]. rewrite drop_0, take_app_le, take_ge by lia. intros [= <-].
    set (b := Z.land (nth 63 (x ++ y) 0) 1). assert (B : b = 0 \/ b = 1) by (unfold b; rewrite (land_ones_mod _ 1) by lia; lia).
    exists (Z.lor 4 b), x. assert (O : Z.lor 4 b = 4 + b) by (by destruct B as [-> | ->]). rewrite O. split; [done|]. split; [unfold nSpecialScripts; lia|].
    split; [unfold size; rewrite Lx; by destruct B as [-> | ->]|]. unfold IsFullyValid in V. destruct (ec_pubkey_parse k) as [p|] eqn:P; [|done].
    rewrite Ek in P. pose proof (parse_parity x y p Lx Ly P) as Q. pose proof (serialize_parse x y p Lx Ly P) as R.
    assert (Eb : Z.land (at_ y 31) 1 = b) by (unfold b, at_; by rewrite app_nth2, Lx by lia). rewrite Eb in Q.
    unfold DecompressScript, Decompress. rewrite (take_ge x 32) by lia. replace (4 + b - 2) with (2 + b) by lia.
    assert (C : CPubKey (2 + b :: x) = Some (2 + b :: x)) by (unfold CPubKey, size; cbn [length]; rewrite Lx; by destruct B as [-> | ->]).
    rewrite C, Q. cbn [fmap option_fmap option_map]. rewrite R. replace (size (4 :: x ++ y) =? 65) with true by (unfold size; cbn [length]; by rewrite length_app, Lx, Ly).
    by destruct B as [-> | ->].
Qed.

Lemma ReadVarInt_digit max n s : 0 <= n < 0x80 -> 0 < max -> ReadVarInt max (n :: s) = Some (n, s).
Proof.
  intros N M. unfold ReadVarInt. cbn [ReadVarInt_loop]. destruct (Z.ltb_spec (Z.shiftr max 7) 0) as [X|_]; [rewrite Z.shiftr_div_pow2 in X by lia; lia|].
  rewrite byte_land_7f, Z.mod_small by (unfold byte_ok; lia). change (Z.shiftl 0 7) with 0. rewrite Z.lor_0_l.
  rewrite byte_land_80 by (unfold byte_ok; lia). by destruct (Z.ltb_spec n 0x80); [|lia].
Qed.

(** Every script is read back as it was written, except that a script that is
    too long to be spent becomes a short one that cannot be spent either. *)
Lemma script_roundtrip `{!CurveLaws} s rest : size s + nSpecialScripts < 2 ^ 32 ->
  ScriptCompression_unser (ScriptCompression_ser s ++ rest) = Some (if MAX_SCRIPT_SIZE <? size s then [OP_RETURN : Z] else s, rest).
Proof.
  intros B. unfold ScriptCompression_ser. destruct (CompressScript s) as [c|] eqn:E.
  - destruct (CompressScript_spec s c E) as (nSize & vch & -> & N & L & D). unfold ScriptCompression_unser. cbn [app].
    unfold nSpecialScripts in *. rewrite ReadVarInt_digit by lia. cbn [mbind option_bind]. destruct (Z.ltb_spec nSize 6); [|lia]. rewrite <- L, read_app. cbn [mbind option_bind].
    rewrite D. cbn [mbind option_bind default]. assert (S : size s <= 67).
    { unfold CompressScript in E. destruct (IsToKeyID s) eqn:K; [apply IsToKeyID_spec in K as [K ->]; rewrite !size_app; unfold size; rewrite K; done|].
      destruct (IsToScriptID s) eqn:K2; [apply IsToScriptID_spec in K2 as [K2 ->]; rewrite !size_app; unfold size; rewrite K2; done|].
      destruct (IsToPubKey s) eqn:K3; [|done]. apply IsToPubKey_spec in K3 as [(h & x & _ & K3 & _ & ->)|(x & y & K3 & K4 & -> & _ & ->)].
      - rewrite !size_app. unfold size. rewrite K3. done.
      - rewrite !size_app. unfold size. cbn [length]. rewrite length_app, K3, K4. done. }
    destruct (Z.ltb_spec MAX_SCRIPT_SIZE (size s)); [unfold MAX_SCRIPT_SIZE in *; lia|done].
  - unfold ScriptCompression_unser. pose proof (size_nonneg s). unfold nSpecialScripts in *. rewrite uint_id, <- app_assoc by lia. rewrite ReadVarInt_write by lia. cbn [mbind option_bind].
    destruct (Z.ltb_spec (size s + 6) 6); [lia|]. replace (size s + 6 - 6) with (size s) by lia. by rewrite read_app.
Qed.

(** ** Lemmas on coins *)

(** The coins that are stored faithfully. *)
Definition out_ok (o : CTxOut) : Prop := amount_ok (nValue o) /\ size (scriptPubKey o) <= MAX_SCRIPT_SIZE.
Definition coin_ok (c : Coin) : Prop := out_ok (coin_out c) /\ 0 <= coin_nHeight c < 2 ^ 30.

Lemma txout_roundtrip `{!CurveLaws} o : out_ok o -> exists bs, TxOutCompression_ser o = Some bs /\ forall rest, TxOutCompression_unser (bs ++ rest) = Some (o, rest).
Proof.
  intros [A S]. pose proof A as [B _]. destruct (amount_roundtrip _ A) as (c & E & C & D). unfold TxOutCompression_ser, AmountCompression_ser.
  rewrite uint_id, E by lia. cbn [mbind option_bind]. eexists. split; [done|]. intros rest. unfold TxOutCompression_unser, AmountCompression_unser.
  rewrite <- app_assoc, ReadVarInt_write by lia. cbn [mbind option_bind]. rewrite D, i64_id by (unfold in_i64, INT64_MIN, INT64_MAX; lia).
  unfold MAX_SCRIPT_SIZE in S. rewrite script_roundtrip by (unfold nSpecialScripts; lia). cbn [mbind option_bind]. unfold MAX_SCRIPT_SIZE. destruct (Z.ltb_spec 10000 (size (scriptPubKey o))); [lia|].
  by destruct o.
Qed.

Lemma coin_code_spec c : 0 <= coin_nHeight c < 2 ^ 30 -> 0 <= coin_code c < 2 ^ 32 /\ Z.shiftr (coin_code c) 2 = coin_nHeight c /\ coin_of_code (coin_code c) (coin_out c) = c.
Proof.
  intros B. set (f := (if fCoinBase c then 2 else 0) + (if fCoinStake c then 1 else 0)).
  assert (F : 0 <= f < 4) by (unfold f; destruct (fCoinBase c), (fCoinStake c); lia).
  assert (E : coin_code c = Z.lor (Z.shiftl (coin_nHeight c) 2) f).
  { rewrite lor_shiftl_add by lia. unfold coin_code, f. rewrite uint_id by (fold f; destruct (fCoinBase c), (fCoinStake c); lia). lia. }
  assert (L : coin_code c = coin_nHeight c * 4 + f) by (rewrite E, lor_shiftl_add by lia; lia). split; [lia|].
  assert (Q : Z.shiftr (coin_code c) 2 = coin_nHeight c) by (rewrite Z.shiftr_div_pow2, L by lia; lia). split; [done|].
  unfold coin_of_code. rewrite Q, E. assert (T : forall k, 0 < k < 4 -> Z.land (Z.lor (Z.shiftl (coin_nHeight c) 2) f) k = Z.land f k).
  { intros k K. rewrite Z.land_lor_distr_l, land_shiftl_low by lia. done. }
  rewrite !T by lia. unfold f. destruct c as [[] [] o h]; done.
Qed.

Lemma coin_roundtrip `{!CurveLaws} c : coin_ok c -> exists bs, Coin_ser c = Some bs /\ forall rest, Coin_unser (bs ++ rest) = Some (c, rest).
Proof.
  intros [O B]. destruct (txout_roundtrip _ O) as (bs & E & U). destruct (coin_code_spec c B) as (R & _ & Co). unfold Coin_ser, assert, IsSpent, TxOut_IsNull.
  destruct O as [[A _] _]. destruct (Z.eqb_spec (nValue (coin_out c)) (-1)); [lia|]. rewrite E. cbn [negb mbind option_bind]. eexists. split; [done|]. intros rest.
  unfold Coin_unser. rewrite <- app_assoc, ReadVarInt_write by lia. cbn [mbind option_bind]. rewrite U. cbn [mbind option_bind]. by rewrite Co.
Qed.

Lemma txinundo_roundtrip `{!CurveLaws} c : coin_ok c -> exists bs, TxInUndo_ser c = Some bs /\ forall rest, TxInUndo_unser (bs ++ rest) = Some (c, rest).
Proof.
  intros [O B]. destruct (txout_roundtrip _ O) as (bs & E & U). destruct (coin_code_spec c B) as (R & Sh & Co). unfold TxInUndo_ser. rewrite E. cbn [mbind option_bind].
  eexists. split; [done|]. intros rest. unfold TxInUndo_unser. rewrite <- !app_assoc, ReadVarInt_write by lia. cbn [mbind option_bind]. rewrite Sh.
  destruct (0 <? coin_nHeight c); cbn [app mbind option_bind]; [rewrite ReadVarInt_digit by lia; cbn [mbind option_bind]|]; rewrite U; cbn [mbind option_bind]; by rewrite Co.
Qed.

Lemma vector_roundtrip {A} (ser : A -> option bytes) (unser : Reader A) (good : A -> Prop) l :
  (forall a, good a -> exists bs, ser a = Some bs /\ forall rest, unser (bs ++ rest) = Some (a, rest)) -> Forall good l -> size l <= MAX_SIZE ->
  exists bs, vector_ser ser l = Some bs /\ forall rest, vector_unser unser (bs ++ rest) = Some (l, rest).
Proof.
  intros G F S. assert (X : exists bss, mapM ser l = Some bss /\ forall rest, elements_unser unser (length l) (concat bss ++ rest) = Some (l, rest)).
  { clear S. induction F as [|a l Ga F (bss & E & U)]; [by exists []|]. destruct (G a Ga) as (bs & Ea & Ua). exists (bs :: bss).
    split; [cbn [mapM]; by rewrite Ea; cbn [mbind option_bind]; rewrite E|]. intros rest. cbn [concat length elements_unser]. rewrite <- app_assoc, Ua. cbn [mbind option_bind].
    by rewrite U. }
  destruct X as (bss & E & U). unfold vector_ser. rewrite E. cbn [mbind option_bind]. eexists. split; [done|]. intros rest. unfold vector_unser.
  rewrite <- app_assoc. pose proof (size_nonneg l). rewrite ReadCompactSize_write by (unfold MAX_SIZE in *; lia). cbn [mbind option_bind]. rewrite to_nat_size. apply U.
Qed.

Lemma txundo_roundtrip `{!CurveLaws} u : Forall coin_ok u -> size u <= MAX_SIZE -> exists bs, CTxUndo_ser u = Some bs /\ forall rest, CTxUndo_unser (bs ++ rest) = Some (u, rest).
Proof. intros F S. exact (vector_roundtrip _ _ coin_ok u txinundo_roundtrip F S). Qed.

(** The undo data of a block that can be stored. *)
Definition undo_storable (u : CBlockUndo) : Prop := size u <= MAX_SIZE /\ Forall (fun t => Forall coin_ok t /\ size t <= MAX_SIZE) u.

Lemma blockundo_roundtrip `{!CurveLaws} u : undo_storable u -> exists bs, CBlockUndo_ser u = Some bs /\ forall rest, CBlockUndo_unser (bs ++ rest) = Some (u, rest).
Proof.
  intros [S F]. refine (vector_roundtrip _ _ (fun t => Forall coin_ok t /\ size t <= MAX_SIZE) u _ F S). intros t [G T]. by apply txundo_roundtrip.
Qed.

End Keys.

#[export] Instance flat_curve_laws : CurveLaws (H := flat_curve).
Proof.
  split; cbn [point ec_pubkey_parse ec_pubkey_serialize flat_curve].
  - intros [x y]. cbn [length]. rewrite !length_app, length_take, length_app, !length_replicate. cbn [length]. lia.
  - intros x y p Lx Ly. rewrite take_app_le, take_ge, drop_app_le, drop_ge by lia. cbn [app Z.eqb Pos.eqb andb orb]. rewrite Lx. cbn [Nat.eqb].
    rewrite !andb_true_r. case_bool_decide as D0; [|case_bool_decide as D1; [|done]]; intros [= <-]; rewrite take_app_le, take_ge by lia; by subst.
  - intros x y p Lx Ly. rewrite take_app_le, take_ge, drop_app_le, drop_ge by lia. cbn [app Z.eqb Pos.eqb andb orb]. rewrite Lx. cbn [Nat.eqb].
    rewrite !andb_true_r. case_bool_decide as D0; [|case_bool_decide as D1; [|done]]; intros [= <-]; by subst y.
Qed.

(** ** Properties *)

(** C16. Every amount is compressed without a failed assertion and without loss
    up to 20.49 billion coins, and beyond if it is a multiple of ten base
    units; beyond that limit the 64-bit product wraps, and an odd amount is
    read back as another one. *)
Theorem amount_compression n : 0 <= n < 2 ^ 63 -> exists c, CompressAmount n = Some c /\ 0 <= c < 2 ^ 64 /\
  (n <= AMOUNT_LIMIT \/ n mod 10 = 0 -> DecompressAmount c = n) /\ (AMOUNT_LIMIT < n -> Z.odd n = true -> DecompressAmount c <> n).
Proof.
  intros B. destruct (Z.leb_spec n AMOUNT_LIMIT) as [L|L].
  - destruct (amount_roundtrip n) as (c & E & C & D); [split; [done|by left]|]. exists c. repeat split; [done|lia|lia|done|lia].
  - destruct (Z.odd n) eqn:O.
    + destruct (odd_amount_lost n ltac:(lia) O) as (c & E & C & D). exists c. repeat split; [done|lia|lia| |done].
      intros [|M]; [lia|]. apply Bool.eq_true_false_abs in O; [done|]. rewrite (Z.div_mod n 10), M, Z.add_0_r by lia. by rewrite Z.odd_mul.
    + destruct (Z.eqb_spec (n mod 10) 0) as [M|M].
      * destruct (amount_roundtrip n) as (c & E & C & D); [split; [done|by right]|]. exists c. repeat split; [done|lia|lia|done|done].
      * destruct (CompressAmount_spec n) as (m & e & _ & _ & _ & _ & E); [unfold AMOUNT_LIMIT in L; lia|]. eexists. split; [exact E|].
        split; [apply uint_range; lia|]. split; [intros []; lia|done].
Qed.

Lemma amount_compression_witness : exists c, CompressAmount 2518619178082191781 = Some c /\ DecompressAmount c <> 2518619178082191781.
Proof. destruct (amount_compression 2518619178082191781 ltac:(lia)) as (c & E & _ & _ & D). exists c. split; [exact E|]. apply D; reflexivity. Defined.

(** C15. Undo data survives the disk.  The record that [UndoWriteToDisk] appends
    is read back, whatever follows it in the file, as the undo data that was
    written, and its checksum is found to be right; so is a coin of the
    database.  The data must be within the limits of the format
    ([undo_storable]): amounts of at most 2049638230412172402 units or
    multiples of ten, scripts of at most 10000 bytes, heights below 2^30, and
    vectors of at most 2^25 elements. *)
Theorem undo_record_roundtrip `{HashSizes, CurveLaws} MessageStart undo hashBlock later : length MessageStart = 4%nat -> undo_storable undo ->
  exists record, UndoWriteToDisk MessageStart undo hashBlock = Some record /\ UndoReadFromDisk (drop 8 record ++ later) hashBlock = Some undo /\
    forall txundo c, txundo ∈ undo -> c ∈ txundo -> exists bs, Coin_ser c = Some bs /\ forall rest, Coin_unser (bs ++ rest) = Some (c, rest).
Proof.
  intros M U. destruct (blockundo_roundtrip undo U) as (bs & E & R). unfold UndoWriteToDisk. rewrite E. cbn [mbind option_bind]. eexists. split; [done|]. split.
  - rewrite drop_app_ge, drop_app_ge by (rewrite ?M; unfold ser_writedata32; rewrite ?length_le_bytes; lia). unfold ser_writedata32. rewrite M, length_le_bytes. cbn [Nat.sub]. rewrite drop_0, <- app_assoc.
    unfold UndoReadFromDisk. rewrite R. cbn [mbind option_bind]. rewrite length_app, Nat.add_sub, take_app_length.
    pose proof (Hash_bound (le_bytes 32 hashBlock ++ bs)) as B. cbn [Unser uint256_fmt uint_fmt]. rewrite read_le_bytes. cbn [mbind option_bind].
    rewrite le_value_bytes, Z.mod_small by (change (256 ^ Z.of_nat 32) with (2 ^ 256); lia). by rewrite Z.eqb_refl.
  - intros t c T C. destruct U as [_ U]. rewrite Forall_forall in U. destruct (U t T) as [G _]. rewrite Forall_forall in G. by apply coin_roundtrip, G.
Qed.

Definition spent_coin : Coin := {|
  fCoinBase := true; fCoinStake := false; coin_nHeight := 7;
  coin_out := {| nValue := 12300; scriptPubKey := [65; 4] ++ replicate 32 9 ++ replicate 31 0 ++ [1] ++ [OP_CHECKSIG : Z] |}
|}.

Lemma undo_record_roundtrip_witness : exists record, UndoWriteToDisk (H := checksum_hashes) (H0 := flat_curve) [1; 2; 3; 4] [[]; [spent_coin]] 5 = Some record /\
  UndoReadFromDisk (H := checksum_hashes) (H0 := flat_curve) (drop 8 record ++ [9]) 5 = Some [[]; [spent_coin]] /\ size record = 80.
Proof.
  destruct (undo_record_roundtrip (H := checksum_hashes) (H0 := checksum_sizes) (H1 := flat_curve) (H2 := flat_curve_laws) [1; 2; 3; 4] [[]; [spent_coin]] 5 [9]) as (record & E & R & _).
  - reflexivity.
  - split; [vm_compute; discriminate|]. repeat constructor; first [vm_compute; discriminate | left; vm_compute; discriminate].
  - assert (V : match UndoWriteToDisk (H := checksum_hashes) (H0 := flat_curve) [1; 2; 3; 4] [[]; [spent_coin]] 5 with Some r => size r = 80 | None => False end)
      by (vm_compute; reflexivity). rewrite E in V. exists record. split; [exact E|]. split; [exact R|exact V].
Defined.

(** The coin of the staking pool exceeds the limit for years: after the second
    payout (here of a single staker on the test network, whose schedule is the
    common one), the change has an amount that the database returns as 43
    billion coins instead of 25. *)
Example pool_change_lost : exists outs change,
  BuildSuperblockPayoutOutputs (CreateChainParams REGTEST) (fun _ => Some ex_block) 24 (pool_script (CreateChainParams REGTEST)) 2519309589041095890 = Some (Some outs) /\
  last outs = Some change /\ nValue change = 2518619178082191781 /\ exists bs, let coin o := {| fCoinBase := false; fCoinStake := false; coin_out := o; coin_nHeight := 24 |} in
    Coin_ser (H := flat_curve) (coin change) = Some bs /\
    Coin_unser (H := flat_curve) bs = Some (coin {| nValue := 4336481977967669536; scriptPubKey := scriptPubKey change |}, []).
Proof.
  eexists _, _. split; [vm_compute; reflexivity|]. split; [reflexivity|]. split; [reflexivity|]. eexists. cbv zeta. split; [vm_compute; reflexivity|]. vm_compute. reflexivity.
Qed.
