(* ===== verification/TxDB.v ===== *)
(** * The database of coins

    txdb.cpp and sapling/sapling_txdb.cpp: [CCoinsViewDB], the view at the
    bottom of the stack of caches, and the batches of dbwrapper.h in which it is
    written.

    LevelDB is a finite map of byte strings in which a batch of writes takes
    effect as a whole or not at all.  What [BatchWrite] passes to it is a list
    of batches, so a crash leaves the database after some prefix of the list.  A
    note commitment tree is stored in a format that [TreeFormat] gives. *)

From S2P Require Import NoteTree NoteHash.
From S2P Require Import Prelude Params Crypto Serialize Script Transaction Coins Connect Compressor.

Local Open Scope krova_scope.

(** ** LevelDB *)

Abbreviation LevelDB := (gmap bytes bytes).

Inductive db_write := Put (key value : bytes) | Del (key : bytes).

Definition apply_write (d : LevelDB) (w : db_write) : LevelDB :=
  match w with Put k v => <[k := v]> d | Del k => delete k d end.

Definition WriteBatch (d : LevelDB) (b : list db_write) : LevelDB := foldl apply_write d b.

(** ** CDBBatch *)

Record CDBBatch := { batch : list db_write; size_estimate : Z }.

Definition batch_new : CDBBatch := {| batch := []; size_estimate := 0 |}.

Definition batch_Write (b : CDBBatch) (slKey slValue : bytes) : CDBBatch := {|
  batch := batch b ++ [Put slKey slValue];
  size_estimate := size_estimate b + (3 + Z.b2z (127 <? size slKey) + size slKey + Z.b2z (127 <? size slValue) + size slValue)
|}.

Definition batch_Erase (b : CDBBatch) (slKey : bytes) : CDBBatch := {|
  batch := batch b ++ [Del slKey];
  size_estimate := size_estimate b + (2 + Z.b2z (127 <? size slKey) + size slKey)
|}.

(** ** Keys *)

Definition DB_COIN : Z := 67.
Definition DB_BEST_BLOCK : bytes := [66].
Definition DB_HEAD_BLOCKS : bytes := [72].
Definition DB_SAPLING_ANCHOR : Z := 90.
Definition DB_SAPLING_NULLIFIER : Z := 83.
Definition DB_BEST_SAPLING_ANCHOR : bytes := [122].

Definition CoinEntry (o : COutPoint) : bytes := DB_COIN :: le_bytes 32 (op_hash o) ++ WriteVarInt 4 (op_n o).

(** [std::make_pair(c, hash)]. *)
Definition hash_key (c hash : Z) : bytes := c :: le_bytes 32 hash.

(** [CDBWrapper::Read]: a missing key and a value that cannot be read are the
    same answer. *)
Definition db_Read {A} (unser : Reader A) (d : LevelDB) (key : bytes) : option A := v ← d !! key; fst <$> unser v.

(** The stored form of a tree. *)
Class TreeFormat `{SaplingTree} := {
  tree_format : Formatter SaplingMerkleTree;
  tree_format_lawful :: Lawful tree_format
}.

Definition op_okb (o : COutPoint) : bool := (0 <=? op_hash o) && (op_hash o <? 2 ^ 256) && (0 <=? op_n o) && (op_n o <? 2 ^ 32).

Section CCoinsViewDB.
Context `{SaplingTree, Curve}.
Context `{!TreeFormat}.

(** ** Reading *)

Definition db_GetCoin (d : LevelDB) (outpoint : COutPoint) : option Coin := db_Read Coin_unser d (CoinEntry outpoint).

Definition db_HaveCoin (d : LevelDB) (outpoint : COutPoint) : bool := bool_decide (is_Some (d !! CoinEntry outpoint)).

Definition db_GetBestBlock (d : LevelDB) : Z := default 0 (db_Read (Unser uint256_fmt) d DB_BEST_BLOCK).

Definition db_GetHeadBlocks (d : LevelDB) : list Z := default [] (db_Read (Unser (VectorFormatter uint256_fmt)) d DB_HEAD_BLOCKS).

Definition db_GetSaplingAnchorAt (d : LevelDB) (rt : Z) : option SaplingMerkleTree :=
  if rt =? tree_root tree_empty then Some tree_empty else db_Read (Unser tree_format) d (hash_key DB_SAPLING_ANCHOR rt).

Definition db_GetNullifier (d : LevelDB) (nf : Z) : bool :=
  bool_decide (is_Some (db_Read ser_readdata8 d (hash_key DB_SAPLING_NULLIFIER nf))).

Definition db_GetBestAnchor (d : LevelDB) : Z := default (tree_root tree_empty) (db_Read (Unser uint256_fmt) d DB_BEST_SAPLING_ANCHOR).

(** The view that a cache over the database sees.  An outpoint is a 256-bit hash
    and a 32-bit number; there is no coin at any other. *)
Definition db_view (d : LevelDB) : CCoinsView := {|
  v_GetCoin o := if op_okb o then db_GetCoin d o else None;
  v_GetBestBlock := db_GetBestBlock d;
  v_GetSaplingAnchorAt := db_GetSaplingAnchorAt d;
  v_GetNullifier := db_GetNullifier d;
  v_GetBestAnchor := db_GetBestAnchor d
|}.

(** ** Writing *)

Definition batch_coin (b : CDBBatch) (it : COutPoint * CCoinsCacheEntry) : option CDBBatch :=
  let '(o, e) := it in
  if DIRTY e then
    if IsSpent (coin e) then Some (batch_Erase b (CoinEntry o))
    else v ← Coin_ser (coin e); Some (batch_Write b (CoinEntry o) v)
  else Some b.

(** The batches that are written while there are entries, and the one that is
    left. *)
Fixpoint batch_coins (batch_size : Z) (b : CDBBatch) (l : list (COutPoint * CCoinsCacheEntry)) : option (list (list db_write) * CDBBatch) :=
  match l with
  | [] => Some ([], b)
  | it :: l =>
      b ← batch_coin b it;
      if batch_size <? size_estimate b then '(written, last) ← batch_coins batch_size batch_new l; Some (batch b :: written, last)
      else batch_coins batch_size b l
  end.

Definition batch_anchor (b : CDBBatch) (it : Z * CAnchorsSaplingCacheEntry) : CDBBatch :=
  let '(rt, e) := it in
  if a_DIRTY e then
    if negb (a_entered e) then batch_Erase b (hash_key DB_SAPLING_ANCHOR rt)
    else if negb (rt =? tree_root tree_empty) then batch_Write b (hash_key DB_SAPLING_ANCHOR rt) (Ser tree_format (a_tree e))
    else b
  else b.

Definition batch_nullifier (b : CDBBatch) (it : Z * CNullifiersCacheEntry) : CDBBatch :=
  let '(nf, e) := it in
  if n_DIRTY e then
    if negb (n_entered e) then batch_Erase b (hash_key DB_SAPLING_NULLIFIER nf)
    else batch_Write b (hash_key DB_SAPLING_NULLIFIER nf) (ser_writedata8 1)
  else b.

Definition BatchWriteSapling (b : CDBBatch) (hashSaplingAnchor : Z) (mapSaplingAnchors : list (Z * CAnchorsSaplingCacheEntry))
    (mapSaplingNullifiers : list (Z * CNullifiersCacheEntry)) : CDBBatch :=
  let b := foldl batch_anchor b mapSaplingAnchors in
  let b := foldl batch_nullifier b mapSaplingNullifiers in
  if negb (hashSaplingAnchor =? 0) then batch_Write b DB_BEST_SAPLING_ANCHOR (Ser uint256_fmt hashSaplingAnchor) else b.

(** The batches in the order in which they are written; the maps are given in
    an iteration order of the hash tables. *)
Definition db_BatchWrite (batch_size : Z) (d : LevelDB) (mapCoins : list (COutPoint * CCoinsCacheEntry)) (hashBlock hashSaplingAnchor : Z)
    (mapSaplingAnchors : list (Z * CAnchorsSaplingCacheEntry)) (mapSaplingNullifiers : list (Z * CNullifiersCacheEntry)) : option (list (list db_write)) :=
  assert (negb (hashBlock =? 0)) (
    old_tip ← (let old_tip := db_GetBestBlock d in
      if old_tip =? 0 then
        match db_GetHeadBlocks d with
        | [h0; h1] => assert (h0 =? hashBlock) (Some h1)
        | _ => Some old_tip
        end
      else Some old_tip);
    let b := batch_Write (batch_Erase batch_new DB_BEST_BLOCK) DB_HEAD_BLOCKS (Ser (VectorFormatter uint256_fmt) [hashBlock; old_tip]) in
    '(written, b) ← batch_coins batch_size b mapCoins;
    let b := BatchWriteSapling b hashSaplingAnchor mapSaplingAnchors mapSaplingNullifiers in
    let b := batch_Write (batch_Erase b DB_HEAD_BLOCKS) DB_BEST_BLOCK (Ser uint256_fmt hashBlock) in
    Some (written ++ [batch b])).

(** [CCoinsViewCache::Flush] over the database. *)
Definition db_Flush (batch_size : Z) (d : LevelDB) (v : CCoinsViewCache) : option (list (list db_write)) :=
  db_BatchWrite batch_size d (map_to_list (cacheCoins v)) (hashBlock v) (hashSaplingAnchor v)
    (map_to_list (cacheSaplingAnchors v)) (map_to_list (cacheSaplingNullifiers v)).

(** The database after the first [k] batches. *)
Definition crashed (d : LevelDB) (batches : list (list db_write)) (k : nat) : LevelDB := foldl WriteBatch d (take k batches).

Definition written (d : LevelDB) (batches : list (list db_write)) : LevelDB := foldl WriteBatch d batches.

End CCoinsViewDB.

(** ** Lemmas on batches *)

Definition w_key (w : db_write) : bytes := match w with Put k _ | Del k => k end.
Definition w_value (w : db_write) : option bytes := match w with Put _ v => Some v | Del _ => None end.

(** What a list of writes leaves under a key: the last of them counts. *)
Fixpoint effect (ws : list db_write) (k : bytes) : option (option bytes) :=
  match ws with
  | [] => None
  | w :: ws => match effect ws k with Some r => Some r | None => if decide (w_key w = k) then Some (w_value w) else None end
  end.

Lemma lookup_WriteBatch ws : forall d k, WriteBatch d ws !! k = default (d !! k) (effect ws k).
Proof.
  induction ws as [|w ws IH]; intros d k; [done|]. cbn [effect]. change (WriteBatch d (w :: ws)) with (WriteBatch (apply_write d w) ws). rewrite IH.
  destruct (effect ws k); [done|]. cbn [default]. destruct w as [k' v|k']; cbn [apply_write w_key w_value]; case_decide; subst; by simplify_map_eq.
Qed.

Lemma effect_app ws1 ws2 k : effect (ws1 ++ ws2) k = match effect ws2 k with Some r => Some r | None => effect ws1 k end.
Proof. induction ws1 as [|w ws1 IH]; cbn [app effect]; [by destruct (effect ws2 k)|]. rewrite IH. by destruct (effect ws2 k). Qed.

Lemma effect_None ws k : Forall (fun w => w_key w <> k) ws -> effect ws k = None.
Proof. induction 1 as [|w ws N _ IH]; [done|]. cbn [effect]. rewrite IH. by case_decide. Qed.

Lemma effect_Some ws k : is_Some (effect ws k) -> k ∈ w_key <$> ws.
Proof.
  induction ws as [|w ws IH]; cbn [effect]; [by intros []|]. intros E. cbn. destruct (effect ws k); [right; by apply IH|]. case_decide; [subst; left|by destruct E].
Qed.

(** A part of the writes has the effect of all of them or none. *)
Lemma effect_prefix p q k : NoDup (w_key <$> (p ++ q)) -> effect p k = None \/ effect (p ++ q) k = effect p k.
Proof.
  rewrite fmap_app, NoDup_app. intros (_ & N & _). destruct (effect p k) as [r|] eqn:E; [right|by left]. rewrite effect_app. rewrite effect_None; [done|].
  apply Forall_forall. intros w I K. apply (N k); [by apply effect_Some; rewrite E|]. rewrite <- K. by apply list_elem_of_fmap_2.
Qed.

Lemma written_concat d bs : written d bs = WriteBatch d (concat bs).
Proof. unfold written, WriteBatch. revert d. induction bs as [|b bs IH]; intros d; [done|]. cbn [concat foldl]. rewrite foldl_app. apply IH. Qed.

(** Writes that come from the entries of a map, at most one for each. *)
Section Entries.
Context {K A : Type} `{Countable K} (ws : K * A -> list db_write) (key : K -> bytes) (good : K -> Prop).
Context (key_inj : forall k1 k2, good k1 -> good k2 -> key k1 = key k2 -> k1 = k2).
Context (ws_key : forall k a, ws (k, a) = [] \/ exists w, ws (k, a) = [w] /\ w_key w = key k).

Lemma ws_keys l : Forall (fun w => exists k, k ∈ l.*1 /\ w_key w = key k) (concat (map ws l)).
Proof.
  apply Forall_forall. intros w (x & X & I)%list_elem_of_In%in_concat. rewrite in_map_iff in X. destruct X as ([k a] & <- & X). apply list_elem_of_In in X.
  exists k. split; [apply list_elem_of_fmap; by exists (k, a)|]. destruct (ws_key k a) as [E|(w' & E & W)]; rewrite E in I; [done|]. by destruct I as [<-|[]].
Qed.

Lemma effect_entries l k : NoDup l.*1 -> Forall good l.*1 -> good k ->
  effect (concat (map ws l)) (key k) = match (list_to_map l : gmap K A) !! k with Some a => effect (ws (k, a)) (key k) | None => None end.
Proof.
  intros ND G Gk. induction l as [|[k0 a] l IH]; [done|]. cbn [fmap list_fmap fst] in *. apply NoDup_cons in ND as [NI ND]. apply Forall_cons in G as [G0 G].
  cbn [map concat list_to_map foldr fst snd]. rewrite effect_app, IH by done. destruct (decide (k0 = k)) as [->|Ne].
  - rewrite not_elem_of_list_to_map_1 by done. by rewrite lookup_insert_eq.
  - rewrite lookup_insert_ne by done. assert (X : effect (ws (k0, a)) (key k) = None).
    { destruct (ws_key k0 a) as [->|(w & -> & W)]; [done|]. cbn [effect]. rewrite W. case_decide as D; [|done]. by apply key_inj in D. }
    rewrite X. by destruct (list_to_map l !! k) as [b|]; [destruct (effect (ws (k, b)) (key k))|].
Qed.

Lemma NoDup_entries l : NoDup l.*1 -> Forall good l.*1 -> NoDup (w_key <$> concat (map ws l)).
Proof.
  intros ND G. induction l as [|[k0 a] l IH]; [constructor|]. cbn [fmap list_fmap fst] in *. apply NoDup_cons in ND as [NI ND]. apply Forall_cons in G as [G0 G].
  cbn [map concat]. rewrite fmap_app, NoDup_app. split; [|split; [|by apply IH]].
  - destruct (ws_key k0 a) as [->|(w & -> & _)]; [constructor|apply NoDup_singleton].
  - intros x X Y. destruct (ws_key k0 a) as [E|(w & E & W)]; rewrite E in X; [by apply elem_of_nil in X|]. apply list_elem_of_singleton in X. subst x.
    apply list_elem_of_fmap in Y as (w' & Y & I). pose proof (proj1 (Forall_forall _ _) (ws_keys l) w' I) as (k' & K' & E'). rewrite W, E' in Y.
    assert (k0 = k') as -> by (apply key_inj; [done|by apply (proj1 (Forall_forall _ _) G)|done]). done.
Qed.

End Entries.

(** ** Lemmas on keys *)

Definition hash_ok (h : Z) : Prop := 0 <= h < 2 ^ 256.
Definition op_ok (o : COutPoint) : Prop := hash_ok (op_hash o) /\ 0 <= op_n o < 2 ^ 32.

Lemma op_okb_spec o : op_okb o = true <-> op_ok o.
Proof. unfold op_okb, op_ok, hash_ok. rewrite !andb_true_iff, !Z.leb_le, !Z.ltb_lt. tauto. Qed.

Lemma le_bytes32_inj a b : hash_ok a -> hash_ok b -> le_bytes 32 a = le_bytes 32 b -> a = b.
Proof.
  intros A B E. apply (f_equal le_value) in E. rewrite !le_value_bytes in E. change (256 ^ Z.of_nat 32) with (2 ^ 256) in E. by rewrite !Z.mod_small in E by done.
Qed.

Lemma hash_key_inj c a b : hash_ok a -> hash_ok b -> hash_key c a = hash_key c b -> a = b.
Proof. intros A B E. apply (f_equal tail) in E. cbn [tail hash_key] in E. by apply le_bytes32_inj. Qed.

Lemma CoinEntry_inj a b : op_ok a -> op_ok b -> CoinEntry a = CoinEntry b -> a = b.
Proof.
  intros [A1 A2] [B1 B2] E. apply (f_equal tail) in E. cbn [tail CoinEntry] in E. apply app_inj_1 in E as [E1 E2]; [|by rewrite !length_le_bytes]. apply le_bytes32_inj in E1; [|done..].
  pose proof (ReadVarInt_write 4 (2 ^ 32 - 1) (op_n a) [] ltac:(lia) ltac:(lia) ltac:(lia)) as X. rewrite E2 in X.
  rewrite (ReadVarInt_write 4 (2 ^ 32 - 1) (op_n b) [] ltac:(lia) ltac:(lia) ltac:(lia)) in X. injection X as X. destruct a, b; cbn in *; by subst.
Qed.

(** Keys with different first bytes. *)
Definition kind (k : bytes) : option Z := head k.

Lemma kind_ne k k' : kind k <> kind k' -> k <> k'.
Proof. by intros N ->. Qed.

Lemma db_Read_uint256 d k h : hash_ok h -> d !! k = Some (Ser uint256_fmt h) -> db_Read (Unser uint256_fmt) d k = Some h.
Proof. intros O E. unfold db_Read. rewrite E. cbn [mbind option_bind]. rewrite <- (app_nil_r (Ser _ _)). by rewrite unser_ser. Qed.

Section Storage.
Context `{SaplingTree, CurveLaws}.
Context `{!TreeFormat}.

(** ** The writes of each entry *)

Definition coin_ws (it : COutPoint * CCoinsCacheEntry) : list db_write :=
  let '(o, e) := it in
  if DIRTY e then if IsSpent (coin e) then [Del (CoinEntry o)] else match Coin_ser (coin e) with Some v => [Put (CoinEntry o) v] | None => [] end else [].

Definition anchor_ws (it : Z * CAnchorsSaplingCacheEntry) : list db_write :=
  let '(rt, e) := it in
  if a_DIRTY e then
    if negb (a_entered e) then [Del (hash_key DB_SAPLING_ANCHOR rt)]
    else if negb (rt =? tree_root tree_empty) then [Put (hash_key DB_SAPLING_ANCHOR rt) (Ser tree_format (a_tree e))] else []
  else [].

Definition nullifier_ws (it : Z * CNullifiersCacheEntry) : list db_write :=
  let '(nf, e) := it in
  if n_DIRTY e then if negb (n_entered e) then [Del (hash_key DB_SAPLING_NULLIFIER nf)] else [Put (hash_key DB_SAPLING_NULLIFIER nf) (ser_writedata8 1)] else [].

Lemma coin_ws_key o e : coin_ws (o, e) = [] \/ exists w, coin_ws (o, e) = [w] /\ w_key w = CoinEntry o.
Proof. unfold coin_ws. repeat case_match; eauto. Qed.

Lemma anchor_ws_key rt e : anchor_ws (rt, e) = [] \/ exists w, anchor_ws (rt, e) = [w] /\ w_key w = hash_key DB_SAPLING_ANCHOR rt.
Proof. unfold anchor_ws. repeat case_match; eauto. Qed.

Lemma nullifier_ws_key nf e : nullifier_ws (nf, e) = [] \/ exists w, nullifier_ws (nf, e) = [w] /\ w_key w = hash_key DB_SAPLING_NULLIFIER nf.
Proof. unfold nullifier_ws. repeat case_match; eauto. Qed.

(** Entries of the cache that can be stored. *)
Definition coin_storable (o : COutPoint) (e : CCoinsCacheEntry) : Prop := op_ok o /\ (DIRTY e = true -> IsSpent (coin e) = false -> coin_ok (coin e)).
Definition anchor_storable (rt : Z) (e : CAnchorsSaplingCacheEntry) : Prop := hash_ok rt /\ (a_DIRTY e = true -> a_entered e = true -> ok tree_format (a_tree e)).

Lemma batch_coin_spec b o e : coin_storable o e -> exists b', batch_coin b (o, e) = Some b' /\ batch b' = batch b ++ coin_ws (o, e).
Proof.
  intros [_ S]. unfold batch_coin, coin_ws. destruct (DIRTY e); [|exists b; by rewrite app_nil_r]. destruct (IsSpent (coin e)); [by eexists|].
  destruct (coin_roundtrip (coin e)) as (v & -> & _); [by apply S|]. by eexists.
Qed.

Lemma batch_coins_spec bs l : forall b, Forall (fun it => coin_storable it.1 it.2) l -> exists chunks last,
  batch_coins bs b l = Some (chunks, last) /\ concat chunks ++ batch last = batch b ++ concat (map coin_ws l) /\ (forall c cs, chunks = c :: cs -> exists r, c = batch b ++ r).
Proof.
  induction l as [|[o e] l IH]; intros b F; [exists [], b; split; [done|]; split; [by rewrite app_nil_r|done]|]. apply Forall_cons in F as [S F].
  destruct (batch_coin_spec b o e S) as (b' & E & B). cbn [batch_coins]. rewrite E. cbn [mbind option_bind]. cbn [map concat]. destruct (bs <? size_estimate b').
  - destruct (IH batch_new F) as (chunks & last & -> & C & _). cbn [mbind option_bind]. exists (batch b' :: chunks), last. split; [done|]. split.
    + cbn [concat]. rewrite <- app_assoc, C, B. cbn [batch batch_new app]. by rewrite <- app_assoc.
    + intros c cs [= <- _]. by eexists.
  - destruct (IH b' F) as (chunks & last & -> & C & P). exists chunks, last. split; [done|]. split; [rewrite C, B; by rewrite <- app_assoc|].
    intros c cs ->. destruct (P c cs eq_refl) as (r & ->). rewrite B, <- app_assoc. by eexists.
Qed.

Lemma foldl_batch {A} (step : CDBBatch -> A -> CDBBatch) (ws : A -> list db_write) l : (forall b a, batch (step b a) = batch b ++ ws a) ->
  forall b, batch (foldl step b l) = batch b ++ concat (map ws l).
Proof. intros S. induction l as [|a l IH]; intros b; cbn [foldl map concat]; [by rewrite app_nil_r|]. by rewrite IH, S, app_assoc. Qed.

Lemma batch_anchor_spec b it : batch (batch_anchor b it) = batch b ++ anchor_ws it.
Proof. destruct it as [rt e]. unfold batch_anchor, anchor_ws. repeat case_match; try done; by rewrite app_nil_r. Qed.

Lemma batch_nullifier_spec b it : batch (batch_nullifier b it) = batch b ++ nullifier_ws it.
Proof. destruct it as [nf e]. unfold batch_nullifier, nullifier_ws. repeat case_match; try done; by rewrite app_nil_r. Qed.

Definition best_anchor_ws (h : Z) : list db_write := if negb (h =? 0) then [Put DB_BEST_SAPLING_ANCHOR (Ser uint256_fmt h)] else [].

Lemma BatchWriteSapling_spec b h anchors nullifiers :
  batch (BatchWriteSapling b h anchors nullifiers) = batch b ++ concat (map anchor_ws anchors) ++ concat (map nullifier_ws nullifiers) ++ best_anchor_ws h.
Proof.
  unfold BatchWriteSapling, best_anchor_ws. destruct (negb (h =? 0)); cbn [batch batch_Write];
    rewrite (foldl_batch _ nullifier_ws), (foldl_batch _ anchor_ws) by first [apply batch_anchor_spec | apply batch_nullifier_spec]; by rewrite ?app_nil_r, <- !app_assoc.
Qed.

(** ** All writes *)

Definition start_ws (hashBlock old_tip : Z) : list db_write :=
  [Del DB_BEST_BLOCK; Put DB_HEAD_BLOCKS (Ser (VectorFormatter uint256_fmt) [hashBlock; old_tip])].
Definition end_ws (hashBlock : Z) : list db_write := [Del DB_HEAD_BLOCKS; Put DB_BEST_BLOCK (Ser uint256_fmt hashBlock)].

(** The tip of the last complete write. *)
Definition old_tip (d : LevelDB) : Z :=
  if db_GetBestBlock d =? 0 then match db_GetHeadBlocks d with [_; h1] => h1 | _ => 0 end else db_GetBestBlock d.

(** A write that was interrupted is only followed by one to the same block. *)
Definition resumable (d : LevelDB) (hashBlock : Z) : Prop :=
  db_GetBestBlock d = 0 -> match db_GetHeadBlocks d with [h0; _] => h0 = hashBlock | _ => True end.

Lemma db_BatchWrite_writes bs d coins hb ha anchors nullifiers : hb <> 0 -> resumable d hb -> Forall (fun it => coin_storable it.1 it.2) coins ->
  exists chunks r last, db_BatchWrite bs d coins hb ha anchors nullifiers = Some (chunks ++ [last]) /\
    concat chunks ++ r = start_ws hb (old_tip d) ++ concat (map coin_ws coins) /\
    last = r ++ concat (map anchor_ws anchors) ++ concat (map nullifier_ws nullifiers) ++ best_anchor_ws ha ++ end_ws hb /\
    (forall c cs, chunks = c :: cs -> exists r', c = start_ws hb (old_tip d) ++ r').
Proof.
  intros N R F. unfold db_BatchWrite, assert. destruct (Z.eqb_spec hb 0); [done|]. cbn [negb]. match goal with |- context [mbind _ ?m] => assert (E : m = Some (old_tip d)) end.
  { unfold resumable, old_tip in *. destruct (Z.eqb_spec (db_GetBestBlock d) 0) as [Z0|]; [|done]. specialize (R Z0). destruct (db_GetHeadBlocks d) as [|h0 [|h1 []]]; try by rewrite Z0.
    subst h0. by rewrite Z.eqb_refl. }
  rewrite E. cbn [mbind option_bind]. set (b0 := batch_Write _ _ _). destruct (batch_coins_spec bs coins b0 F) as (chunks & last & -> & C & P). cbn [mbind option_bind].
  exists chunks, (batch last). eexists. split; [done|]. split; [done|]. split; [|done]. cbn [batch batch_Write batch_Erase]. rewrite BatchWriteSapling_spec. unfold end_ws. by rewrite <- !app_assoc.
Qed.

Lemma effect_kind ws c k : Forall (fun w => kind (w_key w) = Some c) ws -> kind k <> Some c -> effect ws k = None.
Proof. intros F N. apply effect_None. apply (Forall_impl _ _ _ F). intros w E K. apply N. by rewrite <- K. Qed.

Lemma kind_entries {K A} (ws : K * A -> list db_write) (key : K -> bytes) c l :
  (forall k a, ws (k, a) = [] \/ exists w, ws (k, a) = [w] /\ w_key w = key k) -> (forall k, kind (key k) = Some c) -> Forall (fun w => kind (w_key w) = Some c) (concat (map ws l)).
Proof. intros W K0. apply (Forall_impl _ _ _ (ws_keys ws key W l)). intros w (k & _ & ->). apply K0. Qed.

Lemma kind_coins l : Forall (fun w => kind (w_key w) = Some DB_COIN) (concat (map coin_ws l)).
Proof. by apply (kind_entries _ CoinEntry); [apply coin_ws_key|]. Qed.
Lemma kind_anchors l : Forall (fun w => kind (w_key w) = Some DB_SAPLING_ANCHOR) (concat (map anchor_ws l)).
Proof. by apply (kind_entries _ (hash_key DB_SAPLING_ANCHOR)); [apply anchor_ws_key|]. Qed.
Lemma kind_nullifiers l : Forall (fun w => kind (w_key w) = Some DB_SAPLING_NULLIFIER) (concat (map nullifier_ws l)).
Proof. by apply (kind_entries _ (hash_key DB_SAPLING_NULLIFIER)); [apply nullifier_ws_key|]. Qed.
Lemma kind_best h : Forall (fun w => kind (w_key w) = Some 122) (best_anchor_ws h).
Proof. unfold best_anchor_ws. case_match; repeat constructor. Qed.

Lemma effect_start hb old k : kind k <> Some 66 -> kind k <> Some 72 -> effect (start_ws hb old) k = None.
Proof. intros N1 N2. apply effect_None. repeat constructor; intros <-; done. Qed.
Lemma effect_end hb k : kind k <> Some 66 -> kind k <> Some 72 -> effect (end_ws hb) k = None.
Proof. intros N1 N2. apply effect_None. repeat constructor; intros <-; done. Qed.

(** The effect of all writes under each kind of key. *)
Section Whole.
Context (coins : list (COutPoint * CCoinsCacheEntry)) (anchors : list (Z * CAnchorsSaplingCacheEntry)) (nullifiers : list (Z * CNullifiersCacheEntry)) (hb ha old : Z).

Definition all_ws : list db_write :=
  start_ws hb old ++ concat (map coin_ws coins) ++ concat (map anchor_ws anchors) ++ concat (map nullifier_ws nullifiers) ++ best_anchor_ws ha ++ end_ws hb.

Ltac other_kinds := rewrite ?effect_end, ?effect_start by done; rewrite ?(effect_kind _ _ _ (kind_coins coins)), ?(effect_kind _ _ _ (kind_anchors anchors)),
  ?(effect_kind _ _ _ (kind_nullifiers nullifiers)), ?(effect_kind _ _ _ (kind_best ha)) by done.

Lemma effect_all_coin o : effect all_ws (CoinEntry o) = effect (concat (map coin_ws coins)) (CoinEntry o).
Proof. unfold all_ws. rewrite !effect_app. other_kinds. by destruct (effect _ _). Qed.
Lemma effect_all_anchor rt : effect all_ws (hash_key DB_SAPLING_ANCHOR rt) = effect (concat (map anchor_ws anchors)) (hash_key DB_SAPLING_ANCHOR rt).
Proof. unfold all_ws. rewrite !effect_app. other_kinds. by destruct (effect _ _). Qed.
Lemma effect_all_nullifier nf : effect all_ws (hash_key DB_SAPLING_NULLIFIER nf) = effect (concat (map nullifier_ws nullifiers)) (hash_key DB_SAPLING_NULLIFIER nf).
Proof. unfold all_ws. rewrite !effect_app. other_kinds. by destruct (effect _ _). Qed.
Lemma effect_all_best_anchor : effect all_ws DB_BEST_SAPLING_ANCHOR = if ha =? 0 then None else Some (Some (Ser uint256_fmt ha)).
Proof. unfold all_ws. rewrite !effect_app. other_kinds. unfold best_anchor_ws. by destruct (ha =? 0). Qed.
Lemma effect_all_best_block : effect all_ws DB_BEST_BLOCK = Some (Some (Ser uint256_fmt hb)).
Proof. unfold all_ws. by rewrite !effect_app. Qed.
Lemma effect_all_heads : effect all_ws DB_HEAD_BLOCKS = Some None.
Proof. unfold all_ws. by rewrite !effect_app. Qed.

End Whole.

(** ** A flush, complete or interrupted *)

(** A cache whose changes fit the formats. *)
Record storable (v : CCoinsViewCache) : Prop := {
  st_block : 0 < hashBlock v < 2 ^ 256;
  st_anchor : hash_ok (hashSaplingAnchor v);
  st_coins : map_Forall coin_storable (cacheCoins v);
  st_anchors : map_Forall anchor_storable (cacheSaplingAnchors v);
  st_nullifiers : map_Forall (fun nf _ => hash_ok nf) (cacheSaplingNullifiers v)
}.

Definition flush_ws (d : LevelDB) (v : CCoinsViewCache) : list db_write :=
  all_ws (map_to_list (cacheCoins v)) (map_to_list (cacheSaplingAnchors v)) (map_to_list (cacheSaplingNullifiers v)) (hashBlock v) (hashSaplingAnchor v) (old_tip d).

Lemma keys_of {K A} `{Countable K} (P : K -> A -> Prop) (Q : K -> Prop) (m : gmap K A) : map_Forall P m -> (forall k a, P k a -> Q k) -> Forall Q (map_to_list m).*1.
Proof. intros F I. apply Forall_fmap, Forall_forall. intros [k a] E%elem_of_map_to_list. exact (I k a (F k a E)). Qed.

Lemma effect_flush_coin d v o : storable v -> op_ok o ->
  effect (flush_ws d v) (CoinEntry o) = match cacheCoins v !! o with Some e => effect (coin_ws (o, e)) (CoinEntry o) | None => None end.
Proof.
  intros S O. unfold flush_ws. rewrite effect_all_coin, (effect_entries coin_ws CoinEntry op_ok CoinEntry_inj coin_ws_key); [by rewrite list_to_map_to_list|apply NoDup_fst_map_to_list| |done].
  apply (keys_of _ _ _ (st_coins v S)). by intros ? ? [].
Qed.

Lemma db_flush_coin d v o : storable v -> op_ok o -> coins_wf (db_view d) v -> unspent (db_GetCoin (WriteBatch d (flush_ws d v)) o) = utxo (db_view d) v o.
Proof.
  intros S O W. unfold utxo. cbn [v_GetCoin db_view]. rewrite (proj2 (op_okb_spec o) O). unfold db_GetCoin at 1, db_Read. rewrite lookup_WriteBatch, effect_flush_coin by done.
  destruct (cacheCoins v !! o) as [e|] eqn:E; [|done]. pose proof (st_coins v S _ _ E) as [_ St]. pose proof (W _ _ E) as [_ D]. cbn [v_GetCoin db_view] in D. rewrite (proj2 (op_okb_spec o) O) in D. unfold coin_ws. destruct (DIRTY e) eqn:Di.
  - destruct (IsSpent (coin e)) eqn:Sp; cbn [effect w_key w_value from_option]; [rewrite decide_True by done; cbn; by rewrite Sp|].
    destruct (coin_roundtrip (coin e)) as (bs & -> & R); [by apply St|]. cbn [effect w_key w_value from_option]. rewrite decide_True by done. cbn [from_option id mbind option_bind].
    rewrite <- (app_nil_r bs), R. done.
  - cbn [effect from_option]. symmetry. by apply D.
Qed.

Lemma db_flush_nullifier d v nf : storable v -> hash_ok nf -> sapling_wf (db_view d) v -> db_GetNullifier (WriteBatch d (flush_ws d v)) nf = nullified (db_view d) v nf.
Proof.
  intros S O (_ & _ & W). unfold db_GetNullifier, db_Read, flush_ws. rewrite lookup_WriteBatch, effect_all_nullifier.
  rewrite (effect_entries nullifier_ws (hash_key DB_SAPLING_NULLIFIER) hash_ok (hash_key_inj _) nullifier_ws_key); [|apply NoDup_fst_map_to_list| |done].
  2: { apply (keys_of _ _ _ (st_nullifiers v S)). by intros ? ?. }
  rewrite list_to_map_to_list. unfold nullified. destruct (cacheSaplingNullifiers v !! nf) as [e|] eqn:E; [|done].
  specialize (W _ _ E). unfold nullifier_wf in W. unfold nullifier_ws. destruct (n_DIRTY e); [|cbn [effect from_option]; symmetry; by apply W].
  destruct (n_entered e); cbn [negb effect w_key w_value]; by rewrite decide_True by done.
Qed.

Lemma db_flush_anchor d v rt : storable v -> hash_ok rt -> rt <> tree_root tree_empty -> sapling_wf (db_view d) v ->
  is_Some (db_GetSaplingAnchorAt (WriteBatch d (flush_ws d v)) rt) <-> is_Some (anchor_tree (db_view d) v rt).
Proof.
  intros S O N (_ & W & _). unfold db_GetSaplingAnchorAt, db_Read, flush_ws. destruct (Z.eqb_spec rt (tree_root tree_empty)); [done|]. rewrite lookup_WriteBatch, effect_all_anchor.
  rewrite (effect_entries anchor_ws (hash_key DB_SAPLING_ANCHOR) hash_ok (hash_key_inj _) anchor_ws_key); [|apply NoDup_fst_map_to_list| |done].
  2: { apply (keys_of _ _ _ (st_anchors v S)). by intros ? ? []. }
  rewrite list_to_map_to_list. unfold anchor_tree. cbn [v_GetSaplingAnchorAt db_view]. assert (B : db_GetSaplingAnchorAt d rt = db_Read (Unser tree_format) d (hash_key DB_SAPLING_ANCHOR rt)).
  { unfold db_GetSaplingAnchorAt. by destruct (Z.eqb_spec rt (tree_root tree_empty)). }
  destruct (cacheSaplingAnchors v !! rt) as [e|] eqn:E; [|by rewrite B].
  destruct (W _ _ E) as [_ C]. cbn [v_GetSaplingAnchorAt db_view] in C. rewrite B in C. destruct (st_anchors v S _ _ E) as [_ T]. unfold anchor_ws. destruct (a_DIRTY e).
  - destruct (a_entered e); cbn [negb].
    + destruct (Z.eqb_spec rt (tree_root tree_empty)); [done|]. cbn [negb effect w_key w_value]. rewrite decide_True by done. cbn [from_option id mbind option_bind].
      rewrite <- (app_nil_r (Ser _ _)), unser_ser by (by apply T). split; eauto.
    + cbn [effect w_key w_value]. rewrite decide_True by done. cbn. done.
  - cbn [effect from_option]. rewrite C by done. case_bool_decide as X; split; [by eauto|by intros _|by intros Y|by intros []].
Qed.

Lemma db_flush_best_anchor d v : storable v -> db_GetBestAnchor (WriteBatch d (flush_ws d v)) = fst (GetBestAnchor (db_view d) v).
Proof.
  intros S. unfold db_GetBestAnchor, flush_ws. destruct (Z.eqb_spec (hashSaplingAnchor v) 0) as [Z0|Z0].
  - unfold db_Read. rewrite lookup_WriteBatch, effect_all_best_anchor, Z0. cbn. by rewrite Z0.
  - rewrite (db_Read_uint256 _ _ (hashSaplingAnchor v)); [cbn; by destruct (Z.eqb_spec (hashSaplingAnchor v) 0)|apply S|].
    rewrite lookup_WriteBatch, effect_all_best_anchor. by destruct (Z.eqb_spec (hashSaplingAnchor v) 0).
Qed.

Lemma db_flush_blocks d v : storable v -> db_GetBestBlock (WriteBatch d (flush_ws d v)) = hashBlock v /\ db_GetHeadBlocks (WriteBatch d (flush_ws d v)) = [].
Proof.
  intros S. split.
  - unfold db_GetBestBlock. rewrite (db_Read_uint256 _ _ (hashBlock v)); [done|pose proof (st_block v S); unfold hash_ok; lia|]. unfold flush_ws. by rewrite lookup_WriteBatch, effect_all_best_block.
  - unfold db_GetHeadBlocks, db_Read, flush_ws. by rewrite lookup_WriteBatch, effect_all_heads.
Qed.

(** An interrupted write: some of the coins. *)
Lemma db_crash_coin d v p q o : storable v -> op_ok o -> p ++ q = concat (map coin_ws (map_to_list (cacheCoins v))) ->
  let d1 := WriteBatch d (start_ws (hashBlock v) (old_tip d) ++ p) in db_GetCoin d1 o = db_GetCoin d o \/ db_GetCoin d1 o = db_GetCoin (WriteBatch d (flush_ws d v)) o.
Proof.
  intros S O E d1. unfold d1, db_GetCoin, db_Read. rewrite !lookup_WriteBatch, effect_app, effect_start by done. unfold flush_ws. rewrite effect_all_coin, <- E.
  assert (N : NoDup (w_key <$> (p ++ q))).
  { rewrite E. apply (NoDup_entries coin_ws CoinEntry op_ok CoinEntry_inj coin_ws_key); [apply NoDup_fst_map_to_list|]. apply (keys_of _ _ _ (st_coins v S)). by intros ? ? []. }
  destruct (effect_prefix p q (CoinEntry o) N) as [-> | ->]; [by left|right]. by destruct (effect p (CoinEntry o)).
Qed.

Lemma db_crash_rest d v p q : hash_ok (old_tip d) -> 0 < hashBlock v < 2 ^ 256 -> p ++ q = concat (map coin_ws (map_to_list (cacheCoins v))) ->
  let d1 := WriteBatch d (start_ws (hashBlock v) (old_tip d) ++ p) in
  db_GetBestBlock d1 = 0 /\ db_GetHeadBlocks d1 = [hashBlock v; old_tip d] /\ (forall nf, db_GetNullifier d1 nf = db_GetNullifier d nf) /\
  (forall rt, db_GetSaplingAnchorAt d1 rt = db_GetSaplingAnchorAt d rt) /\ db_GetBestAnchor d1 = db_GetBestAnchor d.
Proof.
  intros O B E d1. assert (K : Forall (fun w => kind (w_key w) = Some DB_COIN) p).
  { pose proof (kind_coins (map_to_list (cacheCoins v))) as K. rewrite <- E in K. by apply Forall_app in K as [K _]. }
  assert (L : forall k, kind k <> Some DB_COIN -> d1 !! k = default (d !! k) (effect (start_ws (hashBlock v) (old_tip d)) k)).
  { intros k N. unfold d1. by rewrite lookup_WriteBatch, effect_app, (effect_kind _ _ _ K). }
  split; [unfold db_GetBestBlock, db_Read; by rewrite L|]. split.
  - unfold db_GetHeadBlocks, db_Read. rewrite L by done. cbn [effect start_ws w_key w_value]. rewrite decide_True by done. cbn [from_option id mbind option_bind].
    rewrite <- (app_nil_r (Ser _ _)), unser_ser; [done|]. split; [done|]. assert (X : forall h, hash_ok h -> ok uint256_fmt h) by (intros h Hh; exact Hh).
    apply Forall_cons. split; [apply X; unfold hash_ok; lia|]. apply Forall_cons. split; [by apply X|constructor].
  - split; [|split].
    + intros nf. unfold db_GetNullifier, db_Read. by rewrite L, effect_start.
    + intros rt. unfold db_GetSaplingAnchorAt, db_Read. by rewrite L, effect_start.
    + unfold db_GetBestAnchor, db_Read. by rewrite L, effect_start.
Qed.

(** The batches of a flush, together and cut short. *)
Lemma db_Flush_batches batch_size d v : storable v -> resumable d (hashBlock v) -> exists batches, db_Flush batch_size d v = Some batches /\
  written d batches = WriteBatch d (flush_ws d v) /\
  forall k, (0 < k < length batches)%nat -> exists p q, p ++ q = concat (map coin_ws (map_to_list (cacheCoins v))) /\ crashed d batches k = WriteBatch d (start_ws (hashBlock v) (old_tip d) ++ p).
Proof.
  intros St R. pose proof (st_block v St) as B. unfold db_Flush.
  destruct (db_BatchWrite_writes batch_size d (map_to_list (cacheCoins v)) (hashBlock v) (hashSaplingAnchor v) (map_to_list (cacheSaplingAnchors v)) (map_to_list (cacheSaplingNullifiers v)))
    as (chunks & r & last & E & C & L & P); [lia|done|apply Forall_forall; intros [o e] I%elem_of_map_to_list; exact (st_coins v St _ _ I)|].
  exists (chunks ++ [last]). split; [done|]. split.
  { rewrite written_concat, concat_app. cbn [concat]. rewrite app_nil_r, L, app_assoc, C. unfold flush_ws, all_ws. by rewrite <- app_assoc. }
  intros k [K0 K1]. rewrite length_app in K1. cbn [length] in K1. destruct chunks as [|c cs]; [cbn in K1; lia|]. destruct (P c cs eq_refl) as (r' & Ec).
  destruct k as [|k]; [lia|]. exists (r' ++ concat (take k cs)), (concat (drop k cs) ++ r). split.
  - apply (app_inv_head (start_ws (hashBlock v) (old_tip d))). rewrite <- C, Ec. cbn [concat]. rewrite <- !app_assoc. f_equal. f_equal. rewrite app_assoc. f_equal.
    by rewrite <- concat_app, take_drop.
  - unfold crashed. fold (written d (take (S k) ((c :: cs) ++ [last]))). rewrite written_concat. f_equal. cbn [app take]. rewrite take_app_le by (cbn in K1; lia). cbn [concat]. by rewrite Ec, <- app_assoc.
Qed.

End Storage.

(** The format of incrementalmerkletree.h, over any Pedersen hash. *)
Definition note_format (pedersen : nat -> Z -> Z -> Z) : TreeFormat (H := sapling_tree pedersen).
Proof. exact {| tree_format := tree_fmt SAPLING_DEPTH : Formatter (SaplingMerkleTree (SaplingTree := sapling_tree pedersen)); tree_format_lawful := tree_fmt_lawful SAPLING_DEPTH |}. Defined.

(** A format for the counting tree of the examples. *)
Definition counting_format : TreeFormat (H := counting_tree).
Proof. exact {| tree_format := uint256_fmt : Formatter (SaplingMerkleTree (SaplingTree := counting_tree)); tree_format_lawful := _ |}. Defined.

(** ** Properties *)

(** C8. A flush of the cache to the database takes effect as a whole.  When all
    batches are written, the database is a view with the same unspent outputs,
    nullifiers, anchors and best block as the cache had over the old database.
    When the node dies in between, the database says so: it has no best block
    but names the new and the old one, each coin is as before or as after, and
    the shielded data are those from before.

    The conditions: the cache is well formed over the database, its best block
    is not null, the database is complete or was left by an interrupted write
    to the same block, and what is to be written fits the formats
    ([storable]): hashes of 256 bits, coins with amounts that survive their
    compression (at most 2049638230412172402 units or a multiple of ten),
    scripts of at most 10000 bytes and heights below 2^30. *)
Theorem db_flush_atomic `{SaplingTree, CurveLaws} `{!TreeFormat} batch_size d v : storable v -> cache_wf (db_view d) v -> resumable d (hashBlock v) -> hash_ok (old_tip d) ->
  exists batches, db_Flush batch_size d v = Some batches /\
    (let d' := written d batches in
     db_GetBestBlock d' = hashBlock v /\ db_GetHeadBlocks d' = [] /\ db_GetBestAnchor d' = fst (GetBestAnchor (db_view d) v) /\
     (forall o, op_ok o -> unspent (db_GetCoin d' o) = utxo (db_view d) v o) /\ (forall nf, hash_ok nf -> db_GetNullifier d' nf = nullified (db_view d) v nf) /\
     (forall rt, hash_ok rt -> rt <> tree_root tree_empty -> is_Some (db_GetSaplingAnchorAt d' rt) <-> is_Some (anchor_tree (db_view d) v rt))) /\
    forall k, (0 < k < length batches)%nat -> let d1 := crashed d batches k in
      db_GetBestBlock d1 = 0 /\ db_GetHeadBlocks d1 = [hashBlock v; old_tip d] /\ db_GetBestAnchor d1 = db_GetBestAnchor d /\
      (forall o, op_ok o -> db_GetCoin d1 o = db_GetCoin d o \/ db_GetCoin d1 o = db_GetCoin (written d batches) o) /\
      (forall nf, db_GetNullifier d1 nf = db_GetNullifier d nf) /\ (forall rt, db_GetSaplingAnchorAt d1 rt = db_GetSaplingAnchorAt d rt).
Proof.
  intros St [Wc Ws] R O. pose proof (st_block v St) as B. destruct (db_Flush_batches batch_size d v St R) as (batches & E & Ew & K). exists batches. rewrite Ew. split; [done|]. split.
  - cbv zeta. destruct (db_flush_blocks d v St) as [-> ->]. split; [done|]. split; [done|]. split; [by apply db_flush_best_anchor|].
    split; [intros; by apply db_flush_coin|]. split; [intros; by apply db_flush_nullifier|intros; by apply db_flush_anchor].
  - intros k Hk. destruct (K k Hk) as (p & q & Eq & Ed). cbv zeta. rewrite Ed.
    destruct (db_crash_rest d v p q O B Eq) as (-> & -> & Nf & An & ->). split; [done|]. split; [done|]. split; [done|]. split; [|done].
    intros o Oo. exact (db_crash_coin d v p q o St Oo Eq).
Qed.

Definition two_coins : CCoinsViewCache (H := counting_tree) :=
  let e := {| coin := ex_coin; DIRTY := true; FRESH := true |} in
  {| cacheCoins := <[ex_outpoint 0 := e]> (<[ex_outpoint 1 := e]> ∅); hashBlock := 9; hashSaplingAnchor := 0; cacheSaplingAnchors := ∅; cacheSaplingNullifiers := ∅ |}.

Lemma db_flush_atomic_witness : exists batches, db_Flush (H := counting_tree) (H0 := flat_curve) (H1 := counting_format) 0 ∅ two_coins = Some batches /\
  length batches = 3%nat /\ db_GetHeadBlocks (crashed ∅ batches 1) = [9; 0] /\ db_GetBestBlock (written ∅ batches) = 9.
Proof.
  assert (C : map_Forall (fun o e => (o = ex_outpoint 0 \/ o = ex_outpoint 1) /\ e = {| coin := ex_coin; DIRTY := true; FRESH := true |}) (cacheCoins two_coins)).
  { apply map_Forall_insert_2; [by auto|]. apply map_Forall_insert_2; [by auto|]. apply map_Forall_empty. }
  destruct (db_flush_atomic (H := counting_tree) (H0 := flat_curve) (H1 := flat_curve_laws) (H2 := counting_format) 0 ∅ two_coins) as (batches & E & (B & _) & K).
  - split; [cbn; lia|cbn; unfold hash_ok; lia| |apply map_Forall_empty|apply map_Forall_empty].
    apply (map_Forall_impl _ _ _ C). intros o e [[-> | ->] ->]; (split; [unfold op_ok, hash_ok; cbn; lia|]; intros _ _; split; [|cbn; lia]; split; [|vm_compute; discriminate]; split; [vm_compute; split; [discriminate|reflexivity]|left; vm_compute; discriminate]).
  - split; [|split; [|split; apply map_Forall_empty]].
    + apply (map_Forall_impl _ _ _ C). intros o e [_ ->]. split; [intros _|discriminate]. cbn [v_GetCoin db_view]. unfold db_GetCoin, db_Read. rewrite lookup_empty. by destruct (op_okb o).
    + intros rt t. cbn [v_GetSaplingAnchorAt db_view]. unfold db_GetSaplingAnchorAt, db_Read. rewrite lookup_empty. cbn [mbind option_bind].
      destruct (Z.eqb_spec rt (tree_root (SaplingTree := counting_tree) tree_empty)) as [->|]; [intros [= <-]; reflexivity|discriminate].
  - intros _. reflexivity.
  - unfold hash_ok. vm_compute. split; [discriminate|reflexivity].
  - exists batches. split; [exact E|]. assert (L : match db_Flush (H := counting_tree) (H0 := flat_curve) (H1 := counting_format) 0 ∅ two_coins with
      | Some b => length b = 3%nat | None => False end) by (vm_compute; reflexivity). rewrite E in L. split; [exact L|]. split; [|exact B].
    destruct (K 1%nat) as (_ & X & _); [rewrite L; lia|]. exact X.
Defined.
