(* ===== verification/Supply.v ===== *)
(** * The money supply

    What [ConnectBlock] does to the set of unspent outputs, as a finite map:
    every transaction removes its inputs and adds its outputs, and a block
    that is accepted adds no more than its subsidy to the value of the set
    and of the shielded pool together. *)

From S2P Require Import Prelude Params Crypto Serialize Script Transaction Premine Superblock ValidationState Chain Coins.
From S2P Require Import TxVerify Interpreter Stake CheckBlock Connect Merkle.

(** ** Reads

    The lookups of a cache only fill it.  What is true of a single lookup is
    true of every function that only looks: [ReadClosed R] says that a
    preorder [R] on views relates the view before a lookup to the one after. *)

Class ReadClosed `{SaplingTree} (base : CCoinsView) (R : relation CCoinsViewCache) : Prop := {
  read_preorder :: PreOrder R;
  read_FetchCoin v o : R v (snd (FetchCoin base v o));
  read_GetNullifier v nf : R v (snd (GetNullifier base v nf));
  read_GetSaplingAnchorAt v rt : R v (snd (GetSaplingAnchorAt base v rt));
  read_GetBestBlock v : R v (snd (GetBestBlock base v));
  read_GetBestAnchor v : R v (snd (GetBestAnchor base v))
}.

Section Reads.
Context `{SaplingTree} (base : CCoinsView) (R : relation CCoinsViewCache) `{!ReadClosed base R}.

Lemma AccessCoin_reads v o c v' : AccessCoin base v o = (c, v') -> R v v'.
Proof.
  intros E. assert (v' = snd (AccessCoin base v o)) as -> by by rewrite E. rewrite AccessCoin_state. apply read_FetchCoin.
Qed.

Lemma HaveCoin_reads v o b v' : HaveCoin base v o = (b, v') -> R v v'.
Proof.
  intros E. assert (v' = snd (HaveCoin base v o)) as -> by by rewrite E. rewrite HaveCoin_state. apply read_FetchCoin.
Qed.

Lemma GetBestBlock_reads v h v' : GetBestBlock base v = (h, v') -> R v v'.
Proof. intros E. assert (v' = snd (GetBestBlock base v)) as -> by by rewrite E. apply read_GetBestBlock. Qed.

Lemma GetBestAnchor_reads v h v' : GetBestAnchor base v = (h, v') -> R v v'.
Proof. intros E. assert (v' = snd (GetBestAnchor base v)) as -> by by rewrite E. apply read_GetBestAnchor. Qed.

Lemma GetSaplingAnchorAt_reads v rt t v' : GetSaplingAnchorAt base v rt = (t, v') -> R v v'.
Proof. intros E. assert (v' = snd (GetSaplingAnchorAt base v rt)) as -> by by rewrite E. apply read_GetSaplingAnchorAt. Qed.

Lemma HaveInputs_reads v tx b v' : HaveInputs base v tx = (b, v') -> R v v'.
Proof.
  unfold HaveInputs. case_match; [|by intros [= _ <-]]. revert v b v'.
  induction (vin tx) as [|i ins IH]; intros v b v'; cbn; [by intros [= _ <-]|].
  destruct (HaveCoin base v (prevout i)) as [h v1] eqn:E. apply HaveCoin_reads in E.
  destruct h; cbn; [|by intros [= _ <-]]. intros X. by etrans; [|eapply IH].
Qed.

Lemma HaveShieldedRequirements_reads v tx b v' : HaveShieldedRequirements base v tx = (b, v') -> R v v'.
Proof.
  unfold HaveShieldedRequirements. case_match; [|by intros [= _ <-]]. generalize (match sapData tx with Some d => vShieldedSpend d | None => [] end).
  intros l. revert v b v'. induction l as [|s l IH]; intros v b v'; cbn; [by intros [= _ <-]|].
  pose proof (read_GetNullifier v (sd_nullifier s)) as N. destruct (GetNullifier base v (sd_nullifier s)) as [spent v1].
  cbn [snd] in N. destruct spent; [by intros [= _ <-]|].
  destruct (GetSaplingAnchorAt base v1 (sd_anchor s)) as [t v2] eqn:A. apply GetSaplingAnchorAt_reads in A.
  destruct t; [|intros [= _ <-]; by etrans]. intros X. etrans; [exact N|]. etrans; [exact A|]. by eapply IH.
Qed.

Lemma GetP2SHSigOpCount_reads v tx r v' : GetP2SHSigOpCount base v tx = Some (r, v') -> R v v'.
Proof.
  unfold GetP2SHSigOpCount. case_match; [by intros [= _ <-]|]. generalize 0. revert v r v'.
  induction (vin tx) as [|i ins IH]; intros v r v' n; cbn; [by intros [= _ <-]|].
  destruct (AccessCoin base v (prevout i)) as [c v1] eqn:E. apply AccessCoin_reads in E.
  match goal with |- context [mbind _ ?o] => destruct o as [k|] end; [|done]. cbn. intros X. by etrans; [|eapply IH].
Qed.

Lemma GetValueIn_reads tx v r v' : GetValueIn base v tx = Some (r, v') -> R v v'.
Proof.
  unfold GetValueIn. case_match; [by intros [= _ <-]|]. destruct (GetValueIn_loop base v (vin tx) 0) as [n v1] eqn:E.
  intros X. assert (v' = v1) as -> by (destruct (GetShieldedValueIn tx); [by injection X|done]). clear X. revert v E. generalize 0.
  induction (vin tx) as [|i ins IH]; intros k v; cbn [GetValueIn_loop]; [by intros [= _ <-]|].
  case_match; [apply IH|]. destruct (AccessCoin base v (prevout i)) as [c v2] eqn:A. apply AccessCoin_reads in A.
  intros X. by etrans; [|eapply IH].
Qed.

Lemma ConnectTx_inputs_reads n tx v r : ConnectTx_inputs base n tx v = Valid r -> R v (snd r).
Proof.
  unfold ConnectTx_inputs. destruct (IsCoinBase tx); [by intros [= <-]|].
  destruct (HaveInputs base v tx) as [have v1] eqn:E1. apply HaveInputs_reads in E1. intros X. valid_inv X.
  destruct (HaveShieldedRequirements base v1 tx) as [met v2] eqn:E2. apply HaveShieldedRequirements_reads in E2. valid_inv X.
  destruct r0 as [q v3]. apply of_option_Valid, GetP2SHSigOpCount_reads in E. valid_inv X. injection X as <-.
  cbn [snd]. etrans; [done|]. by etrans.
Qed.

End Reads.

Section CheckReads.
Context `{HashFunctions, Ecdsa, SaplingTree} (p : CChainParams) (m : BlockMap) (base : CCoinsView).
Context (R : relation CCoinsViewCache) `{!ReadClosed base R}.

Lemma CheckTxInputs_loop_reads h ins : forall v n r, CheckTxInputs_loop p base h ins v n = Valid r -> R v (snd r).
Proof.
  induction ins as [|i ins IH]; intros v n r X; cbn [CheckTxInputs_loop] in X; [by injection X as <-|].
  destruct (AccessCoin base v (prevout i)) as [c v1] eqn:A. apply (AccessCoin_reads base R) in A.
  destruct (IsSpent c); [done|]. valid_inv X. apply IH in X. by etrans.
Qed.

Lemma CheckScripts_reads q tx flags ins : forall i v r, CheckScripts base q tx flags ins i v = Valid r -> R v (snd r).
Proof.
  induction ins as [|j ins IH]; intros i v r X; cbn [CheckScripts] in X; [by injection X as <-|].
  destruct (AccessCoin base v (prevout j)) as [c v1] eqn:A. apply (AccessCoin_reads base R) in A. destruct (IsSpent c); [done|].
  valid_inv X. destruct r1 as [rest v2]. injection X as <-. apply IH in E0. by etrans.
Qed.

Lemma CheckTxInputs_reads tx v h v' : CheckTxInputs p base tx v h = Valid v' -> R v v'.
Proof.
  unfold CheckTxInputs. destruct (HaveInputs base v tx) as [have v1] eqn:E1. apply (HaveInputs_reads base R) in E1.
  destruct have; [|done]. cbn [negb]. destruct (HaveShieldedRequirements base v1 tx) as [met v2] eqn:E2.
  apply (HaveShieldedRequirements_reads base R) in E2. destruct met; [|done]. cbn [negb]. intros X. valid_inv X.
  destruct r as [n v3]. apply CheckTxInputs_loop_reads in E. valid_inv X.
  assert (v' = v3) as ->; [|etrans; [exact E1|by etrans]].
  destruct (negb (IsCoinStake tx)); valid_inv X; by injection X.
Qed.

Lemma CheckInputs_reads tx v scripts flags q r : CheckInputs p m base tx v scripts flags q = Valid r -> R v (snd r).
Proof.
  unfold CheckInputs. destruct (IsCoinBase tx); [by intros [= <-]|]. intros X. valid_inv X. destruct r0 as [sh v1]. valid_inv X.
  apply of_option_Valid in E. unfold GetSpendHeight in E. destruct (GetBestBlock base v) as [b v2] eqn:G.
  apply (GetBestBlock_reads base R) in G. destruct (m !! b) as [q0|]; [|done]. cbn in E. injection E as _ <-.
  apply CheckTxInputs_reads in E0. destruct scripts; [apply CheckScripts_reads in X|injection X as <-]; etrans; try done; by etrans.
Qed.

Lemma ConnectTx_amounts_reads f tx out fees valueIn v r :
  ConnectTx_amounts p m base f tx out fees valueIn v = Valid r -> R v (snd r).
Proof.
  unfold ConnectTx_amounts. destruct (IsCoinBase tx); [by intros [= <-]|]. intros X. valid_inv X. destruct r0 as [tin v1].
  valid_inv X. destruct r0 as [ck v2]. injection X as <-. apply of_option_Valid, (GetValueIn_reads base R) in E.
  apply CheckInputs_reads in E0. by etrans.
Qed.

End CheckReads.

(** ** Reads keep the coins *)

Section Keeps.
Context `{SaplingTree} (base : CCoinsView).

Definition keeps (v v' : CCoinsViewCache) : Prop :=
  (coins_wf base v -> coins_wf base v') /\ forall o, utxo base v' o = utxo base v o.

Lemma keeps_same v v' : cacheCoins v' = cacheCoins v -> keeps v v'.
Proof. intros E. unfold keeps, coins_wf, utxo. by rewrite E. Qed.

#[export] Instance keeps_reads : ReadClosed base keeps.
Proof.
  split.
  - split; [done|]. intros a b c [W1 U1] [W2 U2]. split; [auto|]. intros o. by rewrite U2.
  - split; [apply FetchCoin_wf|]. intros o'. apply FetchCoin_utxo.
  - intros v nf. apply keeps_same. unfold GetNullifier. by case_match.
  - intros v rt. apply keeps_same. unfold GetSaplingAnchorAt. by repeat case_match.
  - intros v. by apply keeps_same.
  - intros v. by apply keeps_same.
Qed.

Lemma PushAnchor_keeps v t : keeps v (PushAnchor base v t).
Proof. unfold PushAnchor, GetBestAnchor. case_match; by apply keeps_same. Qed.

Lemma PopAnchor_keeps v rt v' : PopAnchor base v rt = Some v' -> keeps v v'.
Proof.
  unfold PopAnchor, GetBestAnchor, GetSaplingAnchorAt. repeat case_match; intros X; simplify_eq/=; by apply keeps_same.
Qed.

Lemma SetBestBlock_keeps v h : keeps v (SetBestBlock v h).
Proof. by apply keeps_same. Qed.

Lemma SetNullifiers_keeps v tx b : keeps v (SetNullifiers v tx b).
Proof. unfold SetNullifiers. case_match; by apply keeps_same. Qed.

(** ** The coins a view denotes, as a finite map *)

Definition denotes (v : CCoinsViewCache) (M : gmap COutPoint Coin) : Prop :=
  coins_wf base v /\ forall o, utxo base v o = M !! o.

Lemma denotes_keeps v v' M : keeps v v' -> denotes v M -> denotes v' M.
Proof. intros [W U] [DW DU]. split; [auto|]. intros o. by rewrite U. Qed.

Lemma AccessCoin_denotes v M o c v' :
  denotes v M -> AccessCoin base v o = (c, v') -> denotes v' M /\ (IsSpent c = false -> M !! o = Some c).
Proof.
  intros D E. split; [eapply denotes_keeps; [by eapply (AccessCoin_reads base keeps)|done]|].
  intros S. destruct D as [_ U]. rewrite <- U, <- (AccessCoin_spec base v o), E. cbn. by rewrite S.
Qed.

End Keeps.

(** ** The value of a set of coins *)

Abbreviation CoinMap := (gmap COutPoint Coin).

Definition coin_value (c : Coin) : Z := nValue (coin_out c).

Definition value (M : CoinMap) : Z := map_fold (fun _ c n => coin_value c + n) 0 M.

Definition coins_ok (M : CoinMap) : Prop := map_Forall (fun _ c => 0 <= coin_value c) M.

Lemma value_insert M o c : M !! o = None -> value (<[o := c]> M) = coin_value c + value M.
Proof. intros N. unfold value. rewrite map_fold_insert_L; [done| |done]. intros. lia. Qed.

Lemma value_delete M o c : M !! o = Some c -> value M = coin_value c + value (delete o M).
Proof. intros L. rewrite <- (insert_delete_id M o c L) at 1. apply value_insert. apply lookup_delete_eq. Qed.

Lemma value_nonneg M : coins_ok M -> 0 <= value M.
Proof.
  induction M as [|o c M N IH] using map_ind; intros C; [by unfold value; rewrite map_fold_empty|].
  rewrite value_insert by done. apply map_Forall_insert in C as [C0 C]; [|done]. apply IH in C. lia.
Qed.

(** *** The effect of a transaction *)

Definition spend_inputs (M : CoinMap) (ins : list CTxIn) : CoinMap := foldl (fun M i => delete (prevout i) M) M ins.

Definition in_value (M : CoinMap) (ins : list CTxIn) : Z :=
  sumZ (fun i => match M !! prevout i with Some c => coin_value c | None => 0 end) ins.

Fixpoint add_outputs (txid h : Z) (cb cs : bool) (i : Z) (outs : list CTxOut) (M : CoinMap) : CoinMap :=
  match outs with
  | [] => M
  | o :: outs =>
      let c := {| fCoinBase := cb; fCoinStake := cs; coin_out := o; coin_nHeight := u32 h |} in
      add_outputs txid h cb cs (i + 1) outs (if is_stored c then <[{| op_hash := txid; op_n := i |} := c]> M else M)
  end.

Definition apply_tx `{HashFunctions} (M : CoinMap) (h : Z) (tx : CTransaction) : CoinMap :=
  add_outputs (GetHash tx) h (IsCoinBase tx) (IsCoinStake tx) 0 (vout tx)
    (if IsCoinBase tx then M else spend_inputs M (vin tx)).

Lemma lookup_spend_inputs ins : forall M o,
  spend_inputs M ins !! o = if bool_decide (o ∈ prevout <$> ins) then None else M !! o.
Proof.
  induction ins as [|i ins IH]; intros M o; [done|]. cbn. rewrite IH. destruct (decide (o = prevout i)) as [->|N].
  - rewrite lookup_delete_eq, (bool_decide_eq_true_2 (prevout i ∈ prevout i :: _)) by set_solver. by case_match.
  - rewrite lookup_delete_ne by done. apply (f_equal (fun b : bool => if b then None else M !! o)), bool_decide_ext. set_solver.
Qed.

Lemma spend_inputs_ok ins : forall M, coins_ok M -> coins_ok (spend_inputs M ins).
Proof. induction ins as [|i ins IH]; intros M C; [done|]. apply IH. by apply map_Forall_delete. Qed.

Lemma in_value_delete ins : forall M o, o ∉ prevout <$> ins -> in_value (delete o M) ins = in_value M ins.
Proof.
  induction ins as [|i ins IH]; intros M o N; [done|]. cbn in *. apply not_elem_of_cons in N as [N1 N2].
  unfold in_value in IH. rewrite lookup_delete_ne, IH by congruence. done.
Qed.

Lemma value_spend_inputs ins : forall M,
  NoDup (prevout <$> ins) -> Forall (fun i => is_Some (M !! prevout i)) ins ->
  value (spend_inputs M ins) = value M - in_value M ins.
Proof.
  induction ins as [|i ins IH]; intros M D F; [cbn; lia|]. cbn in *. apply NoDup_cons in D as [N D].
  apply Forall_cons in F as [[c L] F]. unfold spend_inputs in IH. rewrite IH; [|done|].
  - unfold in_value at 1. cbn. fold (in_value (delete (prevout i) M) ins). rewrite in_value_delete by done.
    rewrite L, (value_delete M _ _ L). unfold in_value. lia.
  - apply Forall_forall. intros j J. rewrite Forall_forall in F. rewrite lookup_delete_ne; [by apply F|].
    intros E. apply N. rewrite E. by apply list_elem_of_fmap_2.
Qed.

Lemma value_add_outputs txid h cb cs outs : forall i M,
  Forall (fun o => 0 <= nValue o) outs -> (forall n, i <= n -> M !! {| op_hash := txid; op_n := n |} = None) ->
  value (add_outputs txid h cb cs i outs M) <= value M + sumZ nValue outs.
Proof.
  induction outs as [|o outs IH]; intros i M F N; cbn [add_outputs sumZ]; [lia|]. apply Forall_cons in F as [F0 F].
  etrans; [apply IH; [done|]|].
  - intros n Hn. case_match; [rewrite lookup_insert_ne by (intros [= ->]; lia)|]; apply N; lia.
  - case_match; [rewrite value_insert by (apply N; lia); unfold coin_value; cbn|]; lia.
Qed.

Lemma add_outputs_ok txid h cb cs outs : forall i M,
  Forall (fun o => 0 <= nValue o) outs -> coins_ok M -> coins_ok (add_outputs txid h cb cs i outs M).
Proof.
  induction outs as [|o outs IH]; intros i M F C; cbn [add_outputs]; [done|]. apply Forall_cons in F as [F0 F].
  apply IH; [done|]. case_match; [|done]. by apply map_Forall_insert_2.
Qed.

Lemma lookup_add_outputs_other txid h cb cs outs k : op_hash k <> txid -> forall i M,
  add_outputs txid h cb cs i outs M !! k = M !! k.
Proof.
  intros N. induction outs as [|o outs IH]; intros i M; cbn [add_outputs]; [done|]. rewrite IH.
  case_match; [|done]. apply lookup_insert_ne. by intros <-.
Qed.

(** ** UpdateCoins implements it *)

Section Update.
Context `{HashFunctions, SaplingTree} (base : CCoinsView) (invalid : COutPoint -> bool).

(** The coins that the inputs spend. *)
Definition spent_coins (M : CoinMap) (ins : list CTxIn) : list Coin := (fun i => default coinEmpty (M !! prevout i)) <$> ins.

Lemma SpendCoin_denotes v M o c :
  denotes base v M -> M !! o = Some c ->
  fst (SpendCoin base v o) = Some c /\ denotes base (snd (SpendCoin base v o)) (delete o M).
Proof.
  intros [W U] L. split.
  - pose proof (SpendCoin_result base v o) as R. rewrite U, L in R. by apply unspent_Some in R as [R _].
  - split; [by apply SpendCoin_wf|]. intros o'. rewrite SpendCoin_utxo by done. case_decide; subst;
      [by rewrite lookup_delete_eq|by rewrite lookup_delete_ne].
Qed.

Lemma spent_coins_delete M o ins : o ∉ prevout <$> ins -> spent_coins (delete o M) ins = spent_coins M ins.
Proof.
  intros N. apply list_fmap_ext. intros k i L. rewrite lookup_delete_ne; [done|]. intros ->. apply N.
  apply list_elem_of_fmap_2. by eapply list_elem_of_lookup_2.
Qed.

Lemma SpendInputs_denotes ins : forall v M,
  denotes base v M -> NoDup (prevout <$> ins) -> Forall (fun i => is_Some (M !! prevout i)) ins ->
  exists v', SpendInputs base v ins = (spent_coins M ins, v') /\ denotes base v' (spend_inputs M ins).
Proof.
  induction ins as [|i ins IH]; intros v M D N F; [by exists v|]. cbn in N. apply NoDup_cons in N as [NI N].
  apply Forall_cons in F as [[c L] F]. destruct (SpendCoin_denotes v M (prevout i) c D L) as [R D'].
  destruct (IH (snd (SpendCoin base v (prevout i))) (delete (prevout i) M) D' N) as (v' & E & D'').
  { apply Forall_forall. intros j J. rewrite Forall_forall in F. rewrite lookup_delete_ne; [by apply F|].
    intros X. apply NI. rewrite X. by apply list_elem_of_fmap_2. }
  exists v'. split; [|done]. cbn [SpendInputs]. destruct (SpendCoin base v (prevout i)) as [r v1]. cbn [fst snd] in *.
  rewrite E, R. cbn. by rewrite L, spent_coins_delete.
Qed.

Lemma AddCoins_denotes txid h cb cs outs : forall i v M,
  denotes base v M -> Forall (fun o => 0 <= nValue o) outs ->
  (forall n, i <= n -> M !! {| op_hash := txid; op_n := n |} = None) ->
  exists v', AddCoins_loop base v invalid txid outs i h cb cs false false = Some v' /\
    denotes base v' (add_outputs txid h cb cs i outs M).
Proof.
  induction outs as [|o outs IH]; intros i v M [W U] F N; [by exists v|]. apply Forall_cons in F as [F0 F].
  cbn [AddCoins_loop add_outputs andb]. set (c := {| fCoinBase := cb |}) in *. set (k := {| op_hash := txid; op_n := i |}).
  assert (S : IsSpent c = false) by (apply Z.eqb_neq; cbn; lia).
  assert (Fr : utxo base v k = None) by (rewrite U; apply N; lia).
  destruct (AddCoin_total base v k c false S) as [v1 A]; [done|]. rewrite A. cbn [mbind option_bind].
  apply IH; [|done|].
  - split; [by eapply AddCoin_wf|]. intros o'. rewrite (AddCoin_utxo base _ _ _ _ _ _ A).
    destruct (is_stored c); cbn [andb]; [|apply U]. case_bool_decide; subst;
      [by rewrite lookup_insert_eq|by rewrite lookup_insert_ne].
  - intros n Hn. case_match; [rewrite lookup_insert_ne by (intros [= ->]; lia)|]; apply N; lia.
Qed.

(** What a transaction needs of the coins: its inputs, each once, and no output of its own. *)
Record tx_ready (M : CoinMap) (tx : CTransaction) : Prop := {
  ready_inputs : IsCoinBase tx = false -> Forall (fun i => is_Some (M !! prevout i)) (vin tx);
  ready_nodup : NoDup (prevout <$> vin tx);
  ready_outs : Forall (fun o => 0 <= nValue o) (vout tx);
  ready_fresh : forall n, M !! {| op_hash := GetHash tx; op_n := n |} = None
}.

Lemma fresh_spend M txid ins n :
  M !! {| op_hash := txid; op_n := n |} = None -> spend_inputs M ins !! {| op_hash := txid; op_n := n |} = None.
Proof. intros E. rewrite lookup_spend_inputs. by case_match. Qed.

Lemma UpdateCoins_denotes v M h tx :
  denotes base v M -> tx_ready M tx ->
  exists v', UpdateCoins base invalid tx v h false = Some (if IsCoinBase tx then [] else spent_coins M (vin tx), v') /\
    denotes base v' (apply_tx M h tx).
Proof.
  intros D [I N O F]. unfold UpdateCoins, apply_tx, AddCoins. destruct (IsCoinBase tx).
  - destruct (AddCoins_denotes (GetHash tx) h true (IsCoinStake tx) (vout tx) 0 (SetNullifiers v tx true) M) as (v' & E & D');
      [by eapply denotes_keeps; [apply SetNullifiers_keeps|]|done|auto|].
    rewrite E. by exists v'.
  - destruct (SpendInputs_denotes (vin tx) v M D N (I eq_refl)) as (v1 & -> & D1).
    destruct (AddCoins_denotes (GetHash tx) h false (IsCoinStake tx) (vout tx) 0 (SetNullifiers v1 tx true)
                (spend_inputs M (vin tx))) as (v' & E & D');
      [by eapply denotes_keeps; [apply SetNullifiers_keeps|]|done|intros; by apply fresh_spend|].
    rewrite E. by exists v'.
Qed.

(** The value moves as the amounts say. *)
Lemma apply_tx_value M h tx :
  tx_ready M tx ->
  value (apply_tx M h tx) <= value M - (if IsCoinBase tx then 0 else in_value M (vin tx)) + sumZ nValue (vout tx).
Proof.
  intros [I N O F]. unfold apply_tx. etrans; [apply value_add_outputs; [done|]|].
  - intros n _. destruct (IsCoinBase tx); [apply F|by apply fresh_spend].
  - destruct (IsCoinBase tx); [lia|]. rewrite value_spend_inputs by auto. lia.
Qed.

Lemma apply_tx_ok M h tx : coins_ok M -> tx_ready M tx -> coins_ok (apply_tx M h tx).
Proof. intros C [_ _ O _]. apply add_outputs_ok; [done|]. destruct (IsCoinBase tx); [done|by apply spend_inputs_ok]. Qed.

Lemma apply_tx_other M h tx k : op_hash k <> GetHash tx -> M !! k = None -> apply_tx M h tx !! k = None.
Proof.
  intros N E. unfold apply_tx. rewrite lookup_add_outputs_other by done. destruct (IsCoinBase tx); [done|].
  rewrite lookup_spend_inputs. by case_match.
Qed.

End Update.

(** ** The amounts of a transaction that is connected *)

Section Amounts.
Context `{HashFunctions, Ecdsa, SaplingTree} (net : Network) (env : NodeEnv) (m : BlockMap) (chain : CChain).
Context (base : CCoinsView) (invalid : COutPoint -> bool).

Abbreviation p := (CreateChainParams net).
Abbreviation MAX := (72000000000 * COIN).

Lemma max_money : nMaxMoneyOut (consensus p) = MAX.
Proof. by destruct net. Qed.

Lemma CheckTxInputs_loop_Valid h ins : forall v M n r,
  denotes base v M -> 0 <= n <= MAX -> CheckTxInputs_loop p base h ins v n = Valid r ->
  denotes base (snd r) M /\ Forall (fun i => is_Some (M !! prevout i)) ins /\
  fst r = n + in_value M ins /\ 0 <= in_value M ins /\ fst r <= MAX.
Proof.
  induction ins as [|i ins IH]; intros v M n r D N R; cbn [CheckTxInputs_loop] in R.
  - injection R as <-. cbn. split_and!; try done; lia.
  - destruct (AccessCoin base v (prevout i)) as [c v1] eqn:A. destruct (AccessCoin_denotes _ _ _ _ _ _ D A) as [D1 L].
    destruct (IsSpent c); [done|]. specialize (L eq_refl). valid_inv R. apply orb_false_elim in C0 as [C0 C1].
    apply negb_false_iff in C0, C1. apply MoneyRange_iff in C0. rewrite max_money in C0.
    apply MoneyRange_add in C1; [|apply _|rewrite max_money; lia..]. rewrite max_money in C1.
    rewrite i64_id in R by (unfold in_i64, INT64_MIN, INT64_MAX, COIN in *; lia).
    apply (IH _ _ _ _ D1) in R as (D2 & F & E & P & B); [|lia]. unfold in_value in *. cbn [sumZ]. rewrite L. change (nValue (coin_out c)) with (coin_value c) in *.
    split_and!; try done; try lia. by constructor.
Qed.

Lemma CheckTxInputs_Valid h tx v M v' :
  denotes base v M -> amounts_ok (consensus p) tx -> CheckTxInputs p base tx v h = Valid v' ->
  denotes base v' M /\ Forall (fun i => is_Some (M !! prevout i)) (vin tx) /\
  0 <= in_value M (vin tx) <= MAX /\
  (IsCoinStake tx = false ->
   sumZ nValue (vout tx) + shielded_out tx <= in_value M (vin tx) + shielded_in tx).
Proof.
  intros D A. unfold CheckTxInputs. destruct (HaveInputs base v tx) as [have v1] eqn:E1. apply (HaveInputs_reads base (keeps base)) in E1.
  destruct have; [|done]. cbn [negb]. destruct (HaveShieldedRequirements base v1 tx) as [met v2] eqn:E2.
  apply (HaveShieldedRequirements_reads base (keeps base)) in E2. destruct met; [|done]. cbn [negb]. intros R. valid_inv R. destruct r as [n v3].
  assert (D2 : denotes base v2 M) by (eapply denotes_keeps; [|done]; by etrans).
  apply (CheckTxInputs_loop_Valid _ _ _ _ _ _ D2) in E as (D3 & F & EN & P & B); [|unfold COIN; lia].
  cbn [fst snd] in *. valid_inv R. apply of_option_Valid in E. destruct (amounts_shielded _ _ A) as [S Sb]. rewrite S in E.
  injection E as <-. assert (0 <= shielded_in tx) by (unfold shielded_in; lia). rewrite max_money in Sb.
  destruct (IsCoinStake tx); cbn [negb] in R.
  - injection R as <-. split_and!; try done; lia.
  - valid_inv R. apply of_option_Valid in E. rewrite (amounts_GetValueOut _ _ A) in E. injection E as <-. injection R as <-.
    split_and!; try done; try lia. intros _. apply Z.ltb_ge in C, C0. pose proof (amounts_total _ _ A) as T.
    rewrite max_money in T. pose proof (sumZ_nonneg nValue (vout tx) ltac:(eapply Forall_impl; [apply (amounts_outs _ _ A)|cbn; lia])).
    assert (0 <= shielded_out tx) by (unfold shielded_out; lia). subst n.
    destruct (Z_le_gt_dec (in_value M (vin tx) + shielded_in tx) INT64_MAX) as [Le|Gt].
    + rewrite i64_id in C by (unfold in_i64, INT64_MIN; lia). lia.
    + revert C. unfold sint, COIN, INT64_MAX in *. change (2 ^ (64 - 1)) with 9223372036854775808.
      change (2 ^ 64) with 18446744073709551616. Z.div_mod_to_equations. lia.
Qed.

Lemma GetValueIn_loop_denotes ins : forall v M n r v',
  denotes base v M -> Forall (fun i => is_Some (M !! prevout i)) ins ->
  existsb (fun i => TxIn_IsZerocoinSpend i || TxIn_IsZerocoinPublicSpend i) ins = false ->
  GetValueIn_loop base v ins n = (r, v') -> denotes base v' M /\ i64 r = i64 (n + in_value M ins).
Proof.
  induction ins as [|i ins IH]; intros v M n r v' D F Z; cbn [GetValueIn_loop].
  - intros [= <- <-]. split; [done|]. cbn. f_equal. lia.
  - cbn in Z. apply orb_false_elim in Z as [Z0 Z]. rewrite Z0. apply Forall_cons in F as [[c L] F].
    destruct (AccessCoin base v (prevout i)) as [c' v1] eqn:A. destruct (AccessCoin_denotes _ _ _ _ _ _ D A) as [D1 L'].
    intros R. apply (IH _ _ _ _ _ D1 F Z) in R as [D2 R]. split; [done|]. rewrite R, i64_add_l. f_equal.
    unfold in_value. cbn [sumZ]. rewrite L.
    assert (c' = c) as ->; [|unfold coin_value; lia].
    destruct D as [_ U]. pose proof (AccessCoin_spec base v (prevout i)) as X. rewrite A, U, L in X. cbn in X.
    destruct (IsSpent c'); congruence.
Qed.

Lemma GetValueIn_denotes tx v M r :
  denotes base v M -> IsCoinBase tx = false -> HasZerocoinSpendInputs tx = false -> amounts_ok (consensus p) tx ->
  Forall (fun i => is_Some (M !! prevout i)) (vin tx) -> GetValueIn base v tx = Some r ->
  denotes base (snd r) M /\ fst r = i64 (in_value M (vin tx) + shielded_in tx).
Proof.
  intros D C Z A F. unfold GetValueIn. rewrite C. destruct (GetValueIn_loop base v (vin tx) 0) as [n v1] eqn:E.
  apply (GetValueIn_loop_denotes _ _ _ _ _ _ D F Z) in E as [D1 E]. destruct (amounts_shielded _ _ A) as [-> _].
  cbn [mbind option_bind]. intros [= <-]. split; [done|]. cbn [fst]. by rewrite <- i64_add_l, E, i64_add_l.
Qed.

(** *** One transaction *)

Definition tx_in (M : CoinMap) (tx : CTransaction) : Z :=
  if IsCoinBase tx then 0 else in_value M (vin tx) + shielded_in tx.
Definition tx_out (tx : CTransaction) : Z := sumZ nValue (vout tx) + shielded_out tx.
Definition generates (tx : CTransaction) : bool := IsCoinBase tx || IsCoinStake tx.
Definition tx_fee (M : CoinMap) (tx : CTransaction) : Z := if generates tx then 0 else tx_in M tx - tx_out tx.
Definition tx_mint (M : CoinMap) (tx : CTransaction) : Z := if generates tx then tx_out tx - tx_in M tx else 0.

(** What the checks of a block give for each of its transactions. *)
Record tx_checked (tx : CTransaction) : Prop := {
  checked_amounts : amounts_ok (consensus p) tx;
  checked_nodup : NoDup (prevout <$> vin tx);
  checked_zerocoin : HasZerocoinSpendInputs tx = false;
  checked_transparent : generates tx = true -> tx_valueBalance tx = 0
}.

Lemma CheckTransaction_checked tx cold :
  CheckTransaction (consensus p) tx cold = Valid () -> HasZerocoinSpendInputs tx = false -> tx_checked tx.
Proof.
  intros C Z. apply CheckTransaction_Valid in C as (A & N & _ & _ & S); [|apply _]. split; try done.
  unfold generates. intros G. apply hasSaplingData_false. destruct (hasSaplingData tx); [|done].
  destruct (S eq_refl) as (B & K & _). by rewrite B, K in G.
Qed.

Definition fresh (M : CoinMap) (tx : CTransaction) : Prop := forall n, M !! {| op_hash := GetHash tx; op_n := n |} = None.

Lemma checked_outs tx : tx_checked tx -> Forall (fun o => 0 <= nValue o) (vout tx).
Proof. intros C. eapply Forall_impl; [apply (amounts_outs _ _ (checked_amounts _ C))|]. cbn. lia. Qed.

Lemma tx_out_range tx : tx_checked tx -> 0 <= tx_out tx <= MAX.
Proof.
  intros C. pose proof (sumZ_nonneg nValue _ (checked_outs _ C)). pose proof (amounts_total _ _ (checked_amounts _ C)) as T.
  rewrite max_money in T. unfold tx_out, shielded_out in *. lia.
Qed.

(** Together with the shielded pool, a transaction moves value as its fee and mint say. *)
Lemma apply_tx_supply M h tx :
  tx_ready M tx -> value (apply_tx M h tx) - tx_valueBalance tx <= value M - tx_fee M tx + tx_mint M tx.
Proof.
  intros R. pose proof (apply_tx_value M h tx R) as V. unfold tx_fee, tx_mint, tx_in, tx_out, generates, shielded_in, shielded_out in *.
  destruct (IsCoinBase tx); cbn [orb]; [|destruct (IsCoinStake tx)]; lia.
Qed.

Lemma SkipInvalidUTXOS_false h : 0 <= h -> SkipInvalidUTXOS p h = Some false.
Proof.
  intros N. unfold SkipInvalidUTXOS. case_bool_decide; [|done]. cbn [negb].
  rewrite NetworkUpgradeActive_never; [done|lia|by destruct net].
Qed.

(** The inputs of a transaction that is not a coinbase. *)
Lemma CheckInputs_Valid tx v M scripts flags q r :
  denotes base v M -> tx_checked tx -> IsCoinBase tx = false -> CheckInputs p m base tx v scripts flags q = Valid r ->
  denotes base (snd r) M /\ Forall (fun i => is_Some (M !! prevout i)) (vin tx) /\ 0 <= in_value M (vin tx) <= MAX /\
  (IsCoinStake tx = false -> tx_out tx <= tx_in M tx).
Proof.
  intros D C B. unfold CheckInputs, tx_in. rewrite B. intros R. valid_inv R. destruct r0 as [sh v1]. valid_inv R.
  apply of_option_Valid in E. unfold GetSpendHeight in E. destruct (GetBestBlock base v) as [b v2] eqn:G.
  apply (GetBestBlock_reads base (keeps base)) in G. destruct (m !! b) as [q0|]; [|done]. cbn in E. injection E as _ <-.
  apply (CheckTxInputs_Valid _ _ _ M) in E0 as (D1 & F & In & Fee); [|by eapply denotes_keeps|apply C].
  split_and!; try done; try lia. destruct scripts; [|by injection R as <-].
  eapply denotes_keeps; [by eapply (CheckScripts_reads base (keeps base))|done].
Qed.

(** Wrapped sums are compared by their exact values. *)
Lemma i64_idem a : i64 (i64 a) = i64 a.
Proof. pose proof (i64_add_l a 0) as E. by rewrite !Z.add_0_r in E. Qed.

Lemma i64_sum a b c : i64 (i64 a - i64 b + i64 c) = i64 (a - b + c).
Proof.
  rewrite i64_add_r. replace (i64 a - i64 b + c) with (i64 a + (c - i64 b)) by lia. rewrite i64_add_l.
  replace (a + (c - i64 b)) with (a + c - i64 b) by lia. rewrite i64_sub_r. f_equal. lia.
Qed.

(** The wrapped balance of the block so far. *)
Definition balance (s : ConnectState) : Z := i64 (cn_valueOut s - cn_valueIn s + cn_fees s).

Record tx_connected (M : CoinMap) (h : Z) (i : nat) (tx : CTransaction) (s s' : ConnectState) : Prop := {
  conn_ready : tx_ready M tx;
  conn_view : denotes base (cn_view s') (apply_tx M h tx);
  conn_fee : 0 <= tx_fee M tx;
  conn_in : 0 <= tx_in M tx - (if IsCoinBase tx then 0 else shielded_in tx) <= MAX;
  conn_fees : i64 (cn_fees s') = i64 (cn_fees s + tx_fee M tx);
  conn_fees_wf : in_i64 (cn_fees s) -> in_i64 (cn_fees s');
  conn_balance : balance s' = i64 (balance s + tx_mint M tx);
  conn_undo : cn_undo s' = if (i =? 0)%nat then cn_undo s
                           else cn_undo s ++ [if IsCoinBase tx then [] else spent_coins M (vin tx)]
}.

Lemma ConnectTx_amounts_Valid f tx nFees nValueIn v M fees valueIn checks v' :
  denotes base v M -> tx_checked tx ->
  ConnectTx_amounts p m base f tx (tx_out tx) nFees nValueIn v = Valid (fees, valueIn, checks, v') ->
  denotes base v' M /\ (IsCoinBase tx = false -> Forall (fun i => is_Some (M !! prevout i)) (vin tx)) /\
  0 <= tx_fee M tx /\ 0 <= tx_in M tx - (if IsCoinBase tx then 0 else shielded_in tx) <= MAX /\
  i64 fees = i64 (nFees + tx_fee M tx) /\ (in_i64 nFees -> in_i64 fees) /\ i64 valueIn = i64 (nValueIn + tx_in M tx).
Proof.
  intros D C R. unfold ConnectTx_amounts, tx_fee, generates, tx_in in *. destruct (IsCoinBase tx) eqn:B.
  - injection R as <- <- <- <-. cbn [orb]. split_and!; try done; try (unfold COIN; lia); f_equal; lia.
  - valid_inv R. destruct r as [tin v1]. valid_inv R. destruct r as [ck v2]. injection R as <- <- <- <-.
    apply of_option_Valid in E. pose proof (GetValueIn_reads base (keeps base) _ _ _ _ E) as K. cbn [orb].
    apply (CheckInputs_Valid _ _ M) in E0 as (D2 & F & IR & Fee); [|by eapply denotes_keeps|done..].
    apply (GetValueIn_denotes _ _ M) in E as [_ T]; [|done..|apply C|apply C|done]. cbn [fst snd] in *. subst tin.
    unfold tx_in in Fee. rewrite B in Fee. assert (0 <= shielded_in tx) by (unfold shielded_in; lia).
    split_and!; try done; try lia.
    + destruct (IsCoinStake tx); [lia|]. specialize (Fee eq_refl). lia.
    + destruct (IsCoinStake tx); [f_equal; lia|]. by rewrite i64_idem, i64_sub_l, i64_add_r.
    + intros W. destruct (IsCoinStake tx); [done|apply i64_range].
    + by rewrite i64_idem, i64_add_r.
Qed.

Lemma ConnectTx_Valid f h i tx s s' M :
  0 <= h -> denotes base (cn_view s) M -> tx_checked tx -> fresh M tx ->
  ConnectTx p env m base invalid f h i tx s = Valid s' -> tx_connected M h i tx s s'.
Proof.
  intros Hh D C Fr R. unfold ConnectTx in R. valid_inv R. destruct (_ && _ && _) in R; [done|].
  valid_inv R. destruct r0 as [sig v1]. apply (ConnectTx_inputs_reads base (keeps base)) in E0. cbn [snd] in E0.
  valid_inv R. apply of_option_Valid in E1. rewrite (amounts_GetValueOut _ _ (checked_amounts _ C)) in E1. injection E1 as <-.
  destruct r1 as [[[fees valueIn] checks] v2]. valid_inv R. fold (tx_out tx) in *.
  apply (ConnectTx_amounts_Valid _ _ _ _ _ M) in E2 as (D2 & F & Fee & In & Fees & FW & VI); [|by eapply denotes_keeps|done].
  apply of_option_Valid in E1, E3. rewrite SkipInvalidUTXOS_false in E1 by done. injection E1 as <-.
  assert (Rd : tx_ready M tx) by (split; [done|apply C|by apply checked_outs|done]).
  destruct (UpdateCoins_denotes base invalid v2 M h tx D2 Rd) as (v3 & U & D3). rewrite U in E3. injection E3 as <-.
  injection R as <-. split; cbn; try done.
  unfold balance. cbn. rewrite i64_add_l, <- (i64_sum (i64 _)), VI, Fees, i64_idem, i64_sum. f_equal.
  unfold tx_mint, tx_fee. destruct (generates tx); lia.
Qed.

(** *** All transactions of a block *)

Definition apply_txs (M : CoinMap) (h : Z) (txs : list CTransaction) : CoinMap := foldl (fun M tx => apply_tx M h tx) M txs.

(** A sum over the transactions, each at the coins it finds. *)
Fixpoint along (g : CoinMap -> CTransaction -> Z) (M : CoinMap) (h : Z) (txs : list CTransaction) : Z :=
  match txs with [] => 0 | tx :: txs => g M tx + along g (apply_tx M h tx) h txs end.

Fixpoint all_ready (M : CoinMap) (h : Z) (txs : list CTransaction) : Prop :=
  match txs with [] => True | tx :: txs => tx_ready M tx /\ all_ready (apply_tx M h tx) h txs end.

(** The coins spent by each transaction. *)
Fixpoint block_undo (M : CoinMap) (h : Z) (txs : list CTransaction) : CBlockUndo :=
  match txs with
  | [] => []
  | tx :: txs => (if IsCoinBase tx then [] else spent_coins M (vin tx)) :: block_undo (apply_tx M h tx) h txs
  end.

Definition fresh_txs (M : CoinMap) (txs : list CTransaction) : Prop := NoDup (GetHash <$> txs) /\ Forall (fresh M) txs.

Lemma fresh_txs_cons M h tx txs : fresh_txs M (tx :: txs) -> fresh M tx /\ fresh_txs (apply_tx M h tx) txs.
Proof.
  intros [N F]. cbn in N. apply NoDup_cons in N as [NI N]. apply Forall_cons in F as [F0 F]. split; [done|]. split; [done|].
  apply Forall_forall. intros t T n. rewrite Forall_forall in F. apply apply_tx_other; [|by apply F].
  cbn. intros E. apply NI. rewrite <- E. by apply list_elem_of_fmap_2.
Qed.

Record txs_connected (M : CoinMap) (h : Z) (i : nat) (txs : list CTransaction) (s s' : ConnectState) : Prop := {
  conns_ready : all_ready M h txs;
  conns_view : denotes base (cn_view s') (apply_txs M h txs);
  conns_fee : 0 <= along tx_fee M h txs;
  conns_fees : i64 (cn_fees s') = i64 (cn_fees s + along tx_fee M h txs);
  conns_fees_wf : in_i64 (cn_fees s) -> in_i64 (cn_fees s');
  conns_balance : balance s' = i64 (balance s + along tx_mint M h txs);
  conns_undo : cn_undo s' = cn_undo s ++ drop (1 - i) (block_undo M h txs)
}.

Lemma balance_i64 s : i64 (balance s) = balance s.
Proof. apply i64_idem. Qed.

Lemma ConnectTxs_Valid f h txs : 0 <= h -> forall i s s' M,
  denotes base (cn_view s) M -> Forall tx_checked txs -> fresh_txs M txs ->
  ConnectTxs p env m base invalid f h i txs s = Valid s' -> txs_connected M h i txs s s'.
Proof.
  intros Hh. induction txs as [|tx txs IH]; intros i s s' M D C F R; cbn [ConnectTxs] in R.
  - injection R as <-. split; cbn; rewrite ?Z.add_0_r, ?balance_i64; try done. by rewrite drop_nil, app_nil_r.
  - valid_inv R. apply Forall_cons in C as [C0 C]. apply (fresh_txs_cons M h) in F as [F0 F].
    apply (ConnectTx_Valid _ _ _ _ _ _ M Hh D C0 F0) in E as [Rd V Fe In Fs FW B U].
    apply (IH (S i) _ _ _ V C F) in R as [Rd' V' Fe' Fs' FW' B' U']. split; cbn [along all_ready apply_txs foldl block_undo]; try done.
    + lia.
    + rewrite Fs', <- i64_add_l, Fs, i64_add_l. f_equal. lia.
    + auto.
    + rewrite B', B, i64_add_l. f_equal. lia.
    + rewrite U', U. destruct i; cbn; [by rewrite drop_0|]. by rewrite <- app_assoc.
Qed.

Lemma apply_txs_supply h txs : forall M,
  all_ready M h txs ->
  value (apply_txs M h txs) - sumZ tx_valueBalance txs <= value M - along tx_fee M h txs + along tx_mint M h txs.
Proof.
  induction txs as [|tx txs IH]; intros M R; cbn [apply_txs foldl sumZ along]; [lia|]. destruct R as [R0 R].
  apply IH in R. pose proof (apply_tx_supply M h tx R0). unfold apply_txs in R. lia.
Qed.

Lemma apply_txs_ok h txs : forall M, coins_ok M -> all_ready M h txs -> coins_ok (apply_txs M h txs).
Proof. induction txs as [|tx txs IH]; intros M C R; [done|]. destruct R as [R0 R]. apply IH; [by apply apply_tx_ok|done]. Qed.

(** Only a coinbase and a coinstake mint. *)
Lemma along_mint_plain h txs : forall M, Forall (fun tx => generates tx = false) txs -> along tx_mint M h txs = 0.
Proof.
  induction txs as [|tx txs IH]; intros M F; [done|]. apply Forall_cons in F as [F0 F]. cbn. rewrite IH by done.
  unfold tx_mint. by rewrite F0.
Qed.

(** ** ConnectBlock *)

Definition connect_start (v : CCoinsViewCache) (tree : SaplingMerkleTree) : ConnectState :=
  {| cn_view := v; cn_fees := 0; cn_valueIn := 0; cn_valueOut := 0; cn_sigops := 0; cn_undo := []; cn_checks := [];
     cn_tree := tree |}.

(** What a block that is connected has passed. *)
Record block_connected (block : CBlock) (pindex : CBlockIndex) (v v' : CCoinsViewCache) (undo : CBlockUndo) (s : ConnectState)
  : Prop := {
  bc_checked : exists cold, checked_block p block cold;
  bc_coinbase : IsProofOfStake block = true -> empty_coinbase block = true;
  bc_turnstile : forall x, nChainSaplingValue pindex = Some x -> 0 <= x;
  bc_loop : exists f v0 tree, (forall R, ReadClosed base R -> R v v0) /\ is_Some (anchor_tree base v0 (fst (GetBestAnchor base v0))) /\
    ConnectTxs p env m base invalid f (bi_nHeight pindex) 0 (vtx block) (connect_start v0 tree) = Valid s;
  bc_mint : CheckMint p block (bi_nHeight pindex) s = Valid ();
  bc_view : keeps base (cn_view s) v';
  bc_anchor : tree_root (cn_tree s) = hashFinalSaplingRoot block /\
    exists best, v' = SetBestBlock (PushAnchor base (cn_view s) (cn_tree s)) best;
  bc_undo : undo = cn_undo s
}.

Lemma ConnectHeader_Valid block pindex active :
  ConnectHeader block pindex active = Valid () ->
  active = IsProofOfStake block /\ forall x, nChainSaplingValue pindex = Some x -> 0 <= x.
Proof.
  unfold ConnectHeader. intros R. valid_inv R. split.
  - by destruct active, (IsProofOfStake block).
  - intros x E. rewrite E in C1. by apply Z.ltb_ge in C1.
Qed.

(** The tree of the best anchor, once found, is there. *)
Lemma best_anchor_found v v2 v3 a t :
  GetBestAnchor base v = (a, v2) -> GetSaplingAnchorAt base v2 a = (Some t, v3) ->
  is_Some (anchor_tree base v3 (fst (GetBestAnchor base v3))).
Proof.
  intros [= <- <-]. set (a := if hashSaplingAnchor v =? 0 then v_GetBestAnchor base else hashSaplingAnchor v).
  unfold GetSaplingAnchorAt, anchor_tree. cbn [set_anchors cacheSaplingAnchors hashSaplingAnchor].
  assert (A : (if a =? 0 then v_GetBestAnchor base else a) = a).
  { unfold a. destruct (hashSaplingAnchor v =? 0) eqn:E; [by destruct (v_GetBestAnchor base =? 0)|by rewrite E]. }
  destruct (cacheSaplingAnchors v !! a) as [e|] eqn:L.
  - intros X. injection X as X <-. cbn. rewrite A, L. by rewrite X.
  - destruct (v_GetSaplingAnchorAt base a) as [t'|]; [|done]. intros X. injection X as <- <-. cbn. rewrite A.
    by rewrite lookup_insert_eq.
Qed.

Lemma ConnectBlock_inv blocks threads (block : CBlock) pindex v just v' undo st :
  0 <= bi_nHeight pindex -> CBlockHeader_GetHash block <> hashGenesisBlock (consensus p) ->
  ConnectBlock p env m chain base invalid blocks threads block false pindex v just = Valid (v', undo, st) ->
  exists s, block_connected block pindex v v' undo s.
Proof.
  intros Hh NG. unfold ConnectBlock. intros R. valid_inv R.
  assert (Chk : exists cold, checked_block p block cold).
  { destruct (CheckBlock _ _ _ _ _ _ _ _ _) as [b| |] eqn:CB in E; [|by destruct (corruptionPossible state)|done].
    by eapply CheckBlock_Valid. }
  destruct (GetBestBlock base v) as [best v1] eqn:G1. destruct (negb _) in R; [done|].
  valid_inv R. apply of_option_Valid in E0, E1, E2.
  assert (V6 : r2 = false).
  { rewrite NetworkUpgradeActive_never in E2; [by injection E2|done|by destruct net]. }
  subst r2. cbn [negb andb] in C. rewrite (proj2 (Z.eqb_neq _ _) NG) in R. valid_inv R.
  destruct r2. apply ConnectHeader_Valid in E3 as [_ Turn].
  destruct (GetBestAnchor base v1) as [anchor v2] eqn:G2.
  destruct (GetSaplingAnchorAt base v2 anchor) as [tree v3] eqn:G3.
  valid_inv R.
  destruct r6. exists r5. split; try done.
  - intros P. rewrite P in C. by destruct (empty_coinbase block).
  - exists r3, v3, r2. split.
    { intros R' RC. etrans; [by eapply (GetBestBlock_reads base R')|].
      etrans; [by eapply (GetBestAnchor_reads base R')|by eapply (GetSaplingAnchorAt_reads base R')]. }
    split; [|done]. match goal with X : of_option tree = Valid _ |- _ => apply of_option_Valid in X; subst tree end.
    by eapply best_anchor_found.
  - destruct just; injection R as <- _ _; [apply PushAnchor_keeps|].
    etrans; [apply PushAnchor_keeps|apply SetBestBlock_keeps].
  - split.
    + rewrite NetworkUpgradeActive_from in E1 by (by destruct net). injection E1 as <-. cbn [andb] in C0.
      apply negb_false_iff, Z.eqb_eq in C0. done.
    + destruct just; injection R as <- _ _; [|by eexists]. exists (hashBlock (PushAnchor base (cn_view r5) (cn_tree r5))).
      by destruct (PushAnchor base (cn_view r5) (cn_tree r5)).
  - by destruct just; injection R as _ <- _.
Qed.

Lemma in_value_range M ins :
  coins_ok M -> NoDup (prevout <$> ins) -> Forall (fun i => is_Some (M !! prevout i)) ins -> 0 <= in_value M ins <= value M.
Proof.
  intros C N F. pose proof (value_spend_inputs ins M N F) as V. pose proof (value_nonneg _ (spend_inputs_ok ins M C)).
  split; [|lia]. apply sumZ_nonneg, Forall_forall. intros i I. destruct (M !! prevout i) as [c|] eqn:L; [|done].
  exact (C _ _ L).
Qed.

(** A block mints no more than the outputs of its coinbase, or of its coinstake over its inputs. *)
Lemma block_mint_range (block : CBlock) h M :
  coins_ok M -> value M <= MAX -> Forall tx_checked (vtx block) -> all_ready M h (vtx block) ->
  (exists cb txs, vtx block = cb :: txs /\ IsCoinBase cb = true /\ Forall (fun tx => IsCoinBase tx = false) txs) ->
  Forall (fun tx => IsCoinStake tx = false) (drop 2 (vtx block)) ->
  (IsProofOfStake block = true -> empty_coinbase block = true) ->
  - MAX <= along tx_mint M h (vtx block) <= MAX /\
  (IsProofOfStake block = false -> 0 <= along tx_mint M h (vtx block)).
Proof.
  intros CM VM C R (cb & txs & E & B & NB) NS EC. unfold IsProofOfStake, empty_coinbase in *. rewrite E in *.
  apply Forall_cons in C as [C0 C]. destruct R as [R0 R]. cbn [along]. pose proof (tx_out_range cb C0) as O.
  assert (M0 : tx_mint M cb = tx_out cb) by (unfold tx_mint, generates, tx_in; rewrite B; cbn; lia).
  assert (Plain : forall l, Forall (fun tx => IsCoinBase tx = false) l -> Forall (fun tx => IsCoinStake tx = false) l ->
            Forall (fun tx => generates tx = false) l).
  { intros l L1 L2. apply Forall_forall. intros t T. rewrite Forall_forall in L1, L2. unfold generates. by rewrite L1, L2. }
  destruct txs as [|cs txs]; cbn [vtx_IsProofOfStake] in *; [cbn; unfold COIN in *; split; [lia|intros _; lia]|].
  destruct (IsCoinStake cs) eqn:S.
  - specialize (EC eq_refl). destruct (vout cb) as [|o [|]] eqn:V; [done| |done]. apply Forall_cons in NB as [NB0 NB].
    apply Forall_cons in C as [C1 C]. destruct R as [R1 R]. cbn [along]. rewrite along_mint_plain by (by apply Plain).
    unfold TxOut_IsEmpty in EC. apply andb_true_iff in EC as [Zo _]. apply Z.eqb_eq in Zo.
    assert (T0 : tx_out cb = 0).
    { unfold tx_out, shielded_out. rewrite (checked_transparent _ C0), V by (unfold generates; by rewrite B). cbn. lia. }
    assert (T1 : tx_mint (apply_tx M h cb) cs = tx_out cs - in_value (apply_tx M h cb) (vin cs)).
    { unfold tx_mint, generates, tx_in, shielded_in. rewrite (checked_transparent _ C1) by (unfold generates; by rewrite S, orb_true_r).
      rewrite NB0, S. cbn. lia. }
    pose proof (apply_tx_value M h cb R0) as V1. rewrite B, V in V1. cbn [sumZ] in V1. destruct R1 as [RI RN RO RF].
    pose proof (in_value_range (apply_tx M h cb) (vin cs) (apply_tx_ok M h cb CM R0) RN (RI NB0)).
    pose proof (tx_out_range cs C1). split; [lia|done].
  - rewrite along_mint_plain; [lia|]. apply Plain; [done|]. by constructor.
Qed.

Lemma CheckMint_Valid (block : CBlock) h s fees mint :
  CheckMint p block h s = Valid () -> in_i64 (cn_fees s) -> i64 (cn_fees s) = i64 fees -> balance s = i64 mint ->
  - MAX <= mint <= MAX -> 0 <= fees < 2 ^ 64 -> (IsProofOfStake block = false -> 0 <= mint) ->
  exists b, GetBlockValue h = Some b /\ 0 <= b <= MAX /\
    mint <= b + (if IsProofOfStake block then 0 else fees).
Proof.
  intros R FW Fs B MR FR PW. unfold CheckMint in R. destruct (Z.ltb_spec (cn_fees s) 0) as [|FN]; [done|]. valid_inv R.
  apply of_option_Valid in E. exists r. split; [done|]. rewrite i64_add_l in C. fold (balance s) in C. rewrite B in C.
  rewrite (i64_id mint) in C by (unfold in_i64, INT64_MIN, INT64_MAX, COIN in *; lia). apply Z.ltb_ge in C.
  assert (V : 0 <= r <= MAX).
  { unfold GetBlockValue in E. destruct (h =? 1); [|injection E as <-; unfold COIN; lia].
    replace GetPremineTotal with (Some MAX) in E by reflexivity. injection E as <-. unfold COIN. lia. }
  split; [done|]. destruct (IsProofOfStake block); [lia|]. specialize (PW eq_refl).
  assert (FE : cn_fees s = fees).
  { rewrite i64_id in Fs by done. rewrite Fs in FN. rewrite Fs. destruct (i64_cong fees) as [k K].
    destruct (i64_range fees) as [_ U]. unfold INT64_MAX in U. rewrite K in *. change (2 ^ 64) with 18446744073709551616 in *. lia. }
  rewrite FE in C. destruct (i64_cong (r + fees)) as [k K]. destruct (i64_range (r + fees)) as [L U].
  unfold INT64_MIN, INT64_MAX in *. rewrite K in *. change (2 ^ 64) with 18446744073709551616 in *.
  assert (in_i64 fees) by (rewrite <- FE; done). unfold in_i64, INT64_MIN, INT64_MAX in *. lia.
Qed.

(** The value that leaves the transparent coins for the shielded pool. *)
Definition block_shielded (block : CBlock) : Z := - sumZ tx_valueBalance (vtx block).

(** What is asked of a block besides being accepted: its transaction ids are
    new, no input is read as a zerocoin spend, and there is no coinstake after
    its second transaction. *)
Record sound_block (M : CoinMap) (block : CBlock) : Prop := {
  sb_fresh : fresh_txs M (vtx block);
  sb_zerocoin : Forall (fun tx => HasZerocoinSpendInputs tx = false) (vtx block);
  sb_coinstakes : Forall (fun tx => IsCoinStake tx = false) (drop 2 (vtx block))
}.

Lemma block_connected_supply (block : CBlock) pindex v v' undo s M pool :
  block_connected block pindex v v' undo s -> 0 <= bi_nHeight pindex ->
  denotes base v M -> coins_ok M -> 0 <= pool -> value M + pool <= MAX ->
  nChainSaplingValue pindex = Some (pool + block_shielded block) -> sound_block M block ->
  let M' := apply_txs M (bi_nHeight pindex) (vtx block) in
  exists b, GetBlockValue (bi_nHeight pindex) = Some b /\ denotes base v' M' /\ coins_ok M' /\
    0 <= pool + block_shielded block /\ 0 <= along tx_fee M (bi_nHeight pindex) (vtx block) /\
    value M' + (pool + block_shielded block) <=
      value M + pool + b - (if IsProofOfStake block then along tx_fee M (bi_nHeight pindex) (vtx block) else 0).
Proof.
  intros [(cold & [First _ Txs]) EC Turn (f & v0 & tree & K0 & _ & Loop) Mint KV _ _] Hh D CM P0 PM SV [Fr Zc CS] M'.
  specialize (K0 (keeps base) _).
  assert (C : Forall tx_checked (vtx block)).
  { apply Forall_forall. intros t T. rewrite Forall_forall in Txs, Zc. eapply CheckTransaction_checked; [by apply Txs|by apply Zc]. }
  pose proof (value_nonneg M CM) as VM.
  apply (ConnectTxs_Valid _ _ _ Hh _ _ _ M) in Loop as [Rd V Fe Fs FW B _]; [|by eapply denotes_keeps|done..].
  destruct (block_mint_range block (bi_nHeight pindex) M) as [MR MP]; try done; [lia|].
  pose proof (apply_txs_supply (bi_nHeight pindex) (vtx block) M Rd) as Sup. fold M' in V, Sup.
  pose proof (apply_txs_ok (bi_nHeight pindex) (vtx block) M CM Rd) as CM'. fold M' in CM'. pose proof (value_nonneg M' CM').
  apply Turn in SV. unfold block_shielded in *. cbn [connect_start cn_fees] in *.
  assert (B0 : balance (connect_start v0 tree) = 0) by reflexivity. rewrite B0 in B. cbn [Z.add] in Fs, B.
  destruct (CheckMint_Valid block (bi_nHeight pindex) s (along tx_fee M (bi_nHeight pindex) (vtx block))
              (along tx_mint M (bi_nHeight pindex) (vtx block))) as (b & GB & BR & ML); try done.
  - by apply FW.
  - change (2 ^ 64) with 18446744073709551616. unfold COIN in *. lia.
  - exists b. split_and!; try done; [by eapply denotes_keeps|]. destruct (IsProofOfStake block); lia.
Qed.

End Amounts.

(** ** Claims *)

(** C2. A sound block that [ConnectBlock] accepts creates no money beyond its
    subsidy.  Let the view denote a set of unspent outputs whose value, with
    that of the shielded pool, is within the cap of 72 billion coins, and let
    the index carry the value of the pool after the block.  Let the block be
    sound, which [ConnectBlock] does not check: its transaction ids are new, no
    input is read as a zerocoin spend, and there is no coinstake after its
    second transaction (the examples at the end of this file show that a block
    that is not sound may be accepted and create money).  Then after the block
    the view denotes the set with the inputs of every transaction removed and
    its outputs added; no output and not the shielded pool is negative; and the
    total has grown by [GetBlockValue] at most, whatever the 64-bit sums of the
    code do. *)
Theorem connect_block_supply `{HashFunctions, Ecdsa, SaplingTree} net env m chain base invalid blocks threads
    (block : CBlock) pindex v just v' undo st (M : CoinMap) pool (p := CreateChainParams net) (h := bi_nHeight pindex) :
  0 <= h -> CBlockHeader_GetHash block <> hashGenesisBlock (consensus p) ->
  denotes base v M -> coins_ok M -> 0 <= pool -> value M + pool <= 72000000000 * COIN ->
  nChainSaplingValue pindex = Some (pool + block_shielded block) -> sound_block M block ->
  ConnectBlock p env m chain base invalid blocks threads block false pindex v just = Valid (v', undo, st) ->
  exists b, GetBlockValue h = Some b /\
    denotes base v' (apply_txs M h (vtx block)) /\ coins_ok (apply_txs M h (vtx block)) /\ 0 <= pool + block_shielded block /\
    value (apply_txs M h (vtx block)) + (pool + block_shielded block) <= value M + pool + b.
Proof.
  intros Hh NG D CM P0 PM SV SB R. apply ConnectBlock_inv in R as [s C]; [|done..].
  destruct (block_connected_supply _ _ _ _ _ block pindex v v' undo s M pool C) as (b & GB & D' & CM' & P' & F & S); try done.
  exists b. subst h. split_and!; try done. destruct (IsProofOfStake block); lia.
Qed.

(** A proof-of-stake block moreover destroys its fees. *)
Corollary stake_block_burns_fees `{HashFunctions, Ecdsa, SaplingTree} net env m chain base invalid blocks threads
    (block : CBlock) pindex v just v' undo st (M : CoinMap) pool (p := CreateChainParams net) (h := bi_nHeight pindex) :
  0 <= h -> CBlockHeader_GetHash block <> hashGenesisBlock (consensus p) ->
  denotes base v M -> coins_ok M -> 0 <= pool -> value M + pool <= 72000000000 * COIN ->
  nChainSaplingValue pindex = Some (pool + block_shielded block) -> sound_block M block ->
  ConnectBlock p env m chain base invalid blocks threads block false pindex v just = Valid (v', undo, st) -> IsProofOfStake block = true ->
  exists b, GetBlockValue h = Some b /\ 0 <= along tx_fee M h (vtx block) /\
    value (apply_txs M h (vtx block)) + (pool + block_shielded block) + along tx_fee M h (vtx block) <= value M + pool + b.
Proof.
  intros Hh NG D CM P0 PM SV SB R St. apply ConnectBlock_inv in R as [s C]; [|done..].
  destruct (block_connected_supply _ _ _ _ _ block pindex v v' undo s M pool C) as (b & GB & D' & CM' & P' & F & S); try done.
  exists b. subst h. split_and!; try done. rewrite St in S. lia.
Qed.

(** The chains that are connected block by block from the genesis block, over
    a store without coins, with the view and the shielded pool at their tip. *)
Inductive connected_chain `{HashFunctions, Ecdsa, SaplingTree} (net : Network) (base : CCoinsView) : Z -> CCoinsViewCache -> Z -> Prop :=
  | chain_genesis v : denotes base v ∅ -> connected_chain net base 0 v 0
  | chain_block h v pool env m chain invalid blocks threads (block : CBlock) pindex v' undo st :
      connected_chain net base h v pool -> bi_nHeight pindex = h + 1 ->
      CBlockHeader_GetHash block <> hashGenesisBlock (consensus (CreateChainParams net)) ->
      nChainSaplingValue pindex = Some (pool + block_shielded block) ->
      (forall M, denotes base v M -> sound_block M block) ->
      ConnectBlock (CreateChainParams net) env m chain base invalid blocks threads block false pindex v false = Valid (v', undo, st) ->
      connected_chain net base (h + 1) v' (pool + block_shielded block).

(** C1. The supply never exceeds 72 billion coins.  On every network, after any
    number of blocks that [ConnectBlock] accepts one after the other on top of
    the genesis block, over a store without coins, the unspent outputs and the
    shielded pool together are worth at most 72 billion coins, no output is
    negative and neither is the pool.  Each block is asked to carry in its index
    the value of the shielded pool, and to be sound: its transaction ids are
    new, no input is read as a zerocoin spend, and there is no coinstake after
    its second transaction.  [ConnectBlock] does not check the latter, and the
    cap does not hold without them (see the examples below). *)
Theorem money_supply_cap `{HashFunctions, Ecdsa, SaplingTree} (net : Network) (base : CCoinsView) h v pool :
  connected_chain net base h v pool ->
  exists M, denotes base v M /\ coins_ok M /\ 0 <= h /\ 0 <= pool /\
    value M + pool <= (if h =? 0 then 0 else 72000000000 * COIN).
Proof.
  induction 1 as [v D|h v pool env m chain invalid blocks threads block pindex v' undo st _ (M & D & CM & Hh & P0 & PM) HI NG SV SB R].
  { by exists ∅. }
  assert (PC : value M + pool <= 72000000000 * COIN) by (destruct (h =? 0); unfold COIN in *; lia).
  apply ConnectBlock_inv in R as [s C]; [|lia|done].
  destruct (block_connected_supply _ _ _ _ _ block pindex v v' undo s M pool C) as (b & GB & D' & CM' & P' & F & S);
    try done; [lia|by apply SB|].
  eexists. split_and!; [exact D'|exact CM'|lia|done|]. rewrite (proj2 (Z.eqb_neq (h + 1) 0)) by lia.
  rewrite HI in *. unfold GetBlockValue in GB. destruct (Z.eqb_spec (h + 1) 1) as [E|E].
  - replace GetPremineTotal with (Some (72000000000 * COIN)) in GB by reflexivity. injection GB as <-.
    rewrite (proj2 (Z.eqb_eq h 0)) in PM by lia. destruct (IsProofOfStake block); lia.
  - injection GB as <-. destruct (IsProofOfStake block); lia.
Qed.

(** The premine block on regtest, over a store that is empty but for its anchor. *)
Definition genesis_view : CCoinsView (H := counting_tree) :=
  {| v_GetCoin := fun _ => None; v_GetBestBlock := 1;
     v_GetSaplingAnchorAt := fun rt => if rt =? 1 then Some (1 : SaplingMerkleTree (SaplingTree := counting_tree)) else None;
     v_GetNullifier := fun _ => false; v_GetBestAnchor := 1 |}.

Definition premine_coinbase : CTransaction := {|
  vin := [{| prevout := {| op_hash := 0; op_n := 0xffffffff |}; scriptSig := push_int64 [] 1 ++ [OP_0 : Z]; nSequence := SEQUENCE_FINAL |}];
  vout := premine_outputs (CreateChainParams REGTEST);
  tx_nVersion := 1; nType := 0; nLockTime := 0; sapData := None; extraPayload := None
|}.

Definition one_tx_block (prev time : Z) (txs : list CTransaction) : CBlock := {|
  header := {| nVersion := 8; hashPrevBlock := prev;
               hashMerkleRoot := match ComputeMerkleRoot (H := checksum_hashes) (GetHash (H := checksum_hashes) <$> txs) with
                                 | Some (root, _) => root | None => 0 end;
               nTime := time; nBits := 0x207fffff; nNonce := 0; nAccumulatorCheckpoint := 0; hashFinalSaplingRoot := 1 |};
  vtx := txs; vchBlockSig := []
|}.

Definition premine_block : CBlock := one_tx_block 1 1785920060 [premine_coinbase].

(** The index of a block of a height on top of [line_index]. *)
Definition block_index (h : Z) (pool : option Z) : CBlockIndex := {|
  phashBlock := h + 1; pprev := Some h; pskip := None; bi_nHeight := h; nChainWork := 0; nTx := 1; nChainTx := 1;
  nStatus := 0; vStakeModifier := []; nFlags := 0; nSaplingValue := 0; nChainSaplingValue := pool; bi_nVersion := 8;
  bi_hashMerkleRoot := 0; bi_hashFinalSaplingRoot := 1; bi_nTime := 0; bi_nBits := 0; bi_nNonce := 0;
  bi_nAccumulatorCheckpoint := 0; nTimeMax := 0
|}.

Definition example_env : NodeEnv := {|
  IsInitialBlockDownload := false; spork_coldstaking_maintenance := false; spork_sapling_maintenance := 4070908800;
  GetAdjustedTime := 1785930000; fCheckpointsEnabled := true; nMaxReorgDepth := 100
|}.

Definition first_index : CBlockIndex := block_index 1 (Some 0).

Abbreviation connect_premine :=
  (ConnectBlock (H := checksum_hashes) (H0 := echo_ecdsa) (CreateChainParams REGTEST) example_env (line_map 1) [1] genesis_view
    (fun _ => false) (fun _ => None) false premine_block false first_index new_cache false).

Lemma genesis_denotes : denotes genesis_view new_cache ∅.
Proof. split; [apply map_Forall_empty|done]. Qed.

Lemma premine_block_sound M : M = ∅ -> sound_block (H := checksum_hashes) M premine_block.
Proof.
  intros ->. split; [|repeat constructor..]. split; [apply NoDup_singleton|]. repeat constructor.
Qed.

Lemma premine_connects : exists v' undo st, connect_premine = Valid (v', undo, st).
Proof.
  assert (V : match connect_premine with Valid _ => true | _ => false end = true) by (vm_compute; reflexivity).
  destruct connect_premine as [[[v' undo] st]|s|]; [by exists v', undo, st|discriminate..].
Qed.

Lemma connect_block_supply_witness :
  exists v' undo st b, connect_premine = Valid (v', undo, st) /\ GetBlockValue (bi_nHeight first_index) = Some b /\
    denotes genesis_view v' (apply_txs (H := checksum_hashes) ∅ (bi_nHeight first_index) (vtx premine_block)) /\
    value (apply_txs (H := checksum_hashes) ∅ (bi_nHeight first_index) (vtx premine_block)) + (0 + block_shielded premine_block) <=
      value ∅ + 0 + b.
Proof.
  destruct premine_connects as (v' & undo & st & E).
  destruct (connect_block_supply (H := checksum_hashes) (H0 := echo_ecdsa) REGTEST example_env (line_map 1) [1] genesis_view
              (fun _ => false) (fun _ => None) false premine_block first_index new_cache false v' undo st ∅ 0)
    as (b & B & D & _ & _ & V); [vm_compute; congruence|vm_compute; congruence|apply genesis_denotes|apply map_Forall_empty|
      lia|vm_compute; congruence|vm_compute; reflexivity|by apply premine_block_sound|exact E|].
  exists v', undo, st, b. split; [exact E|]. split; [exact B|]. split; [exact D|exact V].
Defined.

Lemma money_supply_cap_witness :
  exists v' undo st M, connect_premine = Valid (v', undo, st) /\ denotes genesis_view v' M /\
    value M + (0 + block_shielded premine_block) <= (if 0 + 1 =? 0 then 0 else 72000000000 * COIN).
Proof.
  destruct premine_connects as (v' & undo & st & E).
  destruct (money_supply_cap (H := checksum_hashes) (H0 := echo_ecdsa) REGTEST genesis_view (0 + 1) v' (0 + block_shielded premine_block))
    as (M & D & _ & _ & _ & V).
  - eapply chain_block with (pindex := first_index); [apply chain_genesis, genesis_denotes|reflexivity|vm_compute; congruence|vm_compute; reflexivity| |exact E].
    intros M D. apply premine_block_sound. apply map_eq. intros o. by rewrite <- (proj2 D), lookup_empty.
  - exists v', undo, st, M. split; [exact E|]. split; [exact D|exact V].
Defined.

(** ** The remnants that break the bound *)

(** A store with three coins of one KROV each. *)
Definition small_view : CCoinsView (H := counting_tree) :=
  {| v_GetCoin := fun o => if (7 <=? op_hash o) && (op_hash o <? 10) && (op_n o =? 0)
                           then Some {| fCoinBase := false; fCoinStake := false; coin_nHeight := 1;
                                        coin_out := {| nValue := COIN; scriptPubKey := [OP_1 : Z] |} |}
                           else None;
     v_GetBestBlock := 2;
     v_GetSaplingAnchorAt := fun rt => if rt =? 1 then Some (1 : SaplingMerkleTree (SaplingTree := counting_tree)) else None;
     v_GetNullifier := fun _ => false; v_GetBestAnchor := 1 |}.

Definition simple_tx (o : COutPoint) (script : CScript) (seq : Z) (outs : list CTxOut) : CTransaction := {|
  vin := [{| prevout := o; scriptSig := script; nSequence := seq |}]; vout := outs;
  tx_nVersion := 1; nType := 0; nLockTime := 0; sapData := None; extraPayload := None
|}.

Definition pay (n : Z) : CTxOut := {| nValue := n; scriptPubKey := [OP_1 : Z] |}.
Definition null_outpoint : COutPoint := {| op_hash := 0; op_n := 0xffffffff |}.
Definition simple_coinbase (outs : list CTxOut) : CTransaction := simple_tx null_outpoint (push_int64 [] 2 ++ [OP_0 : Z]) SEQUENCE_FINAL outs.
Definition small_coin (n : Z) : COutPoint := {| op_hash := 7 + n; op_n := 0 |}.

Definition connect_small (net : Network) (block : CBlock) :=
  ConnectBlock (H := checksum_hashes) (H0 := echo_ecdsa) (CreateChainParams net) example_env (line_map 2) [1; 2] small_view
    (fun _ => false) (fun _ => None) false block false (block_index 2 (Some 0)) new_cache false.

(** Two coinstakes after the second transaction of a proof-of-work block, each
    turning one coin into 72 billion. *)
Definition coinstake_block : CBlock :=
  one_tx_block 2 1785920120
    [simple_coinbase [pay 0]; simple_tx (small_coin 0) [] SEQUENCE_FINAL [pay COIN];
     simple_tx (small_coin 1) [] SEQUENCE_FINAL [{| nValue := 0; scriptPubKey := [] |}; pay (72000000000 * COIN)];
     simple_tx (small_coin 2) [] SEQUENCE_FINAL [{| nValue := 0; scriptPubKey := [] |}; pay (72000000000 * COIN)]].

(** [nValueOut] wraps around, [nMint] is negative, and the block is accepted. *)
Example coinstakes_in_pow_block_inflate :
  exists v undo st, connect_small REGTEST coinstake_block = Valid (v, undo, st) /\
    forall i tx, (2 <= i)%nat -> vtx coinstake_block !! i = Some tx ->
      option_map coin_value (utxo small_view v {| op_hash := GetHash (H := checksum_hashes) tx; op_n := 1 |}) = Some (72000000000 * COIN).
Proof.
  destruct (connect_small REGTEST coinstake_block) as [[[v undo] st]|s|] eqn:E; [|vm_compute in E; discriminate..].
  exists v, undo, st. split; [done|]. vm_compute in E. injection E as <- _ _.
  intros i tx Hi L. do 4 (destruct i as [|i]; [try lia; injection L as <-; vm_compute; reflexivity|]). done.
Qed.

(** A transparent input whose [scriptSig] starts with [OP_ZEROCOINPUBLICSPEND]
    counts [nSequence] coins towards the fees that a miner may collect; the
    script is not run below the last checkpoint. *)
Definition zerocoin_block : CBlock :=
  let b := one_tx_block 2 1785931320
    [simple_coinbase [pay (4000000000 * COIN)]; simple_tx (small_coin 0) [OP_ZEROCOINPUBLICSPEND : Z] 4000000001 [pay COIN]] in
  {| header := {| nVersion := nVersion b; hashPrevBlock := hashPrevBlock b; hashMerkleRoot := hashMerkleRoot b; nTime := nTime b;
                  nBits := 0x1e0fffff; nNonce := 0; nAccumulatorCheckpoint := 0; hashFinalSaplingRoot := 1 |};
     vtx := vtx b; vchBlockSig := [] |}.

Example zerocoin_sequence_inflates :
  exists v undo st, connect_small MAIN zerocoin_block = Valid (v, undo, st) /\
    forall cb, vtx zerocoin_block !! 0%nat = Some cb ->
      option_map coin_value (utxo small_view v {| op_hash := GetHash (H := checksum_hashes) cb; op_n := 0 |}) = Some (4000000000 * COIN).
Proof.
  destruct (connect_small MAIN zerocoin_block) as [[[v undo] st]|s|] eqn:E; [|vm_compute in E; discriminate..].
  exists v, undo, st. split; [done|]. vm_compute in E. injection E as <- _ _.
  intros cb L. injection L as <-. vm_compute. reflexivity.
Qed.
