(* ===== verification/Disconnect.v ===== *)
(** * Disconnecting undoes connecting

    [DisconnectBlock] on the view that [ConnectBlock] leaves, with the undo
    data it returns, restores the unspent outputs and the nullifiers exactly
    and reports that the view was consistent. *)

From S2P Require Import Prelude Params Crypto Serialize Script Transaction Superblock ValidationState Chain Coins.
From S2P Require Import TxVerify Interpreter Stake CheckBlock Connect Supply.

(** ** Outputs *)

Section Outputs.
Context (txid h : Z) (cb cs : bool).

Definition out_key (n : Z) : COutPoint := {| op_hash := txid; op_n := n |}.
Definition made_coin (o : CTxOut) : Coin := {| fCoinBase := cb; fCoinStake := cs; coin_out := o; coin_nHeight := u32 h |}.

(** Outputs from [i] on do not touch the ones before. *)
Lemma lookup_add_outputs_before outs k : forall i M, k < i -> add_outputs txid h cb cs i outs M !! out_key k = M !! out_key k.
Proof.
  induction outs as [|o outs IH]; intros i M L; cbn [add_outputs]; [done|]. rewrite IH by lia.
  case_match; [|done]. apply lookup_insert_ne. intros [= ->]. lia.
Qed.

Lemma delete_add_outputs outs k : forall i M, k < i ->
  delete (out_key k) (add_outputs txid h cb cs i outs M) = add_outputs txid h cb cs i outs (delete (out_key k) M).
Proof.
  induction outs as [|o outs IH]; intros i M L; cbn [add_outputs]; [done|]. rewrite IH by lia. f_equal.
  case_match; [|done]. apply delete_insert_ne. intros [= ->]. lia.
Qed.

(** An output that is spendable and no zerocoin mint. *)
Definition plain_output (o : CTxOut) : Prop := TxOut_IsZerocoinMint o = false.

Lemma RemoveOutputs_denotes `{SaplingTree} base outs : forall i v M fClean,
  Forall plain_output outs -> (forall n, i <= n -> M !! out_key n = None) ->
  denotes base v (add_outputs txid h cb cs i outs M) ->
  exists v', RemoveOutputs base txid outs i v fClean = (fClean, v') /\ denotes base v' M.
Proof.
  induction outs as [|o outs IH]; intros i v M fClean P N D; [by exists v|]. apply Forall_cons in P as [P0 P].
  cbn [RemoveOutputs add_outputs] in *. fold (made_coin o) in D. fold (out_key i) in *.
  unfold is_stored in D. cbn [made_coin coin_out] in D. unfold plain_output in P0. rewrite P0, andb_true_r in D.
  destruct (IsUnspendable (scriptPubKey o)); cbn [negb] in D.
  - destruct (IH (i + 1) v M fClean P) as (v' & E & D'); [intros; apply N; lia|done|]. by exists v'.
  - destruct (SpendCoin_denotes base v _ (out_key i) (made_coin o) D) as [R D1].
    { rewrite lookup_add_outputs_before by lia. by rewrite lookup_insert_eq. }
    rewrite delete_add_outputs in D1 by lia. rewrite delete_insert_id in D1 by (apply N; lia).
    destruct (SpendCoin base v (out_key i)) as [c v1]. cbn [fst snd] in *. subst c.
    destruct (IH (i + 1) v1 M fClean P) as (v' & E & D'); [intros; apply N; lia|done|].
    exists v'. split; [|done]. cbn [default made_coin coin_out]. by rewrite bool_decide_eq_true_2, andb_true_r.
Qed.

End Outputs.

(** ** Inputs *)

(** Every coin of the set can be put back: it is one that [AddCoin] stores, at a height above 0. *)
Definition restorable (c : Coin) : Prop := is_stored c = true /\ coin_nHeight c <> 0.

Section Inputs.
Context `{SaplingTree} (base : CCoinsView).

Lemma ApplyTxInUndo_denotes v M o c :
  denotes base v M -> M !! o = None -> restorable c -> IsSpent c = false ->
  exists v', ApplyTxInUndo base c v o = Some (DISCONNECT_OK, v') /\ denotes base v' (<[o := c]> M).
Proof.
  intros D N [St Hh] Sp. unfold ApplyTxInUndo. pose proof (HaveCoin_spec base v o) as Hc.
  destruct (HaveCoin base v o) as [have v1] eqn:E. apply (HaveCoin_reads base (keeps base)) in E.
  cbn [fst] in Hc. rewrite (proj2 D), N in Hc. cbn in Hc. subst have. cbn [negb].
  rewrite (proj2 (Z.eqb_neq _ _) Hh). destruct (denotes_keeps _ _ _ _ E D) as [W U].
  destruct (AddCoin_total base v1 o c false Sp) as [v2 A]; [by rewrite U|]. rewrite A. cbn [mbind option_bind].
  exists v2. split; [done|]. split; [eapply AddCoin_wf; [done..|by rewrite U]|]. intros o'.
  rewrite (AddCoin_utxo base _ _ _ _ _ _ A), St. cbn [andb]. case_bool_decide; subst;
    [by rewrite lookup_insert_eq|by rewrite lookup_insert_ne].
Qed.

Lemma zip_snoc {A B} (l : list A) (k : list B) a b : List.length l = List.length k -> zip (l ++ [a]) (k ++ [b]) = zip l k ++ [(a, b)].
Proof. intros E. by rewrite zip_with_app. Qed.

Lemma RestoreInputs_denotes ins : forall v M fClean,
  denotes base v (spend_inputs M ins) -> NoDup (prevout <$> ins) -> Forall (fun i => is_Some (M !! prevout i)) ins ->
  map_Forall (fun _ => restorable) M -> map_Forall (fun _ c => IsSpent c = false) M ->
  exists v', RestoreInputs base (reverse (zip ins (spent_coins M ins))) v fClean = Some (Some fClean, v') /\ denotes base v' M.
Proof.
  induction ins as [|i ins IH] using rev_ind; intros v M fClean D N F Re Sp; [by exists v|].
  rewrite fmap_app in N. apply NoDup_app in N as (N & NI & _). apply Forall_app in F as [F F1]. apply Forall_singleton in F1 as [c L].
  assert (NI' : prevout i ∉ prevout <$> ins) by (intros X; apply (NI _ X); by apply list_elem_of_singleton).
  unfold spent_coins. rewrite fmap_app. cbn [fmap list_fmap]. rewrite zip_snoc by (by rewrite length_fmap).
  rewrite reverse_snoc. cbn [RestoreInputs]. rewrite L. change (default coinEmpty (Some c)) with c.
  unfold spend_inputs in D. rewrite foldl_app in D. cbn [foldl] in D. fold (spend_inputs M ins) in D.
  assert (L' : spend_inputs M ins !! prevout i = Some c) by (rewrite lookup_spend_inputs; by rewrite bool_decide_eq_false_2).
  destruct (ApplyTxInUndo_denotes v _ (prevout i) c D) as (v1 & A & D1);
    [apply lookup_delete_eq|exact (Re _ _ L)|exact (Sp _ _ L)|]. rewrite A. cbn [mbind option_bind].
  rewrite insert_delete_id in D1 by done. fold (spent_coins M ins). by apply IH.
Qed.

End Inputs.

(** ** Transactions *)

Definition good_coins (M : CoinMap) : Prop := coins_ok M /\ map_Forall (fun _ => restorable) M.

Lemma good_unspent M : good_coins M -> map_Forall (fun _ c => IsSpent c = false) M.
Proof. intros [C _] o c L. apply Z.eqb_neq. specialize (C _ _ L). cbn in C. unfold coin_value in C. lia. Qed.

Section Transactions.
Context `{HashFunctions, SaplingTree} (base : CCoinsView) (h : Z) (Hh : 0 < h < 2 ^ 32).

Lemma good_coins_apply M tx : good_coins M -> tx_ready M tx -> good_coins (apply_tx M h tx).
Proof.
  intros [C Re] R. split; [by apply apply_tx_ok|]. unfold apply_tx.
  assert (Re' : map_Forall (fun _ => restorable) (if IsCoinBase tx then M else spend_inputs M (vin tx))).
  { destruct (IsCoinBase tx); [done|]. intros o c. rewrite lookup_spend_inputs. case_match; [done|apply Re]. }
  revert Re'. generalize (if IsCoinBase tx then M else spend_inputs M (vin tx)). generalize 0. clear R.
  induction (vout tx) as [|o outs IH]; intros i X RX; cbn [add_outputs]; [done|]. apply IH.
  destruct (is_stored _) eqn:S; [|done]. apply map_Forall_insert_2; [|done]. split; [done|]. cbn. unfold uint.
  rewrite Z.mod_small; lia.
Qed.

Lemma good_coins_apply_txs txs : forall M, good_coins M -> all_ready M h txs -> good_coins (apply_txs M h txs).
Proof.
  induction txs as [|tx txs IH]; intros M G R; [done|]. destruct R as [R0 R]. apply IH; [by apply good_coins_apply|done].
Qed.

(** No output of the transaction is a zerocoin mint, which is not stored but looked for again. *)
Definition plain_outputs (tx : CTransaction) : Prop := Forall plain_output (vout tx).

Lemma DisconnectTx_denotes v M tx undo fClean :
  denotes base v (apply_tx M h tx) -> good_coins M -> tx_ready M tx -> plain_outputs tx ->
  (IsCoinBase tx = false -> undo = Some (spent_coins M (vin tx))) ->
  exists v', DisconnectTx base tx undo v fClean = Some (Some fClean, v') /\ denotes base v' M.
Proof.
  intros D G [I N O Fr] P U. unfold DisconnectTx, apply_tx in *.
  destruct (RemoveOutputs_denotes (GetHash tx) h (IsCoinBase tx) (IsCoinStake tx) base (vout tx) 0 v
              (if IsCoinBase tx then M else spend_inputs M (vin tx)) fClean P) as (v1 & E & D1); [|done|].
  { intros n _. destruct (IsCoinBase tx); [apply Fr|apply fresh_spend, Fr]. }
  rewrite E. destruct (IsCoinBase tx); [by exists v1|]. rewrite U by done. cbn [mbind option_bind].
  unfold spent_coins at 1, size. rewrite length_fmap, Z.eqb_refl. cbn [negb].
  apply RestoreInputs_denotes; [|done|by apply I|apply G|by apply good_unspent].
  eapply denotes_keeps; [apply SetNullifiers_keeps|done].
Qed.

Lemma all_ready_app txs1 txs2 : forall M,
  all_ready M h (txs1 ++ txs2) <-> all_ready M h txs1 /\ all_ready (apply_txs M h txs1) h txs2.
Proof.
  induction txs1 as [|tx txs1 IH]; intros M; cbn; [tauto|]. rewrite IH. unfold apply_txs. tauto.
Qed.

(** The undo data of each transaction is what it spent; that of a coinbase is not read. *)
Definition undo_ok (M : CoinMap) (txs : list CTransaction) (us : list (option CTxUndo)) : Prop :=
  List.length us = List.length txs /\ forall k tx u, txs !! k = Some tx -> us !! k = Some u -> IsCoinBase tx = false ->
    u = Some (spent_coins (apply_txs M h (take k txs)) (vin tx)).

Lemma DisconnectTxs_denotes txs : forall us v M fClean,
  denotes base v (apply_txs M h txs) -> good_coins M -> all_ready M h txs -> Forall plain_outputs txs -> undo_ok M txs us ->
  exists v', DisconnectTxs base (reverse (zip txs us)) v fClean = Some (Some fClean, v') /\ denotes base v' M.
Proof.
  induction txs as [|tx txs IH] using rev_ind; intros us v M fClean D G R P [Ln U]; [by exists v|].
  destruct us as [|u us _] using rev_ind; [rewrite length_app in Ln; cbn in Ln; lia|].
  rewrite !length_app in Ln. cbn in Ln. assert (Ln' : List.length txs = List.length us) by lia.
  apply all_ready_app in R as [R [R1 _]]. apply Forall_app in P as [P [P1 _]%Forall_cons].
  rewrite zip_snoc, reverse_snoc by done. cbn [DisconnectTxs].
  unfold apply_txs in D. rewrite foldl_app in D. cbn [foldl] in D. fold (apply_txs M h txs) in D.
  destruct (DisconnectTx_denotes v (apply_txs M h txs) tx u fClean D) as (v1 & E & D1);
    [by apply good_coins_apply_txs|exact R1|exact P1| |].
  { intros B. rewrite (U (List.length txs) tx u); [by rewrite take_app_length|by rewrite list_lookup_middle| |done].
    by rewrite Ln', list_lookup_middle. }
  rewrite E. cbn [mbind option_bind]. apply IH; try done. split; [done|]. intros k t w Lt Lu B.
  rewrite (U k t w); [|by rewrite lookup_app_l by (by eapply lookup_lt_Some)|
    by rewrite lookup_app_l by (by eapply lookup_lt_Some)|done].
  rewrite take_app_le; [done|]. apply Nat.lt_le_incl. by eapply lookup_lt_Some.
Qed.

End Transactions.

(** ** What the operations on coins leave alone *)

Class CoinClosed `{SaplingTree} (base : CCoinsView) (R : relation CCoinsViewCache) : Prop := {
  update_reads :: ReadClosed base R;
  update_coins v mc : R v (set_coins v mc)
}.

Section Updates.
Context `{HashFunctions, Ecdsa, SaplingTree} (p : CChainParams) (env : NodeEnv) (m : BlockMap) (base : CCoinsView).
Context (invalid : COutPoint -> bool) (R : relation CCoinsViewCache) `{!CoinClosed base R}.

Lemma SpendCoin_updates v o c v' : SpendCoin base v o = (c, v') -> R v v'.
Proof.
  intros E. assert (v' = snd (SpendCoin base v o)) as -> by by rewrite E. destruct (SpendCoin_set base v o) as [mc ->].
  apply update_coins.
Qed.

Lemma AddCoin_updates v o c ow v' : AddCoin v o c ow = Some v' -> R v v'.
Proof. intros [mc ->]%AddCoin_set. apply update_coins. Qed.

Lemma SpendInputs_updates ins : forall v cs v', SpendInputs base v ins = (cs, v') -> R v v'.
Proof.
  induction ins as [|i ins IH]; intros v cs v'; cbn; [by intros [= _ <-]|].
  destruct (SpendCoin base v (prevout i)) as [c v1] eqn:E. apply SpendCoin_updates in E.
  destruct (SpendInputs base v1 ins) as [cs' v2] eqn:E2. apply IH in E2. intros [= _ <-]. by etrans.
Qed.

Lemma AddCoins_updates txid outs h cb cs check skip : forall i v v',
  AddCoins_loop base v invalid txid outs i h cb cs check skip = Some v' -> R v v'.
Proof.
  induction outs as [|o outs IH]; intros i v v'; cbn [AddCoins_loop]; [by intros [= <-]|].
  destruct (skip && invalid _); cbn [mbind option_bind].
  - destruct (SpendCoin base v _) as [c v1] eqn:E. apply SpendCoin_updates in E. intros X. by etrans; [|eapply IH].
  - destruct (if check then HaveCoin base v _ else (false, v)) as [ow v1] eqn:E.
    assert (R v v1) by (destruct check; [by eapply (HaveCoin_reads base R)|by injection E as _ <-]).
    destruct (AddCoin v1 _ _ ow) as [v2|] eqn:A; [|done]. apply AddCoin_updates in A. cbn [mbind option_bind]. intros X.
    etrans; [done|]. etrans; [done|]. by eapply IH.
Qed.

(** [UpdateCoins] changes coins, then marks the nullifiers, then changes coins. *)
Lemma UpdateCoins_updates tx v h skip r :
  UpdateCoins base invalid tx v h skip = Some r ->
  exists v1, R v v1 /\ R (SetNullifiers v1 tx true) (snd r).
Proof.
  unfold UpdateCoins, AddCoins. destruct (if IsCoinBase tx then ([], v) else SpendInputs base v (vin tx)) as [u v1] eqn:E.
  assert (R v v1) by (destruct (IsCoinBase tx); [by injection E as _ <-|by eapply SpendInputs_updates]).
  destruct (AddCoins_loop _ _ _ _ _ _ _ _ _ _ _) as [v2|] eqn:A; [|done]. apply AddCoins_updates in A. intros [= <-].
  by exists v1.
Qed.

(** So does [ConnectTx], which has found every input and shielded requirement before. *)
Lemma ConnectTx_updates f h i tx s s' :
  ConnectTx p env m base invalid f h i tx s = Valid s' ->
  exists v1, R (cn_view s) v1 /\ R (SetNullifiers v1 tx true) (cn_view s') /\
    (IsCoinBase tx = false -> exists v0, R (cn_view s) v0 /\ fst (HaveShieldedRequirements base v0 tx) = true).
Proof.
  intros E. unfold ConnectTx in E. valid_inv E. destruct (_ && _ && _) in E; [done|].
  valid_inv E. destruct r0 as [sig v1]. pose proof (ConnectTx_inputs_reads base R _ _ _ _ E1) as R1. valid_inv E.
  destruct r1 as [[[fees valueIn] checks] v2]. apply (ConnectTx_amounts_reads p m base R) in E3. valid_inv E.
  destruct r2 as [undo v3]. apply of_option_Valid, UpdateCoins_updates in E5 as (v4 & R4 & R5). injection E as <-. cbn in *.
  exists v4. split; [etrans; [done|]; by etrans|]. split; [done|]. intros B. unfold ConnectTx_inputs in E1. rewrite B in E1.
  destruct (HaveInputs base (cn_view s) tx) as [have v0] eqn:I. apply (HaveInputs_reads base R) in I. valid_inv E1. exists v0. split; [done|].
  destruct (HaveShieldedRequirements base v0 tx) as [[|] v5]; [done|]. by valid_inv E1.
Qed.

Lemma AccessByTxid_updates v txid c v' : AccessByTxid base v txid = (c, v') -> R v v'.
Proof.
  unfold AccessByTxid. generalize (Z.to_nat MAX_OUTPUTS_PER_BLOCK), 0. intros fuel. revert v c v'.
  induction fuel as [|fuel IH]; intros v c v' n; cbn; [by intros [= _ <-]|].
  destruct (AccessCoin base v _) as [a v1] eqn:A. apply (AccessCoin_reads base R) in A.
  destruct (negb (IsSpent a)); [by intros [= _ <-]|]. intros X. by etrans; [|eapply IH].
Qed.

Lemma ApplyTxInUndo_updates c v o r : ApplyTxInUndo base c v o = Some r -> R v (snd r).
Proof.
  unfold ApplyTxInUndo. destruct (HaveCoin base v o) as [have v1] eqn:E. apply (HaveCoin_reads base R) in E.
  assert (Add : forall c v2 r, (v' ← AddCoin v2 o c (negb (negb have)); Some (if negb have then DISCONNECT_OK else DISCONNECT_UNCLEAN, v'))
            = Some r -> R v2 (snd r)).
  { intros c' v2 r' X. destruct (AddCoin v2 o c' _) as [v3|] eqn:A; [|done]. apply AddCoin_updates in A. by injection X as <-. }
  destruct (coin_nHeight c =? 0); [|intros X%Add; by etrans].
  destruct (AccessByTxid base v1 (op_hash o)) as [a v2] eqn:A. apply AccessByTxid_updates in A.
  destruct (negb (IsSpent a)); [intros X%Add; etrans; [done|by etrans]|]. intros [= <-]. by etrans.
Qed.

Lemma RestoreInputs_updates l : forall v b r, RestoreInputs base l v b = Some r -> R v (snd r).
Proof.
  induction l as [|[i c] l IH]; intros v b r; cbn; [by intros [= <-]|].
  destruct (ApplyTxInUndo base c v (prevout i)) as [[res v1]|] eqn:A; [|done]. apply ApplyTxInUndo_updates in A. cbn in *.
  destruct res; [intros X%IH; by etrans|intros X%IH; by etrans|by intros [= <-]].
Qed.

Lemma RemoveOutputs_updates txid outs : forall o v b b' v', RemoveOutputs base txid outs o v b = (b', v') -> R v v'.
Proof.
  induction outs as [|x outs IH]; intros o v b b' v'; cbn; [by intros [= _ <-]|]. destruct (IsUnspendable _); [apply IH|].
  destruct (SpendCoin base v _) as [c v1] eqn:E. apply SpendCoin_updates in E. intros X%IH. by etrans.
Qed.

Lemma DisconnectTx_updates tx u v b res v' : DisconnectTx base tx u v b = Some (res, v') ->
  if IsCoinBase tx then R v v' else exists v1, R v v1 /\ R (SetNullifiers v1 tx false) v'.
Proof.
  unfold DisconnectTx. destruct (RemoveOutputs _ _ _ _ _ _) as [b1 v1] eqn:E. apply RemoveOutputs_updates in E.
  destruct (IsCoinBase tx); [by intros [= _ <-]|]. destruct u as [u|]; [|done]. cbn [mbind option_bind].
  intros X. exists v1. split; [done|]. destruct (negb _) in X; [by injection X as _ <-|]. by apply RestoreInputs_updates in X.
Qed.

End Updates.

(** ** Anchors *)

Section Anchors.
Context `{HashFunctions, Ecdsa, SaplingTree} (base : CCoinsView).

(** The best anchor and the tree of every anchor are the same. *)
Definition anchors_kept (v v' : CCoinsViewCache) : Prop :=
  fst (GetBestAnchor base v') = fst (GetBestAnchor base v) /\ forall rt, anchor_tree base v' rt = anchor_tree base v rt.

Lemma anchors_kept_same v v' :
  hashSaplingAnchor v' = hashSaplingAnchor v -> cacheSaplingAnchors v' = cacheSaplingAnchors v -> anchors_kept v v'.
Proof. intros E1 E2. unfold anchors_kept, anchor_tree. cbn. by rewrite E1, E2. Qed.

#[export] Instance anchors_kept_reads : ReadClosed base anchors_kept.
Proof.
  split.
  - split; [done|]. intros a b c [A1 T1] [A2 T2]. split; [by rewrite A2|]. intros rt. by rewrite T2.
  - intros v o. unfold FetchCoin. apply anchors_kept_same; by repeat case_match.
  - intros v nf. unfold GetNullifier. apply anchors_kept_same; by repeat case_match.
  - intros v rt. unfold GetSaplingAnchorAt. destruct (cacheSaplingAnchors v !! rt) eqn:L; [done|].
    destruct (v_GetSaplingAnchorAt base rt) as [t|] eqn:B; [|done]. split; [done|]. intros rt'. unfold anchor_tree. cbn.
    destruct (decide (rt = rt')) as [<-|]; [by rewrite lookup_insert_eq, L, B|by rewrite lookup_insert_ne].
  - intros v. by apply anchors_kept_same.
  - intros v. split; [|done]. cbn. destruct (hashSaplingAnchor v =? 0) eqn:E; [|by rewrite E].
    by destruct (v_GetBestAnchor base =? 0).
Qed.

#[export] Instance anchors_kept_coins : CoinClosed base anchors_kept.
Proof. split; [apply _|]. intros v mc. by apply anchors_kept_same. Qed.

Lemma SetNullifiers_anchors v tx b : anchors_kept v (SetNullifiers v tx b).
Proof. unfold SetNullifiers. destruct (sapData tx); by apply anchors_kept_same. Qed.

Lemma ConnectTxs_anchors p env m invalid f h txs : forall i s s',
  ConnectTxs p env m base invalid f h i txs s = Valid s' -> anchors_kept (cn_view s) (cn_view s').
Proof.
  induction txs as [|tx txs IH]; intros i s s' X; cbn [ConnectTxs] in X; [by injection X as <-|]. valid_inv X.
  apply IH in X. etrans; [|exact X]. apply (ConnectTx_updates p env m base invalid anchors_kept) in E as (v1 & R1 & R2 & _).
  etrans; [exact R1|]. by etrans; [apply SetNullifiers_anchors|].
Qed.

Lemma DisconnectTxs_anchors l : forall v b r, DisconnectTxs base l v b = Some r -> anchors_kept v (snd r).
Proof.
  induction l as [|[tx u] l IH]; intros v b r; cbn [DisconnectTxs]; [by intros [= <-]|].
  destruct (DisconnectTx base tx u v b) as [[res v1]|] eqn:D; [|done]. cbn [mbind option_bind].
  assert (K : anchors_kept v v1).
  { apply (DisconnectTx_updates base anchors_kept) in D. destruct (IsCoinBase tx); [done|]. destruct D as (v2 & R1 & R2).
    etrans; [exact R1|]. by etrans; [apply SetNullifiers_anchors|]. }
  destruct res; [intros X%IH; by etrans|by intros [= <-]].
Qed.

(** A view whose best anchor has a tree. *)
Definition anchored (v : CCoinsViewCache) : Prop := is_Some (anchor_tree base v (fst (GetBestAnchor base v))).

Lemma anchored_kept v v' : anchors_kept v v' -> anchored v -> anchored v'.
Proof. intros [B T]. unfold anchored. by rewrite B, T. Qed.

Lemma PushAnchor_anchored v t : tree_root t <> 0 -> anchored v -> anchored (PushAnchor base v t).
Proof.
  intros NZ A. unfold PushAnchor. destruct (GetBestAnchor base v) as [a v1] eqn:G.
  destruct (negb (a =? tree_root t)).
  - unfold anchored, anchor_tree. cbn. rewrite (proj2 (Z.eqb_neq _ _) NZ). by rewrite lookup_insert_eq.
  - apply (GetBestAnchor_reads base anchors_kept) in G. by eapply anchored_kept.
Qed.

Lemma PopAnchor_total v rt : anchored v -> exists v', PopAnchor base v rt = Some v' /\ (rt <> 0 -> fst (GetBestAnchor base v') = rt) /\
  cacheCoins v' = cacheCoins v /\ cacheSaplingNullifiers v' = cacheSaplingNullifiers v.
Proof.
  intros A. unfold PopAnchor. destruct (GetBestAnchor base v) as [a v1] eqn:G.
  pose proof (GetBestAnchor_reads base anchors_kept _ _ _ G) as [B T].
  assert (S1 : cacheCoins v1 = cacheCoins v /\ cacheSaplingNullifiers v1 = cacheSaplingNullifiers v) by (by injection G as _ <-).
  unfold anchored in A. rewrite G in A, B. cbn [fst] in A, B. destruct (a =? rt) eqn:E; cbn [negb].
  - apply Z.eqb_eq in E. subst. by exists v1.
  - rewrite <- T, <- GetSaplingAnchorAt_spec in A. unfold GetSaplingAnchorAt in *.
    assert (exists t v2, GetSaplingAnchorAt base v1 a = (Some t, v2) /\ cacheCoins v2 = cacheCoins v /\
              cacheSaplingNullifiers v2 = cacheSaplingNullifiers v) as (t & v2 & X & C2 & N2).
    { unfold GetSaplingAnchorAt. destruct (cacheSaplingAnchors v1 !! a) as [e|]; cbn in A.
      - destruct (a_entered e); [|by destruct A]. by eexists _, _.
      - destruct (v_GetSaplingAnchorAt base a); [|by destruct A]. by eexists _, _. }
    unfold GetSaplingAnchorAt in X. rewrite X. eexists. split; [done|]. split; [|done]. intros NZ. cbn.
    by rewrite (proj2 (Z.eqb_neq _ _) NZ).
Qed.

End Anchors.

(** ** Nullifiers *)

Section Nullifiers.
Context `{HashFunctions, Ecdsa, SaplingTree} (base : CCoinsView).

Definition nullifiers_kept (v v' : CCoinsViewCache) : Prop := forall nf, nullified base v' nf = nullified base v nf.

Lemma nullifiers_kept_same v v' : cacheSaplingNullifiers v' = cacheSaplingNullifiers v -> nullifiers_kept v v'.
Proof. intros E nf. unfold nullified. by rewrite E. Qed.

#[export] Instance nullifiers_kept_reads : ReadClosed base nullifiers_kept.
Proof.
  split.
  - split; [done|]. intros a b c A B nf. by rewrite B.
  - intros v o. unfold FetchCoin. apply nullifiers_kept_same; by repeat case_match.
  - intros v nf nf'. unfold GetNullifier. destruct (cacheSaplingNullifiers v !! nf) eqn:L; [done|]. unfold nullified. cbn.
    destruct (decide (nf = nf')) as [<-|]; [by rewrite lookup_insert_eq, L|by rewrite lookup_insert_ne].
  - intros v rt. unfold GetSaplingAnchorAt. apply nullifiers_kept_same; by repeat case_match.
  - intros v. by apply nullifiers_kept_same.
  - intros v. by apply nullifiers_kept_same.
Qed.

#[export] Instance nullifiers_kept_coins : CoinClosed base nullifiers_kept.
Proof. split; [apply _|]. intros v mc. by apply nullifiers_kept_same. Qed.

Lemma SetNullifiers_nullified v tx b nf :
  nullified base (SetNullifiers v tx b) nf = if bool_decide (nf ∈ tx_nullifiers tx) then b else nullified base v nf.
Proof.
  unfold SetNullifiers, tx_nullifiers, nullified. destruct (sapData tx) as [d|]; [|done]. cbn.
  rewrite lookup_SetNullifiers. by case_bool_decide.
Qed.

(** The shielded requirements are met only if no nullifier is there yet. *)
Lemma HaveShieldedRequirements_fresh v tx :
  IsShieldedTx tx = true -> fst (HaveShieldedRequirements base v tx) = true ->
  forall nf, nf ∈ tx_nullifiers tx -> nullified base v nf = false.
Proof.
  unfold HaveShieldedRequirements, tx_nullifiers. intros ->. destruct (sapData tx) as [d|]; [|by intros _ nf ?%elem_of_nil].
  revert v. induction (vShieldedSpend d) as [|s l IH]; intros v E nf I; [by apply elem_of_nil in I|].
  cbn [HaveShieldedRequirements_loop] in E. pose proof (GetNullifier_spec base v (sd_nullifier s)) as Sp.
  pose proof (read_GetNullifier (base := base) (R := nullifiers_kept) v (sd_nullifier s)) as R1.
  destruct (GetNullifier base v (sd_nullifier s)) as [spent v1]. cbn [fst snd] in *. destruct spent; [done|].
  destruct (GetSaplingAnchorAt base v1 (sd_anchor s)) as [t v2] eqn:A. apply (GetSaplingAnchorAt_reads base nullifiers_kept) in A.
  destruct t; [|done]. cbn in I. apply elem_of_cons in I as [->|I]; [done|]. rewrite <- R1, <- A. by apply IH.
Qed.

(** A transaction that passed [CheckTransaction] and has a nullifier is
    shielded, and not a coinbase. *)
Definition nullifiers_shielded (tx : CTransaction) : Prop :=
  tx_nullifiers tx <> [] -> IsShieldedTx tx = true /\ IsCoinBase tx = false.

Lemma CheckTransaction_shielded c `{!MoneyCap c} tx cold : CheckTransaction c tx cold = Valid () -> nullifiers_shielded tx.
Proof.
  unfold CheckTransaction. intros X N. valid_inv X. apply Sapling_CheckTransaction_Valid in E as (_ & _ & _ & S & _); [|done].
  assert (D : hasSaplingData tx = true).
  { unfold tx_nullifiers in N. unfold hasSaplingData. destruct (sapData tx) as [d|]; [|done].
    destruct (vShieldedSpend d) as [|sd l]; [done|]. rewrite size_cons. pose proof (size_nonneg l).
    destruct (_ + _ =? 0) eqn:Z0 in |- *; [apply Z.eqb_eq in Z0; lia|]. by rewrite orb_true_r. }
  destruct (S D) as (V & B & _). unfold IsShieldedTx. by rewrite V, D.
Qed.

(** The nullifiers after the transactions, which were all new. *)
Definition add_nullifiers (N : Z -> bool) (tx : CTransaction) (nf : Z) : bool := if bool_decide (nf ∈ tx_nullifiers tx) then true else N nf.

Fixpoint fresh_nullifiers (N : Z -> bool) (txs : list CTransaction) : Prop :=
  match txs with
  | [] => True
  | tx :: txs => (forall nf, nf ∈ tx_nullifiers tx -> N nf = false) /\ fresh_nullifiers (add_nullifiers N tx) txs
  end.

Lemma fresh_nullifiers_app txs1 txs2 : forall N,
  fresh_nullifiers N (txs1 ++ txs2) <-> fresh_nullifiers N txs1 /\ fresh_nullifiers (foldl add_nullifiers N txs1) txs2.
Proof. induction txs1 as [|tx txs1 IH]; intros N; cbn; [tauto|]. rewrite IH. tauto. Qed.

Lemma ConnectTxs_nullifiers p env m invalid f h txs : Forall nullifiers_shielded txs -> forall i s s' N,
  (forall nf, nullified base (cn_view s) nf = N nf) -> ConnectTxs p env m base invalid f h i txs s = Valid s' ->
  fresh_nullifiers N txs /\ forall nf, nullified base (cn_view s') nf = foldl add_nullifiers N txs nf.
Proof.
  induction 1 as [|tx txs Sh _ IH]; intros i s s' N HN X; cbn [ConnectTxs] in X; [by injection X as <-|]. valid_inv X.
  apply (ConnectTx_updates p env m base invalid nullifiers_kept) in E as (v1 & R1 & R2 & Met).
  destruct (IH _ _ _ (add_nullifiers N tx) (fun nf => eq_trans (R2 nf) (eq_trans (SetNullifiers_nullified v1 tx true nf)
    (f_equal (fun b => if bool_decide (nf ∈ tx_nullifiers tx) then true else b) (eq_trans (R1 nf) (HN nf))))) X) as [F' V'].
  split; [|done]. split; [|done]. intros nf I. destruct Sh as [IS B]; [by intros E; rewrite E in I; apply elem_of_nil in I|].
  destruct (Met B) as (v0 & R0 & M0). rewrite <- HN, <- R0. by eapply HaveShieldedRequirements_fresh.
Qed.

Lemma DisconnectTxs_nullifiers txs : forall us v b c v' N,
  List.length txs = List.length us -> Forall nullifiers_shielded txs -> fresh_nullifiers N txs ->
  (forall nf, nullified base v nf = foldl add_nullifiers N txs nf) ->
  DisconnectTxs base (reverse (zip txs us)) v b = Some (Some c, v') -> forall nf, nullified base v' nf = N nf.
Proof.
  induction txs as [|tx txs IH] using rev_ind; intros us v b c v' N Ln Sh Fr HN X; [injection X as _ <-; done|].
  destruct us as [|u us _] using rev_ind; [rewrite length_app in Ln; cbn in Ln; lia|].
  rewrite !length_app in Ln. cbn in Ln. assert (Ln' : List.length txs = List.length us) by lia.
  rewrite zip_snoc, reverse_snoc in X by done. cbn [DisconnectTxs] in X.
  apply Forall_app in Sh as [Sh [Sh1 _]%Forall_cons]. apply fresh_nullifiers_app in Fr as [Fr [Fr1 _]].
  destruct (DisconnectTx base tx u v b) as [[res v1]|] eqn:D; [|done]. cbn [mbind option_bind] in X.
  destruct res as [b1|]; [|done]. eapply IH; [exact Ln'|exact Sh|exact Fr| |exact X]. intros nf.
  rewrite foldl_app in HN. cbn [foldl] in HN. set (N1 := foldl add_nullifiers N txs) in *.
  apply (DisconnectTx_updates base nullifiers_kept) in D. unfold add_nullifiers in HN. destruct (IsCoinBase tx) eqn:B.
  - rewrite D, HN. case_bool_decide as I; [|done]. destruct Sh1 as [_ X1]; [|congruence].
    intros E. rewrite E in I. by apply elem_of_nil in I.
  - destruct D as (v2 & R1 & R2). rewrite R2, SetNullifiers_nullified, R1, HN. case_bool_decide as I; [|done]. by rewrite Fr1.
Qed.

End Nullifiers.

(** ** Blocks *)

Section Blocks.
Context `{HashFunctions, Ecdsa, SaplingTree} (base : CCoinsView).

Lemma length_block_undo h txs : forall M, List.length (block_undo M h txs) = List.length txs.
Proof. induction txs as [|tx txs IH]; intros M; cbn; [done|]. by rewrite IH. Qed.

Lemma lookup_block_undo h txs : forall M k tx, txs !! k = Some tx -> IsCoinBase tx = false ->
  block_undo M h txs !! k = Some (spent_coins (apply_txs M h (take k txs)) (vin tx)).
Proof.
  induction txs as [|t txs IH]; intros M [|k] tx L B; cbn in L; [done..| |]; cbn [block_undo lookup list_lookup take].
  - injection L as ->. by rewrite B.
  - rewrite (IH _ _ _ L B). done.
Qed.

(** The undo data a connected block leaves is the one its disconnection needs. *)
Lemma block_undo_ok h cb txs M :
  IsCoinBase cb = true -> undo_ok h M (cb :: txs) (None :: (Some <$> drop 1 (block_undo M h (cb :: txs)))).
Proof.
  intros B. split; [cbn; by rewrite length_fmap, drop_0, length_block_undo|].
  intros [|k] tx u L Lu NB; [injection L as ->; congruence|]. cbn [block_undo drop] in Lu.
  change ((Some <$> block_undo (apply_tx M h cb) h txs) !! k = Some u) in Lu. rewrite list_lookup_fmap in Lu.
  rewrite (lookup_block_undo h txs (apply_tx M h cb) k tx L NB) in Lu. by injection Lu as <-.
Qed.

(** The chain state of a view: the coins [M], the nullifiers [N] and the best block. *)
Definition state_is (v : CCoinsViewCache) (M : CoinMap) (N : Z -> bool) (best : Z) : Prop :=
  denotes base v M /\ (forall nf, nullified base v nf = N nf) /\ hashBlock v = best.

Lemma block_disconnected net env m invalid (block : CBlock) pindex v v' undo s M prev :
  let p := CreateChainParams net in
  block_connected net env m base invalid block pindex v v' undo s -> 0 < bi_nHeight pindex < 2 ^ 32 ->
  parent m pindex = Some prev -> 0 <= bi_nHeight prev -> hashFinalSaplingRoot block <> 0 ->
  denotes base v M -> good_coins M -> fresh_txs M (vtx block) ->
  Forall (fun tx => HasZerocoinSpendInputs tx = false) (vtx block) -> Forall plain_outputs (vtx block) ->
  exists v'', DisconnectBlock p m base block pindex v' (Some undo) = Some (DISCONNECT_OK, v'') /\
    state_is v'' M (nullified base v) (phashBlock prev).
Proof.
  intros p [(cold & [(cb & txs & EB & CB & _) _ Txs]) _ _ (f & v0 & tree & K0 & A0 & Loop) _ KV [Root [best EV]] ->] Hh Par Hp NZ D G Fr Zc Pl.
  assert (Ck : Forall (tx_checked net) (vtx block)).
  { apply Forall_forall. intros tx I. rewrite Forall_forall in Txs, Zc. eapply CheckTransaction_checked; [by apply Txs|by apply Zc]. }
  assert (Sh : Forall nullifiers_shielded (vtx block)).
  { eapply Forall_impl; [exact Txs|]. intros tx X. exact (CheckTransaction_shielded (consensus (CreateChainParams net)) tx cold X). }
  pose proof (denotes_keeps _ _ _ _ (K0 (keeps base) _) D) as D0.
  assert (Hh0 : 0 <= bi_nHeight pindex) by lia.
  destruct (ConnectTxs_Valid net env m base invalid f _ _ Hh0 0 (connect_start v0 tree) s M D0 Ck Fr Loop) as [Rd V _ _ _ _ U].
  pose proof (ConnectTxs_anchors _ _ _ _ _ _ _ _ _ _ _ Loop) as AK.
  destruct (ConnectTxs_nullifiers base _ _ _ _ _ _ _ Sh 0 (connect_start v0 tree) s (nullified base v) (K0 (nullifiers_kept base) _) Loop) as [FN VN].
  cbn [connect_start cn_undo app] in U. replace (1 - 0)%nat with 1%nat in U by lia.
  pose proof (block_undo_ok (bi_nHeight pindex) cb txs M CB) as UO. rewrite <- EB, <- U in UO.
  apply (denotes_keeps _ _ _ _ KV) in V.
  destruct (DisconnectTxs_denotes base _ Hh _ _ _ _ true V G Rd Pl UO) as (v1 & E & D1).
  assert (A1 : anchored base v1).
  { apply DisconnectTxs_anchors in E. eapply anchored_kept; [exact E|]. rewrite EV.
    eapply anchored_kept; [by apply anchors_kept_same|]. apply PushAnchor_anchored; [congruence|]. by eapply anchored_kept. }
  assert (N1 : forall nf, nullified base v1 nf = nullified base v nf).
  { eapply DisconnectTxs_nullifiers; [symmetry; apply UO|exact Sh|exact FN| |exact E]. intros nf. rewrite <- VN, EV.
    unfold PushAnchor, GetBestAnchor. by case_match. }
  unfold DisconnectBlock. rewrite Par. cbn [mbind option_bind].
  destruct UO as [Ln _]. unfold with_undo.
  rewrite (proj2 (Z.eqb_eq (size (cn_undo s) + 1) (size (vtx block)))) by
    (unfold size; rewrite <- Ln; cbn; rewrite length_fmap; lia).
  cbn [negb]. rewrite E. cbn [mbind option_bind].
  rewrite NetworkUpgradeActive_eq by done. cbn [mbind option_bind].
  destruct (PopAnchor_total base v1 (if upgrade_active (bi_nHeight prev) (consensus p) UPGRADE_V5_0
    then bi_hashFinalSaplingRoot prev else tree_root tree_empty) A1) as (v2 & -> & _ & C2 & N2).
  eexists. split; [done|]. split; [|split; [|done]].
  - eapply denotes_keeps; [|exact D1]. etrans; [by apply keeps_same|apply SetBestBlock_keeps].
  - intros nf. rewrite <- N1. unfold nullified. cbn. by rewrite N2.
Qed.

End Blocks.

(** ** Claims *)

(** C3. Disconnecting a block undoes connecting it.  Let [ConnectBlock]
    accept a block above genesis on a view that denotes the coins [M], all of
    which [AddCoin] would store and none of height 0.  Let the block's
    transaction ids be new, none of its inputs be read as a zerocoin spend,
    none of its outputs be a zerocoin mint, and the Sapling root of its header
    not be null; [ConnectBlock] does not check the first three, and
    [zerocoin_mint_unclean] shows what a mint does.  Then [DisconnectBlock], run on the
    view and with the undo data that [ConnectBlock] leaves, does not abort,
    answers [DISCONNECT_OK], and its view has exactly the coins, the
    nullifiers and the best block from before. *)
Theorem disconnect_restores `{HashFunctions, Ecdsa, SaplingTree} net env m chain base invalid blocks threads
    (block : CBlock) pindex prev v v' undo st (M : CoinMap) (p := CreateChainParams net) :
  0 < bi_nHeight pindex < 2 ^ 32 -> parent m pindex = Some prev -> 0 <= bi_nHeight prev ->
  CBlockHeader_GetHash block <> hashGenesisBlock (consensus p) -> hashFinalSaplingRoot block <> 0 ->
  denotes base v M -> good_coins M -> fresh_txs M (vtx block) ->
  Forall (fun tx => HasZerocoinSpendInputs tx = false) (vtx block) -> Forall plain_outputs (vtx block) ->
  ConnectBlock p env m chain base invalid blocks threads block false pindex v false = Valid (v', undo, st) ->
  exists v'', DisconnectBlock p m base block pindex v' (Some undo) = Some (DISCONNECT_OK, v'') /\
    state_is base v'' M (nullified base v) (phashBlock prev).
Proof.
  intros Hh Par Hp NG NZ D G Fr Zc Pl R. apply ConnectBlock_inv in R as [s C]; [|lia|done]. by eapply block_disconnected.
Qed.

(** A block that spends one of three coins. *)
Definition spending_block : CBlock :=
  one_tx_block 2 1785920120 [simple_coinbase [pay 0]; simple_tx (small_coin 0) [] SEQUENCE_FINAL [pay COIN]].

Definition one_krov : Coin :=
  {| fCoinBase := false; fCoinStake := false; coin_nHeight := 1; coin_out := {| nValue := COIN; scriptPubKey := [OP_1 : Z] |} |}.
Definition small_coins : CoinMap := <[small_coin 0 := one_krov]> (<[small_coin 1 := one_krov]> (<[small_coin 2 := one_krov]> ∅)).

Abbreviation connect_spending :=
  (ConnectBlock (H := checksum_hashes) (H0 := echo_ecdsa) (CreateChainParams REGTEST) example_env (line_map 2) [1; 2] small_view
    (fun _ => false) (fun _ => None) false spending_block false (block_index 2 (Some 0)) new_cache false).

Lemma spending_connects : exists v' undo st, connect_spending = Valid (v', undo, st).
Proof.
  assert (V : match connect_spending with Valid _ => true | _ => false end = true) by (vm_compute; reflexivity).
  destruct connect_spending as [[[v' undo] st]|s|]; [by exists v', undo, st|discriminate..].
Qed.

Lemma small_denotes : denotes small_view new_cache small_coins.
Proof.
  split; [apply map_Forall_empty|]. intros [h n]. unfold utxo, small_coins. cbn [new_cache cacheCoins].
  rewrite lookup_empty. cbn [small_view v_GetCoin op_hash op_n]. unfold small_coin.
  destruct (decide (n = 0)) as [->|]; [|rewrite !lookup_insert_ne, lookup_empty by (intros X; injection X; lia);
    by rewrite (proj2 (Z.eqb_neq n 0)), andb_false_r].
  destruct (decide (h = 7)) as [->|]; [done|]. destruct (decide (h = 8)) as [->|]; [done|]. destruct (decide (h = 9)) as [->|]; [done|].
  rewrite !lookup_insert_ne, lookup_empty by (intros X; injection X; lia). destruct (_ && _ && _) eqn:E; [|done].
  apply andb_true_iff in E as [E _]. apply andb_true_iff in E as [E1%Z.leb_le E2%Z.ltb_lt]. lia.
Qed.

Lemma small_good : good_coins small_coins.
Proof. split; repeat (apply map_Forall_insert_2; [vm_compute; by try split|]); apply map_Forall_empty. Qed.

Lemma spending_fresh : fresh_txs (H := checksum_hashes) small_coins (vtx spending_block).
Proof.
  split; [apply (bool_decide_unpack _); vm_compute; exact I|].
  apply Forall_cons. split; [|apply Forall_cons; split; [|done]]; intros n; unfold small_coins;
    rewrite !lookup_insert_ne; try apply lookup_empty; vm_compute; by intros [=].
Qed.

Lemma disconnect_restores_witness :
  exists v' undo st v'', connect_spending = Valid (v', undo, st) /\
    DisconnectBlock (H := checksum_hashes) (CreateChainParams REGTEST) (line_map 2) small_view spending_block
      (block_index 2 (Some 0)) v' (Some undo) = Some (DISCONNECT_OK, v'') /\
    state_is small_view v'' small_coins (nullified small_view new_cache) (phashBlock (line_index 1)).
Proof.
  destruct spending_connects as (v' & undo & st & E).
  destruct (disconnect_restores (H := checksum_hashes) (H0 := echo_ecdsa) REGTEST example_env (line_map 2) [1; 2] small_view
              (fun _ => false) (fun _ => None) false spending_block (block_index 2 (Some 0)) (line_index 1) new_cache v' undo st
              small_coins) as (v'' & D & S);
    [vm_compute; by split|vm_compute; reflexivity|vm_compute; congruence|vm_compute; congruence|vm_compute; congruence|
     apply small_denotes|apply small_good|apply spending_fresh|by repeat constructor|by repeat constructor|exact E|].
  exists v', undo, st, v''. split; [exact E|]. split; [exact D|exact S].
Defined.

(** The hypothesis on the outputs is needed: a zerocoin mint is not stored
    when its block is connected but looked for when it is disconnected, so the
    block is found inconsistent. *)
Definition mint_block : CBlock :=
  one_tx_block 2 1785920120 [simple_coinbase [{| nValue := 0; scriptPubKey := [OP_ZEROCOINMINT : Z] |}]].

Example zerocoin_mint_unclean :
  exists v' undo st v'', connect_small REGTEST mint_block = Valid (v', undo, st) /\
    DisconnectBlock (H := checksum_hashes) (CreateChainParams REGTEST) (line_map 2) small_view mint_block
      (block_index 2 (Some 0)) v' (Some undo) = Some (DISCONNECT_UNCLEAN, v'').
Proof.
  destruct (connect_small REGTEST mint_block) as [[[v undo] st]|s|] eqn:E; [|vm_compute in E; discriminate..].
  vm_compute in E. injection E as <- <- <-. eexists _, _, _, _. split; [reflexivity|]. vm_compute. reflexivity.
Qed.
