(* ===== verification/Replay.v ===== *)
(** * Recovery from an interrupted flush

    [RollforwardBlock] and [ReplayBlocks] of validation.cpp: when the node dies
    while the coins are written (see TxDB), the next start finds the two head
    blocks in the database, rolls the old branch back to the fork, rolls the
    new branch forward, and flushes.

    Blocks and undo data on disk are functions of the block's hash. *)

From S2P Require Import Prelude Params Crypto Serialize Script Transaction ValidationState Chain Coins TxVerify Interpreter Stake CheckBlock Connect Compressor TxDB Supply Disconnect.

Local Open Scope krova_scope.

(** ** Definitions *)

Section Replay.
Context `{HashFunctions, SaplingTree, Curve}.
Context `{!TreeFormat} (p : CChainParams) (m : BlockMap) (invalid : COutPoint -> bool).

(** [ReadBlockFromDisk] and [UndoReadFromDisk]. *)
Context (disk : Z -> option CBlock) (undos : Z -> option CBlockUndo).

Section View.
Context (base : CCoinsView).

Fixpoint RollforwardTxs (nHeight : Z) (fSkipInvalid : bool) (txs : list CTransaction) (inputs : CCoinsViewCache) : option CCoinsViewCache :=
  match txs with
  | [] => Some inputs
  | tx :: txs =>
      let inputs := if negb (IsCoinBase tx) then snd (SpendInputs base inputs (vin tx)) else inputs in
      inputs ← AddCoins base inputs invalid tx nHeight true fSkipInvalid;
      RollforwardTxs nHeight fSkipInvalid txs inputs
  end.

(** The inner [None] is the answer false. *)
Definition RollforwardBlock (pindex : CBlockIndex) (inputs : CCoinsViewCache) : option (option CCoinsViewCache) :=
  match disk (phashBlock pindex) with
  | None => Some None
  | Some block =>
      fSkipInvalid ← SkipInvalidUTXOS p (bi_nHeight pindex);
      inputs ← RollforwardTxs (bi_nHeight pindex) fSkipInvalid (vtx block) inputs;
      Some (Some inputs)
  end.

(** The loop that rolls the old branch back. *)
Fixpoint RollbackBlocks (fuel : nat) (pindexOld pindexFork : option CBlockIndex) (cache : CCoinsViewCache) : option (option CCoinsViewCache) :=
  if bool_decide (phashBlock <$> pindexOld = phashBlock <$> pindexFork) then Some (Some cache)
  else
    match fuel, pindexOld with
    | S fuel, Some old =>
        if 0 <? bi_nHeight old then
          match disk (phashBlock old) with
          | None => Some None
          | Some block =>
              '(res, cache) ← DisconnectBlock p m base block old cache (undos (phashBlock old));
              match res with
              | DISCONNECT_FAILED => Some None
              | _ => RollbackBlocks fuel (parent m old) pindexFork cache
              end
          end
        else RollbackBlocks fuel (parent m old) pindexFork cache
    | _, _ => None
    end.

Fixpoint RollforwardBlocks (heights : list Z) (pindexNew : CBlockIndex) (cache : CCoinsViewCache) : option (option CCoinsViewCache) :=
  match heights with
  | [] => Some (Some cache)
  | nHeight :: heights =>
      ancestor ← GetAncestor m pindexNew nHeight;
      pindex ← ancestor;
      r ← RollforwardBlock pindex cache;
      match r with
      | None => Some None
      | Some cache => RollforwardBlocks heights pindexNew cache
      end
  end.
End View.

(** The answer and the batches that are written. *)
Definition ReplayBlocks (batch_size : Z) (d : LevelDB) : option (bool * list (list db_write)) :=
  let base := db_view d in
  match db_GetHeadBlocks d with
  | [] => Some (true, [])
  | [hashNew; hashOld] =>
      match m !! hashNew with
      | None => Some (false, [])
      | Some pindexNew =>
          let replay (pindexOld pindexFork : option CBlockIndex) :=
            r ← RollbackBlocks base (match pindexOld with Some old => S (Z.to_nat (bi_nHeight old)) | None => O end) pindexOld pindexFork new_cache;
            match r with
            | None => Some (false, [])
            | Some cache =>
                let nForkHeight := match pindexFork with Some f => bi_nHeight f | None => 0 end in
                r ← RollforwardBlocks base (seqZ (nForkHeight + 1) (bi_nHeight pindexNew - nForkHeight)) pindexNew cache;
                match r with
                | None => Some (false, [])
                | Some cache => batches ← db_Flush batch_size d (SetBestBlock cache (phashBlock pindexNew)); Some (true, batches)
                end
            end in
          if hashOld =? 0 then replay None None
          else
            match m !! hashOld with
            | None => Some (false, [])
            | Some pindexOld => pindexFork ← LastCommonAncestor m pindexOld pindexNew; replay (Some pindexOld) (Some pindexFork)
            end
      end
  | _ => Some (false, [])
  end.

End Replay.

(** ** Maps that act at each point *)

(** The new value at a point is given, or it is the old one. *)
Definition pointwise (F : CoinMap -> CoinMap) : Prop := forall o, (exists r, forall X, F X !! o = r) \/ (forall X, F X !! o = X !! o).

Lemma pointwise_id : pointwise (fun X => X).
Proof. intros o. by right. Qed.

Lemma pointwise_compose F G : pointwise F -> pointwise G -> pointwise (fun X => F (G X)).
Proof.
  intros PF PG o. destruct (PF o) as [(r & E)|E]; [left; by exists r|]. destruct (PG o) as [(r & E')|E']; [left; exists r; intros X; by rewrite E|right; intros X; by rewrite E].
Qed.

Lemma pointwise_delete o : pointwise (delete o).
Proof. intros o'. destruct (decide (o = o')) as [->|]; [left; exists None|right]; intros X; by simplify_map_eq. Qed.

Lemma pointwise_insert o c : pointwise (fun X => <[o := c]> X).
Proof. intros o'. destruct (decide (o = o')) as [->|]; [left; exists (Some c)|right]; intros X; by simplify_map_eq. Qed.

(** Undoing the old branch and applying the new one on a mixture of both ends
    at the new state. *)
Lemma replay_mixture B F (X Mold Mfork Mnew : CoinMap) : pointwise B -> pointwise F -> B Mold = Mfork -> F Mfork = Mnew ->
  (forall o, X !! o = Mold !! o \/ X !! o = Mnew !! o) -> F (B X) = Mnew.
Proof.
  intros PB PF EB EF Mx. apply map_eq. intros o. rewrite <- EF. destruct (PF o) as [(r & E)|E]; [by rewrite !E|]. rewrite !E, <- EB.
  destruct (PB o) as [(r & E')|E']; [by rewrite !E'|]. rewrite !E'. destruct (Mx o) as [->| ->]; [done|]. by rewrite <- EF, E, <- EB, E'.
Qed.

(** ** What rolling back and forward does to the coins *)

Fixpoint remove_outputs (txid : Z) (outs : list CTxOut) (i : Z) (X : CoinMap) : CoinMap :=
  match outs with
  | [] => X
  | out :: outs => remove_outputs txid outs (i + 1) (if IsUnspendable (scriptPubKey out) then X else delete {| op_hash := txid; op_n := i |} X)
  end.

Definition restore_inputs (l : list (CTxIn * Coin)) (X : CoinMap) : CoinMap := foldl (fun X '(txin, c) => <[prevout txin := c]> X) X l.

Definition undo_tx `{HashFunctions} (X : CoinMap) (it : CTransaction * option CTxUndo) : CoinMap :=
  let '(tx, undo) := it in
  let X := remove_outputs (GetHash tx) (vout tx) 0 X in
  if IsCoinBase tx then X else restore_inputs (reverse (zip (vin tx) (default [] undo))) X.

Definition undo_txs `{HashFunctions} (txs : list CTransaction) (undo : CBlockUndo) (X : CoinMap) : CoinMap := foldl undo_tx X (reverse (with_undo txs undo)).

Lemma pointwise_foldl {A} (f : CoinMap -> A -> CoinMap) l : (forall a, pointwise (fun X => f X a)) -> pointwise (fun X => foldl f X l).
Proof.
  intros P. induction l as [|a l IH]; [apply pointwise_id|]. cbn [foldl]. exact (pointwise_compose (fun X => foldl f X l) (fun X => f X a) IH (P a)).
Qed.

Lemma pointwise_remove txid outs : forall i, pointwise (remove_outputs txid outs i).
Proof.
  induction outs as [|o outs IH]; intros i; cbn [remove_outputs]; [apply pointwise_id|].
  apply (pointwise_compose (remove_outputs txid outs (i + 1)) (fun X => if IsUnspendable (scriptPubKey o) then X else delete {| op_hash := txid; op_n := i |} X) (IH (i + 1))).
  destruct (IsUnspendable (scriptPubKey o)); [apply pointwise_id|apply pointwise_delete].
Qed.

Lemma pointwise_undo `{HashFunctions} txs undo : pointwise (undo_txs txs undo).
Proof.
  apply pointwise_foldl. intros [tx u]. unfold undo_tx. destruct (IsCoinBase tx); [apply pointwise_remove|].
  apply (pointwise_compose (restore_inputs _) (remove_outputs (GetHash tx) (vout tx) 0)); [|apply pointwise_remove].
  apply pointwise_foldl. intros [i c]. apply pointwise_insert.
Qed.

Lemma pointwise_add txid h cb cs outs : forall i, pointwise (add_outputs txid h cb cs i outs).
Proof.
  induction outs as [|o outs IH]; intros i; cbn [add_outputs]; [apply pointwise_id|].
  apply (pointwise_compose (add_outputs txid h cb cs (i + 1) outs) (fun X => if is_stored _ then <[_ := _]> X else X) (IH (i + 1))).
  case_match; [apply pointwise_insert|apply pointwise_id].
Qed.

Lemma pointwise_apply `{HashFunctions} h txs : pointwise (fun X => apply_txs X h txs).
Proof.
  apply pointwise_foldl. intros tx. unfold apply_tx.
  apply (pointwise_compose (add_outputs _ _ _ _ 0 (vout tx)) (fun X => if IsCoinBase tx then X else spend_inputs X (vin tx))); [apply pointwise_add|].
  destruct (IsCoinBase tx); [apply pointwise_id|]. apply pointwise_foldl. intros i. apply pointwise_delete.
Qed.

Section Writes.
Context `{HashFunctions, SaplingTree} (base : CCoinsView).

Lemma SpendCoin_writes v X o : denotes base v X -> denotes base (snd (SpendCoin base v o)) (delete o X).
Proof.
  intros [W U]. split; [by apply SpendCoin_wf|]. intros o'. rewrite SpendCoin_utxo by done. case_decide; subst; [by rewrite lookup_delete_eq|by rewrite lookup_delete_ne].
Qed.

Lemma SpendInputs_writes ins : forall v X, denotes base v X -> denotes base (snd (SpendInputs base v ins)) (spend_inputs X ins).
Proof.
  induction ins as [|i ins IH]; intros v X D; [done|]. cbn [SpendInputs]. pose proof (SpendCoin_writes v X (prevout i) D) as D1.
  destruct (SpendCoin base v (prevout i)) as [c v1]. cbn [snd] in D1. specialize (IH v1 _ D1). by destruct (SpendInputs base v1 ins).
Qed.

(** A coin is stored over whatever was there. *)
Lemma AddCoin_writes v X o c : denotes base v X -> IsSpent c = false -> exists v', AddCoin (snd (HaveCoin base v o)) o c (fst (HaveCoin base v o)) = Some v' /\
  denotes base v' (if is_stored c then <[o := c]> X else X).
Proof.
  intros D S. assert (D1 : denotes base (snd (HaveCoin base v o)) X).
  { eapply denotes_keeps; [|exact D]. rewrite HaveCoin_state. split; [apply FetchCoin_wf|]. intros. apply FetchCoin_utxo. }
  destruct D as [W U]. rewrite HaveCoin_spec, U. destruct D1 as [W1 U1]. destruct (AddCoin_total base (snd (HaveCoin base v o)) o c (bool_decide (is_Some (X !! o))) S) as [v' A].
  { intros N. rewrite U1. case_bool_decide as B; [done|]. by apply eq_None_not_Some. }
  exists v'. split; [done|]. split; [eapply AddCoin_wf; [done|done|]; intros N; rewrite U1; case_bool_decide as B; [done|by apply eq_None_not_Some]|].
  intros o'. rewrite (AddCoin_utxo base _ _ _ _ _ _ A), U1. destruct (is_stored c); [|done]. cbn [andb]. clear A.
  destruct (decide (o = o')) as [->|N]; [by rewrite bool_decide_true, lookup_insert_eq|by rewrite bool_decide_false, lookup_insert_ne].
Qed.

Lemma AddCoins_writes invalid txid h cb cs outs : forall i v X, denotes base v X -> Forall (fun o => 0 <= nValue o) outs ->
  exists v', AddCoins_loop base v invalid txid outs i h cb cs true false = Some v' /\ denotes base v' (add_outputs txid h cb cs i outs X).
Proof.
  induction outs as [|o outs IH]; intros i v X D F; [by exists v|]. apply Forall_cons in F as [F0 F]. cbn [AddCoins_loop add_outputs andb].
  set (c := {| fCoinBase := cb |}). set (k := {| op_hash := txid; op_n := i |}). destruct (AddCoin_writes v X k c D) as (v1 & A & D1); [apply Z.eqb_neq; cbn; lia|].
  destruct (HaveCoin base v k) as [ow v0]. cbn [fst snd] in A. rewrite A. cbn [mbind option_bind]. by apply IH.
Qed.

Lemma RollforwardTxs_writes invalid h txs : forall v X, denotes base v X -> Forall (fun tx => Forall (fun o => 0 <= nValue o) (vout tx)) txs ->
  exists v', RollforwardTxs invalid base h false txs v = Some v' /\ denotes base v' (apply_txs X h txs).
Proof.
  induction txs as [|tx txs IH]; intros v X D F; [by exists v|]. apply Forall_cons in F as [F0 F]. cbn [RollforwardTxs].
  assert (D1 : denotes base (if negb (IsCoinBase tx) then snd (SpendInputs base v (vin tx)) else v) (if IsCoinBase tx then X else spend_inputs X (vin tx))).
  { destruct (IsCoinBase tx); [done|]. by apply SpendInputs_writes. }
  unfold AddCoins. destruct (AddCoins_writes invalid (GetHash tx) h (IsCoinBase tx) (IsCoinStake tx) (vout tx) 0 _ _ D1 F0) as (v1 & A & D2). rewrite A. cbn [mbind option_bind].
  destruct (IH v1 _ D2 F) as (v2 & R & D3). by exists v2.
Qed.

Lemma RemoveOutputs_writes txid outs : forall i v X b, denotes base v X -> exists b' v', RemoveOutputs base txid outs i v b = (b', v') /\ denotes base v' (remove_outputs txid outs i X).
Proof.
  induction outs as [|o outs IH]; intros i v X b D; [by eexists _, v|]. cbn [RemoveOutputs remove_outputs]. destruct (IsUnspendable (scriptPubKey o)); [by apply IH|].
  pose proof (SpendCoin_writes v X {| op_hash := txid; op_n := i |} D) as D1. destruct (SpendCoin base v _) as [c v1]. by apply IH.
Qed.

Lemma ApplyTxInUndo_writes v X o c : denotes base v X -> restorable c -> IsSpent c = false ->
  exists r v', ApplyTxInUndo base c v o = Some (r, v') /\ r <> DISCONNECT_FAILED /\ denotes base v' (<[o := c]> X).
Proof.
  intros D [St Hh] Sp. unfold ApplyTxInUndo. destruct (AddCoin_writes v X o c D Sp) as (v' & A & D1). rewrite St in D1. destruct (HaveCoin base v o) as [have v1]. cbn [fst snd] in A.
  rewrite (proj2 (Z.eqb_neq _ _) Hh), negb_involutive, A. cbn [mbind option_bind]. eexists _, v'. split; [done|]. split; [by destruct have|done].
Qed.

Definition undo_coin (c : Coin) : Prop := restorable c /\ IsSpent c = false.

Lemma RestoreInputs_writes l : forall v X b, denotes base v X -> Forall (fun it => undo_coin it.2) l ->
  exists b' v', RestoreInputs base l v b = Some (Some b', v') /\ denotes base v' (restore_inputs l X).
Proof.
  induction l as [|[txin c] l IH]; intros v X b D F; [by eexists _, v|]. apply Forall_cons in F as [[R S] F]. cbn [RestoreInputs].
  destruct (ApplyTxInUndo_writes v X (prevout txin) c D R S) as (r & v1 & -> & N & D1). cbn [mbind option_bind].
  change (restore_inputs ((txin, c) :: l) X) with (restore_inputs l (<[prevout txin := c]> X)). destruct r; [by apply IH|by apply IH|done].
Qed.

(** Undo data that fits the transactions. *)
Definition undo_fits (it : CTransaction * option CTxUndo) : Prop :=
  let '(tx, u) := it in IsCoinBase tx = false -> exists txundo, u = Some txundo /\ List.length txundo = List.length (vin tx) /\ Forall undo_coin txundo.

Lemma DisconnectTxs_writes l : forall v X b, denotes base v X -> Forall undo_fits l ->
  exists b' v', DisconnectTxs base l v b = Some (Some b', v') /\ denotes base v' (foldl undo_tx X l).
Proof.
  induction l as [|[tx u] l IH]; intros v X b D F; [by eexists _, v|]. apply Forall_cons in F as [F0 F]. cbn [DisconnectTxs foldl undo_tx]. unfold DisconnectTx.
  destruct (RemoveOutputs_writes (GetHash tx) (vout tx) 0 v X b D) as (b1 & v1 & -> & D1). destruct (IsCoinBase tx) eqn:CB; [cbn [mbind option_bind]; by apply IH|].
  destruct (F0 CB) as (txundo & -> & L & U). cbn [mbind option_bind default]. unfold size. rewrite L, Z.eqb_refl. cbn [negb].
  destruct (RestoreInputs_writes (reverse (zip (vin tx) txundo)) (SetNullifiers v1 tx false) (remove_outputs (GetHash tx) (vout tx) 0 X) b1) as (b2 & v2 & R & D2).
  - eapply denotes_keeps; [apply SetNullifiers_keeps|done].
  - apply Forall_reverse, Forall_forall. intros [i c] I. apply elem_of_zip_r in I. rewrite Forall_forall in U. by apply U.
  - rewrite R. cbn [mbind option_bind]. by apply IH.
Qed.

End Writes.

(** ** Blocks that were connected *)

(** A block that was connected to the coins [M], with the undo data it left. *)
Record block_applied `{HashFunctions} (M : CoinMap) (h : Z) (txs : list CTransaction) (undo : CBlockUndo) : Prop := {
  ba_height : 0 < h < 2 ^ 30;
  ba_good : good_coins M;
  ba_ready : all_ready M h txs;
  ba_plain : Forall plain_outputs txs;
  ba_coinbase : exists cb rest, txs = cb :: rest /\ IsCoinBase cb = true;
  ba_undo : undo = drop 1 (block_undo M h txs)
}.

Section Applied.
Context `{HashFunctions, SaplingTree}.

Lemma all_ready_take h txs k tx M : 0 < h < 2 ^ 32 -> all_ready M h txs -> txs !! k = Some tx -> tx_ready (apply_txs M h (take k txs)) tx /\ all_ready M h (take k txs).
Proof.
  intros Hh R L. rewrite <- (take_drop_middle txs k tx L) in R. by apply (all_ready_app h Hh) in R as [R1 [R2 _]].
Qed.

Lemma spent_coins_undo M ins : good_coins M -> Forall (fun i => is_Some (M !! prevout i)) ins -> Forall undo_coin (spent_coins M ins).
Proof.
  intros G F. unfold spent_coins. apply Forall_fmap, Forall_forall. intros i I. rewrite Forall_forall in F. destruct (F i I) as [c L]. cbn. rewrite L. cbn.
  split; [by apply (proj2 G _ _ L)|by apply (good_unspent M G _ _ L)].
Qed.

Lemma block_applied_fits M h txs undo : block_applied M h txs undo -> Forall undo_fits (with_undo txs undo).
Proof.
  intros [Hh G R P (cb & rest & Et & CB) Eu]. assert (U : undo_ok h M txs (None :: (Some <$> undo))) by (rewrite Eu, Et; by apply block_undo_ok).
  destruct U as [L U]. apply Forall_lookup. intros k [tx u] I. unfold with_undo in I. apply lookup_zip_Some in I as [It Iu]. intros NB. specialize (U k tx u It Iu NB).
  destruct (all_ready_take h txs k tx M ltac:(lia) R It) as [[Ri _ _ _] Rt]. eexists. split; [exact U|]. split; [unfold spent_coins; by rewrite length_fmap|].
  apply spent_coins_undo; [|by apply Ri]. apply good_coins_apply_txs; [lia|done|done].
Qed.

Lemma denotes_unique (base : CCoinsView) v M M' : denotes base v M -> denotes base v M' -> M = M'.
Proof. intros [_ U] [_ U']. apply map_eq. intros o. by rewrite <- U, <- U'. Qed.

(** A view with exactly these coins. *)
Definition coins_view (M : CoinMap) : CCoinsView :=
  {| v_GetCoin o := M !! o; v_GetBestBlock := 0; v_GetSaplingAnchorAt _ := None; v_GetNullifier _ := false; v_GetBestAnchor := 0 |}.

Lemma coins_view_denotes M : map_Forall (fun _ c => IsSpent c = false) M -> denotes (coins_view M) new_cache M.
Proof.
  intros S. split; [apply map_Forall_empty|]. intros o. unfold utxo. cbn [cacheCoins new_cache]. rewrite lookup_empty. cbn. destruct (M !! o) as [c|] eqn:E; [|done].
  cbn. by rewrite (S _ _ E).
Qed.

Lemma undo_applied M h txs undo : block_applied M h txs undo -> undo_txs txs undo (apply_txs M h txs) = M.
Proof.
  intros A. pose proof A as [Hh G R P (cb & rest & Et & CB) Eu]. assert (Hh' : 0 < h < 2 ^ 32) by lia.
  assert (U : undo_ok h M txs (None :: (Some <$> undo))) by (rewrite Eu, Et; by apply block_undo_ok).
  pose proof (coins_view_denotes (apply_txs M h txs) (good_unspent _ (good_coins_apply_txs h Hh' txs M G R))) as D.
  destruct (DisconnectTxs_denotes (coins_view (apply_txs M h txs)) h Hh' txs _ new_cache M true D G R P U) as (v1 & E1 & D1).
  destruct (DisconnectTxs_writes (coins_view (apply_txs M h txs)) (reverse (with_undo txs undo)) new_cache _ true D) as (b & v2 & E2 & D2);
    [by apply Forall_reverse, (block_applied_fits M h)|].
  unfold with_undo in E2. rewrite E1 in E2. injection E2 as <- <-. exact (denotes_unique _ _ _ _ D2 D1).
Qed.

End Applied.

(** [ConnectBlock] connects blocks in this sense. *)
Lemma ConnectBlock_applied `{HashFunctions, Ecdsa, SaplingTree} net env m chain base invalid blocks threads (block : CBlock) pindex v v' undo st (M : CoinMap) :
  ConnectBlock (CreateChainParams net) env m chain base invalid blocks threads block false pindex v false = Valid (v', undo, st) ->
  CBlockHeader_GetHash block <> hashGenesisBlock (consensus (CreateChainParams net)) -> 0 < bi_nHeight pindex < 2 ^ 30 ->
  denotes base v M -> good_coins M -> fresh_txs M (vtx block) -> Forall (fun tx => HasZerocoinSpendInputs tx = false) (vtx block) -> Forall plain_outputs (vtx block) ->
  block_applied M (bi_nHeight pindex) (vtx block) undo /\ denotes base v' (apply_txs M (bi_nHeight pindex) (vtx block)).
Proof.
  intros C NG Hh D G Fr Zc Pl.
  destruct (ConnectBlock_inv net env m chain base invalid blocks threads block pindex v false v' undo st ltac:(lia) NG C) as (s & [(cold & [(cb & txs & EB & CB & _) _ Txs]) _ _ (f & v0 & tree & K0 & A0 & Loop) _ KV [Root [best EV]] Eu]).
  assert (Ck : Forall (tx_checked net) (vtx block)).
  { apply Forall_forall. intros tx I. rewrite Forall_forall in Txs, Zc. eapply CheckTransaction_checked; [by apply Txs|by apply Zc]. }
  pose proof (denotes_keeps _ _ _ _ (K0 (keeps base) _) D) as D0.
  destruct (ConnectTxs_Valid net env m base invalid f _ _ (Z.lt_le_incl _ _ (proj1 Hh)) 0 (connect_start v0 tree) s M D0 Ck Fr Loop) as [Rd V _ _ _ _ U].
  cbn [connect_start cn_undo app] in U. replace (1 - 0)%nat with 1%nat in U by lia. split; [|by apply (denotes_keeps _ _ _ _ KV)].
  split; [done|done|done|done| |congruence]. by exists cb, txs.
Qed.

(** ** Caches that can be stored *)

Section Fits.
Context `{HashSizes, SaplingTree, Curve}.
Context `{!TreeFormat} (d : LevelDB).
Let base := db_view d.

(** Everything in the cache fits the formats of the database. *)
Record fits (v : CCoinsViewCache) : Prop := {
  fit_coins : map_Forall coin_storable (cacheCoins v);
  fit_anchors : map_Forall anchor_storable (cacheSaplingAnchors v);
  fit_nullifiers : map_Forall (fun nf _ => hash_ok nf) (cacheSaplingNullifiers v);
  fit_best : hash_ok (hashSaplingAnchor v)
}.

Lemma new_cache_fits : fits new_cache.
Proof. split; try apply map_Forall_empty. cbn. unfold hash_ok. lia. Qed.

Lemma set_coins_fits v mc : fits v -> map_Forall coin_storable mc -> fits (set_coins v mc).
Proof. intros [? ? ? ?] M. by split. Qed.

Lemma FetchCoin_fits v o : fits v -> fits (snd (FetchCoin base v o)).
Proof.
  intros F. unfold FetchCoin. destruct (cacheCoins v !! o); [done|]. cbn [v_GetCoin base db_view]. destruct (op_okb o) eqn:O; [|done]. destruct (db_GetCoin d o); [|done].
  apply set_coins_fits; [done|]. apply map_Forall_insert_2; [|apply F]. split; [by apply op_okb_spec|done].
Qed.

Lemma SpendCoin_fits v o : fits v -> fits (snd (SpendCoin base v o)).
Proof.
  intros F%(FetchCoin_fits v o). unfold SpendCoin. pose proof (FetchCoin_lookup base v o) as L. destruct (FetchCoin base v o) as [[e|] v']; [|done]. cbn [fst snd] in *.
  apply set_coins_fits; [done|]. destruct (FRESH e); [apply map_Forall_delete, F|]. apply map_Forall_insert_2; [|apply F]. split; [by apply (fit_coins v' F _ _ L)|done].
Qed.

Lemma HaveCoin_fits v o : fits v -> fits (snd (HaveCoin base v o)).
Proof. rewrite HaveCoin_state. apply FetchCoin_fits. Qed.

Lemma AddCoin_fits v o c ow v' : AddCoin v o c ow = Some v' -> fits v -> op_ok o -> coin_ok c -> fits v'.
Proof.
  intros (_ & [(_ & ->) | (_ & f & ->)])%AddCoin_Some F O C; [done|]. apply set_coins_fits; [done|]. apply map_Forall_insert_2; [|apply F]. by split.
Qed.

Lemma SpendInputs_fits ins : forall v, fits v -> fits (snd (SpendInputs base v ins)).
Proof.
  induction ins as [|i ins IH]; intros v F; [done|]. cbn [SpendInputs]. pose proof (SpendCoin_fits v (prevout i) F) as F1. destruct (SpendCoin base v (prevout i)) as [c v1].
  specialize (IH v1 F1). by destruct (SpendInputs base v1 ins).
Qed.

Lemma AddCoins_fits invalid txid h cb cs outs : hash_ok txid -> 0 <= h < 2 ^ 30 -> Forall out_ok outs -> forall i v v', 0 <= i -> i + size outs <= 2 ^ 32 ->
  AddCoins_loop base v invalid txid outs i h cb cs true false = Some v' -> fits v -> fits v'.
Proof.
  intros T Hh O. induction O as [|o outs Oo O IH]; intros i v v' I S E F; [by injection E as <-|]. cbn [AddCoins_loop andb] in E. rewrite size_cons in S. pose proof (size_nonneg outs).
  pose proof (HaveCoin_fits v {| op_hash := txid; op_n := i |} F) as F1. destruct (HaveCoin base v _) as [ow v1]. cbn [snd] in F1.
  destruct (AddCoin v1 _ _ ow) as [v2|] eqn:A; [|done]. cbn [mbind option_bind] in E. refine (IH (i + 1) v2 v' _ _ E _); [lia|lia|].
  apply (AddCoin_fits _ _ _ _ _ A F1); [split; [done|cbn; lia]|]. split; [done|]. cbn. rewrite uint_id; lia.
Qed.

(** What a transaction must be for its coins to be stored. *)
Record tx_storable (tx : CTransaction) : Prop := {
  ts_outs : Forall out_ok (vout tx);
  ts_count : size (vout tx) <= 2 ^ 32;
  ts_ins : Forall (fun i => op_ok (prevout i)) (vin tx);
  ts_nullifiers : Forall hash_ok (tx_nullifiers tx)
}.

Lemma txid_ok tx : hash_ok (GetHash tx).
Proof. apply Hash_bound. Qed.

Lemma RollforwardTxs_fits invalid h txs : 0 <= h < 2 ^ 30 -> Forall tx_storable txs -> forall v v', RollforwardTxs invalid base h false txs v = Some v' -> fits v -> fits v'.
Proof.
  intros Hh T. induction T as [|tx txs [To Tc _ _] T IH]; intros v v' E F; [by injection E as <-|]. cbn [RollforwardTxs] in E. unfold AddCoins in E.
  destruct (AddCoins_loop base _ invalid _ _ _ _ _ _ _ _) as [v1|] eqn:A; [|done]. cbn [mbind option_bind] in E. refine (IH v1 v' E _).
  refine (AddCoins_fits invalid _ h _ _ _ (txid_ok tx) Hh To 0 _ v1 _ _ A _); [lia|lia|]. destruct (negb (IsCoinBase tx)); [by apply SpendInputs_fits|done].
Qed.

Lemma RemoveOutputs_fits txid outs : forall i v b b' v', RemoveOutputs base txid outs i v b = (b', v') -> fits v -> fits v'.
Proof.
  induction outs as [|o outs IH]; intros i v b b' v' E F; [by injection E as _ <-|]. cbn [RemoveOutputs] in E. destruct (IsUnspendable (scriptPubKey o)); [by apply IH in E|].
  pose proof (SpendCoin_fits v {| op_hash := txid; op_n := i |} F) as F1. destruct (SpendCoin base v _) as [c v1]. by apply IH in E.
Qed.

Lemma RestoreInputs_fits l : Forall (fun it => undo_coin it.2 /\ coin_ok it.2 /\ op_ok (prevout it.1)) l -> forall v b r v', RestoreInputs base l v b = Some (r, v') -> fits v -> fits v'.
Proof.
  induction 1 as [|[txin c] l ([[St Hh] _] & C & O) _ IH]; intros v b r v' E F; [by injection E as _ <-|]. cbn [RestoreInputs] in E. unfold ApplyTxInUndo in E. cbn [fst snd] in *.
  pose proof (HaveCoin_fits v (prevout txin) F) as F1. destruct (HaveCoin base v (prevout txin)) as [have v1]. cbn [snd] in F1. rewrite (proj2 (Z.eqb_neq _ _) Hh) in E.
  destruct (AddCoin v1 _ _ _) as [v2|] eqn:A; [|done]. cbn [mbind option_bind] in E. pose proof (AddCoin_fits _ _ _ _ _ A F1 O C) as F2. destruct (negb have); by apply IH in E.
Qed.

Lemma SetNullifiers_fits v tx b : Forall hash_ok (tx_nullifiers tx) -> fits v -> fits (SetNullifiers v tx b).
Proof.
  intros N F. unfold SetNullifiers, tx_nullifiers in *. destruct (sapData tx) as [s|]; [|done]. destruct F as [F1 F2 F3 F4]. split; [done|done| |done]. cbn [cacheSaplingNullifiers set_nullifiers].
  revert F3. generalize (cacheSaplingNullifiers v). clear F1 F2 F4. induction (vShieldedSpend s) as [|x l IH]; intros M F; [done|]. cbn in N. apply Forall_cons in N as [N0 N]. cbn [foldl].
  apply IH; [done|]. by apply map_Forall_insert_2.
Qed.

(** A transaction with its undo data. *)
Definition undo_storable_tx (it : CTransaction * option CTxUndo) : Prop := tx_storable it.1 /\ forall u, it.2 = Some u -> Forall coin_ok u.

Lemma DisconnectTxs_fits l : Forall undo_fits l -> Forall undo_storable_tx l -> forall v b r v', DisconnectTxs base l v b = Some (r, v') -> fits v -> fits v'.
Proof.
  intros U. induction U as [|[tx u] l U0 U IH]; intros S v b r v' E F; [by injection E as _ <-|]. apply Forall_cons in S as [[[_ _ Ti Tn] Su] S]. cbn [fst snd] in *.
  cbn [DisconnectTxs] in E. unfold DisconnectTx in E. destruct (RemoveOutputs base _ _ _ _ _) as [b1 v1] eqn:R. apply RemoveOutputs_fits in R; [|done].
  destruct (IsCoinBase tx) eqn:CB; [cbn [mbind option_bind] in E; by apply IH in E|]. destruct (U0 CB) as (txundo & -> & L & Uc). cbn [mbind option_bind] in E.
  unfold size in E. rewrite L, Z.eqb_refl in E. cbn [negb] in E. destruct (RestoreInputs base _ _ _) as [[r1 v2]|] eqn:Re; [|done]. cbn [mbind option_bind] in E.
  apply RestoreInputs_fits in Re; [|apply Forall_reverse, Forall_forall; intros [i c] I; cbn [fst snd] | by apply SetNullifiers_fits].
  - destruct r1; [by apply IH in E|by injection E as _ <-].
  - pose proof (elem_of_zip_l _ _ _ _ I) as Il. pose proof (elem_of_zip_r _ _ _ _ I) as Ir. rewrite Forall_forall in Uc. rewrite Forall_forall in Ti. specialize (Su txundo eq_refl). rewrite Forall_forall in Su. auto.
Qed.

End Fits.

(** ** Shielded roots while rolling back *)

(** Popping the roots [targets] one after the other finds every tree that it
    removes: it is in the database and was not removed before. *)
Fixpoint pops (found : Z -> Prop) (removed : list Z) (cur : Z) (targets : list Z) : Prop :=
  match targets with
  | [] => True
  | rt :: targets => 0 < rt < 2 ^ 256 /\ (cur = rt \/ (hash_ok cur /\ cur ∉ removed /\ found cur)) /\ pops found (if decide (cur = rt) then removed else cur :: removed) rt targets
  end.

Lemma pops_impl (P Q : Z -> Prop) targets : (forall rt, P rt -> Q rt) -> forall removed cur, pops P removed cur targets -> pops Q removed cur targets.
Proof. intros I. induction targets as [|rt ts IH]; intros removed cur; [done|]. cbn [pops]. intros (A & B & C). split; [done|]. split; [naive_solver|by apply IH]. Qed.

Section Anchors.
Context `{SaplingTree, Curve}.
Context `{!TreeFormat} (d : LevelDB).
Let base := db_view d.

Definition in_db (rt : Z) : Prop := is_Some (db_GetSaplingAnchorAt d rt).

(** The current root, and the roots that may have been removed. *)
Record rooted (v : CCoinsViewCache) (removed : list Z) (cur : Z) : Prop := {
  rt_best : fst (GetBestAnchor base v) = cur;
  rt_kept : forall rt, rt ∉ removed -> in_db rt -> is_Some (anchor_tree base v rt)
}.

Lemma rooted_kept v v' removed cur : anchors_kept base v v' -> rooted v removed cur -> rooted v' removed cur.
Proof. intros [B T] [E K]. split; [by rewrite B|]. intros rt N I. rewrite T. by apply K. Qed.

Lemma PopAnchor_pops v removed cur rt : rooted v removed cur -> fits v -> 0 < rt < 2 ^ 256 -> (cur = rt \/ (hash_ok cur /\ cur ∉ removed /\ in_db cur)) ->
  exists v', PopAnchor base v rt = Some v' /\ fits v' /\ rooted v' (if decide (cur = rt) then removed else cur :: removed) rt.
Proof.
  intros [B K] [F1 F2 F3 F4] Hr C. unfold GetBestAnchor in B. cbn [fst] in B. unfold PopAnchor, GetBestAnchor. rewrite B. destruct (Z.eqb_spec cur rt) as [E|NE]; cbn [negb].
  - rewrite decide_True, E by done. eexists. split; [done|]. split; [split; cbn; [done|done|done|unfold hash_ok; lia]|]. split; [unfold GetBestAnchor; cbn [fst hashSaplingAnchor set_anchors]; destruct (Z.eqb_spec rt 0); [lia|done]|exact K].
  - rewrite decide_False by done. destruct C as [|(Hc & Nr & I)]; [done|]. specialize (K cur Nr I) as Kc. unfold anchor_tree in Kc. unfold GetSaplingAnchorAt. cbn [cacheSaplingAnchors set_anchors].
    assert (Hrt : hash_ok rt) by (unfold hash_ok; lia). assert (Nz : (rt =? 0) = false) by (apply Z.eqb_neq; lia).
    destruct (cacheSaplingAnchors v !! cur) as [e|] eqn:L; [destruct (a_entered e); [|by destruct Kc]|destruct (v_GetSaplingAnchorAt base cur) as [t|]; [|by destruct Kc]]; (eexists; split; [done|]; split;
      [split; cbn [cacheCoins cacheSaplingAnchors cacheSaplingNullifiers hashSaplingAnchor set_anchors]; [done| |done|done]; repeat (apply map_Forall_insert_2; [split; [done|by intros]|]); done
      |split; unfold GetBestAnchor; cbn [fst hashSaplingAnchor set_anchors]; [by rewrite Nz|]; intros rt' N' I'; apply not_elem_of_cons in N' as [N1 N2]; specialize (K rt' N2 I'); unfold anchor_tree in *;
       cbn [cacheSaplingAnchors set_anchors]; rewrite !lookup_insert_ne by done; done]).
Qed.

End Anchors.

(** ** Branches of connected blocks *)

Section Branch.
Context `{HashSizes, SaplingTree, Curve}.
Context `{!TreeFormat} (net : Network) (m : BlockMap) (invalid : COutPoint -> bool).
Context (disk : Z -> option CBlock) (undos : Z -> option CBlockUndo).
Let p := CreateChainParams net.

(** The shielded root before a block, from its parent. *)
Definition root_before (prev : CBlockIndex) : Z :=
  if upgrade_active (bi_nHeight prev) (consensus p) UPGRADE_V5_0 then bi_hashFinalSaplingRoot prev else tree_root tree_empty.

(** The blocks after [fork] up to a block were connected one after the other,
    and they and their undo data are on disk.  The indices are the coins at
    both ends and the shielded roots, the last one first. *)
Inductive branch (fork : CBlockIndex) : CBlockIndex -> CoinMap -> CoinMap -> list Z -> Prop :=
  | branch_fork M : stored m fork -> branch fork fork M M []
  | branch_block prev i block undo M0 M roots :
      branch fork prev M0 M roots -> stored m i -> parent m i = Some prev ->
      disk (phashBlock i) = Some block -> undos (phashBlock i) = Some undo ->
      block_applied M (bi_nHeight i) (vtx block) undo -> Forall tx_storable (vtx block) -> Forall (Forall coin_ok) undo ->
      branch fork i M0 (apply_txs M (bi_nHeight i) (vtx block)) (root_before prev :: roots).

Context (W : tree_wf m).

Lemma branch_stored fork i M0 M roots : branch fork i M0 M roots -> stored m i.
Proof. by destruct 1. Qed.

Lemma branch_height fork i M0 M roots : branch fork i M0 M roots -> bi_nHeight fork <= bi_nHeight i /\ (i <> fork -> bi_nHeight fork < bi_nHeight i).
Proof.
  induction 1 as [M S|prev i block undo M0 M roots B [IH _] S P Hd Hu A St Sc]; [done|]. pose proof (ba_height _ _ _ _ A). destruct (stored_parent m W i S) as (q & Q & Hq & _); [lia|].
  rewrite P in Q. injection Q as <-. lia.
Qed.

Lemma block_shape M h txs undo : block_applied M h txs undo -> size undo + 1 = size txs.
Proof.
  intros A. destruct (ba_coinbase _ _ _ _ A) as (cb & rest & E & _). rewrite (ba_undo _ _ _ _ A). unfold size. rewrite length_drop, length_block_undo, E. cbn. lia.
Qed.

Lemma undo_storable_zip txs undo : Forall tx_storable txs -> Forall (Forall coin_ok) undo -> Forall undo_storable_tx (with_undo txs undo).
Proof.
  intros T U. apply Forall_forall. intros [tx u] I. pose proof (elem_of_zip_l _ _ _ _ I) as Il. pose proof (elem_of_zip_r _ _ _ _ I) as Ir.
  rewrite Forall_forall in T. rewrite Forall_forall in U. split; [by apply T|]. cbn [snd]. intros u' ->. apply elem_of_cons in Ir as [|(u'' & [= ->] & X)%list_elem_of_fmap]; [done|by apply U].
Qed.

Section Database.
Context (d : LevelDB).
Let base := db_view d.

(** One block of the way back. *)
Lemma DisconnectBlock_rolls i prev block undo M v X removed cur : stored m i -> parent m i = Some prev -> block_applied M (bi_nHeight i) (vtx block) undo ->
  Forall tx_storable (vtx block) -> Forall (Forall coin_ok) undo -> denotes base v X -> fits v -> rooted d v removed cur ->
  0 < root_before prev < 2 ^ 256 -> (cur = root_before prev \/ (hash_ok cur /\ cur ∉ removed /\ in_db d cur)) ->
  exists r v', DisconnectBlock p m base block i v (Some undo) = Some (r, v') /\ r <> DISCONNECT_FAILED /\ denotes base v' (undo_txs (vtx block) undo X) /\ fits v' /\
    rooted d v' (if decide (cur = root_before prev) then removed else cur :: removed) (root_before prev).
Proof.
  intros S P A St Sc D F R Hr C. unfold DisconnectBlock. rewrite P. cbn [mbind option_bind]. rewrite (block_shape _ _ _ _ A), Z.eqb_refl. cbn [negb].
  pose proof (block_applied_fits _ _ _ _ A) as U. apply Forall_reverse in U. pose proof (undo_storable_zip _ _ St Sc) as Us. apply Forall_reverse in Us.
  destruct (DisconnectTxs_writes base _ v X true D U) as (b & v1 & E & D1). rewrite E. cbn [mbind option_bind].
  pose proof (DisconnectTxs_fits d _ U Us _ _ _ _ E F) as F1. pose proof (DisconnectTxs_anchors base _ _ _ _ E) as K1. pose proof (rooted_kept d _ _ _ _ K1 R) as R1. cbn [snd] in R1.
  assert (Hp : 0 <= bi_nHeight prev). { apply (stored_height m W). pose proof (ba_height _ _ _ _ A). destruct (stored_parent m W i S) as (q & Q & _ & Sq); [lia|]. congruence. }
  rewrite NetworkUpgradeActive_eq by done. cbn [mbind option_bind]. change (if upgrade_active _ _ _ then _ else _) with (root_before prev).
  destruct (PopAnchor_pops d v1 removed cur (root_before prev) R1 F1 Hr C) as (v2 & E2 & F2 & R2). fold base in E2. rewrite E2. cbn [mbind option_bind]. eexists _, _. split; [done|].
  split; [by destruct b|]. split; [|split].
  - eapply denotes_keeps; [apply SetBestBlock_keeps|]. eapply denotes_keeps; [by eapply PopAnchor_keeps|]. exact D1.
  - destruct F2. by split.
  - eapply rooted_kept; [|exact R2]. by apply anchors_kept_same.
Qed.

(** The way back along a branch. *)
Lemma branch_back fork i M0 M roots : branch fork i M0 M roots -> exists B, pointwise B /\ B M = M0 /\
  forall fuel v X removed cur, (Z.to_nat (bi_nHeight i - bi_nHeight fork) <= fuel)%nat -> denotes base v X -> fits v -> rooted d v removed cur -> pops (in_db d) removed cur roots ->
  exists v', RollbackBlocks p m disk undos base fuel (Some i) (Some fork) v = Some (Some v') /\ denotes base v' (B X) /\ fits v'.
Proof.
  induction 1 as [M S|prev i block undo M0 M roots B IH S P Hd Hu A St Sc].
  - exists (fun X => X). split; [apply pointwise_id|]. split; [done|]. intros fuel v X removed cur _ D F _ _. exists v. destruct fuel; cbn [RollbackBlocks fmap option_fmap option_map]; by rewrite bool_decide_true.
  - destruct IH as (Bk & PB & EB & IH). exists (fun X => Bk (undo_txs (vtx block) undo X)). split; [apply (pointwise_compose Bk (undo_txs (vtx block) undo) PB), pointwise_undo|].
    split; [by rewrite (undo_applied _ _ _ _ A)|]. intros fuel v X removed cur Fu D F R [Hr [C Po]].
    pose proof (ba_height _ _ _ _ A) as Hh. destruct (stored_parent m W i S) as (q & Q & Hq & _); [lia|]. rewrite P in Q. injection Q as <-.
    destruct (branch_height _ _ _ _ _ B) as [L _]. destruct fuel as [|fuel]; [lia|]. cbn [RollbackBlocks fmap option_fmap option_map]. rewrite bool_decide_false.
    2: { intros [= E]. rewrite (stored_inj m i fork) in Hq; [lia|done| |done]. clear -B. induction B; [done|by apply IHB]. }
    rewrite (proj2 (Z.ltb_lt _ _)), Hd, Hu by lia. destruct (DisconnectBlock_rolls i prev block undo M v X removed cur S P A St Sc D F R Hr C) as (r & v1 & E & N & D1 & F1 & R1).
    fold base in E. rewrite E. cbn [mbind option_bind]. rewrite P. destruct (IH fuel v1 _ _ _ ltac:(lia) D1 F1 R1 Po) as (v2 & E2 & X2). exists v2. split; [|done]. by destruct r.
Qed.

Lemma RollforwardBlocks_app h1 h2 new : forall v, RollforwardBlocks p m invalid disk base (h1 ++ h2) new v =
  match RollforwardBlocks p m invalid disk base h1 new v with Some (Some v1) => RollforwardBlocks p m invalid disk base h2 new v1 | r => r end.
Proof.
  induction h1 as [|h h1 IH]; intros v; [done|]. cbn [RollforwardBlocks app]. destruct (GetAncestor m new h) as [[i|]|]; [|done..]. cbn [mbind option_bind].
  destruct (RollforwardBlock _ _ _ _ i v) as [[v1|]|]; [|done..]. cbn [mbind option_bind]. apply IH.
Qed.

(** The way forward, to a block below the new tip. *)
Lemma branch_forward fork i M0 M roots : branch fork i M0 M roots -> exists F, pointwise F /\ F M0 = M /\
  forall new v X, stored m new -> is_ancestor m i new -> denotes base v X -> fits v ->
  exists v', RollforwardBlocks p m invalid disk base (seqZ (bi_nHeight fork + 1) (bi_nHeight i - bi_nHeight fork)) new v = Some (Some v') /\ denotes base v' (F X) /\ fits v'.
Proof.
  induction 1 as [M S|prev i block undo M0 M roots B IH S P Hd Hu A St Sc].
  - exists (fun X => X). split; [apply pointwise_id|]. split; [done|]. intros new v X _ _ D Ft. exists v. by rewrite Z.sub_diag.
  - destruct IH as (F & PF & EF & IH). exists (fun X => apply_txs (F X) (bi_nHeight i) (vtx block)). split; [apply (pointwise_compose (fun X => apply_txs X (bi_nHeight i) (vtx block)) F); [apply pointwise_apply|done]|].
    split; [by rewrite EF|]. intros new v X Sn An D Ft. pose proof (ba_height _ _ _ _ A) as Hh. destruct (stored_parent m W i S) as (q & Q & Hq & _); [lia|]. rewrite P in Q. injection Q as <-.
    destruct (branch_height _ _ _ _ _ B) as [L _]. destruct (IH new v X Sn) as (v1 & E1 & D1 & F1); [eapply is_ancestor_trans; [done|done| |done]; by apply is_ancestor_parent|done|done|].
    replace (bi_nHeight i - bi_nHeight fork) with (bi_nHeight prev - bi_nHeight fork + 1) by lia. rewrite seqZ_app, RollforwardBlocks_app, E1 by lia.
    replace (bi_nHeight fork + 1 + (bi_nHeight prev - bi_nHeight fork)) with (bi_nHeight i) by lia. change (seqZ (bi_nHeight i) 1) with [bi_nHeight i]. cbn [RollforwardBlocks]. destruct An as [Ha Ea]. rewrite (GetAncestor_spec m W), bool_decide_true, Ea by done. cbn [mbind option_bind].
    unfold RollforwardBlock. rewrite Hd. rewrite (SkipInvalidUTXOS_false net) by lia. cbn [mbind option_bind].
    destruct (RollforwardTxs_writes base invalid (bi_nHeight i) (vtx block) v1 (F X) D1) as (v2 & E2 & D2).
    { apply (Forall_impl _ _ _ St). intros tx [To _ _ _]. apply (Forall_impl _ _ _ To). intros o Oo. apply Oo. }
    rewrite E2. cbn [mbind option_bind]. exists v2. split; [done|]. split; [done|]. by apply (RollforwardTxs_fits d invalid (bi_nHeight i) (vtx block) ltac:(lia) St v1).
Qed.

End Database.
End Branch.

(** ** Recovery *)

Section Recovery.
Context `{HashSizes, SaplingTree, CurveLaws}.
Context `{!TreeFormat} (net : Network) (m : BlockMap) (invalid : COutPoint -> bool).
Context (disk : Z -> option CBlock) (undos : Z -> option CBlockUndo).
Let p := CreateChainParams net.

Definition db_coin (d : LevelDB) (o : COutPoint) : option Coin := unspent (v_GetCoin (db_view d) o).

(** A database in which a write of the coins is complete. *)
Record completed (d : LevelDB) (tip : Z) (M : CoinMap) : Prop := {
  cp_best : db_GetBestBlock d = tip;
  cp_heads : db_GetHeadBlocks d = [];
  cp_coins : forall o, db_coin d o = M !! o
}.

(** The step from the tip with the hash [old] to [new]: back to the fork and
    forward again.  A null hash is the first write, which starts from the
    genesis block. *)
Record transition (old : Z) (new : CBlockIndex) (Mold Mnew : CoinMap) (roots : list Z) : Prop := {
  tr_branches : exists fork M0 roots', branch net m disk undos fork new M0 Mnew roots' /\
    ((old = 0 /\ bi_nHeight fork = 0 /\ Mold = M0) \/
     exists i, m !! old = Some i /\ branch net m disk undos fork i M0 Mold roots /\ last_common m i new fork);
  tr_old : hash_ok old;
  tr_new : hash_ok (phashBlock new)
}.

(** A database from before a write to [new], or one left by a write that was cut short. *)
Record between (d : LevelDB) (old : Z) (new : CBlockIndex) (Mold Mnew : CoinMap) (roots : list Z) : Prop := {
  bw_tip : old_tip d = old;
  bw_again : resumable d (phashBlock new);
  bw_coins : forall o, db_coin d o = Mold !! o \/ db_coin d o = Mnew !! o;
  bw_roots : pops (in_db d) [] (db_GetBestAnchor d) roots
}.

Context (W : tree_wf m) (R : single_root m).

Lemma new_hash new : stored m new -> hash_ok (phashBlock new) -> 0 < phashBlock new < 2 ^ 256.
Proof. intros S. destruct (W _ _ S) as (_ & N & _). unfold hash_ok. lia. Qed.

(** The coins of the database as a finite map. *)
Lemma db_coins_map d (Mold Mnew : CoinMap) : (forall o, db_coin d o = Mold !! o \/ db_coin d o = Mnew !! o) -> exists X : CoinMap,
  denotes (db_view d) new_cache X /\ forall o, X !! o = Mold !! o \/ X !! o = Mnew !! o.
Proof.
  intros Mx. exists (map_imap (fun o _ => db_coin d o) (Mold ∪ Mnew)). assert (E : forall o, map_imap (fun o (_ : Coin) => db_coin d o) (Mold ∪ Mnew) !! o = db_coin d o).
  { intros o. rewrite map_lookup_imap. destruct ((Mold ∪ Mnew) !! o) as [c|] eqn:L; [done|]. apply lookup_union_None in L as [L1 L2]. cbn. destruct (Mx o) as [->| ->]; done. }
  split; [|intros o; by rewrite E]. split; [apply map_Forall_empty|]. intros o. by rewrite E.
Qed.

Lemma fits_flush v h : fits v -> 0 < h < 2 ^ 256 -> storable (SetBestBlock v h).
Proof. intros [] ?. by split. Qed.

(** A flush completes the write or leaves the database between. *)
Lemma flush_between d v old new Mold Mnew roots bs : between d old new Mold Mnew roots -> hash_ok old -> storable v -> hashBlock v = phashBlock new -> denotes (db_view d) v Mnew ->
  exists batches, db_Flush bs d v = Some batches /\ completed (written d batches) (phashBlock new) Mnew /\
    forall k, (0 < k < List.length batches)%nat -> between (crashed d batches k) old new Mold Mnew roots /\ db_GetHeadBlocks (crashed d batches k) = [phashBlock new; old].
Proof.
  intros [T A Mx Po] Ho St Hb [Wf U]. rewrite <- Hb in A. destruct (db_Flush_batches bs d v St A) as (batches & E & Ew & K). exists batches. split; [done|].
  assert (C : forall o, db_coin (WriteBatch d (flush_ws d v)) o = Mnew !! o).
  { intros o. rewrite <- U. unfold db_coin. cbn [v_GetCoin db_view]. destruct (op_okb o) eqn:O; [by apply db_flush_coin; [|by apply op_okb_spec|]|].
    unfold utxo. destruct (cacheCoins v !! o) as [e|] eqn:L; [|cbn [v_GetCoin db_view]; by rewrite O]. destruct (st_coins v St _ _ L) as [Ok _]. apply op_okb_spec in Ok. congruence. }
  split; [rewrite Ew; destruct (db_flush_blocks d v St) as [B1 B2]; split; [congruence|done|done]|].
  intros k Hk. destruct (K k Hk) as (a & b & Eq & Ed). rewrite <- T in Ho. rewrite Ed. destruct (db_crash_rest d v a b Ho (st_block v St) Eq) as (B & Hd & _ & An & Ba).
  split; [|by rewrite Hd, Hb, T]. split.
  - unfold old_tip at 1. by rewrite B, Hd, T.
  - intros _. by rewrite Hd.
  - intros o. specialize (C o). unfold db_coin in *. cbn [v_GetCoin db_view] in *. destruct (op_okb o) eqn:O; [|by right].
    destruct (db_crash_coin d v a b o St (proj1 (op_okb_spec o) O) Eq) as [-> | ->]; [|by right]. specialize (Mx o). unfold db_coin in Mx. cbn [v_GetCoin db_view] in Mx. by rewrite O in Mx.
  - rewrite Ba. eapply pops_impl; [|exact Po]. intros rt. unfold in_db. by rewrite An.
Qed.

(** Replaying gives a cache with the new coins. *)
Lemma replay_cache d old new Mold Mnew roots bs : transition old new Mold Mnew roots -> between d old new Mold Mnew roots -> db_GetHeadBlocks d = [phashBlock new; old] ->
  exists v, ReplayBlocks p m invalid disk undos bs d = (batches ← db_Flush bs d (SetBestBlock v (phashBlock new)); Some (true, batches)) /\ fits v /\ denotes (db_view d) v Mnew.
Proof.
  intros [(fork & M0 & roots' & Bn & Old) Ho Hn] [T A Mx Po] Hd. pose proof (branch_stored _ _ _ _ _ _ _ _ _ Bn) as Sn. unfold ReplayBlocks, p. rewrite Hd, Sn.
  destruct (db_coins_map d Mold Mnew Mx) as (X & D & MX). destruct (branch_forward net m invalid disk undos W d _ _ _ _ _ Bn) as (F & PF & EF & Fwd).
  assert (Rt : rooted d new_cache [] (db_GetBestAnchor d)) by (split; [done|]; intros rt _ [t E]; unfold anchor_tree; cbn; rewrite lookup_empty; cbn; by exists t).
  destruct Old as [(-> & Hf & ->) | (i & Hi & Bo & Lc)].
  - rewrite Z.eqb_refl. cbn [RollbackBlocks]. rewrite bool_decide_true by done. cbn [mbind option_bind].
    destruct (Fwd new new_cache X Sn (is_ancestor_refl m W new Sn) D new_cache_fits) as (v & E & D1 & F1). rewrite Hf in E. rewrite E. cbn [mbind option_bind]. exists v. split; [done|]. split; [done|].
    rewrite <- (replay_mixture (fun X => X) F X M0 M0 Mnew pointwise_id PF eq_refl EF MX). done.
  - destruct (W _ _ Hi) as (Eh & Nz & _). rewrite (proj2 (Z.eqb_neq _ _) Nz), Hi. assert (Si : stored m i) by (unfold stored; congruence).
    destruct (LastCommonAncestor_spec m W R i new Si Sn) as (c & -> & Cc). assert (c = fork) as ->.
    { destruct Cc as (C1 & C2 & C3), Lc as (L1 & L2 & L3). pose proof (C3 _ L1 L2). pose proof (L3 _ C1 C2). destruct C2 as [_ C2], L2 as [_ L2].
      replace (bi_nHeight c) with (bi_nHeight fork) in C2 by lia. congruence. }
    cbn [mbind option_bind]. destruct (branch_back net m disk undos W d _ _ _ _ _ Bo) as (B & PB & EB & Bck).
    pose proof (proj1 (proj1 Lc)). destruct (Bck (S (Z.to_nat (bi_nHeight i))) new_cache X [] _ ltac:(lia) D new_cache_fits Rt Po) as (v1 & E1 & D1 & F1).
    rewrite E1. cbn [mbind option_bind]. destruct (Fwd new v1 _ Sn (is_ancestor_refl m W new Sn) D1 F1) as (v & E & D2 & F2). rewrite E. cbn [mbind option_bind]. exists v. split; [done|]. split; [done|].
    rewrite <- (replay_mixture B F X Mold M0 Mnew PB PF EB EF MX). done.
Qed.

End Recovery.

(** ** Properties *)

(** Databases that a write and the recoveries from it can leave when each of
    them is cut short. *)
Inductive crash_state `{HashFunctions, SaplingTree, Curve} `{!TreeFormat} (net : Network) (m : BlockMap) (invalid : COutPoint -> bool)
    (disk : Z -> option CBlock) (undos : Z -> option CBlockUndo) (d : LevelDB) (v : CCoinsViewCache) : LevelDB -> Prop :=
  | crash_flush bs batches k : db_Flush bs d v = Some batches -> (0 < k < List.length batches)%nat -> crash_state net m invalid disk undos d v (crashed d batches k)
  | crash_replay bs d1 batches k : crash_state net m invalid disk undos d v d1 -> ReplayBlocks (CreateChainParams net) m invalid disk undos bs d1 = Some (true, batches) ->
      (0 < k < List.length batches)%nat -> crash_state net m invalid disk undos d v (crashed d1 batches k).

(** C7. Recovery after a crash.  The node writes the coins for a new tip, which
    may be on another branch than the tip of the database, and dies; it is
    started again and dies in [ReplayBlocks], any number of times, with any
    batch sizes.  From every database that this leaves, [ReplayBlocks]
    returns true, and when its batches are written the database is complete:
    its best block is the new tip, there are no head blocks, and its coins are
    exactly those of the new tip.

    The conditions: the write starts from a complete database; the blocks from
    the fork to both tips and their undo data are on disk, were connected there
    ([block_applied]: inputs available, transaction ids new, heights below
    2^30, no output that is a zerocoin mint), and fit the formats of the database
    (amounts that survive their compression, scripts of at most 10000 bytes);
    the shielded roots that the old branch leaves are in the database, each
    once; and the cache that is written is within the same formats. *)
Theorem crash_recovery `{HashSizes, SaplingTree, CurveLaws} `{!TreeFormat} (net : Network) (m : BlockMap) (invalid : COutPoint -> bool)
    (disk : Z -> option CBlock) (undos : Z -> option CBlockUndo) (d : LevelDB) v old new Mold Mnew roots :
  tree_wf m -> single_root m -> transition net m disk undos old new Mold Mnew roots ->
  completed d old Mold -> pops (in_db d) [] (db_GetBestAnchor d) roots ->
  storable v -> hashBlock v = phashBlock new -> denotes (db_view d) v Mnew ->
  forall d1 bs, crash_state net m invalid disk undos d v d1 ->
  exists batches, ReplayBlocks (CreateChainParams net) m invalid disk undos bs d1 = Some (true, batches) /\ completed (written d1 batches) (phashBlock new) Mnew.
Proof.
  intros W R T [Cb Ch Cc] Po St Hb D d1 bs Cs.
  assert (B0 : between d old new Mold Mnew roots). { split; [unfold old_tip; rewrite Cb, Ch; by destruct (Z.eqb_spec old 0)|intros _; by rewrite Ch|intros o; by left|done]. }
  assert (Sn : 0 < phashBlock new < 2 ^ 256) by (rewrite <- Hb; apply St).
  assert (Rep : forall d1 bs, between d1 old new Mold Mnew roots -> db_GetHeadBlocks d1 = [phashBlock new; old] -> exists batches,
    ReplayBlocks (CreateChainParams net) m invalid disk undos bs d1 = Some (true, batches) /\ completed (written d1 batches) (phashBlock new) Mnew /\
    forall k, (0 < k < List.length batches)%nat -> between (crashed d1 batches k) old new Mold Mnew roots /\ db_GetHeadBlocks (crashed d1 batches k) = [phashBlock new; old]).
  { intros d2 bs2 B Hd. destruct (replay_cache net m invalid disk undos W R d2 old new Mold Mnew roots bs2 T B Hd) as (v2 & -> & F2 & D2).
    destruct (flush_between d2 (SetBestBlock v2 (phashBlock new)) old new Mold Mnew roots bs2 B (tr_old _ _ _ _ _ _ _ _ _ T) (fits_flush _ _ F2 Sn) eq_refl) as (batches & -> & X); [|by exists batches].
    eapply denotes_keeps; [apply SetBestBlock_keeps|done]. }
  assert (Inv : between d1 old new Mold Mnew roots /\ db_GetHeadBlocks d1 = [phashBlock new; old]).
  { induction Cs as [bs1 batches k E K|bs1 d2 batches k C [IB IH] E K].
    - destruct (flush_between d v old new Mold Mnew roots bs1 B0 (tr_old _ _ _ _ _ _ _ _ _ T) St Hb D) as (batches' & E' & _ & X). rewrite E in E'. injection E' as <-. by apply X.
    - destruct (Rep d2 bs1 IB IH) as (batches' & E' & _ & X). rewrite E in E'. injection E' as <-. by apply X. }
  destruct (Rep d1 bs (proj1 Inv) (proj2 Inv)) as (batches & E & C & _). by exists batches.
Qed.

(** *** A reorganization of one block *)

(** A cache that turns one set of coins into another. *)
Definition cache_to `{SaplingTree} (Mold Mnew : CoinMap) (tip : Z) : CCoinsViewCache := {|
  cacheCoins := ((fun c => {| coin := c; DIRTY := true; FRESH := false |}) <$> Mnew) ∪ ((fun _ => {| coin := coinEmpty; DIRTY := true; FRESH := false |}) <$> Mold);
  hashBlock := tip; hashSaplingAnchor := 0; cacheSaplingAnchors := ∅; cacheSaplingNullifiers := ∅ |}.

Lemma cache_to_entry `{SaplingTree} Mold Mnew tip o e : cacheCoins (cache_to Mold Mnew tip) !! o = Some e -> DIRTY e = true /\ FRESH e = false /\
  ((exists c, Mnew !! o = Some c /\ coin e = c) \/ (Mnew !! o = None /\ is_Some (Mold !! o) /\ coin e = coinEmpty)).
Proof.
  cbn. rewrite lookup_union, !lookup_fmap. destruct (Mnew !! o) as [c|], (Mold !! o) as [c'|]; cbn; intros [= <-]; (split; [done|]; split; [done|]); eauto 6.
Qed.

Lemma cache_to_denotes `{SaplingTree, Curve} `{!TreeFormat} d Mold Mnew tip : (forall o, db_coin d o = Mold !! o) -> map_Forall (fun _ c => IsSpent c = false) Mnew ->
  denotes (db_view d) (cache_to Mold Mnew tip) Mnew.
Proof.
  intros D U. split; [intros o e (Di & Fr & _)%cache_to_entry; unfold entry_wf; by rewrite Di, Fr|]. intros o. unfold utxo. destruct (cacheCoins (cache_to Mold Mnew tip) !! o) as [e|] eqn:E.
  - apply cache_to_entry in E as (_ & _ & [(c & L & ->) | (L & _ & ->)]); rewrite L; [cbn; by rewrite (U _ _ L)|done].
  - cbn in E. rewrite lookup_union, !lookup_fmap in E. specialize (D o). unfold db_coin in D. rewrite D. by destruct (Mnew !! o), (Mold !! o).
Qed.

Lemma cache_to_storable `{SaplingTree} `{!TreeFormat} Mold Mnew tip : map_Forall (fun o c => op_ok o /\ coin_ok c) Mold -> map_Forall (fun o c => op_ok o /\ coin_ok c) Mnew ->
  0 < tip < 2 ^ 256 -> storable (cache_to Mold Mnew tip).
Proof.
  intros O N T. split; [done|cbn; unfold hash_ok; lia| |apply map_Forall_empty|apply map_Forall_empty].
  unfold coin_storable. intros o e (_ & _ & [(c & L & ->) | (_ & [c L] & ->)])%cache_to_entry; [destruct (N _ _ L)|destruct (O _ _ L)]; by split.
Qed.

Definition fork_index (k h : Z) (prev : option Z) : CBlockIndex := {|
  phashBlock := k; pprev := prev; pskip := prev;
  bi_nHeight := h; nChainWork := h; nTx := 1; nChainTx := h; nStatus := BLOCK_VALID_SCRIPTS; vStakeModifier := [];
  nFlags := 0; nSaplingValue := 0; nChainSaplingValue := Some 0; bi_nVersion := 8; bi_hashMerkleRoot := 0;
  bi_hashFinalSaplingRoot := 1; bi_nTime := 60 * h; bi_nBits := 0x1e0ffff0; bi_nNonce := 0;
  bi_nAccumulatorCheckpoint := 0; nTimeMax := 60 * h |}.

Definition fork_map : BlockMap := <[1 := fork_index 1 0 None]> (<[2 := fork_index 2 1 (Some 1)]> (<[3 := fork_index 3 1 (Some 1)]> ∅)).

Lemma fork_map_wf : tree_wf fork_map.
Proof.
  assert (C : forall k, k = 2 \/ k = 3 -> index_wf fork_map k (fork_index k 1 (Some 1))).
  { intros k K. split; [done|]. split; [lia|]. split; [done|]. split; [done|]. intros _. split; (exists (fork_index 1 0 None); split; reflexivity). }
  repeat (apply map_Forall_insert_2; [auto|]); [|apply map_Forall_empty]. split; [done|]. split; [lia|]. split; [done|]. split; [done|]. cbn. lia.
Qed.

Lemma fork_map_root : single_root fork_map.
Proof.
  assert (G : forall i, stored fork_map i -> bi_nHeight i = 0 -> i = fork_index 1 0 None).
  { intros i S Hi. unfold stored, fork_map in S. apply lookup_insert_Some in S as [[_ <-]|[_ S]]; [done|].
    apply lookup_insert_Some in S as [[_ <-]|[_ S]]; [done|]. apply lookup_insert_Some in S as [[_ <-]|[_ S]]; done. }
  intros i j Si Sj Hi Hj. by rewrite (G i Si Hi), (G j Sj Hj).
Qed.

(** The block on each branch: a coinbase with one output, and with two. *)
Definition fork_disk (h : Z) : option CBlock :=
  if h =? 2 then Some (one_tx_block 1 60 [simple_coinbase [pay 1]]) else if h =? 3 then Some (one_tx_block 1 61 [simple_coinbase [pay 1; pay 2]]) else None.

Definition fork_coins (h : Z) : CoinMap := match fork_disk h with Some b => apply_txs (H := checksum_hashes) ∅ 1 (vtx b) | None => ∅ end.

Lemma fork_applied k b : k = 2 \/ k = 3 -> fork_disk k = Some b -> block_applied (H := checksum_hashes) ∅ 1 (vtx b) [] /\ Forall (tx_storable) (vtx b).
Proof.
  intros K E. assert (V : exists outs, vtx b = [simple_coinbase outs] /\ Forall (fun o => o = pay 1 \/ o = pay 2) outs /\ size outs <= 2).
  { destruct K as [-> | ->]; injection E as <-; [exists [pay 1]|exists [pay 1; pay 2]]; (split; [done|]; split; [repeat (apply Forall_cons; split; [auto|]); constructor|done]). }
  destruct V as (outs & -> & O & S). split.
  - split; [lia|by split; apply map_Forall_empty| |apply Forall_singleton; apply (Forall_impl _ _ _ O); by intros o [-> | ->]| |done].
    + split; [|done]. split; [done|apply NoDup_singleton|apply (Forall_impl _ _ _ O); by intros o [-> | ->]|intros n; apply lookup_empty].
    + by eexists _, [].
  - apply Forall_singleton. split; [apply (Forall_impl _ _ _ O)|cbn; lia|apply Forall_singleton; cbn; unfold op_ok, hash_ok; cbn; lia|constructor].
    intros o [-> | ->]; (split; [split; [cbn; lia|left; vm_compute; discriminate]|vm_compute; discriminate]).
Qed.

Lemma fork_branch k : k = 2 \/ k = 3 ->
  branch (H := checksum_hashes) (H1 := counting_tree) MAIN fork_map fork_disk (fun _ => Some []) (fork_index 1 0 None) (fork_index k 1 (Some 1)) ∅ (fork_coins k) [1].
Proof.
  intros K. assert (exists b, fork_disk k = Some b) as [b E] by (destruct K as [-> | ->]; by eexists). unfold fork_coins. rewrite E. destruct (fork_applied k b K E) as [A St].
  apply (branch_block MAIN fork_map fork_disk (fun _ => Some []) (fork_index 1 0 None) (fork_index 1 0 None) (fork_index k 1 (Some 1)) b [] ∅ ∅ []); [by apply branch_fork|by destruct K as [-> | ->]|done|done|done|done|done|constructor].
Qed.

Lemma add_outputs_all (P : COutPoint -> Coin -> Prop) txid h cb cs outs : forall i M, map_Forall P M ->
  (forall n o, o ∈ outs -> i <= n < i + size outs -> P {| op_hash := txid; op_n := n |} {| fCoinBase := cb; fCoinStake := cs; coin_out := o; coin_nHeight := u32 h |}) ->
  map_Forall P (add_outputs txid h cb cs i outs M).
Proof.
  induction outs as [|o outs IH]; intros i M A N; [done|]. rewrite size_cons in N. pose proof (size_nonneg outs). cbn [add_outputs]. apply IH.
  - destruct (is_stored _); [|done]. apply map_Forall_insert_2; [|done]. apply N; [left|lia].
  - intros n o' I Hn. apply N; [by right|lia].
Qed.

Lemma fork_good k : k = 2 \/ k = 3 -> map_Forall (fun o c => op_ok o /\ coin_ok c /\ IsSpent c = false) (fork_coins k).
Proof.
  intros K. assert (exists b, fork_disk k = Some b) as [b E] by (destruct K as [-> | ->]; by eexists). unfold fork_coins. rewrite E. destruct (fork_applied k b K E) as [A St].
  destruct (ba_coinbase _ _ _ _ A) as (cb & rest & Et & CB). assert (rest = []) as ->. { pose proof (block_shape _ _ _ _ A) as Sh. rewrite Et in Sh. destruct rest; [done|]. unfold size in Sh. cbn [List.length] in Sh. lia. }
  rewrite Et in *. apply Forall_singleton in St as [To Tc _ _]. cbn [apply_txs foldl]. unfold apply_tx. rewrite CB. apply add_outputs_all; [apply map_Forall_empty|].
  intros n o I Hn. rewrite Forall_forall in To. specialize (To o I). split; [|split].
  - split; [apply (txid_ok (H0 := checksum_sizes))|cbn; lia].
  - split; [done|]. cbn. rewrite uint_id; lia.
  - apply Z.eqb_neq. cbn. destruct To as [[? _] _]. lia.
Qed.

#[local] Existing Instances counting_tree flat_curve flat_curve_laws counting_format checksum_hashes checksum_sizes.

Lemma cache_between_storable old new : fork_coins old = ∅ \/ (old = 2 \/ old = 3) -> new = 2 \/ new = 3 -> storable (cache_to (fork_coins old) (fork_coins new) new).
Proof.
  intros O N. apply cache_to_storable; [destruct O as [-> | O]; [apply map_Forall_empty|]| |lia]; eapply map_Forall_impl; try (by apply fork_good); cbn; tauto.
Qed.

(** The database at the old tip, and the batches that move it to the new one. *)
Definition fork_db : LevelDB := written ∅ (default [] (db_Flush 1000000 ∅ (cache_to ∅ (fork_coins 2) 2))).
Definition fork_batches : list (list db_write) := default [] (db_Flush 0 fork_db (cache_to (fork_coins 2) (fork_coins 3) 3)).

Lemma fork_db_completed : completed fork_db 2 (fork_coins 2).
Proof.
  destruct (flush_between ∅ (cache_to ∅ (fork_coins 2) 2) 0 (fork_index 2 1 (Some 1)) ∅ (fork_coins 2) [] 1000000) as (batches & E & C & _).
  - split; [done|by intros _| |done]. intros o. left. unfold db_coin. cbn [v_GetCoin db_view]. unfold db_GetCoin, db_Read. rewrite lookup_empty. by destruct (op_okb o).
  - unfold hash_ok. lia.
  - apply (cache_between_storable 0 2); auto.
  - done.
  - apply cache_to_denotes; [intros o; unfold db_coin; cbn [v_GetCoin db_view]; unfold db_GetCoin, db_Read; rewrite lookup_empty; by destruct (op_okb o)|].
    eapply map_Forall_impl; [apply fork_good; auto|]. cbn. tauto.
  - unfold fork_db. by rewrite E.
Qed.

Lemma crash_recovery_witness : exists batches,
  ReplayBlocks (CreateChainParams MAIN) fork_map (fun _ => false) fork_disk (fun _ => Some []) 0 (crashed fork_db fork_batches 2) = Some (true, batches) /\
  db_GetHeadBlocks (crashed fork_db fork_batches 2) = [3; 2] /\ completed (written (crashed fork_db fork_batches 2) batches) 3 (fork_coins 3).
Proof.
  destruct (crash_recovery MAIN fork_map (fun _ => false) fork_disk (fun _ => Some []) fork_db (cache_to (fork_coins 2) (fork_coins 3) 3) 2 (fork_index 3 1 (Some 1)) (fork_coins 2) (fork_coins 3) [1]
    fork_map_wf fork_map_root) with (d1 := crashed fork_db fork_batches 2) (bs := 0) as (batches & E & C).
  - split; [|unfold hash_ok; lia|unfold hash_ok; cbn; lia]. exists (fork_index 1 0 None), ∅, [1]. split; [apply fork_branch; auto|]. right. exists (fork_index 2 1 (Some 1)).
    split; [done|]. split; [apply fork_branch; auto|]. split; [|split]; [by vm_compute|by vm_compute|]. intros i [[_ L] A] [_ B]. cbn in L. cbn. destruct (decide (bi_nHeight i = 1)) as [E|]; [|lia].
    rewrite E in A, B. vm_compute in A, B. congruence.
  - apply fork_db_completed.
  - vm_compute. split; [done|]. split; [by left|done].
  - apply (cache_between_storable 2 3); auto.
  - done.
  - apply cache_to_denotes; [apply fork_db_completed|]. eapply map_Forall_impl; [apply fork_good; auto|]. cbn. tauto.
  - apply (crash_flush _ _ _ _ _ _ _ 0); [vm_compute; reflexivity|vm_compute; lia].
  - exists batches. split; [exact E|]. split; [vm_compute; reflexivity|exact C].
Defined.

(** *** Shielded data *)

(** Rolling forward touches nothing but coins: the nullifiers and the tree of
    the replayed blocks are not recorded again. *)
Lemma rollforward_shielded `{HashFunctions, SaplingTree} (p : CChainParams) (invalid : COutPoint -> bool) disk (base : CCoinsView) i v v' :
  RollforwardBlock p invalid disk base i v = Some (Some v') -> anchors_kept base v v' /\ nullifiers_kept base v v'.
Proof.
  intros E. assert (C : forall R, CoinClosed base R -> R v v').
  { intros R CR. unfold RollforwardBlock in E. destruct (disk (phashBlock i)) as [block|]; [|done]. destruct (SkipInvalidUTXOS p (bi_nHeight i)) as [skip|]; [|done]. cbn [mbind option_bind] in E.
    destruct (RollforwardTxs _ _ _ _ _ _) as [v1|] eqn:T; [|done]. injection E as <-. revert v v1 T. induction (vtx block) as [|tx txs IH]; intros v v1 T; [by injection T as <-|]. cbn [RollforwardTxs] in T.
    destruct (AddCoins base _ _ _ _ _ _) as [v2|] eqn:A; [|done]. apply IH in T. etrans; [|exact T]. apply (AddCoins_updates base invalid R) in A. etrans; [|exact A].
    destruct (negb (IsCoinBase tx)); [|done]. destruct (SpendInputs base v (vin tx)) as [cs v3] eqn:S. by apply (SpendInputs_updates base R) in S. }
  split; apply C; apply _.
Qed.

(** A block that spends the shielded note with nullifier 5. *)
Definition shielded_spend : CTransaction := {|
  vin := []; vout := [pay 1]; tx_nVersion := 3; nType := 0; nLockTime := 0;
  sapData := Some {| valueBalance := 1; vShieldedSpend := [{| sd_cv := 0; sd_anchor := 1; sd_nullifier := 5; sd_rk := 0; sd_zkproof := []; sd_spendAuthSig := [] |}];
                     vShieldedOutput := []; bindingSig := replicate 64 0 |};
  extraPayload := None |}.
Definition shielded_block : CBlock := one_tx_block 1 60 [simple_coinbase [pay 1]; shielded_spend].

(** Connecting it records the nullifier, and so does the flush.  When that
    flush was interrupted, the recovery ends with the coins of the block but
    without its nullifier: the note can be spent again. *)
Example replay_forgets_nullifier :
  let written_by v := match db_Flush 0 ∅ v with Some batches => written ∅ batches | None => ∅ end in
  let interrupted v := match db_Flush 0 ∅ v with Some batches => crashed ∅ batches 1 | None => ∅ end in
  exists v1 v2 batches, AddCoins (db_view ∅) new_cache (fun _ => false) (simple_coinbase [pay 1]) 1 false false = Some v1 /\
    UpdateCoins (db_view ∅) (fun _ => false) shielded_spend v1 1 false = Some ([], v2) /\
    db_GetNullifier (written_by (SetBestBlock v2 2)) 5 = true /\
    (let d := interrupted (SetBestBlock v2 2) in
     ReplayBlocks (CreateChainParams MAIN) fork_map (fun _ => false) (fun _ => Some shielded_block) (fun _ => None) 0 d = Some (true, batches) /\
     db_GetBestBlock (written d batches) = 2 /\ db_GetNullifier (written d batches) 5 = false).
Proof.
  intros w i. subst w i. eexists _, _, _. split; [vm_compute; reflexivity|]. split; [vm_compute; reflexivity|]. split; [vm_compute; reflexivity|].
  split; [vm_compute; reflexivity|]. split; vm_compute; reflexivity.
Qed.
