(* ===== verification/Activate.v ===== *)
(** * Choosing the best chain

    [FindMostWorkChain], [ConnectTip], [DisconnectTip],
    [ActivateBestChainStep] and [ActivateBestChain] of validation.cpp: which
    chain the node follows, and that the choice comes to an end.

    The tree of block indexes does not change here; the words that do
    ([nStatus]) are kept beside it, by block hash.  Blocks on disk are a
    parameter, undo data written by [ConnectBlock] are kept in the state.  The
    memory pool, the notifications, the warnings and the flushes to disk are
    left out; nobody asks for a shutdown. *)

From S2P Require Import Prelude Params Crypto Serialize Script Transaction Superblock ValidationState Chain Coins.
From S2P Require Import TxVerify Interpreter Stake CheckBlock Connect Supply.

(** ** Runs

    A run answers, fails an assertion or follows a null pointer in the code of
    this file, dies in the checks of a block, in [ConnectBlock],
    [DisconnectBlock] or in a flush of the coins (which returns [true] or
    throws), or is cut off. *)

Inductive run (A : Type) :=
  | Return (a : A)
  | AssertFailed
  | Crashed
  | OutOfFuel.
Arguments Return {_} _.
Arguments AssertFailed {_}.
Arguments Crashed {_}.
Arguments OutOfFuel {_}.

#[export] Instance run_bind : MBind run := fun A B k r =>
  match r with Return a => k a | AssertFailed => AssertFailed | Crashed => Crashed | OutOfFuel => OutOfFuel end.

(** A pointer that is followed. *)
Definition deref {A} (o : option A) : run A := match o with Some a => Return a | None => AssertFailed end.

Definition require {A} (b : bool) (k : run A) : run A := if b then k else AssertFailed.

Definition BLOCK_FAILED_CHILD : Z := 64.

(** What activation changes. *)
Record ActivationState `{SaplingTree} := {
  st_status : gmap Z Z;
  st_candidates : gset Z;
  st_active : CChain;
  st_coins : CCoinsViewCache;
  st_undo : gmap Z CBlockUndo;
  st_best_invalid : option CBlockIndex;
  st_unlinked : list (option Z * Z)
}.

(** [true], a block that breaks a rule, or an error of the system. *)
Inductive TipResult := TipOk | TipInvalid (state : CValidationState) | TipError.

Section Activate.
Context `{HashFunctions, Ecdsa, SaplingTree} (p : CChainParams) (env : NodeEnv) (m : BlockMap) (base : CCoinsView).
Context (invalid : COutPoint -> bool) (threads : bool).

(** The blocks on disk; the order in which they were received; the addresses
    of their indexes. *)
Context (ReadBlockFromDisk : Z -> option CBlock) (nSequenceId addr : Z -> Z).

Definition status (s : ActivationState) (i : CBlockIndex) : Z := default 0 (st_status s !! phashBlock i).

Definition set_status (s : ActivationState) (i : CBlockIndex) (n : Z) : ActivationState := {|
  st_status := <[phashBlock i := n]> (st_status s); st_candidates := st_candidates s; st_active := st_active s;
  st_coins := st_coins s; st_undo := st_undo s; st_best_invalid := st_best_invalid s; st_unlinked := st_unlinked s
|}.

Definition set_candidates (s : ActivationState) (c : gset Z) : ActivationState := {|
  st_status := st_status s; st_candidates := c; st_active := st_active s;
  st_coins := st_coins s; st_undo := st_undo s; st_best_invalid := st_best_invalid s; st_unlinked := st_unlinked s
|}.

Definition set_best_invalid (s : ActivationState) (i : CBlockIndex) : ActivationState := {|
  st_status := st_status s; st_candidates := st_candidates s; st_active := st_active s;
  st_coins := st_coins s; st_undo := st_undo s; st_best_invalid := Some i; st_unlinked := st_unlinked s
|}.

Definition add_unlinked (s : ActivationState) (i : CBlockIndex) : ActivationState := {|
  st_status := st_status s; st_candidates := st_candidates s; st_active := st_active s;
  st_coins := st_coins s; st_undo := st_undo s; st_best_invalid := st_best_invalid s;
  st_unlinked := st_unlinked s ++ [(pprev i, phashBlock i)]
|}.

Definition set_chain (s : ActivationState) (coins : CCoinsViewCache) (active : CChain) : ActivationState := {|
  st_status := st_status s; st_candidates := st_candidates s; st_active := active;
  st_coins := coins; st_undo := st_undo s; st_best_invalid := st_best_invalid s; st_unlinked := st_unlinked s
|}.

Definition set_undo (s : ActivationState) (i : CBlockIndex) (undo : CBlockUndo) : ActivationState := {|
  st_status := st_status s; st_candidates := st_candidates s; st_active := st_active s;
  st_coins := st_coins s; st_undo := <[phashBlock i := undo]> (st_undo s);
  st_best_invalid := st_best_invalid s; st_unlinked := st_unlinked s
|}.

Definition erase (s : ActivationState) (i : CBlockIndex) : ActivationState :=
  set_candidates s (st_candidates s ∖ {[phashBlock i]}).

(** The index as [ConnectBlock] finds it. *)
Definition current (s : ActivationState) (i : CBlockIndex) : CBlockIndex :=
  with_totals i (vStakeModifier i) (nFlags i) (nTimeMax i) (nChainWork i) (status s i).

Definition active_tip (s : ActivationState) : option CBlockIndex := k ← chain_Tip (st_active s); m !! k.

(** The block that the coins of the node are at. *)
Definition coins_best (s : ActivationState) : Z := fst (GetBestBlock base (st_coins s)).

(** *** CBlockIndexWorkComparator *)

Definition worse (a b : CBlockIndex) : bool :=
  if nChainWork b <? nChainWork a then false
  else if nChainWork a <? nChainWork b then true
  else if nSequenceId (phashBlock a) <? nSequenceId (phashBlock b) then false
  else if nSequenceId (phashBlock b) <? nSequenceId (phashBlock a) then true
  else addr (phashBlock b) <? addr (phashBlock a).

(** *** FindMostWorkChain *)

Definition better (i : CBlockIndex) (b : option CBlockIndex) : option CBlockIndex :=
  match b with None => Some i | Some j => if worse j i then Some i else Some j end.

(** [setBlockIndexCandidates.rbegin()]: the last in the order. *)
Definition best_candidate (s : ActivationState) : option CBlockIndex :=
  foldr better None (omap (fun k => m !! k) (elements (st_candidates s))).

Definition failed (s : ActivationState) (i : CBlockIndex) : bool := negb (Z.land (status s i) BLOCK_FAILED_MASK =? 0).
Definition missing (s : ActivationState) (i : CBlockIndex) : bool := Z.land (status s i) BLOCK_HAVE_DATA =? 0.

(** The first block on the way down to the active chain that cannot be used,
    and whether it has failed. *)
Fixpoint find_bad (fuel : nat) (s : ActivationState) (pindexTest : CBlockIndex) : run (option (CBlockIndex * bool)) :=
  match fuel with
  | O => OutOfFuel
  | S fuel =>
      if Contains (st_active s) pindexTest then Return None
      else
        require (negb (nChainTx pindexTest =? 0) || (bi_nHeight pindexTest =? 0)) (
        if failed s pindexTest || missing s pindexTest then Return (Some (pindexTest, failed s pindexTest))
        else match parent m pindexTest with None => Return None | Some prev => find_bad fuel s prev end)
  end.

(** The candidate and the blocks below it, down to [pindexTest], leave the set. *)
Fixpoint drop_chain (fuel : nat) (fFailedChain : bool) (pindexTest pindexFailed : CBlockIndex) (s : ActivationState)
  : run ActivationState :=
  match fuel with
  | O => OutOfFuel
  | S fuel =>
      if phashBlock pindexTest =? phashBlock pindexFailed then Return (erase s pindexTest)
      else
        let s := if fFailedChain then set_status s pindexFailed (Z.lor (status s pindexFailed) BLOCK_FAILED_CHILD)
                 else add_unlinked s pindexFailed in
        prev ← deref (parent m pindexFailed);
        drop_chain fuel fFailedChain pindexTest prev (erase s pindexFailed)
  end.

(** [pindexBestInvalid] is the invalid block with the most work. *)
Definition note_invalid (s : ActivationState) (i : CBlockIndex) : ActivationState :=
  match st_best_invalid s with
  | Some b => if nChainWork b <? nChainWork i then set_best_invalid s i else s
  | None => set_best_invalid s i
  end.

Fixpoint FindMostWorkChain (fuel : nat) (s : ActivationState) : run (option CBlockIndex * ActivationState) :=
  match fuel with
  | O => OutOfFuel
  | S fuel =>
      match best_candidate s with
      | None => Return (None, s)
      | Some pindexNew =>
          bad ← find_bad (S (Z.to_nat (bi_nHeight pindexNew))) s pindexNew;
          match bad with
          | None => Return (Some pindexNew, s)
          | Some (pindexTest, fFailedChain) =>
              let s := if (fFailedChain : bool) then note_invalid s pindexNew else s in
              s ← drop_chain (S (Z.to_nat (bi_nHeight pindexNew))) fFailedChain pindexTest pindexNew s;
              FindMostWorkChain fuel s
          end
      end
  end.

(** *** The tip *)

Definition InvalidChainFound (s : ActivationState) (i : CBlockIndex) : run ActivationState :=
  let s := note_invalid s i in
  _ ← deref (active_tip s); Return s.

Definition InvalidBlockFound (s : ActivationState) (i : CBlockIndex) (state : CValidationState) : run ActivationState :=
  if corruptionPossible state then Return s
  else InvalidChainFound (erase (set_status s i (Z.lor (status s i) BLOCK_FAILED_VALID)) i) i.

(** The block of a height of the active chain. *)
Definition active_block (s : ActivationState) (h : Z) : option CBlock := k ← chain_at (st_active s) h; ReadBlockFromDisk k.

(** [UpdateTip]: the new tip, and the chain below it. *)
Definition UpdateTip (s : ActivationState) (coins : CCoinsViewCache) (i : option CBlockIndex) : run ActivationState :=
  pindexNew ← deref i;
  active ← deref (SetTip m (st_active s) (Some pindexNew));
  Return (set_chain s coins active).

(** [pblock] is the block, if it is at hand, and its [fChecked]. *)
Definition ConnectTip (pindexNew : CBlockIndex) (pblock : option (CBlock * bool)) (s : ActivationState)
  : run (TipResult * ActivationState) :=
  require (bool_decide (pprev pindexNew = chain_Tip (st_active s))) (
  match (match pblock with Some b => Some b | None => b ← ReadBlockFromDisk (phashBlock pindexNew); Some (b, false) end) with
  | None => Return (TipError, s)
  | Some (block, fChecked) =>
      match ConnectBlock p env m (st_active s) (cache_view base (st_coins s)) invalid (active_block s) threads block fChecked
              (current s pindexNew) new_cache false with
      | Aborted => Crashed
      | Failed state =>
          if bool_decide (mode state = MODE_INVALID)
          then s ← InvalidBlockFound s pindexNew state; Return (TipInvalid state, s)
          else Return (TipError, s)
      | Valid (view, undo, newStatus) =>
          match Flush (st_coins s) view with
          | None => Crashed
          | Some (coins, _) =>
              let s := if Z.land (status s pindexNew) BLOCK_HAVE_UNDO =? 0 then set_undo s pindexNew undo else s in
              s ← UpdateTip (set_status s pindexNew newStatus) coins (Some pindexNew);
              Return (TipOk, s)
          end
      end
  end).

Definition DisconnectTip (s : ActivationState) : run (bool * ActivationState) :=
  pindexDelete ← deref (active_tip s);
  match ReadBlockFromDisk (phashBlock pindexDelete) with
  | None => Return (false, s)
  | Some block =>
      let view := cache_view base (st_coins s) in
      let '(best, v) := GetBestBlock view new_cache in
      require (best =? phashBlock pindexDelete) (
      match DisconnectBlock p m view block pindexDelete v (st_undo s !! phashBlock pindexDelete) with
      | None => Crashed
      | Some (DISCONNECT_OK, v) =>
          match Flush (st_coins s) v with
          | None => Crashed
          | Some (coins, _) => s ← UpdateTip s coins (parent m pindexDelete); Return (true, s)
          end
      | Some _ => Return (false, s)
      end)
  end.

(** Everything before the tip in the order leaves the set. *)
Definition not_worse (tip : CBlockIndex) (k : Z) : bool :=
  match m !! k with Some i => negb (worse i tip) | None => true end.

Definition PruneBlockIndexCandidates (s : ActivationState) : run ActivationState :=
  tip ← deref (active_tip s);
  let c := filter (fun k => not_worse tip k = true) (st_candidates s) in
  require (negb (bool_decide (c = ∅))) (Return (set_candidates s c)).

(** *** ActivateBestChainStep *)

(** Active blocks above the fork are disconnected. *)
Fixpoint disconnect_to (fuel : nat) (fork : option CBlockIndex) (s : ActivationState) : run (bool * ActivationState) :=
  match fuel with
  | O => OutOfFuel
  | S fuel =>
      if bool_decide (chain_Tip (st_active s) = None) || bool_decide (chain_Tip (st_active s) = phashBlock <$> fork)
      then Return (true, s)
      else
        '(ok, s) ← DisconnectTip s;
        if (ok : bool) then disconnect_to fuel fork s else Return (false, s)
  end.

(** The blocks to connect, from a height down to another. *)
Fixpoint to_connect (fuel : nat) (nHeight : Z) (pindexIter : option CBlockIndex) : list CBlockIndex :=
  match fuel, pindexIter with
  | S fuel, Some i => if bi_nHeight i =? nHeight then [] else i :: to_connect fuel nHeight (parent m i)
  | _, _ => []
  end.

(** How a batch ends: all connected; better off than before; a block that
    breaks a rule; an error of the system. *)
Inductive BatchResult := BatchDone | BatchBetter | BatchInvalid | BatchError.

Fixpoint connect_batch (pindexMostWork : CBlockIndex) (front : option CBlockIndex) (pblock : option (CBlock * bool)) (pindexOldTip : option CBlockIndex)
    (l : list CBlockIndex) (s : ActivationState) : run (BatchResult * ActivationState) :=
  match l with
  | [] => Return (BatchDone, s)
  | i :: l =>
      '(r, s) ← ConnectTip i (if phashBlock i =? phashBlock pindexMostWork then pblock else None) s;
      match r with
      | TipError => Return (BatchError, s)
      | TipInvalid state =>
          s ← (if corruptionPossible state then Return s else f ← deref front; InvalidChainFound s f);
          Return (BatchInvalid, s)
      | TipOk =>
          s ← PruneBlockIndexCandidates s;
          tip ← deref (active_tip s);
          if (match pindexOldTip with None => true | Some old => nChainWork old <? nChainWork tip end)
          then Return (BatchBetter, s)
          else connect_batch pindexMostWork front pblock pindexOldTip l s
      end
  end.

Fixpoint connect_batches (fuel : nat) (pindexMostWork : CBlockIndex) (pblock : option (CBlock * bool))
    (pindexOldTip : option CBlockIndex) (nHeight : Z) (s : ActivationState) : run (BatchResult * ActivationState) :=
  match fuel with
  | O => OutOfFuel
  | S fuel =>
      if nHeight =? bi_nHeight pindexMostWork then Return (BatchDone, s)
      else
        let nTargetHeight := Z.min (nHeight + 32) (bi_nHeight pindexMostWork) in
        pindexIter ← deref (GetAncestor m pindexMostWork nTargetHeight);
        let vpindexToConnect := to_connect (S (Z.to_nat (nTargetHeight + 1))) nHeight pindexIter in
        '(r, s) ← connect_batch pindexMostWork (head vpindexToConnect) pblock pindexOldTip (reverse vpindexToConnect) s;
        match r with
        | BatchDone => connect_batches fuel pindexMostWork pblock pindexOldTip nTargetHeight s
        | _ => Return (r, s)
        end
  end.

(** The answer, [fInvalidFound] and the state. *)
Definition ActivateBestChainStep (pindexMostWork : CBlockIndex) (pblock : option (CBlock * bool)) (s : ActivationState)
  : run (bool * bool * ActivationState) :=
  let pindexOldTip := active_tip s in
  pindexFork ← deref (FindFork m (st_active s) (Some pindexMostWork));
  '(ok, s) ← disconnect_to (S (List.length (st_active s))) pindexFork s;
  if negb ok then Return (false, false, s)
  else
    let nHeight := match pindexFork with Some f => bi_nHeight f | None => -1 end in
    '(r, s) ← connect_batches (S (Z.to_nat (bi_nHeight pindexMostWork - nHeight))) pindexMostWork pblock pindexOldTip nHeight s;
    Return (match r with
            | BatchError => (false, false)
            | BatchInvalid => (true, true)
            | _ => (true, false)
            end, s).

(** *** ActivateBestChain *)

(** One turn of the inner loop per unit of fuel.  [pindexMostWork] is carried
    from one turn to the next; [starting_tip] and [blocks_connected] belong to
    the current turn of the outer loop. *)
Fixpoint activate (fuel : nat) (pblock : option (CBlock * bool)) (pindexMostWork starting_tip : option CBlockIndex)
    (blocks_connected : bool) (s : ActivationState) : run (bool * ActivationState) :=
  match fuel with
  | O => OutOfFuel
  | S fuel =>
      '(mw, s) ← (match pindexMostWork with
                  | Some i => Return (Some i, s)
                  | None => FindMostWorkChain (S (List.length (elements (st_candidates s)))) s
                  end);
      match mw with
      | Some most =>
          if bool_decide (Some (phashBlock most) = chain_Tip (st_active s)) then Return (true, s)
          else
            '(ok, fInvalidFound, s) ← ActivateBestChainStep most
                (match pblock with
                 | Some b => if CBlockHeader_GetHash (fst b) =? phashBlock most then pblock else None
                 | None => None
                 end) s;
            if negb ok then Return (false, s)
            else
              let mw := if (fInvalidFound : bool) then None else Some most in
              let tip := active_tip s in
              if match tip, starting_tip with
                 | None, _ => true
                 | Some t, Some start => worse t start
                 | Some _, None => false
                 end
              then activate fuel pblock mw starting_tip true s
              else if bool_decide (phashBlock <$> mw = chain_Tip (st_active s)) then Return (true, s)
              else activate fuel pblock mw tip false s
      | None =>
          if blocks_connected && negb (bool_decide (chain_Tip (st_active s) = None))
          then activate fuel pblock None (active_tip s) false s
          else Return (true, s)
      end
  end.

Definition ActivateBestChain (fuel : nat) (pblock : option (CBlock * bool)) (s : ActivationState) : run (bool * ActivationState) :=
  activate fuel pblock None (active_tip s) false s.

End Activate.

(** ** ConnectBlock blames no block that may be corrupt *)

Definition clean_failure {A} (r : Result A) : Prop :=
  match r with Failed st => mode st = MODE_INVALID -> corruptionPossible st = false | _ => True end.

Lemma clean_bind {A B} (r : Result A) (k : A -> Result B) :
  clean_failure r -> (forall a, clean_failure (k a)) -> clean_failure (r ≫= k).
Proof. destruct r; cbn; auto. Qed.

Lemma clean_reject {A} b level reason (k : Result A) : clean_failure k -> clean_failure (reject_if b level reason k).
Proof. by destruct b. Qed.

Lemma clean_of_option {A} (o : option A) : clean_failure (of_option o).
Proof. by destruct o. Qed.

Ltac clean :=
  repeat first
    [ exact I | reflexivity | assumption
    | apply clean_reject | apply clean_of_option | apply clean_bind; [|intros ?]
    | match goal with |- clean_failure (DoS _ _ _ false) => by intros _ end
    | match goal with |- clean_failure (match ?x with _ => _ end) => destruct x eqn:? end ].

Section Clean.
Context `{HashFunctions, Ecdsa, SaplingTree} (p : CChainParams) (env : NodeEnv) (m : BlockMap) (chain : CChain) (base : CCoinsView).
Context (invalid : COutPoint -> bool).

Lemma CheckTxInputs_loop_clean h ins : forall v n, clean_failure (CheckTxInputs_loop p base h ins v n).
Proof. induction ins as [|i ins IH]; intros v n; cbn [CheckTxInputs_loop]; clean; apply IH. Qed.

Lemma CheckTxInputs_clean tx v h : clean_failure (CheckTxInputs p base tx v h).
Proof. unfold CheckTxInputs. clean. apply CheckTxInputs_loop_clean. Qed.

Lemma CheckScripts_clean q tx flags ins : forall i v, clean_failure (CheckScripts base q tx flags ins i v).
Proof. induction ins as [|j ins IH]; intros i v; cbn [CheckScripts]; clean; [unfold check_input; clean|apply IH]. Qed.

Lemma CheckInputs_clean tx v scripts flags q : clean_failure (CheckInputs p m base tx v scripts flags q).
Proof. unfold CheckInputs. clean; [apply CheckTxInputs_clean|apply CheckScripts_clean]. Qed.

Lemma ConnectTx_clean f h i tx s : clean_failure (ConnectTx p env m base invalid f h i tx s).
Proof.
  unfold ConnectTx. clean.
  - unfold ConnectTx_inputs. clean.
  - unfold ConnectTx_amounts. clean. apply CheckInputs_clean.
Qed.

Lemma ConnectTxs_clean f h txs : forall i s, clean_failure (ConnectTxs p env m base invalid f h i txs s).
Proof.
  induction txs as [|tx txs IH]; intros i s; cbn [ConnectTxs]; [done|]. apply clean_bind; [apply ConnectTx_clean|]. intros. apply IH.
Qed.

Lemma ConnectBlock_clean blocks threads block fChecked pindex v just :
  clean_failure (ConnectBlock p env m chain base invalid blocks threads block fChecked pindex v just).
Proof.
  unfold ConnectBlock. apply clean_bind.
  { destruct (CheckBlock _ _ _ _ _ _ _ _ _) as [|st|]; [done| |done].
    destruct (corruptionPossible st) eqn:E; [intros X; discriminate X|by intros _]. }
  intros _. destruct (GetBestBlock base v) as [best v1]. clean; try apply ConnectTxs_clean;
    unfold ConnectHeader, CheckSuperblock, CheckMint; clean.
Qed.

End Clean.

(** ** The order of the candidates *)

Section Order.
Context (nSequenceId addr : Z -> Z).

Lemma worse_irrefl i : worse nSequenceId addr i i = false.
Proof. unfold worse. by rewrite !Z.ltb_irrefl. Qed.

(** What is not worse than something not worse is not worse. *)
Lemma worse_neg_trans a b c : worse nSequenceId addr a b = false -> worse nSequenceId addr b c = false -> worse nSequenceId addr a c = false.
Proof. unfold worse. repeat case Z.ltb_spec; done || lia. Qed.

Lemma worse_asym a b : worse nSequenceId addr a b = true -> worse nSequenceId addr b a = false.
Proof. unfold worse. repeat case Z.ltb_spec; done || lia. Qed.

Lemma best_maximal l b :
  foldr (better nSequenceId addr) None l = Some b -> b ∈ l /\ forall i, i ∈ l -> worse nSequenceId addr b i = false.
Proof.
  revert b. induction l as [|x l IH]; intros b E; cbn [foldr] in E; [done|].
  destruct (foldr (better nSequenceId addr) None l) as [c|] eqn:F; cbn [better] in E.
  - destruct (IH c eq_refl) as [I M]. destruct (worse nSequenceId addr c x) eqn:C; injection E as <-.
    + split; [by left|]. intros i [->|J]%elem_of_cons; [apply worse_irrefl|].
      apply (worse_neg_trans _ c); [by apply worse_asym|by apply M].
    + split; [by right|]. intros i [->|J]%elem_of_cons; [done|by apply M].
  - injection E as <-. assert (l = []) as -> by (destruct l as [|y l]; [done|]; cbn in F; by destruct (foldr _ _ l) as [z|]; cbn in F; [destruct (worse _ _ z y)|]).
    split; [by left|]. intros i [->|J]%elem_of_cons; [apply worse_irrefl|by apply elem_of_nil in J].
Qed.

Lemma best_none l : foldr (better nSequenceId addr) None l = None -> l = [].
Proof. destruct l as [|y l]; [done|]. cbn. destruct (foldr _ _ l) as [z|]; cbn; [by destruct (worse _ _ z y)|done]. Qed.

End Order.

(** ** States that are in order *)

Section Live.
Context `{HashFunctions, Ecdsa, SaplingTree} (p : CChainParams) (env : NodeEnv) (m : BlockMap) (base : CCoinsView).
Context (invalid : COutPoint -> bool) (threads : bool).
Context (ReadBlockFromDisk : Z -> option CBlock) (nSequenceId addr : Z -> Z).
Context (W : tree_wf m) (Root : single_root m).

(** Every block adds work. *)
Context (Work : forall i q, stored m i -> parent m i = Some q -> nChainWork q < nChainWork i).

Abbreviation not_worse_than := (fun b i => worse nSequenceId addr b i = false).

(** All blocks up to [i] have been received. *)
Definition linked (i : CBlockIndex) : Prop := forall a, is_ancestor m a i -> nChainTx a <> 0 \/ bi_nHeight a = 0.

Record node_ok (s : ActivationState) (tip : CBlockIndex) : Prop := {
  ok_chain : is_chain m (st_active s) tip;
  ok_best : coins_best base s = phashBlock tip;
  ok_candidates : forall k, k ∈ st_candidates s -> exists i, m !! k = Some i /\ linked i;
  ok_tip : linked tip;
  ok_good : forall a, is_ancestor m a tip -> failed s a = false
}.

(** The same node but for candidates that are gone and blocks that have failed. *)
Record shrinks (s s' : ActivationState) : Prop := {
  shrinks_candidates : st_candidates s' ⊆ st_candidates s;
  shrinks_failed : forall a, failed s a = true -> failed s' a = true
}.

#[local] Instance shrinks_preorder : PreOrder shrinks.
Proof. split; [done|]. intros a b c [C1 F1] [C2 F2]. split; [set_solver|auto]. Qed.

Lemma stored_key k i : m !! k = Some i -> stored m i /\ phashBlock i = k.
Proof. intros L. destruct (W k i L) as [E _]. unfold stored. by rewrite E. Qed.

Lemma active_tip_ok s tip : is_chain m (st_active s) tip ->
  chain_Tip (st_active s) = Some (phashBlock tip) /\ active_tip m s = Some tip.
Proof.
  intros (ST & L & A). specialize (A tip (is_ancestor_refl m W tip ST)). unfold on_chain in A. pose proof (stored_height m W tip ST).
  assert (E : chain_Tip (st_active s) = Some (phashBlock tip)).
  { unfold chain_Tip. rewrite last_lookup. unfold size in L. by replace (pred _) with (Z.to_nat (bi_nHeight tip)) by lia. }
  split; [done|]. unfold active_tip. rewrite E. apply ST.
Qed.

Lemma is_ancestor_work a i : stored m i -> is_ancestor m a i -> a = i \/ nChainWork a < nChainWork i.
Proof.
  intros S. remember (Z.to_nat (bi_nHeight i)) as n eqn:E. revert i S E. induction n as [n IH] using lt_wf_ind.
  intros i S -> A. destruct (decide (bi_nHeight a = bi_nHeight i)) as [Eh|Nh].
  { left. destruct A as [_ A]. rewrite Eh, ancestor_self in A. congruence. }
  right. destruct (A) as [L _]. destruct (stored_parent m W i S) as (q & P & HP & SQ); [lia|].
  assert (AQ : is_ancestor m a q) by (apply (is_ancestor_below m W a i q); [done..|congruence]).
  pose proof (Work i q S P). destruct (IH (Z.to_nat (bi_nHeight q)) ltac:(lia) q SQ eq_refl AQ) as [->|]; lia.
Qed.

Lemma ancestor_not_worse a i : stored m i -> is_ancestor m a i -> worse nSequenceId addr i a = false.
Proof.
  intros S A. destruct (is_ancestor_work a i S A) as [->|L]; [apply worse_irrefl|].
  unfold worse. by rewrite (proj2 (Z.ltb_lt _ _) L).
Qed.

(** *** FindMostWorkChain *)

(** No block between the active chain and [i] has failed. *)
Definition path_clean (s : ActivationState) (tip i : CBlockIndex) : Prop :=
  forall a, is_ancestor m a i -> ~ is_ancestor m a tip -> failed s a = false.

Lemma linked_ancestor a i : stored m i -> linked i -> is_ancestor m a i -> linked a.
Proof. intros S L A b B. apply L. by eapply is_ancestor_trans. Qed.

Lemma find_bad_spec s tip fuel : is_chain m (st_active s) tip -> forall i,
  stored m i -> linked i -> (Z.to_nat (bi_nHeight i) < fuel)%nat ->
  (find_bad m fuel s i = Return None /\ path_clean s tip i) \/
  (exists t b, find_bad m fuel s i = Return (Some (t, b)) /\ is_ancestor m t i /\ ~ is_ancestor m t tip).
Proof.
  intros CH. induction fuel as [|fuel IH]; intros i S L F; [lia|]. cbn [find_bad].
  pose proof (Contains_spec m W _ tip i CH S) as CS. destruct (Contains (st_active s) i).
  { left. split; [done|]. intros a A NA. destruct NA. apply (is_ancestor_trans m W a i tip); [apply CH|done|by apply CS]. }
  pose proof (is_ancestor_refl m W i S) as Rf.
  assert (Q : negb (nChainTx i =? 0) || (bi_nHeight i =? 0) = true).
  { destruct (L i Rf) as [E|E]; [by rewrite (proj2 (Z.eqb_neq _ _) E)|rewrite E; apply orb_true_r]. }
  rewrite Q. cbn [require].
  assert (NT : ~ is_ancestor m i tip) by (intros X; by apply CS in X).
  destruct (failed s i) eqn:Fi; cbn [orb]; [right; by eexists _, _|].
  destruct (missing s i); [right; by eexists _, _|]. pose proof (stored_height m W i S).
  destruct (decide (bi_nHeight i = 0)) as [Z0|NZ].
  { rewrite (stored_root m W i S Z0). left. split; [done|]. intros a [La A] _.
    assert (E : bi_nHeight a = bi_nHeight i) by lia. rewrite E, ancestor_self in A. by injection A as <-. }
  destruct (stored_parent m W i S) as (q & P & HP & SQ); [lia|]. rewrite P.
  pose proof (is_ancestor_parent m W i q S P) as AQ.
  destruct (IH q SQ (linked_ancestor q i S L AQ) ltac:(lia)) as [[E C]|(t & b & E & A & NA)].
  - left. split; [done|]. intros a A NA. destruct (decide (phashBlock a = phashBlock i)) as [Eh|Nh].
    + assert (a = i) as -> by (apply (stored_inj m); [by apply (is_ancestor_stored m W a i)|done..]). done.
    + apply C; [|done]. apply (is_ancestor_below m W a i q); [done..|congruence].
  - right. exists t, b. split; [done|]. split; [by apply (is_ancestor_trans m W t q i)|done].
Qed.

(** Setting bits of the status of a block undoes no failure. *)
Lemma failed_set_status s i n a :
  failed (set_status s i n) a = if decide (phashBlock a = phashBlock i) then negb (Z.land n BLOCK_FAILED_MASK =? 0) else failed s a.
Proof.
  unfold failed, status. cbn. destruct (decide (phashBlock a = phashBlock i)) as [->|N].
  - by rewrite lookup_insert_eq.
  - by rewrite lookup_insert_ne by congruence.
Qed.

(** A block is marked. *)
Lemma failed_mark s i bit a : Z.land bit BLOCK_FAILED_MASK <> 0 ->
  failed (erase (set_status s i (Z.lor (status s i) bit)) i) a = if decide (phashBlock a = phashBlock i) then true else failed s a.
Proof.
  intros B. change (failed (set_status s i (Z.lor (status s i) bit)) a = if decide (phashBlock a = phashBlock i) then true else failed s a).
  rewrite failed_set_status. destruct (decide _); [|done]. rewrite Z.land_lor_distr_l. apply negb_true_iff, Z.eqb_neq.
  intros X. by apply Z.lor_eq_0_iff in X as [_ X].
Qed.

Lemma set_status_shrinks s i n : shrinks s (set_status s i (Z.lor (status s i) n)).
Proof.
  split; [done|]. intros a F. rewrite failed_set_status. destruct (decide _) as [E|]; [|done].
  unfold failed, status in *. rewrite <- E. apply negb_true_iff, Z.eqb_neq. apply negb_true_iff, Z.eqb_neq in F.
  rewrite Z.land_lor_distr_l. intros X. apply F. by apply Z.lor_eq_0_iff in X as [-> _].
Qed.

Lemma erase_shrinks s i : shrinks s (erase s i).
Proof. split; [cbn; set_solver|done]. Qed.

Lemma note_invalid_same s i : let s' := note_invalid s i in
  st_status s' = st_status s /\ st_candidates s' = st_candidates s /\ st_active s' = st_active s.
Proof. unfold note_invalid. destruct (st_best_invalid s) as [b|]; [destruct (_ <? _)|]; done. Qed.

Lemma note_invalid_coins s i : st_coins (note_invalid s i) = st_coins s.
Proof. unfold note_invalid. destruct (st_best_invalid s) as [b|]; [destruct (_ <? _)|]; done. Qed.

Lemma drop_chain_coins b t fuel : forall f s s', drop_chain m fuel b t f s = Return s' -> st_coins s' = st_coins s.
Proof.
  induction fuel as [|fuel IH]; intros f s s'; cbn [drop_chain]; [done|]. destruct (_ =? _); [by intros [= <-]|].
  destruct (parent m f) as [q|]; [|done]. cbn [deref mbind run_bind]. intros ->%IH. by destruct b.
Qed.

Lemma note_invalid_shrinks s i : shrinks s (note_invalid s i).
Proof. destruct (note_invalid_same s i) as (S & C & _). split; [by rewrite C|]. intros a. unfold failed, status. by rewrite S. Qed.

Lemma drop_chain_spec b t fuel : forall f s,
  stored m f -> is_ancestor m t f -> (Z.to_nat (bi_nHeight f - bi_nHeight t) < fuel)%nat ->
  exists s', drop_chain m fuel b t f s = Return s' /\ shrinks s s' /\ st_active s' = st_active s /\ (phashBlock f ∉ st_candidates s') /\
    (forall a, stored m a -> failed s a = false -> failed s' a = true -> is_ancestor m t a).
Proof.
  induction fuel as [|fuel IH]; intros f s S A F; [lia|]. cbn [drop_chain].
  destruct (Z.eqb_spec (phashBlock t) (phashBlock f)) as [E|N].
  { exists (erase s t). split; [done|]. split; [apply erase_shrinks|]. split; [done|]. split; [rewrite <- E; cbn; set_solver|].
    intros a _ X Y. unfold failed, status in *. cbn in *. congruence. }
  destruct (A) as [L _]. assert (bi_nHeight t <> bi_nHeight f).
  { intros X. destruct A as [_ A]. rewrite X, ancestor_self in A. congruence. }
  destruct (stored_parent m W f S) as (q & P & HP & SQ); [lia|]. rewrite P. cbn [deref mbind run_bind].
  set (s1 := if b then set_status s f (Z.lor (status s f) BLOCK_FAILED_CHILD) else add_unlinked s f).
  assert (S1 : shrinks s s1) by (unfold s1; destruct b; [apply set_status_shrinks|done]).
  assert (A1 : st_active s1 = st_active s) by (unfold s1; by destruct b).
  destruct (IH q (erase s1 f) SQ) as (s' & E & Sh & Ac & NI & New); [apply (is_ancestor_below m W t f q); [done..|congruence]|lia|].
  exists s'. split; [done|]. split; [etrans; [exact S1|]; etrans; [apply erase_shrinks|done]|]. split; [by rewrite Ac|]. split.
  { intros I. apply (shrinks_candidates _ _ Sh) in I. cbn in I. set_solver. }
  intros a SA X Y. destruct (failed (erase s1 f) a) eqn:Z1; [|by apply New].
  unfold s1 in Z1. destruct b; [|by unfold failed, status in *; cbn in *; congruence].
  assert (Z2 : failed (set_status s f (Z.lor (status s f) BLOCK_FAILED_CHILD)) a = true) by done.
  rewrite failed_set_status in Z2. destruct (decide _) as [Eh|]; [|congruence]. by rewrite (stored_inj m a f SA S Eh).
Qed.

(** Candidates in order. *)
Lemma candidates_elements s tip i : node_ok s tip ->
  i ∈ omap (fun k => m !! k) (elements (st_candidates s)) <-> phashBlock i ∈ st_candidates s /\ stored m i.
Proof.
  intros O. rewrite list_elem_of_omap. setoid_rewrite elem_of_elements. split.
  - intros (k & I & L). apply stored_key in L as [S <-]. done.
  - intros [I S]. by exists (phashBlock i).
Qed.

(** What [FindMostWorkChain] looks for: a candidate that no candidate beats,
    with no failed block on the way to it. *)
Definition is_best (s : ActivationState) (tip i : CBlockIndex) : Prop :=
  stored m i /\ linked i /\ phashBlock i ∈ st_candidates s /\ path_clean s tip i /\
  forall j, stored m j -> phashBlock j ∈ st_candidates s -> worse nSequenceId addr i j = false.

Lemma FindMostWorkChain_spec tip fuel : forall s,
  node_ok s tip -> (List.length (elements (st_candidates s)) < fuel)%nat ->
  exists r s', FindMostWorkChain m nSequenceId addr fuel s = Return (r, s') /\ node_ok s' tip /\ shrinks s s' /\
    st_active s' = st_active s /\
    match r with Some i => is_best s' tip i | None => st_candidates s' = ∅ end.
Proof.
  induction fuel as [|fuel IH]; intros s O F; [lia|]. cbn [FindMostWorkChain].
  destruct (best_candidate m nSequenceId addr s) as [b|] eqn:B.
  2: { exists None, s. split; [done|]. split; [done|]. split; [done|]. split; [done|]. apply best_none in B.
       apply elem_of_equiv_empty_L. intros k I. destruct (ok_candidates _ _ O k I) as (i & L & _). apply stored_key in L as [S <-].
       assert (X : i ∈ omap (fun k => m !! k) (elements (st_candidates s))) by by apply (candidates_elements s tip).
       rewrite B in X. by apply elem_of_nil in X. }
  apply best_maximal in B as [I Max]. apply (candidates_elements s tip b O) in I as [I Sb].
  destruct (ok_candidates _ _ O _ I) as (b' & Lb & Lk). assert (b' = b) as -> by (unfold stored in Sb; congruence).
  pose proof (stored_height m W b Sb).
  destruct (find_bad_spec s tip (S (Z.to_nat (bi_nHeight b))) (ok_chain _ _ O) b Sb Lk ltac:(lia)) as [[-> PC]|(t & fl & -> & A & NA)];
    cbn [mbind run_bind].
  { exists (Some b), s. split; [done|]. split; [done|]. split; [done|]. split; [done|]. split; [done|]. split; [done|]. split; [done|].
    split; [done|]. intros j Sj Ij. apply Max. by apply (candidates_elements s tip). }
  set (s1 := if fl then note_invalid s b else s).
  assert (E1 : st_status s1 = st_status s /\ st_candidates s1 = st_candidates s /\ st_active s1 = st_active s)
    by (unfold s1; destruct fl; [apply note_invalid_same|done]).
  destruct E1 as (ES & EC & EA). destruct (A) as [LA _].
  destruct (drop_chain_spec fl t (S (Z.to_nat (bi_nHeight b))) b s1 Sb A ltac:(lia)) as (s2 & Dr & Sh & Ac & NI & New).
  rewrite Dr. apply drop_chain_coins in Dr. cbn [mbind run_bind].
  assert (Sh0 : shrinks s s2).
  { split; [rewrite <- EC; apply Sh|]. intros a Fa. apply (shrinks_failed _ _ Sh). unfold failed, status in *. by rewrite ES. }
  destruct (IH s2) as (r & s' & -> & O' & Sh' & Ac' & Post).
  - split; [rewrite Ac, EA; apply O| | | |].
    + unfold coins_best. rewrite Dr. unfold s1. destruct fl; [rewrite note_invalid_coins|]; apply O.
    + intros k Ik. apply (ok_candidates _ _ O). by apply (shrinks_candidates _ _ Sh0).
    + apply O.
    + intros a Aa. destruct (failed s2 a) eqn:Fa; [|done]. destruct NA.
      assert (Sa : stored m a) by (apply (is_ancestor_stored m W a tip); [apply O|done]).
      apply (is_ancestor_trans m W t a tip); [apply O| |done]. apply New; [done| |done].
      pose proof (ok_good _ _ O a Aa) as G. unfold failed, status in *. by rewrite ES.
  - apply (Nat.lt_le_trans _ (List.length (elements (st_candidates s)))); [|lia].
    assert (X : (base.size (st_candidates s2) < base.size (st_candidates s))%nat); [|exact X].
    apply subset_size. split; [apply Sh0|]. intros Y. apply NI. by apply Y.
  - exists r, s'. split; [done|]. split; [done|]. split; [by etrans|]. split; [by rewrite Ac', Ac, EA|done].
Qed.

(** *** Moving the tip *)

(** Connecting keeps the failure bits. *)
Lemma RaiseValidity_failed k u : Z.land u BLOCK_FAILED_MASK = 0 ->
  Z.land (snd (RaiseValidity k u)) BLOCK_FAILED_MASK = Z.land k BLOCK_FAILED_MASK.
Proof.
  intros U. unfold RaiseValidity. destruct (negb _); [done|]. destruct (_ <? _); [|done]. cbn [snd].
  by rewrite Z.land_lor_distr_l, <- Z.land_assoc, U, Z.lor_0_r.
Qed.

Lemma connected_status_failed n : Z.land (connected_status n) BLOCK_FAILED_MASK = Z.land n BLOCK_FAILED_MASK.
Proof.
  unfold connected_status. destruct (_ || _); [|done]. rewrite RaiseValidity_failed by done. destruct (_ =? 0); [|done].
  rewrite Z.land_lor_distr_l. change (Z.land BLOCK_HAVE_UNDO BLOCK_FAILED_MASK) with 0. apply Z.lor_0_r.
Qed.

Lemma ConnectBlock_status chain view blocks block fChecked pindex v r :
  ConnectBlock p env m chain view invalid blocks threads block fChecked pindex v false = Valid r ->
  snd r = nStatus pindex \/ snd r = connected_status (nStatus pindex).
Proof.
  unfold ConnectBlock. intros R. valid_inv R. destruct (GetBestBlock view v) as [best v1]. destruct (negb _) in R; [done|].
  valid_inv R. destruct (_ =? _) in R; [injection R as <-; by left|]. valid_inv R.
  destruct (GetBestAnchor view v1) as [anchor v2]. destruct (GetSaplingAnchorAt view v2 anchor) as [tree v3]. valid_inv R.
  injection R as <-. by right.
Qed.

Lemma ConnectBlock_best chain view blocks block fChecked pindex v r :
  ConnectBlock p env m chain view invalid blocks threads block fChecked pindex v false = Valid r -> hashBlock (fst (fst r)) = phashBlock pindex.
Proof.
  unfold ConnectBlock. intros R. valid_inv R. destruct (GetBestBlock view v) as [best v1]. destruct (negb _) in R; [done|].
  valid_inv R. destruct (_ =? _) in R; [by injection R as <-|]. valid_inv R.
  destruct (GetBestAnchor view v1) as [anchor v2]. destruct (GetSaplingAnchorAt view v2 anchor) as [tree v3]. valid_inv R.
  by injection R as <-.
Qed.

Lemma DisconnectBlock_best view block pindex v undo v' q : parent m pindex = Some q ->
  DisconnectBlock p m view block pindex v undo = Some (DISCONNECT_OK, v') -> hashBlock v' = phashBlock q.
Proof.
  intros P. unfold DisconnectBlock. destruct undo as [undo|]; [|done]. rewrite P. cbn [mbind option_bind]. destruct (negb _); [done|].
  destruct (DisconnectTxs _ _ _ _) as [[[clean|] v1]|]; [|done..]. cbn [mbind option_bind].
  destruct (NetworkUpgradeActive _ _ _) as [v5|]; [|done]. cbn [mbind option_bind]. destruct (PopAnchor _ _ _) as [v2|]; [|done]. cbn [mbind option_bind].
  destruct clean; by intros [= <-].
Qed.

(** What is flushed brings the coins to its own block. *)
Lemma flushed_best s coins v em k : Flush (st_coins s) v = Some (coins, em) -> hashBlock v = k -> k <> 0 -> forall x, st_coins x = coins -> coins_best base x = k.
Proof.
  unfold Flush. intros (c & E & [= <- _])%bind_Some_inv <- NZ x Ex. apply bind_Some_inv in E as (l & _ & [= <-]). unfold coins_best, GetBestBlock. rewrite Ex. cbn.
  by destruct (Z.eqb_spec (hashBlock v) 0).
Qed.

Lemma stored_nonzero i : stored m i -> phashBlock i <> 0.
Proof. intros S. by destruct (W _ _ S) as (_ & NZ & _). Qed.

Lemma child_facts s tip i : is_chain m (st_active s) tip -> stored m i -> parent m i = Some tip ->
  pprev i = chain_Tip (st_active s) /\ ~ is_ancestor m i tip /\ is_ancestor m tip i.
Proof.
  intros CH S P. destruct (active_tip_ok s tip CH) as [-> _]. split; [|split].
  - unfold parent in P. destruct (pprev i) as [k|]; [|done]. cbn in P. apply stored_key in P as [_ <-]. done.
  - intros [L _]. destruct (stored_parent m W i S) as (q & P' & HP & _); [|assert (q = tip) as -> by congruence; lia].
    pose proof (stored_height m W i S). destruct (decide (bi_nHeight i = 0)) as [Z0|]; [|lia].
    by rewrite (stored_root m W i S Z0) in P.
  - by apply is_ancestor_parent.
Qed.

Lemma InvalidChainFound_ok s tip i : node_ok s tip ->
  exists s', InvalidChainFound m s i = Return s' /\ node_ok s' tip /\ shrinks s s' /\ st_active s' = st_active s /\
    st_candidates s' = st_candidates s /\ forall a, failed s' a = failed s a.
Proof.
  intros O. destruct (note_invalid_same s i) as (ES & EC & EA). unfold InvalidChainFound.
  assert (CH : is_chain m (st_active (note_invalid s i)) tip) by (rewrite EA; apply O).
  destruct (active_tip_ok _ _ CH) as [_ ->]. exists (note_invalid s i). split; [done|].
  assert (F : forall a, failed (note_invalid s i) a = failed s a) by (intros a; unfold failed, status; by rewrite ES).
  split; [|split; [apply note_invalid_shrinks|done]].
  split; [done|unfold coins_best; rewrite note_invalid_coins; apply O|rewrite EC; apply O|apply O|]. intros a A. rewrite F. by apply O.
Qed.

(** [ConnectTip] on a child of the tip: it becomes the tip, or it has failed. *)
Lemma ConnectTip_spec s tip i pblock :
  node_ok s tip -> stored m i -> linked i -> parent m i = Some tip -> failed s i = false ->
  match ConnectTip p env m base invalid threads ReadBlockFromDisk i pblock s with
  | Return (TipOk, s') => node_ok s' i /\ st_candidates s' = st_candidates s /\ forall a, failed s' a = failed s a
  | Return (TipInvalid st, s') => node_ok s' tip /\ shrinks s s' /\ failed s' i = true /\ corruptionPossible st = false
  | Return (TipError, s') => s' = s
  | Crashed => True
  | AssertFailed | OutOfFuel => False
  end.
Proof.
  intros O S Lk P F. destruct (child_facts s tip i (ok_chain _ _ O) S P) as (E & NA & A). unfold ConnectTip.
  rewrite bool_decide_eq_true_2 by done. cbn [require].
  destruct (match pblock with Some b => Some b | None => _ end) as [[block fChecked]|]; [|done].
  pose proof (ConnectBlock_clean p env m (st_active s) (cache_view base (st_coins s)) invalid (active_block ReadBlockFromDisk s)
    threads block fChecked (current s i) new_cache false) as Cl.
  pose proof (ConnectBlock_status (st_active s) (cache_view base (st_coins s)) (active_block ReadBlockFromDisk s) block fChecked
    (current s i) new_cache) as St.
  pose proof (ConnectBlock_best (st_active s) (cache_view base (st_coins s)) (active_block ReadBlockFromDisk s) block fChecked
    (current s i) new_cache) as Bs.
  destruct (ConnectBlock _ _ _ _ _ _ _ _ _ _ _ _ _) as [[[view undo] n]|st|]; [| |done].
  - destruct (Flush (st_coins s) view) as [[coins em]|] eqn:Fl; [|done]. specialize (St _ eq_refl). cbn [snd] in St. specialize (Bs _ eq_refl). cbn [fst] in Bs.
    assert (StF : Z.land n BLOCK_FAILED_MASK = Z.land (nStatus (current s i)) BLOCK_FAILED_MASK)
      by (destruct St as [->| ->]; [done|apply connected_status_failed]).
    set (s1 := if _ =? 0 then set_undo s i undo else s). unfold UpdateTip.
    assert (Act : st_active s1 = st_active s) by (unfold s1; by destruct (_ =? 0)).
    destruct (SetTip_spec m W (st_active s) tip i (ok_chain _ _ O) S) as (v' & EV & CH').
    cbn [deref mbind run_bind set_status st_active]. rewrite Act, EV. cbn [deref mbind run_bind].
    assert (FF : forall a, failed (set_chain (set_status s1 i n) coins v') a = failed s a).
    { intros a. change (failed (set_status s1 i n) a = failed s a). rewrite failed_set_status.
      destruct (decide _) as [Eh|_]; [|unfold s1; by destruct (_ =? 0)]. unfold failed, status. rewrite Eh, StF. done. }
    split; [|split; [unfold s1; by destruct (_ =? 0)|exact FF]]. split; [done|by apply (flushed_best s coins view em (phashBlock i) Fl Bs); [apply stored_nonzero|]| |done|].
    + intros k I. apply (ok_candidates _ _ O). unfold s1 in I. by destruct (_ =? 0).
    + intros a Aa. rewrite FF. destruct (decide (phashBlock a = phashBlock i)) as [Eh|Nh].
      * unfold failed, status in *. by rewrite Eh.
      * apply (ok_good _ _ O). apply (is_ancestor_below m W a i tip); [done..|congruence].
  - case_bool_decide as Md; [|done]. specialize (Cl Md). unfold InvalidBlockFound. rewrite Cl.
    set (s1 := erase _ i).
    assert (F1 : forall a, failed s1 a = if decide (phashBlock a = phashBlock i) then true else failed s a).
    { intros a. by apply failed_mark. }
    assert (O1 : node_ok s1 tip).
    { split; [apply O|apply O|intros k I; apply (ok_candidates _ _ O); cbn in I; set_solver|apply O|]. intros a Aa. rewrite F1.
      destruct (decide _) as [Eh|]; [|by apply O]. destruct NA.
      by rewrite <- (stored_inj m a i (is_ancestor_stored m W a tip (proj1 (ok_chain _ _ O)) Aa) S Eh). }
    destruct (InvalidChainFound_ok s1 tip i O1) as (s' & -> & O' & Sh & _ & _ & FF). cbn [mbind run_bind].
    split; [done|]. split; [|split; [|done]].
    + etrans; [|exact Sh]. split; [cbn; set_solver|]. intros a Fa. rewrite F1. by destruct (decide _).
    + rewrite FF, F1. by destruct (decide _).
Qed.

Lemma DisconnectTip_chain s tip q :
  is_chain m (st_active s) tip -> coins_best base s = phashBlock tip -> parent m tip = Some q ->
  match DisconnectTip p m base ReadBlockFromDisk s with
  | Return (true, s') => is_chain m (st_active s') q /\ coins_best base s' = phashBlock q /\ st_candidates s' = st_candidates s /\ st_status s' = st_status s
  | Return (false, s') => s' = s
  | Crashed => True
  | AssertFailed | OutOfFuel => False
  end.
Proof.
  intros CH Best P. destruct (active_tip_ok s tip CH) as [_ E]. unfold DisconnectTip. rewrite E. cbn [deref mbind run_bind].
  destruct (ReadBlockFromDisk (phashBlock tip)) as [block|]; [|done].
  unfold GetBestBlock at 1. cbn [new_cache hashBlock]. rewrite Z.eqb_refl. cbn [cache_view v_GetBestBlock]. fold (coins_best base s).
  rewrite Best, Z.eqb_refl. cbn [require].
  destruct (DisconnectBlock _ _ _ _ _ _ _) as [[[| |] v1]|] eqn:D; [|done..]. apply (DisconnectBlock_best _ _ _ _ _ _ q P) in D.
  destruct (Flush (st_coins s) v1) as [[coins em]|] eqn:Fl; [|done]. unfold UpdateTip. rewrite P. cbn [deref mbind run_bind].
  pose proof (parent_stored m W tip q P) as SQ.
  destruct (SetTip_spec m W (st_active s) tip q CH SQ) as (v' & -> & CH'). cbn [deref mbind run_bind]. split; [done|]. split; [|done].
  by apply (flushed_best s coins v1 em _ Fl D); [apply stored_nonzero|].
Qed.

Lemma DisconnectTip_spec s tip q :
  node_ok s tip -> parent m tip = Some q ->
  match DisconnectTip p m base ReadBlockFromDisk s with
  | Return (true, s') => node_ok s' q /\ st_candidates s' = st_candidates s /\ forall a, failed s' a = failed s a
  | Return (false, s') => s' = s
  | Crashed => True
  | AssertFailed | OutOfFuel => False
  end.
Proof.
  intros O P. pose proof (DisconnectTip_chain s tip q (ok_chain _ _ O) (ok_best _ _ O) P) as D. pose proof (proj1 (ok_chain _ _ O)) as ST.
  destruct (DisconnectTip _ _ _ _ s) as [[[] s']| | |]; try done. destruct D as (CH & Be & Ca & St).
  assert (F : forall a, failed s' a = failed s a) by (intros a; unfold failed, status; by rewrite St).
  pose proof (is_ancestor_parent m W tip q ST P) as AQ.
  split; [|done]. split; [done|done|rewrite Ca; apply O|exact (linked_ancestor q tip ST (ok_tip _ _ O) AQ)|].
  intros a A. rewrite F. apply (ok_good _ _ O). by apply (is_ancestor_trans m W a q tip).
Qed.

Lemma disconnect_to_spec c fuel : forall s tip,
  node_ok s tip -> is_ancestor m c tip -> (Z.to_nat (bi_nHeight tip - bi_nHeight c) < fuel)%nat ->
  match disconnect_to p m base ReadBlockFromDisk fuel (Some c) s with
  | Return (true, s') => node_ok s' c /\ st_candidates s' = st_candidates s /\ forall a, failed s' a = failed s a
  | Return (false, s') => (exists tip', node_ok s' tip') /\ shrinks s s'
  | Crashed => True
  | AssertFailed | OutOfFuel => False
  end.
Proof.
  induction fuel as [|fuel IH]; intros s tip O A F; [lia|]. cbn [disconnect_to].
  destruct (active_tip_ok s tip (ok_chain _ _ O)) as [-> _]. pose proof (proj1 (ok_chain _ _ O)) as ST.
  pose proof (is_ancestor_stored m W c tip ST A) as SC. rewrite bool_decide_eq_false_2 by done. cbn [orb fmap option_fmap option_map].
  case_bool_decide as Eh.
  { injection Eh as Eh. by rewrite <- (stored_inj m tip c ST SC Eh). }
  assert (Nh : tip <> c) by (intros ->; by apply Eh). destruct (A) as [L _].
  assert (bi_nHeight c <> bi_nHeight tip) by (intros X; destruct A as [_ A]; rewrite X, ancestor_self in A; congruence).
  destruct (stored_parent m W tip ST) as (q & P & HP & SQ); [lia|].
  pose proof (DisconnectTip_spec s tip q O P) as D. destruct (DisconnectTip _ _ _ _ s) as [[ok s1]| | |]; cbn [mbind run_bind]; try done.
  destruct ok; [|subst s1; split; [by exists tip|done]]. destruct D as (O1 & C1 & F1).
  specialize (IH s1 q O1 (is_ancestor_below m W c tip q ST P A (not_eq_sym Nh)) ltac:(lia)).
  destruct (disconnect_to _ _ _ _ _ _ _) as [[[] s2]| | |]; try done.
  - destruct IH as (O2 & C2 & F2). split; [done|]. split; [by rewrite C2|]. intros a. by rewrite F2.
  - destruct IH as [O2 [C2 F2]]. split; [done|]. split; [by rewrite <- C1|]. intros a Fa. apply F2. by rewrite F1.
Qed.

Lemma PruneBlockIndexCandidates_spec s tip w :
  node_ok s tip -> stored m w -> phashBlock w ∈ st_candidates s -> is_ancestor m tip w ->
  exists s', PruneBlockIndexCandidates m nSequenceId addr s = Return s' /\ node_ok s' tip /\
    st_candidates s' ⊆ st_candidates s /\ phashBlock w ∈ st_candidates s' /\ forall a, failed s' a = failed s a.
Proof.
  intros O SW I A. unfold PruneBlockIndexCandidates. destruct (active_tip_ok s tip (ok_chain _ _ O)) as [_ ->]. cbn [deref mbind run_bind].
  set (c := filter _ _).
  assert (IW : phashBlock w ∈ c).
  { unfold c. apply elem_of_filter. split; [|done]. unfold not_worse. rewrite SW. by rewrite (ancestor_not_worse tip w SW A). }
  rewrite bool_decide_eq_false_2 by (intros X; rewrite X in IW; set_solver). cbn [negb require].
  exists (set_candidates s c). assert (Sub : c ⊆ st_candidates s) by (unfold c; intros k [_ K]%elem_of_filter; done).
  split; [done|]. split; [|done]. split; [apply O|apply O| |apply O..]. intros k K. apply (ok_candidates _ _ O). by apply Sub.
Qed.

(** *** Batches *)

(** [l] goes up from [tip], block by block. *)
Fixpoint line (tip : CBlockIndex) (l : list CBlockIndex) : Prop :=
  match l with [] => True | i :: l => stored m i /\ parent m i = Some tip /\ line i l end.

(** The tip has moved on the way to [w]. *)
Record moved (s s' : ActivationState) (tip' w : CBlockIndex) : Prop := {
  moved_ok : node_ok s' tip';
  moved_candidates : st_candidates s' ⊆ st_candidates s;
  moved_target : phashBlock w ∈ st_candidates s';
  moved_failed : forall a, failed s' a = failed s a
}.

(** A block has been found invalid that was not known to be. *)
Definition found_invalid (s s' : ActivationState) : Prop :=
  (exists tip', node_ok s' tip') /\ shrinks s s' /\ exists i, stored m i /\ failed s i = false /\ failed s' i = true.

Lemma moved_trans s s1 s2 t1 t2 w : moved s s1 t1 w -> moved s1 s2 t2 w -> moved s s2 t2 w.
Proof. intros [_ C1 _ F1] [O2 C2 T2 F2]. split; [done|set_solver|done|]. intros a. by rewrite F2. Qed.

Lemma moved_shrinks s s' t w : moved s s' t w -> shrinks s s'.
Proof. intros [_ C _ F]. split; [done|]. intros a. by rewrite F. Qed.

Lemma moved_invalid s s1 s2 t1 w : moved s s1 t1 w -> found_invalid s1 s2 -> found_invalid s s2.
Proof.
  intros [_ C1 _ F1] (O2 & [C2 F2] & i & Si & N & Y). split; [done|]. split.
  - split; [set_solver|]. intros a Fa. apply F2. by rewrite F1.
  - exists i. split; [done|]. by rewrite <- F1.
Qed.

Lemma path_clean_moved s s' tip tip' w :
  stored m tip' -> is_ancestor m tip tip' -> (forall a, failed s' a = failed s a) -> path_clean s tip w -> path_clean s' tip' w.
Proof. intros S A F C a Aa NA. rewrite F. apply C; [done|]. intros X. apply NA. by apply (is_ancestor_trans m W a tip tip'). Qed.

Lemma connect_batch_spec w front pblock old l : stored m w -> forall s tip,
  node_ok s tip -> linked w -> phashBlock w ∈ st_candidates s -> path_clean s tip w -> line tip l ->
  Forall (fun i => is_ancestor m i w) l -> (l <> [] -> is_Some front) ->
  match connect_batch p env m base invalid threads ReadBlockFromDisk nSequenceId addr w front pblock old l s with
  | Return (BatchDone, s') => moved s s' (default tip (last l)) w
  | Return (BatchBetter, s') => exists tip', moved s s' tip' w /\ is_ancestor m tip' w /\ bi_nHeight tip < bi_nHeight tip'
  | Return (BatchInvalid, s') => found_invalid s s'
  | Return (BatchError, s') => (exists tip', node_ok s' tip') /\ shrinks s s'
  | Crashed => True
  | AssertFailed | OutOfFuel => False
  end.
Proof.
  intros SW. induction l as [|i l IH]; intros s tip O Lw IW C L A Fr; cbn [connect_batch]; [by split|].
  destruct L as (Si & P & L). apply Forall_cons in A as [Ai A].
  destruct (child_facts s tip i (ok_chain _ _ O) Si P) as (_ & NA & TA).
  pose proof (ConnectTip_spec s tip i (if phashBlock i =? phashBlock w then pblock else None) O Si
    (linked_ancestor i w SW Lw Ai) P (C i Ai NA)) as X.
  destruct (ConnectTip _ _ _ _ _ _ _ _ _ _) as [[[|st|] s1]| | |]; cbn [mbind run_bind]; try done.
  - destruct X as (O1 & C1 & F1). rewrite <- C1 in IW.
    destruct (PruneBlockIndexCandidates_spec s1 i w O1 SW IW Ai) as (s2 & -> & O2 & C2 & I2 & F2). cbn [mbind run_bind].
    destruct (active_tip_ok s2 i (ok_chain _ _ O2)) as [_ ->]. cbn [deref mbind run_bind].
    assert (Mv : moved s s2 i w) by (split; [done|by rewrite <- C1|done|intros a; by rewrite F2]).
    assert (Hi : bi_nHeight tip < bi_nHeight i).
    { destruct (stored_parent m W i Si) as (q & P' & HP & _); [|assert (q = tip) as -> by congruence; lia].
      pose proof (stored_height m W i Si). destruct (decide (bi_nHeight i = 0)) as [Z0|]; [|lia].
      by rewrite (stored_root m W i Si Z0) in P. }
    destruct (match old with Some o => _ | None => true end); [by exists i|].
    specialize (IH s2 i O2 Lw I2 (path_clean_moved s s2 tip i w Si TA (moved_failed _ _ _ _ Mv) C) L A).
    destruct (connect_batch _ _ _ _ _ _ _ _ _ _ _ _ _ _ _) as [[[] s3]| | |]; try done.
    + rewrite last_cons. destruct (last l) as [e|]; apply (moved_trans _ s2 _ i); try done; apply IH; intros; apply Fr; done.
    + destruct IH as (t' & Mv' & At & Ht); [intros; by apply Fr|]. exists t'. split; [by eapply moved_trans|]. split; [done|lia].
    + eapply moved_invalid; [exact Mv|]. apply IH. intros; by apply Fr.
    + destruct IH as [O3 Sh3]; [intros; by apply Fr|]. split; [done|]. etrans; [by apply (moved_shrinks s s2 i w)|done].
    + apply IH. intros; by apply Fr.
    + apply IH. intros; by apply Fr.
  - destruct X as (O1 & Sh1 & F1 & Cor). rewrite Cor. destruct Fr as [f ->]; [done|]. cbn [deref mbind run_bind].
    destruct (InvalidChainFound_ok s1 tip f O1) as (s2 & -> & O2 & Sh2 & _ & _ & F2). cbn [mbind run_bind].
    split; [by exists tip|]. split; [by etrans|]. exists i. split; [done|]. split; [by apply C|by rewrite F2].
  - subst s1. split; [by exists tip|done].
Qed.

(** The blocks of a batch. *)
Lemma line_snoc tip l x : line tip l -> stored m x -> parent m x = Some (default tip (last l)) -> line tip (l ++ [x]).
Proof.
  revert tip. induction l as [|i l IH]; intros tip L S P; [done|]. destruct L as (Si & Pi & L). cbn. split; [done|]. split; [done|].
  apply IH; try done. rewrite last_cons in P. by destruct (last l).
Qed.

Lemma to_connect_spec tip fuel : forall x, stored m x -> is_ancestor m tip x -> (Z.to_nat (bi_nHeight x - bi_nHeight tip) < fuel)%nat ->
  let l := to_connect m fuel (bi_nHeight tip) (Some x) in
  line tip (reverse l) /\ default tip (last (reverse l)) = x /\ Forall (fun i => is_ancestor m i x) l.
Proof.
  induction fuel as [|fuel IH]; intros x S A F; [lia|]. cbn [to_connect]. destruct (Z.eqb_spec (bi_nHeight x) (bi_nHeight tip)) as [E|N].
  { split; [done|]. destruct A as [_ A]. rewrite <- E, ancestor_self in A. injection A as ->. by split. }
  destruct (A) as [L _]. destruct (stored_parent m W x S) as (q & P & HP & SQ); [lia|]. rewrite P.
  pose proof (is_ancestor_parent m W x q S P) as Aq.
  destruct (IH q SQ) as (Ln & La & Fo); [by apply (is_ancestor_below m W tip x q); [..|congruence]|lia|].
  cbn zeta. rewrite reverse_cons, last_snoc. split; [|split; [done|]].
  - apply line_snoc; [done..|]. by rewrite La.
  - constructor; [by apply is_ancestor_refl|]. eapply Forall_impl; [exact Fo|]. intros i Ai. by apply (is_ancestor_trans m W i q x).
Qed.

Lemma connect_batches_spec w pblock old : stored m w -> forall fuel s tip,
  node_ok s tip -> linked w -> phashBlock w ∈ st_candidates s -> path_clean s tip w -> is_ancestor m tip w ->
  (Z.to_nat (bi_nHeight w - bi_nHeight tip) < fuel)%nat ->
  match connect_batches p env m base invalid threads ReadBlockFromDisk nSequenceId addr fuel w pblock old (bi_nHeight tip) s with
  | Return (BatchDone, s') => moved s s' w w
  | Return (BatchBetter, s') => exists tip', moved s s' tip' w /\ is_ancestor m tip' w /\ bi_nHeight tip < bi_nHeight tip'
  | Return (BatchInvalid, s') => found_invalid s s'
  | Return (BatchError, s') => (exists tip', node_ok s' tip') /\ shrinks s s'
  | Crashed => True
  | AssertFailed | OutOfFuel => False
  end.
Proof.
  intros SW. induction fuel as [|fuel IH]; intros s tip O Lw IW C A F; [lia|]. cbn [connect_batches]. destruct (A) as [L An].
  destruct (Z.eqb_spec (bi_nHeight tip) (bi_nHeight w)) as [E|N].
  { rewrite E, ancestor_self in An. injection An as ->. by split. }
  set (h := Z.min (bi_nHeight tip + 32) (bi_nHeight w)).
  destruct (ancestor_total m W w h SW) as (x & Ax & Sx & Hx); [lia|].
  rewrite GetAncestor_spec, bool_decide_true, Ax by (done || lia). cbn [deref mbind run_bind].
  assert (Xw : is_ancestor m x w) by (split; [lia|by rewrite Hx]).
  assert (Tx : is_ancestor m tip x) by (apply (is_ancestor_linear m W tip x w); [done..|lia]).
  destruct (to_connect_spec tip (S (Z.to_nat (h + 1))) x Sx Tx ltac:(lia)) as (Ln & La & Fo). cbn zeta in Ln, La, Fo.
  set (l := to_connect m (S (Z.to_nat (h + 1))) (bi_nHeight tip) (Some x)) in *.
  assert (Fw : Forall (fun i => is_ancestor m i w) (reverse l)).
  { apply Forall_reverse. eapply Forall_impl; [exact Fo|]. intros i Ai. by apply (is_ancestor_trans m W i x w). }
  pose proof (connect_batch_spec w (head l) pblock old (reverse l) SW s tip O Lw IW C Ln Fw) as B.
  assert (Hd : reverse l <> [] -> is_Some (head l)) by (intros Nr; destruct l; [by destruct Nr|done]).
  specialize (B Hd). destruct (connect_batch _ _ _ _ _ _ _ _ _ _ _ _ _ _ _) as [[[] s1]| | |]; cbn [mbind run_bind]; try done.
  rewrite La in B. pose proof B as [O1 C1 I1 F1]. rewrite <- Hx.
  specialize (IH s1 x O1 Lw I1 (path_clean_moved s s1 tip x w Sx Tx F1 C) Xw ltac:(lia)).
  destruct (connect_batches _ _ _ _ _ _ _ _ _ _ _ _ _ _ _) as [[[] s2]| | |]; try done.
  - by apply (moved_trans _ s1 _ x).
  - destruct IH as (t' & Mv & At & Ht). exists t'. split; [by eapply moved_trans|]. split; [done|lia].
  - by eapply moved_invalid.
  - destruct IH as [O2 Sh2]. split; [done|]. etrans; [by apply (moved_shrinks s s1 x w)|done].
Qed.

(** *** A step *)

Lemma ActivateBestChainStep_spec s tip w pblock :
  node_ok s tip -> is_best s tip w -> w <> tip ->
  match ActivateBestChainStep p env m base invalid threads ReadBlockFromDisk nSequenceId addr w pblock s with
  | Return (true, false, s') => exists tip', moved s s' tip' w /\ is_ancestor m tip' w /\
      (is_ancestor m tip w -> bi_nHeight tip < bi_nHeight tip')
  | Return (true, true, s') => found_invalid s s'
  | Return (false, _, s') => (exists tip', node_ok s' tip') /\ shrinks s s'
  | Crashed => True
  | AssertFailed | OutOfFuel => False
  end.
Proof.
  intros O (SW & Lk & IW & C & _) NW. unfold ActivateBestChainStep. pose proof (proj1 (ok_chain _ _ O)) as ST.
  destruct (FindFork_spec m W (st_active s) tip Root w (ok_chain _ _ O) SW) as (c & -> & (Cw & Ct & Cm)). cbn [deref mbind run_bind].
  pose proof (is_ancestor_stored m W c tip ST Ct) as SC. destruct (proj2 (ok_chain _ _ O)) as [Len _]. destruct (Ct) as [Lc _].
  pose proof (disconnect_to_spec c (S (List.length (st_active s))) s tip O Ct ltac:(unfold size in Len; lia)) as D.
  destruct (disconnect_to _ _ _ _ _ _ _) as [[[] s1]| | |]; cbn [mbind run_bind negb]; try done. destruct D as (O1 & C1 & F1).
  assert (PC : path_clean s1 c w).
  { intros a Aa Na. rewrite F1. apply C; [done|]. intros X. apply Na.
    apply (is_ancestor_linear m W a c w); [done..|]. by apply Cm. }
  rewrite <- C1 in IW. destruct (Cw) as [Lw _].
  pose proof (connect_batches_spec w pblock (active_tip m s) SW (S (Z.to_nat (bi_nHeight w - bi_nHeight c))) s1 c O1 Lk IW PC Cw ltac:(lia)) as B.
  assert (M1 : forall t s', moved s1 s' t w -> moved s s' t w).
  { intros t s' [? ? ? F']. split; [done|by rewrite <- C1|done|]. intros a. by rewrite F'. }
  assert (Up : is_ancestor m tip w -> c = tip).
  { intros At. apply (stored_inj m); [done..|]. assert (bi_nHeight tip <= bi_nHeight c) by (apply Cm; [done|by apply is_ancestor_refl]).
    destruct Ct as [_ Ct]. replace (bi_nHeight c) with (bi_nHeight tip) in Ct by lia. rewrite ancestor_self in Ct. congruence. }
  destruct (connect_batches _ _ _ _ _ _ _ _ _ _ _ _ _ _ _) as [[[] s2]| | |]; cbn [mbind run_bind]; try done.
  - exists w. split; [by apply M1|]. split; [by apply is_ancestor_refl|]. intros At. destruct (is_ancestor_work tip w SW At) as [->|_]; [done|].
    destruct At as [Lt At]. destruct (decide (bi_nHeight tip = bi_nHeight w)) as [E|]; [|lia].
    rewrite E, ancestor_self in At. by injection At as ->.
  - destruct B as (t' & Mv & At & Ht). exists t'. split; [by apply M1|]. split; [done|]. intros X. by rewrite (Up X) in Ht.
  - destruct B as (Ot & [C2 F2] & i & Si & Ni & Yi). split; [done|]. split.
    + split; [by rewrite <- C1|]. intros a Fa. apply F2. by rewrite F1.
    + exists i. split; [done|]. by rewrite <- F1.
  - destruct B as [Ot [C2 F2]]. split; [done|]. split; [by rewrite <- C1|]. intros a Fa. apply F2. by rewrite F1.
Qed.

(** *** The loop *)

(** How many blocks have not failed; the height of the tree. *)
Definition unfailed (s : ActivationState) : nat :=
  base.size (filter (fun k => Z.land (default 0 (st_status s !! k)) BLOCK_FAILED_MASK = 0) (dom m)).
Definition top_height : nat := foldr Nat.max 0%nat ((fun kv => Z.to_nat (bi_nHeight kv.2)) <$> map_to_list m).

Lemma foldr_max_ge (l : list nat) x : x ∈ l -> (x <= foldr Nat.max 0%nat l)%nat.
Proof. induction l as [|y l IH]; [by intros ?%elem_of_nil|]. intros [->|I]%elem_of_cons; cbn; [lia|]. apply IH in I. lia. Qed.

Lemma height_below_top i : stored m i -> bi_nHeight i <= Z.of_nat top_height.
Proof.
  intros S. assert (I : Z.to_nat (bi_nHeight i) ∈ (fun kv : Z * CBlockIndex => Z.to_nat (bi_nHeight kv.2)) <$> map_to_list m).
  { apply list_elem_of_fmap. exists (phashBlock i, i). split; [done|]. by apply elem_of_map_to_list. }
  apply foldr_max_ge in I. fold top_height in I. lia.
Qed.

Lemma failed_key s i : failed s i = false <-> Z.land (default 0 (st_status s !! phashBlock i)) BLOCK_FAILED_MASK = 0.
Proof. unfold failed, status. rewrite negb_false_iff. apply Z.eqb_eq. Qed.

Lemma unfailed_mono s s' : (forall a, stored m a -> failed s a = true -> failed s' a = true) -> (unfailed s' <= unfailed s)%nat.
Proof.
  intros F. unfold unfailed. apply subseteq_size. intros k [N D]%elem_of_filter. apply elem_of_filter. split; [|done].
  apply elem_of_dom in D as [i L]. apply stored_key in L as [S <-]. apply failed_key. apply failed_key in N.
  destruct (failed s i) eqn:X; [|done]. apply F in X; congruence.
Qed.

Lemma unfailed_found s s' : found_invalid s s' -> (unfailed s' < unfailed s)%nat.
Proof.
  intros (_ & [_ F] & i & S & N & Y). unfold unfailed. apply subset_size. split.
  - intros k [K D]%elem_of_filter. apply elem_of_filter. split; [|done]. apply elem_of_dom in D as [j L]. apply stored_key in L as [Sj <-].
    apply failed_key. apply failed_key in K. destruct (failed s j) eqn:X; [|done]. apply F in X. congruence.
  - intros Sub. assert (I : phashBlock i ∈ filter (fun k => Z.land (default 0 (st_status s' !! k)) BLOCK_FAILED_MASK = 0) (dom m)).
    { apply Sub. apply elem_of_filter. split; [by apply failed_key|]. apply elem_of_dom. by exists i. }
    apply elem_of_filter in I as [I _]. apply failed_key in I. congruence.
Qed.

(** An upper bound for the turns to come. *)
Definition budget (s : ActivationState) (tip : CBlockIndex) (mw : option CBlockIndex) (n : nat) : Prop :=
  let rounds := (unfailed s * (top_height + 3))%nat in
  match mw with
  | None => (rounds + top_height + 2 <= n)%nat
  | Some w => is_best s tip w /\
      ((rounds + top_height + 1 <= n)%nat \/ is_ancestor m tip w /\ (rounds + Z.to_nat (bi_nHeight w - bi_nHeight tip) <= n)%nat)
  end.

(** No candidate is better than the tip. *)
Definition settled (s : ActivationState) : Prop :=
  exists tip, node_ok s tip /\ forall j, stored m j -> phashBlock j ∈ st_candidates s -> worse nSequenceId addr tip j = false.

Lemma is_best_moved s s' tip tip' w : node_ok s tip -> moved s s' tip' w -> is_best s tip w -> is_best s' tip' w.
Proof.
  intros O [O' C T F] (S & L & _ & PC & Mx). split; [done|]. split; [done|]. split; [done|]. split.
  - intros a A NA. rewrite F. destruct (failed s a) eqn:Fa; [|done]. assert (Sa : stored m a) by by apply (is_ancestor_stored m W a w).
    pose proof (Contains_spec m W (st_active s) tip a (ok_chain _ _ O) Sa) as CS. destruct (Contains (st_active s) a).
    + rewrite <- Fa. apply (ok_good _ _ O). by apply CS.
    + rewrite <- Fa. apply PC; [done|]. intros X. by apply CS in X.
  - intros j Sj Ij. apply Mx; [done|]. by apply C.
Qed.

Lemma budget_found s s' tip tip' mw n : found_invalid s s' -> budget s tip mw (S n) -> budget s' tip' None n.
Proof.
  intros Fi B. apply unfailed_found in Fi. unfold budget in *.
  assert (X : (unfailed s' * (top_height + 3) + (top_height + 3) <= unfailed s * (top_height + 3))%nat) by nia.
  cbn zeta in *. revert X B. generalize (unfailed s' * (top_height + 3))%nat, (unfailed s * (top_height + 3))%nat.
  intros x y X B. destruct mw; [destruct B as [_ [B|[_ B]]]|]; lia.
Qed.

Lemma budget_moved s s' tip tip' w n : node_ok s tip -> moved s s' tip' w -> is_ancestor m tip' w ->
  (is_ancestor m tip w -> bi_nHeight tip < bi_nHeight tip') -> budget s tip (Some w) (S n) -> budget s' tip' (Some w) n.
Proof.
  intros O Mv A' Up [B D]. split; [by eapply is_best_moved|]. right. split; [done|].
  assert (U : (unfailed s' <= unfailed s)%nat) by (apply unfailed_mono; intros a _ Fa; by rewrite (moved_failed _ _ _ _ Mv)).
  assert (X : (unfailed s' * (top_height + 3) <= unfailed s * (top_height + 3))%nat) by nia.
  pose proof (height_below_top w (proj1 B)) as Hw. destruct A' as [L' _].
  revert X D. generalize (unfailed s' * (top_height + 3))%nat, (unfailed s * (top_height + 3))%nat. intros x y X D.
  destruct D as [D|[A D]]; [lia|]. specialize (Up A). lia.
Qed.

(** A turn that has something to do costs something. *)
Lemma budget_pos s tip w n : node_ok s tip -> w <> tip -> budget s tip (Some w) n -> exists n', n = S n'.
Proof.
  intros O N [(SW & _) D]. destruct n as [|n]; [|by exists n]. exfalso. destruct D as [D|[[L A] D]]; [lia|].
  apply N. assert (E : bi_nHeight tip = bi_nHeight w) by lia. rewrite E, ancestor_self in A. congruence.
Qed.

Lemma find_turn s tip mw n : node_ok s tip -> budget s tip mw n ->
  exists r s', (match mw with Some i => Return (Some i, s) | None => FindMostWorkChain m nSequenceId addr (S (List.length (elements (st_candidates s)))) s end)
      = Return (r, s') /\ node_ok s' tip /\ shrinks s s' /\
    match r with Some w => budget s' tip (Some w) n | None => st_candidates s' = ∅ /\ budget s' tip None n end.
Proof.
  intros O B. destruct mw as [w|]; [by exists (Some w), s|].
  destruct (FindMostWorkChain_spec tip (S (List.length (elements (st_candidates s)))) s O ltac:(lia)) as (r & s' & -> & O' & Sh & _ & Post).
  exists r, s'. split; [done|]. split; [done|]. split; [done|]. unfold budget in *. cbn zeta in *.
  assert (U : (unfailed s' <= unfailed s)%nat) by (apply unfailed_mono; intros a _; apply Sh).
  assert (X : (unfailed s' * (top_height + 3) <= unfailed s * (top_height + 3))%nat) by nia.
  revert X B. generalize (unfailed s' * (top_height + 3))%nat, (unfailed s * (top_height + 3))%nat. intros x y X B.
  destruct r as [w|]; [split; [done|left; lia]|split; [done|lia]].
Qed.

Lemma activate_spec pblock fuel : forall n s tip mw start connected,
  node_ok s tip -> budget s tip mw n -> (2 * n + (if (connected : bool) then 1 else 0) < fuel)%nat ->
  match activate p env m base invalid threads ReadBlockFromDisk nSequenceId addr fuel pblock mw start connected s with
  | Return (true, s') => settled s' /\ shrinks s s'
  | Return (false, s') => (exists tip', node_ok s' tip') /\ shrinks s s'
  | Crashed => True
  | AssertFailed | OutOfFuel => False
  end.
Proof.
  induction fuel as [|fuel IH]; intros n s tip mw start connected O B F; [lia|]. cbn [activate].
  destruct (find_turn s tip mw n O B) as (r & s0 & E & O0 & Sh0 & B0). rewrite E. cbn [mbind run_bind].
  destruct (active_tip_ok s0 tip (ok_chain _ _ O0)) as [Ek Et].
  assert (Go : forall n' s1 tip1 mw1 start1 c1, shrinks s s1 -> node_ok s1 tip1 -> budget s1 tip1 mw1 n' ->
    (2 * n' + (if (c1 : bool) then 1 else 0) < fuel)%nat ->
    match activate p env m base invalid threads ReadBlockFromDisk nSequenceId addr fuel pblock mw1 start1 c1 s1 with
    | Return (true, s') => settled s' /\ shrinks s s'
    | Return (false, s') => (exists tip', node_ok s' tip') /\ shrinks s s'
    | Crashed => True
    | AssertFailed | OutOfFuel => False
    end).
  { intros n' s1 tip1 mw1 start1 c1 Sh1 O1 B1 F1. specialize (IH n' s1 tip1 mw1 start1 c1 O1 B1 F1).
    destruct (activate _ _ _ _ _ _ _ _ _ _ _ _ _ _ _) as [[[] s']| | |]; try done; destruct IH as [St Sh]; (split; [done|by etrans]). }
  destruct r as [w|].
  - rewrite Ek. case_bool_decide as Ew.
    { injection Ew as Ew. destruct B0 as [(Sw & _ & _ & _ & Mx) _].
      assert (w = tip) as -> by (apply (stored_inj m); [done|apply O0|done]). split; [by exists tip|done]. }
    assert (Nw : w <> tip) by (intros ->; by apply Ew). destruct (budget_pos s0 tip w n O0 Nw B0) as [n' ->].
    pose proof (ActivateBestChainStep_spec s0 tip w (match pblock with Some b => if CBlockHeader_GetHash (fst b) =? phashBlock w then pblock else None
      | None => None end) O0 (proj1 B0) Nw) as St.
    destruct (ActivateBestChainStep _ _ _ _ _ _ _ _ _ _ _ _) as [[[ok inv] s1]| | |]; cbn [mbind run_bind]; try done.
    destruct ok; cbn [negb]; [|destruct St as [O1 Sh1]; split; [done|by etrans]]. destruct inv.
    + destruct (St) as ([tip1 O1] & Sh1 & _). destruct (active_tip_ok s1 tip1 (ok_chain _ _ O1)) as [Ek1 Et1].
      pose proof (budget_found s0 s1 tip tip1 (Some w) n' St B0) as B1. assert (Sh : shrinks s s1) by by etrans.
      rewrite Et1, Ek1. cbn [fmap option_fmap option_map]. rewrite bool_decide_eq_false_2 by done.
      destruct (match start with Some _ => _ | None => false end); (eapply Go; [done..|]); destruct connected; lia.
    + destruct St as (tip1 & Mv & A1 & Up). pose proof (moved_ok _ _ _ _ Mv) as O1.
      destruct (active_tip_ok s1 tip1 (ok_chain _ _ O1)) as [Ek1 Et1].
      pose proof (budget_moved s0 s1 tip tip1 w n' O0 Mv A1 Up B0) as B1.
      assert (Sh : shrinks s s1).
      { etrans; [exact Sh0|]. split; [apply Mv|]. intros a. by rewrite (moved_failed _ _ _ _ Mv). }
      rewrite Et1, Ek1. cbn [fmap option_fmap option_map].
      destruct (match start with Some _ => _ | None => false end); [eapply Go; [done..|]; destruct connected; lia|].
      case_bool_decide as Ew1; [|eapply Go; [done..|]; destruct connected; lia]. injection Ew1 as Ew1.
      destruct B1 as [(Sw & _ & _ & _ & Mx) _]. assert (w = tip1) as -> by (apply (stored_inj m); [done|apply O1|done]).
      split; [by exists tip1|done].
  - destruct B0 as [Em B0]. destruct connected; cbn [andb].
    + rewrite Ek, bool_decide_eq_false_2 by done. cbn [negb]. eapply Go; [exact Sh0|exact O0|exact B0|]. lia.
    + split; [|done]. exists tip. split; [done|]. intros j _ Ij. rewrite Em in Ij. set_solver.
Qed.

End Live.

(** ** What activation leaves alone

    Which blocks are on disk, how far each has been checked at least, and the
    list of blocks that wait for a parent: activation finds no candidate whose
    data are missing. *)

Section Frame.
Context `{HashFunctions, Ecdsa, SaplingTree} (p : CChainParams) (env : NodeEnv) (m : BlockMap) (base : CCoinsView).
Context (invalid : COutPoint -> bool) (threads : bool).
Context (ReadBlockFromDisk : Z -> option CBlock) (nSequenceId addr : Z -> Z).
Context (W : tree_wf m).

Definition tree_valid (s : ActivationState) (i : CBlockIndex) : Prop := BLOCK_VALID_TREE <= Z.land (status s i) BLOCK_VALID_MASK.

Record retains (s s' : ActivationState) : Prop := {
  retains_candidates : st_candidates s' ⊆ st_candidates s;
  retains_data : forall a, missing s' a = missing s a;
  retains_tree : forall a, tree_valid s a -> tree_valid s' a;
  retains_unlinked : st_unlinked s' = st_unlinked s
}.

#[export] Instance retains_preorder : PreOrder retains.
Proof. split; [done|]. intros a b c [C1 D1 T1 U1] [C2 D2 T2 U2]. split; [by transitivity (st_candidates b)|congruence|auto|congruence]. Qed.

(** Every linked block is on disk; every candidate is linked. *)
Definition available (s : ActivationState) : Prop := forall i, stored m i -> linked m i -> missing s i = false.
Definition candidates_linked (s : ActivationState) : Prop := forall k, k ∈ st_candidates s -> exists i, m !! k = Some i /\ linked m i.

Lemma retains_available s s' : retains s s' -> available s -> available s'.
Proof. intros K A i S L. rewrite (retains_data _ _ K). by apply A. Qed.

Lemma retains_linked s s' : retains s s' -> candidates_linked s -> candidates_linked s'.
Proof. intros K C k I. apply C. by apply K. Qed.

Lemma retains_status s i n : Z.land n BLOCK_HAVE_DATA = Z.land (status s i) BLOCK_HAVE_DATA ->
  Z.land (status s i) BLOCK_VALID_MASK <= Z.land n BLOCK_VALID_MASK -> retains s (set_status s i n).
Proof.
  intros D V. split; [done| | |done]; intros a; unfold missing, tree_valid, status in *; cbn [set_status st_status];
    (destruct (decide (phashBlock a = phashBlock i)) as [->|N]; [rewrite lookup_insert_eq|by rewrite lookup_insert_ne by congruence]);
    cbn [from_option]; unfold id; [by rewrite D|intros T; etrans; [exact T|exact V]].
Qed.

Lemma retains_mark s i bit : Z.land bit BLOCK_HAVE_DATA = 0 -> Z.land bit BLOCK_VALID_MASK = 0 -> retains s (set_status s i (Z.lor (status s i) bit)).
Proof. intros D V. apply retains_status; rewrite Z.land_lor_distr_l, ?D, ?V, Z.lor_0_r; done || lia. Qed.

Lemma retains_erase s i : retains s (erase s i).
Proof. split; [|done..]. intros k K. cbn in K. by apply elem_of_difference in K as [K _]. Qed.

Lemma retains_note_invalid s i : retains s (note_invalid s i).
Proof. unfold note_invalid. destruct (st_best_invalid s) as [b|]; [destruct (_ <? _)|]; done. Qed.

Lemma find_bad_available s fuel : available s -> forall i t b,
  stored m i -> linked m i -> find_bad m fuel s i = Return (Some (t, b)) -> b = true.
Proof.
  intros A. induction fuel as [|fuel IH]; intros i t b S L; cbn [find_bad]; [done|]. destruct (Contains _ _); [done|].
  destruct (_ || _); [|done]. cbn [require]. rewrite (A i S L), orb_false_r. destruct (failed s i) eqn:F; [congruence|].
  destruct (parent m i) as [q|] eqn:P; [|done]. apply IH; [by eapply parent_stored|].
  apply (linked_ancestor m W q i S L). by apply is_ancestor_parent.
Qed.

Lemma retains_drop_chain t fuel : forall f s s', drop_chain m fuel true t f s = Return s' -> retains s s'.
Proof.
  induction fuel as [|fuel IH]; intros f s s'; cbn [drop_chain]; [done|]. destruct (_ =? _); [intros [= <-]; apply retains_erase|].
  destruct (parent m f) as [q|]; [|done]. cbn [deref mbind run_bind]. intros E. apply IH in E.
  etrans; [by apply (retains_mark s f BLOCK_FAILED_CHILD)|]. etrans; [apply retains_erase|exact E].
Qed.

Lemma retains_FindMostWorkChain fuel : forall s r s', available s -> candidates_linked s ->
  FindMostWorkChain m nSequenceId addr fuel s = Return (r, s') -> retains s s'.
Proof.
  induction fuel as [|fuel IH]; intros s r s' A C; cbn [FindMostWorkChain]; [done|].
  destruct (best_candidate m nSequenceId addr s) as [b|] eqn:B; [|by intros [= _ <-]].
  apply best_maximal in B as [I _]. apply list_elem_of_omap in I as (k & I & L). apply elem_of_elements in I.
  destruct (C k I) as (b' & L' & Lk). assert (b' = b) as -> by congruence. destruct (stored_key m W k b L) as [Sb _].
  destruct (find_bad m (S (Z.to_nat (bi_nHeight b))) s b) as [[[t fl]|]| | |] eqn:F; cbn [mbind run_bind]; try done; [|by intros [= _ <-]].
  rewrite (find_bad_available s _ A b t fl Sb Lk F). destruct (drop_chain _ _ _ _ _ _) as [s2| | |] eqn:D; cbn [mbind run_bind]; try done.
  assert (K : retains s s2) by (etrans; [apply retains_note_invalid|by eapply retains_drop_chain]).
  intros E. etrans; [exact K|]. by eapply IH; [eapply retains_available|eapply retains_linked|].
Qed.

Lemma RaiseValidity_retains k u : Z.land u BLOCK_VALID_MASK = u ->
  Z.land (snd (RaiseValidity k u)) BLOCK_HAVE_DATA = Z.land k BLOCK_HAVE_DATA /\
  Z.land k BLOCK_VALID_MASK <= Z.land (snd (RaiseValidity k u)) BLOCK_VALID_MASK.
Proof.
  intros U. unfold RaiseValidity. destruct (negb _); [done|]. destruct (Z.ltb_spec (Z.land k BLOCK_VALID_MASK) u) as [L|_]; [|done]. cbn [snd].
  rewrite !Z.land_lor_distr_l, U, <- !Z.land_assoc. split.
  - change (Z.land (Z.lnot BLOCK_VALID_MASK) BLOCK_HAVE_DATA) with BLOCK_HAVE_DATA. rewrite <- U, <- Z.land_assoc.
    change (Z.land BLOCK_VALID_MASK BLOCK_HAVE_DATA) with 0. by rewrite Z.land_0_r, Z.lor_0_r.
  - change (Z.land (Z.lnot BLOCK_VALID_MASK) BLOCK_VALID_MASK) with 0. rewrite Z.land_0_r, Z.lor_0_l. lia.
Qed.

Lemma connected_status_retains n : Z.land (connected_status n) BLOCK_HAVE_DATA = Z.land n BLOCK_HAVE_DATA /\
  Z.land n BLOCK_VALID_MASK <= Z.land (connected_status n) BLOCK_VALID_MASK.
Proof.
  unfold connected_status. destruct (_ || _); [|done]. set (n' := if _ =? 0 then _ else _).
  assert (E : Z.land n' BLOCK_HAVE_DATA = Z.land n BLOCK_HAVE_DATA /\ Z.land n' BLOCK_VALID_MASK = Z.land n BLOCK_VALID_MASK).
  { unfold n'. destruct (_ =? 0); [|done]. rewrite !Z.land_lor_distr_l. split; apply Z.lor_0_r. }
  destruct E as [<- <-]. by apply RaiseValidity_retains.
Qed.

Lemma retains_InvalidChainFound s i s' : InvalidChainFound m s i = Return s' -> retains s s'.
Proof.
  unfold InvalidChainFound. destruct (active_tip m _); [|done]. cbn [deref mbind run_bind]. intros [= <-]. apply retains_note_invalid.
Qed.

Lemma retains_InvalidBlockFound s i st s' : InvalidBlockFound m s i st = Return s' -> retains s s'.
Proof.
  unfold InvalidBlockFound. destruct (corruptionPossible st); [by intros [= <-]|]. intros E%retains_InvalidChainFound.
  etrans; [by apply (retains_mark s i BLOCK_FAILED_VALID)|]. etrans; [apply retains_erase|exact E].
Qed.

Lemma retains_UpdateTip s coins o s' : UpdateTip m s coins o = Return s' -> retains s s'.
Proof.
  unfold UpdateTip. destruct o as [i|]; [|done]. cbn [deref mbind run_bind]. destruct (SetTip _ _ _) as [v|]; [|done].
  cbn [deref mbind run_bind]. by intros [= <-].
Qed.

Lemma retains_ConnectTip i pblock s r s' : ConnectTip p env m base invalid threads ReadBlockFromDisk i pblock s = Return (r, s') -> retains s s'.
Proof.
  unfold ConnectTip. case_bool_decide; [|done]. cbn [require].
  destruct (match pblock with Some b => Some b | None => _ end) as [[block fChecked]|]; [|by intros [= _ <-]].
  pose proof (ConnectBlock_status p env m invalid threads (st_active s) (cache_view base (st_coins s)) (active_block ReadBlockFromDisk s) block fChecked
    (current s i) new_cache) as St.
  destruct (ConnectBlock _ _ _ _ _ _ _ _ _ _ _ _ _) as [[[view undo] n]|st|]; [| |done].
  - destruct (Flush (st_coins s) view) as [[coins em]|]; [|done]. specialize (St _ eq_refl). cbn [snd] in St.
    set (s1 := if _ =? 0 then set_undo s i undo else s). destruct (UpdateTip _ _ _ _) as [s2| | |] eqn:U; try done.
    cbn [mbind run_bind]. intros [= _ <-]. apply retains_UpdateTip in U. etrans; [|exact U].
    assert (K1 : retains s s1) by (unfold s1; by destruct (_ =? 0)). etrans; [exact K1|].
    assert (E1 : status s1 i = status s i) by (unfold s1; by destruct (_ =? 0)). change (nStatus (current s i)) with (status s i) in St.
    apply retains_status; rewrite E1; (destruct St as [->| ->]; [done|apply connected_status_retains]).
  - case_bool_decide; [|by intros [= _ <-]]. destruct (InvalidBlockFound _ _ _ _) as [s1| | |] eqn:B; try done. cbn [mbind run_bind].
    intros [= _ <-]. by eapply retains_InvalidBlockFound.
Qed.

Lemma retains_DisconnectTip s r s' : DisconnectTip p m base ReadBlockFromDisk s = Return (r, s') -> retains s s'.
Proof.
  unfold DisconnectTip. destruct (active_tip m s) as [tip|]; [|done]. cbn [deref mbind run_bind].
  destruct (ReadBlockFromDisk (phashBlock tip)) as [block|]; [|by intros [= _ <-]].
  destruct (GetBestBlock _ new_cache) as [best v]. destruct (_ =? _); [cbn [require]|done].
  destruct (DisconnectBlock _ _ _ _ _ _ _) as [[[| |] v1]|]; [|by intros [= _ <-]..|done].
  destruct (Flush (st_coins s) v1) as [[coins em]|]; [|done].
  destruct (UpdateTip _ _ _ _) as [s1| | |] eqn:U; try done. cbn [mbind run_bind]. intros [= _ <-]. by eapply retains_UpdateTip.
Qed.

Lemma retains_disconnect_to fork fuel : forall s r s', disconnect_to p m base ReadBlockFromDisk fuel fork s = Return (r, s') -> retains s s'.
Proof.
  induction fuel as [|fuel IH]; intros s r s'; cbn [disconnect_to]; [done|]. destruct (_ || _); [by intros [= _ <-]|].
  destruct (DisconnectTip _ _ _ _ s) as [[ok s1]| | |] eqn:D; try done. cbn [mbind run_bind]. apply retains_DisconnectTip in D.
  destruct ok; [|by intros [= _ <-]]. intros E%IH. by etrans.
Qed.

Lemma retains_Prune s s' : PruneBlockIndexCandidates m nSequenceId addr s = Return s' -> retains s s'.
Proof.
  unfold PruneBlockIndexCandidates. destruct (active_tip m s) as [tip|]; [|done]. cbn [deref mbind run_bind].
  case_bool_decide; [done|]. cbn [negb require]. intros [= <-]. split; [cbn; set_solver|done..].
Qed.

Lemma retains_connect_batch w front pblock old l : forall s r s',
  connect_batch p env m base invalid threads ReadBlockFromDisk nSequenceId addr w front pblock old l s = Return (r, s') -> retains s s'.
Proof.
  induction l as [|i l IH]; intros s r s'; cbn [connect_batch]; [by intros [= _ <-]|].
  destruct (ConnectTip _ _ _ _ _ _ _ _ _ _) as [[[|st|] s1]| | |] eqn:T; try done; cbn [mbind run_bind]; apply retains_ConnectTip in T.
  - destruct (PruneBlockIndexCandidates _ _ _ s1) as [s2| | |] eqn:Pr; try done. cbn [mbind run_bind]. apply retains_Prune in Pr.
    destruct (active_tip m s2); [|done]. cbn [deref mbind run_bind]. assert (K : retains s s2) by by etrans.
    destruct (match old with Some o => _ | None => true end); [by intros [= _ <-]|]. intros E%IH. by etrans.
  - destruct (if corruptionPossible st then _ else _) as [s2| | |] eqn:I; try done. cbn [mbind run_bind]. intros [= _ <-]. etrans; [exact T|].
    destruct (corruptionPossible st); [by injection I as <-|]. destruct front as [f|]; [|done]. exact (retains_InvalidChainFound s1 f s2 I).
  - by intros [= _ <-].
Qed.

Lemma retains_connect_batches w pblock old fuel : forall h s r s',
  connect_batches p env m base invalid threads ReadBlockFromDisk nSequenceId addr fuel w pblock old h s = Return (r, s') -> retains s s'.
Proof.
  induction fuel as [|fuel IH]; intros h s r s'; cbn [connect_batches]; [done|]. destruct (_ =? _); [by intros [= _ <-]|].
  destruct (GetAncestor _ _ _) as [it|]; [|done]. cbn [deref mbind run_bind].
  destruct (connect_batch _ _ _ _ _ _ _ _ _ _ _ _ _ _ _) as [[b s1]| | |] eqn:B; try done. cbn [mbind run_bind]. apply retains_connect_batch in B.
  destruct b; try by intros [= _ <-]. intros E%IH. by etrans.
Qed.

Lemma retains_Step w pblock s r s' :
  ActivateBestChainStep p env m base invalid threads ReadBlockFromDisk nSequenceId addr w pblock s = Return (r, s') -> retains s s'.
Proof.
  unfold ActivateBestChainStep. destruct (FindFork _ _ _) as [fork|]; [|done]. cbn [deref mbind run_bind].
  destruct (disconnect_to _ _ _ _ _ _ _) as [[ok s1]| | |] eqn:D; try done. cbn [mbind run_bind]. apply retains_disconnect_to in D.
  destruct ok; cbn [negb]; [|by intros [= _ <-]].
  destruct (connect_batches _ _ _ _ _ _ _ _ _ _ _ _ _ _ _) as [[b s2]| | |] eqn:B; try done. cbn [mbind run_bind]. apply retains_connect_batches in B.
  intros [= _ <-]. by etrans.
Qed.

Lemma retains_activate pblock fuel : forall mw start c s r s', available s -> candidates_linked s ->
  activate p env m base invalid threads ReadBlockFromDisk nSequenceId addr fuel pblock mw start c s = Return (r, s') -> retains s s'.
Proof.
  induction fuel as [|fuel IH]; intros mw start c s r s' A C; cbn [activate]; [done|].
  destruct (match mw with Some i => Return (Some i, s) | None => _ end) as [[mw' s0]| | |] eqn:F; try done. cbn [mbind run_bind].
  assert (K0 : retains s s0).
  { destruct mw; [by injection F as _ <-|]. exact (retains_FindMostWorkChain _ s mw' s0 A C F). }
  assert (Go : forall s1 mw1 start1 c1, retains s0 s1 ->
    activate p env m base invalid threads ReadBlockFromDisk nSequenceId addr fuel pblock mw1 start1 c1 s1 = Return (r, s') -> retains s s').
  { intros s1 mw1 start1 c1 K1 E. assert (K : retains s s1) by by etrans. etrans; [exact K|].
    by eapply IH; [eapply retains_available|eapply retains_linked|]. }
  destruct mw' as [w|].
  - case_bool_decide; [by intros [= _ <-]|]. destruct (ActivateBestChainStep _ _ _ _ _ _ _ _ _ _ _ _) as [[[ok inv] s1]| | |] eqn:St; try done.
    cbn [mbind run_bind]. apply retains_Step in St. destruct ok; cbn [negb]; [|intros [= _ <-]; by etrans].
    destruct (match active_tip m s1, start with | None, _ => _ | Some _, _ => _ end); [by apply Go|].
    case_bool_decide; [intros [= _ <-]; by etrans|by apply Go].
  - destruct (_ && _); [by apply Go|by intros [= _ <-]].
Qed.

Lemma retains_ActivateBestChain fuel pblock s r s' : available s -> candidates_linked s ->
  ActivateBestChain p env m base invalid threads ReadBlockFromDisk nSequenceId addr fuel pblock s = Return (r, s') -> retains s s'.
Proof. apply retains_activate. Qed.

End Frame.

(** ** Claims *)

(** The turns that are enough: for every block that may still turn out to be
    invalid, one to look for a new target and as many as the tree is high;
    twice, because a turn may find nothing left to do. *)
Definition activation_fuel `{SaplingTree} (m : BlockMap) (s : ActivationState) : nat :=
  2 * (unfailed m s * (top_height m + 3) + top_height m + 2) + 1.

Lemma ActivateBestChain_spec `{HashFunctions, Ecdsa, SaplingTree} p env (m : BlockMap) base invalid threads ReadBlockFromDisk
    nSequenceId addr s tip fuel pblock :
  tree_wf m -> single_root m -> (forall i q, stored m i -> parent m i = Some q -> nChainWork q < nChainWork i) ->
  node_ok m base s tip -> (activation_fuel m s <= fuel)%nat ->
  match ActivateBestChain p env m base invalid threads ReadBlockFromDisk nSequenceId addr fuel pblock s with
  | Return (true, s') => settled m base nSequenceId addr s' /\ shrinks s s'
  | Return (false, s') => (exists tip', node_ok m base s' tip') /\ shrinks s s'
  | Crashed => True
  | AssertFailed | OutOfFuel => False
  end.
Proof.
  intros W R Wk O F. eapply activate_spec; [done..| |]; [|unfold activation_fuel in F].
  - instantiate (1 := (unfailed m s * (top_height m + 3) + top_height m + 2)%nat). unfold budget. lia.
  - lia.
Qed.

(** C4. Choosing the best chain comes to an end, and ends there.  Let the
    index be a tree with one root in which every block adds work, the active
    chain be the path to its tip without a failed block, the coins be those of
    the tip, and the tip and every candidate be blocks whose ancestors have all
    been received.  Then
    [ActivateBestChain] stops within [activation_fuel] turns, whatever blocks
    turn out to be invalid, on whatever branch, and however deep the
    reorganizations; no assertion of the chain selection, of [ConnectTip] or of
    [DisconnectTip] fails.  If it answers true, the active chain is again the
    path to a tip without a failed block and the coins are at this tip, no
    candidate that is left beats it, and no failed block has been forgotten.  It may answer false on an error of the system, and the node is
    then in such a state, too, or die inside the connection or disconnection of
    a block. *)
Theorem activation_settles `{HashFunctions, Ecdsa, SaplingTree} p env (m : BlockMap) base invalid threads ReadBlockFromDisk
    nSequenceId addr s tip fuel pblock :
  tree_wf m -> single_root m -> (forall i q, stored m i -> parent m i = Some q -> nChainWork q < nChainWork i) ->
  node_ok m base s tip -> (activation_fuel m s <= fuel)%nat ->
  match ActivateBestChain p env m base invalid threads ReadBlockFromDisk nSequenceId addr fuel pblock s with
  | Return (true, s') => settled m base nSequenceId addr s' /\ shrinks s s'
  | Return (false, s') => (exists tip', node_ok m base s' tip') /\ shrinks s s'
  | Crashed => True
  | AssertFailed | OutOfFuel => False
  end.
Proof. apply ActivateBestChain_spec. Qed.

(** The premine block is received on top of genesis. *)
Definition received_state : ActivationState (H := counting_tree) := {|
  st_status := <[1 := Z.lor BLOCK_HAVE_DATA BLOCK_VALID_SCRIPTS]> (<[2 := Z.lor BLOCK_HAVE_DATA BLOCK_VALID_TRANSACTIONS]> ∅);
  st_candidates := {[2]}; st_active := [1]; st_coins := new_cache; st_undo := ∅; st_best_invalid := None; st_unlinked := []
|}.

Lemma line_work n i q : stored (line_map n) i -> parent (line_map n) i = Some q -> nChainWork q < nChainWork i.
Proof.
  unfold stored. rewrite lookup_line_map. case_bool_decide; [|done]. intros [= <-]. unfold parent. cbn [pprev line_index].
  destruct (_ =? 0); [done|]. cbn [mbind option_bind]. rewrite lookup_line_map. case_bool_decide; [|done]. intros [= <-]. cbn. lia.
Qed.

Lemma received_ok : node_ok (line_map 2) genesis_view received_state (line_index 0).
Proof.
  split; [apply (line_genesis_chain 2); lia|done| |intros a [L A]; right; cbn in L; lia|].
  - intros k K. change (k ∈ ({[2]} : gset Z)) in K. apply elem_of_singleton in K as ->. exists (line_index 1). split; [done|]. intros a [L A]. cbn in L.
    destruct (decide (bi_nHeight a = 0)); [by right|left]. replace (bi_nHeight a) with 1 in A by lia. cbn in A. by injection A as <-.
  - intros a [L A]. cbn in L. replace (bi_nHeight a) with 0 in A by lia. cbn in A. by injection A as <-.
Qed.

Abbreviation activate_example disk :=
  (ActivateBestChain (H := checksum_hashes) (H0 := echo_ecdsa) (CreateChainParams REGTEST) example_env (line_map 2) genesis_view
    (fun _ => false) false disk (fun _ => 0) (fun k => k) (activation_fuel (line_map 2) received_state) None received_state).

Lemma activation_settles_witness :
  exists s', activate_example (fun _ => Some premine_block) = Return (true, s') /\ st_active s' = [1; 2] /\
    settled (line_map 2) genesis_view (fun _ => 0) (fun k => k) s' /\ shrinks received_state s'.
Proof.
  pose proof (activation_settles (H := checksum_hashes) (H0 := echo_ecdsa) (CreateChainParams REGTEST) example_env (line_map 2) genesis_view
    (fun _ => false) false (fun _ => Some premine_block) (fun _ => 0) (fun k => k) received_state (line_index 0)
    (activation_fuel (line_map 2) received_state) None (line_map_wf 2) (line_single_root 2) (line_work 2) received_ok (Nat.le_refl _)) as T.
  assert (V : match activate_example (fun _ => Some premine_block) with Return (true, s') => bool_decide (st_active s' = [1; 2]) | _ => false end = true)
    by (vm_compute; reflexivity).
  destruct (activate_example (fun _ => Some premine_block)) as [[[] s']| | |]; try discriminate.
  exists s'. split; [reflexivity|]. split; [by apply bool_decide_eq_true_1 in V|exact T].
Defined.

(** A block that breaks a rule is marked and given up, and the tip stays. *)
Example invalid_block_given_up :
  match activate_example (fun _ => Some (one_tx_block 1 1785920060 [simple_coinbase [pay 1]])) with
  | Return (true, s') => st_active s' = [1] /\ st_candidates s' = ∅ /\ failed s' (line_index 1) = true
  | _ => False
  end.
Proof.
  assert (V : match activate_example (fun _ => Some (one_tx_block 1 1785920060 [simple_coinbase [pay 1]])) with
    | Return (true, s') => bool_decide (st_active s' = [1]) && bool_decide (st_candidates s' = ∅) && failed s' (line_index 1)
    | _ => false end = true) by (vm_compute; reflexivity).
  destruct (activate_example _) as [[[] s']| | |]; try discriminate. apply andb_true_iff in V as [V V3].
  apply andb_true_iff in V as [V1 V2]. apply bool_decide_eq_true_1 in V1, V2. done.
Qed.
