(* ===== verification/Accept.v ===== *)
(** * Accepting a block

    [AcceptBlock] and [ProcessNewBlock] of validation.cpp with what they call:
    the parent of a block and its header, the search for double spends on a
    fork, the block's transactions received; [InvalidateBlock] and
    [ReconsiderBlock].

    The node is the tree of block indexes, the state of activation, the
    sequence numbers and the blocks on disk.  Of the block files only the
    outcome of [FindBlockPos] and [WriteBlockToDisk] is modelled; whether a
    transaction is found by [GetTransaction] is a parameter.  Notifications,
    log messages and the self-test [CheckBlockIndex] are left out. *)

From S2P Require Import Prelude Params Crypto Serialize Script Transaction Superblock ValidationState Chain Coins.
From S2P Require Import TxVerify Interpreter Stake CheckBlock Connect Supply Activate.


Record Node `{SaplingTree} := {
  n_tree : BlockTree;
  n_state : ActivationState;
  n_sequence : gmap Z Z;
  nBlockSequenceId : Z;
  n_disk : gmap Z CBlock
}.

Abbreviation blocks n := (bt_map (n_tree n)).

(** Early returns with the state of the check, and the node as it is then. *)
Definition Acc `{SaplingTree} (A : Type) : Type := Node -> run (Node * (CValidationState + A)).

Section Monad.
Context `{SaplingTree}.

#[export] Instance Acc_ret : MRet Acc := fun A a n => Return (n, inr a).
#[export] Instance Acc_bind : MBind Acc := fun A B k x n =>
  '(n, r) ← x n; match r with inl st => Return (n, inl st) | inr a => k a n end.

Definition get : Acc Node := fun n => Return (n, inr n).
Definition put (n : Node) : Acc unit := fun _ => Return (n, inr tt).
Definition fail {A} (st : CValidationState) : Acc A := fun n => Return (n, inl st).

(** A check that leaves the node alone; one that may not return; a run. *)
Definition check {A} (r : Result A) : Acc A := fun n =>
  match r with Valid a => Return (n, inr a) | Failed st => Return (n, inl st) | Aborted => Crashed end.
Definition call {A} (o : option A) : Acc A := fun n => match o with Some a => Return (n, inr a) | None => Crashed end.
Definition lift {A} (r : run A) : Acc A := fun n => a ← r; Return (n, inr a).

Definition set_tree (n : Node) (t : BlockTree) : Node := {|
  n_tree := t; n_state := n_state n; n_sequence := n_sequence n; nBlockSequenceId := nBlockSequenceId n; n_disk := n_disk n
|}.

Definition set_state (n : Node) (s : ActivationState) : Node := {|
  n_tree := n_tree n; n_state := s; n_sequence := n_sequence n; nBlockSequenceId := nBlockSequenceId n; n_disk := n_disk n
|}.

(** [nSequenceId = nBlockSequenceId++]. *)
Definition next_sequence (n : Node) (k : Z) : Node := {|
  n_tree := n_tree n; n_state := n_state n; n_sequence := <[k := nBlockSequenceId n]> (n_sequence n);
  nBlockSequenceId := u32 (nBlockSequenceId n + 1); n_disk := n_disk n
|}.

Definition store_block (n : Node) (k : Z) (block : CBlock) : Node := {|
  n_tree := n_tree n; n_state := n_state n; n_sequence := n_sequence n; nBlockSequenceId := nBlockSequenceId n;
  n_disk := <[k := block]> (n_disk n)
|}.

Definition set_unlinked (s : ActivationState) (l : list (option Z * Z)) : ActivationState := {|
  st_status := st_status s; st_candidates := st_candidates s; st_active := st_active s;
  st_coins := st_coins s; st_undo := st_undo s; st_best_invalid := st_best_invalid s; st_unlinked := l
|}.

Definition forget_best_invalid (s : ActivationState) : ActivationState := {|
  st_status := st_status s; st_candidates := st_candidates s; st_active := st_active s;
  st_coins := st_coins s; st_undo := st_undo s; st_best_invalid := None; st_unlinked := st_unlinked s
|}.

(** An index of the tree is overwritten, and marked for the database. *)
Definition set_index (t : BlockTree) (i : CBlockIndex) : BlockTree := {|
  bt_map := <[phashBlock i := i]> (bt_map t); pindexBestHeader := pindexBestHeader t;
  setDirtyBlockIndex := setDirtyBlockIndex t; mapPrevBlockIndex := mapPrevBlockIndex t
|}.

Definition mark_dirty (t : BlockTree) (k : Z) : BlockTree := {|
  bt_map := bt_map t; pindexBestHeader := pindexBestHeader t;
  setDirtyBlockIndex := {[k]} ∪ setDirtyBlockIndex t; mapPrevBlockIndex := mapPrevBlockIndex t
|}.

Lemma Acc_bind_inv {A B} (x : Acc A) (k : A -> Acc B) n n' b :
  (x ≫= k) n = Return (n', inr b) -> exists n1 a, x n = Return (n1, inr a) /\ k a n1 = Return (n', inr b).
Proof.
  unfold mbind, Acc_bind. destruct (x n) as [[n1 [st|a]]| | |]; cbn [mbind run_bind]; try done. intros E. by exists n1, a.
Qed.

Lemma get_bind {B} (k : Node -> Acc B) n : (get ≫= k) n = k n n.
Proof. done. Qed.

Lemma put_bind {B} n1 (k : unit -> Acc B) n : (put n1 ≫= k) n = k tt n1.
Proof. done. Qed.

Lemma mret_bind {A B} (a : A) (k : A -> Acc B) n : (mret a ≫= k) n = k a n.
Proof. done. Qed.

Lemma lift_bind {A B} (r : run A) (k : A -> Acc B) n : (lift r ≫= k) n = (r ≫= fun a => k a n).
Proof. by destruct r. Qed.

Lemma check_bind {A B} (r : Result A) (k : A -> Acc B) n :
  (check r ≫= k) n = match r with Valid a => k a n | Failed st => Return (n, inl st) | Aborted => Crashed end.
Proof. by destruct r. Qed.

Lemma call_bind {A B} (o : option A) (k : A -> Acc B) n : (call o ≫= k) n = match o with Some a => k a n | None => Crashed end.
Proof. by destruct o. Qed.

Lemma check_inv {A} (r : Result A) n n' a : check r n = Return (n', inr a) -> r = Valid a /\ n' = n.
Proof. unfold check. destruct r; [by intros [= <- <-]|done..]. Qed.

Lemma call_inv {A} (o : option A) n n' a : call o n = Return (n', inr a) -> o = Some a /\ n' = n.
Proof. unfold call. destruct o; [by intros [= <- <-]|done]. Qed.

Lemma lift_inv {A} (r : run A) n n' a : lift r n = Return (n', inr a) -> r = Return a /\ n' = n.
Proof. unfold lift. destruct r; [by intros [= <- <-]|done..]. Qed.

End Monad.

(** Reads off what a run that went through has done. *)
Ltac acc_inv E :=
  repeat match type of E with
  | (get ≫= _) _ = Return _ => rewrite get_bind in E
  | (mret _ ≫= _) _ = Return _ => rewrite mret_bind in E
  | (put _ ≫= _) _ = Return _ => rewrite put_bind in E
  | (_ ≫= _) _ = Return (_, inr _) =>
      let n1 := fresh "n" in let a := fresh "a" in let X := fresh "E" in
      apply Acc_bind_inv in E as (n1 & a & X & E);
      try (apply check_inv in X as [X ->]); try (apply call_inv in X as [X ->]); try (apply lift_inv in X as [X ->])
  end.

(** [nTx], [nChainTx], [nFlags], [nSaplingValue] and [nChainSaplingValue] set. *)
Definition with_counts (i : CBlockIndex) (tx chainTx flags sapling : Z) (chainSapling : option Z) : CBlockIndex := {|
  phashBlock := phashBlock i; pprev := pprev i; pskip := pskip i; bi_nHeight := bi_nHeight i; nChainWork := nChainWork i;
  nTx := tx; nChainTx := chainTx; nStatus := nStatus i; vStakeModifier := vStakeModifier i; nFlags := flags;
  nSaplingValue := sapling; nChainSaplingValue := chainSapling; bi_nVersion := bi_nVersion i;
  bi_hashMerkleRoot := bi_hashMerkleRoot i; bi_hashFinalSaplingRoot := bi_hashFinalSaplingRoot i;
  bi_nTime := bi_nTime i; bi_nBits := bi_nBits i; bi_nNonce := bi_nNonce i;
  bi_nAccumulatorCheckpoint := bi_nAccumulatorCheckpoint i; nTimeMax := nTimeMax i
|}.

(** ** The transactions of a block are here *)

Section Received.
Context `{SaplingTree} (addr : Z -> Z).

Definition sequence (n : Node) (k : Z) : Z := default 0 (n_sequence n !! k).

(** [CBlockIndex::SetChainSaplingValue]. *)
Definition SetChainSaplingValue (m : BlockMap) (i : CBlockIndex) : option Z :=
  match parent m i with
  | Some prev => v ← nChainSaplingValue prev; Some (i64 (v + nSaplingValue i))
  | None => Some (nSaplingValue i)
  end.

(** One turn of the loop: the block is linked, and the blocks that wait for it
    are next. *)
Definition link_one (n : Node) (k : Z) : run (Node * list Z) :=
  pindex ← deref (blocks n !! k);
  let prevTx := match parent (blocks n) pindex with Some prev => nChainTx prev | None => 0 end in
  let pindex := with_counts pindex (nTx pindex) (u32 (prevTx + nTx pindex)) (nFlags pindex) (nSaplingValue pindex)
                  (SetChainSaplingValue (blocks n) pindex) in
  let n := next_sequence (set_tree n (set_index (n_tree n) pindex)) k in
  let s := n_state n in
  let s := if match active_tip (blocks n) s with None => true | Some tip => negb (worse (sequence n) addr pindex tip) end
           then set_candidates s ({[k]} ∪ st_candidates s) else s in
  let children := filter (fun e => fst e = Some k) (st_unlinked s) in
  Return (set_state n (set_unlinked s (filter (fun e => fst e <> Some k) (st_unlinked s))), snd <$> children).

Fixpoint link_queue (fuel : nat) (queue : list Z) (n : Node) : run Node :=
  match queue with
  | [] => Return n
  | k :: queue =>
      match fuel with
      | O => OutOfFuel
      | S fuel => '(n, children) ← link_one n k; link_queue fuel (queue ++ children) n
      end
  end.

(** The change of the shielded pool. *)
Definition sapling_value (block : CBlock) : Z :=
  foldl (fun v tx => if IsShieldedTx tx then i64 (v + - tx_valueBalance tx) else v) 0 (vtx block).

Definition ReceivedBlockTransactions (block : CBlock) (pindexNew : CBlockIndex) (n : Node) : run Node :=
  let flags := if IsProofOfStake block then Z.lor (nFlags pindexNew) BLOCK_PROOF_OF_STAKE else nFlags pindexNew in
  let pindexNew := with_counts pindexNew (u32 (size (vtx block))) 0 flags (sapling_value block) None in
  let status' := snd (RaiseValidity (Z.lor (status (n_state n) pindexNew) BLOCK_HAVE_DATA) BLOCK_VALID_TRANSACTIONS) in
  let n := set_state (set_tree n (mark_dirty (set_index (n_tree n) pindexNew) (phashBlock pindexNew)))
             (set_status (n_state n) pindexNew status') in
  let prev := parent (blocks n) pindexNew in
  if match prev with None => true | Some q => negb (nChainTx q =? 0) end
  then link_queue (S (List.length (st_unlinked (n_state n)))) [phashBlock pindexNew] n
  else if match prev with Some q => IsValid (status (n_state n) q) BLOCK_VALID_TREE | None => false end
  then Return (set_state n (add_unlinked (n_state n) pindexNew))
  else Return n.

End Received.

(** ** Double spends *)

Section Spends.
Context `{HashFunctions, SaplingTree} (env : NodeEnv).

(** The inputs, each once. *)
Fixpoint collect_inputs (ins : list CTxIn) (spent_outpoints : gset COutPoint) : Result (gset COutPoint) :=
  match ins with
  | [] => Valid spent_outpoints
  | txin :: ins =>
      if bool_decide (prevout txin ∈ spent_outpoints) then DoS 100 0 EmptyString false
      else collect_inputs ins ({[prevout txin]} ∪ spent_outpoints)
  end.

Definition CheckInBlockDoubleSpends (block : CBlock) : Result (gset COutPoint) :=
  spent_outpoints ← collect_inputs (drop 1 (vtx block) ≫= vin) ∅;
  let inblock_txes : gset Z := list_to_set (GetHash <$> drop 2 (vtx block)) in
  let created := filter (fun o => op_hash o ∈ inblock_txes) spent_outpoints in
  if bool_decide (created = ∅) then Valid spent_outpoints
  else
    stake ← of_option (first_input block 1);
    if bool_decide (prevout stake ∈ created) then DoS 100 0 EmptyString false
    else Valid (spent_outpoints ∖ created).

(** The outputs of a transaction. *)
Definition tx_outpoints (tx : CTransaction) : gset COutPoint :=
  list_to_set ((fun i => {| op_hash := GetHash tx; op_n := u32 (Z.of_nat i) |}) <$> seq 0 (List.length (vout tx))).

(** One block of the fork, its last transaction first; [None] if one of the
    coins is spent. *)
Fixpoint fork_txs (txs : list CTransaction) (outpoints : gset COutPoint) : option (gset COutPoint) :=
  match txs with
  | [] => Some outpoints
  | tx :: txs =>
      if existsb (fun txin => bool_decide (prevout txin ∈ outpoints)) (vin tx) then None
      else fork_txs txs (outpoints ∖ tx_outpoints tx)
  end.

(** The coins that were not created on the fork, and [pindexFork]. *)
Fixpoint unspent_on_fork (fuel : nat) (n : Node) (readBlock : Z) (outpoints : gset COutPoint) (pindexFork : CBlockIndex)
  : run (Result (gset COutPoint * CBlockIndex)) :=
  match fuel with
  | O => OutOfFuel
  | S fuel =>
      if Contains (st_active (n_state n)) pindexFork then Return (Valid (outpoints, pindexFork))
      else
        let readBlock := readBlock + 1 in
        if readBlock =? nMaxReorgDepth env then Return return_false
        else
          match parent (blocks n) pindexFork with
          | None => Return return_false
          | Some prev =>
              if bool_decide (outpoints = ∅) then unspent_on_fork fuel n readBlock outpoints prev
              else
                match n_disk n !! phashBlock pindexFork with
                | None => Return return_false
                | Some bl =>
                    match fork_txs (reverse (vtx bl)) outpoints with
                    | None => Return (DoS 100 REJECT_INVALID "bad-txns-inputs-spent-fork-post-split" false)
                    | Some outpoints => unspent_on_fork fuel n readBlock outpoints prev
                    end
                end
          end
  end.

Definition IsUnspentOnFork (n : Node) (outpoints : gset COutPoint) (startIndex : CBlockIndex) : run (Result (gset COutPoint * CBlockIndex)) :=
  unspent_on_fork (S (Z.to_nat (bi_nHeight startIndex))) n 0 outpoints startIndex.

(** The inputs of a block. *)
Definition block_inputs (bl : CBlock) : gset COutPoint := list_to_set (prevout <$> (vtx bl ≫= vin)).

(** [count] blocks of the active chain from [height] on. *)
Fixpoint spent_on_active (count : nat) (n : Node) (height : Z) (outpoints : gset COutPoint) : run bool :=
  match count with
  | O => Return (bool_decide (outpoints = ∅))
  | S count =>
      if bool_decide (outpoints = ∅) then Return true
      else
        k ← deref (chain_at (st_active (n_state n)) height);
        _ ← deref (blocks n !! k);
        match n_disk n !! k with
        | None => Return false
        | Some bl => spent_on_active count n (height + 1) (outpoints ∖ block_inputs bl)
        end
  end.

Definition IsSpentOnActiveChain (n : Node) (outpoints : gset COutPoint) (pindexFork : CBlockIndex) : run bool :=
  require (Contains (st_active (n_state n)) pindexFork) (
  let height_start := bi_nHeight pindexFork + 1 in
  let height_end := chain_Height (st_active (n_state n)) in
  spent_on_active (Z.to_nat (height_end - height_start + 1)) n height_start outpoints).

(** The coins of the active chain: what is left are the spent ones, and
    [pcoinsTip].  [pindexFork] is the last common block, if this is a fork. *)
Fixpoint check_coins (base : CCoinsView) (pindexFork : option CBlockIndex) (l : list COutPoint) (left : gset COutPoint) (tip : CCoinsViewCache)
  : Result (gset COutPoint) * CCoinsViewCache :=
  match l with
  | [] => (Valid left, tip)
  | o :: l =>
      let '(coin, tip) := AccessCoin base tip o in
      if negb (IsSpent coin) then
        if match pindexFork with Some f => bi_nHeight f <? coin_nHeight coin | None => false end
        then (DoS 100 REJECT_INVALID "bad-txns-inputs-created-post-split" false, tip)
        else check_coins base pindexFork l (left ∖ {[o]}) tip
      else if bool_decide (pindexFork = None) then (return_false, tip)
      else check_coins base pindexFork l left tip
  end.

End Spends.

(** ** The operations *)

Section Accept.
Context `{HashFunctions, Ecdsa, SaplingTree, SaplingVerifier} (p : CChainParams) (env : NodeEnv) (base : CCoinsView).
Context (invalid : COutPoint -> bool) (threads : bool) (addr : Z -> Z) (literal : Z).

(** The transaction index, and what the file system answers. *)
Context (GetTransaction : Z -> option (CTransaction * Z)) (FindBlockPos WriteBlockToDisk : CBlock -> bool).

Definition node_view (n : Node) : NodeView := {|
  mapBlockIndex := blocks n; chainActive := st_active (n_state n); coinsBase := base; Stake.GetTransaction := GetTransaction
|}.

(** [ActivateBestChain(state, pblock)], with turns enough. *)
Definition Activate (pblock : option (CBlock * bool)) (n : Node) : run (bool * Node) :=
  '(ok, s) ← ActivateBestChain p env (blocks n) base invalid threads (fun k => n_disk n !! k) (sequence n) addr
               (activation_fuel (blocks n) (n_state n)) pblock (n_state n);
  Return (ok, set_state n s).

(** *** ReconsiderBlock *)

Definition clear_failed (s : ActivationState) (i : CBlockIndex) : ActivationState :=
  set_status s i (Z.land (status s i) (Z.lxor (2 ^ 32 - 1) BLOCK_FAILED_MASK)).

(** One block of [mapBlockIndex]. *)
Definition reconsider_one (n : Node) (pindex i : CBlockIndex) (s : ActivationState) : run ActivationState :=
  if IsValid (status s i) BLOCK_VALID_TRANSACTIONS then Return s
  else
    a ← deref (GetAncestor (blocks n) i (bi_nHeight pindex));
    if negb (bool_decide (phashBlock <$> a = Some (phashBlock pindex))) then Return s
    else
      let s := clear_failed s i in
      s ← (if IsValid (status s i) BLOCK_VALID_TRANSACTIONS && negb (nChainTx i =? 0) then
             tip ← deref (active_tip (blocks n) s);
             Return (if worse (sequence n) addr tip i then set_candidates s ({[phashBlock i]} ∪ st_candidates s) else s)
           else Return s);
      Return (if bool_decide (phashBlock <$> st_best_invalid s = Some (phashBlock i)) then forget_best_invalid s else s).

Fixpoint reconsider_all (n : Node) (pindex : CBlockIndex) (l : list CBlockIndex) (s : ActivationState) : run ActivationState :=
  match l with
  | [] => Return s
  | i :: l => s ← reconsider_one n pindex i s; reconsider_all n pindex l s
  end.

(** The way down from [pindex]. *)
Fixpoint reconsider_ancestors (fuel : nat) (m : BlockMap) (i : option CBlockIndex) (s : ActivationState) : run ActivationState :=
  match i with
  | None => Return s
  | Some i =>
      match fuel with
      | O => OutOfFuel
      | S fuel => reconsider_ancestors fuel m (parent m i) (if failed s i then clear_failed s i else s)
      end
  end.

Definition ReconsiderBlock (pindex : CBlockIndex) (n : Node) : run Node :=
  s ← reconsider_all n pindex (snd <$> map_to_list (blocks n)) (n_state n);
  s ← reconsider_ancestors (S (Z.to_nat (bi_nHeight pindex))) (blocks n) (Some pindex) s;
  Return (set_state n s).

(** *** InvalidateBlock *)

(** [while (chainActive.Contains(pindex))]. *)
Fixpoint disconnect_from (fuel : nat) (n : Node) (pindex : CBlockIndex) (s : ActivationState) : run (bool * ActivationState) :=
  match fuel with
  | O => OutOfFuel
  | S fuel =>
      if negb (Contains (st_active s) pindex) then Return (true, s)
      else
        pindexWalk ← deref (active_tip (blocks n) s);
        let s := erase (set_status s pindexWalk (Z.lor (status s pindexWalk) BLOCK_FAILED_CHILD)) pindexWalk in
        '(ok, s) ← DisconnectTip p (blocks n) base (fun k => n_disk n !! k) s;
        if (ok : bool) then disconnect_from fuel n pindex s else Return (false, s)
  end.

(** The candidates as good as the new tip. *)
Definition readmitted (n : Node) (tip : CBlockIndex) (s : ActivationState) (i : CBlockIndex) : bool :=
  IsValid (status s i) BLOCK_VALID_TRANSACTIONS && negb (nChainTx i =? 0) && negb (worse (sequence n) addr i tip).

Definition InvalidateBlock (pindex : CBlockIndex) (n : Node) : run (bool * Node) :=
  let s := erase (set_status (n_state n) pindex (Z.lor (status (n_state n) pindex) BLOCK_FAILED_VALID)) pindex in
  '(ok, s) ← disconnect_from (S (List.length (st_active s))) n pindex s;
  if negb ok then Return (false, set_state n s)
  else
    tip ← deref (active_tip (blocks n) s);
    let back := filter (fun i => readmitted n tip s i = true) (snd <$> map_to_list (blocks n)) in
    let s := set_candidates s (list_to_set (phashBlock <$> back) ∪ st_candidates s) in
    s ← InvalidChainFound (blocks n) s pindex;
    Return (true, set_state n s).

(** *** AcceptBlock *)

(** The parent; a block whose parent has failed is refused, unless the parent
    is the block of a checkpoint. *)
Definition GetPrevIndex (block : CBlock) : Acc (option CBlockIndex) :=
  if CBlockHeader_GetHash block =? hashGenesisBlock (consensus p) then mret None
  else
    n ← get;
    match blocks n !! hashPrevBlock block with
    | None => check (DoS 0 0 "prevblk-not-found" false)
    | Some pindexPrev =>
        if failed (n_state n) pindexPrev then
          if Checkpoints_CheckBlock (fCheckpointsEnabled env) p (bi_nHeight pindexPrev) (hashPrevBlock block) true then
            n ← lift (ReconsiderBlock pindexPrev n);
            '(_, n) ← lift (Activate None n);
            _ ← put n; mret (Some pindexPrev)
          else check (DoS 100 REJECT_INVALID "bad-prevblk" false)
        else mret (Some pindexPrev)
    end.

Definition AcceptBlockHeader (block : CBlock) (pindexPrev : option CBlockIndex) : Acc CBlockIndex :=
  n ← get;
  match blocks n !! CBlockHeader_GetHash block with
  | Some pindex => if failed (n_state n) pindex then check (DoS 0 0 "duplicate" false) else mret pindex
  | None =>
      pindexPrev ← (match pindexPrev with Some q => mret (Some q) | None => GetPrevIndex block end);
      n ← get;
      _ ← check (ContextualCheckBlockHeader p env (blocks n) (st_active (n_state n)) block pindexPrev);
      '(t, pindex) ← call (AddToBlockIndex p literal (n_tree n) block);
      _ ← put (set_state (set_tree n t) (set_status (n_state n) pindex (nStatus pindex)));
      mret pindex
  end.

(** [pindex->nStatus |= BLOCK_FAILED_VALID] if the block is to blame. *)
Definition blame (pindex : CBlockIndex) (r : Result unit) : Acc unit := fun n =>
  match r with
  | Valid _ => Return (n, inr tt)
  | Aborted => Crashed
  | Failed st =>
      let s := n_state n in
      Return (if bool_decide (mode st = MODE_INVALID) && negb (corruptionPossible st)
              then set_tree (set_state n (set_status s pindex (Z.lor (status s pindex) BLOCK_FAILED_VALID)))
                     (mark_dirty (n_tree n) (phashBlock pindex))
              else n, inl st)
  end.

(** The coins of a proof-of-stake block: those that the fork has not created,
    and [pindexFork] if the block is on a fork. *)
Definition CheckForkSpends (n : Node) (pindexPrev : option CBlockIndex) (spent_outpoints : gset COutPoint)
  : Acc (gset COutPoint * option CBlockIndex) :=
  let isBlockFromFork := bool_decide (is_Some pindexPrev) &&
    negb (bool_decide (chain_Tip (st_active (n_state n)) = phashBlock <$> pindexPrev)) in
  if isBlockFromFork then
    prev ← lift (deref pindexPrev);
    r ← lift (IsUnspentOnFork env n spent_outpoints prev);
    '(o, f) ← check r;
    mret (o, Some f)
  else mret (spent_outpoints, None).

(** They are unspent on the active chain, or spent there after the split. *)
Definition CheckActiveSpends (n : Node) (spent_outpoints : gset COutPoint) (pindexFork : option CBlockIndex) : Acc unit :=
  if match pindexFork with Some f => nMaxReorgDepth env <? chain_Height (st_active (n_state n)) - bi_nHeight f | None => false end
  then check return_false
  else
    let '(r, coins) := check_coins base pindexFork (elements spent_outpoints) spent_outpoints (st_coins (n_state n)) in
    let n := set_state n (set_chain (n_state n) coins (st_active (n_state n))) in
    _ ← put n;
    spent ← check r;
    match pindexFork with
    | Some f =>
        if bool_decide (spent = ∅) then mret tt
        else
          ok ← lift (IsSpentOnActiveChain n spent f);
          if (ok : bool) then mret tt else check (DoS 100 REJECT_INVALID "bad-txns-inputs-spent-fork-pre-split" false)
    | None => mret tt
    end.

Definition CheckSpends (block : CBlock) (pindexPrev : option CBlockIndex) : Acc unit :=
  n ← get;
  spent_outpoints ← check (CheckInBlockDoubleSpends block);
  '(spent_outpoints, pindexFork) ← CheckForkSpends n pindexPrev spent_outpoints;
  CheckActiveSpends n spent_outpoints pindexFork.

(** [CheckProofOfStake] reads coins through [pcoinsTip]. *)
Definition CheckStake (block : CBlock) (pindexPrev : option CBlockIndex) : Acc unit :=
  n ← get;
  prev ← call pindexPrev;
  '(ok, coins) ← call (CheckProofOfStake p (node_view n) (st_coins (n_state n)) block prev);
  _ ← put (set_state n (set_chain (n_state n) coins (st_active (n_state n))));
  if (ok : bool) then mret tt else check (DoS 100 0 EmptyString false).

(** [dbp] is whether the block is on disk already; the result is [pindex]. *)
Definition AcceptBlock (block : CBlock) (fChecked dbp : bool) : Acc CBlockIndex :=
  pindexPrev ← GetPrevIndex block;
  n ← get;
  work ← (if CBlockHeader_GetHash block =? hashGenesisBlock (consensus p) then mret true
          else call (CheckWork p (blocks n) block pindexPrev));
  if negb work then check (DoS 100 REJECT_INVALID EmptyString false)
  else
    let isPoS := IsProofOfStake block in
    _ ← (if isPoS then CheckStake block pindexPrev else mret tt);
    pindex ← AcceptBlockHeader block pindexPrev;
    n ← get;
    if negb (missing (n_state n) pindex) then mret pindex
    else
      _ ← blame pindex (
            _ ← CheckBlock p env (blocks n) (st_active (n_state n)) block fChecked true true true;
            ContextualCheckBlock p env block (parent (blocks n) pindex));
      _ ← (if isPoS then CheckSpends block pindexPrev else mret tt);
      if negb (FindBlockPos block) then check return_false
      else if negb dbp && negb (WriteBlockToDisk block) then check (state_Error "Failed to write block")
      else
        n ← get;
        n ← lift (ReceivedBlockTransactions addr block pindex (store_block n (phashBlock pindex) block));
        _ ← put n;
        mret pindex.

Definition ProcessNewBlock (block : CBlock) (fChecked dbp : bool) (n : Node) : run (bool * Node) :=
  match CheckBlock p env (blocks n) (st_active (n_state n)) block fChecked true true true with
  | Aborted => Crashed
  | Failed _ => Return (false, n)
  | Valid fChecked =>
      '(n, r) ← AcceptBlock block fChecked dbp n;
      match r with
      | inl _ => Return (false, n)
      | inr _ => Activate (Some (block, fChecked)) n
      end
  end.

End Accept.

(** ** What the search for double spends shows *)

(** A coin on a branch that leaves the active chain at [f]: no block since has
    created or spent it ([false]), or a block since has created it and no
    transaction after has spent it ([true]). *)
Definition spends (tx : CTransaction) (o : COutPoint) : Prop := exists txin, txin ∈ vin tx /\ prevout txin = o.

Inductive survives `{HashFunctions, SaplingTree} (n : Node) (o : COutPoint) (f : CBlockIndex) : CBlockIndex -> bool -> Prop :=
  | survives_split : survives n o f f false
  | survives_block i prev bl created :
      parent (blocks n) i = Some prev -> n_disk n !! phashBlock i = Some bl ->
      (forall tx, tx ∈ vtx bl -> ~ spends tx o /\ o ∉ tx_outpoints tx) ->
      survives n o f prev created -> survives n o f i created
  | survives_created i bl txs tx later :
      n_disk n !! phashBlock i = Some bl -> vtx bl = txs ++ tx :: later -> o ∈ tx_outpoints tx ->
      (forall t, t ∈ tx :: later -> ~ spends t o) -> survives n o f i true.

(** A block of the active chain above [f] spends the coin. *)
Definition spent_above `{SaplingTree} (n : Node) (f : CBlockIndex) (o : COutPoint) : Prop :=
  exists h k bl, bi_nHeight f < h /\ chain_at (st_active (n_state n)) h = Some k /\ n_disk n !! k = Some bl /\ o ∈ block_inputs bl.

Section SpendsSound.
Context `{HashFunctions, SaplingTree} (env : NodeEnv) (base : CCoinsView).

Lemma collect_inputs_spec ins : forall acc s, collect_inputs ins acc = Valid s ->
  NoDup (prevout <$> ins) /\ (forall o, o ∈ prevout <$> ins -> o ∉ acc) /\ s = acc ∪ list_to_set (prevout <$> ins).
Proof.
  induction ins as [|txin ins IH]; intros acc s; cbn [collect_inputs].
  { intros [= <-]. split; [constructor|]. split; [intros o I; by apply elem_of_nil in I|cbn; set_solver]. }
  case_bool_decide as N; [done|]. intros (ND & D & ->)%IH. cbn [fmap list_fmap]. split; [|split].
  - constructor; [|done]. intros I. apply D in I. set_solver.
  - intros o [->|I]%elem_of_cons; [done|]. apply D in I. set_solver.
  - cbn. set_solver.
Qed.

(** The inputs of the block, and whether one names a transaction of the block
    after the coinstake; the index of the output is not compared. *)
Definition inputs (block : CBlock) : list COutPoint := prevout <$> (drop 1 (vtx block) ≫= vin).
Definition names_own_tx (block : CBlock) (o : COutPoint) : Prop := op_hash o ∈ GetHash <$> drop 2 (vtx block).

#[export] Instance names_own_tx_dec block o : Decision (names_own_tx block o).
Proof. unfold names_own_tx. apply _. Defined.

Lemma CheckInBlockDoubleSpends_spec block s : CheckInBlockDoubleSpends block = Valid s ->
  NoDup (inputs block) /\ (forall txin, first_input block 1 = Some txin -> prevout txin ∈ inputs block -> ~ names_own_tx block (prevout txin)) /\
  forall o, o ∈ s <-> o ∈ inputs block /\ ~ names_own_tx block o.
Proof.
  unfold CheckInBlockDoubleSpends. intros E. apply bind_Valid_inv in E as (s0 & C & E). apply collect_inputs_spec in C as (ND & _ & ->).
  fold (inputs block) in *. split; [done|]. set (own := list_to_set (GetHash <$> drop 2 (vtx block)) : gset Z) in *.
  assert (Ow : forall o, op_hash o ∈ own <-> names_own_tx block o) by (intros o; apply elem_of_list_to_set).
  set (created := filter _ _) in E.
  assert (Cr : forall o, o ∈ created <-> o ∈ inputs block /\ names_own_tx block o) by (intros o; unfold created; rewrite elem_of_filter, Ow, elem_of_union, elem_of_list_to_set; set_solver).
  case_bool_decide as Em.
  { injection E as <-. split; [intros txin _ I X|]; [|intros o].
    - assert (Y : prevout txin ∈ created) by (by apply Cr). rewrite Em in Y. set_solver.
    - split; [|set_solver]. intros I. split; [set_solver|]. intros X. assert (Y : o ∈ created) by (apply Cr; set_solver).
      rewrite Em in Y. set_solver. }
  apply bind_Valid_inv in E as (st & F & E). apply of_option_Valid in F. case_bool_decide as N; [done|]. injection E as <-. split.
  - intros txin F' I X. assert (txin = st) as -> by congruence. apply N, Cr. done.
  - intros o. rewrite elem_of_difference, Cr. set_solver.
Qed.

Lemma spends_dec tx (s : gset COutPoint) o : existsb (fun txin => bool_decide (prevout txin ∈ s)) (vin tx) = false -> o ∈ s -> ~ spends tx o.
Proof.
  intros E I (txin & T & <-). apply not_true_iff_false in E. apply E, existsb_exists. exists txin.
  split; [by apply list_elem_of_In|by apply bool_decide_eq_true_2].
Qed.

Lemma first_input_inputs block txin : first_input block 1 = Some txin -> prevout txin ∈ inputs block.
Proof.
  unfold first_input. intros E. apply bind_Some_inv in E as (tx & T & E). unfold inputs. apply list_elem_of_fmap. exists txin. split; [done|].
  apply list_elem_of_bind. exists tx. split; [by eapply list_elem_of_lookup_2|].
  apply (list_elem_of_lookup_2 _ 0). by rewrite lookup_drop.
Qed.

(** In [txs], the last transaction first. *)
Lemma fork_txs_spec txs : forall s s', fork_txs txs s = Some s' -> forall o, o ∈ s ->
  (o ∈ s' /\ forall tx, tx ∈ txs -> ~ spends tx o /\ o ∉ tx_outpoints tx) \/
  exists later tx earlier, txs = later ++ tx :: earlier /\ o ∈ tx_outpoints tx /\ forall t, t ∈ tx :: later -> ~ spends t o.
Proof.
  induction txs as [|tx txs IH]; intros s s'; cbn [fork_txs]; [intros [= <-] o I; left; split; [done|intros tx X; by apply elem_of_nil in X]|].
  destruct (existsb _ _) eqn:E; [done|]. intros F o I. pose proof (spends_dec tx s o E I) as NS.
  destruct (decide (o ∈ tx_outpoints tx)) as [C|NC].
  { right. exists [], tx, txs. split; [done|]. split; [done|]. intros t [->|X]%elem_of_cons; [done|by apply elem_of_nil in X]. }
  destruct (IH _ _ F o ltac:(set_solver)) as [[I' N]|(later & t & earlier & -> & C & N)].
  - left. split; [done|]. intros t [->|X]%elem_of_cons; [done|by apply N].
  - right. exists (tx :: later), t, earlier. split; [done|]. split; [done|]. intros u [->|[->|X]%elem_of_cons]%elem_of_cons; try done; apply N; set_solver.
Qed.

(** What is left of the coins are those that the active chain has spent. *)
Lemma check_coins_spec fork l : forall left tip left' tip', check_coins base fork l left tip = (Valid left', tip') ->
  (forall o, o ∈ left -> utxo base tip o = None -> o ∈ left') /\
  forall o, o ∈ l ->
    match utxo base tip o with
    | Some c => match fork with Some f => coin_nHeight c <= bi_nHeight f | None => True end
    | None => fork <> None
    end.
Proof.
  induction l as [|x l IH]; intros left tip left' tip'; cbn [check_coins].
  { intros [= <- <-]. split; [done|]. intros o I. by apply elem_of_nil in I. }
  pose proof (AccessCoin_spec base tip x) as U. pose proof (FetchCoin_utxo base tip x) as Same. rewrite <- AccessCoin_state in Same.
  destruct (AccessCoin base tip x) as [c tip1]. cbn [fst snd] in *. unfold unspent in U. destruct (IsSpent c); cbn [negb].
  - case_bool_decide as Fk; [done|]. intros [K Sp]%IH. split.
    + intros o I N. apply K; [done|]. by rewrite Same.
    + intros o [->|I]%elem_of_cons; [by rewrite <- U|]. specialize (Sp o I). by rewrite Same in Sp.
  - destruct (match fork with Some f => _ | None => false end) eqn:Hh; [done|]. intros [K Sp]%IH. split.
    + intros o I N. apply K; [|by rewrite Same]. assert (o <> x) by congruence. set_solver.
    + intros o [->|I]%elem_of_cons; [|specialize (Sp o I); by rewrite Same in Sp]. rewrite <- U. destruct fork; [|done]. by apply Z.ltb_ge.
Qed.

Context (n : Node) (W : tree_wf (blocks n)).

Lemma unspent_on_fork_spec tip fuel : is_chain (blocks n) (st_active (n_state n)) tip -> forall rb s i s' f, stored (blocks n) i ->
  unspent_on_fork env fuel n rb s i = Return (Valid (s', f)) ->
  last_common (blocks n) i tip f /\
  forall o, o ∈ s -> o ∈ s' /\ survives n o f i false \/ survives n o f i true.
Proof.
  intros CH. induction fuel as [|fuel IH]; intros rb s i s' f S; cbn [unspent_on_fork]; [done|].
  pose proof (Contains_spec (blocks n) W _ tip i CH S) as CS. destruct (Contains (st_active (n_state n)) i).
  { intros [= <- <-]. split; [|intros o I; left; split; [done|constructor]].
    split; [by apply is_ancestor_refl|]. split; [by apply CS|]. intros a [L _] _. lia. }
  destruct (_ =? _); [done|]. destruct (parent (blocks n) i) as [prev|] eqn:P; [|done].
  pose proof (parent_stored (blocks n) W i prev P) as SP.
  assert (LC : last_common (blocks n) prev tip f -> last_common (blocks n) i tip f).
  { intros (A & B & M). split; [|split; [done|]].
    - apply (is_ancestor_trans _ W f prev i); [done..|by apply is_ancestor_parent].
    - intros a Ai At. apply M; [|done]. apply (is_ancestor_below _ W a i prev); [done..|]. intros ->. by apply CS in At. }
  case_bool_decide as Em.
  { intros E. apply IH in E as [L _]; [|done]. split; [auto|]. intros o I. set_solver. }
  destruct (n_disk n !! phashBlock i) as [bl|] eqn:D; [|done]. destruct (fork_txs _ s) as [s1|] eqn:F; [|done].
  intros E. apply IH in E as [L Sv]; [|done]. split; [auto|]. intros o I.
  destruct (fork_txs_spec _ _ _ F o I) as [[I1 N]|(later & tx & earlier & Eq & C & N)].
  - assert (N' : forall tx, tx ∈ vtx bl -> ~ spends tx o /\ o ∉ tx_outpoints tx) by (intros tx X; apply N; by apply elem_of_reverse).
    destruct (Sv o I1) as [[I2 V]|V]; [left; split; [done|]|right]; by eapply survives_block.
  - right. eapply (survives_created n o f i bl (reverse earlier) tx (reverse later)); [done| |done|].
    + rewrite <- (reverse_involutive (vtx bl)), Eq, reverse_app, reverse_cons, <- app_assoc. done.
    + intros t [->|X]%elem_of_cons; [apply N; set_solver|]. apply N. apply elem_of_cons. right. by rewrite elem_of_reverse in X.
Qed.

Lemma spent_on_active_spec count : forall h s f, spent_on_active count n h s = Return true -> bi_nHeight f < h ->
  forall o, o ∈ s -> spent_above n f o.
Proof.
  induction count as [|count IH]; intros h s f; cbn [spent_on_active].
  { intros [= E] _ o I. apply bool_decide_eq_true_1 in E. set_solver. }
  case_bool_decide as Em; [set_solver|]. destruct (chain_at _ h) as [k|] eqn:K; [|done]. cbn [deref mbind run_bind].
  destruct (blocks n !! k); [|done]. cbn [deref mbind run_bind]. destruct (n_disk n !! k) as [bl|] eqn:D; [|done].
  intros E L o I. destruct (decide (o ∈ block_inputs bl)) as [B|B]; [by exists h, k, bl|].
  apply (IH (h + 1) _ f E); [lia|set_solver].
Qed.

End SpendsSound.

(** C9. What the double-spend checks of [AcceptBlock] let pass.  If they pass a
    proof-of-stake block on a known parent, no two of its inputs spend the
    same outpoint and the stake does not name a later transaction of the block.
    Every other input names, by identifier, a transaction of the block after
    the coinstake; or the block extends the tip and the coin is unspent there;
    or the block belongs to a fork that leaves the active chain at [f], not
    deeper than the limit for reorganizations.  In this case either the coin
    has been created on the fork and not been spent there since; or no block of
    the fork creates or spends it, and on the active chain it is unspent and
    not younger than [f], or some block above [f] spends it (which does not
    exclude that a block above [f] has also created it, as
    [created_after_split] shows). *)
Theorem fork_spends_checked `{HashFunctions, SaplingTree} env base block prev n n' tip :
  tree_wf (blocks n) -> is_chain (blocks n) (st_active (n_state n)) tip -> stored (blocks n) prev ->
  CheckSpends env base block (Some prev) n = Return (n', inr tt) ->
  let coin o := utxo base (st_coins (n_state n)) o in
  NoDup (inputs block) /\ (forall stake, first_input block 1 = Some stake -> ~ names_own_tx block (prevout stake)) /\
  forall o, o ∈ inputs block -> names_own_tx block o \/
    (prev = tip /\ is_Some (coin o)) \/
    (prev <> tip /\ exists f, last_common (blocks n) prev tip f /\ bi_nHeight tip - bi_nHeight f <= nMaxReorgDepth env /\
       (survives n o f prev true \/
        survives n o f prev false /\ match coin o with Some c => coin_nHeight c <= bi_nHeight f | None => spent_above n f o end)).
Proof.
  intros W CH S E coin. destruct (active_tip_ok (blocks n) W (n_state n) tip CH) as [Tip _]. pose proof (proj1 CH) as ST.
  unfold CheckSpends in E. acc_inv E. destruct (CheckInBlockDoubleSpends_spec block a E0) as (ND & Own & Left). split; [done|].
  split. { intros stake F. apply Own; [done|]. by apply first_input_inputs. }
  unfold CheckForkSpends in E1. rewrite Tip in E1. rewrite bool_decide_eq_true_2 in E1 by done. cbn [andb fmap option_fmap option_map] in E1.
  assert (Hh : chain_Height (st_active (n_state n)) = bi_nHeight tip) by (unfold chain_Height; destruct CH as (_ & -> & _); lia).
  intros o I. destruct (decide (names_own_tx block o)) as [|NO]; [by left|right]. assert (Ia : o ∈ a) by by apply Left.
  case_bool_decide as Eh; cbn [negb] in E1.
  - left. injection Eh as Eh. assert (tip = prev) as <- by by apply (stored_inj (blocks n)). split; [done|].
    injection E1 as <- <-. unfold CheckActiveSpends in E. destruct (check_coins _ _ _ _ _) as [r coins] eqn:C. acc_inv E. subst r.
    apply (check_coins_spec base) in C as [_ C]. specialize (C o ltac:(by apply elem_of_elements)). unfold coin.
    destruct (utxo _ _ o); [done|by destruct C].
  - right. split; [intros ->; by apply Eh|]. acc_inv E1. injection E2 as <-. destruct a3 as [o1 f]. injection E1 as <- <-. subst a2. unfold CheckActiveSpends in E.
    apply (unspent_on_fork_spec env n W tip _ CH) in E3 as [LC Sv]; [|done]. exists f. split; [done|]. rewrite Hh in E.
    destruct (Z.ltb_spec (nMaxReorgDepth env) (bi_nHeight tip - bi_nHeight f)); [done|]. split; [lia|].
    destruct (Sv o Ia) as [[I1 V]|V]; [right|by left]. split; [done|].
    destruct (check_coins _ _ _ _ _) as [r coins] eqn:C. acc_inv E. subst r. apply check_coins_spec in C as [K C].
    specialize (C o ltac:(by apply elem_of_elements)). specialize (K o I1). unfold coin. destruct (utxo _ _ o); [done|]. specialize (K eq_refl).
    case_bool_decide as Em; [set_solver|]. acc_inv E. destruct a1; [|by apply check_inv in E as [? _]].
    unfold IsSpentOnActiveChain in E1. destruct (Contains _ f); [|done]. cbn [require] in E1.
    exact (spent_on_active_spec (set_state n _) W _ _ _ f E1 ltac:(lia) o K).
Qed.

(** A fork at height 1 of a chain of three: the stake is unspent, the next
    input is spent at height 2 of the active chain, the last is an output of
    the block. *)
Definition fork_node : Node (H := counting_tree) := {|
  n_tree := {| bt_map := line_map 3; pindexBestHeader := Some 3; setDirtyBlockIndex := ∅; mapPrevBlockIndex := [] |};
  n_state := {| st_status := ∅; st_candidates := ∅; st_active := [1; 2; 3]; st_coins := new_cache; st_undo := ∅;
                st_best_invalid := None; st_unlinked := [] |};
  n_sequence := ∅; nBlockSequenceId := 1;
  n_disk := {[3 := one_tx_block 2 1785920120 [simple_coinbase [pay 0]; simple_tx (ex_outpoint 0) [] SEQUENCE_FINAL [pay COIN]]]}
|}.

Definition fork_block : CBlock :=
  let second := simple_tx (ex_outpoint 0) [] SEQUENCE_FINAL [pay COIN] in
  one_tx_block 2 1785920120
    [simple_coinbase [pay 0]; simple_tx (small_coin 0) [] SEQUENCE_FINAL [{| nValue := 0; scriptPubKey := [] |}; pay COIN]; second;
     simple_tx {| op_hash := GetHash (H := checksum_hashes) second; op_n := 0 |} [] SEQUENCE_FINAL [pay COIN]].

Lemma fork_node_chain : is_chain (blocks fork_node) (st_active (n_state fork_node)) (line_index 2).
Proof.
  destruct (SetTip_spec (line_map 3) (line_map_wf 3) [1] (line_index 0) (line_index 2)) as (v & E & C);
    [apply (line_genesis_chain 3); lia|apply line_stored; lia|]. vm_compute in E. by injection E as <-.
Qed.

Lemma fork_spends_checked_witness : exists n',
  CheckSpends (H := checksum_hashes) example_env small_view fork_block (Some (line_index 1)) fork_node = Return (n', inr tt) /\
  NoDup (inputs fork_block) /\ size (inputs fork_block) = 3.
Proof.
  destruct (CheckSpends (H := checksum_hashes) example_env small_view fork_block (Some (line_index 1)) fork_node) as [[n' [st|[]]]| | |] eqn:E;
    [vm_compute in E; discriminate| |vm_compute in E; discriminate..].
  exists n'. split; [done|]. split; [|vm_compute; reflexivity].
  exact (proj1 (fork_spends_checked (H := checksum_hashes) example_env small_view fork_block (line_index 1) fork_node n' (line_index 2)
    (line_map_wf 3) fork_node_chain (line_stored 3 1 ltac:(lia)) E)).
Defined.

(** The coin of the second input is created at height 2 of the active chain and
    spent at height 3; a block of the fork at height 1, on which it does not
    exist, may spend it. *)
Definition late_tx : CTransaction := simple_tx (ex_outpoint 0) [] SEQUENCE_FINAL [pay COIN].
Definition late_coin : COutPoint := {| op_hash := GetHash (H := checksum_hashes) late_tx; op_n := 0 |}.

Definition late_node : Node (H := counting_tree) := {|
  n_tree := {| bt_map := line_map 4; pindexBestHeader := Some 4; setDirtyBlockIndex := ∅; mapPrevBlockIndex := [] |};
  n_state := {| st_status := ∅; st_candidates := ∅; st_active := [1; 2; 3; 4]; st_coins := new_cache; st_undo := ∅;
                st_best_invalid := None; st_unlinked := [] |};
  n_sequence := ∅; nBlockSequenceId := 1;
  n_disk := {[3 := one_tx_block 2 1785920120 [simple_coinbase [pay 0]; late_tx];
              4 := one_tx_block 3 1785920180 [simple_coinbase [pay 0]; simple_tx late_coin [] SEQUENCE_FINAL [pay COIN]]]}
|}.

Example created_after_split : match
  CheckSpends (H := checksum_hashes) example_env small_view
    (one_tx_block 2 1785920120 [simple_coinbase [pay 0]; simple_tx (small_coin 0) [] SEQUENCE_FINAL [{| nValue := 0; scriptPubKey := [] |}; pay COIN];
                                simple_tx late_coin [] SEQUENCE_FINAL [pay COIN]]) (Some (line_index 1)) late_node with
  | Return (_, inr tt) => True | _ => False end.
Proof. vm_compute. exact I. Qed.

(** With the checkpoints switched off every parent counts as the block of a
    checkpoint: a block is never refused because its parent has failed, and
    the mark of the parent is taken back. *)
Theorem failed_parent_reconsidered `{HashFunctions, Ecdsa, SaplingTree} p env base invalid threads addr (block : CBlock) n q n' st :
  fCheckpointsEnabled env = false -> blocks n !! hashPrevBlock block = Some q ->
  GetPrevIndex p env base invalid threads addr block n <> Return (n', inl st).
Proof.
  intros C L. unfold GetPrevIndex. destruct (_ =? _); [done|]. rewrite get_bind, L.
  destruct (failed _ _); [|done]. unfold Checkpoints_CheckBlock. rewrite C. cbn [negb]. rewrite lift_bind.
  destruct (ReconsiderBlock _ _ _) as [n1| | |]; cbn [mbind run_bind]; [|done..]. rewrite lift_bind.
  by destruct (Activate p env base invalid threads addr None n1) as [[ok n2]| | |].
Qed.
