(* ===== verification/NodeRun.v ===== *)
(** * The node stays consistent

    What blocks received, invalidated and reconsidered in any order leave of
    the node: the tree of block indexes, the counts of transactions, the
    candidates and the active chain fit together, so that the choice of the
    best chain always works. *)

From S2P Require Import Prelude Params Crypto Serialize Script Transaction Superblock ValidationState ArithUint256 Chain Pow Coins.
From S2P Require Import TxVerify Interpreter Stake CheckBlock Connect Supply Activate Accept.

(** ** Trees that differ in counts only *)

Definition strip (i : CBlockIndex) : CBlockIndex := with_counts i 0 0 0 0 None.

Definition same_tree (m m' : BlockMap) : Prop := strip <$> m = strip <$> m'.

#[export] Instance same_tree_equiv : Equivalence same_tree.
Proof. split; unfold same_tree; repeat intros ?; congruence. Qed.

(** Equal but for counts: the fields that the tree is made of. *)
Ltac strip_fields E :=
  let rec add f := pose proof (f_equal f E : f _ = f _) in
  add phashBlock; add pprev; add pskip; add bi_nHeight; add nChainWork; add nTimeMax; add bi_nTime; add bi_nBits; add vStakeModifier;
  cbn [strip with_counts phashBlock pprev pskip bi_nHeight nChainWork nTimeMax bi_nTime bi_nBits vStakeModifier] in *.

Section Same.
Context (m m' : BlockMap) (Same : same_tree m m').

Lemma same_lookup k i : m !! k = Some i -> exists i', m' !! k = Some i' /\ strip i = strip i'.
Proof.
  intros L. assert (E : (strip <$> m) !! k = (strip <$> m') !! k) by (exact (f_equal (lookup k) Same)). rewrite !lookup_fmap, L in E.
  destruct (m' !! k) as [i'|]; [|done]. apply (inj Some) in E. by exists i'.
Qed.

Lemma same_parent i i' q : strip i = strip i' -> parent m i = Some q -> exists q', parent m' i' = Some q' /\ strip q = strip q'.
Proof.
  intros E P. strip_fields E. unfold parent in *. replace (pprev i') with (pprev i) by done. destruct (pprev i) as [k|]; [|done].
  cbn [mbind option_bind] in *. by apply same_lookup.
Qed.

Lemma same_up n : forall i i' a, strip i = strip i' -> up n m i = Some a -> exists a', up n m' i' = Some a' /\ strip a = strip a'.
Proof.
  induction n as [|n IH]; intros i i' a E; cbn [up]; [intros [= <-]; by exists i'|].
  destruct (parent m i) as [q|] eqn:P; [|done]. cbn [mbind option_bind]. intros U.
  destruct (same_parent i i' q E P) as (q' & -> & Eq). cbn [mbind option_bind]. by eapply IH.
Qed.

Lemma same_ancestor i i' a : strip i = strip i' -> is_ancestor m a i -> exists a', is_ancestor m' a' i' /\ strip a = strip a'.
Proof.
  intros E [L A]. unfold ancestor in A. destruct (same_up _ _ _ _ E A) as (a' & A' & Ea). exists a'. split; [|done].
  strip_fields E. strip_fields Ea. split; [lia|]. unfold ancestor. replace (bi_nHeight i' - bi_nHeight a') with (bi_nHeight i - bi_nHeight a) by lia. done.
Qed.

End Same.

Lemma same_wf m m' : same_tree m m' -> tree_wf m -> tree_wf m'.
Proof.
  intros Same W k i' L'. destruct (same_lookup m' m (symmetry Same) k i' L') as (i & L & E). destruct (W k i L) as (K & NZ & H0 & R & P).
  strip_fields E. split; [congruence|]. split; [done|]. split; [lia|]. split; [intros; rewrite H1; apply R; lia|].
  intros Pos. destruct P as [(q & Q & Hq) (s & Sk & As)]; [lia|]. split.
  - destruct (same_parent m m' Same i i' q) as (q' & -> & Eq); [done..|]. exists q'. split; [done|]. strip_fields Eq. lia.
  - unfold ancestor in *. destruct (same_up m m' Same _ i i' s (symmetry E) As) as (s' & Us & Es). exists s'. strip_fields Es.
    split; [congruence|]. replace (bi_nHeight i') with (bi_nHeight i) by done. done.
Qed.

(** A stored block and its counterpart. *)
Lemma same_stored m m' i : same_tree m m' -> stored m i -> exists i', stored m' i' /\ strip i = strip i'.
Proof.
  intros Same S. destruct (same_lookup m m' Same _ i S) as (i' & L & E). exists i'. split; [|done]. unfold stored. strip_fields E. congruence.
Qed.

Lemma same_parent_none m m' i i' : same_tree m m' -> strip i = strip i' -> parent m i = None -> parent m' i' = None.
Proof.
  intros Same E P. destruct (parent m' i') as [q'|] eqn:P'; [|done].
  destruct (same_parent m' m (symmetry Same) i' i q' (symmetry E) P') as (q & Q & _). congruence.
Qed.

Lemma same_root m m' : same_tree m m' -> tree_wf m -> single_root m -> single_root m'.
Proof.
  intros Same W R i' j' Si Sj Hi Hj. destruct (same_stored m' m i' (symmetry Same) Si) as (i & S1 & E1).
  destruct (same_stored m' m j' (symmetry Same) Sj) as (j & S2 & E2). apply (stored_inj m'); [done..|].
  assert (i = j) as -> by (strip_fields E1; strip_fields E2; apply R; [done..|lia|lia]). strip_fields E1. strip_fields E2. congruence.
Qed.

Definition work_grows (m : BlockMap) : Prop := forall i q, stored m i -> parent m i = Some q -> nChainWork q < nChainWork i.

Lemma same_work m m' : same_tree m m' -> work_grows m -> work_grows m'.
Proof.
  intros Same Wk i' q' S P. destruct (same_stored m' m i' (symmetry Same) S) as (i & S1 & E1).
  destruct (same_parent m' m (symmetry Same) i' i q' E1 P) as (q & Q & E2). specialize (Wk i q S1 Q). strip_fields E1. strip_fields E2. lia.
Qed.

Lemma same_chain m m' v tip : same_tree m m' -> is_chain m v tip -> exists tip', is_chain m' v tip' /\ strip tip = strip tip'.
Proof.
  intros Same (S & L & A). destruct (same_stored m m' tip Same S) as (tip' & S' & E). exists tip'. split; [|done].
  split; [done|]. split; [strip_fields E; lia|]. intros j' J'. destruct (same_ancestor m' m (symmetry Same) tip' tip j' (symmetry E) J') as (j & J & Ej).
  specialize (A j J). unfold on_chain in *. strip_fields Ej. congruence.
Qed.

Lemma same_inv p t t' : same_tree (bt_map t) (bt_map t') -> pindexBestHeader t' = pindexBestHeader t ->
  mapPrevBlockIndex t' = mapPrevBlockIndex t -> tree_inv p t -> tree_inv p t'.
Proof.
  intros Same Bh Ch [W Tot Mod Best Chi]. pose proof (symmetry Same) as Back. split.
  - by eapply same_wf.
  - intros k i' L'. destruct (same_lookup _ _ Back k i' L') as (i & L & E). destruct (Tot k i L) as (w & Pr & X). exists w.
    destruct (parent (bt_map t) i) as [q|] eqn:P.
    + destruct (same_parent _ _ Same i i' q (symmetry E) P) as (q' & -> & Eq). strip_fields E. strip_fields Eq. split; [congruence|].
      destruct X. split; congruence.
    + rewrite (same_parent_none _ _ i i' Same (symmetry E) P). strip_fields E. split; [congruence|]. destruct X. split; congruence.
  - intros k i' L'. destruct (same_lookup _ _ Back k i' L') as (i & L & E). specialize (Mod k i L). unfold modifier_ok in *. strip_fields E.
    by replace (vStakeModifier i') with (vStakeModifier i) by done; replace (bi_nHeight i') with (bi_nHeight i) by done; replace (pprev i') with (pprev i) by done.
  - intros k i' L'. destruct (same_lookup _ _ Back k i' L') as (i & L & E). destruct (Best k i L) as (kb & b & Eb & Lb & Le).
    destruct (same_lookup _ _ Same kb b Lb) as (b' & Lb' & E'). exists kb, b'. split; [congruence|]. split; [done|]. strip_fields E. strip_fields E'. lia.
  - intros kp k. rewrite Ch, Chi. split; intros (i & L & P).
    + destruct (same_lookup _ _ Same k i L) as (i' & L' & E). exists i'. strip_fields E. split; congruence.
    + destruct (same_lookup _ _ Back k i L) as (i' & L' & E). exists i'. strip_fields E. split; congruence.
Qed.

(** ** Transactions of a chain *)

Fixpoint txs_up (n : nat) (m : BlockMap) (i : CBlockIndex) : Z :=
  nTx i + match n with O => 0 | S n => match parent m i with Some q => txs_up n m q | None => 0 end end.

(** The transactions of a block and of all blocks below it. *)
Definition chain_txs (m : BlockMap) (i : CBlockIndex) : Z := txs_up (Z.to_nat (bi_nHeight i)) m i.

Section Txs.
Context (m : BlockMap) (W : tree_wf m).

Lemma stored_parent_height i q : stored m i -> parent m i = Some q -> bi_nHeight i = bi_nHeight q + 1 /\ stored m q.
Proof.
  intros S P. pose proof (stored_height m W i S). destruct (decide (bi_nHeight i = 0)) as [Z0|NZ].
  { by rewrite (stored_root m W i S Z0) in P. }
  destruct (stored_parent m W i S) as (q' & P' & Hq & SQ); [lia|]. assert (q' = q) as -> by congruence. split; [lia|done].
Qed.

Lemma chain_txs_parent i q : stored m i -> parent m i = Some q -> chain_txs m i = nTx i + chain_txs m q.
Proof.
  intros S P. destruct (stored_parent_height i q S P) as [Hq SQ]. pose proof (stored_height m W q SQ). unfold chain_txs.
  replace (Z.to_nat (bi_nHeight i)) with (Datatypes.S (Z.to_nat (bi_nHeight q))) by lia. cbn [txs_up]. by rewrite P.
Qed.

Lemma chain_txs_root i : stored m i -> parent m i = None -> chain_txs m i = nTx i.
Proof.
  intros S P. pose proof (stored_height m W i S). destruct (decide (bi_nHeight i = 0)) as [Z0|NZ].
  { unfold chain_txs. rewrite Z0. change (Z.to_nat 0) with O. cbn [txs_up]. lia. }
  destruct (stored_parent m W i S) as (q & P' & _); [lia|congruence].
Qed.

(** Induction from the root up. *)
Lemma stored_ind (P : CBlockIndex -> Prop) :
  (forall i, stored m i -> (forall q, parent m i = Some q -> stored m q -> P q) -> P i) -> forall i, stored m i -> P i.
Proof.
  intros Step i. remember (Z.to_nat (bi_nHeight i)) as h eqn:E. revert i E. induction h as [h IH] using lt_wf_ind. intros i -> S.
  apply Step; [done|]. intros q Q SQ. destruct (stored_parent_height i q S Q) as [Hq _]. pose proof (stored_height m W q SQ).
  apply (IH (Z.to_nat (bi_nHeight q))); [lia|done..].
Qed.

End Txs.

(** Where the blocks on the way have the same transactions, so have the chains. *)
Lemma chain_txs_same m m' i : same_tree m m' -> tree_wf m -> stored m i ->
  forall i', stored m' i' -> strip i = strip i' ->
  (forall a a', is_ancestor m a i -> stored m' a' -> strip a = strip a' -> nTx a = nTx a') -> chain_txs m i = chain_txs m' i'.
Proof.
  intros Same W S. pose proof (same_wf m m' Same W) as W'. revert i S.
  refine (stored_ind m W _ _). intros i S IH i' S' E Tx. pose proof (Tx i i' (is_ancestor_refl m W i S) S' E) as Ti.
  destruct (parent m i) as [q|] eqn:P.
  - destruct (same_parent m m' Same i i' q E P) as (q' & P' & Eq). destruct (stored_parent_height m W i q S P) as [_ SQ].
    destruct (stored_parent_height m' W' i' q' S' P') as [_ SQ'].
    rewrite (chain_txs_parent m W i q), (chain_txs_parent m' W' i' q'), Ti by done. f_equal. apply IH; try done.
    intros a a' A. apply Tx. apply (is_ancestor_trans m W a q i); [done..|by apply is_ancestor_parent].
  - rewrite (chain_txs_root m W i), (chain_txs_root m' W' i'); try done. by eapply same_parent_none.
Qed.

(** One block gets [d] more transactions: no chain gets more. *)
Lemma chain_txs_grow m m' k d i : same_tree m m' -> tree_wf m -> 0 <= d ->
  (forall j j', stored m j -> stored m' j' -> strip j = strip j' -> nTx j' <= nTx j + (if phashBlock j =? k then d else 0)) ->
  (forall j, stored m j -> 0 <= nTx j) -> stored m i ->
  forall i', stored m' i' -> strip i = strip i' -> chain_txs m' i' <= chain_txs m i + d.
Proof.
  intros Same W D Tx NN. pose proof (same_wf m m' Same W) as W'. intros S.
  enough (X : forall i', stored m' i' -> strip i = strip i' ->
    chain_txs m' i' <= chain_txs m i + d /\ ((forall a, is_ancestor m a i -> phashBlock a <> k) -> chain_txs m' i' <= chain_txs m i))
    by (intros i' S' E; by apply X).
  revert i S. refine (stored_ind m W _ _). intros i S IH i' S' E. specialize (Tx i i' S S' E).
  destruct (parent m i) as [q|] eqn:P.
  - destruct (same_parent m m' Same i i' q E P) as (q' & P' & Eq). destruct (stored_parent_height m W i q S P) as [Hq SQ].
    destruct (stored_parent_height m' W' i' q' S' P') as [_ SQ'].
    rewrite (chain_txs_parent m W i q), (chain_txs_parent m' W' i' q') by done. destruct (IH q eq_refl SQ q' SQ' Eq) as [B1 B2].
    assert (Up : forall a, is_ancestor m a q -> is_ancestor m a i)
      by (intros a A; apply (is_ancestor_trans m W a q i); [done..|by apply is_ancestor_parent]).
    destruct (Z.eqb_spec (phashBlock i) k) as [Ek|Nk].
    + assert (chain_txs m' q' <= chain_txs m q); [|split; [lia|intros A; by destruct (A i (is_ancestor_refl m W i S))]].
      apply B2. intros a A Ea. assert (a = i) as -> by (apply (stored_inj m); [by apply (is_ancestor_stored m W a q)|done|congruence]).
      destruct A as [L _]. lia.
    + split; [lia|]. intros A. assert (chain_txs m' q' <= chain_txs m q) by (apply B2; intros a Aa; by apply A, Up). lia.
  - rewrite (chain_txs_root m W i), (chain_txs_root m' W' i'); [|done|by eapply same_parent_none|done..].
    destruct (Z.eqb_spec (phashBlock i) k) as [Ek|Nk]; (split; [lia|]); [|lia].
    intros A. by destruct (A i (is_ancestor_refl m W i S)).
Qed.

(** ** An index is overwritten *)

Section Insert.
Context (m : BlockMap) (W : tree_wf m) (i i1 : CBlockIndex) (S : stored m i) (E : strip i1 = strip i).
Let m1 : BlockMap := <[phashBlock i1 := i1]> m.

Lemma ins_key : phashBlock i1 = phashBlock i.
Proof. by strip_fields E. Qed.

Lemma ins_same : same_tree m m1.
Proof. unfold same_tree, m1. rewrite fmap_insert, E, insert_id; [done|]. rewrite lookup_fmap, ins_key, S. done. Qed.

Lemma ins_new : stored m1 i1.
Proof. apply lookup_insert_eq. Qed.

Lemma ins_lookup k j : m !! k = Some j -> m1 !! k = Some (if k =? phashBlock i then i1 else j).
Proof.
  intros L. unfold m1. rewrite ins_key. destruct (Z.eqb_spec k (phashBlock i)) as [->|N]; [apply lookup_insert_eq|by rewrite lookup_insert_ne].
Qed.

Lemma ins_stored j : stored m1 j -> j = i1 \/ stored m j /\ phashBlock j <> phashBlock i.
Proof.
  unfold stored, m1. intros L. apply lookup_insert_Some in L as [[_ <-]|[N L]]; [by left|right]. rewrite ins_key in N. by split.
Qed.

Lemma ins_parent j j' q1 : pprev j = pprev j' -> parent m1 j = Some q1 -> exists q, parent m j' = Some q /\ (q1 = i1 /\ q = i \/ q1 = q).
Proof.
  unfold parent. intros <-. destruct (pprev j) as [k|]; [|done]. cbn [mbind option_bind]. unfold m1. intros L.
  apply lookup_insert_Some in L as [[<- <-]|[N L]]; [exists i; rewrite ins_key; split; [exact S|by left]|exists q1; split; [done|by right]].
Qed.

(** The transactions of the chains, if the block keeps its own. *)
Lemma ins_txs j j' : nTx i1 = nTx i -> stored m j -> stored m1 j' -> strip j = strip j' -> chain_txs m1 j' = chain_txs m j.
Proof.
  intros T Sj Sj' Ej. symmetry. apply (chain_txs_same m m1); [apply ins_same|done..|]. intros a a' A Sa' Ea.
  assert (Sa : stored m a) by by apply (is_ancestor_stored m W a j). strip_fields Ea.
  apply ins_stored in Sa' as [->|[Sa' _]]; [|by rewrite (stored_inj m a a')].
  rewrite T. rewrite (stored_inj m a i); [done..|]. rewrite <- ins_key. done.
Qed.

End Insert.

(** ** What holds of the counts *)

Section Counts.
Context `{SaplingTree}.

(** A block that counts is on disk, after a block that counts; its count is
    the number of transactions of its chain; blocks that wait are on disk. *)
Record counts_ok (m : BlockMap) (s : ActivationState) : Prop := {
  co_links : forall i q, stored m i -> nChainTx i <> 0 -> parent m i = Some q -> nChainTx q <> 0;
  co_count : forall i, stored m i -> nChainTx i <> 0 -> nChainTx i = chain_txs m i;
  co_data : forall i, stored m i -> nChainTx i <> 0 -> missing s i = false;
  co_tx : forall i, stored m i -> if missing s i then nTx i = 0 else 0 < nTx i;
  co_valid : forall i, stored m i -> tree_valid s i;
  co_unlinked : forall kp k, (kp, k) ∈ st_unlinked s -> exists i, m !! k = Some i /\ pprev i = kp /\ missing s i = false;
  co_candidates : forall k, k ∈ st_candidates s -> exists i, m !! k = Some i /\ nChainTx i <> 0
}.

(** Every block on disk counts, or waits for a parent that does not count. *)
Definition nothing_lost (m : BlockMap) (s : ActivationState) : Prop := forall i, stored m i -> missing s i = false -> nChainTx i = 0 ->
  (pprev i, phashBlock i) ∈ st_unlinked s /\ exists q, parent m i = Some q /\ nChainTx q = 0.

Definition room (m : BlockMap) (d : Z) : Prop := forall i, stored m i -> chain_txs m i + d < 2 ^ 32.

Lemma tx_nonneg m s i : counts_ok m s -> stored m i -> 0 <= nTx i.
Proof. intros C S. pose proof (co_tx _ _ C i S) as T. destruct (missing s i); lia. Qed.

Lemma chain_txs_nonneg m s i : tree_wf m -> counts_ok m s -> stored m i -> nTx i <= chain_txs m i.
Proof.
  intros W C S. revert i S. refine (stored_ind m W _ _). intros i S IH. destruct (parent m i) as [q|] eqn:P.
  - destruct (stored_parent_height m W i q S P) as [_ SQ]. rewrite (chain_txs_parent m W i q) by done.
    pose proof (IH q eq_refl SQ). pose proof (tx_nonneg m s q C SQ). lia.
  - rewrite (chain_txs_root m W i); done || lia.
Qed.

(** What counts is linked; in a tree whose root counts, the converse. *)
Lemma counts_linked m s i : tree_wf m -> counts_ok m s -> stored m i -> nChainTx i <> 0 -> forall a, is_ancestor m a i -> nChainTx a <> 0.
Proof.
  intros W C S. revert i S. refine (stored_ind m W _ _). intros i S IH N a A. destruct (decide (bi_nHeight a = bi_nHeight i)) as [Eh|Nh].
  { destruct A as [_ A]. rewrite Eh, ancestor_self in A. by injection A as <-. }
  destruct (A) as [L _]. destruct (stored_parent m W i S) as (q & P & _ & SQ); [lia|].
  apply (IH q P SQ); [by apply (co_links _ _ C i q)|]. apply (is_ancestor_below m W a i q); congruence.
Qed.

End Counts.

(** ** The queue *)

Section Link.
Context `{SaplingTree} (addr : Z -> Z).

Record link_inv (n : Node) (queue : list Z) : Prop := {
  li_wf : tree_wf (blocks n);
  li_counts : counts_ok (blocks n) (n_state n);
  li_room : room (blocks n) 0;
  li_queue : forall k, k ∈ queue -> exists i, blocks n !! k = Some i /\ missing (n_state n) i = false /\
    forall q, parent (blocks n) i = Some q -> nChainTx q <> 0
}.

(** What linking leaves alone, and what it only adds to. *)
Record links_to (n n' : Node) : Prop := {
  lt_same : same_tree (blocks n) (blocks n');
  lt_tx : forall k i i', blocks n !! k = Some i -> blocks n' !! k = Some i' -> nTx i' = nTx i /\ (nChainTx i <> 0 -> nChainTx i' <> 0);
  lt_best : pindexBestHeader (n_tree n') = pindexBestHeader (n_tree n);
  lt_prev : mapPrevBlockIndex (n_tree n') = mapPrevBlockIndex (n_tree n);
  lt_status : st_status (n_state n') = st_status (n_state n);
  lt_active : st_active (n_state n') = st_active (n_state n);
  lt_coins : st_coins (n_state n') = st_coins (n_state n)
}.

#[export] Instance links_to_preorder : PreOrder links_to.
Proof.
  split; [intros n; split; try done; intros; simplify_eq; done|]. intros a b c [S1 T1 B1 P1 U1 A1 O1] [S2 T2 B2 P2 U2 A2 O2].
  split; [by etrans| |congruence..]. intros k i i'' L L''. destruct (same_lookup _ _ S1 k i L) as (i' & L' & _).
  destruct (T1 k i i' L L') as [E1 N1]. destruct (T2 k i' i'' L' L'') as [E2 N2]. split; [congruence|auto].
Qed.

(** The blocks that are still to be linked. *)
Definition waits (n : Node) (queue : list Z) : Prop := forall i, stored (blocks n) i -> missing (n_state n) i = false -> nChainTx i = 0 ->
  phashBlock i ∈ queue \/
  (pprev i, phashBlock i) ∈ st_unlinked (n_state n) /\ exists q, parent (blocks n) i = Some q /\ nChainTx q = 0.

Lemma missing_ext (s s' : ActivationState) i : st_status s' = st_status s -> missing s' i = missing s i.
Proof. unfold missing, status. by intros ->. Qed.

Lemma missing_strip (s : ActivationState) i j : phashBlock i = phashBlock j -> missing s i = missing s j.
Proof. unfold missing, status. by intros ->. Qed.

(** The new count. *)
Lemma link_count n k queue i : link_inv n (k :: queue) -> blocks n !! k = Some i ->
  u32 (match parent (blocks n) i with Some prev => nChainTx prev | None => 0 end + nTx i) = chain_txs (blocks n) i /\ 0 < chain_txs (blocks n) i.
Proof.
  intros [W C R Q] L. destruct (Q k ltac:(set_solver)) as (i' & L' & D & P). assert (i' = i) as -> by congruence. clear L'.
  destruct (stored_key (blocks n) W k i L) as [S <-]. pose proof (co_tx _ _ C i S) as T. rewrite D in T.
  specialize (R i S). pose proof (chain_txs_nonneg _ _ i W C S) as B. split; [|lia]. destruct (parent (blocks n) i) as [q|] eqn:Pi.
  - destruct (stored_parent_height _ W i q S Pi) as [_ SQ]. rewrite (co_count _ _ C q SQ) by by apply P.
    rewrite (chain_txs_parent _ W i q) in * by done. rewrite uint_id; lia.
  - rewrite (chain_txs_root _ W i) in * by done. rewrite uint_id; lia.
Qed.

(** A block on disk whose parent counts is given its count. *)
Lemma counts_link m s s1 i i1 : tree_wf m -> stored m i -> strip i1 = strip i -> counts_ok m s ->
  nTx i1 = nTx i -> nChainTx i1 = chain_txs m i -> nChainTx i1 <> 0 -> missing s i = false ->
  (forall q, parent m i = Some q -> nChainTx q <> 0) -> st_status s1 = st_status s ->
  (forall e, e ∈ st_unlinked s1 -> e ∈ st_unlinked s) -> (forall k, k ∈ st_candidates s1 -> k = phashBlock i \/ k ∈ st_candidates s) ->
  counts_ok (<[phashBlock i1 := i1]> m) s1.
Proof.
  intros W S E C T Cn N D P St Un Ca. pose proof (ins_key i i1 E) as Ky. pose proof E as E'. strip_fields E'.
  assert (Di : missing s i1 = false) by by rewrite (missing_strip s i1 i).
  assert (Pq : forall j j' q1, pprev j = pprev j' -> parent (<[phashBlock i1 := i1]> m) j = Some q1 ->
    (forall q, parent m j' = Some q -> nChainTx q <> 0) -> nChainTx q1 <> 0).
  { intros j j' q1 Ej P1 A. destruct (ins_parent m i i1 S E j j' q1 Ej P1) as (q & Q & [[-> _]| ->]); [done|by apply A]. }
  split.
  - intros j q1 Sj Nj P1. apply (ins_stored m i i1 E) in Sj as [->|[Sj _]]; [by apply (Pq i1 i)|].
    apply (Pq j j q1 eq_refl P1). intros q. by apply (co_links _ _ C j).
  - intros j Sj Nj. pose proof (ins_stored m i i1 E j Sj) as [->|[Sj' _]].
    + by rewrite (ins_txs m W i i1 S E i i1).
    + rewrite (ins_txs m W i i1 S E j j) by done. by apply (co_count _ _ C).
  - intros j Sj Nj. rewrite (missing_ext s s1 j St). apply (ins_stored m i i1 E) in Sj as [->|[Sj _]]; [done|by apply (co_data _ _ C)].
  - intros j Sj. rewrite (missing_ext s s1 j St). apply (ins_stored m i i1 E) in Sj as [->|[Sj _]]; [|by apply (co_tx _ _ C)].
    pose proof (co_tx _ _ C i S) as X. rewrite D in X. rewrite Di. lia.
  - intros j Sj. unfold tree_valid, status. rewrite St. apply (ins_stored m i i1 E) in Sj as [->|[Sj _]]; [rewrite Ky|]; by apply (co_valid _ _ C).
  - intros kp k I. apply Un in I. destruct (co_unlinked _ _ C kp k I) as (j & L0 & Pj & Dj). pose proof (ins_lookup m i i1 E k j L0) as L.
    exists (if k =? phashBlock i then i1 else j). split; [done|]. destruct (Z.eqb_spec k (phashBlock i)) as [->|]; rewrite (missing_ext s s1 _ St); [|done].
    split; [|done]. unfold stored in S. congruence.
  - intros k I. apply Ca in I as [->|I]; [exists i1; split; [rewrite Ky; apply lookup_insert_eq|done]|].
    destruct (co_candidates _ _ C k I) as (j & L & Nj). apply (ins_lookup m i i1 E) in L. eexists. split; [exact L|]. by destruct (_ =? _).
Qed.

(** The shape of a turn. *)
Lemma link_one_shape n k i : tree_wf (blocks n) -> blocks n !! k = Some i -> exists i1 n' children,
  link_one addr n k = Return (n', children) /\ strip i1 = strip i /\ nTx i1 = nTx i /\
  nChainTx i1 = u32 (match parent (blocks n) i with Some prev => nChainTx prev | None => 0 end + nTx i) /\
  blocks n' = <[phashBlock i1 := i1]> (blocks n) /\
  pindexBestHeader (n_tree n') = pindexBestHeader (n_tree n) /\ mapPrevBlockIndex (n_tree n') = mapPrevBlockIndex (n_tree n) /\
  st_status (n_state n') = st_status (n_state n) /\ st_active (n_state n') = st_active (n_state n) /\ st_coins (n_state n') = st_coins (n_state n) /\
  (forall c, c ∈ st_candidates (n_state n') -> c = k \/ c ∈ st_candidates (n_state n)) /\
  st_unlinked (n_state n') = filter (fun e => fst e <> Some k) (st_unlinked (n_state n)) /\
  children = snd <$> filter (fun e => fst e = Some k) (st_unlinked (n_state n)).
Proof.
  intros W L. unfold link_one. rewrite L. cbn [deref mbind run_bind].
  exists (with_counts i (nTx i) (u32 (match parent (blocks n) i with Some prev => nChainTx prev | None => 0 end + nTx i)) (nFlags i)
    (nSaplingValue i) (SetChainSaplingValue (blocks n) i)). eexists _, _. split; [reflexivity|].
  split; [reflexivity|]. split; [reflexivity|]. split; [reflexivity|]. split; [reflexivity|]. split; [reflexivity|]. split; [reflexivity|].
  set (b := match active_tip _ _ with None => true | Some tip => _ end). clearbody b. destruct b; cbn; split_and!; try done; set_solver.
Qed.

Lemma filter_split_length {A} (P : A -> Prop) `{!forall x, Decision (P x)} (l : list A) :
  (List.length (filter P l) + List.length (filter (fun x => ~ P x) l) = List.length l)%nat.
Proof.
  induction l as [|x l IH]; [done|]. rewrite !filter_cons. destruct (decide (P x)), (decide (~ P x)); try done; cbn; lia.
Qed.

Lemma link_one_spec n k queue : link_inv n (k :: queue) -> exists n' children,
  link_one addr n k = Return (n', children) /\ link_inv n' (queue ++ children) /\ links_to n n' /\
  (waits n (k :: queue) -> waits n' (queue ++ children)) /\
  (List.length children + List.length (st_unlinked (n_state n')) = List.length (st_unlinked (n_state n)))%nat /\
  forall i', blocks n' !! k = Some i' -> nChainTx i' <> 0.
Proof.
  intros I. pose proof I as [W C R Q]. destruct (Q k ltac:(set_solver)) as (i & L & D & P). destruct (link_count n k queue i I L) as [Cn Pos].
  destruct (link_one_shape n k i W L) as (i1 & n' & ch & E & Es & T & Nc & Bl & Bh & Pv & St & Ac & Co & Ca & Un & Ch). rewrite Cn in Nc.
  destruct (stored_key (blocks n) W k i L) as [S Ek]. pose proof (ins_key i i1 Es) as Ky. pose proof (ins_same _ i i1 S Es) as Same.
  exists n', ch. split; [done|].
  assert (C' : counts_ok (blocks n') (n_state n')).
  { rewrite Bl. apply (counts_link (blocks n) (n_state n) (n_state n') i i1); try done; [lia| |by rewrite Ek].
    rewrite Un. intros e X. by apply list_elem_of_filter in X as [_ X]. }
  assert (Copy : forall c j, blocks n !! c = Some j -> exists j1, <[phashBlock i1 := i1]> (blocks n) !! c = Some j1 /\
    pprev j1 = pprev j /\ missing (n_state n') j1 = missing (n_state n) j).
  { intros c j Lj. pose proof (ins_lookup _ i i1 Es c j Lj) as Lj1. eexists. split; [exact Lj1|]. rewrite (missing_ext _ _ _ St).
    destruct (Z.eqb_spec c (phashBlock i)) as [->|]; [|done]. unfold stored in S. rewrite S in Lj. injection Lj as <-.
    pose proof Es as Ef. strip_fields Ef. split; [done|by apply missing_strip]. }
  split; [|split; [|split; [|split]]].
  - split; [rewrite Bl; by eapply same_wf|done| |].
    + intros j' Sj'. rewrite Bl in *. destruct (same_stored _ _ j' (symmetry Same) Sj') as (j & Sj & Ej).
      rewrite (ins_txs _ W i i1 S Es j j') by done. by apply R.
    + intros c Ic. rewrite Bl. apply elem_of_app in Ic as [Ic|Ic].
      * destruct (Q c ltac:(set_solver)) as (j & Lj & Dj & Pj). destruct (Copy c j Lj) as (j1 & Lj1 & Pj1 & Dj1).
        exists j1. split; [done|]. split; [congruence|]. intros q1 P1.
        destruct (ins_parent _ i i1 S Es j1 j q1 Pj1 P1) as (q & Hq & [[-> _]| ->]); [lia|by apply Pj].
      * subst ch. apply list_elem_of_fmap in Ic as ([kp c'] & -> & F). apply list_elem_of_filter in F as [Ekp F]. cbn [fst snd] in *. subst kp.
        destruct (co_unlinked _ _ C _ _ F) as (j & Lj & Pj & Dj). destruct (Copy c' j Lj) as (j1 & Lj1 & Pj1 & Dj1).
        exists j1. split; [done|]. split; [congruence|]. unfold parent. rewrite Pj1, Pj. cbn [mbind option_bind].
        rewrite <- Ek, <- Ky, lookup_insert_eq. intros q1 [= <-]. lia.
  - split; try done; [by rewrite Bl|]. rewrite Bl. intros c a a' La La'. rewrite (ins_lookup _ i i1 Es c a La) in La'. injection La' as <-.
    destruct (Z.eqb_spec c (phashBlock i)) as [->|]; [|done]. unfold stored in S. rewrite S in La. injection La as <-. split; [done|lia].
  - intros Wt j Sj Dj Nj. rewrite Bl in Sj. apply (ins_stored _ i i1 Es) in Sj as [->|[Sj Nk]]; [lia|].
    rewrite (missing_ext _ _ j St) in Dj. destruct (Wt j Sj Dj Nj) as [X|(X & q & Pq & Nq)].
    + left. apply elem_of_cons in X as [X|X]; [congruence|set_solver].
    + destruct (decide (pprev j = Some k)) as [Pk|Pk].
      * left. apply elem_of_app. right. subst ch. apply list_elem_of_fmap. exists (pprev j, phashBlock j). split; [done|].
        by apply list_elem_of_filter.
      * right. rewrite Un. split; [by apply list_elem_of_filter|]. exists q. split; [|done]. rewrite Bl. unfold parent in *.
        destruct (pprev j) as [kq|]; [|done]. cbn [mbind option_bind] in *. rewrite lookup_insert_ne; congruence.
  - subst ch. rewrite Un, length_fmap. apply filter_split_length.
  - intros i'. rewrite Bl, <- Ek, <- Ky, lookup_insert_eq. intros [= <-]. lia.
Qed.

Lemma link_queue_spec fuel : forall n queue, link_inv n queue ->
  (List.length queue + List.length (st_unlinked (n_state n)) <= fuel)%nat -> exists n',
  link_queue addr fuel queue n = Return n' /\ link_inv n' [] /\ links_to n n' /\ (waits n queue -> waits n' []).
Proof.
  induction fuel as [|fuel IH]; intros n [|k queue] I F; try (cbn in F; lia); cbn [link_queue]; [by exists n..|].
  destruct (link_one_spec n k queue I) as (n1 & ch & -> & I1 & L1 & W1 & Len & _). cbn [mbind run_bind].
  destruct (IH n1 (queue ++ ch) I1) as (n' & E & I' & L' & W').
  { rewrite length_app. cbn in F. lia. }
  exists n'. split; [done|]. split; [done|]. split; [by etrans|auto].
Qed.

(** What receiving a block leaves alone. *)
Record receives (n n' : Node) : Prop := {
  rc_same : same_tree (blocks n) (blocks n');
  rc_count : forall k i i', blocks n !! k = Some i -> blocks n' !! k = Some i' -> nChainTx i <> 0 -> nChainTx i' <> 0;
  rc_best : pindexBestHeader (n_tree n') = pindexBestHeader (n_tree n);
  rc_prev : mapPrevBlockIndex (n_tree n') = mapPrevBlockIndex (n_tree n);
  rc_active : st_active (n_state n') = st_active (n_state n);
  rc_coins : st_coins (n_state n') = st_coins (n_state n);
  rc_failed : forall a, failed (n_state n') a = failed (n_state n) a
}.

Lemma links_receives n n1 n' : receives n n1 -> links_to n1 n' -> receives n n'.
Proof.
  intros [S1 C1 B1 P1 A1 O1 F1] [S2 T2 B2 P2 St2 A2 O2]. split; [by etrans| |congruence..|].
  - intros k i i'' L L'' N. destruct (same_lookup _ _ S1 k i L) as (i' & L' & _). apply (T2 k i' i'' L' L''). by eapply C1.
  - intros a. rewrite <- F1. unfold failed, status. by rewrite St2.
Qed.

(** The block's data are here: its own index and status. *)
Lemma received_status n : Z.land (snd (RaiseValidity (Z.lor n BLOCK_HAVE_DATA) BLOCK_VALID_TRANSACTIONS)) BLOCK_HAVE_DATA <> 0 /\
  Z.land (snd (RaiseValidity (Z.lor n BLOCK_HAVE_DATA) BLOCK_VALID_TRANSACTIONS)) BLOCK_FAILED_MASK = Z.land n BLOCK_FAILED_MASK /\
  (BLOCK_VALID_TREE <= Z.land n BLOCK_VALID_MASK ->
   BLOCK_VALID_TREE <= Z.land (snd (RaiseValidity (Z.lor n BLOCK_HAVE_DATA) BLOCK_VALID_TRANSACTIONS)) BLOCK_VALID_MASK).
Proof.
  destruct (RaiseValidity_retains (Z.lor n BLOCK_HAVE_DATA) BLOCK_VALID_TRANSACTIONS eq_refl) as [D V].
  rewrite D. rewrite Z.land_lor_distr_l in *. split; [|split].
  - intros X. by apply Z.lor_eq_0_iff in X as [_ X].
  - rewrite RaiseValidity_failed, Z.land_lor_distr_l by done. apply Z.lor_0_r.
  - intros T. etrans; [exact T|]. etrans; [|exact V]. by rewrite Z.lor_0_r.
Qed.

Lemma missing_set_status (s : ActivationState) i v a :
  missing (set_status s i v) a = if decide (phashBlock a = phashBlock i) then Z.land v BLOCK_HAVE_DATA =? 0 else missing s a.
Proof.
  unfold missing, status. cbn [set_status st_status]. destruct (decide _) as [->|N]; [by rewrite lookup_insert_eq|by rewrite lookup_insert_ne].
Qed.

(** The block's own index, before any linking. *)
Section Mark.
Context (m : BlockMap) (s : ActivationState) (i i0 : CBlockIndex) (v : Z).
Context (W : tree_wf m) (C : counts_ok m s) (S : stored m i) (D : missing s i = true) (E : strip i0 = strip i).
Context (T : 0 < nTx i0) (N0 : nChainTx i0 = 0) (R : room m (nTx i0)).
Context (V1 : Z.land v BLOCK_HAVE_DATA <> 0) (V2 : BLOCK_VALID_TREE <= Z.land v BLOCK_VALID_MASK).
Let m0 : BlockMap := <[phashBlock i0 := i0]> m.
Let s0 : ActivationState := set_status s i0 v.

Lemma mark_uncounted : nChainTx i = 0 /\ nTx i = 0.
Proof.
  pose proof (co_tx _ _ C i S) as X. rewrite D in X. split; [|done]. destruct (decide (nChainTx i = 0)) as [|N]; [done|].
  pose proof (co_data _ _ C i S N). congruence.
Qed.

Lemma mark_missing a : missing s0 a = if decide (phashBlock a = phashBlock i) then false else missing s a.
Proof.
  unfold s0. rewrite missing_set_status, (ins_key i i0 E). destruct (decide _); [|done]. by apply Z.eqb_neq.
Qed.

Lemma mark_counted j : stored m j -> nChainTx j <> 0 -> phashBlock j <> phashBlock i.
Proof. intros Sj N X. apply N. rewrite (stored_inj m j i Sj S X). apply mark_uncounted. Qed.

Lemma mark_room : room m0 0.
Proof.
  pose proof (ins_same m i i0 S E) as Same. intros j' Sj'. destruct (same_stored _ _ j' (symmetry Same) Sj') as (j & Sj & Ej).
  specialize (R j Sj). enough (chain_txs m0 j' <= chain_txs m j + nTx i0) by lia.
  apply (chain_txs_grow m m0 (phashBlock i)); try done; [lia| |intros x Sx; by apply (tx_nonneg m s)].
  intros a a' Sa Sa' Ea. strip_fields Ea. destruct mark_uncounted as [_ Ti].
  destruct (Z.eqb_spec (phashBlock a) (phashBlock i)) as [X|X]; apply (ins_stored m i i0 E) in Sa' as [->|[Sa' Nk]].
  - rewrite (stored_inj m a i), Ti by done. lia.
  - congruence.
  - destruct X. rewrite <- (ins_key i i0 E). done.
  - rewrite (stored_inj m a a') by done. lia.
Qed.

Lemma mark_counts : counts_ok m0 s0.
Proof.
  pose proof (ins_key i i0 E) as Ky. pose proof (ins_same m i i0 S E) as Same. destruct mark_uncounted as [Ni Ti].
  assert (Old : forall j, stored m0 j -> nChainTx j <> 0 -> stored m j /\ phashBlock j <> phashBlock i).
  { intros j Sj Nj. apply (ins_stored m i i0 E) in Sj as [->|Sj]; [lia|done]. }
  split.
  - intros j q1 Sj Nj P1. destruct (Old j Sj Nj) as [Sj' _]. destruct (ins_parent m i i0 S E j j q1 eq_refl P1) as (q & Pq & X).
    pose proof (co_links _ _ C j q Sj' Nj Pq) as Nq. destruct X as [[-> ->]| ->]; [lia|done].
  - intros j Sj Nj. destruct (Old j Sj Nj) as [Sj' _]. rewrite (co_count _ _ C j Sj' Nj). apply (chain_txs_same m m0 j Same W Sj' j Sj eq_refl).
    intros a a' A Sa' Ea. strip_fields Ea. assert (Sa : stored m a) by by apply (is_ancestor_stored m W a j).
    pose proof (mark_counted a Sa (counts_linked m s j W C Sj' Nj a A)). apply (ins_stored m i i0 E) in Sa' as [->|[Sa' _]]; [congruence|].
    by rewrite (stored_inj m a a').
  - intros j Sj Nj. destruct (Old j Sj Nj) as [Sj' Nk]. rewrite mark_missing. destruct (decide _); [done|]. by apply (co_data _ _ C).
  - intros j Sj. rewrite mark_missing. apply (ins_stored m i i0 E) in Sj as [->|[Sj Nk]].
    + by destruct (decide _).
    + destruct (decide _); [done|]. by apply (co_tx _ _ C).
  - intros j Sj. unfold tree_valid, status, s0. cbn [set_status st_status]. apply (ins_stored m i i0 E) in Sj as [->|[Sj Nk]].
    + by rewrite lookup_insert_eq.
    + rewrite lookup_insert_ne by congruence. by apply (co_valid _ _ C).
  - intros kp k I. destruct (co_unlinked _ _ C kp k I) as (j & L & P & Dj). exists j. destruct (stored_key m W k j L) as [Sj <-].
    assert (Nk : phashBlock j <> phashBlock i) by (intros X; rewrite (stored_inj m j i Sj S X) in Dj; congruence).
    unfold m0. rewrite lookup_insert_ne by congruence. split; [done|]. split; [done|]. rewrite mark_missing. by destruct (decide _).
  - intros k I. destruct (co_candidates _ _ C k I) as (j & L & Nj). destruct (stored_key m W k j L) as [Sj <-].
    pose proof (mark_counted j Sj Nj). exists j. unfold m0. by rewrite lookup_insert_ne by congruence.
Qed.

End Mark.

Lemma counts_add_unlinked m s i : counts_ok m s -> stored m i -> missing s i = false -> counts_ok m (add_unlinked s i).
Proof.
  intros [] S D. split; try done. intros kp k I. apply elem_of_app in I as [I|I]; [auto|].
  apply list_elem_of_singleton in I as [= -> ->]. by exists i.
Qed.

(** What waited before still waits, and the block itself is in the queue. *)
Lemma mark_waits n i i0 v t' :
  tree_wf (blocks n) -> stored (blocks n) i -> strip i0 = strip i -> nChainTx i0 = 0 -> bt_map t' = <[phashBlock i0 := i0]> (blocks n) ->
  nothing_lost (blocks n) (n_state n) -> waits (set_state (set_tree n t') (set_status (n_state n) i0 v)) [phashBlock i0].
Proof.
  intros W S E N0 Bt NL j Sj Dj Nj. cbn [n_state set_state set_tree n_tree blocks] in *. rewrite Bt in *.
  pose proof (ins_key i i0 E) as Ky. apply (ins_stored _ i i0 E) in Sj as [->|[Sj Nk]]; [left; set_solver|right].
  rewrite missing_set_status, Ky in Dj. destruct (decide _); [done|]. destruct (NL j Sj Dj Nj) as (U & q & P & Nq). split; [done|].
  unfold parent in *. destruct (pprev j) as [k|]; [|done]. cbn [mbind option_bind] in *. rewrite (ins_lookup _ i i0 E k q P).
  eexists. split; [done|]. by destruct (_ =? _).
Qed.

Lemma waits_nothing_lost n : waits n [] -> nothing_lost (blocks n) (n_state n).
Proof. intros Wt i S D N. destruct (Wt i S D N) as [X|X]; [by apply elem_of_nil in X|done]. Qed.

Theorem ReceivedBlockTransactions_spec n block i :
  tree_wf (blocks n) -> counts_ok (blocks n) (n_state n) -> stored (blocks n) i -> missing (n_state n) i = true ->
  0 < size (vtx block) -> room (blocks n) (size (vtx block)) -> exists n',
  ReceivedBlockTransactions addr block i n = Return n' /\ counts_ok (blocks n') (n_state n') /\ receives n n' /\
  (nothing_lost (blocks n) (n_state n) -> (forall q, parent (blocks n) i = Some q -> failed (n_state n) q = false) ->
   nothing_lost (blocks n') (n_state n')).
Proof.
  intros W C S D Sz R. unfold ReceivedBlockTransactions.
  assert (Fit : u32 (size (vtx block)) = size (vtx block)).
  { pose proof (R i S). pose proof (chain_txs_nonneg _ _ i W C S). pose proof (tx_nonneg _ _ i C S). apply uint_id. lia. }
  set (flags := if IsProofOfStake block then _ else _). set (i0 := with_counts i _ _ _ _ _). set (v := snd (RaiseValidity _ _)).
  assert (E : strip i0 = strip i) by done. assert (Ky : phashBlock i0 = phashBlock i) by done.
  destruct (received_status (status (n_state n) i0)) as (V1 & V2 & V3). specialize (V3 (co_valid _ _ C i S)). fold v in V1, V2, V3.
  assert (T : 0 < nTx i0) by (cbn; rewrite Fit; done).
  assert (R0 : room (blocks n) (nTx i0)) by (cbn [nTx i0 with_counts]; by rewrite Fit).
  set (n0 := set_state _ _).
  pose proof (mark_counts (blocks n) (n_state n) i i0 v W C S D E T eq_refl V1 V3 : counts_ok (blocks n0) (n_state n0)) as C0.
  pose proof (mark_room (blocks n) (n_state n) i i0 W C S D E T R0 : room (blocks n0) 0) as Rm.
  pose proof (ins_same (blocks n) i i0 S E : same_tree (blocks n) (blocks n0)) as Same0.
  assert (Rc : receives n n0).
  { split; try done.
    - intros k j j' L L' Nj. cbn in L'. destruct (stored_key _ W k j L) as [Sj <-].
      pose proof (mark_counted _ _ i C S D j Sj Nj). rewrite lookup_insert_ne in L' by congruence. congruence.
    - intros a. change (failed (set_status (n_state n) i0 v) a = failed (n_state n) a). rewrite failed_set_status.
      destruct (decide _) as [Ea|]; [|done]. unfold failed, status. rewrite Ea, V2. done. }
  pose proof (same_wf _ _ Same0 W) as W0. assert (S0 : stored (blocks n0) i0) by apply lookup_insert_eq.
  assert (D0 : missing (n_state n0) i0 = false).
  { cbn [n0 n_state set_state]. rewrite missing_set_status. destruct (decide _); [|done]. by apply Z.eqb_neq. }
  assert (Wt : nothing_lost (blocks n) (n_state n) -> waits n0 [phashBlock i0]) by by apply (mark_waits n i i0 v).
  destruct (match parent (blocks n0) i0 with None => true | Some q => _ end) eqn:Linked.
  - destruct (link_queue_spec (Datatypes.S (List.length (st_unlinked (n_state n0)))) n0 [phashBlock i0]) as (n' & -> & I' & L' & W').
    + split; [done..|]. intros k I. apply list_elem_of_singleton in I as ->. exists i0. split; [done|]. split; [done|].
      intros q Q. rewrite Q in Linked. by apply negb_true_iff, Z.eqb_neq in Linked.
    + cbn. lia.
    + exists n'. split; [done|]. split; [apply I'|]. split; [by eapply links_receives|]. intros NL _. apply waits_nothing_lost. auto.
  - destruct (parent (blocks n0) i0) as [q|] eqn:P; [|done]. apply negb_false_iff, Z.eqb_eq in Linked.
    destruct (IsValid (status (n_state n0) q) BLOCK_VALID_TREE) eqn:V.
    + eexists. split; [reflexivity|]. split; [by apply counts_add_unlinked|]. split; [by destruct Rc; split|].
      intros NL _ j Sj Dj Nj. cbn [n_state set_state add_unlinked st_unlinked].
      destruct (Wt NL j Sj Dj Nj) as [X|(X & Y)]; [|split; [|done]; apply elem_of_app; by left].
      apply list_elem_of_singleton in X. rewrite (stored_inj (blocks n0) j i0) by done. split; [apply elem_of_app; right; set_solver|by exists q].
    + exists n0. split; [done|]. split; [done|]. split; [done|]. intros _ F. exfalso.
      destruct (same_parent _ _ (symmetry Same0) i0 i q E P) as (q' & P' & Eq). specialize (F q' P'). strip_fields Eq.
      destruct (stored_parent_height _ W0 i0 q S0 P) as [_ SQ]. pose proof (co_valid _ _ C0 q SQ) as X.
      assert (Fq : failed (n_state n0) q = false) by (rewrite (rc_failed _ _ Rc); unfold failed, status in *; congruence).
      unfold failed in Fq. unfold IsValid in V. rewrite Fq in V. apply Z.leb_gt in V. unfold tree_valid in X. lia.
Qed.

End Link.

(** ** The tree gets a leaf *)

Section Leaf.
Context `{SaplingTree} (m : BlockMap) (s : ActivationState) (new q : CBlockIndex) (v : Z).
Context (W : tree_wf m) (Fresh : m !! phashBlock new = None).
Let m1 : BlockMap := <[phashBlock new := new]> m.
Let s1 : ActivationState := set_status s new v.
Context (W1 : tree_wf m1) (P : parent m1 new = Some q) (Q : stored m q).

Lemma leaf_sub : m ⊆ m1.
Proof. by apply insert_subseteq. Qed.

Lemma leaf_key j : stored m j -> phashBlock j <> phashBlock new.
Proof. unfold stored. congruence. Qed.

Lemma leaf_stored j : stored m1 j <-> j = new \/ stored m j.
Proof.
  unfold stored, m1. split.
  - intros L. apply lookup_insert_Some in L as [[_ <-]|[_ L]]; [by left|by right].
  - intros [->|L]; [apply lookup_insert_eq|]. by apply (lookup_weaken m); [|apply leaf_sub].
Qed.

Lemma leaf_parent j : stored m j -> parent m1 j = parent m j.
Proof. intros S. apply (parent_stable m m1 (phashBlock j)); [done|apply leaf_sub|done]. Qed.

Lemma leaf_up k : forall j, stored m j -> up k m1 j = up k m j.
Proof.
  induction k as [|k IH]; intros j S; cbn [up]; [done|]. rewrite (leaf_parent j S). destruct (parent m j) as [r|] eqn:E; [|done].
  cbn [mbind option_bind]. apply IH. by apply (parent_stored m W j).
Qed.

Lemma leaf_ancestor a j : stored m j -> is_ancestor m1 a j <-> is_ancestor m a j.
Proof. intros S. unfold is_ancestor, ancestor. by rewrite leaf_up. Qed.

Lemma leaf_txs j : stored m j -> chain_txs m1 j = chain_txs m j.
Proof.
  revert j. refine (stored_ind m W _ _). intros j S IH. assert (S1 : stored m1 j) by (apply leaf_stored; by right).
  pose proof (leaf_parent j S) as E. destruct (parent m j) as [r|] eqn:Pj.
  - destruct (stored_parent_height m W j r S Pj) as [_ Sr]. rewrite (chain_txs_parent m1 W1 j r), (chain_txs_parent m W j r), (IH r) by done. done.
  - by rewrite (chain_txs_root m1 W1 j), (chain_txs_root m W j).
Qed.

Lemma leaf_height : bi_nHeight new = bi_nHeight q + 1.
Proof. apply (stored_parent_height m1 W1); [apply lookup_insert_eq|done]. Qed.

Lemma leaf_root : single_root m -> single_root m1.
Proof.
  intros R i j Si Sj Hi Hj. pose proof leaf_height. pose proof (stored_height m W q Q).
  apply leaf_stored in Si as [->|Si]; [lia|]. apply leaf_stored in Sj as [->|Sj]; [lia|]. by apply R.
Qed.

Lemma leaf_work : work_grows m -> nChainWork q < nChainWork new -> work_grows m1.
Proof.
  intros Wk N i r Si Pi. apply leaf_stored in Si as [->|Si]; [congruence|]. rewrite leaf_parent in Pi by done. by apply Wk.
Qed.

Lemma leaf_chain x tip : is_chain m x tip -> is_chain m1 x tip.
Proof.
  intros (S & L & A). split; [apply leaf_stored; by right|]. split; [done|]. intros j J. apply A. by apply leaf_ancestor.
Qed.

Lemma leaf_missing j : stored m j -> missing s1 j = missing s j.
Proof. intros S. unfold s1. rewrite missing_set_status. destruct (decide _) as [X|]; [by destruct (leaf_key j S)|done]. Qed.

Context (T0 : nTx new = 0) (N0 : nChainTx new = 0) (V1 : Z.land v BLOCK_HAVE_DATA = 0) (V2 : BLOCK_VALID_TREE <= Z.land v BLOCK_VALID_MASK).

Lemma leaf_new_missing : missing s1 new = true.
Proof. unfold s1. rewrite missing_set_status. destruct (decide _); [|done]. by apply Z.eqb_eq. Qed.

Lemma leaf_counts : counts_ok m s -> counts_ok m1 s1.
Proof.
  intros C. split.
  - intros i r Si N Pi. apply leaf_stored in Si as [->|Si]; [lia|]. rewrite leaf_parent in Pi by done. by apply (co_links _ _ C i).
  - intros i Si N. apply leaf_stored in Si as [->|Si]; [lia|]. rewrite leaf_txs by done. by apply (co_count _ _ C).
  - intros i Si N. apply leaf_stored in Si as [->|Si]; [lia|]. rewrite leaf_missing by done. by apply (co_data _ _ C).
  - intros i Si. apply leaf_stored in Si as [->|Si]; [by rewrite leaf_new_missing|]. rewrite leaf_missing by done. by apply (co_tx _ _ C).
  - intros i Si. unfold tree_valid, status, s1. cbn [set_status st_status]. apply leaf_stored in Si as [->|Si]; [by rewrite lookup_insert_eq|].
    rewrite lookup_insert_ne by (apply not_eq_sym, leaf_key; done). by apply (co_valid _ _ C).
  - intros kp k I. destruct (co_unlinked _ _ C kp k I) as (i & L & Pi & D). exists i. destruct (stored_key m W k i L) as [Si _].
    split; [by apply (lookup_weaken m); [|apply leaf_sub]|]. by rewrite leaf_missing.
  - intros k I. destruct (co_candidates _ _ C k I) as (i & L & N). exists i. split; [|done]. by apply (lookup_weaken m); [|apply leaf_sub].
Qed.

Lemma leaf_nothing_lost : nothing_lost m s -> nothing_lost m1 s1.
Proof.
  intros NL i Si D N. apply leaf_stored in Si as [->|Si]; [rewrite leaf_new_missing in D; done|]. rewrite leaf_missing in D by done.
  rewrite leaf_parent by done. by apply NL.
Qed.

Lemma leaf_room d : room m d -> room m1 d.
Proof.
  intros R i Si. apply leaf_stored in Si as [->|Si]; [|rewrite leaf_txs by done; by apply R].
  rewrite (chain_txs_parent m1 W1 new q), T0, leaf_txs; [|done|apply leaf_stored; by left|done]. by apply R.
Qed.

End Leaf.

(** ** Triples

    A run from a node of [Pre] ends in [Post], or early in [Err]; it may die in
    a check, but fails no assertion and comes to an end. *)

Section Triples.
Context `{SaplingTree}.

Definition triple {A} (Pre : Node -> Prop) (x : Acc A) (Post : A -> Node -> Prop) (Err : Node -> Prop) : Prop := forall n, Pre n ->
  match x n with
  | Return (n', inr a) => Post a n'
  | Return (n', inl _) => Err n'
  | Crashed => True
  | AssertFailed | OutOfFuel => False
  end.

Lemma triple_bind {A B} Pre (x : Acc A) Mid Err (k : A -> Acc B) Post :
  triple Pre x Mid Err -> (forall a, triple (Mid a) (k a) Post Err) -> triple Pre (x ≫= k) Post Err.
Proof.
  intros X K n N. specialize (X n N). unfold mbind, Acc_bind. destruct (x n) as [[n1 [st|a]]| | |]; cbn [mbind run_bind]; try done. by apply K.
Qed.

Lemma triple_conseq {A} (Pre Pre' : Node -> Prop) (x : Acc A) (Post Post' : A -> Node -> Prop) (Err : Node -> Prop) :
  triple Pre x Post Err -> (forall n, Pre' n -> Pre n) -> (forall a n, Post a n -> Post' a n) -> triple Pre' x Post' Err.
Proof. intros X P Q n N. specialize (X n (P n N)). destruct (x n) as [[n1 [st|a]]| | |]; auto. Qed.

Lemma triple_ret {A} Pre (a : A) (Post : A -> Node -> Prop) Err : (forall n, Pre n -> Post a n) -> triple Pre (mret a) Post Err.
Proof. intros P n N. by apply P. Qed.

Lemma triple_get Pre Err : triple Pre get (fun a n => n = a /\ Pre n) Err.
Proof. by intros n N. Qed.

Lemma triple_put Pre n' (Post : unit -> Node -> Prop) Err : (forall n, Pre n -> Post tt n') -> triple Pre (put n') Post Err.
Proof. intros P n N. by apply (P n). Qed.

Lemma triple_check {A} Pre (r : Result A) (Post : A -> Node -> Prop) (Err : Node -> Prop) :
  (forall n, Pre n -> Err n) -> (forall a n, r = Valid a -> Pre n -> Post a n) -> triple Pre (check r) Post Err.
Proof. intros E P n N. unfold check. destruct r; auto. Qed.

Lemma triple_call {A} Pre (o : option A) (Post : A -> Node -> Prop) Err :
  (forall a n, o = Some a -> Pre n -> Post a n) -> triple Pre (call o) Post Err.
Proof. intros P n N. unfold call. destruct o; auto. Qed.

Lemma triple_if {A} (b : bool) Pre (x y : Acc A) Post Err :
  (b = true -> triple Pre x Post Err) -> (b = false -> triple Pre y Post Err) -> triple Pre (if b then x else y) Post Err.
Proof. destruct b; auto. Qed.

End Triples.

(** ** Lookups of coins leave the best block alone *)

Section Lookups.
Context `{HashFunctions, SaplingTree}.

Lemma FetchCoin_hash base v o : hashBlock (snd (FetchCoin base v o)) = hashBlock v.
Proof. unfold FetchCoin. destruct (cacheCoins v !! o); [done|]. by destruct (v_GetCoin base o). Qed.

Lemma AccessCoin_hash base v o : hashBlock (snd (AccessCoin base v o)) = hashBlock v.
Proof. rewrite AccessCoin_state. apply FetchCoin_hash. Qed.

Lemma check_coins_hash base fork l : forall left tip, hashBlock (snd (check_coins base fork l left tip)) = hashBlock tip.
Proof.
  induction l as [|o l IH]; intros left tip; cbn [check_coins]; [done|]. pose proof (AccessCoin_hash base tip o) as E.
  destruct (AccessCoin base tip o) as [c tip1]. cbn [snd] in E. rewrite <- E.
  destruct (negb _); [destruct (match fork with Some f => _ | None => false end)|destruct (bool_decide _)]; (done || apply IH).
Qed.

Lemma NewPivStake_hash p g tip txin h t r tip' : NewPivStake p g tip txin h t = Some (r, tip') -> hashBlock tip' = hashBlock tip.
Proof.
  unfold NewPivStake. destruct (TxIn_IsZerocoinSpend txin); [by intros [= _ <-]|]. pose proof (AccessCoin_hash (coinsBase g) tip (prevout txin)) as E.
  destruct (AccessCoin _ _ _) as [c tip1]. cbn [snd] in E. rewrite <- E. destruct (negb _).
  - intros (i & _ & X)%bind_Some_inv. apply bind_Some_inv in X as (ok & _ & X). by injection X as _ <-.
  - destruct (Stake.GetTransaction _ _) as [[tx hb]|]; [|by intros [= _ <-]]. destruct (mapBlockIndex g !! hb); [|by intros [= _ <-]].
    destruct (negb _); [by intros [= _ <-]|]. intros (ok & _ & X)%bind_Some_inv. destruct (negb ok); [by injection X as _ <-|].
    apply bind_Some_inv in X as (out & _ & X). by injection X as _ <-.
Qed.

Lemma CheckProofOfStake_hash `{Ecdsa} p g tip block prev ok tip' : CheckProofOfStake p g tip block prev = Some (ok, tip') -> hashBlock tip' = hashBlock tip.
Proof.
  unfold CheckProofOfStake, LoadStakeInput. intros ([input tip1] & L & X)%bind_Some_inv.
  assert (E : hashBlock tip1 = hashBlock tip).
  { destruct (negb _); [by injection L as _ <-|]. apply bind_Some_inv in L as (txin & _ & L). by apply NewPivStake_hash in L. }
  rewrite <- E. destruct input as [s|]; [|by injection X as _ <-]. apply bind_Some_inv in X as (k & _ & X). destruct (negb (CheckKernelHash k)); [by injection X as _ <-|].
  apply bind_Some_inv in X as (tx & _ & X). apply bind_Some_inv in X as (txin & _ & X). apply bind_Some_inv in X as (b & _ & X). by injection X as _ <-.
Qed.

End Lookups.

(** ** The invariant of the node *)

Section Node.
Context `{HashFunctions, Ecdsa, SaplingTree, SaplingVerifier} (p : CChainParams) (env : NodeEnv) (base : CCoinsView).
Context (invalid : COutPoint -> bool) (threads : bool) (addr : Z -> Z) (literal : Z).
Context (GetTransaction : Z -> option (CTransaction * Z)) (FindBlockPos WriteBlockToDisk : CBlock -> bool).

Record node_inv (n : Node) : Prop := {
  ni_tree : tree_inv p (n_tree n);
  ni_root : single_root (blocks n);
  ni_genesis : is_Some (blocks n !! hashGenesisBlock (consensus p));
  ni_work : work_grows (blocks n);
  ni_counts : counts_ok (blocks n) (n_state n);
  ni_best : chain_Tip (st_active (n_state n)) = Some (coins_best base (n_state n));
  ni_chain : exists tip, is_chain (blocks n) (st_active (n_state n)) tip /\ nChainTx tip <> 0 /\
    forall a, is_ancestor (blocks n) a tip -> failed (n_state n) a = false
}.

(** Changes of the state that no count depends on. *)
Record touches (m : BlockMap) (s s' : ActivationState) : Prop := {
  to_unlinked : st_unlinked s' = st_unlinked s;
  to_missing : forall a, missing s' a = missing s a;
  to_valid : forall a, tree_valid s a -> tree_valid s' a;
  to_candidates : forall k, k ∈ st_candidates s' -> k ∈ st_candidates s \/ exists i, m !! k = Some i /\ nChainTx i <> 0
}.

#[export] Instance touches_preorder m : PreOrder (touches m).
Proof.
  split; [split; auto|]. intros a b c [U1 M1 V1 C1] [U2 M2 V2 C2]. split; [congruence|congruence|auto|].
  intros k K. destruct (C2 k K) as [K'|]; [auto|by right].
Qed.

Lemma counts_touch m s s' : touches m s s' -> counts_ok m s -> counts_ok m s'.
Proof.
  intros [U M V Ca] [L Cn D T Va Un Cd]. split; try done.
  - intros i. rewrite M. apply D.
  - intros i. rewrite M. apply T.
  - intros i S. auto.
  - rewrite U. intros kp k I. destruct (Un kp k I) as (i & ? & ? & ?). exists i. by rewrite M.
  - intros k K. destruct (Ca k K); auto.
Qed.

Lemma nothing_lost_touch m s s' : touches m s s' -> nothing_lost m s -> nothing_lost m s'.
Proof. intros [U M _ _] NL i S. rewrite M, U. by apply NL. Qed.

Lemma retains_touches m s s' : retains s s' -> touches m s s'.
Proof. intros [C D T U]. split; [done..|]. intros k K. left. by apply C. Qed.

Section Inv.
Context (n : Node) (I : node_inv n).
Let m := blocks n.
Let s := n_state n.
Let W : tree_wf m := inv_wf _ _ (ni_tree n I).

Lemma root_counts i : stored m i -> bi_nHeight i = 0 -> nChainTx i <> 0.
Proof.
  intros S Z0. destruct (ni_chain n I) as (tip & (ST & _) & N & _). pose proof (stored_height m W tip ST).
  destruct (ancestor_total m W tip 0 ST) as (a & A & Sa & Ha); [lia|].
  assert (i = a) as -> by by apply (ni_root n I). apply (counts_linked m s tip W (ni_counts n I) ST N).
  split; [lia|by rewrite Ha].
Qed.

Lemma counts_iff_linked i : stored m i -> nChainTx i <> 0 <-> linked m i.
Proof.
  intros S. split; [intros N a A; left; by apply (counts_linked m s i W (ni_counts n I))|].
  intros L. destruct (L i (is_ancestor_refl m W i S)); [done|by apply root_counts].
Qed.

Lemma best_at_tip x tip : is_chain m (st_active x) tip -> chain_Tip (st_active x) = Some (coins_best base x) <-> coins_best base x = phashBlock tip.
Proof. intros CH. destruct (active_tip_ok m W x tip CH) as [-> _]. split; congruence. Qed.

Lemma ni_node_ok : exists tip, node_ok m base s tip /\ nChainTx tip <> 0.
Proof.
  destruct (ni_chain n I) as (tip & CH & N & F). exists tip. split; [|done]. split; [done|apply (best_at_tip s tip CH), I| | |done].
  - intros k K. destruct (co_candidates _ _ (ni_counts n I) k K) as (i & L & Ni). exists i. split; [done|].
    destruct (stored_key m W k i L) as [Si _]. by apply counts_iff_linked.
  - apply counts_iff_linked; [apply CH|done].
Qed.

Lemma ni_available : available m s /\ candidates_linked m s.
Proof.
  split.
  - intros i S L. apply (co_data _ _ (ni_counts n I)); [done|]. by apply counts_iff_linked.
  - destruct ni_node_ok as (tip & O & _). exact (ok_candidates _ _ _ _ O).
Qed.

(** A new state on the same tree. *)
Lemma node_inv_state s' : touches m s s' -> chain_Tip (st_active s') = Some (coins_best base s') ->
  (exists tip, is_chain m (st_active s') tip /\ nChainTx tip <> 0 /\ forall a, is_ancestor m a tip -> failed s' a = false) ->
  node_inv (set_state n s').
Proof. intros T B Ch. split; [apply I..| |done|done]. by apply (counts_touch m s s' T), I. Qed.

Lemma Activate_spec pblock :
  match Activate p env base invalid threads addr pblock n with
  | Return (ok, n') => node_inv n' /\ n_tree n' = n_tree n /\ n_sequence n' = n_sequence n /\
      touches m s (n_state n') /\ (ok = true -> settled m base (sequence n) addr (n_state n'))
  | Crashed => True
  | AssertFailed | OutOfFuel => False
  end.
Proof.
  unfold Activate. destruct ni_node_ok as (tip & O & _). destruct ni_available as [Av Cl].
  pose proof (ActivateBestChain_spec p env m base invalid threads (fun k => n_disk n !! k) (sequence n) addr s tip _ pblock W (ni_root n I)
    (ni_work n I) O (Nat.le_refl _)) as X.
  destruct (ActivateBestChain _ _ _ _ _ _ _ _ _ _ _ _) as [[ok s']| | |] eqn:E; cbn [mbind run_bind]; try done.
  apply (retains_ActivateBestChain _ _ _ _ _ _ _ _ _ W) in E; [|done..]. apply (retains_touches m) in E.
  assert (Ok : exists tip', node_ok m base s' tip').
  { destruct ok; [|apply X]. destruct X as [(tip' & O' & _) _]. by exists tip'. }
  split; [|split; [done|split; [done|split; [done|by intros ->; apply X]]]].
  destruct Ok as (tip' & O'). apply node_inv_state; [done|by apply (best_at_tip s' tip'); apply O'|]. exists tip'. split; [apply O'|]. split; [|apply O'].
  apply counts_iff_linked; apply O'.
Qed.

(** *** ReconsiderBlock *)

(** Failures are forgiven, candidates that count are added. *)
Record relaxes (s s' : ActivationState) : Prop := {
  rx_touches : touches m s s';
  rx_active : st_active s' = st_active s;
  rx_coins : st_coins s' = st_coins s;
  rx_failed : forall a, failed s a = false -> failed s' a = false
}.

#[local] Instance relaxes_preorder : PreOrder relaxes.
Proof. split; [done|]. intros a b c [] []. split; [by etrans|congruence|congruence|auto]. Qed.

Lemma clear_bits v mask : Z.land (Z.lxor (2 ^ 32 - 1) BLOCK_FAILED_MASK) mask = mask ->
  Z.land (Z.land v (Z.lxor (2 ^ 32 - 1) BLOCK_FAILED_MASK)) mask = Z.land v mask.
Proof. intros E. by rewrite <- Z.land_assoc, E. Qed.

Lemma clear_relaxes x i : relaxes x (clear_failed x i).
Proof.
  unfold clear_failed. split; [apply retains_touches, retains_status; rewrite clear_bits by done; done|done|done|]. intros a F.
  rewrite failed_set_status. destruct (decide _); [|done]. by rewrite <- Z.land_assoc, Z.land_0_r.
Qed.

Lemma add_relaxes x i : stored m i -> nChainTx i <> 0 -> relaxes x (set_candidates x ({[phashBlock i]} ∪ st_candidates x)).
Proof.
  intros S N. split; [split; [done..|]|done|done|done]. cbn. intros k [K%elem_of_singleton|K]%elem_of_union; [subst k; right; by exists i|by left].
Qed.

Lemma reconsider_one_spec pindex i x tip : is_chain m (st_active x) tip -> stored m i -> exists x',
  reconsider_one addr n pindex i x = Return x' /\ relaxes x x'.
Proof.
  intros CH S. unfold reconsider_one. destruct (IsValid _ _); [by exists x|]. rewrite (GetAncestor_spec m W i _ S). cbn [deref mbind run_bind].
  destruct (negb _); [by exists x|]. pose proof (clear_relaxes x i) as R1. set (x1 := clear_failed x i) in *.
  assert (CH1 : is_chain m (st_active x1) tip) by (by rewrite (rx_active _ _ R1)). destruct (active_tip_ok m W x1 tip CH1) as [_ Et].
  assert (X : exists x2, (if IsValid (status x1 i) BLOCK_VALID_TRANSACTIONS && negb (nChainTx i =? 0) then
      tip ← deref (active_tip m x1); Return (if worse (sequence n) addr tip i then set_candidates x1 ({[phashBlock i]} ∪ st_candidates x1) else x1)
    else Return x1) = Return x2 /\ relaxes x1 x2).
  { destruct (IsValid _ _); [|by exists x1]. destruct (Z.eqb_spec (nChainTx i) 0) as [|N]; [by exists x1|]. cbn [negb andb].
    rewrite Et. cbn [deref mbind run_bind]. eexists. split; [reflexivity|]. destruct (worse _ _ _ _); [by apply add_relaxes|done]. }
  destruct X as (x2 & X & R2). fold m in X |- *. rewrite X. cbn [mbind run_bind]. eexists. split; [reflexivity|].
  etrans; [exact R1|]. etrans; [exact R2|]. case_bool_decide; [|done]. split; [split; auto|done|done|done].
Qed.

Lemma reconsider_all_spec pindex tip l : forall x, is_chain m (st_active x) tip -> Forall (stored m) l -> exists x',
  reconsider_all addr n pindex l x = Return x' /\ relaxes x x'.
Proof.
  induction l as [|i l IH]; intros x CH Fl; cbn [reconsider_all]; [by exists x|]. apply Forall_cons in Fl as [S Fl].
  destruct (reconsider_one_spec pindex i x tip CH S) as (x1 & -> & R1). cbn [mbind run_bind].
  destruct (IH x1) as (x' & -> & R'); [by rewrite (rx_active _ _ R1)|done|]. exists x'. split; [done|by etrans].
Qed.

Lemma reconsider_ancestors_spec fuel : forall o x, (forall i, o = Some i -> stored m i /\ (Z.to_nat (bi_nHeight i) < fuel)%nat) -> exists x',
  reconsider_ancestors fuel m o x = Return x' /\ relaxes x x'.
Proof.
  induction fuel as [|fuel IH]; intros [i|] x F; cbn [reconsider_ancestors]; [destruct (F i eq_refl); lia|by exists x| |by exists x].
  destruct (F i eq_refl) as [S L]. edestruct IH as (x' & -> & R').
  - intros q Q. destruct (stored_parent_height m W i q S Q) as [Hq SQ]. pose proof (stored_height m W q SQ). split; [done|lia].
  - exists x'. split; [done|]. etrans; [|exact R']. destruct (failed x i); [apply clear_relaxes|done].
Qed.

Lemma ReconsiderBlock_spec pindex : stored m pindex -> exists s',
  ReconsiderBlock addr pindex n = Return (set_state n s') /\ relaxes s s' /\ node_inv (set_state n s').
Proof.
  intros S. destruct (ni_chain n I) as (tip & CH & N & F). unfold ReconsiderBlock. fold m s.
  destruct (reconsider_all_spec pindex tip (snd <$> map_to_list m) s CH) as (s1 & -> & R1).
  { apply Forall_forall. intros i X. apply list_elem_of_fmap in X as ([k i'] & -> & X). apply elem_of_map_to_list in X.
    by apply (stored_key m W k). }
  cbn [mbind run_bind]. destruct (reconsider_ancestors_spec (Datatypes.S (Z.to_nat (bi_nHeight pindex))) (Some pindex) s1) as (s2 & -> & R2).
  { intros i [= <-]. split; [done|lia]. }
  cbn [mbind run_bind]. exists s2. assert (R : relaxes s s2) by by etrans. split; [done|]. split; [done|].
  apply node_inv_state; [apply R|unfold coins_best; rewrite (rx_active _ _ R), (rx_coins _ _ R); apply I|]. exists tip. rewrite (rx_active _ _ R). split; [done|]. split; [done|]. intros a A. by apply R, F.
Qed.

(** *** InvalidateBlock *)

Section Invalidate.
Context (pindex : CBlockIndex) (Sp : stored m pindex) (NotRoot : parent m pindex <> None).

Lemma above_has_parent tip : stored m tip -> is_ancestor m pindex tip -> exists q, parent m tip = Some q /\ bi_nHeight tip = bi_nHeight q + 1 /\ stored m q.
Proof.
  intros S [L _]. pose proof (stored_height m W pindex Sp). destruct (decide (bi_nHeight pindex = 0)) as [Z0|].
  { destruct NotRoot. by apply (stored_root m W). }
  destruct (stored_parent m W tip S) as (q & P & Hq & SQ); [lia|]. exists q. split; [done|]. split; [lia|done].
Qed.

Lemma disconnect_from_spec fuel : forall x tip, is_chain m (st_active x) tip -> coins_best base x = phashBlock tip -> (Z.to_nat (bi_nHeight tip) < fuel)%nat ->
  (forall a, is_ancestor m a tip -> ~ is_ancestor m pindex a -> failed x a = false) ->
  match disconnect_from p base fuel n pindex x with
  | Return (true, x') => retains x x' /\ (forall a, failed x a = true -> failed x' a = true) /\
      exists tip', is_chain m (st_active x') tip' /\ coins_best base x' = phashBlock tip' /\ is_ancestor m tip' tip /\ ~ is_ancestor m pindex tip' /\
        forall a, is_ancestor m a tip' -> failed x' a = false
  | Return (false, _) | Crashed => True
  | AssertFailed | OutOfFuel => False
  end.
Proof.
  induction fuel as [|fuel IH]; intros x tip CH Be Lt F; [lia|]. cbn [disconnect_from]. pose proof (proj1 CH) as ST.
  pose proof (Contains_spec m W _ tip pindex CH Sp) as CS. destruct (Contains (st_active x) pindex); cbn [negb].
  2: { assert (NA : ~ is_ancestor m pindex tip) by (intros X; by apply CS in X). split; [done|]. split; [done|]. exists tip.
       split; [done|]. split; [done|]. split; [by apply is_ancestor_refl|]. split; [done|]. intros a A. apply F; [done|]. intros X. apply NA.
       by apply (is_ancestor_trans m W pindex a tip). }
  assert (AP : is_ancestor m pindex tip) by by apply CS. destruct (above_has_parent tip ST AP) as (q & P & Hq & SQ).
  fold m. destruct (active_tip_ok m W x tip CH) as [_ ->]. cbn [deref mbind run_bind].
  set (x1 := erase _ tip). pose proof (stored_height m W q SQ).
  assert (R1 : retains x x1) by (etrans; [by apply (retains_mark x tip BLOCK_FAILED_CHILD)|apply retains_erase]).
  assert (F1 : forall a, failed x1 a = if decide (phashBlock a = phashBlock tip) then true else failed x a).
  { intros a. by apply failed_mark. }
  pose proof (DisconnectTip_chain p m base (fun k => n_disk n !! k) W x1 tip q CH Be P) as D.
  destruct (DisconnectTip _ _ _ _ x1) as [[[] x2]| | |] eqn:ED; cbn [mbind run_bind]; try done. destruct D as (CH2 & Be2 & _ & St).
  apply retains_DisconnectTip in ED. assert (F2 : forall a, failed x2 a = failed x1 a) by (intros a; unfold failed, status; by rewrite St).
  assert (AQ : is_ancestor m q tip) by by apply is_ancestor_parent.
  assert (Fq : forall a, is_ancestor m a q -> ~ is_ancestor m pindex a -> failed x2 a = false).
  { intros a A NA. rewrite F2, F1. destruct (decide _) as [X|_].
    - destruct NA. rewrite (stored_inj m a tip); [done|by apply (is_ancestor_stored m W a q)|done|done].
    - apply F; [|done]. by apply (is_ancestor_trans m W a q tip). }
  specialize (IH x2 q CH2 Be2 ltac:(lia) Fq). destruct (disconnect_from _ _ fuel n pindex x2) as [[[] x']| | |]; try done.
  destruct IH as (R' & M' & tip' & CH' & Be' & A' & NA' & G'). split; [by etrans; [|etrans]|]. split.
  - intros a Fa. apply M'. rewrite F2, F1. by destruct (decide _).
  - exists tip'. split; [done|]. split; [done|]. split; [by apply (is_ancestor_trans m W tip' q tip)|done].
Qed.

Lemma InvalidateBlock_spec :
  match InvalidateBlock p base addr pindex n with
  | Return (true, n') => node_inv n' /\ n_tree n' = n_tree n /\ touches m s (n_state n') /\
      failed (n_state n') pindex = true /\ Contains (st_active (n_state n')) pindex = false
  | Return (false, _) | Crashed => True
  | AssertFailed | OutOfFuel => False
  end.
Proof.
  destruct (ni_chain n I) as (tip & CH & N & G). pose proof (proj1 CH) as ST. unfold InvalidateBlock. fold m s.
  set (s1 := erase _ pindex). pose proof (proj1 (proj2 CH)) as Len.
  assert (R1 : retains s s1) by (etrans; [by apply (retains_mark s pindex BLOCK_FAILED_VALID)|apply retains_erase]).
  assert (F1 : forall a, failed s1 a = if decide (phashBlock a = phashBlock pindex) then true else failed s a).
  { intros a. by apply failed_mark. }
  pose proof (disconnect_from_spec (Datatypes.S (List.length (st_active s1))) s1 tip CH (proj1 (best_at_tip s tip CH) (ni_best n I))) as D.
  assert (Fu : (Z.to_nat (bi_nHeight tip) < Datatypes.S (List.length (st_active s1)))%nat) by (cbn; unfold size in Len; fold s in Len; lia).
  assert (G1 : forall a, is_ancestor m a tip -> ~ is_ancestor m pindex a -> failed s1 a = false).
  { intros a A NA. rewrite F1. destruct (decide _) as [X|_]; [|by apply G]. destruct NA.
    rewrite (stored_inj m a pindex); [by apply is_ancestor_refl|by apply (is_ancestor_stored m W a tip)|done|done]. }
  specialize (D Fu G1). destruct (disconnect_from _ _ _ _ _ _) as [[[] s2]| | |]; cbn [mbind run_bind negb]; try done.
  destruct D as (R2 & M2 & tip2 & CH2 & Be2 & A2 & NA2 & G2). destruct (active_tip_ok m W s2 tip2 CH2) as [_ ->]. cbn [deref mbind run_bind].
  set (s3 := set_candidates s2 _).
  assert (T3 : touches m s s3).
  { etrans; [apply retains_touches; exact (transitivity R1 R2)|]. split; [done..|].
    intros k K. cbn [s3 set_candidates st_candidates] in K. apply elem_of_union in K as [K|K]; [right|by left]. apply elem_of_list_to_set, list_elem_of_fmap in K as (i & -> & K).
    apply list_elem_of_filter in K as [Rd K]. apply list_elem_of_fmap in K as ([k i'] & -> & K). apply elem_of_map_to_list in K. cbn [snd] in *.
    exists i'. destruct (stored_key m W k i' K) as [Si' _]. split; [done|]. unfold readmitted in Rd.
    apply andb_true_iff in Rd as [Rd _]. apply andb_true_iff in Rd as [_ Rd]. by apply negb_true_iff, Z.eqb_neq in Rd. }
  unfold InvalidChainFound. destruct (note_invalid_same s3 pindex) as (ES & EC & EA).
  assert (CH3 : is_chain m (st_active (note_invalid s3 pindex)) tip2) by (by rewrite EA).
  destruct (active_tip_ok m W _ tip2 CH3) as [_ ->]. cbn [deref mbind run_bind].
  assert (F4 : forall a, failed (note_invalid s3 pindex) a = failed s2 a) by (intros a; unfold failed, status; by rewrite ES).
  assert (T4 : touches m s (note_invalid s3 pindex)) by (etrans; [exact T3|apply retains_touches, retains_note_invalid]).
  split; [|split; [done|split; [done|split]]].
  - apply node_inv_state; [done|apply (best_at_tip _ tip2 CH3); unfold coins_best; rewrite note_invalid_coins; exact Be2|].
    exists tip2. split; [done|]. split; [|intros a A; rewrite F4; by apply G2].
    by apply (counts_linked m s tip W (ni_counts n I) ST N).
  - change (failed (note_invalid s3 pindex) pindex = true). rewrite F4. apply M2. rewrite F1. by destruct (decide _).
  - cbn [n_state set_state]. rewrite EA. pose proof (Contains_spec m W _ tip2 pindex CH2 Sp) as CS. cbn [s3 set_candidates st_active].
    destruct (Contains _ pindex); [|done]. by destruct NA2; apply CS.
Qed.

End Invalidate.

(** *** Coins are looked up *)


Lemma node_inv_coins coins : hashBlock coins = hashBlock (st_coins s) -> node_inv (set_state n (set_chain s coins (st_active s))).
Proof.
  intros E. apply node_inv_state; [split; auto| |apply (ni_chain n I)]. unfold coins_best, GetBestBlock. cbn. rewrite E. apply I.
Qed.

(** *** A header *)

(** The block adds work. *)
Definition adds_work (block : CBlock) (m : BlockMap) : Prop := forall q w, m !! hashPrevBlock block = Some q ->
  GetBlockProof (nBits block) = Some w -> 0 < w /\ nChainWork q + w < M256.

Lemma AddToBlockIndex_fields t t' (block : CBlock) new : bt_map t !! CBlockHeader_GetHash block = None ->
  AddToBlockIndex p literal t block = Some (t', new) -> nTx new = 0 /\ nChainTx new = 0 /\ nStatus new = BLOCK_VALID_TREE.
Proof.
  intros F. unfold AddToBlockIndex. rewrite F. destruct (_ !! hashPrevBlock block) as [q|].
  - destruct (BuildSkip _ _ _) as [skip|]; [|done]. cbn [mbind option_bind]. destruct (set_new_modifier _ _ _ _ _) as [[mo fl]|]; [|done].
    cbn [mbind option_bind]. destruct (GetBlockProof _); [|done]. cbn [mbind option_bind]. by intros [= _ <-].
  - cbn [mbind option_bind]. destruct (GetBlockProof _); [|done]. cbn [mbind option_bind]. by intros [= _ <-].
Qed.

Lemma header_inv (block : CBlock) t new q (hash := CBlockHeader_GetHash block) :
  hash <> 0 -> m !! hash = None -> m !! hashPrevBlock block = Some q -> adds_work block m ->
  AddToBlockIndex p literal (n_tree n) block = Some (t, new) ->
  let n' := set_state (set_tree n t) (set_status s new (nStatus new)) in
  node_inv n' /\ blocks n' !! hash = Some new /\ parent (blocks n') new = Some q /\ m ⊆ blocks n' /\
  (nothing_lost m s -> nothing_lost (blocks n') (n_state n')) /\ (forall d, room m d -> room (blocks n') d) /\
  forall a, stored m a -> failed (n_state n') a = failed s a.
Proof.
  intros NZ Fr Q Aw E n'. assert (NE : hashPrevBlock block <> hash) by (intros X; rewrite X in Q; unfold m in *; congruence).
  pose proof (ni_tree n I) as It. destruct (AddToBlockIndex_fields _ _ _ _ Fr E) as (T0 & N0 & St).
  destruct (AddToBlockIndex_new p _ _ _ _ _ It NZ NE Fr E) as (X & _ & (w & Pr & Wk) & _ & Map & _). fold hash m in Map, Wk. rewrite Q in Wk.
  pose proof (AddToBlockIndex_inv p _ _ _ _ _ It NZ NE E) as It'. pose proof (extends_parent _ _ _ W NE X) as Par. fold hash m in Par. rewrite Q in Par.
  pose proof (proj1 X) as Kh. fold hash in Kh. rewrite <- Kh in Map, Par, Fr. assert (W1 : tree_wf (<[phashBlock new := new]> m)) by (rewrite <- Map; apply It').
  destruct (stored_key m W _ q Q) as [SQ _].
  assert (More : nChainWork q < nChainWork new).
  { destruct (Aw q w Q Pr) as [Pos Lt]. rewrite Wk. destruct (inv_totals _ _ It _ _ SQ) as (w' & _ & Tq).
    assert (0 <= nChainWork q).
    { destruct (parent _ q); destruct Tq as [-> _]; unfold arith_add; apply Z.mod_pos_bound; done. }
    unfold arith_add. rewrite Z.mod_small; lia. }
  assert (V1 : Z.land (nStatus new) BLOCK_HAVE_DATA = 0) by by rewrite St.
  assert (V2 : BLOCK_VALID_TREE <= Z.land (nStatus new) BLOCK_VALID_MASK) by (rewrite St; done).
  assert (F' : forall a, stored m a -> failed (n_state n') a = failed s a).
  { intros a Sa. cbn [n' n_state set_state]. rewrite failed_set_status. destruct (decide _) as [Y|]; [|done].
    unfold stored in Sa. unfold m in *. congruence. }
  assert (Bl : blocks n' = <[phashBlock new := new]> m) by exact Map.
  split; [|split; [|split; [|split; [|split; [|split]]]]]; rewrite ?Bl; [| |done| | | |done].
  - split; rewrite ?Bl; [done|by eapply leaf_root, I| |by eapply leaf_work; [..|apply I|]| |exact (ni_best n I)|].
    + destruct (ni_genesis n I) as [g G]. exists g. by apply (lookup_weaken m); [|by apply leaf_sub].
    + by apply leaf_counts, I.
    + destruct (ni_chain n I) as (tip & CH & N & G). exists tip. split; [by apply leaf_chain|]. split; [done|]. intros a A.
      apply (leaf_ancestor m new W Fr) in A; [|apply CH]. rewrite F' by (by apply (is_ancestor_stored m W a tip); [apply CH|]). by apply G.
  - rewrite <- Kh. apply lookup_insert_eq.
  - by apply leaf_sub.
  - by apply leaf_nothing_lost.
  - intros d. by apply (leaf_room m new q).
Qed.

End Inv.
(** *** AcceptBlock *)

Section Accepting.

(** [G] is whether the parent has not failed: only then the block is sure to
    be found again once its chain is complete. *)
Context (block : CBlock) (G : Prop).
Let hash := CBlockHeader_GetHash block.
Context (NZ : hash <> 0) (Sz : 0 < size (vtx block)).

Definition parent_ok (n : Node) : Prop := forall q,
  blocks n !! hashPrevBlock block = Some q \/ (exists i, blocks n !! CBlockHeader_GetHash block = Some i /\ parent (blocks n) i = Some q) ->
  failed (n_state n) q = false.

Record good (n : Node) : Prop := {
  g_inv : node_inv n;
  g_room : room (blocks n) (size (vtx block));
  g_work : adds_work block (blocks n);
  g_lost : G -> nothing_lost (blocks n) (n_state n) /\ parent_ok n
}.

Definition safe (n : Node) : Prop := node_inv n /\ (G -> nothing_lost (blocks n) (n_state n)).

Lemma good_safe n : good n -> safe n.
Proof. intros [I _ _ L]. split; [done|]. intros g. by apply L. Qed.

(** A new state on the same tree. *)
Lemma good_state n s' : good n -> node_inv (set_state n s') -> touches (blocks n) (n_state n) s' ->
  (G -> parent_ok n -> parent_ok (set_state n s')) -> good (set_state n s').
Proof.
  intros [I R Wk L] I' T Pk. split; [done..|]. intros g. destruct (L g) as [NL P]. split; [by eapply nothing_lost_touch|auto].
Qed.

Lemma good_coins n coins : hashBlock coins = hashBlock (st_coins (n_state n)) -> good n -> good (set_state n (set_chain (n_state n) coins (st_active (n_state n)))).
Proof. intros E Gd. apply good_state; [done|by apply node_inv_coins, E; apply Gd|split; auto|done]. Qed.

Definition prev_of (o : option CBlockIndex) (n : Node) : Prop :=
  match o with Some q => blocks n !! hashPrevBlock block = Some q | None => hash = hashGenesisBlock (consensus p) end.

Lemma GetPrevIndex_spec :
  triple good (GetPrevIndex p env base invalid threads addr block) (fun o n => good n /\ prev_of o n) safe.
Proof.
  intros n Gd. unfold GetPrevIndex. destruct (Z.eqb_spec (CBlockHeader_GetHash block) (hashGenesisBlock (consensus p))) as [E|_]; [done|].
  rewrite get_bind. destruct (blocks n !! hashPrevBlock block) as [q|] eqn:Q; [|by apply good_safe].
  pose proof (inv_wf _ _ (ni_tree n (g_inv n Gd))) as W. destruct (stored_key _ W _ q Q) as [SQ _].
  destruct (failed (n_state n) q) eqn:F; [|done]. destruct (Checkpoints_CheckBlock _ _ _ _ _); [|by apply good_safe].
  rewrite lift_bind. destruct (ReconsiderBlock_spec n (g_inv n Gd) q SQ) as (s1 & -> & Rx & I1). cbn [mbind run_bind]. rewrite lift_bind.
  pose proof (Activate_spec (set_state n s1) I1 None) as A. destruct (Activate _ _ _ _ _ _ _ _) as [[ok n2]| | |]; cbn [mbind run_bind]; try done.
  destruct A as (I2 & Tr & _ & T2 & _). rewrite put_bind. unfold mret, Acc_ret.
  assert (NG : ~ G) by (intros g; destruct (g_lost n Gd g) as [_ P]; rewrite (P q) in F; [done|by left]).
  split; [|unfold prev_of; by rewrite Tr]. destruct Gd as [_ R Wk _]. split; rewrite ?Tr; done.
Qed.

Lemma CheckStake_spec o :
  triple (fun n => good n /\ prev_of o n) (CheckStake p base GetTransaction block o) (fun _ n => good n /\ prev_of o n) safe.
Proof.
  intros n [Gd Po]. unfold CheckStake. rewrite get_bind, call_bind. destruct o as [q|]; [|done]. rewrite call_bind.
  destruct (CheckProofOfStake _ _ _ _ _) as [[ok coins]|] eqn:Pr; [|done]. apply CheckProofOfStake_hash in Pr. rewrite put_bind. pose proof (good_coins n coins Pr Gd) as Gc.
  destruct ok; [by split|by apply good_safe].
Qed.

Lemma AcceptBlockHeader_spec o :
  triple (fun n => good n /\ prev_of o n) (AcceptBlockHeader p env base invalid threads addr literal block o)
    (fun pindex n => good n /\ prev_of o n /\ blocks n !! hash = Some pindex) safe.
Proof.
  intros n [Gd Po]. unfold AcceptBlockHeader. rewrite get_bind. fold hash. destruct (blocks n !! hash) as [pindex|] eqn:L.
  { destruct (failed _ _); [by apply good_safe|done]. }
  destruct o as [q|]; cbn [prev_of] in Po.
  2: { destruct (ni_genesis n (g_inv n Gd)) as [g X]. rewrite <- Po in X. congruence. }
  rewrite mret_bind, get_bind, check_bind. destruct (ContextualCheckBlockHeader _ _ _ _ _ _); [|by apply good_safe|done].
  rewrite call_bind. destruct (AddToBlockIndex _ _ _ _) as [[t new]|] eqn:A; [|done]. rewrite put_bind. unfold mret, Acc_ret.
  destruct (header_inv n (g_inv n Gd) block t new q NZ L Po (g_work n Gd) A) as (I' & Ln & Pn & Sub & NL & Rm & Fl).
  set (n' := set_state (set_tree n t) _) in *. pose proof (lookup_weaken _ _ _ _ Po Sub) as Po'.
  split; [|by split]. split; [done|by apply Rm, Gd| |].
  - intros q' w Q' Pr. rewrite Q' in Po'. injection Po' as <-. by apply (g_work n Gd).
  - intros g. destruct (g_lost n Gd g) as [NL0 Pk]. split; [auto|]. intros r [R|(i & Li & R)].
    + rewrite Po' in R. injection R as <-. destruct (stored_key _ (inv_wf _ _ (ni_tree n (g_inv n Gd))) _ q Po) as [SQ _].
      rewrite Fl by done. apply Pk. by left.
    + rewrite Ln in Li. injection Li as <-. rewrite Pn in R. injection R as <-.
      destruct (stored_key _ (inv_wf _ _ (ni_tree n (g_inv n Gd))) _ q Po) as [SQ _]. rewrite Fl by done. apply Pk. by left.
Qed.

(** The blocks of the active chain are on disk. *)
Lemma active_on_disk n tip a : node_inv n -> is_chain (blocks n) (st_active (n_state n)) tip -> is_ancestor (blocks n) a tip ->
  missing (n_state n) a = false.
Proof.
  intros I CH A. destruct (ni_chain n I) as (tip' & CH' & N & _). pose proof (inv_wf _ _ (ni_tree n I)) as W.
  assert (tip = tip') as ->.
  { destruct (active_tip_ok _ W (n_state n) tip CH) as [_ E1], (active_tip_ok _ W (n_state n) tip' CH') as [_ E2]. congruence. }
  apply (co_data _ _ (ni_counts n I)); [by apply (is_ancestor_stored _ W a tip'); [apply CH|]|].
  by apply (counts_linked _ _ tip' W (ni_counts n I)); [apply CH|..].
Qed.

Lemma node_inv_dirty n k : node_inv n -> node_inv (set_tree n (mark_dirty (n_tree n) k)).
Proof. intros [[] R Ge Wk C Be Ch]. by split; [split|..]. Qed.

Lemma blame_spec o pindex r :
  triple (fun n => good n /\ prev_of o n /\ blocks n !! hash = Some pindex /\ missing (n_state n) pindex = true) (blame pindex r)
    (fun _ n => good n /\ prev_of o n /\ blocks n !! hash = Some pindex /\ missing (n_state n) pindex = true) safe.
Proof.
  intros n (Gd & Po & L & D). unfold blame. destruct r as [|st|]; [done| |done]. destruct (_ && _); [|by apply good_safe].
  set (s' := set_status _ _ _). pose proof (g_inv n Gd) as I. pose proof (inv_wf _ _ (ni_tree n I)) as W.
  assert (T : touches (blocks n) (n_state n) s') by (by apply retains_touches, (retains_mark (n_state n) pindex BLOCK_FAILED_VALID)).
  destruct (ni_chain n I) as (tip & CH & N & F). destruct (stored_key _ W _ pindex L) as [Sp _].
  assert (I' : node_inv (set_state n s')).
  { apply (node_inv_state n I); [done|apply (ni_best n I)|]. exists tip. split; [done|]. split; [done|]. intros a A. unfold s'. rewrite failed_set_status.
    destruct (decide _) as [X|]; [|by apply F]. pose proof (active_on_disk n tip a I CH A) as Da.
    rewrite (stored_inj (blocks n) a pindex) in Da; [congruence|by apply (is_ancestor_stored _ W a tip); [apply CH|]|done|done]. }
  split; [exact (node_inv_dirty _ _ I')|]. intros g. destruct (g_lost n Gd g) as [NL _]. by eapply (nothing_lost_touch (blocks n)).
Qed.

Lemma unspent_on_fork_total n fuel : tree_wf (blocks n) -> forall rb o i, stored (blocks n) i -> (Z.to_nat (bi_nHeight i) < fuel)%nat ->
  exists r, unspent_on_fork env fuel n rb o i = Return r.
Proof.
  intros W. induction fuel as [|fuel IH]; intros rb o i S F; [lia|]. cbn [unspent_on_fork]. destruct (Contains _ i); [by eexists|].
  destruct (_ =? _); [by eexists|]. destruct (parent (blocks n) i) as [q|] eqn:P; [|by eexists].
  destruct (stored_parent_height _ W i q S P) as [Hq SQ]. pose proof (stored_height _ W q SQ).
  case_bool_decide; [apply IH; [done|lia]|]. destruct (n_disk n !! phashBlock i); [|by eexists].
  destruct (fork_txs _ _); [apply IH; [done|lia]|by eexists].
Qed.

Lemma spent_on_active_total n tip count : tree_wf (blocks n) -> is_chain (blocks n) (st_active (n_state n)) tip -> forall h o,
  0 <= h -> h + Z.of_nat count <= bi_nHeight tip + 1 -> exists r, spent_on_active count n h o = Return r.
Proof.
  intros W CH. induction count as [|count IH]; intros h o Hp L; cbn [spent_on_active]; [by eexists|]. case_bool_decide; [by eexists|].
  destruct (ancestor_total _ W tip h (proj1 CH)) as (a & A & Sa & Ha); [lia|].
  assert (E : chain_at (st_active (n_state n)) h = Some (phashBlock a)).
  { destruct (CH) as (_ & Len & _). unfold chain_at. rewrite (proj2 (Z.ltb_ge _ _)), (proj2 (Z.leb_gt _ _)) by lia. cbn [orb]. rewrite <- Ha. apply CH. split; [lia|by rewrite Ha]. }
  rewrite E. cbn [deref mbind run_bind]. rewrite Sa. cbn [deref mbind run_bind]. destruct (n_disk n !! _); [|by eexists]. apply IH; lia.
Qed.

(** What is known once the header is accepted. *)
Definition ready (o : option CBlockIndex) (pindex : CBlockIndex) (n : Node) : Prop :=
  good n /\ prev_of o n /\ blocks n !! hash = Some pindex /\ missing (n_state n) pindex = true.

Lemma CheckForkSpends_spec o pindex n0 spent :
  triple (fun n => n = n0 /\ ready o pindex n) (CheckForkSpends env n0 o spent)
    (fun r n => n = n0 /\ ready o pindex n /\ forall f, snd r = Some f -> Contains (st_active (n_state n0)) f = true /\ 0 <= bi_nHeight f <= chain_Height (st_active (n_state n0))) safe.
Proof.
  intros n [-> Rd]. pose proof Rd as (Gd & Po & _). unfold CheckForkSpends. destruct (_ && _) eqn:Fk; [|by split; [|split]].
  destruct o as [q|]; [|done]. cbn [prev_of] in Po. pose proof (inv_wf _ _ (ni_tree n0 (g_inv n0 Gd))) as W. destruct (stored_key _ W _ q Po) as [SQ _].
  rewrite lift_bind. cbn [deref mbind run_bind]. rewrite lift_bind.
  destruct (unspent_on_fork_total n0 (Datatypes.S (Z.to_nat (bi_nHeight q))) W 0 spent q SQ ltac:(lia)) as [r E].
  unfold IsUnspentOnFork. rewrite E. cbn [mbind run_bind]. rewrite check_bind. destruct r as [[o' f]|st|]; [|by apply good_safe|done].
  destruct (ni_chain n0 (g_inv n0 Gd)) as (tip & CH & _). destruct (unspent_on_fork_spec env n0 W tip _ CH _ _ _ _ _ SQ E) as [(Aq & At & _) _].
  split; [done|]. split; [done|]. intros f' [= <-]. pose proof (is_ancestor_stored _ W f tip (proj1 CH) At) as Sf.
  split; [by apply (Contains_spec _ W _ tip f CH Sf)|]. destruct At as [Lf _]. unfold chain_Height. destruct CH as (_ & -> & _). lia.
Qed.

Lemma CheckActiveSpends_spec o pindex n0 spent fork : (forall f, fork = Some f -> Contains (st_active (n_state n0)) f = true /\ 0 <= bi_nHeight f <= chain_Height (st_active (n_state n0))) ->
  triple (fun n => n = n0 /\ ready o pindex n) (CheckActiveSpends env base n0 spent fork) (fun _ => ready o pindex) safe.
Proof.
  intros Fk n [-> Rd]. pose proof Rd as (Gd & Po & L & D). unfold CheckActiveSpends. destruct (match fork with Some f => _ | None => false end); [by apply good_safe|].
  pose proof (check_coins_hash base fork (elements spent) spent (st_coins (n_state n0))) as Hs.
  destruct (check_coins _ _ _ _ _) as [r coins]. rewrite put_bind, check_bind. pose proof (good_coins n0 coins Hs Gd) as Gc. set (n1 := set_state n0 _) in *.
  assert (Rd1 : ready o pindex n1) by by split. destruct r as [sp|st|]; [|by apply good_safe|done].
  destruct fork as [f|]; [|done]. destruct (Fk f eq_refl) as [Cf Hf]. case_bool_decide; [done|]. rewrite lift_bind.
  unfold IsSpentOnActiveChain. cbn [n1 n_state set_state set_chain st_active]. rewrite Cf. cbn [require].
  destruct (ni_chain n0 (g_inv n0 Gd)) as (tip & CH & _). pose proof (inv_wf _ _ (ni_tree n0 (g_inv n0 Gd))) as W. destruct (CH) as (_ & Len & _).
  destruct (spent_on_active_total n1 tip (Z.to_nat (chain_Height (st_active (n_state n0)) - (bi_nHeight f + 1) + 1)) W CH (bi_nHeight f + 1) sp) as [b ->];
    [lia|unfold chain_Height in *; lia|]. cbn [mbind run_bind]. destruct b; [done|by apply good_safe].
Qed.

Lemma CheckSpends_spec o pindex : triple (ready o pindex) (CheckSpends env base block o) (fun _ => ready o pindex) safe.
Proof.
  unfold CheckSpends. eapply triple_bind; [apply triple_get|]. intros n0. eapply triple_bind.
  - apply (triple_check _ _ (fun _ n => n = n0 /\ ready o pindex n)); [intros n [_ (Gd & _)]; by apply good_safe|done].
  - intros spent. eapply triple_bind; [apply CheckForkSpends_spec|]. intros [o' fork]. cbn [snd].
    intros n (E & Rd & Fk). by apply (CheckActiveSpends_spec o pindex n0 o' fork Fk).
Qed.

Lemma node_inv_received n n' : node_inv n -> receives n n' -> counts_ok (blocks n') (n_state n') -> node_inv n'.
Proof.
  intros I [Same Cn Bh Pv Ac Co Fl] C. pose proof (inv_wf _ _ (ni_tree n I)) as W.
  split; [|by eapply same_root, I| |by eapply same_work, I|done|unfold coins_best; rewrite Ac, Co; apply I|].
  - by eapply same_inv, I.
  - destruct (ni_genesis n I) as [g L]. destruct (same_lookup _ _ Same _ g L) as (g' & L' & _). by exists g'.
  - destruct (ni_chain n I) as (tip & CH & N & F). destruct (same_chain _ _ _ tip Same CH) as (tip' & CH' & E). exists tip'.
    rewrite Ac. split; [done|]. split.
    + pose proof (proj1 CH) as ST. pose proof (proj1 CH') as ST'. strip_fields E. apply (Cn (phashBlock tip) tip tip'); [done| |done].
      unfold stored in ST'. congruence.
    + intros a' A'. destruct (same_ancestor _ _ (symmetry Same) tip' tip a' (symmetry E) A') as (a & A & Ea). rewrite Fl.
      specialize (F a A). strip_fields Ea. unfold failed, status in *. congruence.
Qed.

Lemma receive_spec o pindex :
  triple (ready o pindex)
    (n ← get; n ← lift (ReceivedBlockTransactions addr block pindex (store_block n (phashBlock pindex) block)); _ ← put n; mret pindex)
    (fun _ => safe) safe.
Proof.
  intros n (Gd & Po & L & D). rewrite get_bind, lift_bind. pose proof (g_inv n Gd) as I. pose proof (inv_wf _ _ (ni_tree n I)) as W.
  destruct (stored_key _ W _ pindex L) as [Sp Kp].
  destruct (ReceivedBlockTransactions_spec addr (store_block n (phashBlock pindex) block) block pindex W (ni_counts n I) Sp D Sz (g_room n Gd))
    as (n' & -> & C' & R' & NL). cbn [mbind run_bind]. rewrite put_bind. unfold mret, Acc_ret.
  assert (Rc : receives n n') by (by destruct R'; split). split; [by apply (node_inv_received n n')|].
  intros g. destruct (g_lost n Gd g) as [NL0 Pk]. apply NL; [done|]. intros q Q. apply Pk. right. exists pindex. by split.
Qed.

Lemma AcceptBlock_spec fChecked dbp :
  triple good (AcceptBlock p env base invalid threads addr literal GetTransaction FindBlockPos WriteBlockToDisk block fChecked dbp)
    (fun _ => safe) safe.
Proof.
  unfold AcceptBlock. eapply triple_bind; [apply GetPrevIndex_spec|]. intros o. eapply triple_bind; [apply triple_get|]. intros n0.
  eapply triple_bind; [apply (triple_if _ _ _ _ (fun _ n => good n /\ prev_of o n)); intros _|].
  { apply triple_ret. by intros n [_ Rd]. }
  { apply triple_call. by intros a n _ [_ Rd]. }
  intros work. apply triple_if; intros _; [apply triple_check; [intros n [Gd _]; by apply good_safe|done]|].
  eapply triple_bind; [apply (triple_if _ _ _ _ (fun _ n => good n /\ prev_of o n)); intros _; [apply CheckStake_spec|by apply triple_ret]|].
  intros []. eapply triple_bind; [apply AcceptBlockHeader_spec|]. intros pindex. eapply triple_bind; [apply triple_get|]. intros n1.
  apply triple_if; [intros _; apply triple_ret; intros n (_ & Gd & _); by apply good_safe|]. intros D. apply negb_false_iff in D.
  eapply triple_bind; [eapply triple_conseq; [apply (blame_spec o pindex)|intros n (-> & Gd & Po & L); done|intros a n X; exact X]|]. intros [].
  eapply triple_bind; [apply (triple_if _ _ _ _ (fun _ => ready o pindex)); intros _; [apply CheckSpends_spec|by apply triple_ret]|]. intros [].
  assert (Sf : forall n, ready o pindex n -> safe n) by (intros n (Gd & _); by apply good_safe).
  apply triple_if; intros _; [by apply triple_check; [exact Sf|]|]. apply triple_if; intros _; [by apply triple_check; [exact Sf|]|].
  apply receive_spec.
Qed.

End Accepting.
(** *** ProcessNewBlock *)

Lemma CheckBlock_nonempty m v block fChecked r : (fChecked = true -> vtx block <> []) ->
  CheckBlock p env m v block fChecked true true true = Valid r -> 0 < size (vtx block).
Proof.
  intros Fc. assert (X : vtx block <> [] -> 0 < size (vtx block)) by (unfold size; destruct (vtx block); [done|cbn; lia]).
  unfold CheckBlock. destruct fChecked; [auto|]. intros E. valid_inv E. apply X. intros V. rewrite V in *. done.
Qed.

Lemma ProcessNewBlock_spec n (block : CBlock) fChecked dbp :
  node_inv n -> CBlockHeader_GetHash block <> 0 -> (fChecked = true -> vtx block <> []) ->
  room (blocks n) (size (vtx block)) -> adds_work block (blocks n) ->
  match ProcessNewBlock p env base invalid threads addr literal GetTransaction FindBlockPos WriteBlockToDisk block fChecked dbp n with
  | Return (ok, n') => node_inv n' /\
      (nothing_lost (blocks n) (n_state n) -> parent_ok block n -> nothing_lost (blocks n') (n_state n')) /\
      (ok = true -> settled (blocks n') base (sequence n') addr (n_state n'))
  | Crashed => True
  | AssertFailed | OutOfFuel => False
  end.
Proof.
  intros I NZ Fc R Wk. unfold ProcessNewBlock. destruct (CheckBlock _ _ _ _ _ _ _ _ _) as [fc|st|] eqn:C; [|done|done].
  apply CheckBlock_nonempty in C; [|done]. set (G := nothing_lost (blocks n) (n_state n) /\ parent_ok block n).
  assert (Gd : good block G n) by (split; [done..|]; by intros [? ?]).
  pose proof (AcceptBlock_spec block G NZ C fc dbp n Gd) as A.
  destruct (AcceptBlock _ _ _ _ _ _ _ _ _ _ _ _ _ n) as [[n1 [st|i]]| | |]; cbn [mbind run_bind]; try done.
  - destruct A as [I1 L1]. split; [done|]. split; [|done]. intros NL P. apply L1. by split.
  - destruct A as [I1 L1]. pose proof (Activate_spec n1 I1 (Some (block, fc))) as X.
    destruct (Activate _ _ _ _ _ _ _ _) as [[ok n2]| | |]; try done. destruct X as (I2 & Tr & Sq & T & St). split; [done|]. split.
    + intros NL P. rewrite Tr. apply (nothing_lost_touch _ _ _ T), L1. by split.
    + intros Ok. unfold sequence. rewrite Tr, Sq. by apply St.
Qed.

End Node.

(** ** Runs *)

Section Runs.
Context `{HashFunctions, Ecdsa, SaplingTree, SaplingVerifier} (p : CChainParams) (base : CCoinsView) (addr : Z -> Z) (literal : Z).

(** The index of a genesis block that is received and connected. *)
Record genesis_index (i : CBlockIndex) : Prop := {
  gi_hash : phashBlock i = hashGenesisBlock (consensus p);
  gi_nonzero : phashBlock i <> 0;
  gi_root : bi_nHeight i = 0 /\ pprev i = None;
  gi_tx : nTx i = 1 /\ nChainTx i = 1;
  gi_totals : exists w, GetBlockProof (bi_nBits i) = Some w /\ nChainWork i = arith_add 0 w /\ nTimeMax i = bi_nTime i;
  gi_modifier : vStakeModifier i = []
}.

Definition genesis_node (i : CBlockIndex) (coins : CCoinsViewCache) (block : CBlock) : Node := {|
  n_tree := {| bt_map := {[phashBlock i := i]}; pindexBestHeader := Some (phashBlock i); setDirtyBlockIndex := ∅; mapPrevBlockIndex := [] |};
  n_state := {| st_status := {[phashBlock i := Z.lor BLOCK_HAVE_DATA BLOCK_VALID_SCRIPTS]}; st_candidates := {[phashBlock i]};
                st_active := [phashBlock i]; st_coins := coins; st_undo := ∅; st_best_invalid := None; st_unlinked := [] |};
  n_sequence := ∅; nBlockSequenceId := 1; n_disk := {[phashBlock i := block]}
|}.

Lemma genesis_node_inv i coins block : genesis_index i -> fst (GetBestBlock base coins) = phashBlock i -> let n := genesis_node i coins block in
  node_inv p base n /\ nothing_lost (blocks n) (n_state n).
Proof.
  intros [Hh NZ [H0' Pp] [T1 C1] (w & Pr & Wk & Tm) Md] Be n. set (m := {[phashBlock i := i]} : BlockMap). set (s := n_state n).
  assert (St : forall j, stored m j -> j = i) by (intros j L; by apply lookup_singleton_Some in L as [_ <-]).
  assert (Si : stored m i) by apply lookup_singleton_eq. assert (Par : forall j, stored m j -> parent m j = None) by (intros j S; rewrite (St j S); unfold parent; by rewrite Pp).
  assert (W : tree_wf m).
  { intros k j [<- <-]%lookup_singleton_Some. split; [done|]. split; [done|]. split; [lia|]. split; [done|lia]. }
  assert (Dt : missing s i = false) by (unfold missing, status, s; cbn; by rewrite lookup_singleton_eq).
  assert (An : forall a, is_ancestor m a i -> a = i).
  { intros a [L A]. replace (bi_nHeight a) with (bi_nHeight i) in A by lia. rewrite ancestor_self in A. congruence. }
  split.
  - split.
    + split; cbn [n genesis_node n_tree bt_map pindexBestHeader mapPrevBlockIndex]; fold m; [done| | | |].
      * intros k j [<- <-]%lookup_singleton_Some. exists w. split; [done|]. by rewrite (Par i Si).
      * intros k j [<- <-]%lookup_singleton_Some. unfold modifier_ok. by rewrite Pp.
      * intros k j [<- <-]%lookup_singleton_Some. exists (phashBlock i), i. split; [done|]. split; [apply lookup_singleton_eq|lia].
      * intros kp k. split; [intros X; by apply elem_of_nil in X|]. intros (j & [_ <-]%lookup_singleton_Some & X). congruence.
    + intros a b Sa Sb _ _. by rewrite (St a Sa), (St b Sb).
    + rewrite <- Hh. by exists i.
    + intros a b Sa P. change (parent m a = Some b) in P. by rewrite (Par a Sa) in P.
    + split.
      * intros a b Sa _ P. change (parent m a = Some b) in P. by rewrite (Par a Sa) in P.
      * intros a Sa _. rewrite (St a Sa). pose proof (chain_txs_root m W i Si (Par i Si)) as X. change (nChainTx i = chain_txs m i). lia.
      * intros a Sa _. by rewrite (St a Sa).
      * intros a Sa. rewrite (St a Sa). change (if missing s i then nTx i = 0 else 0 < nTx i). rewrite Dt. lia.
      * intros a Sa. rewrite (St a Sa). unfold tree_valid, status. cbn. rewrite lookup_singleton_eq. done.
      * intros kp k X. by apply elem_of_nil in X.
      * intros k X. change (k ∈ ({[phashBlock i]} : gset Z)) in X. apply elem_of_singleton in X as ->. exists i. split; [done|lia].
    + cbn. f_equal. symmetry. exact Be.
    + exists i. split; [|split; [lia|]].
      * split; [done|]. split; [by rewrite H0'|]. intros a A. rewrite (An a A). unfold on_chain. rewrite H0'. done.
      * intros a A. rewrite (An a A). unfold failed, status. cbn. rewrite lookup_singleton_eq. done.
  - intros j Sj _ N. rewrite (St j Sj) in N. lia.
Qed.

(** Blocks arrive, are declared invalid by hand and reconsidered, in any order;
    at each step the clock, the sporks and the other settings ([env]), the list
    of fraudulent outputs, the number of threads, the transaction index and the
    answers of the file system may be different.  A call of [InvalidateBlock]
    that answers false, because a block could not be disconnected, ends the
    run.  [clean] is whether no block is offered on a parent that has failed. *)
Inductive reachable (clean : bool) : Node -> Prop :=
  | reach_genesis i coins block : genesis_index i -> fst (GetBestBlock base coins) = phashBlock i -> reachable clean (genesis_node i coins block)
  | reach_block env invalid threads GetTransaction FindBlockPos WriteBlockToDisk n (block : CBlock) dbp ok n' :
      reachable clean n -> CBlockHeader_GetHash block <> 0 -> room (blocks n) (size (vtx block)) -> adds_work block (blocks n) ->
      (clean = true -> parent_ok block n) ->
      ProcessNewBlock p env base invalid threads addr literal GetTransaction FindBlockPos WriteBlockToDisk block false dbp n = Return (ok, n') ->
      reachable clean n'
  | reach_invalidate n k pindex n' :
      reachable clean n -> blocks n !! k = Some pindex -> pprev pindex <> None -> InvalidateBlock p base addr pindex n = Return (true, n') ->
      reachable clean n'
  | reach_reconsider n k pindex n' :
      reachable clean n -> blocks n !! k = Some pindex -> ReconsiderBlock addr pindex n = Return n' -> reachable clean n'
  | reach_activate env invalid threads n ok n' :
      reachable clean n -> Activate p env base invalid threads addr None n = Return (ok, n') -> reachable clean n'.

Lemma not_root m pindex k : tree_wf m -> m !! k = Some pindex -> pprev pindex <> None -> parent m pindex <> None.
Proof.
  intros W L N P. destruct (W k pindex L) as (_ & _ & H0' & R & Q). destruct (decide (bi_nHeight pindex = 0)) as [Z0|]; [auto|].
  destruct Q as [(q & Q & _) _]; [lia|congruence].
Qed.

Lemma reachable_inv clean n : reachable clean n -> node_inv p base n /\ (clean = true -> nothing_lost (blocks n) (n_state n)).
Proof.
  intros R. induction R as [i coins block Gi Be|env invalid threads gt fp wb n block dbp ok n' R [I NL] NZ Rm Wk Pk E
    |n k pindex n' R [I NL] L N E|n k pindex n' R [I NL] L E|env invalid threads n ok n' R [I NL] E].
  - destruct (genesis_node_inv i coins block Gi Be). by split.
  - pose proof (ProcessNewBlock_spec p env base invalid threads addr literal gt fp wb n block false dbp I NZ ltac:(done) Rm Wk) as X. rewrite E in X.
    destruct X as (I' & NL' & _). split; [done|]. intros Cl. auto.
  - pose proof (inv_wf _ _ (ni_tree _ _ n I)) as W. destruct (stored_key _ W k pindex L) as [Sp _].
    pose proof (InvalidateBlock_spec p base addr n I pindex Sp (not_root _ _ k W L N)) as X. rewrite E in X. destruct X as (I' & Tr & T & _).
    split; [done|]. intros Cl. rewrite Tr. by apply (nothing_lost_touch _ _ _ T), NL.
  - pose proof (inv_wf _ _ (ni_tree _ _ n I)) as W. destruct (stored_key _ W k pindex L) as [Sp _].
    destruct (ReconsiderBlock_spec p base addr n I pindex Sp) as (s' & E' & Rx & I'). rewrite E' in E. injection E as <-.
    split; [done|]. intros Cl. by apply (nothing_lost_touch _ _ _ (rx_touches _ _ _ Rx)), NL.
  - pose proof (Activate_spec p env base invalid threads addr n I None) as X. rewrite E in X. destruct X as (I' & Tr & _ & T & _). split; [done|].
    intros Cl. rewrite Tr. by apply (nothing_lost_touch _ _ _ T), NL.
Qed.

(** A block counts only with all its ancestors on disk, and, where nothing is
    lost, whenever they are. *)
Lemma counts_on_disk n i : node_inv p base n -> stored (blocks n) i -> nChainTx i <> 0 ->
  forall a, is_ancestor (blocks n) a i -> missing (n_state n) a = false.
Proof.
  intros I S N a A. pose proof (inv_wf _ _ (ni_tree _ _ n I)) as W. apply (co_data _ _ (ni_counts _ _ n I)).
  - by apply (is_ancestor_stored _ W a i).
  - by apply (counts_linked _ (n_state n) i W (ni_counts _ _ n I)).
Qed.

Lemma on_disk_counts n : node_inv p base n -> nothing_lost (blocks n) (n_state n) -> forall i, stored (blocks n) i ->
  (forall a, is_ancestor (blocks n) a i -> missing (n_state n) a = false) -> nChainTx i <> 0.
Proof.
  intros I NL. pose proof (inv_wf _ _ (ni_tree _ _ n I)) as W. refine (stored_ind _ W _ _). intros i S IH D N.
  destruct (NL i S (D i (is_ancestor_refl _ W i S)) N) as (_ & q & P & Nq). destruct (stored_parent_height _ W i q S P) as [Hq SQ].
  apply (IH q P SQ); [|done]. intros a A. apply D. apply (is_ancestor_trans _ W a q i); [done..|].
  by apply (is_ancestor_parent _ W).
Qed.

(** C5. The node stays consistent.  A run starts at a connected genesis block;
    blocks arrive, valid or not, are invalidated and reconsidered by hand, in
    any order and under settings that may change at every step, as long as no
    operation dies and every [InvalidateBlock] succeeds in disconnecting.  A
    block that arrives has a hash that is not null, adds work to its parent
    without overflow of 256 bits, and the transactions of a chain stay below
    2^32.  Then the active chain leads to a tip at which the coins are, and
    none of its blocks has failed or lacks its data; a candidate for the tip is
    a known block whose whole chain is on disk; a block whose [nChainTx] is set
    has all its ancestors on disk and [nChainTx] is the number of transactions
    up to it.  If no block was offered on a failed parent, [nChainTx] is
    moreover set as soon as all ancestors are on disk, in whatever order they
    came. *)
Theorem node_consistent clean n : reachable clean n -> let m := blocks n in let s := n_state n in
  (exists tip, is_chain m (st_active s) tip /\ coins_best base s = phashBlock tip /\
     forall a, is_ancestor m a tip -> failed s a = false /\ missing s a = false) /\
  (forall k, k ∈ st_candidates s -> exists i, m !! k = Some i /\ forall a, is_ancestor m a i -> missing s a = false) /\
  (forall i, stored m i -> nChainTx i <> 0 -> nChainTx i = chain_txs m i /\ forall a, is_ancestor m a i -> missing s a = false) /\
  (clean = true -> forall i, stored m i -> (forall a, is_ancestor m a i -> missing s a = false) -> nChainTx i <> 0).
Proof.
  intros [I NL]%reachable_inv. pose proof (inv_wf _ _ (ni_tree _ _ n I)) as W. split; [|split; [|split]].
  - destruct (ni_chain _ _ n I) as (tip & CH & N & F). exists tip. split; [done|].
    split; [destruct (active_tip_ok _ W (n_state n) tip CH) as [E _]; pose proof (ni_best _ _ n I); congruence|].
    intros a A. split; [by apply F|]. by apply (counts_on_disk n tip I (proj1 CH) N).
  - intros k K. destruct (co_candidates _ _ (ni_counts _ _ n I) k K) as (i & L & N). exists i. split; [done|].
    by apply counts_on_disk; [|apply (stored_key _ W k)|].
  - intros i S N. split; [by apply (co_count _ _ (ni_counts _ _ n I))|by apply counts_on_disk].
  - intros Cl. apply on_disk_counts; auto.
Qed.

(** C6. The choice of the chain never gets stuck.  In every state that such a
    run reaches, and under any settings, the loops of the four operations end,
    and their assertions hold, those of [ConnectTip] and [DisconnectTip]
    included, and the pointers that they follow are not null, whatever block
    arrives.  What is not excluded ([Crashed]) is that the process dies in the
    code for one block that they call: in [CheckBlock] and the contextual
    checks, in [CheckProofOfStake] or [AddToBlockIndex] (which read past the
    end of a vector on some blocks), in [ConnectBlock] or [DisconnectBlock], or
    by the exception of a flush.  When [ProcessNewBlock] or [ActivateBestChain]
    answers true no candidate is better than the tip; when [InvalidateBlock]
    does, the block has failed and is off the active chain; [ReconsiderBlock]
    always succeeds and fails no block. *)
Theorem node_never_stuck clean n : reachable clean n ->
  (forall env invalid threads GetTransaction FindBlockPos WriteBlockToDisk (block : CBlock) dbp,
     CBlockHeader_GetHash block <> 0 -> room (blocks n) (size (vtx block)) -> adds_work block (blocks n) ->
     match ProcessNewBlock p env base invalid threads addr literal GetTransaction FindBlockPos WriteBlockToDisk block false dbp n with
     | Return (ok, n') => ok = true -> settled (blocks n') base (sequence n') addr (n_state n')
     | Crashed => True
     | AssertFailed | OutOfFuel => False
     end) /\
  (forall k pindex, blocks n !! k = Some pindex -> pprev pindex <> None ->
     match InvalidateBlock p base addr pindex n with
     | Return (ok, n') => ok = true -> failed (n_state n') pindex = true /\ Contains (st_active (n_state n')) pindex = false
     | Crashed => True
     | AssertFailed | OutOfFuel => False
     end) /\
  (forall k pindex, blocks n !! k = Some pindex ->
     exists s', ReconsiderBlock addr pindex n = Return (set_state n s') /\ forall a, failed (n_state n) a = false -> failed s' a = false) /\
  forall env invalid threads, match Activate p env base invalid threads addr None n with
  | Return (ok, n') => ok = true -> settled (blocks n') base (sequence n') addr (n_state n')
  | Crashed => True
  | AssertFailed | OutOfFuel => False
  end.
Proof.
  intros [I _]%reachable_inv. pose proof (inv_wf _ _ (ni_tree _ _ n I)) as W. split; [|split; [|split]].
  - intros env invalid threads gt fp wb block dbp NZ R Wk.
    pose proof (ProcessNewBlock_spec p env base invalid threads addr literal gt fp wb n block false dbp I NZ ltac:(done) R Wk) as X.
    destruct (ProcessNewBlock _ _ _ _ _ _ _ _ _ _ _ _ _ _) as [[ok n']| | |]; [apply X|done..].
  - intros k pindex L N. destruct (stored_key _ W k pindex L) as [Sp _].
    pose proof (InvalidateBlock_spec p base addr n I pindex Sp (not_root _ _ k W L N)) as X.
    destruct (InvalidateBlock _ _ _ _ _) as [[[] n']| | |]; try done. intros _. split; apply X.
  - intros k pindex L. destruct (stored_key _ W k pindex L) as [Sp _]. destruct (ReconsiderBlock_spec p base addr n I pindex Sp) as (s' & E & R & _).
    exists s'. split; [done|]. apply (rx_failed _ _ _ R).
  - intros env invalid threads. pose proof (Activate_spec p env base invalid threads addr n I None) as X.
    destruct (Activate _ _ _ _ _ _ _ _) as [[ok n']| | |]; try done.
    destruct X as (_ & Tr & Sq & _ & St). unfold sequence. rewrite Tr, Sq. exact St.
Qed.

End Runs.

(** ** A run on the regression-test network *)

(** No proof verifies, the hashes are sums of their input. *)
Definition no_proofs : SaplingVerifier := {|
  verification_ctx := unit; verification_ctx_init := tt; sapling_check_spend := fun _ _ _ => None; sapling_check_output := fun _ _ => None;
  sapling_final_check := fun _ _ _ _ => false
|}.

Definition short_hash (data : list Z) : list Z := le_bytes 31 (le_value data + 1) ++ [0].

Definition short_hashes : HashFunctions := {|
  SHA256 := short_hash; RIPEMD160 := checksum 20; SHA1 := checksum 20;
  HashQuark data := le_value (short_hash data); BLAKE2b personal data := le_value (short_hash (personal ++ data))
|}.

Definition run_params : CChainParams := CreateChainParams REGTEST.

Definition run_genesis : CBlockIndex := {|
  phashBlock := hashGenesisBlock (consensus run_params); pprev := None; pskip := None; bi_nHeight := 0; nChainWork := 2; nTx := 1; nChainTx := 1;
  nStatus := 0; vStakeModifier := []; nFlags := 0; nSaplingValue := 0; nChainSaplingValue := Some 0; bi_nVersion := 8;
  bi_hashMerkleRoot := 0; bi_hashFinalSaplingRoot := 1; bi_nTime := 1785920000; bi_nBits := 0x207fffff; bi_nNonce := 2;
  bi_nAccumulatorCheckpoint := 0; nTimeMax := 1785920000
|}.

Definition run_view : CCoinsView (H := counting_tree) := {|
  v_GetCoin := fun _ => None; v_GetBestBlock := hashGenesisBlock (consensus run_params);
  v_GetSaplingAnchorAt := fun rt => if rt =? 1 then Some (1 : SaplingMerkleTree (SaplingTree := counting_tree)) else None;
  v_GetNullifier := fun _ => false; v_GetBestAnchor := 1
|}.

(** The block of the premine. *)
Definition run_block : CBlock := {|
  header := {| nVersion := 8; hashPrevBlock := hashGenesisBlock (consensus run_params);
               hashMerkleRoot := GetHash (H := short_hashes) premine_coinbase;
               nTime := 1785920060; nBits := 0x207fffff; nNonce := 0; nAccumulatorCheckpoint := 0; hashFinalSaplingRoot := 1 |};
  vtx := [premine_coinbase]; vchBlockSig := []
|}.

Definition run_start : Node (H := counting_tree) := genesis_node run_genesis new_cache run_block.

Abbreviation run_reachable :=
  (reachable (H := short_hashes) (H0 := echo_ecdsa) (H2 := no_proofs) run_params run_view (fun k => k) 0).

Abbreviation run_ProcessNewBlock :=
  (ProcessNewBlock (H := short_hashes) (H0 := echo_ecdsa) (H2 := no_proofs) run_params example_env run_view (fun _ => false) false (fun k => k) 0
     (fun _ => None) (fun _ => true) (fun _ => true)).

Lemma run_start_reachable clean : run_reachable clean run_start.
Proof.
  apply reach_genesis; [|done]. split; [done|done|done|done| |done]. exists 2. split; [vm_compute; reflexivity|]. by split.
Qed.

Lemma run_start_stored i : stored (blocks run_start) i -> i = run_genesis.
Proof. unfold stored, blocks, run_start, genesis_node. cbn [n_tree bt_map]. by intros [_ <-]%lookup_singleton_Some. Qed.

Lemma run_block_fits : room (blocks run_start) (size (vtx run_block)) /\ adds_work run_block (blocks run_start).
Proof.
  split.
  - intros i ->%run_start_stored. vm_compute. reflexivity.
  - unfold adds_work, blocks, run_start, genesis_node. cbn [n_tree bt_map]. intros q w [_ <-]%lookup_singleton_Some E. vm_compute in E. injection E as <-. split; [lia|vm_compute; reflexivity].
Qed.

Lemma run_block_hash : CBlockHeader_GetHash (H := short_hashes) run_block <> 0.
Proof. by vm_compute. Qed.

Lemma run_block_accepted : exists n', run_ProcessNewBlock run_block false false run_start = Return (true, n') /\
  st_active (n_state n') = [phashBlock run_genesis; CBlockHeader_GetHash (H := short_hashes) run_block].
Proof.
  assert (V : match run_ProcessNewBlock run_block false false run_start with
              | Return (ok, n') => (ok, st_active (n_state n')) = (true, [phashBlock run_genesis; CBlockHeader_GetHash (H := short_hashes) run_block])
              | _ => False end) by (vm_compute; reflexivity).
  destruct (run_ProcessNewBlock _ _ _ _) as [[ok n']| | |]; try done. injection V as -> V. by exists n'.
Qed.

Lemma node_consistent_witness : exists n', run_ProcessNewBlock run_block false false run_start = Return (true, n') /\
  (size (st_active (n_state n')) = 2) /\
  (exists tip, is_chain (blocks n') (st_active (n_state n')) tip /\ coins_best run_view (n_state n') = phashBlock tip /\
     forall a, is_ancestor (blocks n') a tip -> failed (n_state n') a = false /\ missing (n_state n') a = false).
Proof.
  destruct run_block_accepted as (n' & E & A). exists n'. split; [exact E|]. split; [by rewrite A|]. destruct run_block_fits as [R Wk].
  assert (Rn : run_reachable false n').
  { apply (reach_block _ _ _ _ _ example_env (fun _ => false) false (fun _ => None) (fun _ => true) (fun _ => true) run_start run_block false true n'); [apply run_start_reachable|exact run_block_hash|exact R|exact Wk|discriminate|exact E]. }
  apply (node_consistent _ _ _ _ false n' Rn).
Defined.

Lemma node_never_stuck_witness :
  match run_ProcessNewBlock run_block false false run_start with
  | Return (ok, n') => ok = true /\ settled (blocks n') run_view (sequence n') (fun k => k) (n_state n')
  | _ => False
  end.
Proof.
  destruct run_block_fits as [R Wk]. destruct run_block_accepted as (n' & E & _).
  pose proof (proj1 (node_never_stuck _ _ _ _ false run_start (run_start_reachable false)) example_env (fun _ => false) false (fun _ => None) (fun _ => true) (fun _ => true)
    run_block false run_block_hash R Wk) as X.
  rewrite E in *. split; [reflexivity|]. by apply X.
Defined.
